(* ===== verification/_CoqProject ===== *)
-Q . S2P
Prelude.v
Util.v
Time.v
Lease.v
Hash.v
Keylist.v
Assoc.v
Item.v
State.v
Slabs.v
Items.v
Startup.v
Sys.v
Log.v
Sock.v
Accept.v
Boot.v
Spawn.v
Crew.v
Queue.v
QueueOk.v
Chain.v
Conc.v
Cache.v
Klog.v
KlogOk.v
Stats.v
StatsOk.v
IQ.v
CO.v
Conn.v
Ascii.v
AsciiCmd.v
Report.v
ReportOk.v
Core.v
Pool.v
PoolOk.v
Inv.v
SlabsOk.v
ItemsOk.v
StoreOk.v
RoomOk.v
StartupOk.v
SockOk.v
LogOk.v
BootOk.v
IQOk.v
QuarantineOk.v
ReleaseOk.v
RollbackOk.v
SwapOk.v
COOk.v
ConnOk.v
AsciiOk.v
GetOk.v
CoreOk.v
ServeOk.v
SetOk.v
