(* ===== verification/Prelude.v ===== *)
(** * A verification library for IQ-Twemcached, the cache server of Rejig

    IQ-Twemcached (src/IQ-Twemcached/src) is Twitter's memcached with leases for
    strong consistency, the C and O leases of sessions, and the configuration
    numbers of Rejig, by which a server refuses clients that work with an
    outdated assignment of fragments to servers.  The library models the server
    as functions in an option and state monad, and proves what a client relies
    on.  [None] is undefined behaviour (a NULL pointer followed, an access
    outside a chunk, a lock taken twice, a division by zero) or a fuel that was
    too small; a statement [wp m Q s] says that [m] run from [s] returns, without
    undefined behaviour, with [Q].

    ** The program and the files that model it

    Definitions, in dependency order:
    - [Prelude]: integers of machine width, the monad and its notation, [wp]
      and [wlp] (what holds if a function returns) with their rules, memory as lists of optional bytes (a byte that was never written
      is [None]), shared lemmas, tactics and hints.
    - [Util] (mc_util.c): reserved prefixes of keys, [strtol] and its relatives,
      printing of numbers, bounded formatting.
    - [Time] (mc_time.c): the 32 bit clock and expiry times.
    - [Lease] (mc_lease.c): tokens from a 64 bit counter.
    - [Hash] (mc_hash.c): lookup3 with its three readers.
    - [Keylist] (mc_sqltrig.c): packed sorted lists of keys in a buffer.
    - [Assoc] (mc_assoc.c): the hash table and its incremental expansion.
    - [Item] (mc_items.h): the fields, flags and layout of an item.
    - [State]: the globals of mc_slabs.c, mc_items.c, mc_assoc.c, mc_lease.c and
      mc_time.c as the record [st], and the accesses to them.  A pointer to an
      item is a slab and an offset.  The hash table is the one of [Assoc]; what
      its clients use of it is the lookup by key, which [Assoc] shows to be that
      of a finite map whatever the state of an expansion.
    - [Slabs] (mc_slabs.c): slab classes, the ordinary heap and the one for
      leases, eviction.
    - [Items] (mc_items.c): allocation, linking, lookup, store, incr and decr,
      delete, touch.
    - [Startup] (mc.c): default settings, command line options, slab profiles, and
      the order of the steps of [main].
    - [Sys]: programs as trees of calls to the operating system, the world these
      calls observe and change, and the answers the system may give ([sat]: a
      program ends properly whatever these are).
    - [Log] (mc_log.c, mc_signal.c, part of mc_util.c): the lines and dumps of the
      debug log in their buffers, its level and file, and the signal handlers.
    - [Sock] (mc_util.c, mc_core.c): the options of sockets and the sockets the
      server listens on.
    - [Accept] (mc_core.c): the listening sockets turned off and on.
    - [Boot] (mc.c): the limits, the user, the background and the pid file.
    - [Spawn] (mc_thread.c): the creation of the threads and the wait for them, as
      interleaved steps, with its theorems.
    - [Crew] (mc_thread.c): what [thread_init] gives each thread, with its theorem.
    - [Queue] (mc_queue.h): the queue macros on a memory of links.
    - [Conc]: threads as sequences of atomic accesses, their interleavings, and a
      rely-guarantee rule for them.
    - [Cache] (mc_cache.c): the cache of suffix buffers, with its theorems.
    - [Klog] (mc_klog.c): the command log, with workers and logger as threads.
    - [Stats] (mc_stats.c, mc_stats.h): the metrics, their updates and their
      aggregation; an operation of the store leaves its updates in [events].
    - [IQ] (mc_items.c): the I and Q leases of readers and transactions.
    - [CO] (mc_items.c): sessions with their C and O leases.
    - [Conn] (mc_connection.c, core_transmit of mc_core.c): the vector a response
      is assembled in and its transmission.
    - [Ascii], [AsciiCmd] (mc_ascii.c): the tokenizer, the recognition of
      commands, the writers of responses, and every handler.
    - [Report] (mc_stats.c, mc_items.c): the texts of the [stats] commands.
    - [Core] (mc_core.c, part of mc_connection.c): the state machine of a
      connection, from the socket to the socket.
    - [Pool] (mc_connection.c, mc_thread.c, core_accept of mc_core.c): connection
      structures, accepting of clients and their dispatch to the workers, as
      threads.

    The record [core] of a connection holds the record [asc] (what the protocol
    works on), which holds the [st] of the server and the [outv] of the response;
    the operations of one layer are lifted into the next ([on_store], [on_out],
    [on_srv]) the way the C functions call each other.

    Theorems, in dependency order:
    - [QueueOk], [Chain]: the queue macros implement lists (the classes [queue] and
      [tail_queue] state what they promise), those of the two kinds of tail queues in
      every history of operations on any number of queues; the loops over the hash chains do what [Assoc] says of
      lists.
    - [KlogOk]: the command log loses, reorders and overwrites nothing it accepted.
    - [StatsOk], [ReportOk]: a report shows the sums of the calls of all threads,
      in whole lines.
    - [PoolOk]: connections are handed over in order and never shared.
    - [Inv]: the invariant [inv H s] of the shared state relative to the list [H]
      of references that are held, and [frame], what no operation changes.
    - [SlabsOk], [ItemsOk]: the allocator and the operations on items preserve
      the invariant and change no item that somebody references.
    - [StoreOk]: the cache refines a partial map from keys to items ([serves]):
      each command stores, reads or removes what memcached documents, allocation
      only loses entries, and the state after start-up satisfies the invariant.
    - [RoomOk]: an allocation succeeds while its pool has room, and what a call that
      fails has found.
    - [StartupOk]: every accepted command line, if its numbers fit an [int], leads to
      well-formed settings, and with slabs of at most 4 MB to such a state.
    - [SockOk]: what is opened to listen is owned by a connection or closed again.
    - [LogOk]: the log writes what it should within its buffers, and keeps its level
      and its descriptor whatever signals arrive.
    - [BootOk]: the process that starts to serve is the one that was asked for.
    - [IQOk]: an item is filled only with the token of the I lease; a reader that
      misses gets that lease or is told to back off, unless the pool of leases is out
      of memory; a lease is released by its token only.
    - [QuarantineOk]: a transaction that quarantines its first key takes the lease
      over from the readers, whose tokens are void from then on.
    - [ReleaseOk]: a transaction that invalidates its keys, shares none of their Q
      leases, and ends leaves no value, no lease and no trace of itself.
    - [RollbackOk]: a transaction that is given up leaves every value as it was.
    - [SwapOk]: a new value is swapped in only with the token of the lease.
    - [COOk]: a session that was aborted is told so by whatever it does next.
    - [ConnOk]: the response vector holds the bytes that were appended; what the
      socket takes of it is sent in order and completely.
    - [AsciiOk]: tokens are the words of the line, every command name is
      recognised, a client of another configuration is refused and changes
      nothing; which commands never change the store.
    - [GetOk]: the response to a get.
    - [CoreOk]: reading and skipping of values, and sending, however the socket
      behaves.
    - [ServeOk]: a get from its first byte to its last.
    - [SetOk]: a set from its first byte to its last.

    Statements of the form [leads e n Q c] (in [CoreOk]) say that the machine does
    reach a state with [Q]: they are about the one run there is
    ([turn_deterministic]), so they state both what happens and that it happens.

    ** Bounds and fuel

    - [MAX_HELD] (13000) bounds the references held at a time, and [MAX_SLAB]
      (4 MB) the size of a slab: the reference count of a slab is 16 bits wide and
      counts the references of all its chunks, so that without the bounds it
      wraps.
    - The slab heaps are sized by the options; class 255 is the mark of an invalid
      class.
    - [conn_add_iov] runs its loop with one round more than the bytes to be added;
      each round adds at least one byte, and [conn_add_iov_appends] shows it
      returns.
    - The loop of reads of the socket has six rounds, more than its own bound on
      reallocations lets it make ([read_loop_spec]).
    - The lines of a long request are handled by [rq_fuel] rounds, one for each
      run of tokens; a theorem asks for more rounds than there are keys.
    - [core_drive_machine] has a fuel of turns; the theorems are about turns.
    - The buffer of a report is doubled at most 64 times, more than a size has bits;
      reports of up to [REPORT_MAX] bytes are covered.
    - Walks over links have one round more than there are cells in memory.
    - The search for the send buffer has 29 rounds: it starts from an interval of
      less than [2 ^ 29] sizes and halves it ([maximize_sndbuf_finds]).
    - A dump has a round for each byte, and each takes one at least.

    ** What is given from outside

    [rand], [malloc], [realloc], the bytes of fresh memory, what the socket
    brings and takes, and whether libevent accepts a registration are streams in
    the state, and nothing is assumed of them unless a theorem says so.  The
    handler of [stats] is given the text that [Report] writes.  [getopt_long] and
    [atof] are arguments of [Startup].  In [Sys] a call that succeeds does what its
    manual page says, and every call may fail; the functions of [Pool] that [Sock]
    calls are such calls too.  The texts of errors, the symbols of a backtrace and
    the text of an address are given.

    ** Simplifications

    - An entry of the response vector is the bytes it pointed to when it was
      added.  [get_served] shows that the items a response points into are
      referenced until it is sent, and [item_alloc_safe] that a referenced item is
      not changed by others.
    - The chunks of a slab are their parsed fields and payload; two chunks of a
      slab do not overlap (the geometry in [Inv]).
    - Critical sections are atomic: each command takes [cache_lock] for each of
      its calls of the item module, and the invariant holds between the calls
      whatever references others hold; connections are not interleaved within a
      statement about commands.  [KlogOk] and [PoolOk] are about interleavings.
    - The queues of items and slabs are lists in [State]; [QueueOk] shows what the
      macros do.
    - Fields that start with [g_] in [Pool], [lines], [taken] and [sent] in [Klog],
      and what [threads_run] of [Crew] pairs with each thread (the events watched when
      it was created) record the history of the program and do not influence it.
    - The assertions of the code are compiled out.  [unlease_needs_token] has those
      of its function as a hypothesis ([assert_no_q]).

    ** Not modelled

    - Printed texts: the usage, the version and sizes, the description of the
      statistics; debug messages, which are not compiled in.
    - Of mc_thread.c the timers of the aggregator and the klogger; of mc_core.c the
      order of initialisation in [core_init], and libevent and its loop.
    - Large pages (Solaris), the wrappers of [malloc], [klog_deinit] and
      [klog_buf_destroy], which only free.
    - The circular queues of mc_queue.h, which nothing uses, and the big-endian
      variant of the hash.
    - The Java client, coordinator and benchmarks. *)

From stdpp Require Export base list option numbers list_numbers gmap sets strings.
From Stdlib Require Export ZArith Lia Sorting.Sorted.

#[export] Set Default Goal Selector "!".
Open Scope Z_scope.

(** ** Machine integers

    Unsigned C integers are kept as [Z]; every store into a field of width
    [w] goes through the matching truncation. *)

Definition u8 (x : Z) : Z := x mod 2 ^ 8.
Definition u16 (x : Z) : Z := x mod 2 ^ 16.
Definition u32 (x : Z) : Z := x mod 2 ^ 32.
Definition u64 (x : Z) : Z := x mod 2 ^ 64.
Definition s32 (x : Z) : Z := (x + 2 ^ 31) mod 2 ^ 32 - 2 ^ 31.
Definition s64 (x : Z) : Z := (x + 2 ^ 63) mod 2 ^ 64 - 2 ^ 63.

Definition UINT8_MAX : Z := 255.
Definition UINT16_MAX : Z := 65535.
Definition UINT32_MAX : Z := 4294967295.
Definition UINT64_MAX : Z := 18446744073709551615.

(** A C byte holds a value in [0, 255]. *)
Definition byte_ok (b : Z) : Prop := 0 <= b < 256.
#[export] Instance byte_ok_dec b : Decision (byte_ok b).
Proof. unfold byte_ok. apply _. Defined.

Lemma u8_small x : 0 <= x < 256 -> u8 x = x.
Proof. intros; apply Z.mod_small; lia. Qed.
Lemma u16_small x : 0 <= x < 65536 -> u16 x = x.
Proof. intros; apply Z.mod_small; lia. Qed.
Lemma u32_small x : 0 <= x < 4294967296 -> u32 x = x.
Proof. intros; apply Z.mod_small; lia. Qed.
Lemma u64_small x : 0 <= x < 18446744073709551616 -> u64 x = x.
Proof. intros; apply Z.mod_small; lia. Qed.
Lemma s32_small x : 0 <= x < 2 ^ 31 -> s32 x = x.
Proof. intros Hx. unfold s32. rewrite Z.mod_small; lia. Qed.
Lemma u8_range x : 0 <= u8 x < 256.
Proof. apply Z.mod_pos_bound; lia. Qed.
Lemma u16_range x : 0 <= u16 x < 65536.
Proof. apply Z.mod_pos_bound; lia. Qed.
Lemma u32_range x : 0 <= u32 x < 4294967296.
Proof. apply Z.mod_pos_bound; lia. Qed.
Lemma u64_range x : 0 <= u64 x < 18446744073709551616.
Proof. apply Z.mod_pos_bound; lia. Qed.

(** ** Byte buffers

    A buffer is a list of bytes that may not have been written yet: [None] is
    an indeterminate byte.  Reads and writes outside the buffer, and uses of
    the value of an indeterminate byte, are undefined behaviour and answer
    [None]. *)

Abbreviation mem := (list (option Z)).

(** The bytes [buf, buf + len), indeterminate ones included ([memcpy]). *)
Definition mem_slice (m : mem) (off len : Z) : option mem :=
  if decide (0 <= off /\ 0 <= len /\ off + len <= Z.of_nat (length m))
  then Some (take (Z.to_nat len) (drop (Z.to_nat off) m)) else None.

(** The values of the bytes [buf, buf + len). *)
Definition mem_read (m : mem) (off len : Z) : option (list Z) :=
  s ← mem_slice m off len; mapM (fun b : option Z => b) s.

Definition mem_byte (m : mem) (off : Z) : option Z :=
  if decide (0 <= off) then m !! Z.to_nat off ≫= id else None.

Definition mem_write (m : mem) (off : Z) (bs : mem) : option mem :=
  if decide (0 <= off /\ off + Z.of_nat (length bs) <= Z.of_nat (length m))
  then Some (take (Z.to_nat off) m ++ bs ++ drop (Z.to_nat off + length bs) m)
  else None.

(** A fully written buffer. *)
Definition init (bs : list Z) : mem := Some <$> bs.

Lemma length_init bs : length (init bs) = length bs.
Proof. apply length_fmap. Qed.

Lemma init_app a b : init (a ++ b) = init a ++ init b.
Proof. apply fmap_app. Qed.

Lemma mapM_init bs : mapM (fun b : option Z => b) (init bs) = Some bs.
Proof. induction bs as [|b bs IH]; simpl; [done|]. by rewrite IH. Qed.

Lemma mem_slice_app l m r :
  mem_slice (l ++ m ++ r) (Z.of_nat (length l)) (Z.of_nat (length m)) = Some m.
Proof.
  unfold mem_slice. rewrite decide_True by (rewrite !length_app; lia).
  rewrite !Nat2Z.id, drop_app_length, take_app_length; done.
Qed.

Lemma mem_slice_all m : mem_slice m 0 (Z.of_nat (length m)) = Some m.
Proof. pose proof (mem_slice_app [] m []) as H. by rewrite app_nil_r in H. Qed.

Lemma mem_read_app l bs r :
  mem_read (l ++ init bs ++ r) (Z.of_nat (length l)) (Z.of_nat (length bs)) = Some bs.
Proof.
  unfold mem_read. rewrite <-(length_init bs), mem_slice_app; simpl. apply mapM_init.
Qed.

Lemma mem_read_all bs : mem_read (init bs) 0 (Z.of_nat (length bs)) = Some bs.
Proof. pose proof (mem_read_app [] bs []) as H. by rewrite app_nil_r in H. Qed.

Lemma mem_byte_app l b r : mem_byte (l ++ Some b :: r) (Z.of_nat (length l)) = Some b.
Proof.
  unfold mem_byte. rewrite decide_True by lia.
  by rewrite Nat2Z.id, list_lookup_middle.
Qed.

Lemma mem_write_app l m r bs :
  length m = length bs ->
  mem_write (l ++ m ++ r) (Z.of_nat (length l)) bs = Some (l ++ bs ++ r).
Proof.
  intros Hl. unfold mem_write. rewrite decide_True by (rewrite !length_app; lia).
  rewrite Nat2Z.id, take_app_length, <-Hl, <-drop_drop, drop_app_length, drop_app_length.
  done.
Qed.

Lemma mem_write_length m off bs m' : mem_write m off bs = Some m' -> length m' = length m.
Proof.
  unfold mem_write. case_decide; [|done]. intros [= <-].
  rewrite !length_app, length_take, length_drop. lia.
Qed.

(** Reading back what has just been written. *)
Lemma mem_write_read m off bs m' :
  mem_write m off (init bs) = Some m' ->
  mem_read m' off (Z.of_nat (length bs)) = Some bs.
Proof.
  unfold mem_write. case_decide as Hd; [|done]. intros [= <-].
  rewrite length_init in Hd.
  replace off with (Z.of_nat (length (take (Z.to_nat off) m))) at 3
    by (rewrite length_take; lia).
  apply mem_read_app.
Qed.

(** Two writes one after the other are one. *)
Lemma mem_write_twice m off x y m1 m2 :
  mem_write m off x = Some m1 -> mem_write m1 (off + Z.of_nat (length x)) y = Some m2 -> mem_write m off (x ++ y) = Some m2.
Proof.
  intros H1 H2. pose proof (mem_write_length _ _ _ _ H1) as Hl. unfold mem_write in *. repeat case_decide; try done; cycle 1.
  { rewrite length_app in *. lia. }
  injection H1 as <-. injection H2 as <-. f_equal. set (n := Z.to_nat off).
  assert (length (take n m) = n) as Ht by (rewrite length_take; lia).
  replace (Z.to_nat (off + Z.of_nat (length x))) with (length (take n m ++ x)) by (rewrite length_app; lia).
  rewrite (app_assoc (take n m) x), take_app_length, drop_app_ge by lia.
  replace (length (take n m ++ x) + length y - length (take n m ++ x))%nat with (length y) by lia.
  rewrite drop_drop, <-!app_assoc. do 4 f_equal. rewrite length_app. lia.
Qed.

Lemma mem_write_some m off bs : 0 <= off -> off + Z.of_nat (length bs) <= Z.of_nat (length m) -> is_Some (mem_write m off bs).
Proof. intros H1 H2. unfold mem_write. by rewrite decide_True. Qed.

(** ** [memcmp]: the sign of the first difference *)

Fixpoint memcmp (a b : list Z) : Z :=
  match a, b with
  | x :: a', y :: b' => if x <? y then -1 else if y <? x then 1 else memcmp a' b'
  | _, _ => 0
  end.

Lemma memcmp_refl a : memcmp a a = 0.
Proof. induction a as [|x a IH]; simpl; [done|]. by rewrite Z.ltb_irrefl. Qed.

Lemma memcmp_eq a b : length a = length b -> memcmp a b = 0 -> a = b.
Proof.
  revert b; induction a as [|x a IH]; intros [|y b] Hl; simpl in *; try done.
  destruct (Z.ltb_spec x y); [done|]. destruct (Z.ltb_spec y x); [done|].
  intros H1. f_equal; [lia|]. apply IH; [lia|done].
Qed.

Lemma memcmp_antisym a b : memcmp b a = - memcmp a b.
Proof.
  revert b; induction a as [|x a IH]; intros [|y b]; simpl; try done.
  destruct (Z.ltb_spec x y), (Z.ltb_spec y x); try lia. apply IH.
Qed.

Lemma memcmp_trans a b c :
  length a = length b -> length b = length c ->
  memcmp a b > 0 -> memcmp b c > 0 -> memcmp a c > 0.
Proof.
  revert b c; induction a as [|x a IH]; intros [|y b] [|z c] H1 H2; simpl in *; try done.
  destruct (Z.ltb_spec x y), (Z.ltb_spec y x), (Z.ltb_spec y z), (Z.ltb_spec z y),
    (Z.ltb_spec x z), (Z.ltb_spec z x); intros; try lia.
  apply (IH b); lia || done.
Qed.

(** ** State and failure

    A C function over a state [S] is a function from the state it runs in to
    its value and the state it leaves; [None] is undefined behaviour (a wild
    or NULL dereference, an access out of bounds, a use of an indeterminate
    value, a division by zero, a misuse of a lock). *)

Definition M (S A : Type) : Type := S -> option (A * S).

#[export] Instance M_ret S : MRet (M S) := fun A (a : A) s => Some (a, s).
#[export] Instance M_bind S : MBind (M S) := fun A B (k : A -> M S B) (m : M S A) s =>
  match m s with Some (a, s') => k a s' | None => None end.

Definition undef {S A} : M S A := fun _ => None.
Definition gets {S A} (f : S -> A) : M S A := fun s => Some (f s, s).
Definition modify {S} (f : S -> S) : M S unit := fun s => Some (tt, f s).
Definition lift {S A} (o : option A) : M S A :=
  fun s => match o with Some a => Some (a, s) | None => None end.
Definition when {S} (b : bool) (m : M S unit) : M S unit := if b then m else mret tt.

(** Total correctness: [m] runs from [s] without undefined behaviour and ends
    in a value and a state that satisfy [Q]. *)
Definition wp {S A} (m : M S A) (Q : A -> S -> Prop) (s : S) : Prop :=
  match m s with Some (a, s') => Q a s' | None => False end.

Lemma wp_ret {S A} (a : A) Q (s : S) : Q a s -> wp (mret a) Q s.
Proof. done. Qed.

Lemma wp_bind {S A B} (m : M S A) (k : A -> M S B) Q (s : S) :
  wp m (fun a s' => wp (k a) Q s') s -> wp (m ≫= k) Q s.
Proof. unfold wp, mbind, M_bind. destruct (m s) as [[a s']|]; done. Qed.

Lemma wp_bind_inv {S A B} (m : M S A) (k : A -> M S B) Q (s : S) :
  wp (m ≫= k) Q s -> wp m (fun a s' => wp (k a) Q s') s.
Proof. unfold wp, mbind, M_bind. destruct (m s) as [[a s']|]; done. Qed.

Lemma wp_mono {S A} (m : M S A) (P Q : A -> S -> Prop) (s : S) :
  wp m P s -> (forall a s', P a s' -> Q a s') -> wp m Q s.
Proof. unfold wp. destruct (m s) as [[a s']|]; auto. Qed.

Lemma wp_assoc {S A B C} (m : M S A) (k : A -> M S B) (f : B -> M S C) Q (s : S) :
  wp ((m ≫= k) ≫= f) Q s -> wp (m ≫= fun a => k a ≫= f) Q s.
Proof. unfold wp, mbind, M_bind. destruct (m s) as [[a s']|]; done. Qed.

Lemma wp_gets {S A} (f : S -> A) Q (s : S) : Q (f s) s -> wp (gets f) Q s.
Proof. done. Qed.

Lemma wp_modify {S} (f : S -> S) Q (s : S) : Q tt (f s) -> wp (modify f) Q s.
Proof. done. Qed.

Lemma wp_lift {S A} (o : option A) a Q (s : S) : o = Some a -> Q a s -> wp (lift o) Q s.
Proof. intros ->. done. Qed.

Lemma wp_when {S} b (m : M S unit) Q (s : S) :
  (b = true -> wp m Q s) -> (b = false -> Q tt s) -> wp (when b m) Q s.
Proof. destruct b; simpl; [intros H _; auto|intros _ H; by apply H]. Qed.

Lemma wp_elim {S A} (m : M S A) Q (s : S) :
  wp m Q s -> exists a s', m s = Some (a, s') /\ Q a s'.
Proof. unfold wp. destruct (m s) as [[a s']|]; [eauto|done]. Qed.

Lemma wp_result {S A} (m : M S A) Q (s : S) a s' : wp m Q s -> m s = Some (a, s') -> Q a s'.
Proof. unfold wp. intros Hw He. by rewrite He in Hw. Qed.

Lemma wp_intro {S A} (m : M S A) Q (s : S) a s' :
  m s = Some (a, s') -> Q a s' -> wp m Q s.
Proof. unfold wp. intros ->. done. Qed.

(** Partial correctness: if [m] returns it returns with [Q]. *)
Definition wlp {S A} (m : M S A) (Q : A -> S -> Prop) (s : S) : Prop :=
  match m s with Some (a, s') => Q a s' | None => True end.

Lemma wlp_bind {S A B} (m : M S A) (k : A -> M S B) Q (s : S) :
  wlp m (fun a s' => wlp (k a) Q s') s -> wlp (m ≫= k) Q s.
Proof. unfold wlp, mbind, M_bind. by destruct (m s) as [[a s']|]. Qed.

Lemma wlp_wp {S A} (m : M S A) Q (s : S) : wp m Q s -> wlp m Q s.
Proof. unfold wlp, wp. by destruct (m s) as [[a s']|]. Qed.

Lemma wp_wlp {S A} (m : M S A) P Q (s : S) : wp m P s -> wlp m Q s -> wp m (fun a s' => P a s' /\ Q a s') s.
Proof. unfold wp, wlp. by destruct (m s) as [[a s']|]. Qed.

Lemma wlp_mono {S A} (m : M S A) (P Q : A -> S -> Prop) (s : S) :
  wlp m P s -> (forall a s', P a s' -> Q a s') -> wlp m Q s.
Proof. unfold wlp. destruct (m s) as [[a s']|]; auto. Qed.

Lemma wlp_true {S A} (m : M S A) (s : S) : wlp m (fun _ _ => True) s.
Proof. unfold wlp. by destruct (m s) as [[a s']|]. Qed.

Lemma wlp_lift {S A} (o : option A) (Q : A -> S -> Prop) (s : S) :
  (forall a, o = Some a -> Q a s) -> wlp (lift o) Q s.
Proof. intros HQ. unfold wlp, lift. destruct o; auto. Qed.

(** ** Lists *)

(** [TAILQ_REMOVE]: the element leaves the queue it is on. *)
Fixpoint remove1 {A} `{EqDecision A} (x : A) (l : list A) : list A :=
  match l with
  | [] => []
  | y :: l' => if decide (x = y) then l' else y :: remove1 x l'
  end.

Section remove1.
Context {A : Type} `{EqDecision A}.
Implicit Types (x y : A) (l : list A).

Lemma remove1_not_in x l : x ∉ l -> remove1 x l = l.
Proof.
  induction l as [|z l IH]; simpl; [done|]. rewrite not_elem_of_cons. intros [? ?].
  rewrite decide_False by done. by rewrite IH.
Qed.

Lemma elem_of_remove1 x y l : NoDup l -> y ∈ remove1 x l <-> y ∈ l /\ y <> x.
Proof.
  induction 1 as [|z l Hz Hl IH]; simpl; [set_solver|].
  case_decide; subst.
  - rewrite elem_of_cons. split; [|naive_solver].
    intros Hy. split; [by right|]. congruence.
  - rewrite !elem_of_cons, IH. naive_solver.
Qed.

Lemma NoDup_remove1 x l : NoDup l -> NoDup (remove1 x l).
Proof.
  induction 1 as [|z l Hz Hl IH]; simpl; [constructor|].
  case_decide; [done|]. constructor; [|done].
  rewrite elem_of_remove1 by done. naive_solver.
Qed.

Lemma length_remove1 x l : x ∈ l -> length l = S (length (remove1 x l)).
Proof.
  induction l as [|z l IH]; simpl; [set_solver|]. intros Hx.
  case_decide; [done|]. simpl. rewrite IH; [done|]. set_solver.
Qed.

Lemma remove1_split l1 x l2 : x ∉ l1 -> remove1 x (l1 ++ x :: l2) = l1 ++ l2.
Proof.
  induction l1 as [|z l1 IH]; simpl; [by rewrite decide_True|].
  rewrite not_elem_of_cons. intros [? ?]. rewrite decide_False by done. by rewrite IH.
Qed.
End remove1.

(** ** Proof automation *)

Create HintDb mc.
Create Rewrite HintDb mc_len.
#[export] Hint Resolve u8_range u16_range u32_range u64_range : mc.
#[export] Hint Rewrite @length_app @length_init @length_take @length_drop @length_cons : mc_len.

(** Case analysis on the boolean comparisons of [Z] in the goal or context. *)
Ltac zcase :=
  match goal with
  | |- context [?x <? ?y] => destruct (Z.ltb_spec x y)
  | |- context [?x <=? ?y] => destruct (Z.leb_spec x y)
  | |- context [?x =? ?y] => destruct (Z.eqb_spec x y)
  | H : context [?x <? ?y] |- _ => destruct (Z.ltb_spec x y)
  | H : context [?x <=? ?y] |- _ => destruct (Z.leb_spec x y)
  | H : context [?x =? ?y] |- _ => destruct (Z.eqb_spec x y)
  end.

Ltac len := autorewrite with mc_len; simpl length; lia.
