(* ===== verification/Util.v ===== *)
(** * mc_util: reserved keys, numeric parsing and printing

    The string helpers of [mc_util.c] and the number formats of libc the
    server relies on.  C strings are lists of byte values without their
    terminating NUL. *)

From S2P Require Import Prelude.
From Stdlib Require Strings.Ascii.
Open Scope Z_scope.

(** ** Reserved keys

    The lease, version, pending, ptrans and CO-lease item of a key live in the
    same hash table as the key, under a three byte prefix. *)

Definition PREFIX_KEY_LEN : Z := 3.

Definition mc_get_version_key (key : list Z) : list Z := [110; 118; 58] ++ key.
Definition mc_get_lease_key (key : list Z) : list Z := [108; 115; 58] ++ key.
Definition mc_get_pending_key (key : list Z) : list Z := [112; 100; 58] ++ key.
Definition mc_get_ptrans_key (key : list Z) : list Z := [112; 116; 58] ++ key.
Definition mc_get_co_lease_key (key : list Z) : list Z := [99; 111; 58] ++ key.
Definition mc_get_pending_sess_key (key : list Z) : list Z := key ++ [58; 115; 101].

(** ** Character classes *)

(** The bytes of a C string literal. *)
Definition bytes (s : string) : list Z := (fun a => Z.of_N (Ascii.N_of_ascii a)) <$> String.list_ascii_of_string s.

Definition isspace (c : Z) : bool := (c =? 32) || ((9 <=? c) && (c <=? 13)).
Definition isdigit (c : Z) : bool := (48 <=? c) && (c <=? 57).

(** ** Unsigned decimal numbers *)

(** [_mc_atoi]: the accumulator is an [int]; its overflow is undefined. *)
Definition INT_MAX : Z := 2147483647.

Fixpoint _mc_atoi_loop (value : Z) (line : list Z) : option Z :=
  match line with
  | [] => Some (if value <? 0 then -1 else value)
  | c :: line' =>
      if (c <? 48) || (57 <? c) then Some (-1)
      else
        let v := value * 10 + (c - 48) in
        if v <=? INT_MAX then _mc_atoi_loop v line' else None
  end.

Definition _mc_atoi (line : list Z) : option Z :=
  match line with [] => Some (-1) | _ => _mc_atoi_loop 0 line end.

Definition mc_valid_port (n : Z) : bool := negb ((n <? 1) || (UINT16_MAX <? n)).

Fixpoint mc_skip_space (str : list Z) : list Z :=
  match str with
  | c :: str' => if isspace c then mc_skip_space str' else str
  | [] => []
  end.

(** The digit loop of [mc_strtoull_len]: [inl] is the early [return false]
    with the value accumulated so far, [inr] the value and the rest. *)
Fixpoint mc_strtoull_digits (out : Z) (str : list Z) : Z + Z * list Z :=
  match str with
  | c :: str' =>
      if (48 <=? c) && (c <=? 57) then
        if UINT64_MAX / 10 <=? out then inl out
        else mc_strtoull_digits (u64 (out * 10 + c - 48)) str'
      else inr (out, str)
  | [] => inr (out, [])
  end.

(** The boolean result and the value left in [*out] ([None]: not written). *)
Definition mc_strtoull_len (str : list Z) : bool * option Z :=
  match str with
  | [] => (false, None)
  | _ =>
      match mc_strtoull_digits 0 (mc_skip_space str) with
      | inl out => (false, Some out)
      | inr (out, rest) =>
          match mc_skip_space rest with [] => (true, Some out) | _ => (false, Some out) end
      end
  end.

(** [snprintf("%" PRIu64)]: the decimal digits of a number below [10^20]. *)
Fixpoint digits_rev (fuel : nat) (n : Z) : list Z :=
  match fuel with
  | O => []
  | S f => (48 + n mod 10) :: (if n / 10 =? 0 then [] else digits_rev f (n / 10))
  end.

Definition print_u64 (n : Z) : list Z := reverse (digits_rev 20 n).

(** The decimal text of a signed number. *)
Definition print_int (n : Z) : list Z := if n <? 0 then 45 :: print_u64 (- n) else print_u64 n.

(** ** [strtol] and its wrappers

    [strto_scan base s] is the libc scan common to [strtol], [strtoul] and
    their [long long] forms: white space, an optional sign, digits of the
    base.  It answers the sign, the magnitude and what is left of the string;
    with no digit nothing is consumed. *)
Definition digit_in (base c : Z) : bool := (48 <=? c) && (c <? 48 + base).

Fixpoint scan_digits (base acc : Z) (s : list Z) : Z * list Z :=
  match s with
  | c :: s' => if digit_in base c then scan_digits base (acc * base + (c - 48)) s' else (acc, s)
  | [] => (acc, [])
  end.

Definition strto_scan (base : Z) (s : list Z) : bool * Z * list Z :=
  let s1 := mc_skip_space s in
  let '(neg, s2) := match s1 with
                    | 45 :: s' => (true, s')
                    | 43 :: s' => (false, s')
                    | _ => (false, s1)
                    end in
  match s2 with
  | c :: _ => if digit_in base c then let '(v, rest) := scan_digits base 0 s2 in (neg, v, rest)
              else (false, 0, s)
  | [] => (false, 0, s)
  end.

(** The test every wrapper makes on [*endptr]. *)
Definition end_ok (s rest : list Z) : bool :=
  match rest with
  | c :: _ => isspace c
  | [] => match s with [] => false | _ => true end
  end.

(** [strtol] and [strtoll] (64 bit): value and [ERANGE]. *)
Definition strtol_val (neg : bool) (v : Z) : Z * bool :=
  let x := if neg then - v else v in
  if x <? - 2 ^ 63 then (- 2 ^ 63, true)
  else if 2 ^ 63 - 1 <? x then (2 ^ 63 - 1, true) else (x, false).

(** [strtoul] and [strtoull] (64 bit): a negated magnitude wraps. *)
Definition strtoul_val (neg : bool) (v : Z) : Z * bool :=
  if UINT64_MAX <? v then (UINT64_MAX, true) else (u64 (if neg then - v else v), false).

(** Each wrapper answers its boolean and the value of [*out]. *)
Definition mc_strtoull (str : list Z) : bool * Z :=
  let '(neg, v, rest) := strto_scan 10 str in
  let '(ull, erange) := strtoul_val neg v in
  if erange then (false, 0)
  else if end_ok str rest then
    if (s64 ull <? 0) && bool_decide (45 ∈ str) then (false, 0) else (true, ull)
  else (false, 0).

Definition mc_strtoll (str : list Z) : bool * Z :=
  let '(neg, v, rest) := strto_scan 10 str in
  let '(ll, erange) := strtol_val neg v in
  if erange then (false, 0) else if end_ok str rest then (true, ll) else (false, 0).

Definition mc_strtoul (str : list Z) : bool * Z :=
  let '(neg, v, rest) := strto_scan 10 str in
  let '(l, erange) := strtoul_val neg v in
  if erange then (false, 0)
  else if end_ok str rest then
    if (s64 l <? 0) && bool_decide (45 ∈ str) then (false, 0) else (true, u32 l)
  else (false, 0).

Definition mc_strtol (str : list Z) : bool * Z :=
  let '(neg, v, rest) := strto_scan 10 str in
  let '(l, erange) := strtol_val neg v in
  if erange then (false, 0) else if end_ok str rest then (true, s32 l) else (false, 0).

Definition mc_str2oct (str : list Z) : bool * Z :=
  let '(neg, v, rest) := strto_scan 8 str in
  let '(l, erange) := strtol_val neg v in
  if erange then (false, 0) else if end_ok str rest then (true, s32 l) else (false, 0).

(** [_vscnprintf]: what it makes of the count [i] [vsnprintf] answers for a
    buffer of [size] bytes. *)
Definition _vscnprintf (i size : Z) : Z :=
  if i <=? 0 then 0 else if i <? size then i else s32 (u64 (size - 1)).

(** [MC_ALIGN(d, n)] on [size_t]. *)
Definition MC_ALIGN (d n : Z) : Z := Z.land (u64 (d + (n - 1))) (u64 (Z.lnot (n - 1))).

(** ** Reserved keys do not collide *)

Inductive reserved := RVersion | RLease | RPending | RPtrans | RCoLease.

Definition reserved_key (r : reserved) : list Z -> list Z :=
  match r with
  | RVersion => mc_get_version_key
  | RLease => mc_get_lease_key
  | RPending => mc_get_pending_key
  | RPtrans => mc_get_ptrans_key
  | RCoLease => mc_get_co_lease_key
  end.

Lemma reserved_key_length r k :
  Z.of_nat (length (reserved_key r k)) = Z.of_nat (length k) + PREFIX_KEY_LEN.
Proof. unfold PREFIX_KEY_LEN. destruct r; simpl; lia. Qed.

Lemma reserved_key_inj_full r1 r2 k1 k2 :
  reserved_key r1 k1 = reserved_key r2 k2 -> r1 = r2 /\ k1 = k2.
Proof. destruct r1, r2; simpl; intros H; simplify_eq; done. Qed.

Lemma reserved_key_ne r k : reserved_key r k <> k.
Proof.
  intros H. pose proof (reserved_key_length r k) as Hl. rewrite H in Hl.
  unfold PREFIX_KEY_LEN in Hl. lia.
Qed.

(** ** Decimal printing and parsing *)

Definition digit_val (c : Z) : Z := c - 48.
Definition dec_value (l : list Z) : Z := fold_left (fun acc c => acc * 10 + (c - 48)) l 0.

Lemma dec_value_snoc l c : dec_value (l ++ [c]) = dec_value l * 10 + (c - 48).
Proof. unfold dec_value. by rewrite fold_left_app. Qed.

Lemma digits_rev_value f n :
  0 <= n < 10 ^ Z.of_nat f -> (0 < f)%nat ->
  dec_value (reverse (digits_rev f n)) = n.
Proof.
  revert n; induction f as [|f IH]; intros n Hn Hf; [lia|].
  cbn [digits_rev]. rewrite reverse_cons, dec_value_snoc.
  pose proof (Z.div_mod n 10). pose proof (Z.mod_pos_bound n 10).
  rewrite Nat2Z.inj_succ, Z.pow_succ_r in Hn by lia.
  destruct (Z.eqb_spec (n / 10) 0) as [E|E].
  - unfold dec_value; simpl. lia.
  - assert (0 < f)%nat.
    { destruct f; [|lia]. exfalso. apply E. apply Z.div_small. simpl in Hn. lia. }
    rewrite IH; [lia| |done].
    split; [apply Z.div_pos; lia|]. apply Z.div_lt_upper_bound; lia.
Qed.

Lemma digits_rev_digit f n c : 0 <= n -> c ∈ digits_rev f n -> 48 <= c <= 57.
Proof.
  revert n; induction f as [|f IH]; intros n Hn; cbn [digits_rev]; [set_solver|].
  pose proof (Z.mod_pos_bound n 10).
  rewrite elem_of_cons. intros [->|Hc]; [lia|].
  destruct (n / 10 =? 0); [set_solver|].
  apply (IH (n / 10)); [|done]. apply Z.div_pos; lia.
Qed.

Lemma digits_rev_length f n : (length (digits_rev f n) <= f)%nat.
Proof.
  revert n; induction f as [|f IH]; intros n; cbn [digits_rev length]; [lia|].
  destruct (n / 10 =? 0); simpl; [lia|]. specialize (IH (n / 10)). lia.
Qed.

Lemma print_u64_value n : 0 <= n <= UINT64_MAX -> dec_value (print_u64 n) = n.
Proof. intros. unfold print_u64. apply digits_rev_value; unfold UINT64_MAX in *; lia. Qed.

Lemma print_u64_digit n c : 0 <= n -> c ∈ print_u64 n -> 48 <= c <= 57.
Proof.
  unfold print_u64. rewrite elem_of_reverse. apply digits_rev_digit.
Qed.

Lemma print_u64_cons n : exists c l, print_u64 n = c :: l.
Proof.
  unfold print_u64. change 20%nat with (S 19). cbn [digits_rev]. rewrite reverse_cons.
  destruct (reverse _) as [|d l]; simpl; eauto.
Qed.

Lemma print_u64_length n : (length (print_u64 n) <= 20)%nat.
Proof. unfold print_u64. rewrite length_reverse. apply digits_rev_length. Qed.
Lemma print_int_length n : (length (print_int n) <= 21)%nat.
Proof. unfold print_int. pose proof (print_u64_length n). pose proof (print_u64_length (- n)). case_match; simpl; lia. Qed.

Definition all_digits (l : list Z) : Prop := Forall (fun c => 48 <= c <= 57) l.

Lemma print_u64_all_digits n : 0 <= n -> all_digits (print_u64 n).
Proof. intros. apply Forall_forall. intros c Hc. by apply (print_u64_digit n). Qed.

Lemma fold_dec_mono l acc :
  all_digits l -> 0 <= acc -> acc <= fold_left (fun a c => a * 10 + (c - 48)) l acc.
Proof.
  intros Hd. revert acc. induction Hd as [|c l Hc Hl IH]; intros acc Ha; simpl; [lia|].
  etransitivity; [|apply IH]; lia.
Qed.

(** The digit loop consumes a run of digits and keeps its value, as long as
    the value stays at most [UINT64_MAX - 6]. *)
Lemma mc_strtoull_digits_run l rest out :
  all_digits l -> 0 <= out ->
  (forall c r, rest = c :: r -> isdigit c = false) ->
  fold_left (fun a c => a * 10 + (c - 48)) l out <= UINT64_MAX - 6 ->
  mc_strtoull_digits out (l ++ rest) =
    inr (fold_left (fun a c => a * 10 + (c - 48)) l out, rest).
Proof.
  intros Hd. revert out. induction Hd as [|c l Hc Hl IH]; intros out Ho Hr Hv; simpl in *.
  - destruct rest as [|c r]; [done|]. simpl. specialize (Hr c r eq_refl).
    unfold isdigit in Hr. by rewrite Hr.
  - rewrite (proj2 (Z.leb_le 48 c)), (proj2 (Z.leb_le c 57)) by lia. simpl.
    pose proof (fold_dec_mono l (out * 10 + (c - 48)) Hl ltac:(lia)) as Hm.
    assert (out * 10 + (c - 48) <= UINT64_MAX - 6) by lia.
    assert (UINT64_MAX / 10 = 1844674407370955161) as -> by done.
    unfold UINT64_MAX in *.
    rewrite (proj2 (Z.leb_gt 1844674407370955161 out)) by lia.
    rewrite u64_small by lia.
    replace (out * 10 + c - 48) with (out * 10 + (c - 48)) by lia.
    by apply IH; [lia| |].
Qed.

Lemma isspace_not_digit c : isspace c = true -> isdigit c = false.
Proof. unfold isspace, isdigit. repeat zcase; simpl; try done; lia. Qed.

Lemma skip_space_digits l : all_digits l -> mc_skip_space l = l.
Proof.
  destruct 1 as [|c l Hc _]; [done|]. simpl.
  destruct (isspace c) eqn:E; [|done]. apply isspace_not_digit in E.
  unfold isdigit in E. repeat zcase; simpl in E; try done; lia.
Qed.

Lemma mc_strtoull_len_digits l :
  all_digits l -> l <> [] -> dec_value l <= UINT64_MAX - 6 ->
  mc_strtoull_len l = (true, Some (dec_value l)).
Proof.
  intros Hd Hne Hv. unfold mc_strtoull_len.
  destruct l as [|c l]; [done|]. rewrite skip_space_digits by done.
  pose proof (mc_strtoull_digits_run (c :: l) [] 0 Hd) as H.
  rewrite app_nil_r in H. rewrite H by (done || lia). done.
Qed.

Lemma mc_strtoull_len_print n :
  0 <= n <= UINT64_MAX - 6 -> mc_strtoull_len (print_u64 n) = (true, Some n).
Proof.
  intros Hn. assert (Hv : dec_value (print_u64 n) = n) by (apply print_u64_value; lia).
  rewrite mc_strtoull_len_digits, Hv.
  - done.
  - apply print_u64_all_digits; lia.
  - destruct (print_u64_cons n) as (c & l & ->); done.
  - lia.
Qed.

(** ** Properties *)

(** A counter or lease token written with [PRIu64] is read back by
    [mc_strtoull_len] exactly when it is at most [UINT64_MAX - 6]; the six
    values above that bound are printed but refused. *)
Theorem strtoull_len_roundtrip n (H : 0 <= n <= UINT64_MAX) :
  mc_strtoull_len (print_u64 n) = (true, Some n) <-> n <= UINT64_MAX - 6.
Proof.
  split; [|intros; apply mc_strtoull_len_print; lia].
  intros Hp. destruct (Z.le_gt_cases n (UINT64_MAX - 6)) as [|Hgt]; [done|exfalso].
  assert (n = UINT64_MAX - 5 \/ n = UINT64_MAX - 4 \/ n = UINT64_MAX - 3 \/
          n = UINT64_MAX - 2 \/ n = UINT64_MAX - 1 \/ n = UINT64_MAX) as Hc by lia.
  clear H Hgt. destruct Hc as [->|[->|[->|[->|[->| ->]]]]]; vm_compute in Hp; congruence.
Qed.

Lemma strtoull_len_roundtrip_witness :
  mc_strtoull_len (print_u64 42) = (true, Some 42).
Proof. apply (strtoull_len_roundtrip 42); vm_compute; intuition discriminate. Defined.
