(* ===== verification/Time.v ===== *)
(** * mc_time: relative time

    The server keeps time as 32 bit seconds since two seconds before it was
    started ([mc_time.c]); expiry times sent by clients are absolute when they
    exceed thirty days and relative otherwise. *)

From S2P Require Import Prelude.
Open Scope Z_scope.

Record clock := Clock {
  process_started : Z;   (* time_t, absolute unix time *)
  now : Z                (* rel_time_t, 32 bit *)
}.

Definition TIME_MAXDELTA : Z := 60 * 60 * 24 * 30.

(** [tv_sec] is what [gettimeofday] answers. *)
Definition time_update (tv_sec : Z) (c : clock) : clock :=
  Clock (process_started c) (u32 (tv_sec - process_started c)).

Definition time_now (c : clock) : Z := now c.
Definition time_now_abs (c : clock) : Z := process_started c + now c.
Definition time_started (c : clock) : Z := process_started c.

Definition time_reltime (c : clock) (exptime : Z) : Z :=
  if exptime =? 0 then 0
  else if TIME_MAXDELTA <? exptime then
    if exptime <=? process_started c then 1 else u32 (exptime - process_started c)
  else u32 (exptime + now c).

(** [time_init]: [t] is what [time(NULL)] answers, [tv_sec] what the first
    tick of the clock handler reads. *)
Definition time_init (t tv_sec : Z) : clock := time_update tv_sec (Clock (t - 2) 0).

(** A clock read within [2^32] seconds of the start. *)
Definition clock_ok (c : clock) : Prop := 0 <= now c < 2 ^ 32.

Lemma time_update_ok tv c : clock_ok (time_update tv c).
Proof. unfold clock_ok, time_update. apply u32_range. Qed.

(** For an expiry sent by a client that fits in the 32 bit clock,
    [time_reltime] never answers 0 (which would mean "never expires"), and the
    absolute time it denotes is the requested one, or one second after the
    start for a time already past when the server started. *)
Theorem time_reltime_abs c exptime
  (Hc : clock_ok c) (He : 0 < exptime)
  (Hrel : exptime + now c < 2 ^ 32) (Habs : exptime - process_started c < 2 ^ 32) :
  0 < time_reltime c exptime /\
  (exptime <= TIME_MAXDELTA ->
     process_started c + time_reltime c exptime = time_now_abs c + exptime) /\
  (TIME_MAXDELTA < exptime ->
     process_started c + time_reltime c exptime = Z.max exptime (process_started c + 1)).
Proof.
  unfold clock_ok in Hc. unfold time_reltime, time_now_abs.
  rewrite (proj2 (Z.eqb_neq exptime 0)) by lia.
  destruct (Z.ltb_spec TIME_MAXDELTA exptime).
  - destruct (Z.leb_spec exptime (process_started c)).
    + repeat split; lia.
    + rewrite u32_small by lia. repeat split; lia.
  - rewrite u32_small by lia. repeat split; lia.
Qed.

Lemma time_reltime_abs_witness :
  0 < time_reltime (Clock 1000 50) 10 /\
  time_reltime (Clock 1000 50) 10 = 60.
Proof.
  split; [|reflexivity].
  apply (time_reltime_abs (Clock 1000 50) 10); vm_compute; intuition discriminate.
Defined.

(** A negative expiry whose magnitude exceeds the server's age wraps to a
    time far in the future instead of one in the past: an item stored with it
    outlives the present by more than [2^31] seconds. *)
Theorem time_reltime_negative_wraps c exptime
  (Hc : clock_ok c) (Hn : now c < 2 ^ 30) (He : - 2 ^ 30 <= exptime < - now c) :
  time_reltime c exptime = 2 ^ 32 + exptime + now c /\
  now c + 2 ^ 31 < time_reltime c exptime.
Proof.
  unfold clock_ok in Hc. unfold time_reltime, TIME_MAXDELTA.
  rewrite (proj2 (Z.eqb_neq exptime 0)) by lia.
  rewrite (proj2 (Z.ltb_ge _ _)) by lia.
  assert (u32 (exptime + now c) = 2 ^ 32 + exptime + now c) as ->.
  { unfold u32. rewrite <-(Z.mod_add _ 1) by lia. rewrite Z.mod_small by lia. lia. }
  lia.
Qed.

Lemma time_reltime_negative_wraps_witness :
  time_reltime (Clock 1000 50) (-100) = 2 ^ 32 - 50.
Proof.
  apply (time_reltime_negative_wraps (Clock 1000 50) (-100));
    vm_compute; intuition discriminate.
Defined.
