(* ===== verification/Lease.v ===== *)
(** * mc_lease: lease tokens

    Tokens are drawn from one 64 bit counter under [lease_lock]
    ([mc_lease.c]); the first values are reserved for the lease states. *)

From S2P Require Import Prelude Util.
Open Scope Z_scope.

Inductive lease_type := LEASE_UNSET | LEASE_VALUE | LEASE_DELETED | LEASE_HOTMISS | LEASE_SENTINEL.

#[export] Instance lease_type_eq_dec : EqDecision lease_type.
Proof. solve_decision. Defined.

Definition lease_type_val (t : lease_type) : Z :=
  match t with
  | LEASE_UNSET => 0 | LEASE_VALUE => 1 | LEASE_DELETED => 2 | LEASE_HOTMISS => 3
  | LEASE_SENTINEL => 4
  end.

Definition LEASE_START : Z := lease_type_val LEASE_SENTINEL + 1.
Definition LEASE_EXP_TIME : Z := 10.

Definition lease_init : Z := LEASE_START.

(** The token handed out and the counter left behind. *)
Definition lease_next_token (current : Z) : Z * Z := (current, u64 (current + 1)).

(** The tokens of [n] successive calls. *)
Fixpoint lease_tokens (n : nat) (current : Z) : list Z :=
  match n with
  | O => []
  | S n' => let '(t, c) := lease_next_token current in t :: lease_tokens n' c
  end.

Lemma lease_tokens_seqZ n current :
  0 <= current -> current + Z.of_nat n <= 2 ^ 64 ->
  lease_tokens n current = seqZ current (Z.of_nat n).
Proof.
  revert current; induction n as [|n IH]; intros c Hc Hn; [done|].
  rewrite Nat2Z.inj_succ, seqZ_cons by lia. cbn [lease_tokens lease_next_token].
  f_equal. destruct n as [|n]; [done|].
  rewrite u64_small by lia. rewrite IH by lia.
  replace (Z.pred (Z.succ (Z.of_nat (S n)))) with (Z.of_nat (S n)) by lia.
  by replace (Z.succ c) with (c + 1) by lia.
Qed.

(** C38: the tokens of any run of up to [2^64 - 5] calls after [lease_init] are
    pairwise distinct and none of them is a reserved lease state (0, the
    default token, and LEASE_HOTMISS, the back-off answer, among them). *)
Theorem lease_tokens_fresh n (Hn : Z.of_nat n <= 2 ^ 64 - 5) :
  NoDup (lease_tokens n lease_init) /\
  (forall t, t ∈ lease_tokens n lease_init -> forall s, t <> lease_type_val s).
Proof.
  unfold lease_init, LEASE_START; simpl lease_type_val.
  rewrite lease_tokens_seqZ by lia. split; [apply NoDup_seqZ|].
  intros t Ht s. apply elem_of_seqZ in Ht. destruct s; simpl; lia.
Qed.

Lemma lease_tokens_fresh_witness : NoDup (lease_tokens 3 lease_init).
Proof. apply (lease_tokens_fresh 3); vm_compute; intuition discriminate. Defined.
