(* ===== verification/Hash.v ===== *)
(** * mc_hash: Bob Jenkins' lookup3, little endian

    [hash] reads the key in 32 bit, 16 bit or 8 bit units depending on how its
    address is aligned ([mc_hash.c]).  The key of an item and the same key in
    a request buffer have different alignments, so the table works only if the
    three readings agree. *)

From S2P Require Import Prelude.
Open Scope Z_scope.

(** ** Operations

    [k i] is the byte at [key + i]; the words are the little endian loads at
    byte offset [i]. *)

Definition k16 (k : Z -> Z) (i : Z) : Z := k i + k (i + 1) * 2 ^ 8.
Definition k32 (k : Z -> Z) (i : Z) : Z :=
  k i + k (i + 1) * 2 ^ 8 + k (i + 2) * 2 ^ 16 + k (i + 3) * 2 ^ 24.

Definition rot (x k : Z) : Z := Z.lxor (u32 (Z.shiftl x k)) (Z.shiftr x (32 - k)).

Definition abc : Type := Z * Z * Z.

Definition mix (s : abc) : abc :=
  let '(a, b, c) := s in
  let a := u32 (a - c) in let a := Z.lxor a (rot c 4) in let c := u32 (c + b) in
  let b := u32 (b - a) in let b := Z.lxor b (rot a 6) in let a := u32 (a + c) in
  let c := u32 (c - b) in let c := Z.lxor c (rot b 8) in let b := u32 (b + a) in
  let a := u32 (a - c) in let a := Z.lxor a (rot c 16) in let c := u32 (c + b) in
  let b := u32 (b - a) in let b := Z.lxor b (rot a 19) in let a := u32 (a + c) in
  let c := u32 (c - b) in let c := Z.lxor c (rot b 4) in let b := u32 (b + a) in
  (a, b, c).

Definition final (s : abc) : abc :=
  let '(a, b, c) := s in
  let c := Z.lxor c b in let c := u32 (c - rot b 14) in
  let a := Z.lxor a c in let a := u32 (a - rot c 11) in
  let b := Z.lxor b a in let b := u32 (b - rot a 25) in
  let c := Z.lxor c b in let c := u32 (c - rot b 16) in
  let a := Z.lxor a c in let a := u32 (a - rot c 4) in
  let b := Z.lxor b a in let b := u32 (b - rot a 14) in
  let c := Z.lxor c b in let c := u32 (c - rot b 24) in
  (a, b, c).

Definition add3 (s : abc) (x y z : Z) : abc :=
  let '(a, b, c) := s in (u32 (a + x), u32 (b + y), u32 (c + z)).

(** One turn of the three [while (length > 12)] loops. *)
Definition block32 (k : Z -> Z) (i : Z) (s : abc) : abc :=
  mix (add3 s (k32 k i) (k32 k (i + 4)) (k32 k (i + 8))).

Definition block16 (k : Z -> Z) (i : Z) (s : abc) : abc :=
  mix (add3 s (k16 k i + k16 k (i + 2) * 2 ^ 16)
              (k16 k (i + 4) + k16 k (i + 6) * 2 ^ 16)
              (k16 k (i + 8) + k16 k (i + 10) * 2 ^ 16)).

Definition block8 (k : Z -> Z) (i : Z) (s : abc) : abc :=
  let '(a, b, c) := s in
  let w x i := u32 (u32 (u32 (u32 (x + k i) + k (i + 1) * 2 ^ 8) + k (i + 2) * 2 ^ 16)
                    + k (i + 3) * 2 ^ 24) in
  mix (w a i, w b (i + 4), w c (i + 8)).

(** The switch on the last block; [None] is the early [return c]. *)
Definition tail32 (k : Z -> Z) (i len : Z) (s : abc) : option abc :=
  let k0 := k32 k i in let k1 := k32 k (i + 4) in let k2 := k32 k (i + 8) in
  match len with
  | 12 => Some (add3 s k0 k1 k2)
  | 11 => Some (add3 s k0 k1 (Z.land k2 0xffffff))
  | 10 => Some (add3 s k0 k1 (Z.land k2 0xffff))
  | 9 => Some (add3 s k0 k1 (Z.land k2 0xff))
  | 8 => Some (add3 s k0 k1 0)
  | 7 => Some (add3 s k0 (Z.land k1 0xffffff) 0)
  | 6 => Some (add3 s k0 (Z.land k1 0xffff) 0)
  | 5 => Some (add3 s k0 (Z.land k1 0xff) 0)
  | 4 => Some (add3 s k0 0 0)
  | 3 => Some (add3 s (Z.land k0 0xffffff) 0 0)
  | 2 => Some (add3 s (Z.land k0 0xffff) 0 0)
  | 1 => Some (add3 s (Z.land k0 0xff) 0 0)
  | _ => None
  end.

Definition tail16 (k : Z -> Z) (i len : Z) (s : abc) : option abc :=
  let a0 := k16 k i + k16 k (i + 2) * 2 ^ 16 in
  let b0 := k16 k (i + 4) + k16 k (i + 6) * 2 ^ 16 in
  match len with
  | 12 => Some (add3 s a0 b0 (k16 k (i + 8) + k16 k (i + 10) * 2 ^ 16))
  | 11 => Some (add3 (add3 s 0 0 (k (i + 10) * 2 ^ 16)) a0 b0 (k16 k (i + 8)))
  | 10 => Some (add3 s a0 b0 (k16 k (i + 8)))
  | 9 => Some (add3 (add3 s 0 0 (k (i + 8))) a0 b0 0)
  | 8 => Some (add3 s a0 b0 0)
  | 7 => Some (add3 (add3 s 0 (k (i + 6) * 2 ^ 16) 0) a0 (k16 k (i + 4)) 0)
  | 6 => Some (add3 s a0 (k16 k (i + 4)) 0)
  | 5 => Some (add3 (add3 s 0 (k (i + 4)) 0) a0 0 0)
  | 4 => Some (add3 s a0 0 0)
  | 3 => Some (add3 (add3 s (k (i + 2) * 2 ^ 16) 0 0) (k16 k i) 0 0)
  | 2 => Some (add3 s (k16 k i) 0 0)
  | 1 => Some (add3 s (k i) 0 0)
  | _ => None
  end.

(** All the cases fall through: from [len] down to 1. *)
Definition tail8 (k : Z -> Z) (i len : Z) (s : abc) : option abc :=
  let from n f s := if n <=? len then f s else s in
  if (len =? 0) || (12 <? len) then None
  else Some (
    from 1 (fun s => add3 s (k i) 0 0)
   (from 2 (fun s => add3 s (k (i + 1) * 2 ^ 8) 0 0)
   (from 3 (fun s => add3 s (k (i + 2) * 2 ^ 16) 0 0)
   (from 4 (fun s => add3 s (k (i + 3) * 2 ^ 24) 0 0)
   (from 5 (fun s => add3 s 0 (k (i + 4)) 0)
   (from 6 (fun s => add3 s 0 (k (i + 5) * 2 ^ 8) 0)
   (from 7 (fun s => add3 s 0 (k (i + 6) * 2 ^ 16) 0)
   (from 8 (fun s => add3 s 0 (k (i + 7) * 2 ^ 24) 0)
   (from 9 (fun s => add3 s 0 0 (k (i + 8)))
   (from 10 (fun s => add3 s 0 0 (k (i + 9) * 2 ^ 8))
   (from 11 (fun s => add3 s 0 0 (k (i + 10) * 2 ^ 16))
   (from 12 (fun s => add3 s 0 0 (k (i + 11) * 2 ^ 24)) s)))))))))))).

(** The loop on the blocks, then the switch; [fuel] bounds the turns. *)
Fixpoint hash_loop (block : (Z -> Z) -> Z -> abc -> abc)
    (tail : (Z -> Z) -> Z -> Z -> abc -> option abc)
    (fuel : nat) (k : Z -> Z) (i len : Z) (s : abc) : Z :=
  match fuel with
  | O => 0
  | S f =>
      if 12 <? len then hash_loop block tail f k (i + 12) (len - 12) (block k i s)
      else match tail k i len s with
           | Some s' => (final s').2
           | None => s.2
           end
  end.

Definition hash_init (length initval : Z) : abc :=
  let x := u32 (0xdeadbeef + u32 length + initval) in (x, x, x).

(** [ptr] is the address of the key. *)
Definition hash (ptr : Z) (k : Z -> Z) (length initval : Z) : Z :=
  let s := hash_init length initval in
  let f := S (Z.to_nat length) in
  if Z.land ptr 3 =? 0 then hash_loop block32 tail32 f k 0 length s
  else if Z.land ptr 1 =? 0 then hash_loop block16 tail16 f k 0 length s
  else hash_loop block8 tail8 f k 0 length s.

(** The bytes of a key as a memory; what lies behind the key is arbitrary. *)
Definition mem_of (key : list Z) (rest : Z -> Z) (i : Z) : Z :=
  if decide (0 <= i) then default (rest i) (key !! Z.to_nat i) else rest i.

(** The hash of a key, as the table uses it ([initval] 0). *)
Definition hash_key (key : list Z) : Z :=
  hash 1 (mem_of key (fun _ => 0)) (Z.of_nat (length key)) 0.

(** ** The three readings agree *)

Lemma u32_add_l x y : u32 (u32 x + y) = u32 (x + y).
Proof. unfold u32. by rewrite Z.add_mod_idemp_l. Qed.

Lemma u32_add_bytes x p q r s :
  u32 (u32 (u32 (u32 (x + p) + q) + r) + s) = u32 (x + (p + q + r + s)).
Proof.
  rewrite (u32_add_l (x + p)), (u32_add_l (x + p + q)), (u32_add_l (x + p + q + r)).
  f_equal. lia.
Qed.

Lemma add3_add3 s x y z x' y' z' :
  add3 (add3 s x y z) x' y' z' = add3 s (x + x') (y + y') (z + z').
Proof. destruct s as [[a b] c]. unfold add3. by rewrite !u32_add_l, !Z.add_assoc. Qed.

Lemma add3_ext s x y z x' y' z' : x = x' -> y = y' -> z = z' -> add3 s x y z = add3 s x' y' z'.
Proof. by intros -> -> ->. Qed.

Definition bytes_ok (k : Z -> Z) : Prop := forall i, byte_ok (k i).

Lemma small_len len : 0 <= len <= 12 ->
  len = 0 \/ len = 1 \/ len = 2 \/ len = 3 \/ len = 4 \/ len = 5 \/ len = 6 \/ len = 7 \/
  len = 8 \/ len = 9 \/ len = 10 \/ len = 11 \/ len = 12.
Proof. lia. Qed.

Ltac each_len H := apply small_len in H;
  destruct H as [->|[->|[->|[->|[->|[->|[->|[->|[->|[->|[->|[->| ->]]]]]]]]]]]].

Ltac tail8_compute :=
  cbv beta iota delta [tail8 Z.leb Z.compare Pos.compare Pos.compare_cont Z.eqb Pos.eqb Z.ltb orb];
  cbv zeta.

Section agree.
Context (k : Z -> Z) (Hk : bytes_ok k).

Lemma land_k32_3 i : Z.land (k32 k i) 0xffffff = k i + k (i + 1) * 2 ^ 8 + k (i + 2) * 2 ^ 16.
Proof.
  change 0xffffff with (Z.ones 24). rewrite Z.land_ones by lia. unfold k32.
  pose proof (Hk i) as H0. pose proof (Hk (i + 1)) as H1. pose proof (Hk (i + 2)) as H2.
  unfold byte_ok in *. rewrite Z.mod_add by lia. apply Z.mod_small. lia.
Qed.

Lemma land_k32_2 i : Z.land (k32 k i) 0xffff = k i + k (i + 1) * 2 ^ 8.
Proof.
  change 0xffff with (Z.ones 16). rewrite Z.land_ones by lia. unfold k32.
  pose proof (Hk i) as H0. pose proof (Hk (i + 1)) as H1. unfold byte_ok in *.
  replace (k i + k (i + 1) * 2 ^ 8 + k (i + 2) * 2 ^ 16 + k (i + 3) * 2 ^ 24)
    with (k i + k (i + 1) * 2 ^ 8 + (k (i + 2) + k (i + 3) * 2 ^ 8) * 2 ^ 16) by lia.
  rewrite Z.mod_add by lia. apply Z.mod_small. lia.
Qed.

Lemma land_k32_1 i : Z.land (k32 k i) 0xff = k i.
Proof.
  change 0xff with (Z.ones 8). rewrite Z.land_ones by lia. unfold k32.
  pose proof (Hk i) as H0. unfold byte_ok in *.
  replace (k i + k (i + 1) * 2 ^ 8 + k (i + 2) * 2 ^ 16 + k (i + 3) * 2 ^ 24)
    with (k i + (k (i + 1) + k (i + 2) * 2 ^ 8 + k (i + 3) * 2 ^ 16) * 2 ^ 8) by lia.
  rewrite Z.mod_add by lia. apply Z.mod_small. lia.
Qed.

Lemma k16_k32 i : k16 k i + k16 k (i + 2) * 2 ^ 16 = k32 k i.
Proof. unfold k16, k32. replace (i + 2 + 1) with (i + 3) by lia. lia. Qed.

Lemma block16_32 i s : block16 k i s = block32 k i s.
Proof.
  unfold block16, block32. rewrite k16_k32.
  replace (i + 6) with (i + 4 + 2) by lia. replace (i + 10) with (i + 8 + 2) by lia.
  by rewrite !k16_k32.
Qed.

Lemma block8_32 i s : block8 k i s = block32 k i s.
Proof.
  unfold block8, block32. destruct s as [[a b] c]. unfold add3, k32.
  by rewrite !u32_add_bytes.
Qed.

Lemma offsets i :
  i + 4 + 1 = i + 5 /\ i + 4 + 2 = i + 6 /\ i + 4 + 3 = i + 7 /\
  i + 8 + 1 = i + 9 /\ i + 8 + 2 = i + 10 /\ i + 8 + 3 = i + 11 /\
  i + 2 + 1 = i + 3 /\ i + 6 + 1 = i + 7 /\ i + 10 + 1 = i + 11.
Proof. lia. Qed.

(** Puts a tail in the normal form [add3 s x y z] with [x], [y], [z] sums of
    shifted bytes. *)
Ltac tail_normal i :=
  rewrite ?add3_add3, ?land_k32_3, ?land_k32_2, ?land_k32_1;
  destruct (offsets i) as (E1 & E2 & E3 & E4 & E5 & E6 & E7 & E8 & E9);
  unfold k32, k16; rewrite ?E1, ?E2, ?E3, ?E4, ?E5, ?E6, ?E7, ?E8, ?E9.

Ltac tail_case i := f_equal; tail_normal i; apply add3_ext; lia.

Lemma tail16_32 i len s : 0 <= len <= 12 -> tail16 k i len s = tail32 k i len s.
Proof. intros H. each_len H; [done|..]; cbn [tail16 tail32]; tail_case i. Qed.

Lemma tail8_32 i len s : 0 <= len <= 12 -> tail8 k i len s = tail32 k i len s.
Proof.
  intros H. each_len H; [done|..];
    tail8_compute; cbn [tail32]; tail_case i.
Qed.

Lemma hash_loop_agree block tail :
  (forall i s, block k i s = block32 k i s) ->
  (forall i len s, 0 <= len <= 12 -> tail k i len s = tail32 k i len s) ->
  forall fuel i len s, 0 <= len ->
  hash_loop block tail fuel k i len s = hash_loop block32 tail32 fuel k i len s.
Proof.
  intros Hb Ht. induction fuel as [|f IH]; intros i len s Hl; [done|]. cbn [hash_loop].
  destruct (Z.ltb_spec 12 len); [rewrite Hb; apply IH; lia|]. by rewrite Ht by lia.
Qed.

Lemma hash_any_alignment ptr length initval :
  0 <= length -> hash ptr k length initval =
    hash_loop block32 tail32 (S (Z.to_nat length)) k 0 length (hash_init length initval).
Proof.
  intros Hl. unfold hash. destruct (_ =? 0); [done|]. destruct (_ =? 0);
    apply hash_loop_agree; auto using block16_32, block8_32, tail16_32, tail8_32.
Qed.
End agree.

(** The 8 bit reading looks at no byte behind the key. *)
Lemma hash_loop8_local k k' : forall fuel i len s,
  0 <= len -> (forall j, i <= j < i + len -> k j = k' j) ->
  hash_loop block8 tail8 fuel k i len s = hash_loop block8 tail8 fuel k' i len s.
Proof.
  induction fuel as [|f IH]; intros i len s Hl Hkk; [done|]. cbn [hash_loop].
  destruct (Z.ltb_spec 12 len).
  - assert (block8 k i s = block8 k' i s) as ->.
    { unfold block8. destruct s as [[a b] c]. by rewrite !Hkk by lia. }
    apply IH; [lia|]. intros. apply Hkk. lia.
  - assert (tail8 k i len s = tail8 k' i len s) as ->; [|done].
    assert (0 <= len <= 12) as Hb by lia. each_len Hb; [done|..]; tail8_compute;
      rewrite ?Hkk by lia; done.
Qed.


Lemma final_range s : 0 <= (final s).2 < 2 ^ 32.
Proof. destruct s as [[a b] c]. apply u32_range. Qed.

Lemma hash_loop8_range k : forall fuel i len s,
  0 < len -> 0 <= hash_loop block8 tail8 fuel k i len s < 2 ^ 32.
Proof.
  induction fuel as [|f IH]; intros i len s Hl; cbn [hash_loop]; [lia|].
  destruct (Z.ltb_spec 12 len); [apply IH; lia|].
  unfold tail8. rewrite (proj2 (Z.eqb_neq _ _)), (proj2 (Z.ltb_ge _ _)) by lia.
  cbn [orb]. apply final_range.
Qed.

Lemma hash_key_range key : 0 <= hash_key key < 2 ^ 32.
Proof.
  unfold hash_key, hash. destruct key as [|c key].
  - vm_compute. intuition discriminate.
  - apply hash_loop8_range. simpl. lia.
Qed.

(** C37: the hash of a key does not depend on the address it is read at, nor on
    the bytes that follow it: the 32 bit reading, which loads words past the
    end of the key and masks them, the 16 bit and the 8 bit reading agree. *)
Theorem hash_alignment_independent p1 p2 k1 k2 length initval
  (H1 : bytes_ok k1) (H2 : bytes_ok k2) (Hl : 0 <= length)
  (Hk : forall i, 0 <= i < length -> k1 i = k2 i) :
  hash p1 k1 length initval = hash p2 k2 length initval.
Proof.
  assert (forall p k, bytes_ok k -> hash p k length initval =
    hash_loop block8 tail8 (S (Z.to_nat length)) k 0 length (hash_init length initval)) as Hall.
  { intros p k Hok. rewrite hash_any_alignment by done. symmetry.
    apply hash_loop_agree; auto using block8_32, tail8_32. }
  rewrite !Hall by done. apply hash_loop8_local; [done|]. intros. apply Hk. lia.
Qed.

(** The bytes of "user:1234" followed by two different memories, at addresses
    with different alignments. *)
Definition ex_key : list Z := [117; 115; 101; 114; 58; 49; 50; 51; 52].

Lemma mem_of_ok key x : Forall byte_ok key -> byte_ok x -> bytes_ok (mem_of key (fun _ => x)).
Proof.
  intros Hf Hx i. unfold mem_of. case_decide; [|done].
  destruct (key !! Z.to_nat i) as [b|] eqn:E; [|done]. simpl.
  by eapply Forall_lookup_1.
Qed.

Lemma hash_alignment_independent_witness :
  hash 4096 (mem_of ex_key (fun _ => 0)) 9 0 = hash 4098 (mem_of ex_key (fun _ => 255)) 9 0.
Proof.
  apply (hash_alignment_independent 4096 4098).
  - apply mem_of_ok; [repeat constructor; vm_compute; intuition discriminate|vm_compute; intuition discriminate].
  - apply mem_of_ok; [repeat constructor; vm_compute; intuition discriminate|vm_compute; intuition discriminate].
  - lia.
  - intros i Hi. unfold mem_of. rewrite !decide_True by lia.
    destruct (ex_key !! Z.to_nat i) eqn:E; [done|]. apply lookup_ge_None in E.
    change (length ex_key) with 9%nat in E. lia.
Defined.

(** The published test vector of lookup3: "Four score and seven years ago". *)
Example lookup3_vector :
  hash_key [70;111;117;114;32;115;99;111;114;101;32;97;110;100;32;115;101;118;101;110;
            32;121;101;97;114;115;32;97;103;111] = 0x17770551.
Proof. vm_compute. reflexivity. Qed.
