(* ===== verification/Keylist.v ===== *)
(** * mc_sqltrig: sorted key lists

    Transactions, sessions, Q-inv leases and CO leases keep the set of keys
    (or of owners) they are associated with in their item's value, as a packed
    list: one length byte, then the bytes of the key, repeated.  The list is
    kept sorted so that a lookup can stop early ([mc_sqltrig.c]). *)

From S2P Require Import Prelude.
Open Scope Z_scope.

Inductive trig_status := TRIG_OK | TRIG_QUEUED | TRIG_ERROR | TRIG_NOTFOUND.

#[export] Instance trig_status_eq_dec : EqDecision trig_status.
Proof. solve_decision. Defined.

(** ** Operations

    A key list is a buffer and its length; a key is the bytes at a pointer and
    a [trig_keylen_t] (8 bit) length.  The loops move one pointer forward by
    at least one byte an iteration, so the list's length is fuel enough. *)

(** [trig_compare_key]: [key1] is read at offset [o1] of [m1]. *)
Definition trig_compare_key (m1 : mem) (o1 key1_len : Z) (key2 : list Z) (key2_len : Z)
  : option Z :=
  if negb (key2_len - key1_len =? 0) then Some (key2_len - key1_len)
  else a ← mem_read m1 o1 key1_len;
       b ← mem_read (init key2) 0 key1_len;
       Some (memcmp a b).

Fixpoint trig_size_loop (fuel : nat) (it_list : mem) (it_listlen cptr cnt : Z) : option Z :=
  match fuel with
  | O => None
  | S f =>
      if cptr <? it_listlen then
        curr_keylen ← mem_byte it_list cptr;
        trig_size_loop f it_list it_listlen (cptr + 1 + curr_keylen) (cnt + 1)
      else Some cnt
  end.

Definition trig_size_keylist (it_list : mem) (it_listlen : Z) : option Z :=
  if it_listlen =? 0 then Some 0
  else trig_size_loop (S (Z.to_nat it_listlen)) it_list it_listlen 0 0.

Fixpoint trig_check_loop (fuel : nat) (it_list : mem) (it_listlen cptr : Z)
    (new_key : list Z) (new_keylen : Z) : option trig_status :=
  match fuel with
  | O => None
  | S f =>
      if cptr <? it_listlen then
        curr_keylen ← mem_byte it_list cptr;
        compare_val ← trig_compare_key it_list (cptr + 1) curr_keylen new_key new_keylen;
        if compare_val =? 0 then Some TRIG_OK
        else if compare_val <? 0 then Some TRIG_NOTFOUND
        else trig_check_loop f it_list it_listlen (cptr + 1 + curr_keylen) new_key new_keylen
      else Some TRIG_NOTFOUND
  end.

Definition trig_check_keylist (it_list : mem) (it_listlen : Z)
    (new_key : list Z) (new_keylen : Z) : option trig_status :=
  if it_listlen =? 0 then Some TRIG_NOTFOUND
  else trig_check_loop (S (Z.to_nat it_listlen)) it_list it_listlen 0 new_key new_keylen.

(** [memcpy(dst, src, n)] inside one array is undefined when the ranges
    overlap. *)
Definition no_overlap (dst src n : Z) : bool :=
  (n <=? 0) || (dst + n <=? src) || (src + n <=? dst).

(** The first loop of [trig_keylist_rmvkey]: the position of the key, or the
    length of the list. *)
Fixpoint rmvkey_pos (fuel : nat) (old : mem) (old_len ins_pos : Z)
    (new_key : list Z) (new_keylen : Z) : option Z :=
  match fuel with
  | O => None
  | S f =>
      if ins_pos <? old_len then
        key_len ← mem_byte old ins_pos;
        compare_val ← trig_compare_key old (ins_pos + 1) key_len new_key new_keylen;
        if compare_val =? 0 then Some ins_pos
        else rmvkey_pos f old old_len (ins_pos + 1 + key_len) new_key new_keylen
      else Some ins_pos
  end.

(** [alias] says that the destination is the old list itself (then
    [old_keylist] is [dest]).  The result is the status, the destination and
    the value of [*dest_listlen]. *)
Definition trig_keylist_rmvkey (alias : bool) (dest : mem) (dest_listlen : Z)
    (old_keylist : option mem) (old_keylistlen : Z)
    (new_key : list Z) (new_keylen : Z) : option (trig_status * mem * Z) :=
  match old_keylist with
  | None => Some (TRIG_OK, dest, dest_listlen)
  | Some old =>
      if old_keylistlen =? 0 then Some (TRIG_OK, dest, dest_listlen)
      else
        ins_pos ← rmvkey_pos (S (Z.to_nat old_keylistlen)) old old_keylistlen 0 new_key new_keylen;
        dest1 ← (if (0 <? ins_pos) && negb alias then
                   before ← mem_slice old 0 ins_pos; mem_write dest 0 before
                 else Some dest);
        dest2 ← (if ins_pos <? old_keylistlen then
                   let src := ins_pos + new_keylen + 1 in
                   let n := old_keylistlen - ins_pos - new_keylen - 1 in
                   if alias && negb (no_overlap ins_pos src n) then None
                   else rest ← mem_slice (if alias then dest1 else old) src n;
                        mem_write dest1 ins_pos rest
                 else Some dest1);
        Some (TRIG_OK, dest2, old_keylistlen - new_keylen - 1)
  end.

(** The first loop of [trig_keylist_addkey]: [inl] when the key is already in
    the list, [inr] with the position to insert at. *)
Fixpoint addkey_pos (fuel : nat) (old : mem) (old_len ins_pos : Z)
    (new_key : list Z) (new_keylen : Z) : option (unit + Z) :=
  match fuel with
  | O => None
  | S f =>
      if ins_pos <? old_len then
        key_len ← mem_byte old ins_pos;
        compare_val ← trig_compare_key old (ins_pos + 1) key_len new_key new_keylen;
        if compare_val <? 0 then Some (inr ins_pos)
        else if 0 <? compare_val then
          addkey_pos f old old_len (ins_pos + (1 + key_len)) new_key new_keylen
        else Some (inl tt)
      else Some (inr ins_pos)
  end.

Definition trig_keylist_addkey (alias : bool) (dest : mem) (dest_listlen : Z)
    (old_keylist : option mem) (old_keylistlen : Z)
    (new_key : list Z) (new_keylen : Z) : option (trig_status * mem * Z) :=
  let put_key d pos :=
    d1 ← mem_write d pos [Some new_keylen];
    k ← mem_slice (init new_key) 0 new_keylen;
    mem_write d1 (pos + 1) k in
  let fresh :=
    d ← put_key dest 0; Some (TRIG_OK, d, old_keylistlen + new_keylen + 1) in
  match old_keylist with
  | None => fresh
  | Some old =>
      if old_keylistlen =? 0 then fresh
      else
        pos ← addkey_pos (S (Z.to_nat old_keylistlen)) old old_keylistlen 0 new_key new_keylen;
        match pos with
        | inl tt => Some (TRIG_OK, dest, dest_listlen)
        | inr ins_pos =>
            dest1 ← (if (0 <? ins_pos) && negb alias then
                       before ← mem_slice old 0 ins_pos; mem_write dest 0 before
                     else Some dest);
            dest2 ← (if ins_pos <? old_keylistlen then
                       let dst := ins_pos + new_keylen + 1 in
                       let n := old_keylistlen - ins_pos in
                       if alias && negb (no_overlap dst ins_pos n) then None
                       else rest ← mem_slice (if alias then dest1 else old) ins_pos n;
                            mem_write dest1 dst rest
                     else Some dest1);
            dest3 ← put_key dest2 ins_pos;
            Some (TRIG_OK, dest3, old_keylistlen + new_keylen + 1)
        end
  end.

Definition trig_new_keylist_size (key_len : Z) : Z := key_len + 1.

(** The status, the cursor, and the offset and length of the key it is on. *)
Definition trig_keylist_next (keylist : mem) (keylistlen : Z) (cursor : option Z)
  : option (trig_status * option Z * option (Z * Z)) :=
  if keylistlen =? 0 then Some (TRIG_NOTFOUND, cursor, None)
  else
    cur ← match cursor with
          | None => Some 0
          | Some p => l ← mem_byte keylist p; Some (p + (l + 1))
          end;
    if cur <? keylistlen then
      nkey ← mem_byte keylist cur;
      Some (TRIG_OK, Some cur, Some (cur + 1, nkey))
    else Some (TRIG_NOTFOUND, Some cur, None).

(** The keys a [while (trig_keylist_next(...) == TRIG_OK)] loop visits. *)
Fixpoint keylist_walk (fuel : nat) (keylist : mem) (keylistlen : Z) (cursor : option Z)
  : option (list (list Z)) :=
  match fuel with
  | O => None
  | S f =>
      r ← trig_keylist_next keylist keylistlen cursor;
      match r with
      | (TRIG_OK, cursor', Some (o, n)) =>
          key ← mem_read keylist o n;
          rest ← keylist_walk f keylist keylistlen cursor';
          Some (key :: rest)
      | _ => Some []
      end
  end.

(** [trig_keylist_merge_lists]: every [addkey] has the destination as its old
    list. *)
Fixpoint merge_loop (fuel : nat) (dest : mem) (dest_len dest_maxlen : Z)
    (input : mem) (input_len : Z) (cursor : option Z) : option (trig_status * mem * Z) :=
  match fuel with
  | O => None
  | S f =>
      r ← trig_keylist_next input input_len cursor;
      match r with
      | (TRIG_OK, cursor', Some (o, n)) =>
          key ← mem_read input o n;
          let nkey := u8 n in
          st ← trig_check_keylist dest dest_len key nkey;
          if bool_decide (st = TRIG_NOTFOUND) then
            '(_, dest', dest_len') ←
              trig_keylist_addkey true dest dest_len (Some dest) dest_len key nkey;
            if dest_maxlen <? dest_len' then Some (TRIG_ERROR, dest', dest_len')
            else merge_loop f dest' dest_len' dest_maxlen input input_len cursor'
          else merge_loop f dest dest_len dest_maxlen input input_len cursor'
      | _ => Some (TRIG_OK, dest, dest_len)
      end
  end.

Definition trig_keylist_merge_lists (dest : mem) (dest_len dest_maxlen : Z)
    (input : mem) (input_len : Z) : option (trig_status * mem * Z) :=
  merge_loop (S (Z.to_nat input_len)) dest dest_len dest_maxlen input input_len None.

(** ** Encoding and order *)

Definition key_ok (k : list Z) : Prop := (length k <= 255)%nat.

Definition enc_key (k : list Z) : list Z := Z.of_nat (length k) :: k.
Definition enc (ks : list (list Z)) : list Z := concat (enc_key <$> ks).
Arguments enc_key : simpl never.
Arguments enc : simpl never.
Arguments init : simpl never.

(** The order of the list: shorter keys first, equal lengths from the greatest
    contents down. *)
Definition kcmp (k1 k2 : list Z) : Z :=
  let d := Z.of_nat (length k2) - Z.of_nat (length k1) in
  if negb (d =? 0) then d else memcmp k1 k2.

Definition klt (k1 k2 : list Z) : Prop := 0 < kcmp k1 k2.

Definition ksorted (ks : list (list Z)) : Prop := StronglySorted klt ks.

(** [m] holds at its start the packed sorted list of the set [X]. *)
Definition keylist_repr (m : mem) (len : Z) (X : gset (list Z)) : Prop :=
  exists ks tail, m = init (enc ks) ++ tail /\ len = Z.of_nat (length (enc ks)) /\
    Forall key_ok ks /\ ksorted ks /\ list_to_set ks = X.

Lemma enc_cons k ks : enc (k :: ks) = enc_key k ++ enc ks.
Proof. done. Qed.

Lemma enc_app a b : enc (a ++ b) = enc a ++ enc b.
Proof. unfold enc. by rewrite fmap_app, concat_app. Qed.

Lemma enc_nil_iff ks : enc ks = [] <-> ks = [].
Proof. destruct ks; done. Qed.

Lemma length_enc_key k : length (enc_key k) = S (length k).
Proof. done. Qed.

Lemma kcmp_refl k : kcmp k k = 0.
Proof. unfold kcmp. rewrite Z.sub_diag. simpl. apply memcmp_refl. Qed.

Lemma kcmp_eq a b : kcmp a b = 0 <-> a = b.
Proof.
  split; [|intros ->; apply kcmp_refl]. unfold kcmp.
  destruct (Z.eqb_spec (Z.of_nat (length b) - Z.of_nat (length a)) 0) as [E|E]; simpl; [|lia].
  apply memcmp_eq. lia.
Qed.

Lemma kcmp_antisym a b : kcmp b a = - kcmp a b.
Proof.
  unfold kcmp.
  destruct (Z.eqb_spec (Z.of_nat (length b) - Z.of_nat (length a)) 0),
    (Z.eqb_spec (Z.of_nat (length a) - Z.of_nat (length b)) 0); simpl; try lia.
  apply memcmp_antisym.
Qed.

Lemma klt_trans a b c : klt a b -> klt b c -> klt a c.
Proof.
  unfold klt, kcmp.
  destruct (Z.eqb_spec (Z.of_nat (length b) - Z.of_nat (length a)) 0),
    (Z.eqb_spec (Z.of_nat (length c) - Z.of_nat (length b)) 0),
    (Z.eqb_spec (Z.of_nat (length c) - Z.of_nat (length a)) 0); simpl; try lia.
  intros. apply Z.gt_lt, (memcmp_trans a b c); lia.
Qed.

Lemma klt_irrefl a : ~ klt a a.
Proof. unfold klt. rewrite kcmp_refl. lia. Qed.

(** ** Reading a packed key *)

Definition klen (k : list Z) : Z := Z.of_nat (length k).

Lemma read_klen pre k post :
  mem_byte (pre ++ init (enc_key k) ++ post) (Z.of_nat (length pre)) = Some (klen k).
Proof. apply mem_byte_app. Qed.

Lemma read_key pre k post :
  mem_read (pre ++ init (enc_key k) ++ post) (Z.of_nat (length pre) + 1) (klen k) = Some k.
Proof.
  pose proof (mem_read_app (pre ++ [Some (klen k)]) k post) as H.
  rewrite length_app, <-app_assoc in H. simpl in H.
  replace (Z.of_nat (length pre) + 1) with (Z.of_nat (length pre + 1)) by lia. apply H.
Qed.

Lemma compare_key pre k post k2 :
  trig_compare_key (pre ++ init (enc_key k) ++ post) (Z.of_nat (length pre) + 1) (klen k)
    k2 (klen k2) = Some (kcmp k k2).
Proof.
  unfold trig_compare_key, kcmp. fold (klen k) (klen k2).
  destruct (Z.eqb_spec (klen k2 - klen k) 0) as [E|E]; cbn [negb]; [|done].
  rewrite read_key; cbn [mbind option_bind].
  assert (klen k = klen k2) as -> by lia. unfold klen. rewrite mem_read_all. done.
Qed.

(** The shape shared by the loops: [done ++ k :: todo] with the pointer on
    [k]. *)
Lemma enc_focus done k todo tail :
  init (enc (done ++ k :: todo)) ++ tail =
  init (enc done) ++ init (enc_key k) ++ (init (enc todo) ++ tail).
Proof. by rewrite enc_app, enc_cons, !init_app, <-!app_assoc. Qed.

Lemma enc_next done k :
  Z.of_nat (length (enc done)) + 1 + klen k = Z.of_nat (length (enc (done ++ [k]))).
Proof.
  rewrite enc_app, enc_cons. change (enc []) with (@nil Z).
  rewrite app_nil_r, length_app, length_enc_key. unfold klen. lia.
Qed.

Lemma enc_length_le ks : (length ks <= length (enc ks))%nat.
Proof.
  induction ks as [|k ks IH]; [done|]. rewrite enc_cons, length_app, length_enc_key.
  cbn [length]. lia.
Qed.

Lemma enc_pos_lt done k todo :
  Z.of_nat (length (enc done)) < Z.of_nat (length (enc (done ++ k :: todo))).
Proof. rewrite enc_app, enc_cons, !length_app, length_enc_key. lia. Qed.

(** Rewrites one step of a loop standing on [k]. *)
Ltac on_key done k todo tail :=
  rewrite ?(proj2 (Z.ltb_lt _ _) (enc_pos_lt done k todo));
  rewrite ?(enc_focus done k todo tail);
  rewrite <-?(length_init (enc done));
  rewrite ?read_klen; cbn [mbind option_bind];
  rewrite ?compare_key; cbn [mbind option_bind];
  rewrite ?(length_init (enc done));
  rewrite <-?(enc_focus done k todo tail).

Lemma sorted_tail k ks : ksorted (k :: ks) -> ksorted ks /\ Forall (klt k) ks.
Proof. intros H. by apply StronglySorted_inv in H. Qed.

Lemma not_in_after k ks x : ksorted (k :: ks) -> kcmp k x < 0 -> x ∉ k :: ks.
Proof.
  intros Hs Hx Hin. apply sorted_tail in Hs as [_ Hall].
  apply elem_of_cons in Hin as [->|Hin]; [rewrite kcmp_refl in Hx; lia|].
  rewrite Forall_forall in Hall. specialize (Hall _ Hin). unfold klt in Hall. lia.
Qed.

(** ** Membership test *)

Lemma check_loop_spec todo : forall done tail k f,
  ksorted todo -> (length todo < f)%nat ->
  trig_check_loop f (init (enc (done ++ todo)) ++ tail)
    (Z.of_nat (length (enc (done ++ todo)))) (Z.of_nat (length (enc done))) k (klen k)
  = Some (if decide (k ∈ todo) then TRIG_OK else TRIG_NOTFOUND).
Proof.
  induction todo as [|x todo IH]; intros done tail k f Hs Hf;
    (destruct f as [|f]; simpl in Hf; [lia|]); cbn [trig_check_loop].
  - rewrite app_nil_r, Z.ltb_irrefl. done.
  - on_key done x todo tail.
    destruct (Z.eqb_spec (kcmp x k) 0) as [E|E].
    { apply kcmp_eq in E as ->. rewrite decide_True by set_solver. done. }
    assert (x <> k) by (intros ->; rewrite kcmp_refl in E; lia).
    destruct (Z.ltb_spec (kcmp x k) 0).
    { rewrite decide_False by by apply not_in_after. done. }
    rewrite enc_next. replace (done ++ x :: todo) with ((done ++ [x]) ++ todo)
      by by rewrite <-app_assoc.
    rewrite IH; [|apply (sorted_tail _ _ Hs)|lia].
    f_equal. apply decide_ext. rewrite elem_of_cons. naive_solver.
Qed.

Lemma trig_check_keylist_repr m len X k :
  keylist_repr m len X ->
  trig_check_keylist m len k (klen k) = Some (if decide (k ∈ X) then TRIG_OK else TRIG_NOTFOUND).
Proof.
  intros (ks & tail & -> & -> & Hok & Hs & <-). unfold trig_check_keylist.
  destruct (Z.eqb_spec (Z.of_nat (length (enc ks))) 0) as [E|E].
  - destruct ks as [|x ks]; [done|]. rewrite enc_cons, length_app, length_enc_key in E. lia.
  - pose proof (enc_length_le ks).
    pose proof (check_loop_spec ks [] tail k (S (Z.to_nat (Z.of_nat (length (enc ks))))) Hs) as HL.
    cbn [app] in HL. change (Z.of_nat (length (enc []))) with 0 in HL.
    rewrite HL by lia. f_equal. apply decide_ext. by rewrite elem_of_list_to_set.
Qed.

(** ** Insertion *)

Lemma mem_split (m : mem) n :
  (n <= length m)%nat -> exists a b, m = a ++ b /\ length a = n.
Proof. intros H. exists (take n m), (drop n m). rewrite take_drop, length_take. split; [done|lia]. Qed.

(** The offset of a write, as the length of what precedes it. *)
Lemma mem_write_at l m r bs off :
  off = Z.of_nat (length l) -> length m = length bs ->
  mem_write (l ++ m ++ r) off bs = Some (l ++ bs ++ r).
Proof. intros -> ?. by apply mem_write_app. Qed.

Lemma mem_slice_at l m r off n :
  off = Z.of_nat (length l) -> n = Z.of_nat (length m) ->
  mem_slice (l ++ m ++ r) off n = Some m.
Proof. intros -> ->. apply mem_slice_app. Qed.

Lemma addkey_pos_spec todo : forall done tail k f,
  ksorted todo -> (length todo < f)%nat ->
  exists R, addkey_pos f (init (enc (done ++ todo)) ++ tail)
    (Z.of_nat (length (enc (done ++ todo)))) (Z.of_nat (length (enc done))) k (klen k) = Some R /\
  ((k ∈ todo /\ R = inl tt) \/
   (k ∉ todo /\ exists t1 t2, todo = t1 ++ t2 /\ R = inr (Z.of_nat (length (enc (done ++ t1)))) /\
      Forall (fun x => klt x k) t1 /\ Forall (klt k) t2)).
Proof.
  induction todo as [|x todo IH]; intros done tail k f Hs Hf;
    (destruct f as [|f]; simpl in Hf; [lia|]); cbn [addkey_pos].
  - rewrite app_nil_r, Z.ltb_irrefl. eexists; split; [done|]. right. split; [set_solver|].
    exists [], []. split_and!; [done|by rewrite app_nil_r|constructor|constructor].
  - on_key done x todo tail.
    destruct (Z.ltb_spec (kcmp x k) 0) as [Hlt|Hge].
    { eexists; split; [done|]. right. split; [by apply not_in_after|].
      exists [], (x :: todo). rewrite app_nil_r. repeat split; [constructor|].
      assert (klt k x) by (unfold klt; rewrite kcmp_antisym; lia).
      constructor; [done|]. apply sorted_tail in Hs as [_ Hall].
      eapply Forall_impl; [exact Hall|]. intros y Hy. by eapply klt_trans. }
    destruct (Z.ltb_spec 0 (kcmp x k)) as [Hgt|Heq].
    + replace (Z.of_nat (length (enc done)) + (1 + klen x))
        with (Z.of_nat (length (enc done)) + 1 + klen x) by lia.
      rewrite enc_next. replace (done ++ x :: todo) with ((done ++ [x]) ++ todo)
        by by rewrite <-app_assoc.
      destruct (IH (done ++ [x]) tail k f) as (R & HR & HC);
        [apply (sorted_tail _ _ Hs)|lia|].
      exists R. split; [exact HR|]. destruct HC as [[Hin ->]|(Hni & t1 & t2 & -> & -> & H1 & H2)].
      * left. split; [by right|done].
      * right. split.
        { rewrite not_elem_of_cons. split; [|done]. intros ->. rewrite kcmp_refl in Hgt. lia. }
        exists (x :: t1), t2. rewrite <-app_assoc. repeat split; [|done]. by constructor.
    + eexists; split; [done|]. left. split; [|done].
      assert (x = k) as -> by (apply kcmp_eq; lia). left.
Qed.

Lemma ksorted_insert t1 k t2 :
  ksorted (t1 ++ t2) -> Forall (fun x => klt x k) t1 -> Forall (klt k) t2 ->
  ksorted (t1 ++ k :: t2).
Proof.
  induction t1 as [|x t1 IH]; simpl; intros Hs H1 H2; [by constructor|].
  apply sorted_tail in Hs as [Hs Hx]. apply Forall_cons in H1 as [Hxk H1].
  constructor; [by apply IH|]. apply Forall_app in Hx as [Hx1 Hx2].
  apply Forall_app; split; [done|]. by constructor.
Qed.

(** Writing a packed key over a gap of the right size. *)
Lemma put_key_at l gap r k pos :
  pos = Z.of_nat (length l) -> length gap = length (enc_key k) ->
  (d1 ← mem_write (l ++ gap ++ r) pos [Some (klen k)];
   kb ← mem_slice (init k) 0 (klen k);
   mem_write d1 (pos + 1) kb) = Some (l ++ init (enc_key k) ++ r).
Proof.
  intros -> Hg. rewrite length_enc_key in Hg. destruct gap as [|g gap]; [done|].
  change (l ++ (g :: gap) ++ r) with (l ++ [g] ++ (gap ++ r)).
  rewrite mem_write_app by done. cbn [mbind option_bind].
  unfold klen. rewrite <-(length_init k), mem_slice_all. cbn [mbind option_bind].
  replace (l ++ [Some (Z.of_nat (length (init k)))] ++ gap ++ r)
    with ((l ++ [Some (Z.of_nat (length (init k)))]) ++ gap ++ r) by by rewrite <-app_assoc.
  rewrite mem_write_at; [|rewrite length_app; simpl; lia|rewrite length_init; simpl in Hg; lia].
  rewrite <-app_assoc, length_init. done.
Qed.

Lemma trig_keylist_addkey_fresh dest n old k :
  klen k + 1 <= Z.of_nat (length dest) -> key_ok k ->
  exists dest', trig_keylist_addkey false dest n old 0 k (klen k)
    = Some (TRIG_OK, dest', klen k + 1) /\ length dest' = length dest /\
    keylist_repr dest' (klen k + 1) {[k]}.
Proof.
  intros Hl Hk. destruct (mem_split dest (length (enc_key k))) as (a & b & -> & Ha).
  { rewrite length_enc_key. unfold klen in Hl. lia. }
  exists (init (enc_key k) ++ b). split_and!.
  - unfold trig_keylist_addkey.
    pose proof (put_key_at [] a b k 0 eq_refl Ha) as HP. cbn [app] in HP.
    destruct old; rewrite ?Z.eqb_refl, HP; done.
  - rewrite !length_app, length_init, Ha. done.
  - exists [k], b. rewrite enc_cons. change (enc []) with (@nil Z). rewrite app_nil_r.
    split_and!; [done| | | |set_solver].
    + rewrite length_enc_key. unfold klen. lia.
    + by constructor.
    + repeat constructor.
Qed.

(** The two conditional [memcpy]s of [addkey] and [rmvkey]: what precedes the
    key, and what follows it. *)
Lemma copy_before A rest e src :
  length A = length e ->
  (if (0 <? Z.of_nat (length e)) && negb false then
     before ← mem_slice (init e ++ src) 0 (Z.of_nat (length e)); mem_write (A ++ rest) 0 before
   else Some (A ++ rest)) = Some (init e ++ rest).
Proof.
  intros HA. cbn [negb]. rewrite andb_true_r. zcase.
  - assert (mem_slice (init e ++ src) 0 (Z.of_nat (length e)) = Some (init e)) as ->.
    { by apply (mem_slice_at [] (init e)); rewrite ?length_init. }
    cbn [mbind option_bind]. apply (mem_write_at [] A rest); [done|by rewrite length_init].
  - destruct e; [|simpl in *; lia]. by destruct A.
Qed.

Lemma copy_after l C D s1 e s2 o1 n o2 (b : bool) :
  length C = length e -> o1 = Z.of_nat (length s1) -> n = Z.of_nat (length e) ->
  o2 = Z.of_nat (length l) -> (b = false -> e = []) ->
  (if b then rest ← mem_slice (s1 ++ init e ++ s2) o1 n; mem_write (l ++ C ++ D) o2 rest
   else Some (l ++ C ++ D)) = Some (l ++ init e ++ D).
Proof.
  intros HC -> -> -> Hb. destruct b.
  - rewrite (mem_slice_at s1 (init e)) by by rewrite ?length_init.
    cbn [mbind option_bind]. apply mem_write_at; [done|by rewrite length_init].
  - rewrite Hb in * by done. by destruct C.
Qed.

Lemma ltb_app_false (a b : list Z) :
  (Z.of_nat (length a) <? Z.of_nat (length (a ++ b))) = false -> b = [].
Proof. rewrite length_app. destruct b; [done|]. simpl. rewrite Z.ltb_ge. lia. Qed.

Lemma addkey_fill t1 t2 k A B C D tail n :
  length A = length (enc t1) -> length B = length (enc_key k) -> length C = length (enc t2) ->
  addkey_pos (S (Z.to_nat (Z.of_nat (length (enc (t1 ++ t2)))))) (init (enc (t1 ++ t2)) ++ tail)
    (Z.of_nat (length (enc (t1 ++ t2)))) 0 k (klen k) = Some (inr (Z.of_nat (length (enc t1)))) ->
  0 < Z.of_nat (length (enc (t1 ++ t2))) ->
  trig_keylist_addkey false (A ++ B ++ C ++ D) n (Some (init (enc (t1 ++ t2)) ++ tail))
    (Z.of_nat (length (enc (t1 ++ t2)))) k (klen k)
  = Some (TRIG_OK, init (enc t1) ++ init (enc_key k) ++ (init (enc t2) ++ D),
      Z.of_nat (length (enc (t1 ++ t2))) + klen k + 1).
Proof.
  intros HA HB HC HR Hpos. unfold trig_keylist_addkey. rewrite (proj2 (Z.eqb_neq _ _)) by lia.
  rewrite HR. cbn [mbind option_bind].
  rewrite enc_app, init_app, <-app_assoc.
  rewrite copy_before by done. cbn [mbind option_bind andb].
  replace (init (enc t1) ++ B ++ C ++ D) with ((init (enc t1) ++ B) ++ C ++ D)
    by by rewrite <-app_assoc.
  rewrite (copy_after (init (enc t1) ++ B) C D (init (enc t1)) (enc t2) tail);
    [|done|by rewrite length_init|rewrite length_app; lia
     |rewrite length_app, length_init, HB, length_enc_key; unfold klen; lia|apply ltb_app_false].
  cbn [mbind option_bind]. rewrite <-app_assoc.
  rewrite put_key_at; [done|by rewrite length_init|done].
Qed.

Lemma trig_keylist_addkey_old dest n m len X k :
  keylist_repr m len X -> key_ok k -> k ∉ X -> 0 < len ->
  len + klen k + 1 <= Z.of_nat (length dest) ->
  exists dest', trig_keylist_addkey false dest n (Some m) len k (klen k)
    = Some (TRIG_OK, dest', len + klen k + 1) /\ length dest' = length dest /\
    keylist_repr dest' (len + klen k + 1) ({[k]} ∪ X).
Proof.
  intros (ks & tail & -> & -> & Hok & Hs & <-) Hk Hni Hpos Hl.
  rewrite elem_of_list_to_set in Hni. pose proof (enc_length_le ks).
  destruct (addkey_pos_spec ks [] tail k (S (Z.to_nat (Z.of_nat (length (enc ks)))))
    Hs ltac:(lia)) as (R & HR & [[Hin _]|(_ & t1 & t2 & -> & -> & H1 & H2)]); [done|].
  cbn [app] in HR. change (Z.of_nat (length (enc []))) with 0 in HR.
  assert (length (enc (t1 ++ t2)) = length (enc t1) + length (enc t2))%nat as Hlen
    by by rewrite enc_app, length_app.
  unfold klen in Hl.
  destruct (mem_split dest (length (enc t1))) as (A & D1 & -> & HA); [lia|].
  rewrite length_app in Hl.
  destruct (mem_split D1 (length (enc_key k))) as (B & D2 & -> & HB); [rewrite length_enc_key; lia|].
  rewrite length_app, HB, length_enc_key in Hl.
  destruct (mem_split D2 (length (enc t2))) as (C & D & -> & HC); [lia|].
  exists (init (enc t1) ++ init (enc_key k) ++ (init (enc t2) ++ D)). split_and!.
  - by apply addkey_fill.
  - rewrite !length_app, !length_init, HA, HB, HC. done.
  - exists (t1 ++ k :: t2), D. rewrite enc_app, enc_cons, !init_app, <-!app_assoc.
    split_and!; [done| | | |].
    + rewrite enc_app, !length_app, length_enc_key. unfold klen. lia.
    + apply Forall_app in Hok as [? ?]. apply Forall_app; split; [done|]. by constructor.
    + by apply ksorted_insert.
    + rewrite !list_to_set_app_L. set_solver.
Qed.

(** ** Removal *)

Lemma rmvkey_pos_spec todo : forall done tail k f,
  k ∈ todo -> (length todo < f)%nat ->
  exists t1 t2, todo = t1 ++ k :: t2 /\ k ∉ t1 /\
  rmvkey_pos f (init (enc (done ++ todo)) ++ tail)
    (Z.of_nat (length (enc (done ++ todo)))) (Z.of_nat (length (enc done))) k (klen k)
  = Some (Z.of_nat (length (enc (done ++ t1)))).
Proof.
  induction todo as [|x todo IH]; intros done tail k f Hin Hf; [set_solver|].
  destruct f as [|f]; simpl in Hf; [lia|]. cbn [rmvkey_pos].
  on_key done x todo tail.
  destruct (Z.eqb_spec (kcmp x k) 0) as [E|E].
  - apply kcmp_eq in E as ->. exists [], todo. rewrite app_nil_r.
    split_and!; [done|set_solver|done].
  - assert (x <> k) by (intros ->; rewrite kcmp_refl in E; lia).
    rewrite enc_next. replace (done ++ x :: todo) with ((done ++ [x]) ++ todo)
      by by rewrite <-app_assoc.
    destruct (IH (done ++ [x]) tail k f) as (t1 & t2 & -> & Hni & HR); [set_solver|lia|].
    exists (x :: t1), t2. rewrite HR, <-app_assoc. split_and!; [done|set_solver|done].
Qed.

Lemma ksorted_remove t1 k t2 : ksorted (t1 ++ k :: t2) -> ksorted (t1 ++ t2).
Proof.
  induction t1 as [|x t1 IH]; simpl; intros Hs; apply sorted_tail in Hs as [Hs Hx]; [done|].
  constructor; [by apply IH|]. apply Forall_app in Hx as [? Hx].
  apply Forall_app; split; [done|]. by apply Forall_cons in Hx as [_ ?].
Qed.

Lemma ksorted_NoDup ks : ksorted ks -> NoDup ks.
Proof.
  induction 1 as [|k ks Hs IH Hall]; constructor; [|done].
  intros Hin. rewrite Forall_forall in Hall. by apply (klt_irrefl k), Hall.
Qed.

Lemma rmvkey_fill t1 t2 k A C D tail n :
  length A = length (enc t1) -> length C = length (enc t2) ->
  rmvkey_pos (S (Z.to_nat (Z.of_nat (length (enc (t1 ++ k :: t2))))))
    (init (enc (t1 ++ k :: t2)) ++ tail)
    (Z.of_nat (length (enc (t1 ++ k :: t2)))) 0 k (klen k) = Some (Z.of_nat (length (enc t1))) ->
  trig_keylist_rmvkey false (A ++ C ++ D) n (Some (init (enc (t1 ++ k :: t2)) ++ tail))
    (Z.of_nat (length (enc (t1 ++ k :: t2)))) k (klen k)
  = Some (TRIG_OK, init (enc t1) ++ init (enc t2) ++ D,
      Z.of_nat (length (enc (t1 ++ k :: t2))) - klen k - 1).
Proof.
  intros HA HC HR. unfold trig_keylist_rmvkey.
  pose proof (enc_pos_lt t1 k t2). rewrite (proj2 (Z.eqb_neq _ _)) by lia.
  rewrite HR. cbn [mbind option_bind andb].
  assert (Z.of_nat (length (enc (t1 ++ k :: t2)))
    = Z.of_nat (length (enc t1)) + klen k + 1 + Z.of_nat (length (enc t2))) as Hlen
    by (rewrite enc_app, enc_cons, !length_app, length_enc_key; unfold klen; lia).
  rewrite Hlen. rewrite enc_focus.
  rewrite copy_before by done. cbn [mbind option_bind].
  replace (init (enc t1) ++ init (enc_key k) ++ init (enc t2) ++ tail)
    with ((init (enc t1) ++ init (enc_key k)) ++ init (enc t2) ++ tail) by by rewrite <-app_assoc.
  rewrite (copy_after (init (enc t1)) C D _ (enc t2) tail);
    [done|done|rewrite length_app, !length_init, length_enc_key; unfold klen; lia|lia
    |by rewrite length_init|intros Hf; apply Z.ltb_ge in Hf; unfold klen in *; lia].
Qed.

Lemma trig_keylist_rmvkey_repr dest n m len X k :
  keylist_repr m len X -> k ∈ X -> len - klen k - 1 <= Z.of_nat (length dest) ->
  exists dest', trig_keylist_rmvkey false dest n (Some m) len k (klen k)
    = Some (TRIG_OK, dest', len - klen k - 1) /\ length dest' = length dest /\
    keylist_repr dest' (len - klen k - 1) (X ∖ {[k]}).
Proof.
  intros (ks & tail & -> & -> & Hok & Hs & <-) Hin Hl.
  rewrite elem_of_list_to_set in Hin. pose proof (enc_length_le ks).
  destruct (rmvkey_pos_spec ks [] tail k (S (Z.to_nat (Z.of_nat (length (enc ks))))) Hin
    ltac:(lia)) as (t1 & t2 & -> & Hni & HR).
  cbn [app] in HR. change (Z.of_nat (length (enc []))) with 0 in HR.
  assert (Z.of_nat (length (enc (t1 ++ k :: t2))) - klen k - 1
    = Z.of_nat (length (enc t1)) + Z.of_nat (length (enc t2))) as Hlen
    by (rewrite enc_app, enc_cons, !length_app, length_enc_key; unfold klen; lia).
  rewrite Hlen in Hl |- *.
  destruct (mem_split dest (length (enc t1))) as (A & D1 & -> & HA); [lia|].
  rewrite length_app in Hl.
  destruct (mem_split D1 (length (enc t2))) as (C & D & -> & HC); [lia|].
  exists (init (enc t1) ++ init (enc t2) ++ D). split_and!.
  - rewrite (rmvkey_fill t1 t2 k A C D tail n HA HC HR), Hlen. done.
  - rewrite !length_app, !length_init, HA, HC. done.
  - exists (t1 ++ t2), D. rewrite enc_app, init_app, length_app, <-app_assoc.
    split_and!; [done|lia| |by eapply ksorted_remove|].
    + apply Forall_app in Hok as [? Hok]. apply Forall_app; split; [done|].
      by apply Forall_cons in Hok as [_ ?].
    + apply ksorted_NoDup, NoDup_app in Hs as (_ & Hd & Hs).
      apply NoDup_cons in Hs as [Hk2 _].
      rewrite !list_to_set_app_L, list_to_set_cons. apply set_eq. intros x.
      rewrite !elem_of_difference, !elem_of_union, !elem_of_list_to_set, elem_of_singleton.
      naive_solver.
Qed.

(** ** Iteration *)

Lemma next_first k ks tail :
  trig_keylist_next (init (enc (k :: ks)) ++ tail) (Z.of_nat (length (enc (k :: ks)))) None
  = Some (TRIG_OK, Some 0, Some (1, klen k)).
Proof.
  unfold trig_keylist_next. pose proof (enc_pos_lt [] k ks) as Hp.
  change (Z.of_nat (length (enc []))) with 0 in Hp. cbn [app] in Hp.
  rewrite (proj2 (Z.eqb_neq _ _)) by lia. cbn [mbind option_bind].
  rewrite (proj2 (Z.ltb_lt _ _)) by lia.
  pose proof (read_klen [] k (init (enc ks) ++ tail)) as Hr. cbn [app length] in Hr.
  change (Z.of_nat 0) with 0 in Hr.
  rewrite enc_cons, init_app, <-app_assoc, Hr. done.
Qed.

Lemma next_step done x k todo tail :
  trig_keylist_next (init (enc (done ++ x :: k :: todo)) ++ tail)
    (Z.of_nat (length (enc (done ++ x :: k :: todo)))) (Some (Z.of_nat (length (enc done))))
  = Some (TRIG_OK, Some (Z.of_nat (length (enc (done ++ [x])))),
      Some (Z.of_nat (length (enc (done ++ [x]))) + 1, klen k)).
Proof.
  unfold trig_keylist_next. pose proof (enc_pos_lt done x (k :: todo)).
  rewrite (proj2 (Z.eqb_neq _ _)) by lia.
  on_key done x (k :: todo) tail.
  replace (Z.of_nat (length (enc done)) + (klen x + 1))
    with (Z.of_nat (length (enc done)) + 1 + klen x) by lia.
  rewrite enc_next. replace (done ++ x :: k :: todo) with ((done ++ [x]) ++ k :: todo)
    by by rewrite <-app_assoc.
  on_key (done ++ [x]) k todo tail. done.
Qed.

Lemma next_last done x tail :
  trig_keylist_next (init (enc (done ++ [x])) ++ tail)
    (Z.of_nat (length (enc (done ++ [x])))) (Some (Z.of_nat (length (enc done))))
  = Some (TRIG_NOTFOUND, Some (Z.of_nat (length (enc (done ++ [x])))), None).
Proof.
  unfold trig_keylist_next. pose proof (enc_pos_lt done x []).
  rewrite (proj2 (Z.eqb_neq _ _)) by lia.
  on_key done x (@nil (list Z)) tail.
  replace (Z.of_nat (length (enc done)) + (klen x + 1))
    with (Z.of_nat (length (enc done)) + 1 + klen x) by lia.
  rewrite enc_next, Z.ltb_irrefl. done.
Qed.

Lemma read_key_at done k todo tail :
  mem_read (init (enc (done ++ k :: todo)) ++ tail) (Z.of_nat (length (enc done)) + 1) (klen k)
  = Some k.
Proof. rewrite enc_focus, <-(length_init (enc done)). apply read_key. Qed.

Lemma keylist_walk_from todo : forall done x tail f,
  (length todo < f)%nat ->
  keylist_walk f (init (enc (done ++ x :: todo)) ++ tail)
    (Z.of_nat (length (enc (done ++ x :: todo)))) (Some (Z.of_nat (length (enc done))))
  = Some todo.
Proof.
  induction todo as [|k todo IH]; intros done x tail f Hf;
    (destruct f as [|f]; simpl in Hf; [lia|]); cbn [keylist_walk].
  - rewrite next_last. done.
  - rewrite next_step. cbn [mbind option_bind].
    replace (done ++ x :: k :: todo) with ((done ++ [x]) ++ k :: todo) by by rewrite <-app_assoc.
    rewrite read_key_at. cbn [mbind option_bind]. rewrite IH by lia. done.
Qed.

Lemma keylist_walk_all ks tail f :
  (length ks < f)%nat ->
  keylist_walk f (init (enc ks) ++ tail) (Z.of_nat (length (enc ks))) None = Some ks.
Proof.
  destruct ks as [|k ks]; intros Hf; (destruct f as [|f]; simpl in Hf; [lia|]);
    cbn [keylist_walk]; [done|].
  rewrite next_first. cbn [mbind option_bind].
  pose proof (read_key_at [] k ks tail) as Hr. cbn [app] in Hr.
  change (Z.of_nat (length (enc [])) + 1) with 1 in Hr. rewrite Hr. cbn [mbind option_bind].
  pose proof (keylist_walk_from ks [] k tail f ltac:(lia)) as Hw. cbn [app] in Hw.
  change (Z.of_nat (length (enc []))) with 0 in Hw. rewrite Hw. done.
Qed.

Lemma trig_size_loop_spec todo : forall done tail f cnt,
  (length todo < f)%nat ->
  trig_size_loop f (init (enc (done ++ todo)) ++ tail) (Z.of_nat (length (enc (done ++ todo))))
    (Z.of_nat (length (enc done))) cnt = Some (cnt + Z.of_nat (length todo)).
Proof.
  induction todo as [|x todo IH]; intros done tail f cnt Hf;
    (destruct f as [|f]; simpl in Hf; [lia|]); cbn [trig_size_loop].
  - rewrite app_nil_r, Z.ltb_irrefl. simpl. f_equal. lia.
  - on_key done x todo tail. rewrite enc_next.
    replace (done ++ x :: todo) with ((done ++ [x]) ++ todo) by by rewrite <-app_assoc.
    rewrite IH by lia. f_equal. simpl length. lia.
Qed.

Lemma size_list_to_set (ks : list (list Z)) :
  NoDup ks -> size (list_to_set ks : gset (list Z)) = length ks.
Proof. intros. by rewrite size_list_to_set. Qed.

(** The insertion point of a key is unique. *)
Lemma split_unique k t1 : forall t2 u1 u2,
  t1 ++ t2 = u1 ++ u2 -> Forall (fun x => klt x k) t1 -> Forall (klt k) t2 ->
  Forall (fun x => klt x k) u1 -> Forall (klt k) u2 -> u1 = t1 /\ u2 = t2.
Proof.
  assert (forall y, klt y k -> klt k y -> False) as Hno.
  { intros y H1 H2. by apply (klt_irrefl k), (klt_trans _ y). }
  induction t1 as [|x t1 IH]; intros t2 [|y u1] u2 Hu H1 H2 Hu1 Hu2; simpl in *; subst;
    rewrite ?Forall_cons in *; try naive_solver.
Qed.

(** ** Properties

    The packed lists refine finite sets of keys: the test is membership,
    insertion and removal are the set operations, a cursor visits every
    element once. *)

(** The list an item is created from: none yet, or the old item's. *)
Definition old_repr (old : option mem) (len : Z) (X : gset (list Z)) : Prop :=
  match old with None => len = 0 /\ X = ∅ | Some m => keylist_repr m len X end.

Lemma keylist_repr_zero m len X : keylist_repr m len X -> len = 0 -> X = ∅.
Proof.
  intros (ks & tail & _ & -> & _ & _ & <-) Hz.
  destruct ks as [|k ks]; [done|]. rewrite enc_cons, length_app, length_enc_key in Hz. lia.
Qed.

Lemma keylist_repr_nonneg m len X : keylist_repr m len X -> 0 <= len.
Proof. intros (ks & tail & _ & -> & _). lia. Qed.

(** On the packed sorted list of a set of keys [trig_check_keylist] answers
    [TRIG_OK] exactly for the members of the set, early exit included, and
    never reads outside the list. *)
Theorem keylist_check_member m len X k (H : keylist_repr m len X) :
  trig_check_keylist m len k (klen k) = Some (if decide (k ∈ X) then TRIG_OK else TRIG_NOTFOUND).
Proof. by apply trig_check_keylist_repr. Qed.

(** C22: adding a new key to a list (or to none) fills a destination of the size
    the callers reserve ([old + trig_new_keylist_size]) with the packed sorted
    list of the set plus the key, and reports its length. *)
Theorem keylist_addkey_union dest n old len X k
  (H : old_repr old len X) (Hk : key_ok k) (Hni : k ∉ X)
  (Hl : len + trig_new_keylist_size (klen k) = Z.of_nat (length dest)) :
  exists dest', trig_keylist_addkey false dest n old len k (klen k)
    = Some (TRIG_OK, dest', Z.of_nat (length dest)) /\
    keylist_repr dest' (Z.of_nat (length dest)) ({[k]} ∪ X).
Proof.
  unfold trig_new_keylist_size in Hl.
  assert (len = 0 /\ X = ∅ \/ exists m, old = Some m /\ keylist_repr m len X /\ 0 < len) as Hc.
  { destruct old as [m|]; simpl in H; [|by left].
    pose proof (keylist_repr_nonneg _ _ _ H). destruct (Z.eq_dec len 0) as [E|E].
    - left. split; [done|]. by eapply keylist_repr_zero.
    - right. exists m. split_and!; [done|done|lia]. }
  destruct Hc as [[-> ->]|(m & -> & Hm & Hp)].
  - destruct (trig_keylist_addkey_fresh dest n old k) as (d & Hd & _ & Hr); [lia|done|].
    rewrite <-Hl. exists d. rewrite union_empty_r_L. done.
  - destruct (trig_keylist_addkey_old dest n m len X k) as (d & Hd & _ & Hr); [done..|lia|].
    rewrite <-Hl. exists d. rewrite Z.add_assoc. done.
Qed.

(** Removing a member fills a destination that is one packed key shorter
    with the packed sorted list of the set without it. *)
Theorem keylist_rmvkey_difference dest n m len X k
  (H : keylist_repr m len X) (Hin : k ∈ X)
  (Hl : len - trig_new_keylist_size (klen k) = Z.of_nat (length dest)) :
  exists dest', trig_keylist_rmvkey false dest n (Some m) len k (klen k)
    = Some (TRIG_OK, dest', Z.of_nat (length dest)) /\
    keylist_repr dest' (Z.of_nat (length dest)) (X ∖ {[k]}).
Proof.
  unfold trig_new_keylist_size in Hl.
  destruct (trig_keylist_rmvkey_repr dest n m len X k) as (d & Hd & _ & Hr); [done..|lia|].
  rewrite <-Hl. exists d. rewrite Z.sub_add_distr. done.
Qed.

(** A [trig_keylist_next] loop over a packed list ends after visiting every
    member of the set exactly once, in the order of the list. *)
Theorem keylist_walk_visits m len X (H : keylist_repr m len X) :
  exists ks, keylist_walk (S (Z.to_nat len)) m len None = Some ks /\
    NoDup ks /\ ksorted ks /\ list_to_set ks = X.
Proof.
  destruct H as (ks & tail & -> & -> & Hok & Hs & <-). exists ks.
  pose proof (enc_length_le ks). rewrite keylist_walk_all by lia.
  split_and!; [done|by apply ksorted_NoDup|done|done].
Qed.

(** [trig_size_keylist] is the number of members. *)
Theorem keylist_size_card m len X (H : keylist_repr m len X) :
  trig_size_keylist m len = Some (Z.of_nat (size X)).
Proof.
  destruct H as (ks & tail & -> & -> & Hok & Hs & <-).
  rewrite size_list_to_set by by apply ksorted_NoDup.
  unfold trig_size_keylist. pose proof (enc_length_le ks).
  destruct (Z.eqb_spec (Z.of_nat (length (enc ks))) 0) as [E|E].
  - by destruct ks; [|simpl in *; lia].
  - pose proof (trig_size_loop_spec ks [] tail (S (Z.to_nat (Z.of_nat (length (enc ks))))) 0) as HL.
    cbn [app] in HL. change (Z.of_nat (length (enc []))) with 0 in HL. rewrite HL by lia. done.
Qed.

(** The in-place insertion [trig_keylist_merge_lists] makes is undefined
    whenever the packed keys behind the insertion point are longer than the
    new packed key: the two arguments of its [memcpy] then overlap. *)
Theorem keylist_inplace_add_overlaps t1 t2 k n
  (Hs : ksorted (t1 ++ t2)) (H1 : Forall (fun x => klt x k) t1) (H2 : Forall (klt k) t2)
  (Hlong : (length (enc_key k) < length (enc t2))%nat) tail :
  trig_keylist_addkey true (init (enc (t1 ++ t2)) ++ tail) n
    (Some (init (enc (t1 ++ t2)) ++ tail)) (Z.of_nat (length (enc (t1 ++ t2)))) k (klen k) = None.
Proof.
  pose proof (enc_length_le (t1 ++ t2)).
  destruct (addkey_pos_spec (t1 ++ t2) [] tail k (S (Z.to_nat (Z.of_nat (length (enc (t1 ++ t2))))))
    Hs ltac:(lia)) as (R & HR & HC).
  cbn [app] in HR. change (Z.of_nat (length (enc []))) with 0 in HR.
  unfold trig_keylist_addkey. rewrite length_enc_key in Hlong.
  assert (length (enc (t1 ++ t2)) = length (enc t1) + length (enc t2))%nat as Hlen
    by by rewrite enc_app, length_app.
  rewrite (proj2 (Z.eqb_neq _ _)) by lia. rewrite HR. cbn [mbind option_bind].
  assert (k ∉ t1 ++ t2) as Hni.
  { rewrite elem_of_app, Forall_forall in *.
    intros [Hi|Hi]; by apply (klt_irrefl k); auto. }
  destruct HC as [[? _]|(_ & u1 & u2 & Hu & -> & Hu1 & Hu2)]; [done|].
  assert (u1 = t1 /\ u2 = t2) as [-> ->].
  { by apply (split_unique k). }
  cbn [negb]. rewrite andb_false_r. cbn [mbind option_bind].
  cbn [app]. rewrite (proj2 (Z.ltb_lt _ _)) by lia. unfold no_overlap, klen.
  repeat match goal with |- context [?x <=? ?y] => rewrite (proj2 (Z.leb_gt x y)) by lia end.
  done.
Qed.

(** For keys of equal length the comparison is reversed with respect to its
    comment: it is negative when the first differing byte of [key2] is the
    larger one. *)
Theorem compare_key_content_reversed p x y a b
  (Hxy : x < y) (Hl : length a = length b) :
  trig_compare_key (init (p ++ x :: a)) 0 (klen (p ++ x :: a)) (p ++ y :: b) (klen (p ++ y :: b)) = Some (-1).
Proof.
  unfold trig_compare_key, klen.
  replace (length (p ++ y :: b)) with (length (p ++ x :: a))
    by (rewrite !length_app; simpl; lia).
  rewrite Z.sub_diag. cbn [negb Z.eqb]. rewrite mem_read_all. cbn [mbind option_bind].
  replace (length (p ++ x :: a)) with (length (p ++ y :: b))
    by (rewrite !length_app; simpl; lia).
  rewrite mem_read_all. cbn [mbind option_bind]. f_equal.
  induction p as [|z p IH]; simpl; [by rewrite (proj2 (Z.ltb_lt x y))|].
  by rewrite Z.ltb_irrefl.
Qed.

(** ** Witnesses *)

Lemma repr_intro ks :
  Forall key_ok ks -> ksorted ks ->
  keylist_repr (init (enc ks)) (Z.of_nat (length (enc ks))) (list_to_set ks).
Proof. intros. exists ks, []. rewrite app_nil_r. done. Qed.

Ltac keylist_example :=
  apply repr_intro; repeat constructor; unfold key_ok, klt; vm_compute; intuition discriminate.

Definition ex_keys : list (list Z) := [[98]; [97]; [97; 98]].
Definition ex_list : mem := init (enc ex_keys).

Lemma ex_list_repr : keylist_repr ex_list 7 (list_to_set ex_keys).
Proof. unfold ex_list. change 7 with (Z.of_nat (length (enc ex_keys))). keylist_example. Qed.

Lemma keylist_check_member_witness :
  trig_check_keylist ex_list 7 [97] 1 = Some TRIG_OK.
Proof.
  exact (keylist_check_member ex_list 7 (list_to_set ex_keys) [97] ex_list_repr).
Defined.

Lemma keylist_addkey_union_witness :
  exists dest', trig_keylist_addkey false (replicate 9 None) 0 (Some ex_list) 7 [99] 1
    = Some (TRIG_OK, dest', 9) /\ keylist_repr dest' 9 ({[ [99] ]} ∪ list_to_set ex_keys).
Proof.
  apply (keylist_addkey_union (replicate 9 None) 0 (Some ex_list) 7 (list_to_set ex_keys) [99]).
  - exact ex_list_repr.
  - vm_compute. lia.
  - rewrite elem_of_list_to_set. unfold ex_keys. set_solver.
  - reflexivity.
Defined.

Lemma keylist_rmvkey_difference_witness :
  exists dest', trig_keylist_rmvkey false (replicate 5 None) 0 (Some ex_list) 7 [97] 1
    = Some (TRIG_OK, dest', 5) /\ keylist_repr dest' 5 (list_to_set ex_keys ∖ {[ [97] ]}).
Proof.
  apply (keylist_rmvkey_difference (replicate 5 None) 0 ex_list 7 (list_to_set ex_keys) [97]).
  - exact ex_list_repr.
  - rewrite elem_of_list_to_set. unfold ex_keys. set_solver.
  - reflexivity.
Defined.

Lemma keylist_walk_visits_witness :
  exists ks, keylist_walk 8 ex_list 7 None = Some ks /\ NoDup ks /\ ksorted ks /\
    list_to_set ks =@{gset (list Z)} list_to_set ex_keys.
Proof. apply (keylist_walk_visits ex_list 7 (list_to_set ex_keys) ex_list_repr). Defined.

Lemma keylist_size_card_witness :
  trig_size_keylist ex_list 7 = Some (Z.of_nat (size (list_to_set ex_keys : gset (list Z)))).
Proof. apply (keylist_size_card ex_list 7 (list_to_set ex_keys) ex_list_repr). Defined.

Lemma keylist_inplace_add_overlaps_witness :
  trig_keylist_addkey true (init (enc [[97; 98]; [97; 98; 99]]) ++ [None; None]) 0
    (Some (init (enc [[97; 98]; [97; 98; 99]]) ++ [None; None])) 7 [120] 1 = None.
Proof.
  apply (keylist_inplace_add_overlaps [] [[97; 98]; [97; 98; 99]] [120] 0);
    repeat constructor; unfold klt; vm_compute; try lia; intuition discriminate.
Defined.

Lemma compare_key_content_reversed_witness :
  trig_compare_key (init [97]) 0 1 [98] 1 = Some (-1).
Proof. apply (compare_key_content_reversed [] 97 98 [] []); reflexivity. Defined.
