(* ===== verification/Assoc.v ===== *)
(** * mc_assoc: the hash table with incremental expansion

    Chained buckets, a power of two of them; when the load passes 3/2 the table
    doubles and a maintenance thread migrates one old bucket at a time while
    lookups, insertions and deletions go on ([mc_assoc.c]).

    An entry is an item; the table reads the item's key through [ekey]. *)

From S2P Require Import Prelude Hash.
Open Scope Z_scope.

Definition HASHSIZE (n : Z) : Z := 2 ^ n.
Definition HASHMASK (n : Z) : Z := HASHSIZE n - 1.
Definition HASH_DEFAULT_MOVE_SIZE : Z := 1.
Definition HASH_DEFAULT_POWER : Z := 16.
Definition HASH_MAX_POWER : Z := 32.

(** The static variables of [mc_assoc.c].  A table is its list of buckets. *)
Record table (E : Type) := Table {
  primary_hashtable : list (list E);
  old_hashtable : list (list E);
  nhash_item : Z;
  hash_power : Z;
  expanding : bool;
  nhash_move_size : Z;
  expand_bucket : Z
}.
Arguments Table {E}.
Arguments primary_hashtable {E}.
Arguments old_hashtable {E}.
Arguments nhash_item {E}.
Arguments hash_power {E}.
Arguments expanding {E}.
Arguments nhash_move_size {E}.
Arguments expand_bucket {E}.

(** [assoc_create_table]: [table_sz] is a [uint32_t]. *)
Definition assoc_create_table {E} (table_sz : Z) : list (list E) :=
  replicate (Z.to_nat (u32 table_sz)) [].

(** [assoc_init] with [settings.hash_power]; the maintenance thread starts. *)
Definition assoc_init {E} (settings_hash_power : Z) : table E :=
  let p := if 0 <? settings_hash_power then settings_hash_power else HASH_DEFAULT_POWER in
  Table (assoc_create_table (HASHSIZE p)) [] 0 p false HASH_DEFAULT_MOVE_SIZE 0.

Section assoc.
Context {E : Type} (ekey : E -> list Z) (hash : list Z -> Z).
Implicit Types (t : table E) (k : list Z) (e : E).

(** A bucket: [true] in the old table, [false] in the primary one. *)
Definition assoc_get_bucket t k : bool * nat :=
  let hv := hash k in
  let oldbucket := Z.land hv (HASHMASK (hash_power t - 1)) in
  let curbucket := Z.land hv (HASHMASK (hash_power t)) in
  if expanding t && (expand_bucket t <=? oldbucket)
  then (true, Z.to_nat oldbucket) else (false, Z.to_nat curbucket).

Definition bucket t (b : bool * nat) : option (list E) :=
  (if b.1 then old_hashtable t else primary_hashtable t) !! b.2.

Definition set_bucket t (b : bool * nat) (l : list E) : table E :=
  if b.1
  then Table (primary_hashtable t) (<[b.2 := l]> (old_hashtable t)) (nhash_item t)
         (hash_power t) (expanding t) (nhash_move_size t) (expand_bucket t)
  else Table (<[b.2 := l]> (primary_hashtable t)) (old_hashtable t) (nhash_item t)
         (hash_power t) (expanding t) (nhash_move_size t) (expand_bucket t).

Definition set_nhash_item t (n : Z) : table E :=
  Table (primary_hashtable t) (old_hashtable t) n (hash_power t) (expanding t)
    (nhash_move_size t) (expand_bucket t).

(** The scan of a chain for a key. *)
Fixpoint chain_find k (l : list E) : option E :=
  match l with
  | [] => None
  | e :: l' => if decide (ekey e = k) then Some e else chain_find k l'
  end.

(** The outer option is the access to the bucket array. *)
Definition assoc_find t k : option (option E) :=
  l ← bucket t (assoc_get_bucket t k); Some (chain_find k l).

Definition assoc_expand_needed (settings_hash_power : Z) t : bool :=
  (settings_hash_power =? 0) && negb (expanding t) &&
  (HASHSIZE (hash_power t) * 3 / 2 <? nhash_item t).

(** [alloc] says whether the allocation of the new table succeeds. *)
Definition assoc_expand (alloc : bool) t : table E :=
  if alloc then
    Table (assoc_create_table (HASHSIZE (hash_power t + 1))) (primary_hashtable t)
      (nhash_item t) (hash_power t + 1) true (nhash_move_size t) 0
  else
    Table (primary_hashtable t) (primary_hashtable t)
      (nhash_item t) (hash_power t) (expanding t) (nhash_move_size t) (expand_bucket t).

Definition assoc_insert (settings_hash_power : Z) (alloc : bool) t e : option (table E) :=
  let b := assoc_get_bucket t (ekey e) in
  l ← bucket t b;
  let t1 := set_bucket t b (e :: l) in
  let t2 := set_nhash_item t1 (u32 (nhash_item t1 + 1)) in
  Some (if assoc_expand_needed settings_hash_power t2 then assoc_expand alloc t2 else t2).

(** The chain without its first entry for the key; removing a key that is not
    there dereferences NULL. *)
Fixpoint chain_delete k (l : list E) : option (list E) :=
  match l with
  | [] => None
  | e :: l' => if decide (ekey e = k) then Some l' else r ← chain_delete k l'; Some (e :: r)
  end.

Definition assoc_delete t k : option (table E) :=
  let b := assoc_get_bucket t k in
  l ← bucket t b;
  l' ← chain_delete k l;
  Some (set_nhash_item (set_bucket t b l') (u32 (nhash_item t - 1))).

(** [SLIST_FOREACH_SAFE] of the maintenance thread: every entry of the old
    bucket moves to the head of its primary bucket. *)
Fixpoint move_chain (power : Z) (l : list E) (primary : list (list E)) : option (list (list E)) :=
  match l with
  | [] => Some primary
  | e :: l' =>
      let i := Z.to_nat (Z.land (hash (ekey e)) (HASHMASK power)) in
      c ← primary !! i;
      move_chain power l' (<[i := e :: c]> primary)
  end.

(** One turn of the loop of [assoc_maintenance_thread], run when
    [expanding == 1]. *)
Definition assoc_move_bucket t : option (table E) :=
  l ← old_hashtable t !! Z.to_nat (expand_bucket t);
  primary ← move_chain (hash_power t) l (primary_hashtable t);
  let eb := u32 (expand_bucket t + 1) in
  Some (if eb =? HASHSIZE (hash_power t - 1)
        then Table primary [] (nhash_item t) (hash_power t) false (nhash_move_size t) eb
        else Table primary (<[Z.to_nat (expand_bucket t) := []]> (old_hashtable t))
               (nhash_item t) (hash_power t) true (nhash_move_size t) eb).

(** The body of the thread under the lock: [nhash_move_size] turns at most. *)
Fixpoint assoc_move_loop (n : nat) t : option (table E) :=
  match n with
  | O => Some t
  | S n' => if expanding t then t' ← assoc_move_bucket t; assoc_move_loop n' t' else Some t
  end.

Definition assoc_maintenance t : option (table E) :=
  assoc_move_loop (Z.to_nat (nhash_move_size t)) t.

(** ** Invariant *)

Context (hash_range : forall k, 0 <= hash k < 2 ^ 32).

Definition contents t : list E :=
  concat (primary_hashtable t) ++ (if expanding t then concat (old_hashtable t) else []).

(** Where entries live, and that keys are unique in their chain. *)
Record wf t : Prop := Wf {
  wf_power : 0 < hash_power t < 32;
  wf_move : 0 < nhash_move_size t;
  wf_primary : Z.of_nat (length (primary_hashtable t)) = 2 ^ hash_power t;
  wf_old : expanding t = true ->
    Z.of_nat (length (old_hashtable t)) = 2 ^ (hash_power t - 1) /\
    0 <= expand_bucket t < 2 ^ (hash_power t - 1);
  wf_place_primary : forall i l e,
    primary_hashtable t !! i = Some l -> e ∈ l -> assoc_get_bucket t (ekey e) = (false, i);
  wf_place_old : forall i l e, expanding t = true ->
    old_hashtable t !! i = Some l -> e ∈ l -> assoc_get_bucket t (ekey e) = (true, i);
  wf_unique : forall b l, bucket t b = Some l -> (b.1 = true -> expanding t = true) ->
    NoDup (ekey <$> l)
}.

Lemma land_mask x n : 0 <= n -> Z.land x (HASHMASK n) = x mod 2 ^ n.
Proof.
  intros. unfold HASHMASK, HASHSIZE. rewrite <-Z.land_ones by done. by rewrite Z.ones_equiv.
Qed.

Lemma mod_pow_range x n : 0 <= n -> 0 <= x mod 2 ^ n < 2 ^ n.
Proof. intros. apply Z.mod_pos_bound. lia. Qed.

(** The bucket of a key always exists. *)
Lemma bucket_some t k : wf t -> exists l, bucket t (assoc_get_bucket t k) = Some l /\
  ((assoc_get_bucket t k).1 = true -> expanding t = true).
Proof.
  intros Hw. unfold assoc_get_bucket. pose proof (wf_power t Hw) as Hp.
  pose proof (mod_pow_range (hash k) (hash_power t)) as Hm.
  pose proof (mod_pow_range (hash k) (hash_power t - 1)) as Hm'.
  rewrite !land_mask by lia.
  destruct (expanding t) eqn:Ex; simpl.
  - destruct (wf_old t Hw Ex) as [Ho _]. pose proof (wf_primary t Hw). zcase; simpl.
    + destruct (lookup_lt_is_Some_2 (old_hashtable t) (Z.to_nat (hash k mod 2 ^ (hash_power t - 1))))
        as [l Hl]; [lia|]. by exists l.
    + destruct (lookup_lt_is_Some_2 (primary_hashtable t) (Z.to_nat (hash k mod 2 ^ hash_power t)))
        as [l Hl]; [lia|]. by exists l.
  - pose proof (wf_primary t Hw).
    destruct (lookup_lt_is_Some_2 (primary_hashtable t) (Z.to_nat (hash k mod 2 ^ hash_power t)))
      as [l Hl]; [lia|]. by exists l.
Qed.

Lemma chain_find_Some k l e : chain_find k l = Some e -> e ∈ l /\ ekey e = k.
Proof.
  induction l as [|x l IH]; simpl; [done|]. case_decide; [intros [= ->]; set_solver|].
  intros H'. destruct (IH H'). set_solver.
Qed.

Lemma chain_find_None k l : chain_find k l = None <-> k ∉ ekey <$> l.
Proof.
  induction l as [|x l IH]; simpl; [set_solver|]. rewrite not_elem_of_cons.
  case_decide; [naive_solver|]. rewrite IH. naive_solver.
Qed.

Lemma chain_find_elem l e : NoDup (ekey <$> l) -> e ∈ l -> chain_find (ekey e) l = Some e.
Proof.
  induction l as [|x l IH]; simpl; [set_solver|]. intros Hn He. apply NoDup_cons in Hn as [Hx Hn].
  apply elem_of_cons in He as [->|He]; [by rewrite decide_True|].
  rewrite decide_False; [by apply IH|]. intros Heq. apply Hx. rewrite Heq. by apply list_elem_of_fmap_2.
Qed.

Lemma elem_of_buckets (tbl : list (list E)) e :
  e ∈ concat tbl <-> exists i l, tbl !! i = Some l /\ e ∈ l.
Proof.
  rewrite list_elem_of_In, in_concat. setoid_rewrite <-list_elem_of_In. split.
  - intros (l & Hl & He). apply list_elem_of_lookup in Hl as [i Hi]. eauto.
  - intros (i & l & Hi & He). exists l. split; [|done]. by eapply list_elem_of_lookup_2.
Qed.

(** Every entry is in the chain its key selects. *)
Lemma contents_bucket t e : wf t ->
  e ∈ contents t <-> exists l, bucket t (assoc_get_bucket t (ekey e)) = Some l /\ e ∈ l.
Proof.
  intros Hw. unfold contents. rewrite elem_of_app. split.
  - intros [He|He].
    + apply elem_of_buckets in He as (i & l & Hi & He).
      rewrite (wf_place_primary t Hw i l e) by done. by exists l.
    + destruct (expanding t) eqn:Ex; [|set_solver].
      apply elem_of_buckets in He as (i & l & Hi & He).
      rewrite (wf_place_old t Hw i l e) by done. by exists l.
  - intros (l & Hl & He). destruct (bucket_some t (ekey e) Hw) as (_ & _ & Hx).
    destruct (assoc_get_bucket t (ekey e)) as [[] i]; unfold bucket in Hl; simpl in *.
    + right. rewrite Hx by done. apply elem_of_buckets. eauto.
    + left. apply elem_of_buckets. eauto.
Qed.

Lemma assoc_find_spec t k : wf t ->
  exists r, assoc_find t k = Some r /\
    (forall e, r = Some e <-> e ∈ contents t /\ ekey e = k).
Proof.
  intros Hw. unfold assoc_find. destruct (bucket_some t k Hw) as (l & Hl & Hx).
  rewrite Hl. cbn [mbind option_bind]. eexists; split; [done|]. intros e. split.
  - intros Hf. apply chain_find_Some in Hf as [He <-]. split; [|done].
    apply contents_bucket; [done|]. eauto.
  - intros [He <-]. apply contents_bucket in He as (l' & Hl' & He); [|done].
    rewrite Hl in Hl'. simplify_eq. apply chain_find_elem; [|done].
    by eapply (wf_unique t Hw).
Qed.

(** Entries with the same key are the same entry. *)
Lemma contents_inj t e1 e2 : wf t ->
  e1 ∈ contents t -> e2 ∈ contents t -> ekey e1 = ekey e2 -> e1 = e2.
Proof.
  intros Hw H1 H2 Hk. destruct (assoc_find_spec t (ekey e1) Hw) as (r & _ & Hr).
  assert (r = Some e1) by by apply Hr. assert (r = Some e2) by (apply Hr; auto). congruence.
Qed.

(** ** Updates of one chain *)

Lemma concat_update (tbl : list (list E)) i l l' :
  tbl !! i = Some l -> concat (<[i := l']> tbl) ++ l ≡ₚ concat tbl ++ l'.
Proof.
  revert i; induction tbl as [|x tbl IH]; intros [|i] Hi; simpl in *; simplify_eq.
  - solve_Permutation.
  - rewrite <-!app_assoc. by rewrite (IH i Hi).
Qed.

Lemma get_bucket_set t b l k :
  assoc_get_bucket (set_bucket t b l) k = assoc_get_bucket t k.
Proof. by destruct t, b as [[] i]. Qed.

Lemma get_bucket_nhash t n k :
  assoc_get_bucket (set_nhash_item t n) k = assoc_get_bucket t k.
Proof. done. Qed.

Lemma wf_nhash t n : wf t -> wf (set_nhash_item t n).
Proof. intros []; split; auto. Qed.

Lemma contents_nhash t n : contents (set_nhash_item t n) = contents t.
Proof. done. Qed.

Lemma wf_set_bucket t b l l' :
  wf t -> bucket t b = Some l -> (b.1 = true -> expanding t = true) ->
  (forall e, e ∈ l' -> assoc_get_bucket t (ekey e) = b) -> NoDup (ekey <$> l') ->
  wf (set_bucket t b l').
Proof.
  intros Hw Hb Hx Hp Hn. destruct Hw as [H1 H2 H3 H4 H5 H6 H7].
  destruct b as [[] i]; unfold bucket in Hb; simpl in *; split; simpl; auto;
    rewrite ?length_insert; auto.
  - intros j lj e Ex Hj He. rewrite list_lookup_insert_Some in Hj.
    destruct Hj as [(-> & -> & _)|[_ Hj]]; [by apply Hp|by eapply H6].
  - intros [[] j] lj Hj Hxj; unfold bucket in Hj; simpl in *.
    + rewrite list_lookup_insert_Some in Hj.
      destruct Hj as [(-> & -> & _)|[_ Hj]]; [done|by apply (H7 (true, j))].
    + by apply (H7 (false, j)).
  - intros j lj e Hj He. rewrite list_lookup_insert_Some in Hj.
    destruct Hj as [(-> & -> & _)|[_ Hj]]; [by apply Hp|by eapply H5].
  - intros [[] j] lj Hj Hxj; unfold bucket in Hj; simpl in *.
    + by apply (H7 (true, j)).
    + rewrite list_lookup_insert_Some in Hj.
      destruct Hj as [(-> & -> & _)|[_ Hj]]; [done|by apply (H7 (false, j))].
Qed.

Lemma contents_set_bucket t b l l' :
  bucket t b = Some l -> (b.1 = true -> expanding t = true) ->
  contents (set_bucket t b l') ++ l ≡ₚ contents t ++ l'.
Proof.
  destruct b as [[] i]; unfold bucket, contents; simpl; intros Hb Hx.
  - rewrite Hx by done. rewrite <-!app_assoc. by rewrite (concat_update _ _ _ l' Hb).
  - pose proof (concat_update _ _ _ l' Hb) as HP. destruct (expanding t).
    + rewrite <-!app_assoc, (Permutation_app_comm _ l), !app_assoc, HP. solve_Permutation.
    + by rewrite !app_nil_r.
Qed.

Lemma chain_delete_None k l : chain_delete k l = None <-> k ∉ ekey <$> l.
Proof.
  induction l as [|x l IH]; simpl; [set_solver|]. rewrite not_elem_of_cons.
  case_decide; [naive_solver|]. destruct (chain_delete k l) eqn:Ed; simpl; naive_solver.
Qed.

Lemma chain_delete_perm k l l' :
  chain_delete k l = Some l' -> exists e, chain_find k l = Some e /\ l ≡ₚ e :: l'.
Proof.
  revert l'; induction l as [|x l IH]; intros l'; simpl; [done|].
  case_decide; [intros [= ->]; eauto|].
  destruct (chain_delete k l) as [r|] eqn:Ed; simpl; [|done]. intros [= <-].
  destruct (IH r eq_refl) as (e & -> & HP). exists e. split; [done|]. rewrite HP. apply perm_swap.
Qed.

(** ** Expansion *)

Lemma create_table_length (p : Z) :
  0 <= p < 32 -> Z.of_nat (length (@assoc_create_table E (HASHSIZE p))) = 2 ^ p.
Proof.
  intros Hp. unfold assoc_create_table, HASHSIZE. rewrite length_replicate.
  assert (2 ^ p < 2 ^ 32) by (apply Z.pow_lt_mono_r; lia).
  rewrite u32_small by lia. lia.
Qed.

Lemma create_table_lookup p i (l : list E) :
  assoc_create_table p !! i = Some l -> l = [].
Proof. unfold assoc_create_table. rewrite lookup_replicate. by intros [-> _]. Qed.

Lemma concat_create_table p : concat (assoc_create_table p) = (@nil E).
Proof. unfold assoc_create_table. by induction (Z.to_nat (u32 p)). Qed.

(** When the table starts to expand every key still selects its old bucket. *)
Lemma get_bucket_expand t k :
  wf t -> expanding t = false ->
  assoc_get_bucket (assoc_expand true t) k = (true, (assoc_get_bucket t k).2).
Proof.
  intros Hw Ex. unfold assoc_get_bucket. rewrite Ex. simpl.
  pose proof (wf_power t Hw).
  replace (hash_power t + 1 - 1) with (hash_power t) by lia.
  rewrite land_mask by lia. pose proof (mod_pow_range (hash k) (hash_power t)).
  by rewrite (proj2 (Z.leb_le 0 _)) by lia.
Qed.

Lemma not_expanding_primary t k :
  expanding t = false -> (assoc_get_bucket t k).1 = false.
Proof. unfold assoc_get_bucket. by intros ->. Qed.

Lemma wf_expand alloc t :
  wf t -> expanding t = false -> hash_power t < 31 -> wf (assoc_expand alloc t).
Proof.
  intros Hw Ex Hp31. destruct alloc.
  - pose proof (wf_power t Hw) as Hp. split; simpl.
    + lia.
    + apply (wf_move t Hw).
    + apply create_table_length. lia.
    + intros _. replace (hash_power t + 1 - 1) with (hash_power t) by lia.
      split; [apply (wf_primary t Hw)|lia].
    + intros i l e Hi He. apply create_table_lookup in Hi as ->. set_solver.
    + intros i l e _ Hi He. pose proof (get_bucket_expand t (ekey e) Hw Ex) as Hg.
      unfold assoc_expand in Hg. by rewrite Hg, (wf_place_primary t Hw i l e).
    + intros [[] i] l Hb _; unfold bucket in Hb; simpl in *.
      * by apply (wf_unique t Hw (false, i)).
      * apply create_table_lookup in Hb as ->. constructor.
  - destruct Hw as [H1 H2 H3 H4 H5 H6 H7]. simpl.
    split; simpl; try assumption; try congruence.
    intros [[] i] l Hb Hx; simpl in *; [rewrite Hx in Ex by done; done|].
    by apply (H7 (false, i)).
Qed.

Lemma contents_expand alloc t :
  expanding t = false -> contents (assoc_expand alloc t) = contents t.
Proof.
  intros Ex. unfold contents, assoc_expand. destruct alloc; simpl; rewrite Ex; [|done].
  by rewrite concat_create_table, app_nil_r.
Qed.

Lemma NoDup_concat (tbl : list (list E)) :
  (forall i l, tbl !! i = Some l -> NoDup l) ->
  (forall i j li lj x, tbl !! i = Some li -> tbl !! j = Some lj -> x ∈ li -> x ∈ lj -> i = j) ->
  NoDup (concat tbl).
Proof.
  induction tbl as [|l tbl IH]; simpl; intros Hn Hd; [constructor|].
  apply NoDup_app. split_and!.
  - by apply (Hn 0%nat).
  - intros x Hx Hc. apply elem_of_buckets in Hc as (i & l' & Hi & Hx').
    by specialize (Hd 0%nat (S i) l l' x eq_refl Hi Hx Hx').
  - apply IH; [intros i l' Hi; by apply (Hn (S i))|].
    intros i j li lj x Hi Hj H1 H2. specialize (Hd (S i) (S j) li lj x Hi Hj H1 H2). lia.
Qed.

Lemma contents_NoDup t : wf t -> NoDup (contents t).
Proof.
  intros Hw. assert (forall b l, bucket t b = Some l -> (b.1 = true -> expanding t = true) -> NoDup l)
    as Hl by (intros b l Hb Hx; by eapply NoDup_fmap_1, (wf_unique t Hw b)).
  unfold contents. apply NoDup_app. split_and!.
  - apply NoDup_concat; [intros i l Hi; by apply (Hl (false, i))|].
    intros i j li lj x Hi Hj H1 H2. pose proof (wf_place_primary t Hw i li x Hi H1).
    pose proof (wf_place_primary t Hw j lj x Hj H2). congruence.
  - intros x Hx Hx'. destruct (expanding t) eqn:Ex; [|set_solver].
    apply elem_of_buckets in Hx as (i & li & Hi & H1). apply elem_of_buckets in Hx' as (j & lj & Hj & H2).
    pose proof (wf_place_primary t Hw i li x Hi H1). pose proof (wf_place_old t Hw j lj x Ex Hj H2).
    congruence.
  - destruct (expanding t) eqn:Ex; [|constructor].
    apply NoDup_concat; [intros i l Hi; by apply (Hl (true, i))|].
    intros i j li lj x Hi Hj H1 H2. pose proof (wf_place_old t Hw i li x Ex Hi H1).
    pose proof (wf_place_old t Hw j lj x Ex Hj H2). congruence.
Qed.

(** An autotuned table keeps fewer than [2^31] entries, so it never doubles
    past [2^31] buckets. *)
Definition power_ok (settings_hash_power : Z) t : Prop :=
  settings_hash_power = 0 -> 0 <= nhash_item t < 2 ^ 31 - 1.

Lemma expand_needed_small shp t :
  0 < hash_power t < 32 -> assoc_expand_needed shp t = true -> nhash_item t < 2 ^ 31 ->
  hash_power t < 31.
Proof.
  intros Hp En Hn. unfold assoc_expand_needed in En. apply andb_true_iff in En as [_ En].
  apply Z.ltb_lt in En. unfold HASHSIZE in En.
  destruct (Z.eq_dec (hash_power t) 31) as [E31|]; [|lia]. rewrite E31 in En.
  change (2 ^ 31 * 3 / 2) with 3221225472 in En. lia.
Qed.

Lemma assoc_insert_spec shp alloc t e :
  wf t -> power_ok shp t -> ekey e ∉ ekey <$> contents t ->
  exists t', assoc_insert shp alloc t e = Some t' /\ wf t' /\
    contents t' ≡ₚ e :: contents t /\ nhash_item t' = u32 (nhash_item t + 1).
Proof.
  intros Hw Hpo Hni. unfold assoc_insert.
  destruct (bucket_some t (ekey e) Hw) as (l & Hl & Hx). rewrite Hl. cbn [mbind option_bind].
  set (b := assoc_get_bucket t (ekey e)) in *. eexists; split; [done|].
  set (t1 := set_bucket t b (e :: l)). set (t2 := set_nhash_item t1 _).
  assert (wf t2) as Hw2.
  { apply wf_nhash, (wf_set_bucket t b l); try done.
    - intros x [->|Hxl]%elem_of_cons; [done|].
      destruct b as [[] i] eqn:Eb; unfold bucket in Hl; simpl in *.
      + by apply (wf_place_old t Hw i l x); auto.
      + by apply (wf_place_primary t Hw i l x).
    - simpl. constructor; [|by apply (wf_unique t Hw b)].
      intros Hk. apply Hni. apply list_elem_of_fmap in Hk as (x & Hxk & Hxl).
      apply list_elem_of_fmap. exists x. split; [done|].
      apply contents_bucket; [done|]. exists l. by rewrite <-Hxk. }
  assert (contents t2 ≡ₚ e :: contents t) as Hc2.
  { pose proof (contents_set_bucket t b l (e :: l) Hl Hx) as HP.
    apply (Permutation_app_inv_r l). unfold t2. rewrite contents_nhash. fold t1 in HP.
    rewrite HP. solve_Permutation. }
  assert (nhash_item t2 = u32 (nhash_item t + 1)) as Hn2.
  { unfold t2, t1. by destruct b as [[] i]. }
  destruct (assoc_expand_needed shp t2) eqn:En; [|done].
  pose proof En as En'. unfold assoc_expand_needed in En'. apply andb_true_iff in En' as [En' _].
  apply andb_true_iff in En' as [Es Ex]. apply Z.eqb_eq in Es. apply negb_true_iff in Ex.
  assert (hash_power t2 < 31).
  { apply (expand_needed_small shp); [by apply wf_power|done|].
    rewrite Hn2, u32_small; specialize (Hpo Es); lia. }
  split_and!; [by apply wf_expand|by rewrite contents_expand|by destruct alloc].
Qed.

Lemma assoc_delete_spec t k :
  wf t -> match assoc_delete t k with
          | Some t' => exists e, ekey e = k /\ wf t' /\ contents t ≡ₚ e :: contents t' /\
              nhash_item t' = u32 (nhash_item t - 1)
          | None => k ∉ ekey <$> contents t
          end.
Proof.
  intros Hw. unfold assoc_delete. destruct (bucket_some t k Hw) as (l & Hl & Hx).
  rewrite Hl. cbn [mbind option_bind]. set (b := assoc_get_bucket t k) in *.
  destruct (chain_delete k l) as [l'|] eqn:Ed; cbn [mbind option_bind].
  - apply chain_delete_perm in Ed as (e & Hf & HP). apply chain_find_Some in Hf as [He Hk].
    exists e. split; [done|]. split; [|split; [|by destruct b as [[] i]]].
    + apply wf_nhash, (wf_set_bucket t b l); try done.
      * intros x Hxl. assert (x ∈ l) by (rewrite HP; by right).
        destruct b as [[] i] eqn:Eb; unfold bucket in Hl; simpl in *.
        -- by apply (wf_place_old t Hw i l x); auto.
        -- by apply (wf_place_primary t Hw i l x).
      * pose proof (wf_unique t Hw b l Hl Hx) as Hn. rewrite HP in Hn. simpl in Hn.
        by apply NoDup_cons in Hn as [_ ?].
    + rewrite contents_nhash. pose proof (contents_set_bucket t b l l' Hl Hx) as HC.
      rewrite HP in HC. apply (Permutation_app_inv_r l'). rewrite <-HC. solve_Permutation.
  - apply chain_delete_None in Ed. intros Hk. apply Ed.
    apply list_elem_of_fmap in Hk as (x & -> & Hxc). apply list_elem_of_fmap. exists x.
    split; [done|]. apply contents_bucket in Hxc as (l2 & Hl2 & ?); [|done].
    fold b in Hl2. rewrite Hl in Hl2. by simplify_eq.
Qed.

(** ** Migration *)

Definition cur_index (p : Z) e : nat := Z.to_nat (Z.land (hash (ekey e)) (HASHMASK p)).

(** A migrated chain lands, reversed, in front of the primary chains. *)
Lemma move_chain_spec p l : forall primary,
  0 <= p -> Z.of_nat (length primary) = 2 ^ p ->
  exists primary', move_chain p l primary = Some primary' /\
    length primary' = length primary /\ concat primary' ≡ₚ l ++ concat primary /\
    forall i c', primary' !! i = Some c' -> exists c m, primary !! i = Some c /\ c' = m ++ c /\
      (m ≡ₚ filter (fun e => cur_index p e = i) l).
Proof.
  induction l as [|e l IH]; intros primary Hp Hlen; simpl.
  - exists primary. split_and!; try done. intros i c' Hi. exists c', []. done.
  - fold (cur_index p e).
    assert (cur_index p e < length primary)%nat as Hlt.
    { unfold cur_index. rewrite land_mask by done.
      pose proof (mod_pow_range (hash (ekey e)) p). lia. }
    destruct (lookup_lt_is_Some_2 _ _ Hlt) as [c Hc]. rewrite Hc. cbn [mbind option_bind].
    destruct (IH (<[cur_index p e := e :: c]> primary)) as (p' & Hm & Hl & HP & HC);
      [done|by rewrite length_insert|].
    exists p'. rewrite Hm, Hl, length_insert. split_and!; try done.
    + rewrite HP. pose proof (concat_update primary _ _ (e :: c) Hc) as HU.
      apply (Permutation_app_inv_r c). rewrite <-app_assoc, HU. solve_Permutation.
    + intros i c' Hi. destruct (HC i c' Hi) as (c0 & m & Hc0 & -> & Hmp).
      rewrite filter_cons. rewrite list_lookup_insert_Some in Hc0.
      destruct Hc0 as [(<- & <- & _)|[Hne Hc0]].
      * exists c, (m ++ [e]). rewrite decide_True by done. split_and!; [done|by rewrite <-app_assoc|].
        rewrite Hmp. solve_Permutation.
      * exists c0, m. by rewrite decide_False.
Qed.

Lemma get_bucket_old t k i :
  assoc_get_bucket t k = (true, i) ->
  i = Z.to_nat (Z.land (hash k) (HASHMASK (hash_power t - 1))) /\
  expand_bucket t <= Z.land (hash k) (HASHMASK (hash_power t - 1)).
Proof. unfold assoc_get_bucket. destruct (expanding t); simpl; [zcase|]; intros [= <-]; done. Qed.

Lemma get_bucket_primary t k i :
  assoc_get_bucket t k = (false, i) ->
  i = Z.to_nat (Z.land (hash k) (HASHMASK (hash_power t))) /\
  (expanding t = true -> Z.land (hash k) (HASHMASK (hash_power t - 1)) < expand_bucket t).
Proof. unfold assoc_get_bucket. destruct (expanding t); simpl; [zcase|]; intros [= <-]; done. Qed.

Section move.
Context (t : table E) (Hw : wf t) (Ex : expanding t = true).
Context (l : list E) (Hl : old_hashtable t !! Z.to_nat (expand_bucket t) = Some l).
Context (primary : list (list E)).
Context (Hlen : length primary = length (primary_hashtable t)).
Context (Hchain : forall i c', primary !! i = Some c' -> exists c m,
  primary_hashtable t !! i = Some c /\ c' = m ++ c /\
  m ≡ₚ filter (fun e => cur_index (hash_power t) e = i) l).

Lemma moved_source i c' e :
  primary !! i = Some c' -> e ∈ c' ->
  (e ∈ l /\ cur_index (hash_power t) e = i) \/
  (exists c, primary_hashtable t !! i = Some c /\ e ∈ c).
Proof.
  intros Hi He. destruct (Hchain i c' Hi) as (c & m & Hc & -> & Hm).
  apply elem_of_app in He as [He|He]; [left|right; eauto].
  rewrite Hm in He. apply list_elem_of_filter in He. naive_solver.
Qed.

Lemma moved_old e : e ∈ l ->
  Z.land (hash (ekey e)) (HASHMASK (hash_power t - 1)) = expand_bucket t.
Proof.
  intros He. pose proof (wf_place_old t Hw _ _ e Ex Hl He) as Hg.
  apply get_bucket_old in Hg as [Hi Hge]. destruct (wf_old t Hw Ex) as [_ Hb]. lia.
Qed.

Lemma moved_unique i c' : primary !! i = Some c' -> NoDup (ekey <$> c').
Proof.
  intros Hi. destruct (Hchain i c' Hi) as (c & m & Hc & -> & Hm).
  rewrite fmap_app. apply NoDup_app. split_and!.
  - rewrite Hm. pose proof (wf_unique t Hw (true, Z.to_nat (expand_bucket t)) l Hl (fun _ => Ex)) as Hn.
    clear -Hn. induction l as [|e l' IH]; simpl in *; [constructor|].
    apply NoDup_cons in Hn as [Hx Hn]. rewrite filter_cons. case_decide; [|by apply IH].
    simpl. constructor; [|by apply IH]. intros Hin. apply Hx.
    apply list_elem_of_fmap in Hin as (x & -> & Hin). apply list_elem_of_filter in Hin as [_ Hin].
    by apply list_elem_of_fmap_2.
  - intros k Hk1 Hk2. apply list_elem_of_fmap in Hk1 as (e1 & -> & He1).
    apply list_elem_of_fmap in Hk2 as (e2 & Hk & He2).
    rewrite Hm in He1. apply list_elem_of_filter in He1 as [_ He1].
    pose proof (wf_place_old t Hw _ _ e1 Ex Hl He1) as G1.
    pose proof (wf_place_primary t Hw _ _ e2 Hc He2) as G2. rewrite Hk in G1. congruence.
  - by apply (wf_unique t Hw (false, i)).
Qed.

Lemma wf_moved_continue :
  expand_bucket t + 1 < 2 ^ (hash_power t - 1) ->
  wf (Table primary (<[Z.to_nat (expand_bucket t) := []]> (old_hashtable t)) (nhash_item t)
        (hash_power t) true (nhash_move_size t) (expand_bucket t + 1)).
Proof.
  intros Hlt. destruct (wf_old t Hw Ex) as [Ho Hb]. split; simpl.
  - apply (wf_power t Hw).
  - apply (wf_move t Hw).
  - rewrite Hlen. apply (wf_primary t Hw).
  - intros _. rewrite length_insert. split; [done|lia].
  - intros i c' e Hi He. unfold assoc_get_bucket; simpl.
    destruct (moved_source i c' e Hi He) as [[Hel <-]|(c & Hc & Hec)].
    + rewrite moved_old by done. by rewrite (proj2 (Z.leb_gt _ _)) by lia.
    + pose proof (wf_place_primary t Hw i c e Hc Hec) as Hg.
      apply get_bucket_primary in Hg as [-> Hx]. specialize (Hx Ex).
      by rewrite (proj2 (Z.leb_gt _ _)) by lia.
  - intros i c e _ Hi He. rewrite list_lookup_insert_Some in Hi.
    destruct Hi as [(_ & <- & _)|[Hne Hi]]; [set_solver|].
    pose proof (wf_place_old t Hw i c e Ex Hi He) as Hg.
    apply get_bucket_old in Hg as [-> Hge]. unfold assoc_get_bucket; simpl.
    by rewrite (proj2 (Z.leb_le _ _)) by lia.
  - intros [[] i] c Hc _; unfold bucket in Hc; simpl in *; [|by apply (moved_unique i)].
    rewrite list_lookup_insert_Some in Hc.
    destruct Hc as [(_ & <- & _)|[_ Hc]]; [constructor|by apply (wf_unique t Hw (true, i))].
Qed.

Lemma wf_moved_done eb :
  wf (Table primary [] (nhash_item t) (hash_power t) false (nhash_move_size t) eb).
Proof.
  split; simpl; try done.
  - apply (wf_power t Hw).
  - apply (wf_move t Hw).
  - rewrite Hlen. apply (wf_primary t Hw).
  - intros i c' e Hi He. unfold assoc_get_bucket; simpl.
    destruct (moved_source i c' e Hi He) as [[Hel <-]|(c & Hc & Hec)]; [done|].
    pose proof (wf_place_primary t Hw i c e Hc Hec) as Hg.
    by apply get_bucket_primary in Hg as [-> _].
  - intros [[] i] c Hc Hx; unfold bucket in Hc; simpl in *; [done|by apply (moved_unique i)].
Qed.

Lemma old_empty_after :
  expand_bucket t + 1 = 2 ^ (hash_power t - 1) ->
  concat (<[Z.to_nat (expand_bucket t) := []]> (old_hashtable t)) = [].
Proof.
  intros Heq. destruct (wf_old t Hw Ex) as [Ho Hb].
  destruct (concat _) as [|e r] eqn:Ec; [done|exfalso].
  assert (e ∈ concat (<[Z.to_nat (expand_bucket t) := []]> (old_hashtable t))) as He
    by (rewrite Ec; left).
  apply elem_of_buckets in He as (i & c & Hi & He). rewrite list_lookup_insert_Some in Hi.
  destruct Hi as [(_ & <- & _)|[Hne Hi]]; [set_solver|].
  pose proof (wf_place_old t Hw i c e Ex Hi He) as Hg. apply get_bucket_old in Hg as [-> Hge].
  pose proof (wf_power t Hw). rewrite land_mask in * by lia.
  pose proof (mod_pow_range (hash (ekey e)) (hash_power t - 1)). lia.
Qed.
End move.

Lemma assoc_move_bucket_spec t :
  wf t -> expanding t = true ->
  exists t', assoc_move_bucket t = Some t' /\ wf t' /\ contents t' ≡ₚ contents t /\
    nhash_item t' = nhash_item t /\ hash_power t' = hash_power t /\
    nhash_move_size t' = nhash_move_size t /\
    (expanding t' = true -> expand_bucket t' = expand_bucket t + 1).
Proof.
  intros Hw Ex. pose proof (wf_power t Hw) as Hp. destruct (wf_old t Hw Ex) as [Ho Hb].
  unfold assoc_move_bucket.
  destruct (lookup_lt_is_Some_2 (old_hashtable t) (Z.to_nat (expand_bucket t))) as [l Hl]; [lia|].
  rewrite Hl. cbn [mbind option_bind].
  destruct (move_chain_spec (hash_power t) l (primary_hashtable t)) as (pr & Hm & Hlen & HP & HC);
    [lia|apply (wf_primary t Hw)|].
  rewrite Hm. cbn [mbind option_bind]. eexists; split; [done|].
  assert (2 ^ (hash_power t - 1) <= 2 ^ 31) by (apply Z.pow_le_mono_r; lia).
  rewrite u32_small by lia. unfold HASHSIZE.
  pose proof (concat_update (old_hashtable t) _ _ [] Hl) as HU. rewrite app_nil_r in HU.
  destruct (Z.eqb_spec (expand_bucket t + 1) (2 ^ (hash_power t - 1))) as [Heq|Hne].
  - split; [by apply (wf_moved_done t Hw Ex l Hl)|].
    split; [|done]. unfold contents; simpl. rewrite Ex, app_nil_r, HP, <-HU.
    erewrite old_empty_after by eauto. simpl. apply Permutation_app_comm.
  - split; [apply (wf_moved_continue t Hw Ex l Hl); [done|done|lia]|].
    split; [|done]. unfold contents; simpl. rewrite Ex, HP, <-HU.
    rewrite (Permutation_app_comm l), <-app_assoc. apply Permutation_app_head, Permutation_app_comm.
Qed.

Lemma assoc_move_loop_spec n : forall t, wf t ->
  exists t', assoc_move_loop n t = Some t' /\ wf t' /\ contents t' ≡ₚ contents t /\
    nhash_item t' = nhash_item t.
Proof.
  induction n as [|n IH]; intros t Hw; cbn [assoc_move_loop]; [eauto|].
  destruct (expanding t) eqn:Ex; [|eauto].
  destruct (assoc_move_bucket_spec t Hw Ex) as (t1 & -> & Hw1 & HP1 & Hn1 & _).
  cbn [mbind option_bind]. destruct (IH t1 Hw1) as (t2 & -> & Hw2 & HP2 & Hn2).
  exists t2. split_and!; [done|done|by rewrite HP2|congruence].
Qed.

(** ** Refinement to a finite map *)

(** [t] implements the map [m] from keys to entries. *)
Definition refines t (m : gmap (list Z) E) : Prop :=
  wf t /\ (forall k e, m !! k = Some e <-> e ∈ contents t /\ ekey e = k) /\
  nhash_item t = u32 (Z.of_nat (size m)).

Lemma refines_perm t t' m :
  refines t m -> wf t' -> contents t' ≡ₚ contents t -> nhash_item t' = nhash_item t ->
  refines t' m.
Proof.
  intros (Hw & Hm & Hn) Hw' HP Hn'. split_and!; [done| |congruence].
  intros k e. rewrite Hm. by rewrite HP.
Qed.

Lemma refines_not_in t m k : refines t m -> m !! k = None <-> k ∉ ekey <$> contents t.
Proof.
  intros (Hw & Hm & _). split.
  - intros Hk Hin. apply list_elem_of_fmap in Hin as (e & -> & He).
    assert (m !! ekey e = Some e) by by apply Hm. congruence.
  - intros Hni. destruct (m !! k) as [e|] eqn:Ek; [|done]. exfalso. apply Hni.
    apply Hm in Ek as [He <-]. by apply list_elem_of_fmap_2.
Qed.

Lemma refines_find t m k : refines t m -> assoc_find t k = Some (m !! k).
Proof.
  intros (Hw & Hm & _). destruct (assoc_find_spec t k Hw) as (r & -> & Hr). f_equal.
  apply option_eq. intros e. by rewrite Hr, Hm.
Qed.

Lemma refines_insert shp alloc t m e :
  refines t m -> power_ok shp t -> m !! ekey e = None ->
  exists t', assoc_insert shp alloc t e = Some t' /\ refines t' (<[ekey e := e]> m).
Proof.
  intros HR Hp Hne. pose proof (proj1 (refines_not_in t m (ekey e) HR) Hne) as Hni.
  destruct HR as (Hw & Hm & Hn).
  destruct (assoc_insert_spec shp alloc t e Hw Hp Hni) as (t' & Hi & Hw' & HP & Hn').
  exists t'. split; [done|]. split_and!; [done| |].
  - intros k x. rewrite HP, elem_of_cons, lookup_insert_Some, Hm. split.
    + intros [[<- <-]|[? [? ?]]]; auto.
    + intros [[->|Hx] <-]; [by left|]. right. split; [|done]. intros Hk. apply Hni.
      rewrite Hk. by apply list_elem_of_fmap_2.
  - rewrite map_size_insert_None by done. rewrite Hn', Hn.
    unfold u32. rewrite Z.add_mod_idemp_l by lia. f_equal. lia.
Qed.

Lemma refines_delete t m k e :
  refines t m -> m !! k = Some e ->
  exists t', assoc_delete t k = Some t' /\ refines t' (delete k m).
Proof.
  intros HR Hk. pose proof (assoc_delete_spec t k (proj1 HR)) as HD.
  destruct (assoc_delete t k) as [t'|];
    [|exfalso; revert HD; rewrite <-(refines_not_in t m k HR); congruence].
  destruct HD as (x & Hx & Hw' & HP & Hn'). exists t'. split; [done|].
  destruct HR as (Hw & Hm & Hn). split_and!; [done| |].
  - pose proof (contents_NoDup t Hw) as Hnd. rewrite HP in Hnd. apply NoDup_cons in Hnd as [Hxn _].
    intros k' y. rewrite lookup_delete_Some, Hm, HP, elem_of_cons. split.
    + intros [Hne [[->|Hy] <-]]; [done|auto].
    + intros [Hy <-]. split; [|auto]. intros Hk'. apply Hxn.
      assert (x = y) as ->; [|done].
      apply (contents_inj t); [done|rewrite HP; by left|rewrite HP; by right|congruence].
  - assert (size m = S (size (delete k m))) as Hs.
    { assert (size (<[k:=e]> (delete k m)) = S (size (delete k m))) as <-
        by apply map_size_insert_None, lookup_delete_eq.
      by rewrite insert_delete_id. }
    rewrite Hn', Hn, Hs. unfold u32. rewrite Zminus_mod_idemp_l. f_equal. lia.
Qed.

Lemma refines_maintenance t m :
  refines t m -> exists t', assoc_maintenance t = Some t' /\ refines t' m.
Proof.
  intros HR. destruct (assoc_move_loop_spec (Z.to_nat (nhash_move_size t)) t (proj1 HR))
    as (t' & Hm & Hw & HP & Hn).
  exists t'. split; [done|]. by eapply refines_perm.
Qed.

Lemma refines_init shp : 0 <= shp < 32 -> refines (assoc_init shp) ∅.
Proof.
  intros Hs. unfold assoc_init. set (p := if 0 <? shp then shp else HASH_DEFAULT_POWER).
  assert (0 < p < 32) as Hp by (unfold p, HASH_DEFAULT_POWER; zcase; lia).
  split_and!; [| |done].
  - split; simpl; try done.
    + apply create_table_length. lia.
    + intros i l e Hi He. apply create_table_lookup in Hi as ->. set_solver.
    + intros [[] i] l Hb _; unfold bucket in Hb; simpl in *; [done|].
      apply create_table_lookup in Hb as ->. constructor.
  - intros k e. unfold contents; simpl. rewrite concat_create_table. set_solver.
Qed.
End assoc.

Arguments refines {E} ekey hash t m.
Arguments wf {E} ekey hash t.

(** ** Histories

    The operations made under [cache_lock], one after another: those of the
    workers interleaved with the turns of the maintenance thread. *)

Inductive assoc_op (E : Type) :=
  | OpFind (k : list Z)
  | OpInsert (e : E) (alloc : bool)
  | OpDelete (k : list Z)
  | OpMaintenance.
Arguments OpFind {E}.
Arguments OpInsert {E}.
Arguments OpDelete {E}.
Arguments OpMaintenance {E}.

Section history.
Context {E : Type} (ekey : E -> list Z) (hash : list Z -> Z).
Context (hash_range : forall k, 0 <= hash k < 2 ^ 32).
Context (shp : Z).

(** What an operation answers (only lookups do) and the table it leaves. *)
Definition assoc_do (o : assoc_op E) (t : table E) : option (option E * table E) :=
  match o with
  | OpFind k => r ← assoc_find ekey hash t k; Some (r, t)
  | OpInsert e alloc => t' ← assoc_insert ekey hash shp alloc t e; Some (None, t')
  | OpDelete k => t' ← assoc_delete ekey hash t k; Some (None, t')
  | OpMaintenance => t' ← assoc_maintenance ekey hash t; Some (None, t')
  end.

Fixpoint assoc_run (os : list (assoc_op E)) (t : table E) : option (list (option E) * table E) :=
  match os with
  | [] => Some ([], t)
  | o :: os' =>
      '(r, t1) ← assoc_do o t;
      '(rs, t2) ← assoc_run os' t1;
      Some (r :: rs, t2)
  end.

(** The same history on a finite map, maintenance having no effect. *)
Definition spec_do (o : assoc_op E) (m : gmap (list Z) E) : option (option E * gmap (list Z) E) :=
  match o with
  | OpFind k => Some (m !! k, m)
  | OpInsert e _ => if decide (m !! ekey e = None) then Some (None, <[ekey e := e]> m) else None
  | OpDelete k => if decide (is_Some (m !! k)) then Some (None, delete k m) else None
  | OpMaintenance => Some (None, m)
  end.

Fixpoint spec_run (os : list (assoc_op E)) (m : gmap (list Z) E)
  : option (list (option E) * gmap (list Z) E) :=
  match os with
  | [] => Some ([], m)
  | o :: os' =>
      '(r, m1) ← spec_do o m;
      '(rs, m2) ← spec_run os' m1;
      Some (r :: rs, m2)
  end.

Definition room (n : nat) (m : gmap (list Z) E) : Prop :=
  shp = 0 -> Z.of_nat (size m) + Z.of_nat n < 2 ^ 31.

Lemma assoc_do_refines o t m r m' n :
  refines ekey hash t m -> room (S n) m -> spec_do o m = Some (r, m') ->
  exists t', assoc_do o t = Some (r, t') /\ refines ekey hash t' m' /\ room n m'.
Proof.
  intros HR Hroom Hs. unfold room in *. destruct o as [k|e alloc|k|]; simpl in *.
  - simplify_eq. rewrite (refines_find ekey hash hash_range t m' k HR). simpl. eexists.
    split_and!; [done|done|lia].
  - case_decide as Hk; [|done]. simplify_eq.
    destruct (refines_insert ekey hash hash_range shp alloc t m e HR) as (t' & -> & HR'); [|done|].
    + intros Hz. destruct HR as (_ & _ & ->). rewrite u32_small; specialize (Hroom Hz); lia.
    + simpl. eexists. split_and!; [done|done|]. rewrite map_size_insert_None by done. lia.
  - case_decide as Hk; [|done]. simplify_eq. destruct Hk as [e He].
    destruct (refines_delete ekey hash hash_range t m k e HR He) as (t' & -> & HR'). simpl.
    eexists. split_and!; [done|done|]. intros Hz. specialize (Hroom Hz).
    rewrite map_size_delete, He. lia.
  - simplify_eq. destruct (refines_maintenance ekey hash hash_range t m' HR) as (t' & -> & HR').
    simpl. eexists. split_and!; [done|done|lia].
Qed.

Lemma assoc_run_refines os : forall t m rs m',
  refines ekey hash t m -> room (length os) m -> spec_run os m = Some (rs, m') ->
  exists t', assoc_run os t = Some (rs, t') /\ refines ekey hash t' m'.
Proof.
  induction os as [|o os IH]; intros t m rs m' HR Hroom Hs; simpl in *; [simplify_eq; eauto|].
  destruct (spec_do o m) as [[r m1]|] eqn:Eo; simpl in Hs; [|done].
  destruct (spec_run os m1) as [[rs1 m2]|] eqn:Er; simpl in Hs; [|done]. simplify_eq.
  destruct (assoc_do_refines o t m r m1 (length os) HR Hroom Eo) as (t1 & -> & HR1 & Hroom1).
  simpl. destruct (IH t1 m1 rs1 m' HR1 Hroom1 Er) as (t2 & -> & HR2). simpl. eauto.
Qed.
End history.

(** ** Properties *)

(** C23: started empty, the table answers every lookup of a history of
    insertions of new keys, deletions of present keys, lookups and turns of
    the maintenance thread, in any order and with any outcome of the
    allocations of larger tables, as a finite map does: no entry is lost,
    duplicated or hidden while buckets migrate.  The history is shorter than
    [2^31] operations when the table tunes its own size. *)
Theorem assoc_history_refines_map {E} (ekey : E -> list Z) shp os rs m
  (Hs : 0 <= shp < 32) (Hlen : Z.of_nat (length os) < 2 ^ 31)
  (Hrun : spec_run ekey os ∅ = Some (rs, m)) :
  exists t, assoc_run ekey hash_key shp os (assoc_init shp) = Some (rs, t) /\
    refines ekey hash_key t m.
Proof.
  apply (assoc_run_refines ekey hash_key hash_key_range shp os (assoc_init shp) ∅ rs m);
    [apply refines_init; [apply hash_key_range|done]|intros _; rewrite map_size_empty; lia|done].
Qed.

(** Two keys in a table of a fixed size: with a hash power of 4 from the options it
    never expands, so the maintenance turn has nothing to do. *)
Lemma assoc_history_refines_map_witness :
  exists t, assoc_run id hash_key 4
    [OpInsert [97] true; OpInsert [98] true; OpMaintenance; OpFind [97]; OpDelete [97]; OpFind [97]]
    (assoc_init 4) = Some ([None; None; None; Some [97]; None; None], t) /\
    refines id hash_key t {[ [98] := [98] ]}.
Proof.
  apply (assoc_history_refines_map id 4); [lia|vm_compute; reflexivity|].
  vm_compute. reflexivity.
Defined.

(** C35: once the table expands, as many turns of the maintenance thread as it
    has buckets left to move end the expansion, and the table then holds the
    same entries. *)
Theorem assoc_expansion_completes {E} (ekey : E -> list Z) t m
  (HR : refines ekey hash_key t m) (Hx : expanding t = true) :
  exists t', assoc_move_loop ekey hash_key
      (Z.to_nat (2 ^ (hash_power t - 1) - expand_bucket t)) t = Some t' /\
    expanding t' = false /\ refines ekey hash_key t' m.
Proof.
  remember (Z.to_nat (2 ^ (hash_power t - 1) - expand_bucket t)) as n eqn:Hn.
  revert t Hn HR Hx. induction n as [|n IH]; intros t Hn HR Hx.
  - destruct (wf_old _ _ t (proj1 HR) Hx). lia.
  - cbn [assoc_move_loop]. rewrite Hx.
    destruct (assoc_move_bucket_spec ekey hash_key hash_key_range t (proj1 HR) Hx)
      as (t1 & -> & Hw1 & HP & Hi & Hpw & _ & He). cbn [mbind option_bind].
    assert (refines ekey hash_key t1 m) as HR1 by by eapply refines_perm.
    destruct (expanding t1) eqn:Ex1.
    + apply IH; [|done|done]. rewrite Hpw, He by done. lia.
    + exists t1. split_and!; [|done|done]. destruct n; simpl; [done|]. by rewrite Ex1.
Qed.

(** Two buckets with two entries, of which none has moved to the four new
    buckets yet. *)
Definition ex_two : option (list (option (list Z)) * table (list Z)) :=
  assoc_run id hash_key 1 [OpInsert [97] true; OpInsert [98] true] (assoc_init 1).
Definition ex_expanding : table (list Z) := assoc_expand true (default (assoc_init 1) (snd <$> ex_two)).

Lemma ex_expanding_refines : refines id hash_key ex_expanding {[ [97] := [97]; [98] := [98] ]}.
Proof.
  destruct (assoc_run_refines id hash_key hash_key_range 1 [OpInsert [97] true; OpInsert [98] true]
    (assoc_init 1) ∅ [None; None] {[ [97] := [97]; [98] := [98] ]})
    as (t & Ht & HR); [apply refines_init; [apply hash_key_range|lia]|done|vm_compute; reflexivity|].
  assert (expanding t = false /\ hash_power t = 1) as [Ex Hp]
    by (vm_compute in Ht; by simplify_eq).
  assert (ex_expanding = assoc_expand true t) as ->
    by (unfold ex_expanding, ex_two; rewrite Ht; reflexivity).
  eapply refines_perm; [exact HR|apply wf_expand; [apply hash_key_range|apply HR|done|rewrite Hp; lia]| |done].
  by rewrite (contents_expand true t Ex).
Qed.

Lemma assoc_expansion_completes_witness :
  exists t', assoc_move_loop id hash_key 2 ex_expanding = Some t' /\ expanding t' = false /\
    refines id hash_key t' {[ [97] := [97]; [98] := [98] ]}.
Proof. apply (assoc_expansion_completes id ex_expanding _ ex_expanding_refines). reflexivity. Defined.

(** A table created with the largest hash power the command line accepts,
    [HASH_MAX_POWER], has no bucket at all (its size is truncated to 32 bits)
    and every lookup reads outside it. *)
Theorem assoc_init_max_power_broken {E} (ekey : E -> list Z) k :
  primary_hashtable (assoc_init HASH_MAX_POWER : table E) = [] /\
  assoc_find ekey hash_key (assoc_init HASH_MAX_POWER) k = None.
Proof. split; [reflexivity|]. unfold assoc_find, bucket, assoc_get_bucket. reflexivity. Qed.
