(* ===== verification/Item.v ===== *)
(** * mc_items.h: items, their flags and their layout

    An item is a chunk of a slab: the header ([struct item]), an 8 byte cas
    value when [ITEM_CAS] is set, the key with a terminating NUL, then the
    payload up to the end of the chunk.  Sizes are those of an LP64 target. *)

From S2P Require Import Prelude.
Open Scope Z_scope.

(** ** Constants *)

Definition ITEM_LINKED : Z := 1.
Definition ITEM_CAS : Z := 2.
Definition ITEM_SLABBED : Z := 4.
Definition ITEM_RALIGN : Z := 8.
Definition ITEM_I_LEASE : Z := 16.
Definition ITEM_Q_INV_LEASE : Z := 32.
Definition ITEM_Q_REF_LEASE : Z := 64.
Definition ITEM_Q_INC_LEASE : Z := 128.

Definition C_LEASE : Z := 1.
Definition O_LEASE_INV : Z := 2.
Definition PTRANS : Z := 4.
Definition HK : Z := 8.
Definition SESS : Z := 16.
Definition O_LEASE_REF : Z := 32.

Definition ALIVE : Z := 0.
Definition ABORT : Z := 1.

Inductive item_store_result := NOT_STORED | STORED | EXISTS | NOT_FOUND | STORE_ERROR.
Inductive item_iq_result :=
  | IQ_VALUE | IQ_NO_VALUE | IQ_LEASE | IQ_LEASE_NO_VALUE | IQ_NO_LEASE | IQ_ABORT | IQ_MISS
  | IQ_CLIENT_ERROR | IQ_SERVER_ERROR | IQ_OK | IQ_NOT_FOUND.
Inductive item_co_result := CO_OK | CO_ABORT | CO_NOT_FOUND | CO_INVALID | CO_RETRY | CO_NOVALUE.
Inductive item_delta_result := DELTA_OK | DELTA_NON_NUMERIC | DELTA_EOM | DELTA_NOT_FOUND.

#[export] Instance item_store_result_eq_dec : EqDecision item_store_result.
Proof. solve_decision. Defined.
#[export] Instance item_iq_result_eq_dec : EqDecision item_iq_result.
Proof. solve_decision. Defined.
#[export] Instance item_co_result_eq_dec : EqDecision item_co_result.
Proof. solve_decision. Defined.
#[export] Instance item_delta_result_eq_dec : EqDecision item_delta_result.
Proof. solve_decision. Defined.

(** [offsetof(struct item, end)] and [offsetof(struct slab, data)]. *)
Definition ITEM_HDR_SIZE : Z := 64.
Definition SLAB_HDR_SIZE : Z := 32.
Definition CRLF_LEN : Z := 2.
Definition CAS_SIZE : Z := 8.

(** ** The item

    The queue and hash links are kept by the queues and the table; [magic] is
    constant.  [i_payload] is the part of the chunk behind the key. *)
Record item := Item {
  i_atime : Z;
  i_exptime : Z;
  i_nbyte : Z;
  i_offset : Z;
  i_dataflags : Z;
  i_refcount : Z;
  i_flags : Z;
  i_coflags : Z;
  i_p : Z;
  i_id : Z;
  i_nkey : Z;
  i_sess_status : Z;
  i_config_number : Z;
  i_cas : Z;
  i_key : list Z;
  i_payload : mem
}.

Definition set_atime (x : Z) (it : item) : item :=
  Item x (i_exptime it) (i_nbyte it) (i_offset it) (i_dataflags it) (i_refcount it) (i_flags it)
    (i_coflags it) (i_p it) (i_id it) (i_nkey it) (i_sess_status it) (i_config_number it)
    (i_cas it) (i_key it) (i_payload it).
Definition set_exptime (x : Z) (it : item) : item :=
  Item (i_atime it) x (i_nbyte it) (i_offset it) (i_dataflags it) (i_refcount it) (i_flags it)
    (i_coflags it) (i_p it) (i_id it) (i_nkey it) (i_sess_status it) (i_config_number it)
    (i_cas it) (i_key it) (i_payload it).
Definition set_nbyte (x : Z) (it : item) : item :=
  Item (i_atime it) (i_exptime it) x (i_offset it) (i_dataflags it) (i_refcount it) (i_flags it)
    (i_coflags it) (i_p it) (i_id it) (i_nkey it) (i_sess_status it) (i_config_number it)
    (i_cas it) (i_key it) (i_payload it).
Definition set_refcount (x : Z) (it : item) : item :=
  Item (i_atime it) (i_exptime it) (i_nbyte it) (i_offset it) (i_dataflags it) x (i_flags it)
    (i_coflags it) (i_p it) (i_id it) (i_nkey it) (i_sess_status it) (i_config_number it)
    (i_cas it) (i_key it) (i_payload it).
Definition set_flags (x : Z) (it : item) : item :=
  Item (i_atime it) (i_exptime it) (i_nbyte it) (i_offset it) (i_dataflags it) (i_refcount it) x
    (i_coflags it) (i_p it) (i_id it) (i_nkey it) (i_sess_status it) (i_config_number it)
    (i_cas it) (i_key it) (i_payload it).
Definition set_coflags (x : Z) (it : item) : item :=
  Item (i_atime it) (i_exptime it) (i_nbyte it) (i_offset it) (i_dataflags it) (i_refcount it)
    (i_flags it) x (i_p it) (i_id it) (i_nkey it) (i_sess_status it) (i_config_number it)
    (i_cas it) (i_key it) (i_payload it).
Definition set_p (x : Z) (it : item) : item :=
  Item (i_atime it) (i_exptime it) (i_nbyte it) (i_offset it) (i_dataflags it) (i_refcount it)
    (i_flags it) (i_coflags it) x (i_id it) (i_nkey it) (i_sess_status it) (i_config_number it)
    (i_cas it) (i_key it) (i_payload it).
Definition set_sess_status (x : Z) (it : item) : item :=
  Item (i_atime it) (i_exptime it) (i_nbyte it) (i_offset it) (i_dataflags it) (i_refcount it)
    (i_flags it) (i_coflags it) (i_p it) (i_id it) (i_nkey it) x (i_config_number it)
    (i_cas it) (i_key it) (i_payload it).
Definition set_cas_field (x : Z) (it : item) : item :=
  Item (i_atime it) (i_exptime it) (i_nbyte it) (i_offset it) (i_dataflags it) (i_refcount it)
    (i_flags it) (i_coflags it) (i_p it) (i_id it) (i_nkey it) (i_sess_status it)
    (i_config_number it) x (i_key it) (i_payload it).
Definition set_payload (x : mem) (it : item) : item :=
  Item (i_atime it) (i_exptime it) (i_nbyte it) (i_offset it) (i_dataflags it) (i_refcount it)
    (i_flags it) (i_coflags it) (i_p it) (i_id it) (i_nkey it) (i_sess_status it)
    (i_config_number it) (i_cas it) (i_key it) x.

(** ** Flags *)

Definition has (flags f : Z) : bool := negb (Z.land flags f =? 0).
Definition set_bit (flags f : Z) : Z := Z.lor flags f.
Definition unset_bit (flags f : Z) : Z := Z.ldiff flags f.

Definition item_has_cas (it : item) : bool := has (i_flags it) ITEM_CAS.
Definition item_is_linked (it : item) : bool := has (i_flags it) ITEM_LINKED.
Definition item_is_slabbed (it : item) : bool := has (i_flags it) ITEM_SLABBED.
Definition item_is_raligned (it : item) : bool := has (i_flags it) ITEM_RALIGN.

Definition item_has_co_lease (it : item) : bool :=
  has (i_coflags it) C_LEASE || has (i_coflags it) O_LEASE_INV || has (i_coflags it) O_LEASE_REF.
Definition item_has_c_lease (it : item) : bool := has (i_coflags it) C_LEASE.
Definition item_has_o_lease (it : item) : bool :=
  has (i_coflags it) O_LEASE_INV || has (i_coflags it) O_LEASE_REF.
Definition item_has_o_lease_inv (it : item) : bool := has (i_coflags it) O_LEASE_INV.
Definition item_has_o_lease_ref (it : item) : bool := has (i_coflags it) O_LEASE_REF.
Definition item_has_i_lease (it : item) : bool := has (i_flags it) ITEM_I_LEASE.
Definition item_has_q_ref_lease (it : item) : bool := has (i_flags it) ITEM_Q_REF_LEASE.
Definition item_has_q_incr_lease (it : item) : bool := has (i_flags it) ITEM_Q_INC_LEASE.
Definition item_has_q_inv_lease (it : item) : bool := has (i_flags it) ITEM_Q_INV_LEASE.
Definition item_is_sess (it : item) : bool := has (i_coflags it) SESS.

Definition item_cas (it : item) : Z := if item_has_cas it then i_cas it else 0.
Definition item_set_cas (cas : Z) (it : item) : item :=
  if item_has_cas it then set_cas_field cas it else it.

Definition item_set_ptrans (it : item) : item := set_coflags (set_bit (i_coflags it) PTRANS) it.
Definition item_set_hotkeys (it : item) : item := set_coflags (set_bit (i_coflags it) HK) it.
Definition item_set_c_lease (it : item) : item := set_coflags (set_bit (i_coflags it) C_LEASE) it.
Definition item_set_o_lease_inv (it : item) : item :=
  set_coflags (set_bit (i_coflags it) O_LEASE_INV) it.
Definition item_set_o_lease_ref (it : item) : item :=
  set_coflags (set_bit (i_coflags it) O_LEASE_REF) it.
Definition item_set_i_lease (it : item) : item := set_flags (set_bit (i_flags it) ITEM_I_LEASE) it.
Definition item_set_q_inv_lease (it : item) : item :=
  set_flags (set_bit (i_flags it) ITEM_Q_INV_LEASE) it.
Definition item_set_q_ref_lease (it : item) : item :=
  set_flags (set_bit (i_flags it) ITEM_Q_REF_LEASE) it.
Definition item_set_q_inc_lease (it : item) : item :=
  set_flags (set_bit (i_flags it) ITEM_Q_INC_LEASE) it.
Definition item_set_sess (it : item) : item := set_coflags (set_bit (i_coflags it) SESS) it.

Definition item_is_lease_holder (it : item) : bool :=
  has (i_flags it) ITEM_I_LEASE || has (i_flags it) ITEM_Q_INV_LEASE ||
  has (i_flags it) ITEM_Q_REF_LEASE || has (i_flags it) ITEM_Q_INC_LEASE.
Definition item_is_ptrans (it : item) : bool := has (i_coflags it) PTRANS.
Definition item_is_hotkeys (it : item) : bool := has (i_coflags it) HK.
Definition item_is_co_lease_holder (it : item) : bool := item_has_co_lease it.
Definition item_has_q_lease (it : item) : bool :=
  has (i_flags it) ITEM_Q_INV_LEASE || has (i_flags it) ITEM_Q_REF_LEASE ||
  has (i_flags it) ITEM_Q_INC_LEASE.

(** The kinds [_item_unlink] takes the pin from. *)
Definition item_is_pinned_kind (it : item) : bool :=
  item_is_lease_holder it || item_is_co_lease_holder it || item_is_ptrans it || item_is_hotkeys it.

(** ** Layout *)

(** Offsets from the start of the chunk. *)
Definition item_key_off (it : item) : Z :=
  ITEM_HDR_SIZE + (if item_has_cas it then CAS_SIZE else 0).

(** [item_data]: [slab_item_size] is the chunk size of the item's class. *)
Definition item_data_off (slab_item_size : Z) (it : item) : Z :=
  if item_is_raligned it then slab_item_size - i_nbyte it
  else ITEM_HDR_SIZE + i_nkey it + 1 + (if item_has_cas it then CAS_SIZE else 0).

Definition item_ntotal (nkey nbyte : Z) (use_cas : bool) : Z :=
  (if use_cas then CAS_SIZE else 0) + (ITEM_HDR_SIZE + nkey + 1 + nbyte + CRLF_LEN).

Definition item_size (it : item) : Z := item_ntotal (i_nkey it) (i_nbyte it) (item_has_cas it).

(** Bytes of the chunk behind the key, where [i_payload] lives. *)
Definition payload_size (slab_item_size nkey : Z) (use_cas : bool) : Z :=
  slab_item_size - (ITEM_HDR_SIZE + nkey + 1 + (if use_cas then CAS_SIZE else 0)).

(** [item_data] as an offset into [i_payload]. *)
Definition data_pos (it : item) : Z :=
  if item_is_raligned it then Z.of_nat (length (i_payload it)) - i_nbyte it else 0.

(** The value of the item, and [memcpy(item_data(it) + off, bs, n)]. *)
Definition item_data_raw (it : item) : option mem := mem_slice (i_payload it) (data_pos it) (i_nbyte it).
Definition item_value (it : item) : option (list Z) := mem_read (i_payload it) (data_pos it) (i_nbyte it).
Definition item_write (it : item) (off : Z) (bs : mem) : option item :=
  p ← mem_write (i_payload it) (data_pos it + off) bs; Some (set_payload p it).

(** ** Bits *)

Lemma has_testbit f n : 0 <= n -> has f (2 ^ n) = Z.testbit f n.
Proof.
  intros Hn. unfold has. destruct (Z.testbit f n) eqn:Et.
  - apply negb_true_iff, Z.eqb_neq. intros H0.
    assert (Z.testbit (Z.land f (2 ^ n)) n = true) as Ht
      by by rewrite Z.land_spec, Et, Z.pow2_bits_true.
    rewrite H0, Z.bits_0 in Ht. done.
  - apply negb_false_iff, Z.eqb_eq, Z.bits_inj'. intros m Hm.
    rewrite Z.land_spec, Z.bits_0, Z.pow2_bits_eqb by done.
    destruct (Z.eqb_spec n m) as [<-|]; [by rewrite Et|by rewrite andb_false_r].
Qed.

Lemma has_set_bit f n m : 0 <= n -> 0 <= m ->
  has (set_bit f (2 ^ n)) (2 ^ m) = (n =? m) || has f (2 ^ m).
Proof.
  intros Hn Hm. rewrite !has_testbit by done. unfold set_bit.
  rewrite Z.lor_spec, Z.pow2_bits_eqb by done. apply orb_comm.
Qed.

Lemma has_unset_bit f n m : 0 <= n -> 0 <= m ->
  has (unset_bit f (2 ^ n)) (2 ^ m) = negb (n =? m) && has f (2 ^ m).
Proof.
  intros Hn Hm. rewrite !has_testbit by done. unfold unset_bit.
  rewrite Z.ldiff_spec, Z.pow2_bits_eqb by done. apply andb_comm.
Qed.

(** Decides the flag tests of set and cleared flags. *)
Ltac bit f := match f with
  | 1 => constr:(0) | 2 => constr:(1) | 4 => constr:(2) | 8 => constr:(3)
  | 16 => constr:(4) | 32 => constr:(5) | 64 => constr:(6) | 128 => constr:(7) end.
Ltac flags_unfold :=
  unfold item_is_linked, item_has_cas, item_is_slabbed, item_is_raligned, item_has_co_lease,
    item_has_c_lease, item_has_o_lease, item_has_o_lease_inv, item_has_o_lease_ref,
    item_has_i_lease, item_has_q_ref_lease, item_has_q_incr_lease, item_has_q_inv_lease,
    item_is_sess, item_is_lease_holder, item_is_ptrans, item_is_hotkeys,
    item_is_co_lease_holder, item_has_q_lease,
    item_set_i_lease, item_set_q_inv_lease, item_set_q_ref_lease, item_set_q_inc_lease,
    item_set_c_lease, item_set_o_lease_inv, item_set_o_lease_ref, item_set_sess in *;
  cbn [i_flags i_coflags set_flags set_coflags set_refcount set_atime set_exptime set_nbyte
       set_p set_sess_status set_cas_field set_payload] in *.
Ltac flags_eval :=
  unfold ITEM_LINKED, ITEM_CAS, ITEM_SLABBED, ITEM_RALIGN, ITEM_I_LEASE, ITEM_Q_INV_LEASE,
    ITEM_Q_REF_LEASE, ITEM_Q_INC_LEASE, C_LEASE, O_LEASE_INV, PTRANS, HK, SESS, O_LEASE_REF in *;
  repeat match goal with
  | |- context [has (set_bit ?x ?f) ?g] =>
      let n := bit f in let m := bit g in
      change (has (set_bit x f) g) with (has (set_bit x (2 ^ n)) (2 ^ m));
      rewrite (has_set_bit x n m) by lia;
      change (2 ^ m) with g; cbn [Z.eqb Pos.eqb orb]
  | |- context [has (unset_bit ?x ?f) ?g] =>
      let n := bit f in let m := bit g in
      change (has (unset_bit x f) g) with (has (unset_bit x (2 ^ n)) (2 ^ m));
      rewrite (has_unset_bit x n m) by lia;
      change (2 ^ m) with g; cbn [Z.eqb Pos.eqb negb andb]
  end.
Ltac flags := flags_unfold; flags_eval.

(** ** Properties *)

(** Whenever the total size computed for an item fits the chunk of its
    class, the key with its terminator and the value lie inside the chunk and
    do not overlap, left aligned (with room for the trailing CRLF) or right
    aligned. *)
Theorem item_layout_disjoint it size
  (Hk : 0 <= i_nkey it) (Hb : 0 <= i_nbyte it) (Hs : item_size it <= size) :
  ITEM_HDR_SIZE <= item_key_off it /\
  item_key_off it + i_nkey it + 1 <= item_data_off size it /\
  item_data_off size it + i_nbyte it <= size /\
  (item_is_raligned it = false -> item_data_off size it + i_nbyte it + CRLF_LEN <= size).
Proof.
  unfold item_size, item_ntotal, item_key_off, item_data_off, CRLF_LEN, CAS_SIZE, ITEM_HDR_SIZE in *.
  destruct (item_has_cas it), (item_is_raligned it); repeat split; try done; lia.
Qed.

Definition ex_item : item :=
  Item 0 0 5 32 0 0 (ITEM_CAS + ITEM_LINKED) 0 0 1 3 0 0 7 [102; 111; 111] (replicate 20 None).

Lemma item_layout_disjoint_witness :
  item_key_off ex_item + i_nkey ex_item + 1 <= item_data_off 96 ex_item.
Proof. apply (item_layout_disjoint ex_item 96); vm_compute; intuition discriminate. Defined.

(** The position used by the model is the one of the C code. *)
Lemma data_pos_layout it size :
  Z.of_nat (length (i_payload it)) = payload_size size (i_nkey it) (item_has_cas it) ->
  item_data_off size it = (size - Z.of_nat (length (i_payload it))) + data_pos it.
Proof.
  unfold payload_size, item_data_off, data_pos. intros ->. destruct (item_is_raligned it); lia.
Qed.

Lemma item_write_value it bs it' :
  item_write it 0 (init bs) = Some it' -> i_nbyte it = Z.of_nat (length bs) ->
  item_value it' = Some bs.
Proof.
  unfold item_write, item_value. rewrite Z.add_0_r.
  destruct (mem_write _ _ _) as [p|] eqn:Ew; simpl; [|done]. intros [= <-] Hn. simpl.
  replace (data_pos (set_payload p it)) with (data_pos it).
  - rewrite Hn. by eapply mem_write_read.
  - unfold data_pos, item_is_raligned. simpl. by rewrite (mem_write_length _ _ _ _ Ew).
Qed.

Lemma item_write_pos it off bs it' : item_write it off bs = Some it' ->
  data_pos it' = data_pos it /\ length (i_payload it') = length (i_payload it).
Proof.
  unfold item_write. destruct (mem_write _ _ _) as [p|] eqn:Ew; simpl; [|done]. intros [= <-].
  unfold data_pos, item_is_raligned. simpl. by rewrite (mem_write_length _ _ _ _ Ew).
Qed.

(** A value that is written in two parts. *)
Lemma item_write_twice it off x y it1 it2 :
  item_write it off x = Some it1 -> item_write it1 (off + Z.of_nat (length x)) y = Some it2 -> item_write it off (x ++ y) = Some it2.
Proof.
  intros H1 H2. destruct (item_write_pos _ _ _ _ H1) as [Hp _]. unfold item_write in *. rewrite Hp in H2.
  destruct (mem_write (i_payload it) _ _) as [p1|] eqn:E1; simpl in *; [|done]. injection H1 as <-.
  destruct (mem_write (i_payload (set_payload p1 it)) _ _) as [p2|] eqn:E2; simpl in *; [|done]. injection H2 as <-.
  rewrite Z.add_assoc in E2. by rewrite (mem_write_twice _ _ _ _ _ _ E1 E2).
Qed.
