(* ===== verification/State.v ===== *)
(** * The shared state of the cache and its primitives

    The globals of [mc_slabs.c], [mc_items.c], [mc_assoc.c], [mc_lease.c] and
    [mc_time.c] in one record, and the C accesses to them as operations of the
    state monad.  A pointer to an item is the slab it is carved from and its
    offset in that slab; a slab is named by the order of its allocation.

    [rand], [malloc] and the contents of fresh memory come from [environment]
    streams about which nothing is assumed.  Statistics are recorded as a trace
    of counter updates; logging is not modelled. *)

From stdpp Require Import functions.
From S2P Require Import Prelude Hash Time Assoc Item.
Open Scope Z_scope.

(** ** Data *)

Definition addr : Type := nat * Z.

Definition EVICT_NONE : Z := 0.
Definition EVICT_LRU : Z := 1.
Definition EVICT_RS : Z := 2.
Definition EVICT_AS : Z := 4.
Definition EVICT_CS : Z := 8.
Definition EVICT_INVALID : Z := 16.

Definition SLABCLASS_MIN_ID : Z := 1.
Definition SLABCLASS_MAX_ID : Z := 254.
Definition SLABCLASS_INVALID_ID : Z := 255.
Definition SLABCLASS_MAX_IDS : Z := 255.

(** The settings the cache reads; [profile] is the array indexed by class. *)
Record settings := Settings {
  prealloc : bool;
  use_cas : bool;
  evict_opt : Z;
  use_freeq : bool;
  use_lruq : bool;
  maxbytes : Z;
  slab_size_opt : Z;
  hash_power_opt : Z;
  oldest_live : Z;
  profile : list Z;
  profile_last_id : Z;
  reserved_percentage : Z;
  reserved_maxbytes : Z;
  lease_token_expiry : Z
}.

Record environment := Env {
  e_rand : nat -> Z;      (* successive results of rand() *)
  e_malloc : nat -> bool; (* whether successive allocations succeed *)
  e_utime : nat -> Z      (* what a fresh slab's memory holds as utime *)
}.

(** [struct slab] without its magic and queue link. *)
Record slab := Slab { sl_id : Z; sl_refcount : Z; sl_utime : Z }.

Record slabclass := SlabClass {
  nitem : Z;
  csize : Z;
  nfree_itemq : Z;
  free_itemq : list addr;
  nfree_item : Z;
  free_item : option addr
}.

(** [base] and [curr], the cursor into preallocated memory, only name the next
    slab. *)
Record slab_heapinfo := HeapInfo {
  nslab : Z;
  max_nslab : Z;
  slab_table : list nat;
  slab_lruq : list nat
}.

(** One update of a statistics counter. *)
Inductive stat :=
  | SlabIncr (id : Z) (name : string)
  | SlabDecr (id : Z) (name : string)
  | SlabIncrBy (id : Z) (name : string) (n : Z)
  | SlabDecrBy (id : Z) (name : string) (n : Z)
  | SlabSet (id : Z) (name : string) (n : Z)
  | ThreadIncr (name : string)
  | ThreadDecr (name : string).

(** The globals.  [classes], [info] and [lruqs] are each a pair of globals, the
    ordinary one at [false] and the one set aside for leases at [true]
    ([reserved_slabclass], [reserved_heapinfo], [reserved_item_lruq]). *)
Record st := St {
  cfg : settings;
  env : environment;
  nrand : nat;
  nalloc : nat;
  heap : gmap addr item;
  slabs : gmap nat slab;
  next_slab : nat;
  classes : bool -> gmap Z slabclass;
  info : bool -> slab_heapinfo;
  tbl : table addr;
  lruqs : bool -> gmap Z (list addr);
  cas_id : Z;
  lease_token : Z;
  clk : clock;
  cache_lock : bool;
  slab_lock : bool;
  events : list stat
}.

Definition set_cfg (x : settings) (s : st) : st :=
  St x (env s) (nrand s) (nalloc s) (heap s) (slabs s) (next_slab s) (classes s) (info s)
    (tbl s) (lruqs s) (cas_id s) (lease_token s) (clk s) (cache_lock s) (slab_lock s) (events s).
Definition set_nrand (x : nat) (s : st) : st :=
  St (cfg s) (env s) x (nalloc s) (heap s) (slabs s) (next_slab s) (classes s) (info s) (tbl s)
    (lruqs s) (cas_id s) (lease_token s) (clk s) (cache_lock s) (slab_lock s) (events s).
Definition set_nalloc (x : nat) (s : st) : st :=
  St (cfg s) (env s) (nrand s) x (heap s) (slabs s) (next_slab s) (classes s) (info s) (tbl s)
    (lruqs s) (cas_id s) (lease_token s) (clk s) (cache_lock s) (slab_lock s) (events s).
Definition set_heap (x : gmap addr item) (s : st) : st :=
  St (cfg s) (env s) (nrand s) (nalloc s) x (slabs s) (next_slab s) (classes s) (info s) (tbl s)
    (lruqs s) (cas_id s) (lease_token s) (clk s) (cache_lock s) (slab_lock s) (events s).
Definition set_slabs (x : gmap nat slab) (s : st) : st :=
  St (cfg s) (env s) (nrand s) (nalloc s) (heap s) x (next_slab s) (classes s) (info s) (tbl s)
    (lruqs s) (cas_id s) (lease_token s) (clk s) (cache_lock s) (slab_lock s) (events s).
Definition set_next_slab (x : nat) (s : st) : st :=
  St (cfg s) (env s) (nrand s) (nalloc s) (heap s) (slabs s) x (classes s) (info s) (tbl s)
    (lruqs s) (cas_id s) (lease_token s) (clk s) (cache_lock s) (slab_lock s) (events s).
Definition set_classes (x : bool -> gmap Z slabclass) (s : st) : st :=
  St (cfg s) (env s) (nrand s) (nalloc s) (heap s) (slabs s) (next_slab s) x (info s) (tbl s)
    (lruqs s) (cas_id s) (lease_token s) (clk s) (cache_lock s) (slab_lock s) (events s).
Definition set_info (x : bool -> slab_heapinfo) (s : st) : st :=
  St (cfg s) (env s) (nrand s) (nalloc s) (heap s) (slabs s) (next_slab s) (classes s) x (tbl s)
    (lruqs s) (cas_id s) (lease_token s) (clk s) (cache_lock s) (slab_lock s) (events s).
Definition set_tbl (x : table addr) (s : st) : st :=
  St (cfg s) (env s) (nrand s) (nalloc s) (heap s) (slabs s) (next_slab s) (classes s) (info s)
    x (lruqs s) (cas_id s) (lease_token s) (clk s) (cache_lock s) (slab_lock s) (events s).
Definition set_lruqs (x : bool -> gmap Z (list addr)) (s : st) : st :=
  St (cfg s) (env s) (nrand s) (nalloc s) (heap s) (slabs s) (next_slab s) (classes s) (info s)
    (tbl s) x (cas_id s) (lease_token s) (clk s) (cache_lock s) (slab_lock s) (events s).
Definition set_cas_id (x : Z) (s : st) : st :=
  St (cfg s) (env s) (nrand s) (nalloc s) (heap s) (slabs s) (next_slab s) (classes s) (info s)
    (tbl s) (lruqs s) x (lease_token s) (clk s) (cache_lock s) (slab_lock s) (events s).
Definition set_lease_token (x : Z) (s : st) : st :=
  St (cfg s) (env s) (nrand s) (nalloc s) (heap s) (slabs s) (next_slab s) (classes s) (info s)
    (tbl s) (lruqs s) (cas_id s) x (clk s) (cache_lock s) (slab_lock s) (events s).
Definition set_clk (x : clock) (s : st) : st :=
  St (cfg s) (env s) (nrand s) (nalloc s) (heap s) (slabs s) (next_slab s) (classes s) (info s)
    (tbl s) (lruqs s) (cas_id s) (lease_token s) x (cache_lock s) (slab_lock s) (events s).
Definition set_cache_lock (x : bool) (s : st) : st :=
  St (cfg s) (env s) (nrand s) (nalloc s) (heap s) (slabs s) (next_slab s) (classes s) (info s)
    (tbl s) (lruqs s) (cas_id s) (lease_token s) (clk s) x (slab_lock s) (events s).
Definition set_slab_lock (x : bool) (s : st) : st :=
  St (cfg s) (env s) (nrand s) (nalloc s) (heap s) (slabs s) (next_slab s) (classes s) (info s)
    (tbl s) (lruqs s) (cas_id s) (lease_token s) (clk s) (cache_lock s) x (events s).
Definition set_events (x : list stat) (s : st) : st :=
  St (cfg s) (env s) (nrand s) (nalloc s) (heap s) (slabs s) (next_slab s) (classes s) (info s)
    (tbl s) (lruqs s) (cas_id s) (lease_token s) (clk s) (cache_lock s) (slab_lock s) x.

(** The last class, fixed by the profile at start-up. *)
Definition slabclass_max_id (s : st) : Z := profile_last_id (cfg s).

(** ** Accesses *)

Definition get_item (a : addr) : M st item := o ← gets (fun s => heap s !! a); lift o.
Definition put_item (a : addr) (it : item) : M st unit := modify (fun s => set_heap (<[a := it]> (heap s)) s).
Definition upd_item (a : addr) (f : item -> item) : M st unit := it ← get_item a; put_item a (f it).

Definition get_slab (n : nat) : M st slab := o ← gets (fun s => slabs s !! n); lift o.
Definition put_slab (n : nat) (x : slab) : M st unit := modify (fun s => set_slabs (<[n := x]> (slabs s)) s).
Definition upd_slab (n : nat) (f : slab -> slab) : M st unit := x ← get_slab n; put_slab n (f x).

(** An id outside the array is an access out of bounds. *)
Definition get_class (r : bool) (id : Z) : M st slabclass := o ← gets (fun s => classes s r !! id); lift o.
Definition put_class (r : bool) (id : Z) (p : slabclass) : M st unit :=
  modify (fun s => set_classes (<[r := <[id := p]> (classes s r)]> (classes s)) s).
Definition get_lruq (r : bool) (id : Z) : M st (list addr) := o ← gets (fun s => lruqs s r !! id); lift o.
Definition put_lruq (r : bool) (id : Z) (l : list addr) : M st unit :=
  modify (fun s => set_lruqs (<[r := <[id := l]> (lruqs s r)]> (lruqs s)) s).
Definition get_info (r : bool) : M st slab_heapinfo := gets (fun s => info s r).
Definition put_info (r : bool) (x : slab_heapinfo) : M st unit := modify (fun s => set_info (<[r := x]> (info s)) s).

Definition setting {A} (f : settings -> A) : M st A := gets (fun s => f (cfg s)).
Definition now_ : M st Z := gets (fun s => time_now (clk s)).
Definition record (e : stat) : M st unit := modify (fun s => set_events (e :: events s) s).

(** Mutexes are not recursive: taking one twice, or releasing one that is not
    held, is an error. *)
Definition lock_cache : M st unit :=
  b ← gets cache_lock; if (b : bool) then undef else modify (set_cache_lock true).
Definition unlock_cache : M st unit :=
  b ← gets cache_lock; if (b : bool) then modify (set_cache_lock false) else undef.
Definition lock_slab : M st unit :=
  b ← gets slab_lock; if (b : bool) then undef else modify (set_slab_lock true).
Definition unlock_slab : M st unit :=
  b ← gets slab_lock; if (b : bool) then modify (set_slab_lock false) else undef.

(** ** The environment *)

Definition next_rand : M st Z :=
  r ← gets (fun s => e_rand (env s) (nrand s)); modify (fun s => set_nrand (S (nrand s)) s);; mret r.
Definition next_malloc : M st bool :=
  r ← gets (fun s => e_malloc (env s) (nalloc s)); modify (fun s => set_nalloc (S (nalloc s)) s);; mret r.

(** ** Queues

    Removing an element from a queue it is not on corrupts both queues. *)
Definition tailq_remove {A} `{EqDecision A} (x : A) (l : list A) : option (list A) :=
  if decide (x ∈ l) then Some (remove1 x l) else None.

(** ** Keys and the hash table *)

(** The key the table reads from an item. *)
Definition hkey (h : gmap addr item) (a : addr) : list Z :=
  match h !! a with Some it => i_key it | None => [] end.
Definition ekey (s : st) : addr -> list Z := hkey (heap s).

Definition tbl_find (k : list Z) : M st (option addr) :=
  o ← gets (fun s => assoc_find (ekey s) hash_key (tbl s) k); lift o.
Definition tbl_insert (a : addr) : M st unit :=
  alloc ← next_malloc;
  o ← gets (fun s => assoc_insert (ekey s) hash_key (hash_power_opt (cfg s)) alloc (tbl s) a);
  t ← lift o; modify (set_tbl t).
Definition tbl_delete (k : list Z) : M st unit :=
  o ← gets (fun s => assoc_delete (ekey s) hash_key (tbl s) k);
  t ← lift o; modify (set_tbl t).
