(* ===== verification/Slabs.v ===== *)
(** * mc_slabs.c: the slab allocator

    Memory comes in slabs of equal size; a slab belongs to a class and is carved
    into chunks of the class's size.  A class hands out chunks from its free
    queue or from its current slab, and gets a new slab from the heap or, when
    the heap is full, by evicting one.  There are two such heaps, selected by a
    boolean: the ordinary one and the one reserved for leases.

    The parts of [mc_items.c] that eviction calls (reference counts, removal
    from the lru queue, [item_reuse]) come first. *)

From S2P Require Import Prelude Time Assoc Item State.
Open Scope Z_scope.

Definition SLAB_RAND_MAX_TRIES : nat := 50.
Definition SLAB_LRU_MAX_TRIES : nat := 50.
Definition SLAB_LRU_UPDATE_INTERVAL : Z := 1.

(** [rstatus_t] *)
Inductive rstatus := MC_OK | MC_ERROR | MC_EAGAIN | MC_ENOMEM | MC_INVALID.
#[export] Instance rstatus_eq_dec : EqDecision rstatus.
Proof. solve_decision. Defined.

(** ** Fields *)

Definition set_sl_refcount (x : Z) (sl : slab) : slab := Slab (sl_id sl) x (sl_utime sl).
Definition set_sl_utime (x : Z) (sl : slab) : slab := Slab (sl_id sl) (sl_refcount sl) x.

Definition set_free_itemq (n : Z) (q : list addr) (p : slabclass) : slabclass :=
  SlabClass (nitem p) (csize p) n q (nfree_item p) (free_item p).
Definition set_free_item (n : Z) (a : option addr) (p : slabclass) : slabclass :=
  SlabClass (nitem p) (csize p) (nfree_itemq p) (free_itemq p) n a.
Definition set_slab_lruq (q : list nat) (h : slab_heapinfo) : slab_heapinfo :=
  HeapInfo (nslab h) (max_nslab h) (slab_table h) q.

(** ** Reference counts *)

Definition slab_acquire_refcount (n : nat) : M st unit :=
  upd_slab n (fun sl => set_sl_refcount (u16 (sl_refcount sl + 1)) sl).
Definition slab_release_refcount (n : nat) : M st unit :=
  upd_slab n (fun sl => set_sl_refcount (u16 (sl_refcount sl - 1)) sl).

(** The slab an item lies in, [it - it->offset]. *)
Definition item_2_slab (a : addr) : M st nat :=
  it ← get_item a; if i_offset it =? a.2 then mret a.1 else undef.

Definition item_acquire_refcount (a : addr) : M st unit :=
  upd_item a (fun it => set_refcount (u16 (i_refcount it + 1)) it);;
  n ← item_2_slab a; slab_acquire_refcount n.
Definition item_release_refcount (a : addr) : M st unit :=
  upd_item a (fun it => set_refcount (u16 (i_refcount it - 1)) it);;
  n ← item_2_slab a; slab_release_refcount n.

Definition item_unset_pinned (a : addr) : M st unit := item_release_refcount a.
Definition item_set_pinned (a : addr) : M st unit := item_acquire_refcount a.

(** The header of a chunk just carved; the fields it does not set are written
    by [_item_alloc] before they are read. *)
Definition item_hdr_init (offset id : Z) : item :=
  Item 0 0 0 offset 0 0 0 0 0 id 0 0 0 0 [] [].

(** ** Leaving the lru queue and the hash table *)

Definition item_unlink_q (a : addr) : M st unit :=
  it ← get_item a;
  let id := i_id it in
  l ← get_lruq (item_is_lease_holder it) id;
  l' ← lift (tailq_remove a l);
  put_lruq (item_is_lease_holder it) id l';;
  record (SlabDecr id "item_curr");;
  record (SlabDecrBy id "data_curr" (item_size it));;
  record (SlabDecrBy id "data_value_curr" (i_nbyte it)).

Definition item_reuse (a : addr) : M st unit :=
  it ← get_item a;
  when (item_is_lease_holder it) (item_unset_pinned a);;
  upd_item a (fun it => set_flags (unset_bit (i_flags it) ITEM_LINKED) it);;
  it ← get_item a;
  tbl_delete (i_key it);;
  item_unlink_q a;;
  record (SlabIncr (i_id it) "item_remove");;
  t ← now_;
  record (SlabSet (i_id it) "item_reclaim_ts" t);;
  record (ThreadIncr "items_unlink").

(** ** Slabs and classes *)

(** [slab_size()], a [size_t]. *)
Definition slab_size (c : settings) : Z := u64 (slab_size_opt c - SLAB_HDR_SIZE).
Definition slab_has_reserved_slabs (c : settings) : bool := 0 <? reserved_percentage c.

(** The address of the [idx]-th chunk of a slab. *)
Definition slab_2_item (n : nat) (idx size : Z) : addr := (n, SLAB_HDR_SIZE + u32 (idx * size)).

Definition slab_item_size (id : Z) : M st Z := p ← get_class false id; mret (csize p).

(** The binary search of [_slab_id] over the sizes of the classes; [imin] and
    [imax] are bytes and reading a class that is not there is out of bounds.
    [None] as class: no class fits. *)
Fixpoint slab_id_loop (fuel : nat) (sizes : gmap Z slabclass) (sz imin imax : Z) : option Z :=
  match fuel with
  | O => None
  | S fuel' =>
      if imin <=? imax then
        let id := (imin + imax) / 2 in
        p ← sizes !! id;
        if csize p <? sz then slab_id_loop fuel' sizes sz (u8 (id + 1)) imax
        else if SLABCLASS_MIN_ID <? id then
          q ← sizes !! (id - 1);
          if sz <=? csize q then slab_id_loop fuel' sizes sz imin (u8 (id - 1)) else Some id
        else Some id
      else Some SLABCLASS_INVALID_ID
  end.

Definition slab_id_ (sizes : gmap Z slabclass) (max_id sz : Z) : option Z :=
  slab_id_loop 256 sizes sz SLABCLASS_MIN_ID max_id.

Definition slab_id (r : bool) (sz : Z) : M st Z :=
  o ← gets (fun s => slab_id_ (classes s r) (slabclass_max_id s) sz); lift o.

(** ** Start-up *)

Definition slabclass_new (c : settings) (size : Z) : slabclass :=
  SlabClass (u32 (slab_size c / size)) size 0 [] 0 None.

(** The classes 1 to [profile_last_id], the same in both pools. *)
Definition slab_slabclass_init (c : settings) : gmap Z slabclass :=
  list_to_map (omap (fun id : Z => size ← profile c !! Z.to_nat id; Some (id, slabclass_new c size))
    (seqZ SLABCLASS_MIN_ID (profile_last_id c))).

Definition slab_heapinfo_init (c : settings) (bytes : Z) (base_ok table_ok : bool)
  : rstatus * slab_heapinfo :=
  let h := HeapInfo 0 (u32 (bytes / slab_size_opt c)) [] [] in
  if prealloc c && negb base_ok then (MC_ENOMEM, h)
  else if table_ok then (MC_OK, h) else (MC_ENOMEM, h).

(** ** The heap of slabs *)

Definition slab_hdr_init (id : Z) (sl : slab) : slab := Slab id 0 (sl_utime sl).

Definition slab_heap_full (h : slab_heapinfo) : bool := max_nslab h <=? nslab h.

(** A raw slab: preallocated memory cannot run out before the heap is full. *)
Definition slab_heap_alloc : M st (option nat) :=
  pre ← setting prealloc;
  ok ← (if (pre : bool) then mret true else next_malloc);
  if (ok : bool) then
    n ← gets next_slab;
    ut ← gets (fun s => e_utime (env s) n);
    modify (set_next_slab (S n));;
    put_slab n (Slab 0 0 (u32 ut));;
    mret (Some n)
  else mret None.

Definition slab_table_update (n : nat) (r : bool) : M st unit :=
  h ← get_info r;
  put_info r (HeapInfo (u32 (nslab h + 1)) (max_nslab h) (slab_table h ++ [n]) (slab_lruq h)).

Definition slab_table_rand (r : bool) : M st nat :=
  h ← get_info r;
  x ← next_rand;
  if nslab h =? 0 then undef
  else lift (slab_table h !! Z.to_nat (u32 x mod nslab h)).

Definition slab_lruq_append (n : nat) (r : bool) : M st unit :=
  h ← get_info r; put_info r (set_slab_lruq (slab_lruq h ++ [n]) h).
Definition slab_lruq_remove (n : nat) (r : bool) : M st unit :=
  h ← get_info r; q ← lift (tailq_remove n (slab_lruq h)); put_info r (set_slab_lruq q h).

Definition slab_get_new (r : bool) : M st (option nat) :=
  h ← get_info r;
  if slab_heap_full h then mret None
  else
    o ← slab_heap_alloc;
    match o with
    | None => mret None
    | Some n => slab_table_update n r;; mret (Some n)
    end.

Definition _slab_link_lruq (n : nat) (r : bool) : M st unit :=
  t ← now_; upd_slab n (set_sl_utime t);; slab_lruq_append n r.
Definition _slab_unlink_lruq (n : nat) (r : bool) : M st unit := slab_lruq_remove n r.

(** ** Eviction *)

(** One chunk of the slab being evicted. *)
Definition slab_evict_chunk (r : bool) (id : Z) (a : addr) : M st unit :=
  it ← get_item a;
  if item_is_linked it then item_reuse a
  else if item_is_slabbed it then
    put_item a (set_flags (unset_bit (i_flags it) ITEM_SLABBED) it);;
    p ← get_class r id;
    q ← lift (tailq_remove a (free_itemq p));
    put_class r id (set_free_itemq (u32 (nfree_itemq p - 1)) q p);;
    record (SlabDecr id "item_free")
  else mret tt.

Fixpoint slab_evict_loop (r : bool) (id : Z) (n : nat) (size : Z) (idxs : list Z) : M st unit :=
  match idxs with
  | [] => mret tt
  | i :: idxs' => slab_evict_chunk r id (slab_2_item n i size);; slab_evict_loop r id n size idxs'
  end.

Definition slab_evict_one (r : bool) (n : nat) : M st unit :=
  sl ← get_slab n;
  let id := sl_id sl in
  p ← get_class r id;
  cur ← (match free_item p with
         | Some a => m ← item_2_slab a; mret (bool_decide (m = n))
         | None => mret false
         end);
  when cur (put_class r id (set_free_item 0 None p));;
  slab_evict_loop r id n (csize p) (seqZ 0 (nitem p));;
  slab_lruq_remove n r;;
  record (SlabIncr id "slab_evict");;
  record (SlabDecr id "slab_curr");;
  t ← now_;
  record (SlabSet id "slab_evict_ts" t).

(** The do-while of [slab_evict_rand]: the last try is never taken. *)
Fixpoint slab_rand_loop (tries : nat) (r : bool) : M st (option nat) :=
  match tries with
  | O => mret None
  | S tries' =>
      n ← slab_table_rand r;
      sl ← get_slab n;
      match tries' with
      | O => mret None
      | S _ => if sl_refcount sl =? 0 then mret (Some n) else slab_rand_loop tries' r
      end
  end.

Definition slab_evict_rand (r : bool) : M st (option nat) :=
  o ← slab_rand_loop SLAB_RAND_MAX_TRIES r;
  match o with
  | None => mret None
  | Some n => slab_evict_one r n;; mret (Some n)
  end.

Fixpoint slab_lru_loop (tries : nat) (q : list nat) : M st (option nat) :=
  match tries, q with
  | S tries', n :: q' =>
      sl ← get_slab n;
      if sl_refcount sl =? 0 then mret (Some n) else slab_lru_loop tries' q'
  | _, _ => mret None
  end.

Definition slab_evict_lru (r : bool) : M st (option nat) :=
  h ← get_info r;
  o ← slab_lru_loop SLAB_LRU_MAX_TRIES (slab_lruq h);
  match o with
  | None => mret None
  | Some n => slab_evict_one r n;; mret (Some n)
  end.

(** ** Adding a slab to a class *)

(** The chunks of slab [n] replaced by [cnt] fresh ones of the class. *)
Definition slab_carve (n : nat) (id size cnt : Z) (h : gmap addr item) : gmap addr item :=
  foldr (fun i h => <[slab_2_item n i size := item_hdr_init (u32 (slab_2_item n i size).2) id]> h)
    (filter (fun ai => ai.1.1 <> n) h) (seqZ 0 cnt).

Definition slab_add_one (r : bool) (n : nat) (id : Z) : M st unit :=
  p ← get_class r id;
  record (SlabIncr id "slab_alloc");;
  record (SlabIncr id "slab_curr");;
  t ← now_;
  record (SlabSet id "slab_alloc_ts" t);;
  upd_slab n (slab_hdr_init id);;
  slab_lruq_append n r;;
  modify (fun s => set_heap (slab_carve n id (csize p) (nitem p) (heap s)) s);;
  put_class r id (set_free_item (nitem p) (Some (n, SLAB_HDR_SIZE)) p);;
  sz ← setting slab_size_opt;
  record (SlabIncrBy id "bytes_allocated" sz).

(** The end of [slab_get] and [slab_get_evict]. *)
Definition slab_use (r : bool) (id : Z) (o : option nat) : M st rstatus :=
  t ← now_;
  match o with
  | Some n =>
      record (SlabSet id "slab_new_ts" t);;
      slab_add_one r n id;;
      mret MC_OK
  | None =>
      record (SlabIncr id "slab_error");;
      record (SlabSet id "slab_error_ts" t);;
      mret MC_ENOMEM
  end.

Definition slab_get (r : bool) (id : Z) : M st rstatus :=
  record (SlabIncr id "slab_req");;
  t ← now_;
  record (SlabSet id "slab_req_ts" t);;
  o ← slab_get_new r;
  opt ← setting evict_opt;
  o ← (match o with
       | None => if has opt (Z.lor EVICT_CS EVICT_AS) then slab_evict_lru r else mret None
       | Some n => mret (Some n)
       end);
  o ← (match o with
       | None => if has opt EVICT_RS then slab_evict_rand r else mret None
       | Some n => mret (Some n)
       end);
  slab_use r id o.

Definition slab_get_evict (r : bool) (id : Z) : M st rstatus :=
  record (SlabIncr id "slab_req");;
  t ← now_;
  record (SlabSet id "slab_req_ts" t);;
  o ← slab_evict_rand r;
  slab_use r id o.

(** ** Items in and out *)

Definition _slab_get_item_from_freeq (r : bool) (id : Z) : M st (option addr) :=
  use ← setting use_freeq;
  if negb use then mret None
  else
    p ← get_class r id;
    if nfree_itemq p =? 0 then mret None
    else
      a ← lift (head (free_itemq p));
      upd_item a (fun it => set_flags (unset_bit (i_flags it) ITEM_SLABBED) it);;
      q ← lift (tailq_remove a (free_itemq p));
      put_class r id (set_free_itemq (u32 (nfree_itemq p - 1)) q p);;
      record (SlabDecr id "item_free");;
      mret (Some a).

(** The next chunk of the current slab. *)
Definition slab_take (r : bool) (id : Z) : M st (option addr) :=
  p ← get_class r id;
  a ← lift (free_item p);
  let n := u32 (nfree_item p - 1) in
  put_class r id
    (set_free_item n (if n =? 0 then None else Some (a.1, a.2 + csize p)) p);;
  mret (Some a).

Definition _slab_get_item (r : bool) (id : Z) : M st (option addr) :=
  o ← _slab_get_item_from_freeq r id;
  match o with
  | Some a => mret (Some a)
  | None =>
      p ← get_class r id;
      status ← (match free_item p with None => slab_get r id | Some _ => mret MC_OK end);
      if bool_decide (status = MC_OK) then slab_take r id else mret None
  end.

Definition _slab_get_item_by_evict_slab (r : bool) (id : Z) : M st (option addr) :=
  p ← get_class r id;
  status ← (match free_item p with None => slab_get_evict r id | Some _ => mret MC_OK end);
  if bool_decide (status = MC_OK) then slab_take r id else mret None.

Definition slab_get_item (id : Z) : M st (option addr) :=
  lock_slab;; o ← _slab_get_item false id; unlock_slab;; mret o.
Definition slab_get_item_by_evict_slab (id : Z) : M st (option addr) :=
  lock_slab;; o ← _slab_get_item_by_evict_slab false id; unlock_slab;; mret o.
Definition slab_get_item_by_evict_reserved_slab (id : Z) : M st (option addr) :=
  lock_slab;; o ← _slab_get_item_by_evict_slab true id; unlock_slab;; mret o.

Definition slab_get_reserved_item (id : Z) (lock : bool) : M st (option addr) :=
  when lock lock_slab;;
  c ← gets cfg;
  o ← _slab_get_item (slab_has_reserved_slabs c) id;
  when lock unlock_slab;;
  mret o.

Definition slab_put_item_into_freeq (r : bool) (a : addr) : M st unit :=
  it ← get_item a;
  let id := i_id it in
  p ← get_class r id;
  put_item a (set_flags (set_bit (i_flags it) ITEM_SLABBED) it);;
  put_class r id (set_free_itemq (u32 (nfree_itemq p + 1)) (a :: free_itemq p) p);;
  record (SlabIncr id "item_free");;
  record (SlabIncr id "item_remove").

Definition slab_put_item (a : addr) : M st unit :=
  lock_slab;; slab_put_item_into_freeq false a;; unlock_slab.

Definition slab_put_reserved_item (a : addr) (lock : bool) : M st unit :=
  when lock lock_slab;;
  c ← gets cfg;
  slab_put_item_into_freeq (slab_has_reserved_slabs c) a;;
  when lock unlock_slab.

(** ** The queue of slabs *)

Definition _slab_lruq_touch (n : nat) (allocated r : bool) : M st unit :=
  opt ← setting evict_opt;
  if negb (allocated && has opt EVICT_CS) && negb (has opt EVICT_AS) then mret tt
  else
    sl ← get_slab n;
    t ← now_;
    if u32 (t - SLAB_LRU_UPDATE_INTERVAL) <=? sl_utime sl then mret tt
    else
      lock_slab;;
      _slab_unlink_lruq n r;;
      _slab_link_lruq n r;;
      unlock_slab.

Definition slab_lruq_touch (n : nat) (allocated : bool) : M st unit := _slab_lruq_touch n allocated false.
Definition slab_reserved_lruq_touch (n : nat) (allocated : bool) : M st unit :=
  _slab_lruq_touch n allocated true.
