(* ===== verification/Items.v ===== *)
(** * mc_items.c: allocation, linking, lookup and the memcached commands

    The part of [mc_items.c] every command is built on: items are allocated
    with a reference for the caller, linked into the hash table and an lru
    queue, looked up with lazy expiry, and freed when unlinked and
    unreferenced.  [_item_store] and [_item_add_delta] implement the memcached
    update commands on top of it. *)

From S2P Require Import Prelude Util Time Lease Assoc Item State Slabs.
Open Scope Z_scope.

Definition ITEM_UPDATE_INTERVAL : Z := 60.
Definition ITEM_LRUQ_MAX_TRIES : nat := 50.

(** [req_type_t] *)
Inductive req_type :=
  | REQ_UNKNOWN | REQ_IQSET | REQ_SET | REQ_ADD | REQ_REPLACE | REQ_APPEND | REQ_PREPEND | REQ_CAS
  | REQ_IQGET | REQ_GET | REQ_GETS | REQ_INCR | REQ_DECR | REQ_DELETE | REQ_QUIT | REQ_STATS
  | REQ_CONFIG | REQ_VERSION | REQ_FLUSHALL | REQ_VERBOSITY | REQ_UNLEASE | REQ_QAREG | REQ_DAR
  | REQ_QAREAD | REQ_SAR | REQ_IQAPPEND | REQ_IQPREPEND | REQ_IQINCR | REQ_IQDECR | REQ_COMMIT
  | REQ_RELEASE | REQ_CIGET | REQ_COUNLEASE | REQ_OQREG | REQ_DCOMMIT | REQ_CHECK | REQ_FTRANS
  | REQ_GETPRIK | REQ_OQREAD | REQ_OQSWAP | REQ_SWAP | REQ_VALIDATE | REQ_OQAPPEND | REQ_OQPREPEND
  | REQ_OQINCR | REQ_OQDECR | REQ_OQWRITE | REQ_UPDATECONFIG | REQ_ISET.
#[export] Instance req_type_eq_dec : EqDecision req_type.
Proof. solve_decision. Defined.

(** What the item module reads of a connection. *)
Record conn := Conn { c_req_type : req_type; c_lease_token : Z; c_tid : list Z }.

(** ** Time, cas and identifiers *)

Definition item_next_cas : M st Z :=
  use ← setting use_cas;
  if (use : bool) then
    c ← gets cas_id;
    modify (set_cas_id (u64 (c + 1)));;
    mret (u64 (c + 1))
  else mret 0.

Definition item_expired (t : Z) (it : item) : bool := (0 <? i_exptime it) && (i_exptime it <? t).

Definition item_slabid (nkey nbyte : Z) : M st Z :=
  use ← setting use_cas; slab_id false (item_ntotal (u8 nkey) (u32 nbyte) use).

(** ** Lru queues *)

Definition item_link_q (a : addr) (allocated : bool) : M st unit :=
  t ← now_;
  upd_item a (set_atime t);;
  it ← get_item a;
  let id := i_id it in
  l ← get_lruq (item_is_lease_holder it) id;
  put_lruq (item_is_lease_holder it) id (l ++ [a]);;
  n ← item_2_slab a;
  (if item_is_lease_holder it then slab_reserved_lruq_touch n allocated
   else slab_lruq_touch n allocated);;
  record (SlabIncr id "item_curr");;
  record (SlabIncrBy id "data_curr" (item_size it));;
  record (SlabIncrBy id "data_value_curr" (i_nbyte it)).

(** The scan of [item_get_from_lruq]: the first unreferenced item, expired or
    not. *)
Fixpoint lruq_scan (tries : nat) (l : list addr) : M st (option addr) :=
  match tries, l with
  | S tries', a :: l' =>
      it ← get_item a;
      t ← now_;
      if negb (i_refcount it =? 0) then lruq_scan tries' l'
      else if item_expired t it then mret (Some a)
      else mret (Some a)
  | _, _ => mret None
  end.

Definition item_get_from_lruq (r : bool) (id : Z) : M st (option addr) :=
  use ← setting use_lruq;
  if negb use then mret None
  else l ← get_lruq r id; lruq_scan ITEM_LRUQ_MAX_TRIES l.

(** ** Allocation *)

(** The statistics of an expired lease. *)
Definition record_expired_lease (it : item) : M st unit :=
  if item_has_i_lease it then
    record (ThreadIncr "expired_leases");; record (ThreadIncr "expired_i_leases")
  else if item_has_q_inv_lease it || item_has_q_ref_lease it || item_has_q_incr_lease it then
    record (ThreadIncr "expired_leases");; record (ThreadIncr "expired_q_leases")
  else if item_has_co_lease it then
    record (ThreadIncr "expired_leases");;
    (if item_has_c_lease it then record (ThreadIncr "expired_c_leases")
     else when (item_has_o_lease it) (record (ThreadIncr "expired_o_leases")))
  else mret tt.

(** A chunk of the class from the slabs, from the unexpired item [uit], or from
    an evicted slab, in this order. *)
Definition item_take_slab (id : Z) (lock_slab reserved_item : bool) (t opt : Z) (uit : option addr)
  : M st (option addr) :=
  i ← (if reserved_item then slab_get_reserved_item id lock_slab else slab_get_item id);
  match i, uit with
  | Some a, _ => mret (Some a)
  | None, Some a =>
      record (SlabIncr id "item_evict");;
      record (SlabSet id "item_evict_ts" t);;
      item_reuse a;;
      mret (Some a)
  | None, None =>
      if opt =? 0 then mret None
      else
        i ← (if reserved_item then slab_get_item_by_evict_reserved_slab id
             else slab_get_item_by_evict_slab id);
        match i with
        | Some a => mret (Some a)
        | None => record (ThreadIncr "server_error");; mret None
        end
  end.

(** Up to the label [done]: an unlinked, unreferenced chunk of the class, an
    expired item first. *)
Definition item_take (id : Z) (lock_slab reserved_item : bool) : M st (option addr) :=
  o ← item_get_from_lruq reserved_item id;
  t ← now_;
  expired ← (match o with
             | Some a => it ← get_item a; mret (item_expired t it)
             | None => mret false
             end);
  match o, expired with
  | Some a, true =>
      it ← get_item a;
      record (SlabIncr id "item_expire");;
      record (SlabSet id "item_expire_ts" (i_exptime it));;
      record_expired_lease it;;
      item_reuse a;;
      mret (Some a)
  | _, _ =>
      opt ← setting evict_opt;
      item_take_slab id lock_slab reserved_item t opt (if has opt EVICT_LRU then o else None)
  end.

(** After [done]: the header, the key, and the payload not written yet.  A key
    that does not fit the chunk is written out of bounds. *)
Definition item_fill (use : bool) (size : Z) (key : list Z) (dataflags exptime nbyte config_num : Z)
    (it : item) : option item :=
  let nkey := u8 (Z.of_nat (length key)) in
  let room := payload_size size nkey use in
  if room <? 0 then None
  else Some (Item (i_atime it) exptime nbyte (i_offset it) dataflags (i_refcount it)
               (if use then ITEM_CAS else 0) 0 0 (i_id it) nkey ALIVE config_num 0
               (take (Z.to_nat nkey) key) (replicate (Z.to_nat room) None)).

Definition _item_alloc_config (id : Z) (key : list Z) (dataflags exptime nbyte : Z)
    (lock_slab reserved_item : bool) (config_num : Z) : M st (option addr) :=
  o ← item_take id lock_slab reserved_item;
  match o with
  | None => mret None
  | Some a =>
      item_acquire_refcount a;;
      it ← get_item a;
      use ← setting use_cas;
      size ← slab_item_size (i_id it);
      it' ← lift (item_fill use size key dataflags exptime (u32 nbyte) config_num it);
      put_item a it';;
      record (SlabIncr id "item_acquire");;
      mret (Some a)
  end.

Definition _item_alloc (id : Z) (key : list Z) (dataflags exptime nbyte : Z)
    (lock_slab reserved_item : bool) : M st (option addr) :=
  _item_alloc_config id key dataflags exptime nbyte lock_slab reserved_item (-1).

Definition item_alloc (id : Z) (key : list Z) (dataflags exptime nbyte : Z) : M st (option addr) :=
  lock_cache;; o ← _item_alloc id key dataflags exptime nbyte true false; unlock_cache;; mret o.

Definition item_alloc_config (id : Z) (key : list Z) (dataflags exptime nbyte config_num : Z)
  : M st (option addr) :=
  lock_cache;;
  o ← _item_alloc_config id key dataflags exptime nbyte true false config_num;
  unlock_cache;; mret o.

Definition item_free (a : addr) (lock_slab : bool) : M st unit :=
  it ← get_item a;
  (if item_is_lease_holder it || item_has_co_lease it || item_is_sess it
   then slab_put_reserved_item a lock_slab else slab_put_item a);;
  (if item_has_q_lease it then record (ThreadDecr "active_q_lease")
   else if item_has_c_lease it then record (ThreadDecr "active_c_lease")
   else when (item_has_o_lease it) (record (ThreadDecr "active_o_lease")));;
  record (ThreadIncr "items_free").

(** ** Linking *)

Definition _item_link (a : addr) : M st unit :=
  upd_item a (fun it => set_flags (set_bit (i_flags it) ITEM_LINKED) it);;
  c ← item_next_cas;
  upd_item a (item_set_cas c);;
  tbl_insert a;;
  item_link_q a true.

(** Lease holders and the other pinned kinds lose their pin. *)
Definition _item_unlink (a : addr) : M st unit :=
  it ← get_item a;
  when (item_is_pinned_kind it) (item_unset_pinned a);;
  it ← get_item a;
  when (item_is_linked it) (
    put_item a (set_flags (unset_bit (i_flags it) ITEM_LINKED) it);;
    tbl_delete (i_key it);;
    item_unlink_q a;;
    it ← get_item a;
    when (i_refcount it =? 0) (item_free a true);;
    record (ThreadIncr "items_unlink")).

Definition _item_remove2 (a : addr) (lock_slab : bool) : M st unit :=
  it ← get_item a;
  when (negb (i_refcount it =? 0)) (item_release_refcount a);;
  it ← get_item a;
  when ((i_refcount it =? 0) && negb (item_is_linked it)) (item_free a lock_slab).

Definition _item_remove (a : addr) : M st unit := _item_remove2 a true.
Definition item_remove (a : addr) : M st unit := lock_cache;; _item_remove a;; unlock_cache.
Definition item_delete (a : addr) : M st unit :=
  lock_cache;; _item_unlink a;; _item_remove a;; unlock_cache.

Definition _item_touch (a : addr) : M st unit :=
  it ← get_item a;
  t ← now_;
  if u32 (t - ITEM_UPDATE_INTERVAL) <=? i_atime it then mret tt
  else when (item_is_linked it) (item_unlink_q a;; item_link_q a false).

Definition item_touch (a : addr) : M st unit :=
  it ← get_item a;
  t ← now_;
  if u32 (t - ITEM_UPDATE_INTERVAL) <=? i_atime it then mret tt
  else lock_cache;; _item_touch a;; unlock_cache.

Definition _item_replace (a na : addr) : M st unit := _item_unlink a;; _item_link na.

(** ** Lookup *)

Definition _item_get (key : list Z) : M st (option addr) :=
  o ← tbl_find key;
  match o with
  | None => mret None
  | Some a =>
      it ← get_item a;
      t ← now_;
      live ← setting oldest_live;
      if negb (i_exptime it =? 0) && (i_exptime it <=? t) then
        record_expired_lease it;;
        _item_unlink a;;
        record (SlabIncr (i_id it) "item_expire");;
        record (SlabSet (i_id it) "item_reclaim_ts" t);;
        record (SlabSet (i_id it) "item_expire_ts" (i_exptime it));;
        mret None
      else if negb (live =? 0) && (live <=? t) && (i_atime it <=? live) then
        _item_unlink a;;
        record (SlabIncr (i_id it) "item_evict");;
        record (SlabSet (i_id it) "item_evict_ts" t);;
        mret None
      else
        item_acquire_refcount a;;
        mret (Some a)
  end.

Definition item_get (key : list Z) : M st (option addr) :=
  lock_cache;; o ← _item_get key; unlock_cache;; mret o.

(** The items kept beside a key, under a prefix of it. *)
Definition _item_get_pending_version (key : list Z) : M st (option addr) := _item_get (mc_get_version_key key).
Definition _item_get_lease (key : list Z) : M st (option addr) := _item_get (mc_get_lease_key key).
Definition _item_get_pending (key : list Z) : M st (option addr) := _item_get (mc_get_pending_key key).
Definition _item_get_ptrans (key : list Z) : M st (option addr) := _item_get (mc_get_ptrans_key key).
Definition _item_get_co_lease (key : list Z) : M st (option addr) := _item_get (mc_get_co_lease_key key).

(** ** Leases and their like *)

(** The lifetime of a lease in seconds, one second of rounding included. *)
Definition lease_exptime (c : settings) : Z :=
  let exptime := lease_token_expiry c / 1000 in
  let exptime := if exptime =? 0 then 1 else exptime in
  if 0 <? exptime then exptime + 1 else exptime.

Definition lease_reltime : M st Z :=
  c ← gets cfg; k ← gets clk; mret (time_reltime k (lease_exptime c)).

Definition _item_create_reserved_item (key : list Z) (vlen : Z) (lock_slab : bool) : M st (option addr) :=
  id ← item_slabid (Z.of_nat (length key)) vlen;
  e ← lease_reltime;
  o ← _item_alloc id key 0 e vlen lock_slab true;
  match o with
  | Some a => item_set_pinned a;; mret (Some a)
  | None => mret None
  end.

Definition _item_create_pending_version (a : addr) : M st (option addr) :=
  it ← get_item a;
  let pv_key := mc_get_version_key (i_key it) in
  id ← item_slabid (Z.of_nat (length pv_key)) (i_nbyte it);
  e ← lease_reltime;
  _item_alloc id pv_key (i_dataflags it) e (i_nbyte it) true false.

(** [memcpy(item_data(a) + off, bs, n)] *)
Definition write_data (a : addr) (off : Z) (bs : mem) : M st unit :=
  it ← get_item a; it' ← lift (item_write it off bs); put_item a it'.

(** [lease_next_token], under its own lock. *)
Definition lease_next_token_ : M st Z :=
  c ← gets lease_token; modify (set_lease_token (lease_next_token c).2);; mret (lease_next_token c).1.

Definition create_token_item (key : list Z) (token : Z) : M st (option addr) :=
  e ← lease_reltime;
  let buf := print_u64 token in
  id ← item_slabid (Z.of_nat (length key)) (Z.of_nat (length buf));
  o ← _item_alloc id key 0 e (Z.of_nat (length buf)) true true;
  match o with
  | Some a => write_data a 0 (init buf);; item_set_pinned a;; mret (Some a)
  | None => mret None
  end.

(** The item and the token. *)
Definition _item_create_lease (key : list Z) : M st (option addr * Z) :=
  token ← lease_next_token_;
  o ← create_token_item (mc_get_lease_key key) token;
  mret (o, token).

Definition _item_create_ptrans (key : list Z) (token : Z) : M st (option addr) :=
  create_token_item (mc_get_ptrans_key key) (u64 token).

(** [-1] when the item does not hold a number. *)
Definition _item_lease_value (o : option addr) : M st Z :=
  match o with
  | None => mret 0
  | Some a =>
      it ← get_item a;
      v ← lift (item_value it);
      match mc_strtoull_len v with
      | (true, Some value) => mret value
      | _ => mret UINT64_MAX
      end
  end.

(** ** Flush *)

Fixpoint flush_queue (l : list addr) (live : Z) : M st unit :=
  match l with
  | [] => mret tt
  | a :: l' =>
      it ← get_item a;
      if i_atime it <? live then mret tt
      else
        _item_unlink a;;
        record (SlabIncr (i_id it) "item_evict");;
        t ← now_;
        record (SlabSet (i_id it) "item_evict_ts" t);;
        flush_queue l' live
  end.

Fixpoint flush_queues (ids : list Z) (live : Z) : M st unit :=
  match ids with
  | [] => mret tt
  | id :: ids' => l ← get_lruq false id; flush_queue (reverse l) live;; flush_queues ids' live
  end.

Definition _item_flush_expired : M st unit :=
  live ← setting oldest_live;
  if live =? 0 then mret tt
  else flush_queues (seqZ SLABCLASS_MIN_ID SLABCLASS_MAX_ID) live.

Definition item_flush_expired : M st unit := lock_cache;; _item_flush_expired;; unlock_cache.

(** ** Store *)

(** [if (x != NULL) _item_remove(x)] *)
Definition opt_remove (o : option addr) : M st unit :=
  match o with Some a => _item_remove a | None => mret tt end.

(** [case REQ_IQSET]: whether to store, and the lease item found. *)
Definition item_store_iqset (a : addr) (c : conn) : M st (bool * option addr) :=
  record (ThreadIncr "iqset");;
  it ← get_item a;
  lease_it ← _item_get_lease (i_key it);
  i_lease ← (match lease_it with
             | Some l => lit ← get_item l; mret (item_has_i_lease lit)
             | None => mret false
             end);
  match lease_it, i_lease with
  | Some l, true =>
      token ← _item_lease_value lease_it;
      if negb (c_lease_token c =? token) then
        record (ThreadIncr "iqset_miss");;
        record (ThreadIncr "set_miss_token");;
        mret (false, lease_it)
      else
        _item_unlink l;;
        if i_nbyte it =? 0 then mret (false, lease_it)
        else
          pending_it ← _item_get_pending (i_key it);
          (match pending_it with
           | Some p => upd_item a (set_p 1);; _item_unlink p;; _item_remove p
           | None => mret tt
           end);;
          record (SlabIncr (i_id it) "set_success");;
          record (ThreadIncr "released_i_lease");;
          mret (true, lease_it)
  | _, _ =>
      record (ThreadIncr "iqset_miss");;
      mret (false, lease_it)
  end.

(** What the [switch] of [_item_store] decides. *)
Record decision := Decision_ {
  d_result : item_store_result;
  d_store : bool;
  d_it : addr;
  d_nit : option addr;
  d_lease : option addr
}.

(** Nothing stored under the key. *)
Definition item_store_absent (a : addr) (type : req_type) (c : conn) : M st decision :=
  it ← get_item a;
  match type with
  | REQ_IQSET =>
      '(store, lease_it) ← item_store_iqset a c;
      mret (Decision_ NOT_STORED store a None lease_it)
  | REQ_SET => record (SlabIncr (i_id it) "set_success");; mret (Decision_ NOT_STORED true a None None)
  | REQ_ADD => record (SlabIncr (i_id it) "add_success");; mret (Decision_ NOT_STORED true a None None)
  | REQ_REPLACE => record (ThreadIncr "replace_miss");; mret (Decision_ NOT_STORED false a None None)
  | REQ_APPEND => record (ThreadIncr "append_miss");; mret (Decision_ NOT_STORED false a None None)
  | REQ_PREPEND => record (ThreadIncr "prepend_miss");; mret (Decision_ NOT_STORED false a None None)
  | REQ_CAS => record (ThreadIncr "cas_miss");; mret (Decision_ NOT_FOUND false a None None)
  | _ => mret (Decision_ NOT_STORED true a None None)
  end.

(** [case REQ_APPEND] and [case REQ_PREPEND]: a new item with both values. *)
Definition item_store_concat (a oa : addr) (append : bool) : M st decision :=
  it ← get_item a;
  oit ← get_item oa;
  record (SlabIncr (i_id oit) (if append then "append_hit" else "prepend_hit"));;
  let total_nbyte := u32 (i_nbyte oit + i_nbyte it) in
  id ← item_slabid (i_nkey oit) total_nbyte;
  if id =? SLABCLASS_INVALID_ID then
    record (ThreadIncr "cmd_error");; mret (Decision_ NOT_STORED false a None None)
  else if i_nbyte oit =? 0 then mret (Decision_ NOT_STORED false a None None)
  else
    nit ← _item_alloc id (i_key it) (i_dataflags oit) (i_exptime oit) total_nbyte true false;
    match nit with
    | None => mret (Decision_ NOT_STORED false a None None)
    | Some na =>
        when (negb append)
          (upd_item na (fun n => set_flags (set_bit (i_flags n) ITEM_RALIGN) n));;
        it ← get_item a;
        oit ← get_item oa;
        d ← lift (item_data_raw it);
        od ← lift (item_data_raw oit);
        (if append then write_data na 0 od;; write_data na (i_nbyte oit) d
         else write_data na 0 d;; write_data na (i_nbyte it) od);;
        n ← get_item na;
        record (SlabIncr (i_id n) (if append then "append_success" else "prepend_success"));;
        mret (Decision_ NOT_STORED true na (Some na) None)
    end.

(** [oa] stored under the key. *)
Definition item_store_present (a oa : addr) (type : req_type) (c : conn) : M st decision :=
  it ← get_item a;
  oit ← get_item oa;
  match type with
  | REQ_IQSET =>
      '(store, lease_it) ← item_store_iqset a c;
      mret (Decision_ NOT_STORED store a None lease_it)
  | REQ_SET => record (SlabIncr (i_id it) "set_success");; mret (Decision_ NOT_STORED true a None None)
  | REQ_ADD =>
      if i_nbyte oit =? 0 then
        record (SlabIncr (i_id oit) "add_success");; mret (Decision_ NOT_STORED true a None None)
      else
        record (ThreadIncr "add_exist");;
        _item_touch oa;;
        mret (Decision_ NOT_STORED false a None None)
  | REQ_REPLACE =>
      if i_nbyte oit =? 0 then mret (Decision_ NOT_STORED false a None None)
      else
        record (SlabIncr (i_id oit) "replace_hit");;
        record (SlabIncr (i_id it) "replace_success");;
        mret (Decision_ NOT_STORED true a None None)
  | REQ_APPEND => item_store_concat a oa true
  | REQ_PREPEND => item_store_concat a oa false
  | REQ_CAS =>
      if negb (item_cas it =? item_cas oit) then
        record (SlabIncr (i_id oit) "cas_badval");; mret (Decision_ EXISTS true a None None)
      else
        record (SlabIncr (i_id oit) "cas_hit");;
        record (SlabIncr (i_id it) "cas_success");;
        mret (Decision_ NOT_STORED true a None None)
  | REQ_IQGET => mret (Decision_ NOT_STORED false a None None)
  | _ => mret (Decision_ NOT_STORED true a None None)
  end.

Definition _item_store (a : addr) (type : req_type) (c : conn) (lock_slab : bool)
  : M st item_store_result :=
  it ← get_item a;
  if (i_nbyte it =? 0) && negb (item_is_lease_holder it) && negb (item_has_co_lease it)
  then mret NOT_STORED
  else
    oit ← _item_get (i_key it);
    d ← (match oit with
         | None => item_store_absent a type c
         | Some oa => item_store_present a oa type c
         end);
    result ← (if bool_decide (d_result d = NOT_STORED) && d_store d then
                (match oit with
                 | Some oa => _item_replace oa (d_it d)
                 | None => _item_link (d_it d)
                 end);;
                mret STORED
              else mret (d_result d));
    (match oit with Some oa => _item_remove2 oa lock_slab | None => mret tt end);;
    opt_remove (d_nit d);;
    opt_remove (d_lease d);;
    mret result.

Definition item_store (a : addr) (type : req_type) (c : conn) : M st item_store_result :=
  lock_cache;; r ← _item_store a type c true; unlock_cache;; mret r.

(** ** Increment and decrement *)

(** [delta] is an [int64_t] added to, or compared with, an unsigned value. *)
Definition delta_value (incr : bool) (value delta : Z) : Z :=
  if incr then u64 (value + delta)
  else if value <? u64 delta then 0
  else u64 (value - delta).

(** The result and the text left in [buf]. *)
Definition _item_add_delta (key : list Z) (incr : bool) (delta : Z) : M st (item_delta_result * list Z) :=
  o ← _item_get key;
  match o with
  | None => mret (DELTA_NOT_FOUND, [])
  | Some a =>
      it ← get_item a;
      v ← lift (item_value it);
      match mc_strtoull_len v with
      | (true, Some value) =>
          let buf := print_u64 (delta_value incr value delta) in
          let res := Z.of_nat (length buf) in
          record (SlabIncr (i_id it) (if incr then "incr_hit" else "decr_hit"));;
          if i_nbyte it <? res then
            id ← item_slabid (i_nkey it) res;
            new_it ← _item_alloc id (i_key it) (i_dataflags it) (i_exptime it) res true false;
            match new_it with
            | None => _item_remove a;; mret (DELTA_EOM, buf)
            | Some na =>
                nit ← get_item na;
                record (SlabIncr (i_id nit) (if incr then "incr_success" else "decr_success"));;
                write_data na 0 (init buf);;
                it ← get_item a;
                upd_item na (set_p (i_p it));;
                _item_replace a na;;
                _item_remove na;;
                _item_remove a;;
                mret (DELTA_OK, buf)
            end
          else
            record (SlabIncr (i_id it) (if incr then "incr_success" else "decr_success"));;
            c ← item_next_cas;
            upd_item a (item_set_cas c);;
            write_data a 0 (init buf);;
            upd_item a (set_nbyte res);;
            _item_remove a;;
            mret (DELTA_OK, buf)
      | _ => _item_remove a;; mret (DELTA_NON_NUMERIC, [])
      end
  end.

Definition item_add_delta (key : list Z) (incr : bool) (delta : Z) : M st (item_delta_result * list Z) :=
  lock_cache;; r ← _item_add_delta key incr delta; unlock_cache;; mret r.

(** ** Delete *)

Definition unlink_remove (o : option addr) : M st unit :=
  match o with Some a => _item_unlink a;; _item_remove a | None => mret tt end.

Definition item_get_and_delete (key : list Z) (delete_lease : bool) : M st item_store_result :=
  lock_cache;;
  when delete_lease (
    o ← _item_get_lease key; unlink_remove o;;
    o ← _item_get_pending_version key; unlink_remove o;;
    o ← _item_get_co_lease key; unlink_remove o);;
  o ← _item_get key;
  found ← (match o with
           | Some a =>
               _item_unlink a;; _item_remove a;;
               record (ThreadIncr "delete_hit");; mret EXISTS
           | None => record (ThreadIncr "delete_miss");; mret NOT_FOUND
           end);
  unlock_cache;;
  mret found.

(** ** Start-up *)

(** [item_init]: the queues of the usable classes. *)
Definition item_init_lruq : gmap Z (list addr) :=
  list_to_map ((fun id => (id, [])) <$> seqZ SLABCLASS_MIN_ID SLABCLASS_MAX_ID).

(** The state after [time_init], [assoc_init], [slab_init], [item_init] and
    [lease_init], all of which succeed. *)
Definition cache_init (c : settings) (e : environment) (k : clock) : st :=
  St c e 0 0 ∅ ∅ 0 (fun _ => slab_slabclass_init c)
    (fun r : bool =>
       if r then if slab_has_reserved_slabs c
                 then (slab_heapinfo_init c (reserved_maxbytes c) true true).2
                 else HeapInfo 0 0 [] []
       else (slab_heapinfo_init c (maxbytes c) true true).2)
    (assoc_init (hash_power_opt c)) (fun _ => item_init_lruq) 0 lease_init k false false [].
