(* ===== verification/Startup.v ===== *)
(** * mc.c: options, the slab profile and start-up

    The settings as they are made from the command line ([mc_set_default_options],
    [mc_get_options]) and the sizes of the slab classes ([mc_set_profile]), up to
    the state the server starts from.

    [getopt_long] is given by what its successive calls return, [atof] by its
    results; whether the calls of the operating system that [main] makes succeed
    is given too: [Boot] has them.  The usage text is not modelled. *)

From S2P Require Import Prelude Util Time Assoc Item State Slabs Items.
Open Scope Z_scope.

Definition KB : Z := 1024.
Definition MB : Z := 1024 * KB.
Definition MC_ALIGNMENT : Z := 8.
Definition ITEM_MIN_CHUNK_SIZE : Z := MC_ALIGN (ITEM_HDR_SIZE + 10) MC_ALIGNMENT.
Definition ITEM_CHUNK_SIZE : Z := MC_ALIGN (ITEM_HDR_SIZE + 32) MC_ALIGNMENT.
Definition SLAB_MIN_SIZE : Z := 512.
Definition SLAB_MAX_SIZE : Z := 128 * MB.
Definition SLABCLASS_MAX_IDS : nat := 255.
Definition MC_UINT32_MAXLEN : nat := 11.
Definition STATS_MIN_INTVL : Z := 10000.
Definition STATS_MAX_INTVL : Z := 60000000.

(** ** Doubles

    A finite [double] is [man * 2 ^ ex] with [man] of at most 53 bits. *)
Inductive double :=
  | Double (man ex : Z)
  | Infinity
  | NaN.

(** [f <= 1.0] *)
Definition le_one (f : double) : bool :=
  match f with
  | Double man ex => if 0 <=? ex then man * 2 ^ ex <=? 1 else man <=? 2 ^ (- ex)
  | Infinity | NaN => false
  end.

(** The positive number [p] rounded to 53 bits, to the nearest and to even in the
    middle: the bits and the number of bits dropped. *)
Definition round53 (p : Z) : Z * Z :=
  let k := Z.max 0 (Z.log2 p - 52) in
  let q := p / 2 ^ k in
  let r := p mod 2 ^ k in
  (if (2 ^ k <? 2 * r) || ((2 ^ k =? 2 * r) && Z.odd q) then q + 1 else q, k).

(** [n *= f] for a [size_t] below 2^53: the product is a [double], of which the
    integer part is taken; it is undefined when that is no [size_t]. *)
Definition times (n : Z) (f : double) : option Z :=
  match f with
  | Double man ex =>
      let '(q, k) := round53 (n * man) in
      let x := ex + k in
      let v := if 0 <=? x then q * 2 ^ x else q / 2 ^ (- x) in
      if v <? 2 ^ 64 then Some v else None
  | Infinity | NaN => None
  end.

(** ** The settings

    [struct settings], with what the store reads of it in one field, and the
    variables of [mc.c] and [mc_get_options] beside it. *)

Record conf := Conf {
  kept_settings : settings;
  lock_page : bool;
  daemonize : bool;
  max_corefile : bool;
  log_filename : option (list Z);
  verbose : Z;
  stats_agg_intvl : Z;
  klog_name : option (list Z);
  klog_backup : option (list Z);
  klog_sampling_rate : Z;
  klog_entry : Z;
  klog_intvl : Z;
  klog_running : bool;
  num_workers : Z;
  username : option (list Z);
  reqs_per_event : Z;
  maxconns : Z;
  backlog : Z;
  port : Z;
  udpport : Z;
  interface : option (list Z);
  socketpath : option (list Z);
  access : Z;
  factor : double;
  chunk_size : Z;
  max_chunk_size : Z;
  accepting_conns : bool;
  pid_filename : option (list Z);
  show_help : bool;
  show_version : bool;
  show_stats_description : bool;
  show_sizes : bool;
  profile_optarg : option (list Z);
  tcp_specified : bool;
  udp_specified : bool
}.

Definition set_kept_settings (x : settings) (c : conf) : conf := Conf x (lock_page c) (daemonize c) (max_corefile c) (log_filename c) (verbose c) (stats_agg_intvl c) (klog_name c) (klog_backup c) (klog_sampling_rate c) (klog_entry c) (klog_intvl c) (klog_running c) (num_workers c) (username c) (reqs_per_event c) (maxconns c) (backlog c) (port c) (udpport c) (interface c) (socketpath c) (access c) (factor c) (chunk_size c) (max_chunk_size c) (accepting_conns c) (pid_filename c) (show_help c) (show_version c) (show_stats_description c) (show_sizes c) (profile_optarg c) (tcp_specified c) (udp_specified c).
Definition set_lock_page (x : bool) (c : conf) : conf := Conf (kept_settings c) x (daemonize c) (max_corefile c) (log_filename c) (verbose c) (stats_agg_intvl c) (klog_name c) (klog_backup c) (klog_sampling_rate c) (klog_entry c) (klog_intvl c) (klog_running c) (num_workers c) (username c) (reqs_per_event c) (maxconns c) (backlog c) (port c) (udpport c) (interface c) (socketpath c) (access c) (factor c) (chunk_size c) (max_chunk_size c) (accepting_conns c) (pid_filename c) (show_help c) (show_version c) (show_stats_description c) (show_sizes c) (profile_optarg c) (tcp_specified c) (udp_specified c).
Definition set_daemonize (x : bool) (c : conf) : conf := Conf (kept_settings c) (lock_page c) x (max_corefile c) (log_filename c) (verbose c) (stats_agg_intvl c) (klog_name c) (klog_backup c) (klog_sampling_rate c) (klog_entry c) (klog_intvl c) (klog_running c) (num_workers c) (username c) (reqs_per_event c) (maxconns c) (backlog c) (port c) (udpport c) (interface c) (socketpath c) (access c) (factor c) (chunk_size c) (max_chunk_size c) (accepting_conns c) (pid_filename c) (show_help c) (show_version c) (show_stats_description c) (show_sizes c) (profile_optarg c) (tcp_specified c) (udp_specified c).
Definition set_max_corefile (x : bool) (c : conf) : conf := Conf (kept_settings c) (lock_page c) (daemonize c) x (log_filename c) (verbose c) (stats_agg_intvl c) (klog_name c) (klog_backup c) (klog_sampling_rate c) (klog_entry c) (klog_intvl c) (klog_running c) (num_workers c) (username c) (reqs_per_event c) (maxconns c) (backlog c) (port c) (udpport c) (interface c) (socketpath c) (access c) (factor c) (chunk_size c) (max_chunk_size c) (accepting_conns c) (pid_filename c) (show_help c) (show_version c) (show_stats_description c) (show_sizes c) (profile_optarg c) (tcp_specified c) (udp_specified c).
Definition set_log_filename (x : option (list Z)) (c : conf) : conf := Conf (kept_settings c) (lock_page c) (daemonize c) (max_corefile c) x (verbose c) (stats_agg_intvl c) (klog_name c) (klog_backup c) (klog_sampling_rate c) (klog_entry c) (klog_intvl c) (klog_running c) (num_workers c) (username c) (reqs_per_event c) (maxconns c) (backlog c) (port c) (udpport c) (interface c) (socketpath c) (access c) (factor c) (chunk_size c) (max_chunk_size c) (accepting_conns c) (pid_filename c) (show_help c) (show_version c) (show_stats_description c) (show_sizes c) (profile_optarg c) (tcp_specified c) (udp_specified c).
Definition set_verbose (x : Z) (c : conf) : conf := Conf (kept_settings c) (lock_page c) (daemonize c) (max_corefile c) (log_filename c) x (stats_agg_intvl c) (klog_name c) (klog_backup c) (klog_sampling_rate c) (klog_entry c) (klog_intvl c) (klog_running c) (num_workers c) (username c) (reqs_per_event c) (maxconns c) (backlog c) (port c) (udpport c) (interface c) (socketpath c) (access c) (factor c) (chunk_size c) (max_chunk_size c) (accepting_conns c) (pid_filename c) (show_help c) (show_version c) (show_stats_description c) (show_sizes c) (profile_optarg c) (tcp_specified c) (udp_specified c).
Definition set_stats_agg_intvl (x : Z) (c : conf) : conf := Conf (kept_settings c) (lock_page c) (daemonize c) (max_corefile c) (log_filename c) (verbose c) x (klog_name c) (klog_backup c) (klog_sampling_rate c) (klog_entry c) (klog_intvl c) (klog_running c) (num_workers c) (username c) (reqs_per_event c) (maxconns c) (backlog c) (port c) (udpport c) (interface c) (socketpath c) (access c) (factor c) (chunk_size c) (max_chunk_size c) (accepting_conns c) (pid_filename c) (show_help c) (show_version c) (show_stats_description c) (show_sizes c) (profile_optarg c) (tcp_specified c) (udp_specified c).
Definition set_klog_name (x : option (list Z)) (c : conf) : conf := Conf (kept_settings c) (lock_page c) (daemonize c) (max_corefile c) (log_filename c) (verbose c) (stats_agg_intvl c) x (klog_backup c) (klog_sampling_rate c) (klog_entry c) (klog_intvl c) (klog_running c) (num_workers c) (username c) (reqs_per_event c) (maxconns c) (backlog c) (port c) (udpport c) (interface c) (socketpath c) (access c) (factor c) (chunk_size c) (max_chunk_size c) (accepting_conns c) (pid_filename c) (show_help c) (show_version c) (show_stats_description c) (show_sizes c) (profile_optarg c) (tcp_specified c) (udp_specified c).
Definition set_klog_backup (x : option (list Z)) (c : conf) : conf := Conf (kept_settings c) (lock_page c) (daemonize c) (max_corefile c) (log_filename c) (verbose c) (stats_agg_intvl c) (klog_name c) x (klog_sampling_rate c) (klog_entry c) (klog_intvl c) (klog_running c) (num_workers c) (username c) (reqs_per_event c) (maxconns c) (backlog c) (port c) (udpport c) (interface c) (socketpath c) (access c) (factor c) (chunk_size c) (max_chunk_size c) (accepting_conns c) (pid_filename c) (show_help c) (show_version c) (show_stats_description c) (show_sizes c) (profile_optarg c) (tcp_specified c) (udp_specified c).
Definition set_klog_sampling_rate (x : Z) (c : conf) : conf := Conf (kept_settings c) (lock_page c) (daemonize c) (max_corefile c) (log_filename c) (verbose c) (stats_agg_intvl c) (klog_name c) (klog_backup c) x (klog_entry c) (klog_intvl c) (klog_running c) (num_workers c) (username c) (reqs_per_event c) (maxconns c) (backlog c) (port c) (udpport c) (interface c) (socketpath c) (access c) (factor c) (chunk_size c) (max_chunk_size c) (accepting_conns c) (pid_filename c) (show_help c) (show_version c) (show_stats_description c) (show_sizes c) (profile_optarg c) (tcp_specified c) (udp_specified c).
Definition set_klog_entry (x : Z) (c : conf) : conf := Conf (kept_settings c) (lock_page c) (daemonize c) (max_corefile c) (log_filename c) (verbose c) (stats_agg_intvl c) (klog_name c) (klog_backup c) (klog_sampling_rate c) x (klog_intvl c) (klog_running c) (num_workers c) (username c) (reqs_per_event c) (maxconns c) (backlog c) (port c) (udpport c) (interface c) (socketpath c) (access c) (factor c) (chunk_size c) (max_chunk_size c) (accepting_conns c) (pid_filename c) (show_help c) (show_version c) (show_stats_description c) (show_sizes c) (profile_optarg c) (tcp_specified c) (udp_specified c).
Definition set_klog_intvl (x : Z) (c : conf) : conf := Conf (kept_settings c) (lock_page c) (daemonize c) (max_corefile c) (log_filename c) (verbose c) (stats_agg_intvl c) (klog_name c) (klog_backup c) (klog_sampling_rate c) (klog_entry c) x (klog_running c) (num_workers c) (username c) (reqs_per_event c) (maxconns c) (backlog c) (port c) (udpport c) (interface c) (socketpath c) (access c) (factor c) (chunk_size c) (max_chunk_size c) (accepting_conns c) (pid_filename c) (show_help c) (show_version c) (show_stats_description c) (show_sizes c) (profile_optarg c) (tcp_specified c) (udp_specified c).
Definition set_klog_running (x : bool) (c : conf) : conf := Conf (kept_settings c) (lock_page c) (daemonize c) (max_corefile c) (log_filename c) (verbose c) (stats_agg_intvl c) (klog_name c) (klog_backup c) (klog_sampling_rate c) (klog_entry c) (klog_intvl c) x (num_workers c) (username c) (reqs_per_event c) (maxconns c) (backlog c) (port c) (udpport c) (interface c) (socketpath c) (access c) (factor c) (chunk_size c) (max_chunk_size c) (accepting_conns c) (pid_filename c) (show_help c) (show_version c) (show_stats_description c) (show_sizes c) (profile_optarg c) (tcp_specified c) (udp_specified c).
Definition set_num_workers (x : Z) (c : conf) : conf := Conf (kept_settings c) (lock_page c) (daemonize c) (max_corefile c) (log_filename c) (verbose c) (stats_agg_intvl c) (klog_name c) (klog_backup c) (klog_sampling_rate c) (klog_entry c) (klog_intvl c) (klog_running c) x (username c) (reqs_per_event c) (maxconns c) (backlog c) (port c) (udpport c) (interface c) (socketpath c) (access c) (factor c) (chunk_size c) (max_chunk_size c) (accepting_conns c) (pid_filename c) (show_help c) (show_version c) (show_stats_description c) (show_sizes c) (profile_optarg c) (tcp_specified c) (udp_specified c).
Definition set_username (x : option (list Z)) (c : conf) : conf := Conf (kept_settings c) (lock_page c) (daemonize c) (max_corefile c) (log_filename c) (verbose c) (stats_agg_intvl c) (klog_name c) (klog_backup c) (klog_sampling_rate c) (klog_entry c) (klog_intvl c) (klog_running c) (num_workers c) x (reqs_per_event c) (maxconns c) (backlog c) (port c) (udpport c) (interface c) (socketpath c) (access c) (factor c) (chunk_size c) (max_chunk_size c) (accepting_conns c) (pid_filename c) (show_help c) (show_version c) (show_stats_description c) (show_sizes c) (profile_optarg c) (tcp_specified c) (udp_specified c).
Definition set_reqs_per_event (x : Z) (c : conf) : conf := Conf (kept_settings c) (lock_page c) (daemonize c) (max_corefile c) (log_filename c) (verbose c) (stats_agg_intvl c) (klog_name c) (klog_backup c) (klog_sampling_rate c) (klog_entry c) (klog_intvl c) (klog_running c) (num_workers c) (username c) x (maxconns c) (backlog c) (port c) (udpport c) (interface c) (socketpath c) (access c) (factor c) (chunk_size c) (max_chunk_size c) (accepting_conns c) (pid_filename c) (show_help c) (show_version c) (show_stats_description c) (show_sizes c) (profile_optarg c) (tcp_specified c) (udp_specified c).
Definition set_maxconns (x : Z) (c : conf) : conf := Conf (kept_settings c) (lock_page c) (daemonize c) (max_corefile c) (log_filename c) (verbose c) (stats_agg_intvl c) (klog_name c) (klog_backup c) (klog_sampling_rate c) (klog_entry c) (klog_intvl c) (klog_running c) (num_workers c) (username c) (reqs_per_event c) x (backlog c) (port c) (udpport c) (interface c) (socketpath c) (access c) (factor c) (chunk_size c) (max_chunk_size c) (accepting_conns c) (pid_filename c) (show_help c) (show_version c) (show_stats_description c) (show_sizes c) (profile_optarg c) (tcp_specified c) (udp_specified c).
Definition set_backlog (x : Z) (c : conf) : conf := Conf (kept_settings c) (lock_page c) (daemonize c) (max_corefile c) (log_filename c) (verbose c) (stats_agg_intvl c) (klog_name c) (klog_backup c) (klog_sampling_rate c) (klog_entry c) (klog_intvl c) (klog_running c) (num_workers c) (username c) (reqs_per_event c) (maxconns c) x (port c) (udpport c) (interface c) (socketpath c) (access c) (factor c) (chunk_size c) (max_chunk_size c) (accepting_conns c) (pid_filename c) (show_help c) (show_version c) (show_stats_description c) (show_sizes c) (profile_optarg c) (tcp_specified c) (udp_specified c).
Definition set_port (x : Z) (c : conf) : conf := Conf (kept_settings c) (lock_page c) (daemonize c) (max_corefile c) (log_filename c) (verbose c) (stats_agg_intvl c) (klog_name c) (klog_backup c) (klog_sampling_rate c) (klog_entry c) (klog_intvl c) (klog_running c) (num_workers c) (username c) (reqs_per_event c) (maxconns c) (backlog c) x (udpport c) (interface c) (socketpath c) (access c) (factor c) (chunk_size c) (max_chunk_size c) (accepting_conns c) (pid_filename c) (show_help c) (show_version c) (show_stats_description c) (show_sizes c) (profile_optarg c) (tcp_specified c) (udp_specified c).
Definition set_udpport (x : Z) (c : conf) : conf := Conf (kept_settings c) (lock_page c) (daemonize c) (max_corefile c) (log_filename c) (verbose c) (stats_agg_intvl c) (klog_name c) (klog_backup c) (klog_sampling_rate c) (klog_entry c) (klog_intvl c) (klog_running c) (num_workers c) (username c) (reqs_per_event c) (maxconns c) (backlog c) (port c) x (interface c) (socketpath c) (access c) (factor c) (chunk_size c) (max_chunk_size c) (accepting_conns c) (pid_filename c) (show_help c) (show_version c) (show_stats_description c) (show_sizes c) (profile_optarg c) (tcp_specified c) (udp_specified c).
Definition set_interface (x : option (list Z)) (c : conf) : conf := Conf (kept_settings c) (lock_page c) (daemonize c) (max_corefile c) (log_filename c) (verbose c) (stats_agg_intvl c) (klog_name c) (klog_backup c) (klog_sampling_rate c) (klog_entry c) (klog_intvl c) (klog_running c) (num_workers c) (username c) (reqs_per_event c) (maxconns c) (backlog c) (port c) (udpport c) x (socketpath c) (access c) (factor c) (chunk_size c) (max_chunk_size c) (accepting_conns c) (pid_filename c) (show_help c) (show_version c) (show_stats_description c) (show_sizes c) (profile_optarg c) (tcp_specified c) (udp_specified c).
Definition set_socketpath (x : option (list Z)) (c : conf) : conf := Conf (kept_settings c) (lock_page c) (daemonize c) (max_corefile c) (log_filename c) (verbose c) (stats_agg_intvl c) (klog_name c) (klog_backup c) (klog_sampling_rate c) (klog_entry c) (klog_intvl c) (klog_running c) (num_workers c) (username c) (reqs_per_event c) (maxconns c) (backlog c) (port c) (udpport c) (interface c) x (access c) (factor c) (chunk_size c) (max_chunk_size c) (accepting_conns c) (pid_filename c) (show_help c) (show_version c) (show_stats_description c) (show_sizes c) (profile_optarg c) (tcp_specified c) (udp_specified c).
Definition set_access (x : Z) (c : conf) : conf := Conf (kept_settings c) (lock_page c) (daemonize c) (max_corefile c) (log_filename c) (verbose c) (stats_agg_intvl c) (klog_name c) (klog_backup c) (klog_sampling_rate c) (klog_entry c) (klog_intvl c) (klog_running c) (num_workers c) (username c) (reqs_per_event c) (maxconns c) (backlog c) (port c) (udpport c) (interface c) (socketpath c) x (factor c) (chunk_size c) (max_chunk_size c) (accepting_conns c) (pid_filename c) (show_help c) (show_version c) (show_stats_description c) (show_sizes c) (profile_optarg c) (tcp_specified c) (udp_specified c).
Definition set_factor (x : double) (c : conf) : conf := Conf (kept_settings c) (lock_page c) (daemonize c) (max_corefile c) (log_filename c) (verbose c) (stats_agg_intvl c) (klog_name c) (klog_backup c) (klog_sampling_rate c) (klog_entry c) (klog_intvl c) (klog_running c) (num_workers c) (username c) (reqs_per_event c) (maxconns c) (backlog c) (port c) (udpport c) (interface c) (socketpath c) (access c) x (chunk_size c) (max_chunk_size c) (accepting_conns c) (pid_filename c) (show_help c) (show_version c) (show_stats_description c) (show_sizes c) (profile_optarg c) (tcp_specified c) (udp_specified c).
Definition set_chunk_size (x : Z) (c : conf) : conf := Conf (kept_settings c) (lock_page c) (daemonize c) (max_corefile c) (log_filename c) (verbose c) (stats_agg_intvl c) (klog_name c) (klog_backup c) (klog_sampling_rate c) (klog_entry c) (klog_intvl c) (klog_running c) (num_workers c) (username c) (reqs_per_event c) (maxconns c) (backlog c) (port c) (udpport c) (interface c) (socketpath c) (access c) (factor c) x (max_chunk_size c) (accepting_conns c) (pid_filename c) (show_help c) (show_version c) (show_stats_description c) (show_sizes c) (profile_optarg c) (tcp_specified c) (udp_specified c).
Definition set_max_chunk_size (x : Z) (c : conf) : conf := Conf (kept_settings c) (lock_page c) (daemonize c) (max_corefile c) (log_filename c) (verbose c) (stats_agg_intvl c) (klog_name c) (klog_backup c) (klog_sampling_rate c) (klog_entry c) (klog_intvl c) (klog_running c) (num_workers c) (username c) (reqs_per_event c) (maxconns c) (backlog c) (port c) (udpport c) (interface c) (socketpath c) (access c) (factor c) (chunk_size c) x (accepting_conns c) (pid_filename c) (show_help c) (show_version c) (show_stats_description c) (show_sizes c) (profile_optarg c) (tcp_specified c) (udp_specified c).
Definition set_accepting_conns (x : bool) (c : conf) : conf := Conf (kept_settings c) (lock_page c) (daemonize c) (max_corefile c) (log_filename c) (verbose c) (stats_agg_intvl c) (klog_name c) (klog_backup c) (klog_sampling_rate c) (klog_entry c) (klog_intvl c) (klog_running c) (num_workers c) (username c) (reqs_per_event c) (maxconns c) (backlog c) (port c) (udpport c) (interface c) (socketpath c) (access c) (factor c) (chunk_size c) (max_chunk_size c) x (pid_filename c) (show_help c) (show_version c) (show_stats_description c) (show_sizes c) (profile_optarg c) (tcp_specified c) (udp_specified c).
Definition set_pid_filename (x : option (list Z)) (c : conf) : conf := Conf (kept_settings c) (lock_page c) (daemonize c) (max_corefile c) (log_filename c) (verbose c) (stats_agg_intvl c) (klog_name c) (klog_backup c) (klog_sampling_rate c) (klog_entry c) (klog_intvl c) (klog_running c) (num_workers c) (username c) (reqs_per_event c) (maxconns c) (backlog c) (port c) (udpport c) (interface c) (socketpath c) (access c) (factor c) (chunk_size c) (max_chunk_size c) (accepting_conns c) x (show_help c) (show_version c) (show_stats_description c) (show_sizes c) (profile_optarg c) (tcp_specified c) (udp_specified c).
Definition set_show_help (x : bool) (c : conf) : conf := Conf (kept_settings c) (lock_page c) (daemonize c) (max_corefile c) (log_filename c) (verbose c) (stats_agg_intvl c) (klog_name c) (klog_backup c) (klog_sampling_rate c) (klog_entry c) (klog_intvl c) (klog_running c) (num_workers c) (username c) (reqs_per_event c) (maxconns c) (backlog c) (port c) (udpport c) (interface c) (socketpath c) (access c) (factor c) (chunk_size c) (max_chunk_size c) (accepting_conns c) (pid_filename c) x (show_version c) (show_stats_description c) (show_sizes c) (profile_optarg c) (tcp_specified c) (udp_specified c).
Definition set_show_version (x : bool) (c : conf) : conf := Conf (kept_settings c) (lock_page c) (daemonize c) (max_corefile c) (log_filename c) (verbose c) (stats_agg_intvl c) (klog_name c) (klog_backup c) (klog_sampling_rate c) (klog_entry c) (klog_intvl c) (klog_running c) (num_workers c) (username c) (reqs_per_event c) (maxconns c) (backlog c) (port c) (udpport c) (interface c) (socketpath c) (access c) (factor c) (chunk_size c) (max_chunk_size c) (accepting_conns c) (pid_filename c) (show_help c) x (show_stats_description c) (show_sizes c) (profile_optarg c) (tcp_specified c) (udp_specified c).
Definition set_show_stats_description (x : bool) (c : conf) : conf := Conf (kept_settings c) (lock_page c) (daemonize c) (max_corefile c) (log_filename c) (verbose c) (stats_agg_intvl c) (klog_name c) (klog_backup c) (klog_sampling_rate c) (klog_entry c) (klog_intvl c) (klog_running c) (num_workers c) (username c) (reqs_per_event c) (maxconns c) (backlog c) (port c) (udpport c) (interface c) (socketpath c) (access c) (factor c) (chunk_size c) (max_chunk_size c) (accepting_conns c) (pid_filename c) (show_help c) (show_version c) x (show_sizes c) (profile_optarg c) (tcp_specified c) (udp_specified c).
Definition set_show_sizes (x : bool) (c : conf) : conf := Conf (kept_settings c) (lock_page c) (daemonize c) (max_corefile c) (log_filename c) (verbose c) (stats_agg_intvl c) (klog_name c) (klog_backup c) (klog_sampling_rate c) (klog_entry c) (klog_intvl c) (klog_running c) (num_workers c) (username c) (reqs_per_event c) (maxconns c) (backlog c) (port c) (udpport c) (interface c) (socketpath c) (access c) (factor c) (chunk_size c) (max_chunk_size c) (accepting_conns c) (pid_filename c) (show_help c) (show_version c) (show_stats_description c) x (profile_optarg c) (tcp_specified c) (udp_specified c).
Definition set_profile_optarg (x : option (list Z)) (c : conf) : conf := Conf (kept_settings c) (lock_page c) (daemonize c) (max_corefile c) (log_filename c) (verbose c) (stats_agg_intvl c) (klog_name c) (klog_backup c) (klog_sampling_rate c) (klog_entry c) (klog_intvl c) (klog_running c) (num_workers c) (username c) (reqs_per_event c) (maxconns c) (backlog c) (port c) (udpport c) (interface c) (socketpath c) (access c) (factor c) (chunk_size c) (max_chunk_size c) (accepting_conns c) (pid_filename c) (show_help c) (show_version c) (show_stats_description c) (show_sizes c) x (tcp_specified c) (udp_specified c).
Definition set_tcp_specified (x : bool) (c : conf) : conf := Conf (kept_settings c) (lock_page c) (daemonize c) (max_corefile c) (log_filename c) (verbose c) (stats_agg_intvl c) (klog_name c) (klog_backup c) (klog_sampling_rate c) (klog_entry c) (klog_intvl c) (klog_running c) (num_workers c) (username c) (reqs_per_event c) (maxconns c) (backlog c) (port c) (udpport c) (interface c) (socketpath c) (access c) (factor c) (chunk_size c) (max_chunk_size c) (accepting_conns c) (pid_filename c) (show_help c) (show_version c) (show_stats_description c) (show_sizes c) (profile_optarg c) x (udp_specified c).
Definition set_udp_specified (x : bool) (c : conf) : conf := Conf (kept_settings c) (lock_page c) (daemonize c) (max_corefile c) (log_filename c) (verbose c) (stats_agg_intvl c) (klog_name c) (klog_backup c) (klog_sampling_rate c) (klog_entry c) (klog_intvl c) (klog_running c) (num_workers c) (username c) (reqs_per_event c) (maxconns c) (backlog c) (port c) (udpport c) (interface c) (socketpath c) (access c) (factor c) (chunk_size c) (max_chunk_size c) (accepting_conns c) (pid_filename c) (show_help c) (show_version c) (show_stats_description c) (show_sizes c) (profile_optarg c) (tcp_specified c) x.

(** The settings the store reads. *)

Definition with_prealloc (x : bool) (c : conf) : conf := let s := kept_settings c in set_kept_settings (Settings x (use_cas s) (evict_opt s) (use_freeq s) (use_lruq s) (maxbytes s) (slab_size_opt s) (hash_power_opt s) (oldest_live s) (profile s) (profile_last_id s) (reserved_percentage s) (reserved_maxbytes s) (lease_token_expiry s)) c.
Definition with_use_cas (x : bool) (c : conf) : conf := let s := kept_settings c in set_kept_settings (Settings (prealloc s) x (evict_opt s) (use_freeq s) (use_lruq s) (maxbytes s) (slab_size_opt s) (hash_power_opt s) (oldest_live s) (profile s) (profile_last_id s) (reserved_percentage s) (reserved_maxbytes s) (lease_token_expiry s)) c.
Definition with_evict_opt (x : Z) (c : conf) : conf := let s := kept_settings c in set_kept_settings (Settings (prealloc s) (use_cas s) x (use_freeq s) (use_lruq s) (maxbytes s) (slab_size_opt s) (hash_power_opt s) (oldest_live s) (profile s) (profile_last_id s) (reserved_percentage s) (reserved_maxbytes s) (lease_token_expiry s)) c.
Definition with_use_freeq (x : bool) (c : conf) : conf := let s := kept_settings c in set_kept_settings (Settings (prealloc s) (use_cas s) (evict_opt s) x (use_lruq s) (maxbytes s) (slab_size_opt s) (hash_power_opt s) (oldest_live s) (profile s) (profile_last_id s) (reserved_percentage s) (reserved_maxbytes s) (lease_token_expiry s)) c.
Definition with_use_lruq (x : bool) (c : conf) : conf := let s := kept_settings c in set_kept_settings (Settings (prealloc s) (use_cas s) (evict_opt s) (use_freeq s) x (maxbytes s) (slab_size_opt s) (hash_power_opt s) (oldest_live s) (profile s) (profile_last_id s) (reserved_percentage s) (reserved_maxbytes s) (lease_token_expiry s)) c.
Definition with_maxbytes (x : Z) (c : conf) : conf := let s := kept_settings c in set_kept_settings (Settings (prealloc s) (use_cas s) (evict_opt s) (use_freeq s) (use_lruq s) x (slab_size_opt s) (hash_power_opt s) (oldest_live s) (profile s) (profile_last_id s) (reserved_percentage s) (reserved_maxbytes s) (lease_token_expiry s)) c.
Definition with_slab_size_opt (x : Z) (c : conf) : conf := let s := kept_settings c in set_kept_settings (Settings (prealloc s) (use_cas s) (evict_opt s) (use_freeq s) (use_lruq s) (maxbytes s) x (hash_power_opt s) (oldest_live s) (profile s) (profile_last_id s) (reserved_percentage s) (reserved_maxbytes s) (lease_token_expiry s)) c.
Definition with_hash_power_opt (x : Z) (c : conf) : conf := let s := kept_settings c in set_kept_settings (Settings (prealloc s) (use_cas s) (evict_opt s) (use_freeq s) (use_lruq s) (maxbytes s) (slab_size_opt s) x (oldest_live s) (profile s) (profile_last_id s) (reserved_percentage s) (reserved_maxbytes s) (lease_token_expiry s)) c.
Definition with_oldest_live (x : Z) (c : conf) : conf := let s := kept_settings c in set_kept_settings (Settings (prealloc s) (use_cas s) (evict_opt s) (use_freeq s) (use_lruq s) (maxbytes s) (slab_size_opt s) (hash_power_opt s) x (profile s) (profile_last_id s) (reserved_percentage s) (reserved_maxbytes s) (lease_token_expiry s)) c.
Definition with_profile (x : list Z) (c : conf) : conf := let s := kept_settings c in set_kept_settings (Settings (prealloc s) (use_cas s) (evict_opt s) (use_freeq s) (use_lruq s) (maxbytes s) (slab_size_opt s) (hash_power_opt s) (oldest_live s) x (profile_last_id s) (reserved_percentage s) (reserved_maxbytes s) (lease_token_expiry s)) c.
Definition with_profile_last_id (x : Z) (c : conf) : conf := let s := kept_settings c in set_kept_settings (Settings (prealloc s) (use_cas s) (evict_opt s) (use_freeq s) (use_lruq s) (maxbytes s) (slab_size_opt s) (hash_power_opt s) (oldest_live s) (profile s) x (reserved_percentage s) (reserved_maxbytes s) (lease_token_expiry s)) c.
Definition with_reserved_percentage (x : Z) (c : conf) : conf := let s := kept_settings c in set_kept_settings (Settings (prealloc s) (use_cas s) (evict_opt s) (use_freeq s) (use_lruq s) (maxbytes s) (slab_size_opt s) (hash_power_opt s) (oldest_live s) (profile s) (profile_last_id s) x (reserved_maxbytes s) (lease_token_expiry s)) c.
Definition with_reserved_maxbytes (x : Z) (c : conf) : conf := let s := kept_settings c in set_kept_settings (Settings (prealloc s) (use_cas s) (evict_opt s) (use_freeq s) (use_lruq s) (maxbytes s) (slab_size_opt s) (hash_power_opt s) (oldest_live s) (profile s) (profile_last_id s) (reserved_percentage s) x (lease_token_expiry s)) c.
Definition with_lease_token_expiry (x : Z) (c : conf) : conf := let s := kept_settings c in set_kept_settings (Settings (prealloc s) (use_cas s) (evict_opt s) (use_freeq s) (use_lruq s) (maxbytes s) (slab_size_opt s) (hash_power_opt s) (oldest_live s) (profile s) (profile_last_id s) (reserved_percentage s) (reserved_maxbytes s) x) c.

(** ** Options *)

(** A call of [getopt_long]: the option and its argument, or [?] and the option
    that is in error. *)
Inductive getopt_result :=
  | Opt (c : Z) (optarg : option (list Z))
  | Bad (optopt : Z).

(** The options of [short_options] and [long_options]. *)
Definition short_options : list Z :=
  bytes "hVELkdrCDSovAxXytPuRcbpUlsaMfmnIzgG".

(** 1.25 *)
Definition MC_FACTOR : double := Double (5 * 2 ^ 50) (-52).

Definition mc_set_default_options : conf :=
  Conf (Settings false true EVICT_LRU true true (64 * MB) MB 0 0 (replicate SLABCLASS_MAX_IDS 0) SLABCLASS_MAX_ID 20 (64 * MB) 50)
    false false false None 5 100000 None None 100 512 1000 false 4 None 20 1024 1024 11211 11211 None None 448 MC_FACTOR ITEM_CHUNK_SIZE 0 true None
    false false false false None false false.

Section options.
(** [mc_enable_large_pages() == 0], [atof], and whether [mc_alloc] succeeds. *)
Context (large_pages : bool) (atof : list Z -> double) (allocated : bool).

Definition refuse : M conf rstatus := mret MC_ERROR.
Definition accept (f : conf -> conf) : M conf rstatus := modify f;; mret MC_OK.

(** A number, at least [min]. *)
Definition at_least (min : Z) (optarg : option (list Z)) (k : Z -> M conf rstatus) : M conf rstatus :=
  s ← lift optarg;
  value ← lift (_mc_atoi s);
  if value <? min then refuse else k value.

(** The suffix of a size: the length of the digits, and the factor. *)
Definition size_suffix (s : list Z) : option (nat * Z) :=
  match last s with
  | None => None
  | Some b => Some (if b =? 107 then ((length s - 1)%nat, KB) else if (b =? 109) || (b =? 77) then ((length s - 1)%nat, MB) else (length s, 1))
  end.

Definition slab_size_option (optarg : option (list Z)) : M conf rstatus :=
  s ← lift optarg;
  '(len, factor) ← lift (size_suffix s);
  value ← lift (_mc_atoi (take len s));
  if value <=? 0 then refuse
  else
    let slab_size := u64 (value * factor) in
    modify (with_slab_size_opt slab_size);;
    if negb (value mod MC_ALIGNMENT =? 0) then refuse
    else if slab_size <? SLAB_MIN_SIZE then refuse
    else if SLAB_MAX_SIZE <? slab_size then refuse
    else mret MC_OK.

Definition evict_option (value : Z) : M conf rstatus :=
  if (EVICT_INVALID <=? value) || (value <? EVICT_NONE) then refuse
  else
    modify (with_evict_opt value);;
    if value =? EVICT_CS then accept (fun c => with_use_lruq false (with_use_freeq false c)) else mret MC_OK.

(** The options of the item store, and any other, which is refused. *)
Definition store_option (c : Z) (optarg : option (list Z)) : M conf rstatus :=
  if c =? 77 then at_least 0 optarg evict_option
  else if c =? 102 then s ← lift optarg; modify (set_factor (atof s));; (if le_one (atof s) then refuse else mret MC_OK)
  else if c =? 109 then at_least 1 optarg (fun v => accept (with_maxbytes (u64 (v * 1024 * 1024))))
  else if c =? 103 then s ← lift optarg; v ← lift (_mc_atoi s); accept (with_reserved_percentage (u8 v))
  else if c =? 71 then at_least 0 optarg (fun v => accept (with_lease_token_expiry v))
  else if c =? 110 then at_least 1 optarg (fun v =>
    if v <? ITEM_MIN_CHUNK_SIZE then refuse
    else if negb (v mod MC_ALIGNMENT =? 0) then refuse else accept (set_chunk_size v))
  else if c =? 73 then slab_size_option optarg
  else if c =? 122 then accept (set_profile_optarg optarg)
  else refuse.

(** The options of the server with an argument. *)
Definition server_option (c : Z) (optarg : option (list Z)) : M conf rstatus :=
  if c =? 111 then accept (set_log_filename optarg)
  else if c =? 118 then at_least 0 optarg (fun v => accept (set_verbose v))
  else if c =? 65 then at_least 1 optarg (fun v =>
    if v <? STATS_MIN_INTVL then refuse else if STATS_MAX_INTVL <? v then refuse else accept (set_stats_agg_intvl v))
  else if c =? 101 then at_least 1 optarg (fun v =>
    if HASH_MAX_POWER <? v then refuse else accept (with_hash_power_opt v))
  else if c =? 120 then at_least 1 optarg (fun v => accept (set_klog_entry v))
  else if c =? 88 then
    modify (set_klog_name optarg);;
    s ← lift optarg;
    if allocated then accept (fun c => set_klog_running true (set_klog_backup (Some (s ++ bytes ".old")) c))
    else modify (set_klog_backup None);; refuse
  else if c =? 121 then at_least 1 optarg (fun v => accept (set_klog_sampling_rate v))
  else if c =? 116 then at_least 1 optarg (fun v => accept (set_num_workers v))
  else if c =? 80 then accept (set_pid_filename optarg)
  else if c =? 117 then accept (set_username optarg)
  else if c =? 82 then at_least 1 optarg (fun v => accept (set_reqs_per_event v))
  else if c =? 99 then at_least 1 optarg (fun v => accept (set_maxconns v))
  else if c =? 98 then at_least 1 optarg (fun v => accept (set_backlog v))
  else if c =? 112 then at_least 1 optarg (fun v => accept (fun c => set_tcp_specified true (set_port v c)))
  else if c =? 85 then at_least 1 optarg (fun v => accept (fun c => set_udp_specified true (set_udpport v c)))
  else if c =? 108 then accept (set_interface optarg)
  else if c =? 115 then accept (set_socketpath optarg)
  else if c =? 97 then s ← lift optarg; let '(ok, v) := mc_str2oct s in if (ok : bool) then accept (set_access v) else refuse
  else store_option c optarg.

Definition option_ (o : getopt_result) : M conf rstatus :=
  match o with
  | Bad _ => refuse
  | Opt c optarg =>
      if c =? 104 then accept (fun c => set_show_help true (set_show_version true c))
      else if c =? 86 then accept (set_show_version true)
      else if c =? 69 then accept (with_prealloc true)
      else if c =? 76 then (if large_pages then accept (with_prealloc true) else mret MC_OK)
      else if c =? 107 then accept (fun c => with_prealloc true (set_lock_page true c))
      else if c =? 100 then accept (set_daemonize true)
      else if c =? 114 then accept (set_max_corefile true)
      else if c =? 67 then accept (with_use_cas false)
      else if c =? 68 then accept (fun c => set_show_version true (set_show_stats_description true c))
      else if c =? 83 then accept (fun c => set_show_version true (set_show_sizes true c))
      else server_option c optarg
  end.

Fixpoint options_loop (opts : list getopt_result) : M conf rstatus :=
  match opts with
  | [] => mret MC_OK
  | o :: opts' => status ← option_ o; if bool_decide (status = MC_OK) then options_loop opts' else mret status
  end.

Definition reserve : M conf rstatus :=
  c ← gets kept_settings;
  if 0 <? reserved_percentage c then
    let bytes := u64 (maxbytes c * reserved_percentage c) / 100 in
    modify (with_reserved_maxbytes bytes);;
    if bytes <? 1024 * 1024 then refuse else mret MC_OK
  else mret MC_OK.

Definition mc_get_options (opts : list getopt_result) : M conf rstatus :=
  status ← options_loop opts;
  if negb (bool_decide (status = MC_OK)) then mret status
  else
    c ← gets id;
    (if tcp_specified c && negb (udp_specified c) then modify (set_udpport (port c))
     else when (udp_specified c && negb (tcp_specified c)) (modify (set_port (udpport c))));;
    reserve.
End options.

(** ** The slab profile *)

(** [profile[id] = size] *)
Definition put_size (id size : Z) : M conf unit :=
  l ← gets (fun c => profile (kept_settings c));
  if decide (Z.to_nat id < length l)%nat then modify (with_profile (<[Z.to_nat id := size]> l)) else undef.

Definition get_size (id : Z) : M conf Z :=
  l ← gets (fun c => profile (kept_settings c)); lift (l !! Z.to_nat id).

(** The while loop, with its last [id]. *)
Fixpoint generate_loop (fuel : nat) (id item_sz max_item_sz : Z) : M conf Z :=
  match fuel with
  | O => undef
  | S fuel' =>
      if (id <? SLABCLASS_MAX_ID) && (item_sz <? max_item_sz) then
        put_size id item_sz;;
        f ← gets factor;
        next ← lift (times item_sz f);
        let next := if next =? item_sz then u64 (next + 1) else next in
        generate_loop fuel' (u8 (id + 1)) (MC_ALIGN next MC_ALIGNMENT) max_item_sz
      else mret id
  end.

Definition mc_generate_profile : M conf rstatus :=
  c ← gets id;
  let max_item_sz := slab_size (kept_settings c) in
  last_id ← generate_loop SLABCLASS_MAX_IDS SLABCLASS_MIN_ID (chunk_size c) max_item_sz;
  put_size last_id max_item_sz;;
  modify (with_profile_last_id last_id);;
  modify (set_max_chunk_size max_item_sz);;
  mret MC_OK.

(** The position of the comma. *)
Fixpoint comma_at (s : list Z) : option nat :=
  match s with
  | [] => None
  | b :: s' => if b =? 44 then Some O else S <$> comma_at s'
  end.

(** The while loop: whether all sizes were read, and the last [id]; none when a
    size is refused. *)
Fixpoint parse_profile_loop (fuel : nat) (ptr : list Z) (id : Z) : M conf (option (bool * Z)) :=
  match fuel with
  | O => undef
  | S fuel' =>
      if id <? SLABCLASS_MAX_ID then
        let comma := comma_at ptr in
        let len := match comma with Some n => n | None => length ptr end in
        if (MC_UINT32_MAXLEN <=? len)%nat then mret None
        else
          let '(ok, item_sz) := mc_strtoul (take len ptr) in
          if negb ok then mret None
          else if negb (item_sz mod MC_ALIGNMENT =? 0) then mret None
          else if item_sz <? ITEM_MIN_CHUNK_SIZE then mret None
          else
            c ← gets kept_settings;
            if slab_size c <? item_sz then mret None
            else
              prev ← (if SLABCLASS_MIN_ID <=? id then get_size id else mret (-1));
              if item_sz <=? prev then mret None
              else
                put_size (u8 (id + 1)) item_sz;;
                match comma with
                | Some n => parse_profile_loop fuel' (drop (S n) ptr) (u8 (id + 1))
                | None => mret (Some (true, u8 (id + 1)))
                end
      else mret (Some (false, id))
  end.

Definition mc_parse_profile (profile_optarg : list Z) : M conf rstatus :=
  r ← parse_profile_loop SLABCLASS_MAX_IDS profile_optarg (SLABCLASS_MIN_ID - 1);
  match r with
  | None | Some (false, _) => refuse
  | Some (true, last_id) =>
      first ← get_size SLABCLASS_MIN_ID;
      modify (set_chunk_size first);;
      modify (with_profile_last_id last_id);;
      last ← get_size last_id;
      modify (set_max_chunk_size last);;
      c ← gets kept_settings;
      modify (with_reserved_maxbytes (u64 (maxbytes c * reserved_percentage c) / 100));;
      mret MC_OK
  end.

Definition mc_set_profile : M conf rstatus :=
  o ← gets profile_optarg;
  match o with Some s => mc_parse_profile s | None => mc_generate_profile end.

(** ** Start-up *)

(** What [main] asks of the operating system, and whether it is granted. *)
Record granted_ := Granted {
  g_maximize_core : bool;
  g_set_maxconns : bool;
  g_set_user : bool;
  g_daemonize : bool;
  g_create_pidfile : bool;
  g_lock_page : bool
}.

(** [main] exits with a code, or the server runs with these settings. *)
Inductive started :=
  | Exit (code : Z)
  | Running (c : conf).

Definition main (large_pages : bool) (atof : list Z -> double) (allocated : bool) (g : granted_) (opts : list getopt_result) : option started :=
  '(status, c) ← mc_get_options large_pages atof allocated opts mc_set_default_options;
  if negb (bool_decide (status = MC_OK)) then Some (Exit 1)
  else if show_version c then Some (Exit 0)
  else if max_corefile c && negb (g_maximize_core g) then Some (Exit 1)
  else if negb (g_set_maxconns g) then Some (Exit 1)
  else if negb (g_set_user g) then Some (Exit 1)
  else if daemonize c && negb (g_daemonize g) then Some (Exit 1)
  else if bool_decide (is_Some (pid_filename c)) && negb (g_create_pidfile g) then Some (Exit 1)
  else if lock_page c && negb (g_lock_page g) then Some (Exit 1)
  else
    '(status, c') ← mc_set_profile c;
    if negb (bool_decide (status = MC_OK)) then Some (Exit 1) else Some (Running c').
