(* ===== verification/Sys.v ===== *)
(** * Calls to the operating system

    The parts of the server that set it up talk to the operating system: a
    program is a tree of calls, each with its answers.  [world] is what the calls
    observe and change, and [answers] what the system may answer: every call can
    fail, and one that succeeds does what its manual page says.  A program
    satisfies [sat] when it ends properly however the system answers. *)

From stdpp Require Import gmap list.
From S2P Require Import Prelude Util Slabs.
Open Scope Z_scope.

(** ** Programs of calls *)

Section prog.
Context {C : Type} {R : C -> Type}.

Inductive prog (A : Type) : Type :=
  | Ret (a : A)
  | Do (c : C) (k : R c -> prog A)
  | Stuck.
Arguments Ret {A}.
Arguments Do {A}.
Arguments Stuck {A}.

Fixpoint prog_then {A B} (p : prog A) (f : A -> prog B) : prog B :=
  match p with
  | Ret a => f a
  | Do c k => Do c (fun r => prog_then (k r) f)
  | Stuck => Stuck
  end.

#[export] Instance prog_ret : MRet prog := fun A a => Ret a.
#[export] Instance prog_bind : MBind prog := fun A B f p => prog_then p f.

Definition call_ (c : C) : prog (R c) := Do c Ret.

(** Whatever the answers are. *)
Section sat.
Context {W : Type} (answers : forall c, W -> R c -> W -> Prop).

Fixpoint sat {A} (p : prog A) (Q : A -> W -> Prop) (w : W) : Prop :=
  match p with
  | Ret a => Q a w
  | Do c k => forall r w', answers c w r w' -> sat (k r) Q w'
  | Stuck => False
  end.

Lemma sat_bind {A B} (p : prog A) (f : A -> prog B) Q : forall w,
  sat p (fun a w' => sat (f a) Q w') w -> sat (p ≫= f) Q w.
Proof. induction p as [a|c k IH|]; intros w Hs; [exact Hs| |done]. intros r w' Ha. apply IH. by apply Hs. Qed.

Lemma sat_mono {A} (p : prog A) (P Q : A -> W -> Prop) : forall w,
  sat p P w -> (forall a w', P a w' -> Q a w') -> sat p Q w.
Proof. induction p as [a|c k IH|]; intros w Hs HPQ; [by apply HPQ| |done]. intros r w' Ha. apply IH; [by apply Hs|done]. Qed.

Lemma sat_ret {A} (a : A) Q (w : W) : Q a w -> sat (mret a) Q w.
Proof. done. Qed.

Lemma sat_call c Q (w : W) : (forall r w', answers c w r w' -> Q r w') -> sat (call_ c) Q w.
Proof. done. Qed.

Lemma sat_sys {B} c (f : R c -> prog B) Q (w : W) : (forall r w', answers c w r w' -> sat (f r) Q w') -> sat (call_ c ≫= f) Q w.
Proof. done. Qed.

(** A system that answers in one way, and may end the program. *)
Inductive outcome (A : Type) := Returned (a : A) (w : W) | Gone | Wrong.
Arguments Returned {A}.
Arguments Gone {A}.
Arguments Wrong {A}.

Fixpoint exec {A} (h : forall c, W -> option (R c * W)) (p : prog A) (w : W) : outcome A :=
  match p with
  | Ret a => Returned a w
  | Do c k => match h c w with Some (r, w') => exec h (k r) w' | None => Gone end
  | Stuck => Wrong
  end.

Lemma sat_exec {A} h (p : prog A) Q : (forall c w r w', h c w = Some (r, w') -> answers c w r w') -> forall w,
  sat p Q w -> match exec h p w with Returned a w' => Q a w' | Gone => True | Wrong => False end.
Proof.
  intros Hh. induction p as [a|c k IH|]; intros w Hs; [done| |done]. cbn. destruct (h c w) as [[r w']|] eqn:E; [|done]. apply IH, Hs, Hh, E.
Qed.
End sat.
End prog.
Arguments Returned {W A}.
Arguments Gone {W A}.
Arguments Wrong {W A}.
Arguments prog {C} R A.
Arguments Ret {C R A}.
Arguments Do {C R A}.
Arguments Stuck {C R A}.

(** The next call of the program. *)
Ltac sys_call := lazymatch goal with |- sat ?a (mbind ?f (call_ ?c)) ?Q ?w => refine (sat_sys a c f Q w _) end.

(** ** The calls *)

Inductive family := AF_INET | AF_INET6 | AF_UNIX | AF_OTHER.
Inductive socktype := SOCK_STREAM | SOCK_DGRAM.
Record addrinfo := AddrInfo { ai_family : family; ai_socktype : socktype; ai_protocol : Z; ai_addr : list Z }.
Inductive sockopt := SO_REUSEADDR | SO_KEEPALIVE | SO_LINGER | SO_SNDBUF | SO_RCVBUF | SO_ERROR | TCP_NODELAY | IPV6_V6ONLY.
Inductive optval := IntVal (n : Z) | LingerVal (l_onoff l_linger : Z).
Inductive open_mode := AppendCreate | CreateTrunc | ReadWrite.
Inductive resource := RLIMIT_CORE | RLIMIT_NOFILE.
Record rlimit := RLimit { rlim_cur : Z; rlim_max : Z }.
Inductive handler := SIG_DFL | SIG_IGN | signal_handler_ | sigpipe_handler_.

#[export] Instance family_eq_dec : EqDecision family.
Proof. solve_decision. Defined.
#[export] Instance resource_eq_dec : EqDecision resource.
Proof. solve_decision. Defined.
#[export] Instance sockopt_eq_dec : EqDecision sockopt.
Proof. solve_decision. Defined.

Definition STDIN_FILENO : Z := 0.
Definition STDOUT_FILENO : Z := 1.
Definition STDERR_FILENO : Z := 2.
Definition O_NONBLOCK : Z := 2048.
Definition RLIM_INFINITY : Z := 2 ^ 64 - 1.

(** The last ones are functions of the server ([Pool] has them) that the code
    here calls: they may find no memory, or fail to reach a thread or libevent. *)
Inductive call :=
  | Open (path : list Z) (mode : open_mode)
  | Close (fd : Z)
  | Write (fd : Z) (bs : list Z)
  | Unlink (path : list Z)
  | Dup2 (old new : Z)
  | Umask (m : Z)
  | Chdir (path : list Z)
  | Fork
  | Setsid
  | Exit_ (code : Z)
  | Abort_
  | Getpid
  | Getrlimit (r : resource)
  | Setrlimit (r : resource) (l : rlimit)
  | Getuid
  | Geteuid
  | Getpwnam (name : list Z)
  | Setgid (g : Z)
  | Setuid (u : Z)
  | Mlockall
  | Sigaction (signo : Z) (h : handler) (flags : Z)
  | Raise (signo : Z)
  | Localtime
  | Socket (f : family) (t : socktype) (protocol : Z)
  | Getfl (fd : Z)
  | Setfl (fd flags : Z)
  | Setsockopt (fd : Z) (o : sockopt) (v : optval)
  | Getsockopt (fd : Z) (o : sockopt)
  | Bind (fd : Z) (addr : list Z)
  | Listen (fd backlog : Z)
  | Getaddrinfo (node : option (list Z)) (service : list Z) (t : socktype)
  | Freeaddrinfo
  | Conn_get (sd : Z) (udp : bool)
  | Conn_put (c : Z)
  | Conn_set_event (c : Z)
  | Thread_dispatch (sd : Z).

(** [bind] also tells whether [errno] is EADDRINUSE; [localtime] is the line that
    [asctime] makes of it. *)
Definition answer (c : call) : Type :=
  match c with
  | Exit_ _ | Abort_ => Empty_set
  | Getrlimit _ => Z * rlimit
  | Getpwnam _ => option (Z * Z)
  | Localtime => list Z
  | Getsockopt _ _ => Z * Z
  | Bind _ _ => Z * bool
  | Getaddrinfo _ _ _ => Z * list addrinfo
  | Freeaddrinfo | Conn_put _ => unit
  | Conn_get _ _ => option Z
  | Conn_set_event _ => bool
  | Thread_dispatch _ => rstatus
  | _ => Z
  end.

Notation io := (prog answer).
Notation sys c := (call_ (R := answer) c).

(** ** The world *)

(** An open file: its path unless it is a socket, and what was done to it. *)
Record file := File {
  f_path : option (list Z);
  f_flags : Z;
  f_bound : bool;
  f_backlog : option Z;
  f_sndbuf : Z
}.

(** [w_conns] are the connections in use with their sockets, [w_events] those
    libevent watches, [w_addrs] the lists of addresses not freed, and [w_passwd] the
    users and groups of the names. *)
Record world := World {
  w_fds : gmap Z file;
  w_files : gmap (list Z) (list Z);
  w_umask : Z;
  w_cwd : list Z;
  w_leader : bool;
  w_tty : bool;
  w_uid : Z;
  w_euid : Z;
  w_gid : Z;
  w_nofile : rlimit;
  w_core : rlimit;
  w_handlers : gmap Z handler;
  w_conns : gmap Z Z;
  w_events : gset Z;
  w_addrs : Z;
  w_passwd : gmap (list Z) (Z * Z)
}.

Definition set_w_fds x w := World x (w_files w) (w_umask w) (w_cwd w) (w_leader w) (w_tty w) (w_uid w) (w_euid w) (w_gid w) (w_nofile w) (w_core w) (w_handlers w) (w_conns w) (w_events w) (w_addrs w) (w_passwd w).
Definition set_w_files x w := World (w_fds w) x (w_umask w) (w_cwd w) (w_leader w) (w_tty w) (w_uid w) (w_euid w) (w_gid w) (w_nofile w) (w_core w) (w_handlers w) (w_conns w) (w_events w) (w_addrs w) (w_passwd w).
Definition set_w_umask x w := World (w_fds w) (w_files w) x (w_cwd w) (w_leader w) (w_tty w) (w_uid w) (w_euid w) (w_gid w) (w_nofile w) (w_core w) (w_handlers w) (w_conns w) (w_events w) (w_addrs w) (w_passwd w).
Definition set_w_cwd x w := World (w_fds w) (w_files w) (w_umask w) x (w_leader w) (w_tty w) (w_uid w) (w_euid w) (w_gid w) (w_nofile w) (w_core w) (w_handlers w) (w_conns w) (w_events w) (w_addrs w) (w_passwd w).
Definition set_w_leader x w := World (w_fds w) (w_files w) (w_umask w) (w_cwd w) x (w_tty w) (w_uid w) (w_euid w) (w_gid w) (w_nofile w) (w_core w) (w_handlers w) (w_conns w) (w_events w) (w_addrs w) (w_passwd w).
Definition set_w_tty x w := World (w_fds w) (w_files w) (w_umask w) (w_cwd w) (w_leader w) x (w_uid w) (w_euid w) (w_gid w) (w_nofile w) (w_core w) (w_handlers w) (w_conns w) (w_events w) (w_addrs w) (w_passwd w).
Definition set_w_uid x w := World (w_fds w) (w_files w) (w_umask w) (w_cwd w) (w_leader w) (w_tty w) x (w_euid w) (w_gid w) (w_nofile w) (w_core w) (w_handlers w) (w_conns w) (w_events w) (w_addrs w) (w_passwd w).
Definition set_w_euid x w := World (w_fds w) (w_files w) (w_umask w) (w_cwd w) (w_leader w) (w_tty w) (w_uid w) x (w_gid w) (w_nofile w) (w_core w) (w_handlers w) (w_conns w) (w_events w) (w_addrs w) (w_passwd w).
Definition set_w_gid x w := World (w_fds w) (w_files w) (w_umask w) (w_cwd w) (w_leader w) (w_tty w) (w_uid w) (w_euid w) x (w_nofile w) (w_core w) (w_handlers w) (w_conns w) (w_events w) (w_addrs w) (w_passwd w).
Definition set_w_nofile x w := World (w_fds w) (w_files w) (w_umask w) (w_cwd w) (w_leader w) (w_tty w) (w_uid w) (w_euid w) (w_gid w) x (w_core w) (w_handlers w) (w_conns w) (w_events w) (w_addrs w) (w_passwd w).
Definition set_w_core x w := World (w_fds w) (w_files w) (w_umask w) (w_cwd w) (w_leader w) (w_tty w) (w_uid w) (w_euid w) (w_gid w) (w_nofile w) x (w_handlers w) (w_conns w) (w_events w) (w_addrs w) (w_passwd w).
Definition set_w_handlers x w := World (w_fds w) (w_files w) (w_umask w) (w_cwd w) (w_leader w) (w_tty w) (w_uid w) (w_euid w) (w_gid w) (w_nofile w) (w_core w) x (w_conns w) (w_events w) (w_addrs w) (w_passwd w).
Definition set_w_conns x w := World (w_fds w) (w_files w) (w_umask w) (w_cwd w) (w_leader w) (w_tty w) (w_uid w) (w_euid w) (w_gid w) (w_nofile w) (w_core w) (w_handlers w) x (w_events w) (w_addrs w) (w_passwd w).
Definition set_w_events x w := World (w_fds w) (w_files w) (w_umask w) (w_cwd w) (w_leader w) (w_tty w) (w_uid w) (w_euid w) (w_gid w) (w_nofile w) (w_core w) (w_handlers w) (w_conns w) x (w_addrs w) (w_passwd w).
Definition set_w_addrs x w := World (w_fds w) (w_files w) (w_umask w) (w_cwd w) (w_leader w) (w_tty w) (w_uid w) (w_euid w) (w_gid w) (w_nofile w) (w_core w) (w_handlers w) (w_conns w) (w_events w) x (w_passwd w).

(** ** What the system may answer *)

Definition fails (r : Z) (w w' : world) : Prop := r = -1 /\ w' = w.

(** The lowest descriptor that is not open. *)
Definition lowest_free (w : world) (fd : Z) : Prop :=
  0 <= fd /\ w_fds w !! fd = None /\ forall i, 0 <= i < fd -> is_Some (w_fds w !! i).

(** It, among the first 1024. *)
Definition free_fd (w : world) : option Z := snd <$> list_find (fun fd => w_fds w !! fd = None) (seqZ 0 1024).

Lemma free_fd_lowest w fd : free_fd w = Some fd -> lowest_free w fd.
Proof.
  unfold free_fd. intros E. apply fmap_Some in E as ([i x] & Hx & ->). cbn. apply list_find_Some in Hx as (Hi & Hn & Hlt). apply lookup_seqZ in Hi as [-> Hi].
  split; [lia|]. split; [done|]. intros j Hj. destruct (w_fds w !! j) eqn:Ej; [done|]. exfalso.
  refine (Hlt (Z.to_nat j) j _ _ Ej); [apply lookup_seqZ|]; lia.
Qed.

Definition upd_file (fd : Z) (f : file -> file) (w : world) : world := set_w_fds (alter f fd (w_fds w)) w.
Definition is_open (w : world) (fd : Z) : Prop := is_Some (w_fds w !! fd).

(** On success, which needs [fd] to be open, the file is changed by [f]. *)
Definition on_file (fd : Z) (f : file -> file) (r : Z) (w w' : world) : Prop :=
  fails r w w' \/ (r = 0 /\ is_open w fd /\ w' = upd_file fd f w).

Definition set_flags_ x f := File (f_path f) x (f_bound f) (f_backlog f) (f_sndbuf f).
Definition set_bound f := File (f_path f) (f_flags f) true (f_backlog f) (f_sndbuf f).
Definition set_backlog_ x f := File (f_path f) (f_flags f) (f_bound f) (Some x) (f_sndbuf f).
Definition set_sndbuf x f := File (f_path f) (f_flags f) (f_bound f) (f_backlog f) x.

Definition set_rlimit (r : resource) (l : rlimit) : world -> world :=
  match r with RLIMIT_CORE => set_w_core l | RLIMIT_NOFILE => set_w_nofile l end.
Definition get_rlimit (r : resource) : world -> rlimit :=
  match r with RLIMIT_CORE => w_core | RLIMIT_NOFILE => w_nofile end.

Definition open_file (path : list Z) (mode : open_mode) (fd : Z) (w : world) : world :=
  let old := match mode with CreateTrunc => [] | _ => default [] (w_files w !! path) end in
  set_w_files (<[path := old]> (w_files w)) (set_w_fds (<[fd := File (Some path) 0 false None 0]> (w_fds w)) w).

Definition written (fd : Z) (bs : list Z) (w : world) : world :=
  match w_fds w !! fd ≫= f_path with
  | Some path => set_w_files (<[path := default [] (w_files w !! path) ++ bs]> (w_files w)) w
  | None => w
  end.

Definition new_conn (sd c : Z) (w w' : world) : Prop := w_conns w !! c = None /\ w' = set_w_conns (<[c := sd]> (w_conns w)) w.

Definition answers (c : call) (w : world) : answer c -> world -> Prop :=
  match c return answer c -> world -> Prop with
  | Open path mode => fun r w' => fails r w w' \/ (lowest_free w r /\ w' = open_file path mode r w)
  | Close fd => fun r w' => (r = 0 \/ r = -1) /\ w' = set_w_fds (delete fd (w_fds w)) w
  | Write fd bs => fun r w' => fails r w w' \/
      (is_open w fd /\ 0 <= r <= Z.of_nat (length bs) /\ w' = written fd (take (Z.to_nat r) bs) w)
  | Unlink path => fun r w' => fails r w w' \/ (r = 0 /\ w' = set_w_files (delete path (w_files w)) w)
  | Dup2 old new => fun r w' => fails r w w' \/
      exists f, w_fds w !! old = Some f /\ 0 <= new /\ r = new /\ w' = set_w_fds (<[new := f]> (w_fds w)) w
  | Umask m => fun r w' => r = w_umask w /\ w' = set_w_umask (Z.land m 511) w
  | Chdir path => fun r w' => fails r w w' \/ (r = 0 /\ w' = set_w_cwd path w)
  | Fork => fun r w' => fails r w w' \/ (r = 0 /\ w' = set_w_leader false w) \/ (0 < r /\ w' = w)
  | Setsid => fun r w' => fails r w w' \/ (0 < r /\ w' = set_w_tty false (set_w_leader true w))
  | Exit_ _ | Abort_ => fun _ _ => True
  | Getpid => fun r w' => 0 < r < 2 ^ 31 /\ w' = w
  | Getrlimit res => fun r w' => w' = w /\ (r.1 = -1 \/ r = (0, get_rlimit res w))
  | Setrlimit res l => fun r w' => fails r w w' \/ (r = 0 /\ rlim_cur l <= rlim_max l /\ w' = set_rlimit res l w)
  | Getuid => fun r w' => r = w_uid w /\ w' = w
  | Geteuid => fun r w' => r = w_euid w /\ w' = w
  | Getpwnam name => fun r w' => (r = None \/ r = w_passwd w !! name) /\ w' = w
  | Setgid g => fun r w' => fails r w w' \/ (r = 0 /\ w' = set_w_gid g w)
  | Setuid u => fun r w' => fails r w w' \/
      (r = 0 /\ w' = set_w_euid u (if w_euid w =? 0 then set_w_uid u w else w))
  | Mlockall => fun r w' => (r = 0 \/ r = -1) /\ w' = w
  | Sigaction signo h _ => fun r w' => fails r w w' \/ (r = 0 /\ w' = set_w_handlers (<[signo := h]> (w_handlers w)) w)
  | Raise _ => fun r w' => r = 0 /\ w' = w
  | Localtime => fun r w' => length r = 25%nat /\ w' = w
  | Socket _ _ _ => fun r w' => fails r w w' \/
      (lowest_free w r /\ exists n, 0 <= n /\ w' = set_w_fds (<[r := File None 0 false None n]> (w_fds w)) w)
  | Getfl fd => fun r w' => fails r w w' \/ exists f, w_fds w !! fd = Some f /\ r = f_flags f /\ w' = w
  | Setfl fd flags => fun r w' => on_file fd (set_flags_ flags) r w w'
  | Setsockopt fd o v => fun r w' => on_file fd (match o, v with SO_SNDBUF, IntVal n => set_sndbuf n | _, _ => id end) r w w'
  | Getsockopt fd o => fun r w' => w' = w /\ (r.1 = -1 \/ exists f, w_fds w !! fd = Some f /\ r.1 = 0 /\ (o = SO_SNDBUF -> r.2 = f_sndbuf f))
  | Bind fd _ => fun r w' => on_file fd set_bound r.1 w w'
  | Listen fd backlog => fun r w' => on_file fd (set_backlog_ backlog) r w w'
  | Getaddrinfo _ _ t => fun r w' => (r.1 <> 0 /\ w' = w) \/
      (r.1 = 0 /\ Forall (fun a => ai_socktype a = t) r.2 /\ w' = set_w_addrs (w_addrs w + 1) w)
  | Freeaddrinfo => fun _ w' => w' = set_w_addrs (w_addrs w - 1) w
  | Conn_get sd _ => fun r w' => match r with Some c => new_conn sd c w w' | None => w' = w end
  | Conn_put c => fun _ w' => w' = set_w_conns (delete c (w_conns w)) w
  | Conn_set_event c => fun r w' => w' = if r then set_w_events ({[c]} ∪ w_events w) w else w
  | Thread_dispatch sd => fun r w' =>
      match r with MC_OK | MC_ERROR => exists c, new_conn sd c w w' | _ => w' = w end
  end.
