(* ===== verification/Log.v ===== *)
(** * The log and the signals (mc_log.c, mc_signal.c)

    The lines of the log are made in buffers of fixed size by [_scnprintf]; the log
    file is opened again and the level changed when a signal asks for it.
    [errno] is left out: the text of an error is given, and so are the symbols of
    a backtrace.  Debug messages ([log_debug]) are not compiled in. *)

From stdpp Require Import gmap list strings.
From S2P Require Import Prelude Util Slabs Sys.
Open Scope Z_scope.

Definition LOG_EMERG : Z := 0.
Definition LOG_ALERT : Z := 1.
Definition LOG_WARN : Z := 4.
Definition LOG_PVERB : Z := 11.
Definition LOG_MAX_LEN : Z := 256.

Record logger := Logger {
  l_name : option (list Z);
  l_level : Z;
  l_fd : Z;
  l_nerror : Z
}.
Definition set_level x l := Logger (l_name l) x (l_fd l) (l_nerror l).
Definition set_fd x l := Logger (l_name l) (l_level l) x (l_nerror l).
Definition set_nerror x l := Logger (l_name l) (l_level l) (l_fd l) x.

(** ** Buffers *)

(** Bytes from [off] on; outside of the buffer this is undefined. *)
Definition put_bytes (buf : list Z) (off : Z) (bs : list Z) : option (list Z) :=
  if decide (0 <= off /\ off + Z.of_nat (length bs) <= Z.of_nat (length buf)) then
    Some (take (Z.to_nat off) buf ++ bs ++ drop (Z.to_nat off + length bs) buf)
  else None.

(** What [vsnprintf] stores and answers, [text] being what the format makes of the
    arguments. *)
Definition vsnprintf (buf : list Z) (off size : Z) (text : list Z) : option (list Z * Z) :=
  let n := Z.of_nat (length text) in
  buf' ← (if size =? 0 then Some buf else put_bytes buf off (take (Z.to_nat (size - 1)) text ++ [0]));
  Some (buf', if n <=? INT_MAX then n else -1).

Definition _scnprintf (buf : list Z) (off size : Z) (text : list Z) : option (list Z * Z) :=
  '(buf', i) ← vsnprintf buf off size text;
  Some (buf', _vscnprintf i size).

(** [len += mc_scnprintf(buf + len, size - len, ...)] *)
Definition emit (size : Z) (text : list Z) (st : list Z * Z) : option (list Z * Z) :=
  let '(buf, len) := st in
  '(buf', n) ← _scnprintf buf len (size - len) text;
  Some (buf', len + n).

(** [buf[len++] = c], then the bytes to write. *)
Definition finish_line (st : list Z * Z) : option (list Z) :=
  let '(buf, len) := st in
  buf' ← put_bytes buf len [10];
  Some (take (Z.to_nat (len + 1)) buf').

Definition fresh_buf (size : Z) : list Z * Z := (replicate (Z.to_nat size) 0, 0).

(** ["[%.*s] %s:%d "] *)
Definition log_head (timestr file : list Z) (line : Z) : list Z :=
  bytes "[" ++ take (length timestr - 1) timestr ++ bytes "] " ++ file ++ bytes ":" ++ print_int line ++ bytes " ".

Definition log_line (timestr file : list Z) (line : Z) (msg : list Z) : option (list Z) :=
  st ← emit LOG_MAX_LEN (log_head timestr file line) (fresh_buf LOG_MAX_LEN);
  st ← emit LOG_MAX_LEN msg st;
  finish_line st.

Definition log_stderr_line (msg : list Z) : option (list Z) :=
  st ← emit (4 * LOG_MAX_LEN) msg (fresh_buf (4 * LOG_MAX_LEN));
  finish_line st.

(** ** The hexadecimal dump *)

Definition hexdigit (n : Z) : Z := if n <? 10 then 48 + n else 87 + n.
Fixpoint hex_rev (w : nat) (n : Z) : list Z :=
  match w with O => [] | S w' => hexdigit (n mod 16) :: hex_rev w' (n / 16) end.
(** ["%0wx"] of a number of at most [w] digits. *)
Definition print_hex (w : nat) (n : Z) : list Z := reverse (hex_rev w n).
Definition isprint (c : Z) : bool := (32 <=? c) && (c <=? 126).
Definition sep (i : Z) : list Z := if i =? 7 then bytes "  " else bytes " ".

Notation DUMP_LEN := (8 * LOG_MAX_LEN).

(** The three loops over a line of sixteen bytes; the first gives [i], the last
    what is left of the data. *)
Fixpoint hex_loop (data : list Z) (i : Z) (st : list Z * Z) : option (Z * (list Z * Z)) :=
  match data with
  | c :: data' => if i <? 16 then st ← emit DUMP_LEN (print_hex 2 c ++ sep i) st; hex_loop data' (i + 1) st else Some (i, st)
  | [] => Some (i, st)
  end.
Fixpoint pad_loop (n : nat) (i : Z) (st : list Z * Z) : option (list Z * Z) :=
  match n with
  | O => Some st
  | S n' => st ← emit DUMP_LEN (bytes "  " ++ sep i) st; pad_loop n' (i + 1) st
  end.
Fixpoint chars_loop (data : list Z) (i : Z) (st : list Z * Z) : option (list Z * (list Z * Z)) :=
  match data with
  | c :: data' => if i <? 16 then st ← emit DUMP_LEN [if isprint c then c else 46] st; chars_loop data' (i + 1) st else Some (data, st)
  | [] => Some ([], st)
  end.

Definition dump_row (data : list Z) (off : Z) (st : list Z * Z) : option (list Z * (list Z * Z)) :=
  st ← emit DUMP_LEN (print_hex 8 off ++ bytes "  ") st;
  '(i, st) ← hex_loop data 0 st;
  st ← pad_loop (Z.to_nat (16 - i)) i st;
  st ← emit DUMP_LEN (bytes "  |") st;
  '(data', st) ← chars_loop data 0 st;
  st ← emit DUMP_LEN (bytes "|" ++ [10]) st;
  Some (data', st).

(** Each row takes a byte at least. *)
Fixpoint rows_loop (fuel : nat) (data : list Z) (off : Z) (st : list Z * Z) : option (list Z * Z) :=
  if bool_decide (data <> []) && (st.2 <? DUMP_LEN - 1) then
    match fuel with
    | O => None
    | S fuel' => '(data', st) ← dump_row data off st; rows_loop fuel' data' (off + 16) st
    end
  else Some st.

Definition hexdump (data : list Z) : option (list Z) :=
  '(buf, len) ← rows_loop (length data) data 0 (fresh_buf DUMP_LEN);
  Some (take (Z.to_nat len) buf).

(** ** The log *)

Definition of_option {A} (o : option A) : io A := match o with Some a => mret a | None => Stuck end.

Definition write_log (fd : Z) (bs : list Z) (l : logger) : io logger :=
  n ← sys (Write fd bs);
  mret (if n <? 0 then set_nerror (s32 (l_nerror l + 1)) l else l).

Definition _log (file : list Z) (line : Z) (panic : bool) (msg : list Z) (l : logger) : io logger :=
  if l_fd l <? 0 then mret l
  else
    timestr ← sys Localtime;
    bs ← of_option (log_line timestr file line msg);
    l ← write_log (l_fd l) bs l;
    if panic then r ← sys Abort_; match r : Empty_set with end else mret l.

Definition _log_stderr (msg : list Z) (l : logger) : io logger :=
  bs ← of_option (log_stderr_line msg);
  write_log STDERR_FILENO bs l.

Definition _log_hexdump (data : list Z) (l : logger) : io logger :=
  if l_fd l <? 0 then mret l
  else bs ← of_option (hexdump data); write_log (l_fd l) bs l.

Definition log_loggable (level : Z) (l : logger) : bool := negb (l_level l <? level).

Definition log_error (file : list Z) (line : Z) (msg : list Z) (l : logger) : io logger :=
  if log_loggable LOG_ALERT l then _log file line false msg l else mret l.
Definition log_warn (file : list Z) (line : Z) (msg : list Z) (l : logger) : io logger :=
  if log_loggable LOG_WARN l then _log file line false msg l else mret l.
Definition log_panic (file : list Z) (line : Z) (msg : list Z) (l : logger) : io logger :=
  if log_loggable LOG_EMERG l then _log file line true msg l else mret l.

Definition clamp_level (level : Z) : Z := Z.max LOG_EMERG (Z.min level LOG_PVERB).

(** A level is set in the logger that is there, and the count of errors kept. *)
Definition log_init (strerror : list Z) (level : Z) (name : option (list Z)) (l : logger) : io (Z * logger) :=
  let l := Logger name (clamp_level level) (l_fd l) (l_nerror l) in
  match name with
  | None | Some [] => mret (0, set_fd STDERR_FILENO l)
  | Some path =>
      fd ← sys (Open path AppendCreate);
      let l := set_fd fd l in
      if fd <? 0 then
        l ← _log_stderr (bytes "opening log file '" ++ path ++ bytes "' failed: " ++ strerror) l; mret (-1, l)
      else mret (0, l)
  end.

Definition log_deinit (l : logger) : io unit :=
  if negb (l_fd l =? STDERR_FILENO) then sys (Close (l_fd l));; mret tt else mret tt.

(** A logger that is not on the standard error has a name. *)
Definition log_reopen (strerror : list Z) (l : logger) : io logger :=
  if negb (l_fd l =? STDERR_FILENO) then
    sys (Close (l_fd l));;
    match l_name l with
    | None => Stuck
    | Some path =>
        fd ← sys (Open path AppendCreate);
        let l := set_fd fd l in
        if fd <? 0 then _log_stderr (bytes "reopening log file '" ++ path ++ bytes "' failed, ignored: " ++ strerror) l
        else mret l
    end
  else mret l.

Definition mc_log_c : list Z := bytes "mc_log.c".

Definition log_level_up (l : logger) : io logger :=
  if l_level l <? LOG_PVERB then
    let l := set_level (l_level l + 1) l in _log mc_log_c 94 false (bytes "up log level to " ++ print_int (l_level l)) l
  else mret l.
Definition log_level_down (l : logger) : io logger :=
  if LOG_EMERG <? l_level l then
    let l := set_level (l_level l - 1) l in _log mc_log_c 105 false (bytes "down log level to " ++ print_int (l_level l)) l
  else mret l.
Definition log_level_set (level : Z) (l : logger) : io logger :=
  let l := set_level (clamp_level level) l in _log mc_log_c 115 false (bytes "set log level to " ++ print_int (l_level l)) l.

(** ** Signals *)

Definition SIGHUP : Z := 1.
Definition SIGINT : Z := 2.
Definition SIGUSR1 : Z := 10.
Definition SIGSEGV : Z := 11.
Definition SIGUSR2 : Z := 12.
Definition SIGPIPE : Z := 13.
Definition SIGTTIN : Z := 21.
Definition SIGTTOU : Z := 22.
Definition SA_RESETHAND : Z := 0x80000000.

Record signal := Signal { signo : Z; signame : list Z; flags : Z; sig_handler : handler }.

Definition signals : list signal := [
  Signal SIGUSR1 (bytes "SIGUSR1") 0 signal_handler_;
  Signal SIGUSR2 (bytes "SIGUSR2") 0 signal_handler_;
  Signal SIGTTIN (bytes "SIGTTIN") 0 signal_handler_;
  Signal SIGTTOU (bytes "SIGTTOU") 0 signal_handler_;
  Signal SIGHUP (bytes "SIGHUP") 0 signal_handler_;
  Signal SIGINT (bytes "SIGINT") 0 signal_handler_;
  Signal SIGSEGV (bytes "SIGSEGV") SA_RESETHAND signal_handler_;
  Signal SIGPIPE (bytes "SIGPIPE") 0 sigpipe_handler_].

Section signals.
Context (strerror : list Z) (symbols : option (list (list Z))).

Fixpoint signal_loop (sigs : list signal) (l : logger) : io (rstatus * logger) :=
  match sigs with
  | [] => mret (MC_OK, l)
  | sig :: sigs' =>
      status ← sys (Sigaction (signo sig) (sig_handler sig) (flags sig));
      if status <? 0 then
        l ← log_error (bytes "mc_signal.c") 63 (bytes "sigaction(" ++ signame sig ++ bytes ") failed: " ++ strerror) l;
        mret (MC_ERROR, l)
      else signal_loop sigs' l
  end.
Definition signal_init (l : logger) : io (rstatus * logger) := signal_loop signals l.

Fixpoint stack_loop (syms : list (list Z)) (j : Z) (l : logger) : io logger :=
  match syms with
  | [] => mret l
  | sym :: syms' =>
      l ← _log (bytes "mc_util.c") 619 false (bytes "[" ++ print_int j ++ bytes "] " ++ sym) l;
      stack_loop syms' (j + 1) l
  end.
Definition mc_stacktrace (skip_count : nat) (l : logger) : io logger :=
  match symbols with
  | None => mret l
  | Some syms => stack_loop (drop (S skip_count) syms) 0 l
  end.

(** [ASSERT(sig->signo != 0)] and [NOT_REACHED()] fail on a signal that is not in
    the table. *)
Definition signal_handler (signo_ : Z) (l : logger) : io logger :=
  if existsb (fun sig => signo sig =? signo_) signals then
    if (signo_ =? SIGUSR1) || (signo_ =? SIGUSR2) then mret l
    else if signo_ =? SIGTTIN then log_level_up l
    else if signo_ =? SIGTTOU then log_level_down l
    else if signo_ =? SIGHUP then log_reopen strerror l
    else if signo_ =? SIGINT then r ← sys (Exit_ 1); match r : Empty_set with end
    else if signo_ =? SIGSEGV then l ← mc_stacktrace 1 l; sys (Raise SIGSEGV);; mret l
    else Stuck
  else Stuck.

Definition sigpipe_handler (l : logger) : io logger := mret l.

(** A signal of the table arrives. *)
Definition deliver (sig : signal) (l : logger) : io logger :=
  match sig_handler sig with
  | signal_handler_ => signal_handler (signo sig) l
  | sigpipe_handler_ => sigpipe_handler l
  | SIG_DFL | SIG_IGN => Stuck
  end.

Fixpoint deliver_all (sigs : list signal) (l : logger) : io logger :=
  match sigs with
  | [] => mret l
  | sig :: sigs' => l ← deliver sig l; deliver_all sigs' l
  end.
End signals.

(** ** Names of peers (mc_util.c)

    What [getpeername] answers, and the text [inet_ntop] makes of an address; it
    fails when the text does not fit. *)

Inductive peer :=
  | PeerInet (text : list Z) (port : Z)
  | PeerUnix (path : list Z).

Definition inet_ntop (buf : list Z) (size : Z) (text : list Z) : option (list Z * bool) :=
  if Z.of_nat (length text) <? size then buf' ← put_bytes buf 0 (text ++ [0]); Some (buf', true) else Some (buf, false).

Definition mc_resolve_peer (p : option peer) (buf : list Z) (size : Z) : option (list Z) :=
  let error buf := fst <$> vsnprintf buf 0 size (bytes "-") in
  match p with
  | None => error buf
  | Some (PeerInet text port) =>
      '(buf', ok) ← inet_ntop buf size text;
      if negb ok then error buf'
      else if port =? 0 then error buf'
      else let plen := Z.of_nat (length text) in fst <$> vsnprintf buf' plen (size - plen) (bytes ":" ++ print_int port)
  | Some (PeerUnix path) => fst <$> vsnprintf buf 0 size path
  end.
