(* ===== verification/Sock.v ===== *)
(** * Sockets (mc_util.c, mc_core.c)

    The options of sockets, and the sockets the server listens on.  Messages to the
    log are left out. *)

From stdpp Require Import gmap list.
From S2P Require Import Prelude Util Slabs Startup Sys.
Open Scope Z_scope.

(** ** Options *)

Definition mc_set_blocking (sd : Z) : io Z :=
  flags ← sys (Getfl sd);
  if flags <? 0 then mret flags else sys (Setfl sd (Z.ldiff flags O_NONBLOCK)).

Definition mc_set_nonblocking (sd : Z) : io Z :=
  flags ← sys (Getfl sd);
  if flags <? 0 then mret flags else sys (Setfl sd (Z.lor flags O_NONBLOCK)).

Definition mc_set_reuseaddr (sd : Z) : io Z := sys (Setsockopt sd SO_REUSEADDR (IntVal 1)).
Definition mc_set_tcpnodelay (sd : Z) : io Z := sys (Setsockopt sd TCP_NODELAY (IntVal 1)).
Definition mc_set_keepalive (sd : Z) : io Z := sys (Setsockopt sd SO_KEEPALIVE (IntVal 1)).

Definition mc_set_linger (sd timeout : Z) : io Z := sys (Setsockopt sd SO_LINGER (LingerVal 1 timeout)).
Definition mc_unset_linger (sd : Z) : io Z := sys (Setsockopt sd SO_LINGER (LingerVal 0 0)).

Definition mc_set_sndbuf (sd size : Z) : io Z := sys (Setsockopt sd SO_SNDBUF (IntVal size)).
Definition mc_set_rcvbuf (sd size : Z) : io Z := sys (Setsockopt sd SO_RCVBUF (IntVal size)).

(** The status, and [errno] when it was set. *)
Definition mc_get_soerror (sd : Z) : io (Z * option Z) :=
  r ← sys (Getsockopt sd SO_ERROR);
  mret (r.1, if r.1 =? 0 then Some r.2 else None).

Definition mc_get_sndbuf (sd : Z) : io Z :=
  r ← sys (Getsockopt sd SO_SNDBUF);
  if r.1 <? 0 then mret r.1 else mret r.2.
Definition mc_get_rcvbuf (sd : Z) : io Z :=
  r ← sys (Getsockopt sd SO_RCVBUF);
  if r.1 <? 0 then mret r.1 else mret r.2.

(** A signed overflow of [min + max] is undefined. *)
Fixpoint maximize_loop (fuel : nat) (sd min max : Z) : io unit :=
  if min <=? max then
    match fuel with
    | O => Stuck
    | S fuel' =>
        if decide (- 2 ^ 31 <= min + max < 2 ^ 31) then
          let avg := Z.quot (min + max) 2 in
          status ← mc_set_sndbuf sd avg;
          if negb (status =? 0) then maximize_loop fuel' sd min (avg - 1)
          else maximize_loop fuel' sd (avg + 1) max
        else Stuck
    end
  else mret tt.

Definition MAX_SNDBUF : Z := 256 * (1024 * 1024).

Definition mc_maximize_sndbuf (sd : Z) : io unit :=
  min ← mc_get_sndbuf sd;
  if min <? 0 then mret tt else maximize_loop 29 sd min MAX_SNDBUF.

(** ** Listening sockets

    [q] is [listen_connq], the connections that listen, with their sockets. *)

Definition lconns := list (Z * Z).

(** The workers get a connection each for a datagram socket. *)
Fixpoint dispatch_workers (sd : Z) (n : nat) : io rstatus :=
  match n with
  | O => mret MC_OK
  | S n' =>
      status ← sys (Thread_dispatch sd);
      if decide (status = MC_OK) then dispatch_workers sd n' else mret status
  end.

(** What is left to do with one address: [None] to go on with the next. *)
Definition serve_socket (c : conf) (udp : bool) (sd : Z) (q : lconns) : io (option rstatus * lconns) :=
  if udp then
    status ← dispatch_workers sd (Z.to_nat (num_workers c));
    mret (if decide (status = MC_OK) then None else Some status, q)
  else
    o ← sys (Conn_get sd false);
    match o with
    | None => mret (Some MC_ERROR, q)
    | Some conn =>
        ok ← sys (Conn_set_event conn);
        mret (if (ok : bool) then None else Some MC_ERROR, (conn, sd) :: q)
    end.

(** The options of a new socket: whether it can be used. *)
Definition prepare_socket (f : family) (udp : bool) (sd : Z) : io bool :=
  status ← mc_set_nonblocking sd;
  if negb (status =? 0) then sys (Close sd);; mret false
  else
    error ← (if decide (f = AF_INET6) then sys (Setsockopt sd IPV6_V6ONLY (IntVal 1)) else mret 0);
    if negb (error =? 0) then sys (Close sd);; mret false
    else mc_set_reuseaddr sd;; (if udp then mc_maximize_sndbuf sd else mret tt);; mret true.

(** The body of the loop over the addresses: a status to return, the queue and
    [success]. *)
Definition create_one (c : conf) (udp : bool) (a : addrinfo) (q : lconns) (success : Z) : io (option rstatus * lconns * Z) :=
  sd ← sys (Socket (ai_family a) (ai_socktype a) (ai_protocol a));
  if sd <? 0 then mret (None, q, success)
  else
    ok ← prepare_socket (ai_family a) udp sd;
    if negb ok then mret (None, q, success)
    else
      r ← sys (Bind sd (ai_addr a));
      if negb (r.1 =? 0) then
        if negb r.2 then sys (Close sd);; sys Freeaddrinfo;; mret (Some MC_ERROR, q, success)
        else sys (Close sd);; mret (None, q, success)
      else
        failed ← (if udp then mret false else l ← sys (Listen sd (backlog c)); mret (l =? -1));
        if (failed : bool) then sys (Close sd);; sys Freeaddrinfo;; mret (Some MC_ERROR, q, success + 1)
        else '(r, q') ← serve_socket c udp sd q; mret (r, q', success + 1).

Fixpoint create_loop (c : conf) (udp : bool) (ai : list addrinfo) (q : lconns) (success : Z) : io (rstatus * lconns) :=
  match ai with
  | [] => sys Freeaddrinfo;; mret (if negb (success =? 0) then MC_OK else MC_ERROR, q)
  | a :: ai' =>
      '(r, q', success') ← create_one c udp a q success;
      match r with
      | Some status => mret (status, q')
      | None => create_loop c udp ai' q' success'
      end
  end.

Definition core_create_inet_socket (c : conf) (port : Z) (udp : bool) (q : lconns) : io (rstatus * lconns) :=
  let port := if port =? -1 then 0 else port in
  r ← sys (Getaddrinfo (interface c) (print_int port) (if udp then SOCK_DGRAM else SOCK_STREAM));
  if negb (r.1 =? 0) then mret (MC_ERROR, q) else create_loop c udp r.2 q 0.

(** [sizeof(sun_path)] *)
Definition SUN_PATH : nat := 108.
Definition unix_addr (path : list Z) : list Z := take (SUN_PATH - 1) path.

Definition listen_unix (c : conf) (sd : Z) (q : lconns) : io (rstatus * lconns) :=
  status ← sys (Listen sd (backlog c));
  if negb (status =? 0) then sys (Close sd);; mret (MC_ERROR, q)
  else
    o ← sys (Conn_get sd false);
    match o with
    | None => mret (MC_ERROR, q)
    | Some conn =>
        ok ← sys (Conn_set_event conn);
        if (ok : bool) then mret (MC_OK, (conn, sd) :: q) else sys (Conn_put conn);; mret (MC_ERROR, q)
    end.

Definition core_create_unix_socket (c : conf) (path : list Z) (mask : Z) (q : lconns) : io (rstatus * lconns) :=
  sd ← sys (Socket AF_UNIX SOCK_STREAM 0);
  if sd <? 0 then mret (MC_ERROR, q)
  else
    status ← mc_set_nonblocking sd;
    if negb (status =? 0) then sys (Close sd);; mret (MC_ERROR, q)
    else
      sys (Unlink path);;
      mc_set_reuseaddr sd;;
      mc_set_keepalive sd;;
      mc_unset_linger sd;;
      old_mask ← sys (Umask (Z.lnot (Z.land mask 511)));
      r ← sys (Bind sd (unix_addr path));
      if negb (r.1 =? 0) then sys (Close sd);; sys (Umask old_mask);; mret (MC_ERROR, q)
      else sys (Umask old_mask);; listen_unix c sd q.

Definition core_create_socket (c : conf) (q : lconns) : io (rstatus * lconns) :=
  match socketpath c with
  | Some path => core_create_unix_socket c path (access c) q
  | None =>
      '(status, q) ← (if negb (port c =? 0) then core_create_inet_socket c (port c) false q else mret (MC_OK, q));
      if decide (status = MC_OK) then
        if negb (udpport c =? 0) then core_create_inet_socket c (udpport c) true q else mret (MC_OK, q)
      else mret (status, q)
  end.
