(* ===== verification/Accept.v ===== *)
(** * Turning the listening sockets off and on (mc_core.c)

    When the process has no descriptor left [core_accept] turns the listening
    sockets off, and [conn_close] turns them on again.  The calls of libevent and
    [listen] may fail, which is logged and ignored.  The lock around the loop and
    the count of [conn_disabled] are left out. *)

From stdpp Require Import list.
From S2P Require Import Prelude Slabs Sys.
Open Scope Z_scope.

(** A connection that listens: [c->ev_flags], whether its event is registered, and
    the backlog of its socket. *)
Record listener := Listener { ls_ev_flags : Z; ls_added : bool; ls_backlog : Z }.

Inductive lcall := Event_del | Event_add | Listen_ (n : Z).
Notation lio := (prog (fun _ : lcall => Z)).
Notation query c := (call_ (R := fun _ : lcall => Z) c).

(** [EV_READ | EV_PERSIST] *)
Definition EV_LISTEN : Z := Z.lor 2 16.

Definition core_update_ (new_flags : Z) (c : listener) : lio (rstatus * listener) :=
  if ls_ev_flags c =? new_flags then mret (MC_OK, c)
  else
    status ← query Event_del;
    if status <? 0 then mret (MC_ERROR, c)
    else
      let c := Listener new_flags false (ls_backlog c) in
      status ← query Event_add;
      if status <? 0 then mret (MC_ERROR, c) else mret (MC_OK, Listener new_flags true (ls_backlog c)).

Definition relisten (n : Z) (c : listener) : lio listener :=
  status ← query (Listen_ n);
  mret (if status =? 0 then Listener (ls_ev_flags c) (ls_added c) n else c).

(** The loop over [listen_connq]. *)
Fixpoint accept_loop (do_accept : bool) (backlog : Z) (q : list listener) : lio (list listener) :=
  match q with
  | [] => mret []
  | c :: q' =>
      '(_, c) ← core_update_ (if do_accept then EV_LISTEN else 0) c;
      c ← relisten (if do_accept then backlog else 0) c;
      q' ← accept_loop do_accept backlog q';
      mret (c :: q')
  end.

(** Also [settings.accepting_conns]. *)
Definition _core_accept_conns (do_accept : bool) (backlog : Z) (q : list listener) : lio (list listener * bool) :=
  q ← accept_loop do_accept backlog q; mret (q, do_accept).

(** ** When nothing fails *)

Definition well (c : lcall) (_ : unit) (r : Z) (_ : unit) : Prop := r = 0.
Definition any (c : lcall) (_ : unit) (r : Z) (_ : unit) : Prop := r = 0 \/ r = -1.

(** Registered for what its flags say, and open to clients. *)
Definition hears (backlog : Z) (c : listener) : Prop := ls_ev_flags c = EV_LISTEN /\ ls_added c = true /\ ls_backlog c = backlog.
Definition in_order (c : listener) : Prop := ls_added c = true.

Lemma update_well flags c u : in_order c -> sat well (core_update_ flags c) (fun r _ => r = (MC_OK, Listener flags true (ls_backlog c))) u.
Proof.
  intros Hc. unfold core_update_. destruct (Z.eqb_spec (ls_ev_flags c) flags) as [<-|].
  - apply sat_ret. unfold in_order in Hc. destruct c. cbn in *. by rewrite Hc.
  - sys_call. intros r u1 ->. cbn [Z.ltb Z.compare]. sys_call. intros r u2 ->. done.
Qed.

Lemma accept_loop_well b backlog q : forall u, Forall in_order q ->
  sat well (accept_loop b backlog q) (fun q' _ => q' = replicate (length q) (Listener (if b then EV_LISTEN else 0) true (if b then backlog else 0))) u.
Proof.
  induction q as [|c q IH]; intros u Hq; [done|]. apply Forall_cons in Hq as [Hc Hq]. cbn [accept_loop]. apply sat_bind. eapply sat_mono; [by apply update_well|].
  intros r u1 ->. apply sat_bind. unfold relisten. sys_call. intros r u2 ->. apply sat_ret, sat_bind. eapply sat_mono; [by apply IH|]. intros q' u3 ->. done.
Qed.

Lemma accept_well b backlog q u : Forall in_order q -> sat well (_core_accept_conns b backlog q) (fun r _ =>
  r = (replicate (length q) (Listener (if b then EV_LISTEN else 0) true (if b then backlog else 0)), b)) u.
Proof. intros Hq. apply sat_bind. eapply sat_mono; [by apply accept_loop_well|]. by intros q' u' ->. Qed.

(** ** When a call fails *)

(** Nobody listens any more: the flags say so, but the event is not registered. *)
Definition deaf (c : listener) : Prop := ls_ev_flags c = EV_LISTEN /\ ls_added c = false.

Lemma accept_loop_deaf backlog q : forall u, Forall deaf q -> sat any (accept_loop true backlog q) (fun q' _ => length q' = length q /\ Forall deaf q') u.
Proof.
  induction q as [|c q IH]; intros u Hq; [done|]. apply Forall_cons in Hq as [[Hf Ha] Hq]. cbn [accept_loop]. apply sat_bind.
  assert (core_update_ EV_LISTEN c = mret (MC_OK, c)) as -> by (unfold core_update_; by rewrite Hf). apply sat_ret, sat_bind. unfold relisten. sys_call. intros r u1 _. apply sat_ret, sat_bind.
  eapply sat_mono; [by apply IH|]. intros q' u2 [Hl Hd]. apply sat_ret. split; [cbn; by rewrite Hl|]. apply Forall_cons. split; [|done]. destruct (r =? 0); done.
Qed.

(** A system in which [event_add] fails once. *)
Definition once (c : lcall) (failed : bool) : option (Z * bool) :=
  match c with Event_add => Some (if failed then 0 else -1, true) | _ => Some (0, failed) end.

(** Turning the listening sockets off and on again.  When no call fails every one
    of them is registered and open to clients again with its backlog.  But
    [core_update] notes the new flags before [event_add], and does nothing when the
    flags are as they should be: one [event_add] that fails while clients are let in
    again leaves the socket unregistered, and no later call that lets clients in,
    whatever its answers, registers it. *)
Lemma accept_off_on backlog q u (Hq : Forall (hears backlog) q) :
  sat well ('(q, _) ← _core_accept_conns false backlog q; _core_accept_conns true backlog q) (fun r _ => length r.1 = length q /\ Forall (hears backlog) r.1 /\ r.2 = true) u /\
  exec once ('(q, _) ← _core_accept_conns true backlog [Listener 0 true 0]; mret q) false = Returned [Listener EV_LISTEN false backlog] true /\
  forall d, Forall deaf d -> sat any (_core_accept_conns true backlog d) (fun r _ => length r.1 = length d /\ Forall deaf r.1) u.
Proof.
  split; [|split; [done|]].
  - apply sat_bind. eapply sat_mono; [apply accept_well|].
    { eapply Forall_impl; [exact Hq|]. by intros c (_ & Ha & _). }
    intros r u1 ->. eapply sat_mono; [apply accept_well; by apply Forall_replicate|]. intros r u2 ->. cbn [fst snd]. rewrite !length_replicate. split; [done|]. split; [|done].
    by apply Forall_replicate.
  - intros d Hd. apply sat_bind. eapply sat_mono; [by apply accept_loop_deaf|]. intros q' u1 H. exact H.
Qed.
