(* ===== verification/Boot.v ===== *)
(** * Before the server starts (mc.c)

    What [main] asks of the operating system once the options are read: limits, the
    user to run as, the background, the pid file and locked memory.  The text of an
    error, [strerror], is given. *)

From stdpp Require Import gmap list strings.
From S2P Require Import Prelude Util Slabs Startup Sys Log.
Open Scope Z_scope.

Definition mc_c : list Z := bytes "mc.c".
Definition dev_null : list Z := bytes "/dev/null".

Section boot.
Context (strerror : list Z).

(** An error is logged, or said on the standard error, and returned. *)
Definition fail_log (line : Z) (msg : list Z) (l : logger) : io (rstatus * logger) :=
  l ← log_error mc_c line msg l; mret (MC_ERROR, l).
Definition fail_stderr (msg : list Z) (l : logger) : io (rstatus * logger) :=
  l ← _log_stderr msg l; mret (MC_ERROR, l).

(** ** The pid file *)

(** Also [settings.pid_file]. *)
Definition mc_create_pidfile (filename : list Z) (pid : Z) (l : logger) : io (bool * (rstatus * logger)) :=
  let quoted := bytes " pid file '" ++ filename ++ bytes "' failed: " ++ strerror in
  fd ← sys (Open filename CreateTrunc);
  if fd <? 0 then r ← fail_log 288 (bytes "opening" ++ quoted) l; mret (false, r)
  else
    n ← sys (Write fd (print_int pid));
    if n <? 0 then r ← fail_log 298 (bytes "write to" ++ quoted) l; mret (true, r)
    else
      status ← sys (Close fd);
      if status <? 0 then r ← fail_log 305 (bytes "close" ++ quoted) l; mret (true, r)
      else mret (true, (MC_OK, l)).

Definition mc_remove_pidfile (pid_file : bool) (filename : list Z) (l : logger) : io logger :=
  if negb pid_file then mret l
  else
    status ← sys (Unlink filename);
    if status <? 0 then log_error mc_c 324 (bytes "unlink of pid file '" ++ filename ++ bytes "' failed, ignored: " ++ strerror) l
    else mret l.

(** ** The background *)

Definition exit_ {A} (code : Z) : io A := r ← sys (Exit_ code); match r : Empty_set with end.

(** [fork]; the parent ends. *)
Definition detach (line : Z) (l : logger) : io (rstatus * logger) :=
  pid ← sys Fork;
  if pid =? -1 then fail_log line (bytes "fork() failed: " ++ strerror) l
  else if pid =? 0 then mret (MC_OK, l)
  else exit_ 0.

(** [dup2] of [fd] to the descriptors [targets], which have these names. *)
Fixpoint redirect (fd : Z) (targets : list (Z * list Z * Z)) (l : logger) : io (rstatus * logger) :=
  match targets with
  | [] => mret (MC_OK, l)
  | (target, name, line) :: targets' =>
      status ← sys (Dup2 fd target);
      if status <? 0 then
        l ← log_error mc_c line (bytes "dup2(" ++ print_int fd ++ bytes ", " ++ name ++ bytes ") failed: " ++ strerror) l;
        sys (Close fd);; mret (MC_ERROR, l)
      else redirect fd targets' l
  end.

Definition redirect_all (l : logger) : io (rstatus * logger) :=
  fd ← sys (Open dev_null ReadWrite);
  if fd <? 0 then fail_log 393 (bytes "open(" ++ [34] ++ dev_null ++ [34] ++ bytes ") failed: " ++ strerror) l
  else
    '(status, l) ← redirect fd [(STDIN_FILENO, bytes "STDIN", 399); (STDOUT_FILENO, bytes "STDOUT", 406); (STDERR_FILENO, bytes "STDERR", 413)] l;
    if decide (status = MC_OK) then
      if STDERR_FILENO <? fd then
        r ← sys (Close fd);
        if r <? 0 then fail_log 421 (bytes "close(" ++ print_int fd ++ bytes ") failed: " ++ strerror) l else mret (MC_OK, l)
      else mret (MC_OK, l)
    else mret (status, l).

Definition mc_daemonize (dump_core : bool) (l : logger) : io (rstatus * logger) :=
  '(status, l) ← detach 340 l;
  if decide (status = MC_OK) then
    sid ← sys Setsid;
    if sid <? 0 then mret (MC_ERROR, l)
    else
      r ← sys (Sigaction SIGHUP SIG_IGN 0);
      if r =? -1 then fail_log 358 (bytes "signal(SIGHUP, SIG_IGN) failed: " ++ strerror) l
      else
        '(status, l) ← detach 366 l;
        if decide (status = MC_OK) then
          cd ← (if negb dump_core then sys (Chdir (bytes "/")) else mret 0);
          if cd <? 0 then fail_log 381 (bytes "chdir(" ++ [34] ++ bytes "/" ++ [34] ++ bytes ") failed: " ++ strerror) l
          else sys (Umask 0);; redirect_all l
        else mret (status, l)
  else mret (status, l).

(** ** Limits *)

(** [mlockall_] says whether the system has [mlockall] (MC_MLOCKALL). *)
Definition mc_lock_page (mlockall_ : bool) (l : logger) : io (rstatus * logger) :=
  if mlockall_ then
    status ← sys Mlockall;
    if status <? 0 then fail_stderr (bytes "twemcache: -k option to mlockall failed: " ++ strerror) l
    else mret (MC_OK, l)
  else fail_stderr (bytes "twemcache: -k option to mlockall not supported") l.

Definition mc_maximize_core (l : logger) : io (rstatus * logger) :=
  '(status, rlim) ← sys (Getrlimit RLIMIT_CORE);
  if status <? 0 then fail_stderr (bytes "twemcache: getrlimit(RLIMIT_CORE) failed: " ++ strerror) l
  else
    status ← sys (Setrlimit RLIMIT_CORE (RLimit RLIM_INFINITY RLIM_INFINITY));
    if status <? 0 then
      status ← sys (Setrlimit RLIMIT_CORE (RLimit (rlim_max rlim) (rlim_max rlim)));
      if status =? 0 then mret (MC_OK, l)
      else fail_stderr (bytes "twemcache: setrlimit(RLIMIT_CORE, " ++ print_u64 (rlim_cur rlim) ++ bytes ") failed: " ++ strerror) l
    else mret (MC_OK, l).

(** [rlim_t] has 64 bits: [maxfiles] is converted to it. *)
Definition mc_set_maxconns (maxfiles : Z) (l : logger) : io (rstatus * logger) :=
  '(status, rlim) ← sys (Getrlimit RLIMIT_NOFILE);
  if negb (status =? 0) then fail_stderr (bytes "twemcache: getrlimit(RLIMIT_NOFILE) failed: " ++ strerror) l
  else
    let cur := Z.max (rlim_cur rlim) (u64 maxfiles) in
    status ← sys (Setrlimit RLIMIT_NOFILE (RLimit cur (Z.max (rlim_max rlim) cur)));
    if negb (status =? 0) then
      l ← _log_stderr (bytes "twemcache: setting open files limit to " ++ print_int maxfiles ++ bytes " failed: " ++ strerror) l;
      fail_stderr (bytes "twemcache: try running as root or request smaller --max-conns value") l
    else mret (MC_OK, l).

(** ** The user *)

Definition change_user (uname : list Z) (pw_uid pw_gid : Z) (l : logger) : io (rstatus * logger) :=
  status ← sys (Setgid pw_gid);
  l ← (if status <? 0 then _log_stderr (bytes "twemcache: setting group id to user '" ++ uname ++ bytes "' failed: " ++ strerror) l else mret l);
  status ← sys (Setuid pw_uid);
  if status <? 0 then fail_stderr (bytes "twemcache: setting user id to user '" ++ uname ++ bytes "' failed: " ++ strerror) l
  else mret (MC_OK, l).

Definition mc_set_user (username : option (list Z)) (l : logger) : io (rstatus * logger) :=
  uid ← sys Getuid;
  euid ← sys Geteuid;
  if negb (uid =? 0) && negb (euid =? 0) then
    match username with
    | Some _ => fail_stderr (bytes "twemcache: -u option is only effective when run as root") l
    | None => mret (MC_OK, l)
    end
  else
    match username with
    | None => fail_stderr (bytes "twemcache: cannot run as root without the -u option") l
    | Some uname =>
        pw ← sys (Getpwnam uname);
        match pw : option (Z * Z) with
        | None => fail_stderr (bytes "twemcache: cannot find user '" ++ uname ++ bytes "' to switch to") l
        | Some (pw_uid, pw_gid) => change_user uname pw_uid pw_gid l
        end
    end.

(** ** [main], between the options and the slab profile *)

Definition checked (p : io (rstatus * logger)) : io logger :=
  '(status, l) ← p;
  if decide (status = MC_OK) then mret l else exit_ 1.

(** The pid, [settings.pid_file] and the logger. *)
Definition prepare (mlockall_ : bool) (c : conf) (l : logger) : io (Z * bool * logger) :=
  l ← (if max_corefile c then checked (mc_maximize_core l) else mret l);
  l ← checked (mc_set_maxconns (maxconns c) l);
  l ← checked (mc_set_user (username c) l);
  l ← (if daemonize c then checked (mc_daemonize (max_corefile c) l) else mret l);
  pid ← sys Getpid;
  '(pid_file, l) ← match pid_filename c with
                   | Some filename => '(pf, r) ← mc_create_pidfile filename pid l; l ← checked (mret r); mret (pf, l)
                   | None => mret (false, l)
                   end;
  l ← (if lock_page c then checked (mc_lock_page mlockall_ l) else mret l);
  mret (pid, pid_file, l).
End boot.
