(* ===== verification/Spawn.v ===== *)
(** * The start of the threads (mc_thread.c)

    [thread_init] creates the workers, waits until all have set themselves up,
    creates the aggregator and the klogger, and waits for them; each thread counts
    itself in [init_count] under [init_lock] and signals [init_cond].  The threads
    are interleaved: a step is one statement of one of them.  [pthread_cond_wait]
    releases the lock and waits in one step, and may return without a signal. *)

From stdpp Require Import list.
From S2P Require Import Prelude.
Open Scope Z_scope.

(** ** The threads *)

(** The first wait is for the workers, the second for the other two as well. *)
Inductive phase := First | Second.

(** What the main thread is about to do: create [todo] more threads, lock, look at
    the count, wait, lock again after a wait, unlock. *)
Inductive main_pc :=
  | MSpawn (todo : nat) (p : phase)
  | MLock (p : phase)
  | MCheck (p : phase)
  | MWait (p : phase)
  | MWake (p : phase)
  | MUnlock (p : phase)
  | MDone.

(** What a new thread is about to do; the event loop is the end of it here.  Only
    workers have [thread_setkeys] to do. *)
Inductive thread_pc := TKeys | TLock | TIncr | TSignal | TUnlock | TLoop.

Inductive owner_ := Main | Thread (i : nat).

#[export] Instance phase_eq_dec : EqDecision phase.
Proof. solve_decision. Defined.
#[export] Instance main_pc_eq_dec : EqDecision main_pc.
Proof. solve_decision. Defined.
#[export] Instance thread_pc_eq_dec : EqDecision thread_pc.
Proof. solve_decision. Defined.

Record start := Start {
  init_lock : option owner_;
  init_count : Z;
  mpc : main_pc;
  tpcs : list thread_pc
}.

Section start.
Context (nworkers : nat).

Definition goal (p : phase) : nat := match p with First => nworkers | Second => (nworkers + 2)%nat end.

Definition start_state : start := Start None 0 (MSpawn nworkers First) [].

(** [thread_init] *)
Definition step_main (s : start) : option start :=
  match mpc s with
  | MSpawn (S todo) p => Some (Start (init_lock s) (init_count s) (MSpawn todo p) (tpcs s ++ [if p is First then TKeys else TLock]))
  | MSpawn O p => Some (Start (init_lock s) (init_count s) (MLock p) (tpcs s))
  | MLock p | MWake p =>
      match init_lock s with
      | None => Some (Start (Some Main) (init_count s) (MCheck p) (tpcs s))
      | Some _ => None
      end
  | MCheck p =>
      if init_count s <? Z.of_nat (goal p) then Some (Start None (init_count s) (MWait p) (tpcs s))
      else Some (Start (init_lock s) (init_count s) (MUnlock p) (tpcs s))
  | MWait _ => None
  | MUnlock First => Some (Start None (init_count s) (MSpawn 2 Second) (tpcs s))
  | MUnlock Second => Some (Start None (init_count s) MDone (tpcs s))
  | MDone => None
  end.

(** [pthread_cond_signal]: only the main thread waits. *)
Definition wake (m : main_pc) : main_pc := match m with MWait p => MWake p | _ => m end.

(** [thread_worker_main], [thread_aggregator_main], [thread_klogger_main] *)
Definition step_thread (i : nat) (s : start) : option start :=
  pc ← tpcs s !! i;
  match pc with
  | TKeys => Some (Start (init_lock s) (init_count s) (mpc s) (<[i := TLock]> (tpcs s)))
  | TLock =>
      match init_lock s with
      | None => Some (Start (Some (Thread i)) (init_count s) (mpc s) (<[i := TIncr]> (tpcs s)))
      | Some _ => None
      end
  | TIncr => Some (Start (init_lock s) (init_count s + 1) (mpc s) (<[i := TSignal]> (tpcs s)))
  | TSignal => Some (Start (init_lock s) (init_count s) (wake (mpc s)) (<[i := TUnlock]> (tpcs s)))
  | TUnlock => Some (Start None (init_count s) (mpc s) (<[i := TLoop]> (tpcs s)))
  | TLoop => None
  end.

Definition step (s s' : start) : Prop := step_main s = Some s' \/ exists i, step_thread i s = Some s'.

(** A wait that returns without a signal. *)
Definition spurious (s s' : start) : Prop := exists p, mpc s = MWait p /\ s' = Start (init_lock s) (init_count s) (MWake p) (tpcs s).

Inductive reachable : start -> Prop :=
  | r_start : reachable start_state
  | r_step s s' : reachable s -> step s s' -> reachable s'
  | r_spurious s s' : reachable s -> spurious s s' -> reachable s'.

(** ** The invariant *)

Definition counted (t : thread_pc) : bool := match t with TSignal | TUnlock | TLoop => true | _ => false end.
Definition holding (t : thread_pc) : bool := match t with TIncr | TSignal | TUnlock => true | _ => false end.
Definition main_holding (m : main_pc) : bool := match m with MCheck _ | MUnlock _ => true | _ => false end.
Definition counted_in (l : list thread_pc) : nat := length (List.filter counted l).
Arguments counted_in : simpl never.

(** How many threads there are, and how many have counted themselves for sure. *)
Definition created (m : main_pc) (k : nat) : Prop :=
  match m with
  | MSpawn todo p => (k + todo)%nat = goal p
  | MLock p | MCheck p | MWait p | MWake p | MUnlock p => k = goal p
  | MDone => k = goal Second
  end.
Definition done_for_sure (m : main_pc) : nat :=
  match m with
  | MUnlock p => goal p
  | MSpawn _ Second | MLock Second | MCheck Second | MWait Second | MWake Second => goal First
  | MDone => goal Second
  | _ => 0
  end.

Record inv (s : start) : Prop := Inv {
  iv_main : init_lock s = Some Main <-> main_holding (mpc s) = true;
  iv_thread : forall i, init_lock s = Some (Thread i) <-> exists t, tpcs s !! i = Some t /\ holding t = true;
  iv_count : init_count s = Z.of_nat (counted_in (tpcs s));
  iv_created : created (mpc s) (length (tpcs s));
  iv_sure : (done_for_sure (mpc s) <= counted_in (tpcs s))%nat;
  iv_wait : forall p, mpc s = MWait p -> init_count s < Z.of_nat (goal p) \/ exists i, tpcs s !! i = Some TSignal
}.

Lemma counted_insert l i t t' : l !! i = Some t ->
  (counted_in (<[i := t']> l) + Nat.b2n (counted t) = counted_in l + Nat.b2n (counted t'))%nat.
Proof.
  unfold counted_in. revert i. induction l as [|x l IH]; intros [|i] Hi; try discriminate Hi; simpl in *.
  - injection Hi as ->. destruct (counted t), (counted t'); cbn; lia.
  - specialize (IH i Hi). destruct (counted x), (counted t), (counted t'); cbn in *; lia.
Qed.
Lemma counted_snoc l t : counted_in (l ++ [t]) = (counted_in l + Nat.b2n (counted t))%nat.
Proof. unfold counted_in. rewrite List.filter_app, length_app. cbn. by destruct (counted t). Qed.
Lemma counted_all l : (counted_in l <= length l)%nat.
Proof. apply List.filter_length_le. Qed.

Lemma inv_start : inv start_state.
Proof. split; cbn; try done. intros i. split; [done|]. intros (t & Ht & _). done. Qed.

(** A thread that does not hold the lock before or after. *)
Lemma thread_keeps s i t t' : inv s -> tpcs s !! i = Some t -> holding t' = holding t ->
  forall j, init_lock s = Some (Thread j) <-> exists x, <[i := t']> (tpcs s) !! j = Some x /\ holding x = true.
Proof.
  intros I Hi Hh j. rewrite (iv_thread _ I j). pose proof (lookup_lt_Some _ _ _ Hi). destruct (decide (i = j)) as [<-|Hne].
  - rewrite list_lookup_insert_eq by done. split; intros (x & Hx & Hhx).
    + exists t'. split; [done|]. congruence.
    + exists t. split; [done|]. congruence.
  - by rewrite list_lookup_insert_ne.
Qed.

(** The wait of the main thread stands as long as no thread signals. *)
Lemma wait_keeps s i t t' p : inv s -> tpcs s !! i = Some t -> t <> TSignal -> mpc s = MWait p ->
  init_count s < Z.of_nat (goal p) \/ exists j, <[i := t']> (tpcs s) !! j = Some TSignal.
Proof.
  intros I Hi Ht Hm. destruct (iv_wait _ I p Hm) as [|[j Hj]]; [by left|]. right. exists j. rewrite list_lookup_insert_ne; [done|]. intros ->. congruence.
Qed.

Lemma step_thread_inv i s s' : inv s -> step_thread i s = Some s' -> inv s'.
Proof.
  intros I E. unfold step_thread in E. destruct (tpcs s !! i) as [t|] eqn:Hi; [|discriminate E]. cbn in E.
  pose proof (lookup_lt_Some _ _ _ Hi) as Hlt. pose proof (fun t' => counted_insert (tpcs s) i t t' Hi) as Hc.
  pose proof I as [I1 I2 I3 I4 I5 I6].
  destruct t; try discriminate E.
  - injection E as <-. specialize (Hc TLock). cbn [counted Nat.b2n] in Hc. split; cbn [init_lock init_count mpc tpcs]; rewrite ?length_insert; [done|by apply (thread_keeps s i TKeys)|lia|done|lia|by intros p; apply (wait_keeps s i TKeys)].
  - destruct (init_lock s) eqn:Hl; [discriminate E|]. injection E as <-. specialize (Hc TIncr). cbn [counted Nat.b2n] in Hc. split; cbn [init_lock init_count mpc tpcs]; rewrite ?length_insert; [| |lia|done|lia|by intros p; apply (wait_keeps s i TLock)].
    + rewrite <-I1. split; discriminate.
    + intros j. destruct (decide (i = j)) as [<-|Hne]; [rewrite list_lookup_insert_eq by done; split; eauto|].
      rewrite list_lookup_insert_ne by done. rewrite <-I2. split; [congruence|discriminate].
  - injection E as <-. specialize (Hc TSignal). cbn [counted Nat.b2n] in Hc. split; cbn [init_lock init_count mpc tpcs]; rewrite ?length_insert; [done|by apply (thread_keeps s i TIncr)|lia|done|lia|].
    intros p _. right. exists i. by rewrite list_lookup_insert_eq.
  - injection E as <-. specialize (Hc TUnlock). cbn [counted Nat.b2n] in Hc.
    assert (main_holding (wake (mpc s)) = main_holding (mpc s) /\ done_for_sure (wake (mpc s)) = done_for_sure (mpc s) /\ (created (wake (mpc s)) = created (mpc s)) /\ forall p, wake (mpc s) <> MWait p)
      as (E1 & E2 & E3 & E4) by (destruct (mpc s) as [| | | p | | |]; try done; by destruct p).
    split; cbn [init_lock init_count mpc tpcs]; rewrite ?length_insert, ?E1, ?E2, ?E3; [done|by apply (thread_keeps s i TSignal)|lia|done|lia|]. intros p Hp. by destruct (E4 p).
  - injection E as <-. specialize (Hc TLoop). cbn [counted Nat.b2n] in Hc. assert (init_lock s = Some (Thread i)) as Hl by (apply I2; eauto).
    split; cbn [init_lock init_count mpc tpcs]; rewrite ?length_insert; [| |lia|done|lia|by intros p; apply (wait_keeps s i TUnlock)].
    + rewrite <-I1, Hl. split; discriminate.
    + intros j. split; [discriminate|]. destruct (decide (i = j)) as [<-|Hne]; [rewrite list_lookup_insert_eq by done; intros (x & [=<-] & [=])|].
      rewrite list_lookup_insert_ne by done. rewrite <-I2, Hl. congruence.
Qed.

Lemma step_main_inv s s' : inv s -> step_main s = Some s' -> inv s'.
Proof.
  intros [I1 I2 I3 I4 I5 I6] E. pose proof (counted_all (tpcs s)) as Hall. unfold step_main in E. destruct (mpc s) as [[|todo] p|p|p|p|p|p|] eqn:Hm; cbn in I1, I4, I5; try discriminate E.
  - injection E as <-. split; cbn; try done. lia.
  - injection E as <-. assert (counted (if p is First then TKeys else TLock) = false /\ holding (if p is First then TKeys else TLock) = false) as [Hc Hh] by by destruct p.
    split; cbn; rewrite ?length_app, ?counted_snoc, ?Hc; cbn; [done| |lia|lia|by destruct p; lia|done].
    intros i. rewrite I2. split; intros (t & Ht & Hht); exists t; (split; [|done]).
    + by apply lookup_app_l_Some.
    + apply lookup_app_Some in Ht as [Ht|[_ Ht]]; [done|]. apply list_lookup_singleton_Some in Ht as [_ <-]. congruence.
  - destruct (init_lock s) eqn:Hl; [discriminate E|]. injection E as <-. split; cbn; try done. intros i. rewrite <-I2. split; congruence.
  - assert (init_lock s = Some Main) as Hl by by apply I1. destruct (Z.ltb_spec (init_count s) (Z.of_nat (goal p))) as [Hlt|Hge]; injection E as <-; split; cbn; try done.
    + intros i. rewrite <-I2, Hl. split; congruence.
    + intros q [= <-]. by left.
    + lia.
  - destruct (init_lock s) eqn:Hl; [discriminate E|]. injection E as <-. split; cbn; try done. intros i. rewrite <-I2. split; congruence.
  - assert (init_lock s = Some Main) as Hl by by apply I1. destruct p; injection E as <-; split; cbn; try done; try (intros i; rewrite <-I2, Hl; split; congruence); cbn in *; lia.
Qed.

Lemma reachable_inv s : reachable s -> inv s.
Proof.
  induction 1 as [|s s' _ IH [E|[i E]]|s s' _ [I1 I2 I3 I4 I5 I6] (p & Hm & ->)].
  - apply inv_start.
  - by apply (step_main_inv s).
  - by apply (step_thread_inv i s).
  - rewrite Hm in I1, I4, I5. split; cbn; try done.
Qed.

(** ** Progress *)

(** What is left to do: a signal may send the main thread round its loop once
    more. *)
Definition rank (t : thread_pc) : nat :=
  match t with TKeys => 8 | TLock => 7 | TIncr => 6 | TSignal => 5 | TUnlock => 1 | TLoop => 0 end.
Definition after (p : phase) : nat := match p with First => 30 | Second => 0 end.
Definition main_rank (m : main_pc) : nat :=
  match m with
  | MSpawn todo p => 10 * todo + 6 + after p
  | MLock p => 5 + after p
  | MWake p => 4 + after p
  | MCheck p => 3 + after p
  | MWait p | MUnlock p => 2 + after p
  | MDone => 0
  end.
Definition ranks (l : list thread_pc) : nat := sum_list_with rank l.
Arguments ranks : simpl never.
Definition left_to_do (s : start) : nat := (main_rank (mpc s) + ranks (tpcs s))%nat.

Lemma ranks_insert l i t t' : l !! i = Some t -> (ranks (<[i := t']> l) + rank t = ranks l + rank t')%nat.
Proof.
  unfold ranks. revert i. induction l as [|x l IH]; intros [|i] Hi; try discriminate Hi; simpl in *.
  - injection Hi as ->. lia.
  - specialize (IH i Hi). lia.
Qed.
Lemma ranks_snoc l t : ranks (l ++ [t]) = (ranks l + rank t)%nat.
Proof. unfold ranks. rewrite sum_list_with_app. simpl. lia. Qed.

Lemma step_decreases s s' : step s s' -> (left_to_do s' < left_to_do s)%nat.
Proof.
  unfold left_to_do. intros [E|[i E]].
  - unfold step_main in E. destruct (mpc s) as [[|todo] p|p|p|p|p|[]|]; try discriminate E; try (destruct (init_lock s); [discriminate E|]); try (injection E as <-; cbn; lia).
    + injection E as <-. cbn [main_rank mpc tpcs]. rewrite ranks_snoc. destruct p; cbn; lia.
    + case_match; injection E as <-; cbn; lia.
  - unfold step_thread in E. destruct (tpcs s !! i) as [t|] eqn:Hi; [|discriminate E]. cbn in E. pose proof (fun t' => ranks_insert (tpcs s) i t t' Hi) as Hr.
    destruct t; try discriminate E; try (destruct (init_lock s); [discriminate E|]); injection E as <-; cbn [mpc tpcs];
      match goal with |- context [ranks (<[i := ?t']> _)] => specialize (Hr t'); cbn [rank] in Hr end; try lia.
    destruct (mpc s); cbn in *; lia.
Qed.

(** Somebody who has not counted himself yet. *)
Lemma not_counted l : (counted_in l < length l)%nat -> exists i t, l !! i = Some t /\ counted t = false.
Proof.
  unfold counted_in. induction l as [|x l IH]; intros Hl; simpl in Hl; [lia|]. destruct (counted x) eqn:E; [|by exists 0%nat, x].
  destruct IH as (i & t & Hi & Ht); [simpl in Hl; lia|]. by exists (S i), t.
Qed.

Lemma progress s : inv s -> mpc s <> MDone -> exists s', step s s'.
Proof.
  intros [I1 I2 I3 I4 I5 I6] Hm. destruct (init_lock s) as [[|i]|] eqn:Hl.
  - assert (main_holding (mpc s) = true) as Hh by by apply I1. assert (is_Some (step_main s)) as [s' E]; [|exists s'; by left].
    unfold step_main. destruct (mpc s) as [| |p| | |[]|]; try discriminate Hh; try by eexists. by case_match; eexists.
  - destruct (proj1 (I2 i) eq_refl) as (t & Ht & Hh). assert (is_Some (step_thread i s)) as [s' E]; [|exists s'; right; by exists i].
    unfold step_thread. rewrite Ht. cbn. destruct t; try discriminate Hh; by eexists.
  - assert ((exists p, mpc s = MWait p) \/ forall p, mpc s <> MWait p) as [[p Hp]|Hnw] by (destruct (mpc s); eauto).
    + destruct (I6 p Hp) as [Hlt|[i Hi]].
      2: { assert (None = Some (Thread i)) as [=]. apply I2. by exists TSignal. }
      rewrite Hp in I4. cbn in I4. destruct (not_counted (tpcs s)) as (i & t & Hi & Ht); [lia|].
      assert (is_Some (step_thread i s)) as [s' E]; [|exists s'; right; by exists i]. unfold step_thread. rewrite Hi. cbn. rewrite Hl. destruct t; try discriminate Ht; by eexists.
    + assert (is_Some (step_main s)) as [s' E]; [|exists s'; by left]. unfold step_main. rewrite Hl. destruct (mpc s) as [[]| | |p | |[]|]; try (by destruct Hm); try (eexists; reflexivity).
      * by case_match; eexists.
      * by destruct (Hnw p).
Qed.

Lemma completes s : reachable s -> exists s', rtc step s s' /\ mpc s' = MDone.
Proof.
  remember (left_to_do s) as n eqn:Hn. revert s Hn. induction (lt_wf n) as [n _ IH]. intros s -> Hr. destruct (decide (mpc s = MDone)) as [Hd|Hd]; [by exists s|].
  destruct (progress s (reachable_inv s Hr) Hd) as [s1 H1]. destruct (IH (left_to_do s1) (step_decreases s s1 H1) s1 eq_refl (r_step s s1 Hr H1)) as (s' & Hs & Hd').
  exists s'. split; [by apply (rtc_l _ s s1)|done].
Qed.

(** Everybody has counted himself. *)
Lemma all_counted l : counted_in l = length l -> Forall (fun t => counted t = true) l.
Proof.
  unfold counted_in. induction l as [|x l IH]; intros Hl; [done|]. simpl in Hl. destruct (counted x) eqn:E; simpl in Hl.
  - apply Forall_cons. split; [done|]. apply IH. lia.
  - pose proof (List.filter_length_le counted l). lia.
Qed.

(** C28: the start of the threads, under every interleaving and with waits that
    return early.  The main thread is never left waiting: until [thread_init] has
    returned somebody can go on, every step but an early return brings the end
    nearer, and the end is reached.  The aggregator and the klogger are created
    only when every worker has set itself up, and [thread_init] returns when all
    [nworkers + 2] threads have. *)
Theorem threads_start s (Hr : reachable s) :
  (mpc s <> MDone -> exists s', step s s') /\
  (forall s', step s s' -> (left_to_do s' < left_to_do s)%nat) /\
  (exists s', rtc step s s' /\ mpc s' = MDone) /\
  (forall todo, mpc s = MSpawn todo Second -> (nworkers <= counted_in (tpcs s))%nat) /\
  (mpc s = MDone -> length (tpcs s) = (nworkers + 2)%nat /\ init_count s = Z.of_nat (nworkers + 2) /\ Forall (fun t => counted t = true) (tpcs s)).
Proof.
  pose proof (reachable_inv s Hr) as I. split; [by apply progress|]. split; [intros s'; apply step_decreases|]. split; [by apply completes|].
  destruct I as [_ _ I3 I4 I5 _]. split; intros; rewrite ?H in I4, I5; cbn in I4, I5; [done|]. pose proof (counted_all (tpcs s)).
  split; [done|]. split; [lia|]. apply all_counted. lia.
Qed.
End start.

Fixpoint run (n : nat) (who : list (option nat)) (s : start) : option start :=
  match who with
  | [] => Some s
  | w :: who' => s' ← (match w with None => step_main n s | Some i => step_thread i s end); run n who' s'
  end.

Lemma run_reachable n who : forall s s', reachable n s -> run n who s = Some s' -> reachable n s'.
Proof.
  induction who as [|w who IH]; intros s s' Hr E; cbn in E; [congruence|]. apply bind_Some in E as (s1 & E1 & E). apply (IH s1); [|done].
  apply (r_step n s); [done|]. destruct w as [i|]; [right; by exists i|by left].
Qed.

(** One worker: the main thread waits twice, once for it and once for the others. *)
Lemma threads_start_witness :
  match run 1 [None; None; None; None; Some 0%nat; Some 0%nat; Some 0%nat; Some 0%nat; Some 0%nat; None; None; None; None; None; None;
               Some 1%nat; Some 1%nat; Some 1%nat; Some 1%nat; None; None; Some 2%nat; Some 2%nat; Some 2%nat; Some 2%nat; None] (start_state 1) with
  | Some s => mpc s <> MDone /\ exists s', rtc (step 1) s s' /\ mpc s' = MDone
  | None => False
  end.
Proof.
  destruct (run 1 _ _) as [s|] eqn:E; [|vm_compute in E; discriminate E].
  assert (reachable 1 s) as Hr by (exact (run_reachable 1 _ _ s (r_start 1) E)). vm_compute in E. injection E as <-.
  split; [done|]. apply (threads_start 1 _ Hr).
Defined.
