(* ===== verification/Crew.v ===== *)
(** * What the threads are given (mc_thread.c)

    [thread_init] before and between the steps of [Spawn]: the event base, pipe,
    statistics, log buffer and suffix cache of each worker, the statistics of the
    dispatcher and the aggregator, the keys, and the threads themselves, in the
    order of the code.  A step that fails makes [thread_init] return its status;
    [main] then exits.  The waits for the threads, which [Spawn] is about, are one
    call here.  Messages to the log are left out. *)

From stdpp Require Import list.
From S2P Require Import Prelude Slabs Sys.
Open Scope Z_scope.

(** ** Calls *)

Inductive kind := KMutex | KStatsThread | KStatsSlabs | KKbuf | KSuffix | KBase | KThreads.
Inductive tkey := Key_stats_mutex | Key_stats_thread | Key_stats_slabs | Key_kbuf.
Inductive who := W (i : nat) | Aggregator | Klogger.

#[export] Instance kind_eq_dec : EqDecision kind.
Proof. solve_decision. Defined.

(** [New k] makes an object of the kind; [Watch] is [event_set], [event_base_set]
    and [event_add], [Timer] likewise for a timer. *)
Inductive tcall :=
  | New (k : kind)
  | Mutex_init (m : Z)
  | Mutex_destroy (m : Z)
  | Deinit (k : kind) (h : Z)
  | Key_create (k : tkey)
  | Setspecific (k : tkey) (v : option Z)
  | Pipe
  | Watch (base fd : Z)
  | Timer (base : Z)
  | Sem_init (n : Z)
  | Sem_destroy
  | Create (t : who)
  | Await (n : nat).

Definition tanswer (c : tcall) : Type :=
  match c with
  | New _ => option Z
  | Pipe => option (Z * Z)
  | Mutex_destroy _ | Deinit _ _ | Sem_init _ | Sem_destroy | Await _ => unit
  | _ => Z
  end.

Notation tio := (prog tanswer).
Notation ask c := (call_ (R := tanswer) c).

(** The objects there are, the ends of pipes in use, the events watched, the
    semaphore and the threads, each with what was watched when it was created. *)
Record tworld := TWorld {
  objects : list (kind * Z);
  pipe_ends : list Z;
  watched : list (Z * Z);
  timers : list Z;
  sem : option Z;
  threads_run : list (who * list (Z * Z))
}.

Definition tanswers (c : tcall) (w : tworld) : tanswer c -> tworld -> Prop :=
  match c return tanswer c -> tworld -> Prop with
  | New k => fun r w' => match r with
                        | Some h => (k, h) ∉ objects w /\ w' = TWorld ((k, h) :: objects w) (pipe_ends w) (watched w) (timers w) (sem w) (threads_run w)
                        | None => w' = w
                        end
  | Deinit k h => fun _ w' => w' = TWorld (List.filter (fun o => negb (bool_decide (o = (k, h)))) (objects w)) (pipe_ends w) (watched w) (timers w) (sem w) (threads_run w)
  | Pipe => fun r w' => match r with
                       | Some (a, b) => a <> b /\ a ∉ pipe_ends w /\ b ∉ pipe_ends w /\ w' = TWorld (objects w) (a :: b :: pipe_ends w) (watched w) (timers w) (sem w) (threads_run w)
                       | None => w' = w
                       end
  | Watch base fd => fun r w' => (r < 0 /\ w' = w) \/ (r = 0 /\ w' = TWorld (objects w) (pipe_ends w) ((base, fd) :: watched w) (timers w) (sem w) (threads_run w))
  | Timer base => fun r w' => (r < 0 /\ w' = w) \/ (r = 0 /\ w' = TWorld (objects w) (pipe_ends w) (watched w) (base :: timers w) (sem w) (threads_run w))
  | Sem_init n => fun _ w' => w' = TWorld (objects w) (pipe_ends w) (watched w) (timers w) (Some n) (threads_run w)
  | Sem_destroy => fun _ w' => w' = TWorld (objects w) (pipe_ends w) (watched w) (timers w) None (threads_run w)
  | Create t => fun r w' => (r <> 0 /\ w' = w) \/ (r = 0 /\ w' = TWorld (objects w) (pipe_ends w) (watched w) (timers w) (sem w) (threads_run w ++ [(t, watched w)]))
  | Mutex_init _ | Key_create _ | Setspecific _ _ => fun _ w' => w' = w
  | Mutex_destroy _ | Await _ => fun _ w' => w' = w
  end.

(** ** Steps that may fail *)

Definition stop {A} (status : rstatus) : tio (rstatus + A) := mret (inl status).
Definition go {A} (a : A) : tio (rstatus + A) := mret (inr a).
Definition and_then {A B} (p : tio (rstatus + A)) (f : A -> tio (rstatus + B)) : tio (rstatus + B) :=
  r ← p; match r with inl status => stop status | inr a => f a end.
Notation "x <-? p ; q" := (and_then p (fun x => q)) (at level 20, p at level 100, q at level 200, right associativity).

(** A call whose answer may be NULL. *)
Definition made (k : kind) (status : rstatus) : tio (rstatus + Z) :=
  h ← ask (New k); match h : option Z with Some h => go h | None => stop status end.

(** ** The thread descriptors *)

Record worker := Worker {
  t_base : option Z;
  notify_receive_fd : Z;
  notify_send_fd : Z;
  stats_mutex : option Z;
  stats_thread : option Z;
  stats_slabs : option Z;
  kbuf_ : option Z;
  suffix_cache : option Z
}.

Definition thread_create (t : who) : tio (rstatus + unit) :=
  err ← ask (Create t);
  if negb (err =? 0) then stop MC_ERROR else go tt.

Definition thread_setup_stats (t : worker) : tio (rstatus + worker) :=
  m <-? made KMutex MC_ENOMEM;
  err ← ask (Mutex_init m);
  if negb (err =? 0) then stop MC_ERROR
  else
    st ← ask (New KStatsThread);
    match st : option Z with
    | None => ask (Mutex_destroy m);; stop MC_ERROR
    | Some st =>
        ss ← ask (New KStatsSlabs);
        match ss : option Z with
        | None => ask (Mutex_destroy m);; ask (Deinit KStatsThread st);; stop MC_ERROR
        | Some ss => go (Worker (t_base t) (notify_receive_fd t) (notify_send_fd t) (Some m) (Some st) (Some ss) (kbuf_ t) (suffix_cache t))
        end
    end.

Fixpoint set_each (kvs : list (tkey * option Z)) : tio (rstatus + unit) :=
  match kvs with
  | [] => go tt
  | (k, v) :: kvs' =>
      err ← ask (Setspecific k v);
      if negb (err =? 0) then stop MC_ERROR else set_each kvs'
  end.
Definition thread_setkeys (t : worker) : tio (rstatus + unit) :=
  set_each [(Key_stats_mutex, stats_mutex t); (Key_stats_thread, stats_thread t); (Key_stats_slabs, stats_slabs t); (Key_kbuf, kbuf_ t)].

Definition thread_setup (t : worker) : tio (rstatus + worker) :=
  base <-? made KBase MC_ERROR;
  status ← ask (Watch base (notify_receive_fd t));
  if status <? 0 then stop MC_ERROR
  else
    t <-? thread_setup_stats t;
    kb <-? made KKbuf MC_ENOMEM;
    sc <-? made KSuffix MC_ENOMEM;
    go (Worker (Some base) (notify_receive_fd t) (notify_send_fd t) (stats_mutex t) (stats_thread t) (stats_slabs t) (Some kb) (Some sc)).

Definition thread_setup_aggregator (num_workers : nat) : tio (rstatus + unit) :=
  base <-? made KBase MC_ERROR;
  ask (Sem_init (Z.of_nat num_workers + 1));;
  st ← ask (New KStatsThread);
  match st : option Z with
  | None => ask Sem_destroy;; stop MC_ERROR
  | Some st =>
      ss ← ask (New KStatsSlabs);
      match ss : option Z with
      | None => ask Sem_destroy;; ask (Deinit KStatsThread st);; stop MC_ERROR
      | Some _ => status ← ask (Timer base); if status <? 0 then stop MC_ERROR else go tt
      end
  end.

Definition thread_setup_klogger : tio (rstatus + unit) :=
  base <-? made KBase MC_ERROR;
  status ← ask (Timer base); if status <? 0 then stop MC_ERROR else go tt.

(** ** [thread_init] *)

Fixpoint create_keys (ks : list tkey) : tio (rstatus + unit) :=
  match ks with
  | [] => go tt
  | k :: ks' => err ← ask (Key_create k); if negb (err =? 0) then stop MC_ERROR else create_keys ks'
  end.

(** The loops over the workers: [n] of them from [i] on. *)
Fixpoint setup_workers (n : nat) : tio (rstatus + list worker) :=
  match n with
  | O => go []
  | S n' =>
      fds ← ask Pipe;
      match fds : option (Z * Z) with
      | None => stop MC_ERROR
      | Some (r, s) =>
          t <-? thread_setup (Worker None r s None None None None None);
          ts <-? setup_workers n';
          go (t :: ts)
      end
  end.
Fixpoint create_workers (n i : nat) : tio (rstatus + unit) :=
  match n with
  | O => go tt
  | S n' => _ <-? thread_create (W i); create_workers n' (S i)
  end.

(** The descriptors of the workers and, last, of the dispatcher. *)
Definition thread_init (main_base : Z) (nworkers : nat) : tio (rstatus + list worker) :=
  _ <-? made KThreads MC_ENOMEM;
  _ <-? create_keys [Key_stats_mutex; Key_stats_thread; Key_stats_slabs; Key_kbuf];
  dispatcher <-? thread_setup_stats (Worker (Some main_base) 0 0 None None None None None);
  _ <-? thread_setkeys dispatcher;
  ts <-? setup_workers nworkers;
  _ <-? create_workers nworkers 0;
  ask (Await nworkers);;
  _ <-? thread_setup_aggregator nworkers;
  _ <-? thread_create Aggregator;
  _ <-? thread_setup_klogger;
  _ <-? thread_create Klogger;
  ask (Await (nworkers + 2));;
  go (ts ++ [dispatcher]).

(** ** What the workers own *)

Definition stats_own (t : worker) : list (kind * Z) :=
  option_list (pair KStatsSlabs <$> stats_slabs t) ++ option_list (pair KStatsThread <$> stats_thread t) ++ option_list (pair KMutex <$> stats_mutex t).
Definition own (t : worker) : list (kind * Z) :=
  option_list (pair KSuffix <$> suffix_cache t) ++ option_list (pair KKbuf <$> kbuf_ t) ++ stats_own t ++ option_list (pair KBase <$> t_base t).
Definition ends (t : worker) : list Z := [notify_receive_fd t; notify_send_fd t].
Definition watch (t : worker) : list (Z * Z) := option_list ((fun b => (b, notify_receive_fd t)) <$> t_base t).

(** The last worker first. *)
Fixpoint each {A} (f : worker -> list A) (ts : list worker) : list A :=
  match ts with [] => [] | t :: ts' => each f ts' ++ f t end.

(** Nothing a worker needs is missing. *)
Definition complete (t : worker) : Prop := length (own t) = 6%nat /\ length (watch t) = 1%nat.

Definition plus (os : list (kind * Z)) (ps : list Z) (ws : list (Z * Z)) (w : tworld) : tworld :=
  TWorld (os ++ objects w) (ps ++ pipe_ends w) (ws ++ watched w) (timers w) (sem w) (threads_run w).
Definition wf (w : tworld) : Prop := NoDup (objects w) /\ NoDup (pipe_ends w).

Lemma plus_plus os1 ps1 ws1 os2 ps2 ws2 w : plus os2 ps2 ws2 (plus os1 ps1 ws1 w) = plus (os2 ++ os1) (ps2 ++ ps1) (ws2 ++ ws1) w.
Proof. unfold plus. cbn. by rewrite !app_assoc. Qed.
Lemma plus_nil w : plus [] [] [] w = w.
Proof. by destruct w. Qed.

(** What a step has added when it goes on; otherwise only that no thread was
    created. *)
Definition adds_to {A} (w : tworld) (P : A -> Prop) (os : A -> list (kind * Z)) (ps : A -> list Z) (ws : A -> list (Z * Z)) (r : rstatus + A) (w' : tworld) : Prop :=
  threads_run w' = threads_run w /\
  match r with
  | inl status => status <> MC_OK
  | inr a => P a /\ w' = plus (os a) (ps a) (ws a) w /\ (wf w -> wf w')
  end.

Lemma and_then_spec {A B} (p : tio (rstatus + A)) (f : A -> tio (rstatus + B)) Q w :
  sat tanswers p (fun r w' => match r with inl status => Q (inl status) w' | inr a => sat tanswers (f a) Q w' end) w -> sat tanswers (and_then p f) Q w.
Proof. intros Hp. apply sat_bind. eapply sat_mono; [exact Hp|]. intros [st|a] w' H; exact H. Qed.

Lemma made_spec k status w : status <> MC_OK -> sat tanswers (made k status) (adds_to w (fun _ => True) (fun h => [(k, h)]) (fun _ => []) (fun _ => [])) w.
Proof.
  intros Hs. unfold made. sys_call. intros [h|] w' Hw; cbn in Hw; [|by subst w'; split]. destruct Hw as [Hn ->]. split; [done|]. split; [done|]. split; [done|].
  intros [H1 H2]. split; [by apply NoDup_cons|done].
Qed.

Lemma setup_stats_spec t w : sat tanswers (thread_setup_stats t)
  (adds_to w (fun t' => exists m st ss, t' = Worker (t_base t) (notify_receive_fd t) (notify_send_fd t) (Some m) (Some st) (Some ss) (kbuf_ t) (suffix_cache t)) stats_own (fun _ => []) (fun _ => [])) w.
Proof.
  unfold thread_setup_stats. apply and_then_spec. eapply sat_mono; [by apply made_spec|]. intros [status|m] w1 [Hr H]; [by split|].
  destruct H as (_ & E1 & W1). sys_call. intros err w2 ->. destruct (negb _); [by split|].
  sys_call. intros [st|] w3 H3; cbn in H3; [|subst w3; sys_call; intros ? w4 ->; by split]. destruct H3 as [Hn3 ->].
  sys_call. intros [ss|] w4 H4; cbn in H4; [|subst w4; sys_call; intros ? w5 ->; sys_call; intros ? w6 ->; by split]. destruct H4 as [Hn4 ->].
  split; [done|]. split; [by exists m, st, ss|]. subst w1. split; [done|]. intros Hw. specialize (W1 Hw). destruct W1 as [W1 W2].
  split; [|done]. cbn in *. apply NoDup_cons. split; [done|]. by apply NoDup_cons.
Qed.

Lemma setup_spec r s w : sat tanswers (thread_setup (Worker None r s None None None None None))
  (adds_to w (fun t => complete t /\ ends t = [r; s]) own (fun _ => []) watch) w.
Proof.
  unfold thread_setup. apply and_then_spec. eapply sat_mono; [by apply made_spec|]. intros [status|b] w1 [Hr H]; [by split|]. destruct H as (_ & E1 & W1).
  sys_call. intros err w2 Hw2. destruct (Z.ltb_spec err 0) as [Hlt|Hge]; [split; [|done]; destruct Hw2 as [[_ ->]|[? _]]; [congruence|lia]|]. destruct Hw2 as [[? _]|[_ ->]]; [lia|].
  cbn [notify_receive_fd]. apply and_then_spec. eapply sat_mono; [by apply setup_stats_spec|]. intros [status|t] w3 [Hr3 H]; [split; [cbn in *; congruence|done]|].
  destruct H as ((m & st & ss & ->) & E3 & W3). cbn [stats_mutex stats_thread stats_slabs notify_receive_fd notify_send_fd].
  apply and_then_spec. eapply sat_mono; [by apply made_spec|]. intros [status|kb] w4 [Hr4 H]; [split; [cbn in *; congruence|done]|]. destruct H as (_ & E4 & W4).
  apply and_then_spec. eapply sat_mono; [by apply made_spec|]. intros [status|sc] w5 [Hr5 H]; [split; [cbn in *; congruence|done]|]. destruct H as (_ & E5 & W5).
  split; [cbn in *; congruence|]. split; [done|]. split; [subst; unfold plus; by rewrite ?plus_plus|]. intros Hw. apply W5, W4, W3. destruct (W1 Hw). by split.
Qed.

Lemma setup_workers_spec n : forall w, sat tanswers (setup_workers n)
  (adds_to w (fun ts => length ts = n /\ Forall complete ts) (each own) (each ends) (each watch)) w.
Proof.
  induction n as [|n IH]; intros w; cbn [setup_workers]; [split; [done|]; rewrite plus_nil; by split_and!|].
  sys_call. intros [[r s]|] w1 H1; cbn in H1; [|by subst w1; split]. destruct H1 as (Hrs & Hr & Hs & ->).
  apply and_then_spec. eapply sat_mono; [by apply setup_spec|]. intros [status|t] w2 [Hr2 H]; [by split|]. destruct H as ([Hc He] & E2 & W2).
  apply and_then_spec. eapply sat_mono; [by apply IH|]. intros [status|ts] w3 [Hr3 H]; [split; [cbn in *; congruence|done]|]. destruct H as ([Hlen Hcs] & E3 & W3).
  split; [cbn in *; congruence|]. split; [split; [cbn; by rewrite Hlen|by apply Forall_cons]|]. split.
  - subst w3 w2. cbn [each]. rewrite He. unfold plus. cbn. by rewrite <-!app_assoc.
  - intros [H1 H2]. apply W3, W2. split; [done|]. cbn. apply NoDup_cons. split; [|by apply NoDup_cons]. rewrite elem_of_cons. tauto.
Qed.

(** ** The threads *)

(** What later steps leave of the earlier ones: everything when they go on. *)
Definition keeps {A} (w : tworld) (r : rstatus + A) (w' : tworld) : Prop :=
  threads_run w' = threads_run w /\ watched w' = watched w /\
  match r with inl status => status <> MC_OK | inr _ => objects w ⊆ objects w' /\ (sem w' = sem w) end.

Lemma keys_spec ks : forall w, sat tanswers (create_keys ks) (fun r w' => w' = w /\ (r = inr tt \/ r = inl MC_ERROR)) w.
Proof.
  induction ks as [|k ks IH]; intros w; cbn [create_keys]; [by split; [|left]|]. sys_call. intros err w' ->. destruct (negb _); [by split; [|right]|apply IH].
Qed.
Lemma set_each_spec kvs : forall w, sat tanswers (set_each kvs) (fun r w' => w' = w /\ (r = inr tt \/ r = inl MC_ERROR)) w.
Proof.
  induction kvs as [|[k v] kvs IH]; intros w; cbn [set_each]; [by split; [|left]|]. sys_call. intros err w' ->. destruct (negb _); [by split; [|right]|apply IH].
Qed.

Definition with_threads (l : list who) (w : tworld) : tworld :=
  TWorld (objects w) (pipe_ends w) (watched w) (timers w) (sem w) (threads_run w ++ ((fun t => (t, watched w)) <$> l)).

Lemma create_spec t w : sat tanswers (thread_create t) (fun r w' => (r = inl MC_ERROR /\ w' = w) \/ (r = inr tt /\ w' = with_threads [t] w)) w.
Proof. unfold thread_create. sys_call. intros err w' [[He ->]|[-> ->]]; [|by right]. destruct (Z.eqb_spec err 0); [done|by left]. Qed.

Lemma create_workers_spec n : forall i w, sat tanswers (create_workers n i) (fun r w' => exists l, w' = with_threads l w /\
  match r with inl status => status <> MC_OK | inr _ => l = W <$> seq i n end) w.
Proof.
  induction n as [|n IH]; intros i w; cbn [create_workers].
  { exists []. split; [|done]. unfold with_threads. rewrite app_nil_r. by destruct w. }
  apply and_then_spec. eapply sat_mono; [apply create_spec|]. intros r w' [[-> ->]|[-> ->]].
  - exists []. split; [|done]. unfold with_threads. rewrite app_nil_r. by destruct w.
  - eapply sat_mono; [apply IH|]. intros r w' (l & -> & Hr). exists (W i :: l). split; [unfold with_threads; cbn; by rewrite <-app_assoc|]. destruct r; [done|]. cbn. by rewrite Hr.
Qed.

Lemma setup_aggregator_spec n w : sat tanswers (thread_setup_aggregator n) (fun r w' => threads_run w' = threads_run w /\ watched w' = watched w /\
  match r with inl status => status <> MC_OK | inr _ => objects w ⊆ objects w' /\ sem w' = Some (Z.of_nat n + 1) end) w.
Proof.
  unfold thread_setup_aggregator. apply and_then_spec. unfold made. sys_call. intros [b|] w1 H1; cbn in H1; [destruct H1 as [_ ->]|by subst w1]. cbn [sat mret prog_ret go].
  sys_call. intros ? w2 ->. sys_call. intros [st|] w3 H3; cbn in H3; [destruct H3 as [_ ->]|subst w3; sys_call; intros ? w4 ->; by split_and!].
  sys_call. intros [ss|] w4 H4; cbn in H4; [destruct H4 as [_ ->]|subst w4; sys_call; intros ? w5 ->; sys_call; intros ? w6 ->; by split_and!].
  sys_call. intros err w5 [[Hr ->]|[-> ->]]; [destruct (Z.ltb_spec err 0); [|lia]; by split_and!|]. cbn. split_and!; try done. do 3 apply list_subseteq_cons. done.
Qed.

Lemma setup_klogger_spec w : sat tanswers thread_setup_klogger (keeps w) w.
Proof.
  unfold thread_setup_klogger. apply and_then_spec. unfold made. sys_call. intros [b|] w1 H1; cbn in H1; [destruct H1 as [_ ->]|by subst w1]. cbn [sat mret prog_ret go].
  sys_call. intros err w5 [[Hr ->]|[-> ->]]; [destruct (Z.ltb_spec err 0); [|lia]; by split_and!|]. cbn. split_and!; try done. by apply list_subseteq_cons.
Qed.

(** The threads created since [w], each of them at a time when exactly the events of
    the workers [ts] had been added to those that were watched. *)
Definition created_after (ts : list worker) (l : list who) (w w' : tworld) : Prop :=
  threads_run w' = threads_run w ++ ((fun t => (t, each watch ts ++ watched w)) <$> l).

(** [n] workers with all they need and nothing in common. *)
Definition crew (n : nat) (ts : list worker) : Prop :=
  length ts = n /\ Forall complete ts /\ NoDup (each own ts) /\ NoDup (each ends ts).

Lemma created_with ts l l' w w1 w2 : created_after ts l w w1 -> watched w1 = each watch ts ++ watched w ->
  w2 = with_threads l' w1 -> created_after ts (l ++ l') w w2.
Proof. unfold created_after. intros H1 H2 ->. cbn. by rewrite H1, H2, fmap_app, app_assoc. Qed.

(** C29: [thread_init], whatever fails on the way.  Every thread it creates is created
    when all the [n] workers are set up, each complete, with objects and pipes of its
    own and its event base watching its pipe: what is watched at that time is what
    was watched before and the pipes of these workers.  When the answer is OK these
    are the workers it returns, they share nothing with the dispatcher either, and
    the threads are the workers in order, the aggregator and the klogger; otherwise
    the answer is not OK. *)
Theorem threads_set_up main_base n w (Hw : wf w) :
  sat tanswers (thread_init main_base n) (fun r w' =>
    match r with
    | inl status => status <> MC_OK /\ (threads_run w' = threads_run w \/ exists ts l, crew n ts /\ created_after ts l w w')
    | inr all => exists ts d, all = ts ++ [d] /\ crew n ts /\ length (stats_own d) = 3%nat /\
        NoDup (each own ts ++ stats_own d) /\ each own ts ++ stats_own d ⊆ objects w' /\
        created_after ts ((W <$> seq 0 n) ++ [Aggregator; Klogger]) w w' /\ sem w' = Some (Z.of_nat n + 1)
    end) w.
Proof.
  unfold thread_init. apply and_then_spec. eapply sat_mono; [by apply made_spec|]. intros [status|h] w1 [R1 H]; [by split; [|left]|]. destruct H as (_ & E1 & W1).
  apply and_then_spec. eapply sat_mono; [apply keys_spec|]. intros r w2 [-> [->| ->]]; [|by split; [|left]].
  apply and_then_spec. eapply sat_mono; [apply setup_stats_spec|]. intros [status|d] w3 [R3 H]; [split; [done|left; congruence]|]. destruct H as ((m & st & ss & Ed) & E3 & W3).
  apply and_then_spec. eapply sat_mono; [apply set_each_spec|]. intros r w4 [-> [->| ->]]; [|split; [done|left; congruence]].
  apply and_then_spec. eapply sat_mono; [apply setup_workers_spec|]. intros [status|ts] w5 [R5 H]; [split; [done|left; congruence]|]. destruct H as ([Hlen Hc] & E5 & W5).
  assert (NoDup (objects w5) /\ NoDup (pipe_ends w5)) as [Hn1 Hn2] by (apply W5, W3, W1; exact Hw).
  assert (exists os, objects w5 = (each own ts ++ stats_own d) ++ os) as [os Eo] by (subst w5 w3 w1; cbn; eexists; rewrite <-app_assoc; reflexivity).
  assert (exists ps, pipe_ends w5 = each ends ts ++ ps) as [ps Ep] by (subst w5; by eexists).
  assert (watched w5 = each watch ts ++ watched w) as V5 by (subst w5 w3 w1; done).
  assert (created_after ts [] w w5) as C5 by (unfold created_after; rewrite app_nil_r; congruence). clear E1 E3 E5 W1 W3 W5 R1 R3 R5.
  rewrite Eo in Hn1. rewrite Ep in Hn2. apply NoDup_app in Hn1 as [Hn1 _]. apply NoDup_app in Hn2 as [Hn2 _].
  assert (crew n ts) as Hcrew by (apply NoDup_app in Hn1 as Hn; split_and!; [done|done|apply Hn|done]).
  apply and_then_spec. eapply sat_mono; [apply create_workers_spec|]. intros [status|[]] w6 (l & E6 & Hl).
  { split; [done|right]. exists ts, l. split; [done|]. by apply (created_with ts [] l w w5). }
  subst l. pose proof (created_with ts [] _ w w5 w6 C5 V5 E6) as C6. cbn [app] in C6. assert (watched w6 = watched w5) as V6 by by rewrite E6.
  assert (objects w6 = objects w5) as O6 by by rewrite E6. rewrite <-V6 in V5. clear E6.
  sys_call. intros [] ? ->. apply and_then_spec. eapply sat_mono; [apply setup_aggregator_spec|]. intros [status|[]] w7 (R7 & V7 & H7).
  { split; [done|right]. exists ts, (W <$> seq 0 n). split; [done|]. unfold created_after. by rewrite R7. }
  destruct H7 as [O7 S7]. assert (created_after ts (W <$> seq 0 n) w w7) as C7 by (unfold created_after; by rewrite R7). rewrite <-V7 in V5.
  apply and_then_spec. eapply sat_mono; [apply create_spec|]. intros r w8 [[-> E8]|[-> E8]]; [split; [done|right]; exists ts, (W <$> seq 0 n); by subst w8|].
  pose proof (created_with ts _ _ w w7 w8 C7 V5 E8) as C8. assert (watched w8 = each watch ts ++ watched w) as V8 by by rewrite E8.
  apply and_then_spec. eapply sat_mono; [apply setup_klogger_spec|]. intros [status|[]] w9 (R9 & V9 & H9).
  { split; [done|right]. eexists ts, _. split; [done|]. unfold created_after. rewrite R9. exact C8. }
  destruct H9 as [O9 S9]. assert (created_after ts ((W <$> seq 0 n) ++ [Aggregator]) w w9) as C9 by (unfold created_after; by rewrite R9). rewrite <-V9 in V8.
  apply and_then_spec. eapply sat_mono; [apply create_spec|]. intros r w10 [[-> E10]|[-> E10]]; [split; [done|right]; eexists ts, _; subst w10; split; [done|exact C9]|].
  pose proof (created_with ts _ _ w w9 w10 C9 V8 E10) as C10. rewrite <-app_assoc in C10.
  sys_call. intros [] ? ->. exists ts, d. subst w10 w8 d. cbn [with_threads objects sem threads_run] in *. rewrite O6, Eo in O7.
  split_and!; try done; [set_solver|congruence].
Qed.

Lemma threads_set_up_witness :
  sat tanswers (thread_init 7 2) (fun r w' =>
    match r with
    | inl status => status <> MC_OK
    | inr all => length all = 3%nat /\ (threads_run w').*1 = [W 0; W 1; Aggregator; Klogger] /\
        Forall (fun x => length x.2 = 2%nat) (threads_run w') /\ sem w' = Some 3
    end) (TWorld [(KBase, 7)] [] [] [] None []).
Proof.
  assert (wf (TWorld [(KBase, 7)] [] [] [] None [])) as Hw by (split; [apply NoDup_singleton|apply NoDup_nil_2]).
  eapply sat_mono; [exact (threads_set_up 7 2 _ Hw)|]. intros [status|all] w' H; [apply H|].
  destruct H as (ts & d & -> & (Hl & Hc & _) & _ & _ & _ & Ht & Hs). split; [rewrite length_app, Hl; reflexivity|].
  unfold created_after in Ht. rewrite Ht. split; [reflexivity|]. split; [|exact Hs].
  assert (length (each watch ts ++ []) = 2%nat) as H2.
  { destruct ts as [|t1 [|t2 [|]]]; try discriminate Hl. apply Forall_cons in Hc as [[_ H1] Hc]. apply Forall_cons in Hc as [[_ H2] _].
    cbn [each]. rewrite !length_app, H1, H2. reflexivity. }
  repeat (apply Forall_cons; split; [exact H2|]). apply Forall_nil_2.
Defined.
