(* ===== verification/Queue.v ===== *)
(** * Linked queues (mc_queue.h)

    The macros the server uses on its hash chains ([SLIST]), its connection queues
    ([STAILQ]) and its LRU and free queues ([TAILQ]), and [LIST], on a memory of
    links.  An element and a head are two words each: the pointer to the next (or
    first) element, and the address of the word that points here (or of the last
    next pointer of the queue).  An address of such a word is [Head h] or
    [Field a], and [&(elm)->field.tqe_next] is the address of the element's links,
    as [&(head)->tqh_first] is that of the head: [TAILQ_LAST] and [TAILQ_PREV]
    rely on the two having the same layout.

    The other files use lists for these queues; the theorems show that this is
    what the macros implement.  [CIRCLEQ], which nothing uses, is left out, and so
    are the checks and traces of debug builds. *)

From stdpp Require Import gmap.
From S2P Require Import Prelude.
Open Scope Z_scope.

Inductive loc := Head (h : Z) | Field (a : Z).

#[export] Instance loc_eq_dec : EqDecision loc.
Proof. solve_decision. Defined.
#[export] Instance loc_countable : Countable loc.
Proof.
  refine (inj_countable' (fun p => match p with Head h => inl h | Field a => inr a end)
    (fun x => match x with inl h => Head h | inr a => Field a end) _). by intros [].
Defined.
#[export] Instance Field_inj : Inj (=) (=) Field.
Proof. by intros ?? [= ->]. Qed.

(** The first and the second word of every head and element in memory. *)
Record links := Links {
  nxt : gmap loc (option Z);
  prv : gmap loc (option loc)
}.

Definition get_next (p : loc) : M links (option Z) := o ← gets (fun m => nxt m !! p); lift o.
Definition get_prev (p : loc) : M links (option loc) := o ← gets (fun m => prv m !! p); lift o.
Definition set_next (p : loc) (v : option Z) : M links unit :=
  _ ← get_next p; modify (fun m => Links (<[p := v]> (nxt m)) (prv m)).
Definition set_prev (p : loc) (v : option loc) : M links unit :=
  _ ← get_prev p; modify (fun m => Links (nxt m) (<[p := v]> (prv m))).

(** ** Singly-linked lists *)

Definition SLIST_FIRST (head : Z) : M links (option Z) := get_next (Head head).
Definition SLIST_NEXT (elm : Z) : M links (option Z) := get_next (Field elm).
Definition SLIST_EMPTY (head : Z) : M links bool := f ← SLIST_FIRST head; mret (bool_decide (f = None)).
Definition SLIST_INIT (head : Z) : M links unit := set_next (Head head) None.

Definition SLIST_INSERT_HEAD (head elm : Z) : M links unit :=
  f ← SLIST_FIRST head;
  set_next (Field elm) f;;
  set_next (Head head) (Some elm).

Definition SLIST_INSERT_AFTER (slistelm elm : Z) : M links unit :=
  n ← SLIST_NEXT slistelm;
  set_next (Field elm) n;;
  set_next (Field slistelm) (Some elm).

Definition SLIST_REMOVE_HEAD (head : Z) : M links unit :=
  f ← SLIST_FIRST head; a ← lift f;
  n ← SLIST_NEXT a;
  set_next (Head head) n;;
  set_next (Field a) None.

Definition SLIST_REMOVE_AFTER (elm : Z) : M links unit :=
  f ← SLIST_NEXT elm; a ← lift f;
  n ← SLIST_NEXT a;
  set_next (Field elm) n;;
  set_next (Field a) None.

(** [while (NEXT(curelm) != elm) curelm = NEXT(curelm)] *)
Fixpoint find_before (fuel : nat) (curelm : option Z) (elm : Z) : M links Z :=
  match fuel with
  | O => undef
  | S fuel' =>
      cur ← lift curelm;
      n ← get_next (Field cur);
      if bool_decide (n = Some elm) then mret cur else find_before fuel' n elm
  end.

Definition SLIST_REMOVE (head elm : Z) : M links unit :=
  f ← SLIST_FIRST head;
  if bool_decide (f = Some elm) then SLIST_REMOVE_HEAD head
  else
    fuel ← gets (fun m => size (nxt m));
    cur ← find_before fuel f elm;
    SLIST_REMOVE_AFTER cur.

(** ** Singly-linked tail queues *)

Definition STAILQ_FIRST (head : Z) : M links (option Z) := get_next (Head head).
Definition STAILQ_NEXT (elm : Z) : M links (option Z) := get_next (Field elm).
Definition STAILQ_EMPTY (head : Z) : M links bool := f ← STAILQ_FIRST head; mret (bool_decide (f = None)).

Definition STAILQ_INIT (head : Z) : M links unit :=
  set_next (Head head) None;;
  set_prev (Head head) (Some (Head head)).

(** [stqh_last - offsetof(type, field)]: the element whose link that is. *)
Definition STAILQ_LAST (head : Z) : M links (option Z) :=
  e ← STAILQ_EMPTY head;
  if e : bool then mret None
  else
    l ← get_prev (Head head);
    match l with Some (Field a) => mret (Some a) | _ => undef end.

Definition STAILQ_CONCAT (head1 head2 : Z) : M links unit :=
  e ← STAILQ_EMPTY head2;
  if e : bool then mret tt
  else
    l ← get_prev (Head head1); p ← lift l;
    f ← STAILQ_FIRST head2;
    set_next p f;;
    l2 ← get_prev (Head head2);
    set_prev (Head head1) l2;;
    STAILQ_INIT head2.

Definition STAILQ_INSERT_AFTER (head tqelm elm : Z) : M links unit :=
  n ← STAILQ_NEXT tqelm;
  set_next (Field elm) n;;
  when (bool_decide (n = None)) (set_prev (Head head) (Some (Field elm)));;
  set_next (Field tqelm) (Some elm).

Definition STAILQ_INSERT_HEAD (head elm : Z) : M links unit :=
  f ← STAILQ_FIRST head;
  set_next (Field elm) f;;
  when (bool_decide (f = None)) (set_prev (Head head) (Some (Field elm)));;
  set_next (Head head) (Some elm).

Definition STAILQ_INSERT_TAIL (head elm : Z) : M links unit :=
  set_next (Field elm) None;;
  l ← get_prev (Head head); p ← lift l;
  set_next p (Some elm);;
  set_prev (Head head) (Some (Field elm)).

Definition STAILQ_REMOVE_HEAD (head : Z) : M links unit :=
  f ← STAILQ_FIRST head; a ← lift f;
  n ← STAILQ_NEXT a;
  set_next (Head head) n;;
  when (bool_decide (n = None)) (set_prev (Head head) (Some (Head head)));;
  set_next (Field a) None.

Definition STAILQ_REMOVE_AFTER (head elm : Z) : M links unit :=
  f ← STAILQ_NEXT elm; a ← lift f;
  n ← STAILQ_NEXT a;
  set_next (Field elm) n;;
  when (bool_decide (n = None)) (set_prev (Head head) (Some (Field elm)));;
  set_next (Field a) None.

Definition STAILQ_REMOVE (head elm : Z) : M links unit :=
  f ← STAILQ_FIRST head;
  if bool_decide (f = Some elm) then STAILQ_REMOVE_HEAD head
  else
    fuel ← gets (fun m => size (nxt m));
    cur ← find_before fuel f elm;
    STAILQ_REMOVE_AFTER head cur.

Definition STAILQ_SWAP (head1 head2 : Z) : M links unit :=
  swap_first ← STAILQ_FIRST head1;
  swap_last ← get_prev (Head head1);
  f2 ← STAILQ_FIRST head2;
  set_next (Head head1) f2;;
  l2 ← get_prev (Head head2);
  set_prev (Head head1) l2;;
  set_next (Head head2) swap_first;;
  set_prev (Head head2) swap_last;;
  e1 ← STAILQ_EMPTY head1;
  when e1 (set_prev (Head head1) (Some (Head head1)));;
  e2 ← STAILQ_EMPTY head2;
  when e2 (set_prev (Head head2) (Some (Head head2))).

(** ** Lists *)

Definition LIST_FIRST (head : Z) : M links (option Z) := get_next (Head head).
Definition LIST_NEXT (elm : Z) : M links (option Z) := get_next (Field elm).
Definition LIST_EMPTY (head : Z) : M links bool := f ← LIST_FIRST head; mret (bool_decide (f = None)).
Definition LIST_INIT (head : Z) : M links unit := set_next (Head head) None.

(** The back link of the element pointed to, if any. *)
Definition set_back (o : option Z) (v : option loc) : M links unit :=
  match o with Some a => set_prev (Field a) v | None => mret tt end.

Definition LIST_INSERT_AFTER (listelm elm : Z) : M links unit :=
  n ← LIST_NEXT listelm;
  set_next (Field elm) n;;
  set_back n (Some (Field elm));;
  set_next (Field listelm) (Some elm);;
  set_prev (Field elm) (Some (Field listelm)).

Definition LIST_INSERT_BEFORE (listelm elm : Z) : M links unit :=
  p ← get_prev (Field listelm);
  set_prev (Field elm) p;;
  set_next (Field elm) (Some listelm);;
  p ← lift p;
  set_next p (Some elm);;
  set_prev (Field listelm) (Some (Field elm)).

Definition LIST_INSERT_HEAD (head elm : Z) : M links unit :=
  f ← LIST_FIRST head;
  set_next (Field elm) f;;
  set_back f (Some (Field elm));;
  set_next (Head head) (Some elm);;
  set_prev (Field elm) (Some (Head head)).

Definition LIST_REMOVE (elm : Z) : M links unit :=
  n ← LIST_NEXT elm;
  p ← get_prev (Field elm);
  set_back n p;;
  p ← lift p;
  set_next p n;;
  set_next (Field elm) None;;
  set_prev (Field elm) None.

Definition LIST_SWAP (head1 head2 : Z) : M links unit :=
  f1 ← LIST_FIRST head1;
  f2 ← LIST_FIRST head2;
  set_next (Head head1) f2;;
  set_next (Head head2) f1;;
  f ← LIST_FIRST head1;
  set_back f (Some (Head head1));;
  f ← LIST_FIRST head2;
  set_back f (Some (Head head2)).

(** ** Tail queues *)

Definition TAILQ_FIRST (head : Z) : M links (option Z) := get_next (Head head).
Definition TAILQ_NEXT (elm : Z) : M links (option Z) := get_next (Field elm).
Definition TAILQ_EMPTY (head : Z) : M links bool := f ← TAILQ_FIRST head; mret (bool_decide (f = None)).

Definition TAILQ_INIT (head : Z) : M links unit :=
  set_next (Head head) None;;
  set_prev (Head head) (Some (Head head)).

(** The second word at the address in the second word of [p] is the address of
    the pointer that is read. *)
Definition last_of (p : loc) : M links (option Z) :=
  l ← get_prev p; l ← lift l;
  q ← get_prev l; q ← lift q;
  get_next q.
Definition TAILQ_LAST (head : Z) : M links (option Z) := last_of (Head head).
Definition TAILQ_PREV (elm : Z) : M links (option Z) := last_of (Field elm).

Definition TAILQ_CONCAT (head1 head2 : Z) : M links unit :=
  e ← TAILQ_EMPTY head2;
  if e : bool then mret tt
  else
    l ← get_prev (Head head1); p ← lift l;
    f ← TAILQ_FIRST head2;
    set_next p f;;
    f ← TAILQ_FIRST head2; a ← lift f;
    l ← get_prev (Head head1);
    set_prev (Field a) l;;
    l2 ← get_prev (Head head2);
    set_prev (Head head1) l2;;
    TAILQ_INIT head2.

Definition TAILQ_INSERT_AFTER (head listelm elm : Z) : M links unit :=
  n ← TAILQ_NEXT listelm;
  set_next (Field elm) n;;
  match n with
  | Some a => set_prev (Field a) (Some (Field elm))
  | None => set_prev (Head head) (Some (Field elm))
  end;;
  set_next (Field listelm) (Some elm);;
  set_prev (Field elm) (Some (Field listelm)).

Definition TAILQ_INSERT_BEFORE (listelm elm : Z) : M links unit :=
  p ← get_prev (Field listelm);
  set_prev (Field elm) p;;
  set_next (Field elm) (Some listelm);;
  p ← lift p;
  set_next p (Some elm);;
  set_prev (Field listelm) (Some (Field elm)).

Definition TAILQ_INSERT_HEAD (head elm : Z) : M links unit :=
  f ← TAILQ_FIRST head;
  set_next (Field elm) f;;
  match f with
  | Some a => set_prev (Field a) (Some (Field elm))
  | None => set_prev (Head head) (Some (Field elm))
  end;;
  set_next (Head head) (Some elm);;
  set_prev (Field elm) (Some (Head head)).

Definition TAILQ_INSERT_TAIL (head elm : Z) : M links unit :=
  set_next (Field elm) None;;
  l ← get_prev (Head head);
  set_prev (Field elm) l;;
  p ← lift l;
  set_next p (Some elm);;
  set_prev (Head head) (Some (Field elm)).

Definition TAILQ_REMOVE (head elm : Z) : M links unit :=
  n ← TAILQ_NEXT elm;
  p ← get_prev (Field elm);
  match n with
  | Some a => set_prev (Field a) p
  | None => set_prev (Head head) p
  end;;
  p ← lift p;
  n ← TAILQ_NEXT elm;
  set_next p n;;
  set_next (Field elm) None;;
  set_prev (Field elm) None.

Definition TAILQ_SWAP (head1 head2 : Z) : M links unit :=
  swap_first ← TAILQ_FIRST head1;
  swap_last ← get_prev (Head head1);
  f2 ← TAILQ_FIRST head2;
  set_next (Head head1) f2;;
  l2 ← get_prev (Head head2);
  set_prev (Head head1) l2;;
  set_next (Head head2) swap_first;;
  set_prev (Head head2) swap_last;;
  f ← TAILQ_FIRST head1;
  match f with Some a => set_prev (Field a) (Some (Head head1)) | None => set_prev (Head head1) (Some (Head head1)) end;;
  f ← TAILQ_FIRST head2;
  match f with Some a => set_prev (Field a) (Some (Head head2)) | None => set_prev (Head head2) (Some (Head head2)) end.

(** ** Traversals

    [for (var = first; var; var = next(var)) body], and the variant that reads the
    next element before the body runs, with a variable [acc] of the body. *)

Section foreach.
Context {A : Type} (first : M links (option Z)) (next : Z -> M links (option Z)) (body : Z -> A -> M links A).

Fixpoint foreach_loop (fuel : nat) (var : option Z) (acc : A) : M links A :=
  match fuel, var with
  | O, _ => undef
  | S _, None => mret acc
  | S fuel', Some a => acc ← body a acc; n ← next a; foreach_loop fuel' n acc
  end.

Fixpoint foreach_safe_loop (fuel : nat) (var : option Z) (acc : A) : M links A :=
  match fuel, var with
  | O, _ => undef
  | S _, None => mret acc
  | S fuel', Some a => n ← next a; acc ← body a acc; foreach_safe_loop fuel' n acc
  end.

Definition foreach (acc : A) : M links A :=
  fuel ← gets (fun m => size (nxt m)); f ← first; foreach_loop (S fuel) f acc.
Definition foreach_safe (acc : A) : M links A :=
  fuel ← gets (fun m => size (nxt m)); f ← first; foreach_safe_loop (S fuel) f acc.
End foreach.

Definition SLIST_FOREACH {A} (head : Z) := @foreach A (SLIST_FIRST head) SLIST_NEXT.
Definition SLIST_FOREACH_SAFE {A} (head : Z) := @foreach_safe A (SLIST_FIRST head) SLIST_NEXT.
Definition STAILQ_FOREACH {A} (head : Z) := @foreach A (STAILQ_FIRST head) STAILQ_NEXT.
Definition STAILQ_FOREACH_SAFE {A} (head : Z) := @foreach_safe A (STAILQ_FIRST head) STAILQ_NEXT.
Definition TAILQ_FOREACH {A} (head : Z) := @foreach A (TAILQ_FIRST head) TAILQ_NEXT.
Definition TAILQ_FOREACH_SAFE {A} (head : Z) := @foreach_safe A (TAILQ_FIRST head) TAILQ_NEXT.
Definition TAILQ_FOREACH_REVERSE {A} (head : Z) := @foreach A (TAILQ_LAST head) TAILQ_PREV.
Definition TAILQ_FOREACH_REVERSE_SAFE {A} (head : Z) := @foreach_safe A (TAILQ_LAST head) TAILQ_PREV.
