(* ===== verification/QueueOk.v ===== *)
(** * The queue macros implement lists

    What each macro of [Queue] does to the list of elements of a queue, the
    interfaces [queue] and [tail_queue] that state it, and what a client can prove
    from these alone: traversals visit the elements in order, and any history of
    operations on any number of queues answers as lists do. *)

From stdpp Require Import gmap list.
From S2P Require Import Prelude Queue.
Open Scope Z_scope.
Implicit Types (h a c : Z) (l : list Z) (p q : loc) (m : links) (n : gmap loc (option Z)) (b : gmap loc (option loc)).

(** ** Chains of links *)

(** The address of the last next pointer of the chain. *)
Fixpoint fin p l : loc := match l with [] => p | a :: l' => fin (Field a) l' end.
(** The addresses of the pointers to the elements. *)
Fixpoint srcs p l : list loc := match l with [] => [] | a :: l' => p :: srcs (Field a) l' end.
Fixpoint seg n p l : Prop := match l with [] => True | a :: l' => n !! p = Some (Some a) /\ seg n (Field a) l' end.
Fixpoint back b p l : Prop := match l with [] => True | a :: l' => b !! Field a = Some (Some p) /\ back b (Field a) l' end.
Definition chain n p l : Prop := seg n p l /\ n !! fin p l = Some None.

Lemma fin_app p l1 l2 : fin p (l1 ++ l2) = fin (fin p l1) l2.
Proof. revert p. induction l1 as [|a l1 IH]; intros p; [done|]. apply IH. Qed.

Lemma seg_app n p l1 l2 : seg n p (l1 ++ l2) <-> seg n p l1 /\ seg n (fin p l1) l2.
Proof. revert p. induction l1 as [|a l1 IH]; intros p; simpl; [naive_solver|]. rewrite IH. naive_solver. Qed.

Lemma back_app b p l1 l2 : back b p (l1 ++ l2) <-> back b p l1 /\ back b (fin p l1) l2.
Proof. revert p. induction l1 as [|a l1 IH]; intros p; simpl; [naive_solver|]. rewrite IH. naive_solver. Qed.

Lemma chain_app n p l1 l2 : chain n p (l1 ++ l2) <-> seg n p l1 /\ chain n (fin p l1) l2.
Proof. unfold chain. rewrite seg_app, fin_app. naive_solver. Qed.

Lemma chain_first n p l : chain n p l -> n !! p = Some (head l).
Proof. destruct l as [|a l]; intros [H1 H2]; [done|]. apply H1. Qed.

Lemma elem_of_srcs q p l : q ∈ srcs p l -> q = p \/ exists a, a ∈ l /\ q = Field a.
Proof.
  revert p. induction l as [|a l IH]; intros p; simpl; [set_solver|]. rewrite elem_of_cons. intros [->|Hq]; [by left|].
  destruct (IH _ Hq) as [->|(c & Hc & ->)]; right; [exists a|exists c]; set_solver.
Qed.

Lemma fin_in p l : fin p l = p \/ exists a, a ∈ l /\ fin p l = Field a.
Proof.
  revert p. induction l as [|a l IH]; intros p; simpl; [by left|].
  destruct (IH (Field a)) as [->|(c & Hc & ->)]; right; [exists a|exists c]; set_solver.
Qed.

Lemma fin_src p l : NoDup (p :: (Field <$> l)) -> fin p l ∉ srcs p l.
Proof.
  revert p. induction l as [|a l IH]; intros p; simpl; [set_solver|]. intros Hn. apply NoDup_cons in Hn as [Hp Hn].
  rewrite not_elem_of_cons. split; [|by apply IH]. intros He. apply Hp. rewrite <-He. apply elem_of_cons.
  destruct (fin_in (Field a) l) as [->|(c & Hc & ->)]; [by left|]. right. by apply list_elem_of_fmap_2.
Qed.

Lemma NoDup_head h l : NoDup l -> NoDup (Head h :: (Field <$> l)).
Proof. intros Hl. constructor; [|by apply NoDup_fmap_2; [apply _|]]. rewrite list_elem_of_fmap. naive_solver. Qed.

Lemma NoDup_field a l : NoDup (a :: l) -> NoDup (Field a :: (Field <$> l)).
Proof. intros Hl. by apply (NoDup_fmap_2 Field) in Hl. Qed.

(** The words outside the chain do not matter. *)
Lemma seg_insert n p l q v : q ∉ srcs p l -> seg n p l -> seg (<[q := v]> n) p l.
Proof.
  revert p. induction l as [|a l IH]; intros p; simpl; [done|]. rewrite not_elem_of_cons. intros [H1 H2] [H3 H4].
  split; [by rewrite lookup_insert_ne|by apply IH].
Qed.

Lemma back_insert b p l q v : (forall a, a ∈ l -> q <> Field a) -> back b p l -> back (<[q := v]> b) p l.
Proof.
  revert p. induction l as [|a l IH]; intros p; simpl; [done|]. intros Hq [H3 H4].
  split; [rewrite lookup_insert_ne; [done|apply Hq; set_solver]|apply IH; [set_solver|done]].
Qed.

Lemma chain_insert n p l q v : q <> p -> (forall a, a ∈ l -> q <> Field a) -> chain n p l -> chain (<[q := v]> n) p l.
Proof.
  intros Hp Hq [H1 H2]. split.
  - apply seg_insert; [|done]. intros Hs. apply elem_of_srcs in Hs. naive_solver.
  - rewrite lookup_insert_ne; [done|]. destruct (fin_in p l) as [->|(c & Hc & ->)]; [done|]. by apply Hq.
Qed.

Lemma seg_ext n n' p l : (forall q, q ∈ p :: (Field <$> l) -> n' !! q = n !! q) -> seg n p l -> seg n' p l.
Proof.
  revert p. induction l as [|a l IH]; intros p; simpl; [done|]. intros He [H1 H2].
  split; [rewrite He by set_solver; done|]. apply IH; [|done]. intros q Hq. apply He. set_solver.
Qed.

Lemma back_ext b b' p l : (forall q, q ∈ (Field <$> l) -> b' !! q = b !! q) -> back b p l -> back b' p l.
Proof.
  revert p. induction l as [|a l IH]; intros p; simpl; [done|]. intros He [H1 H2].
  split; [rewrite He by set_solver; done|]. apply IH; [|done]. intros q Hq. apply He. set_solver.
Qed.

Lemma fin_footprint p l : fin p l ∈ p :: (Field <$> l).
Proof. destruct (fin_in p l) as [->|(a & Ha & ->)]; [by left|]. right. by apply list_elem_of_fmap_2. Qed.

Lemma chain_ext n n' p l : (forall q, q ∈ p :: (Field <$> l) -> n' !! q = n !! q) -> chain n p l -> chain n' p l.
Proof. intros He [H1 H2]. split; [by eapply seg_ext|]. rewrite He; [done|apply fin_footprint]. Qed.

(** ** What an operation touches *)

Definition footprint h l : list loc := Head h :: (Field <$> l).
Definition cell m p : Prop := is_Some (nxt m !! p) /\ is_Some (prv m !! p).

(** [m'] has the cells of [m], and is [m] outside of [X]. *)
Definition only (X : list loc) m m' : Prop :=
  (forall p, p ∉ X -> nxt m' !! p = nxt m !! p /\ prv m' !! p = prv m !! p) /\ (forall p, cell m p -> cell m' p).

Lemma only_refl X m : only X m m.
Proof. done. Qed.

Lemma only_next (X : list loc) m m' p v : only X m m' -> p ∈ X -> only X m (Links (<[p := v]> (nxt m')) (prv m')).
Proof.
  intros [H1 H2] Hp. split; simpl.
  - intros q Hq. destruct (H1 q Hq). split; [|done]. rewrite lookup_insert_ne; [done|]. by intros ->.
  - intros q Hq. destruct (H2 q Hq). split; simpl; [|done]. destruct (decide (p = q)) as [->|]; [rewrite lookup_insert_eq|rewrite lookup_insert_ne by done]; eauto.
Qed.

Lemma only_prev (X : list loc) m m' p v : only X m m' -> p ∈ X -> only X m (Links (nxt m') (<[p := v]> (prv m'))).
Proof.
  intros [H1 H2] Hp. split; simpl.
  - intros q Hq. destruct (H1 q Hq). split; [done|]. rewrite lookup_insert_ne; [done|]. by intros ->.
  - intros q Hq. destruct (H2 q Hq). split; simpl; [done|]. destruct (decide (p = q)) as [->|]; [rewrite lookup_insert_eq|rewrite lookup_insert_ne by done]; eauto.
Qed.

(** ** Symbolic execution *)

Lemma wp_get_next p v (R : option Z -> links -> Prop) m : nxt m !! p = Some v -> R v m -> wp (get_next p) R m.
Proof. intros Hp HR. unfold get_next. apply wp_bind, wp_gets. by eapply wp_lift. Qed.

Lemma wp_get_prev p v (R : option loc -> links -> Prop) m : prv m !! p = Some v -> R v m -> wp (get_prev p) R m.
Proof. intros Hp HR. unfold get_prev. apply wp_bind, wp_gets. by eapply wp_lift. Qed.

Lemma wp_set_next p v w (R : unit -> links -> Prop) m : nxt m !! p = Some w -> R tt (Links (<[p := v]> (nxt m)) (prv m)) -> wp (set_next p v) R m.
Proof. intros Hp HR. unfold set_next. apply wp_bind. eapply wp_get_next; [done|]. by apply wp_modify. Qed.

Lemma wp_set_prev p v w (R : unit -> links -> Prop) m : prv m !! p = Some w -> R tt (Links (nxt m) (<[p := v]> (prv m))) -> wp (set_prev p v) R m.
Proof. intros Hp HR. unfold set_prev. apply wp_bind. eapply wp_get_prev; [done|]. by apply wp_modify. Qed.

(** Lookups of a word among the words just written. *)
Ltac look := cbn [nxt prv]; repeat first [rewrite lookup_insert_eq | rewrite lookup_insert_ne by first [done|congruence|eauto]]; try first [eassumption|reflexivity].

Ltac q_go :=
  repeat match goal with
  | |- wp (_ ≫= _) _ _ => apply wp_bind; cbv beta
  | |- wp (mret _) _ _ => apply wp_ret
  | |- wp (gets _) _ _ => apply wp_gets; cbn [nxt prv]
  | |- wp (lift (Some _)) _ _ => eapply wp_lift; [reflexivity|]; cbv beta
  | |- wp (lift (head (_ :: _))) _ _ => eapply wp_lift; [reflexivity|]; cbv beta
  | |- wp (get_next _) _ _ => eapply wp_get_next; [solve [look]|]
  | |- wp (get_prev _) _ _ => eapply wp_get_prev; [solve [look]|]
  | |- wp (set_next _ _) _ _ => eapply wp_set_next; [solve [look]|]
  | |- wp (set_prev _ _) _ _ => eapply wp_set_prev; [solve [look]|]
  end.

Ltac touched := repeat first [apply only_next | apply only_prev]; [apply only_refl|..].

(** ** The interfaces *)

(** What the four kinds of queue have in common. *)
Class queue := Queue {
  q_repr : links -> Z -> list Z -> Prop;
  q_init : Z -> M links unit;
  q_first : Z -> M links (option Z);
  q_next : Z -> M links (option Z);
  q_insert_head : Z -> Z -> M links unit;
  q_insert_after : Z -> Z -> Z -> M links unit;
  q_remove : Z -> Z -> M links unit;

  q_nodup m h l : q_repr m h l -> NoDup l;
  q_size m h l : q_repr m h l -> (length l < size (nxt m))%nat;
  q_local m m' h l : q_repr m h l ->
    (forall p, p ∈ footprint h l -> nxt m' !! p = nxt m !! p /\ prv m' !! p = prv m !! p) -> q_repr m' h l;
  q_init_law m h : cell m (Head h) -> wp (q_init h) (fun _ m' => q_repr m' h [] /\ only (footprint h []) m m') m;
  q_first_law m h l : q_repr m h l -> wp (q_first h) (fun r m' => r = head l /\ m' = m) m;
  q_next_law m h l1 a l2 : q_repr m h (l1 ++ a :: l2) -> wp (q_next a) (fun r m' => r = head l2 /\ m' = m) m;
  q_insert_head_law m h l a : q_repr m h l -> a ∉ l -> cell m (Field a) ->
    wp (q_insert_head h a) (fun _ m' => q_repr m' h (a :: l) /\ only (footprint h (a :: l)) m m') m;
  q_insert_after_law m h l1 c l2 a : q_repr m h (l1 ++ c :: l2) -> a ∉ l1 ++ c :: l2 -> cell m (Field a) ->
    wp (q_insert_after h c a) (fun _ m' => q_repr m' h (l1 ++ c :: a :: l2) /\ only (footprint h (l1 ++ c :: a :: l2)) m m') m;
  q_remove_law m h l1 a l2 : q_repr m h (l1 ++ a :: l2) ->
    wp (q_remove h a) (fun _ m' => q_repr m' h (l1 ++ l2) /\ only (footprint h (l1 ++ a :: l2)) m m') m
}.

(** Queues that know their end. *)
Class tail_queue := TailQueue {
  tq_queue :: queue;
  q_last : Z -> M links (option Z);
  q_insert_tail : Z -> Z -> M links unit;
  q_concat : Z -> Z -> M links unit;

  q_last_law m h l : q_repr m h l -> wp (q_last h) (fun r m' => r = last l /\ m' = m) m;
  q_insert_tail_law m h l a : q_repr m h l -> a ∉ l -> cell m (Field a) ->
    wp (q_insert_tail h a) (fun _ m' => q_repr m' h (l ++ [a]) /\ only (footprint h (l ++ [a])) m m') m;
  q_concat_law m h1 h2 l1 l2 : q_repr m h1 l1 -> q_repr m h2 l2 -> h1 <> h2 -> l1 ## l2 ->
    wp (q_concat h1 h2) (fun _ m' => q_repr m' h1 (l1 ++ l2) /\ q_repr m' h2 [] /\ only (footprint h1 l1 ++ footprint h2 l2) m m') m
}.

(** ** Singly-linked lists *)

Definition slist m h l : Prop := chain (nxt m) (Head h) l /\ NoDup l.

(** A chain read up to an element, and from there. *)
Lemma chain_split n h l1 a l2 : chain n (Head h) (l1 ++ a :: l2) -> NoDup (l1 ++ a :: l2) ->
  seg n (Head h) l1 /\ n !! fin (Head h) l1 = Some (Some a) /\ n !! Field a = Some (head l2) /\ chain n (Field a) l2 /\
  fin (Head h) l1 ∉ srcs (Head h) l1 /\ fin (Head h) l1 <> Field a /\ (forall c, c ∈ l2 -> fin (Head h) l1 <> Field c) /\
  Field a ∉ srcs (Head h) l1 /\ a ∉ l1 /\ a ∉ l2 /\ NoDup (l1 ++ l2).
Proof.
  intros Hc Hn. apply chain_app in Hc as [H1 H2]. pose proof Hn as Hn'. apply NoDup_app in Hn as (N1 & N2 & N3). apply NoDup_cons in N3 as [N3 N4].
  assert (a ∉ l1) as Ha by (intros Ha; apply (N2 a Ha); set_solver).
  assert (chain n (Field a) l2) as Hc by (destruct H2 as [[_ H2] H3]; by split).
  split; [done|]. split; [apply H2|]. split; [by apply chain_first|]. split; [done|]. split; [by apply fin_src, NoDup_head|].
  assert (forall c, c ∉ l1 -> fin (Head h) l1 <> Field c) as Hf.
  { intros c Hc' He. destruct (fin_in (Head h) l1) as [E|(d & Hd & E)]; rewrite E in He; [done|]. injection He as ->. done. }
  split; [by apply Hf|]. split; [intros c Hc'; apply Hf; intros Hc2; apply (N2 c Hc2); set_solver|].
  split; [intros Hs; apply elem_of_srcs in Hs; naive_solver|]. do 2 (split; [done|]).
  apply NoDup_app. split; [done|]. split; [|done]. intros x Hx Hx2. apply (N2 x Hx). set_solver.
Qed.

(** A chain with a new element after [fin p l1]. *)
Lemma chain_insert_after n h l1 l2 a v : chain n (Head h) (l1 ++ l2) -> NoDup (l1 ++ l2) -> a ∉ l1 ++ l2 -> v = head l2 ->
  chain (<[fin (Head h) l1 := Some a]> (<[Field a := v]> n)) (Head h) (l1 ++ a :: l2).
Proof.
  intros Hc Hn Ha ->. apply chain_app in Hc as [H1 H2]. apply NoDup_app in Hn as (N1 & N2 & N3).
  assert (forall c, c ∉ l1 -> fin (Head h) l1 <> Field c) as Hf.
  { intros c Hc' He. destruct (fin_in (Head h) l1) as [E|(d & Hd & E)]; rewrite E in He; [done|]. injection He as ->. done. }
  apply chain_app. split.
  - apply seg_insert; [by apply fin_src, NoDup_head|]. apply seg_insert; [|done]. intros Hs. apply elem_of_srcs in Hs. set_solver.
  - assert (chain (<[fin (Head h) l1 := Some a]> (<[Field a := head l2]> n)) (Field a) l2) as [H3 H4].
    { destruct l2 as [|c l2].
      { split; [done|]. cbn [fin]. rewrite lookup_insert_ne by (apply Hf; set_solver). look. }
      destruct H2 as [[_ H2] H3]. simpl in H3.
      assert (chain (<[fin (Head h) l1 := Some a]> (<[Field a := head (c :: l2)]> n)) (Field c) l2) as [H4 H5].
      { apply chain_insert; [apply Hf; set_solver|intros d Hd; apply Hf; set_solver|].
        apply chain_insert; [|intros d Hd; intros [= <-]; set_solver|by split]. intros [= <-]. set_solver. }
      split; [|done]. split; [|done]. rewrite lookup_insert_ne by (apply Hf; set_solver). look. }
    split; [|done]. split; [|done]. look.
Qed.

(** A chain without the element after [fin p l1]. *)
Lemma chain_remove n h l1 a l2 v : chain n (Head h) (l1 ++ a :: l2) -> NoDup (l1 ++ a :: l2) -> v = head l2 ->
  chain (<[Field a := None]> (<[fin (Head h) l1 := v]> n)) (Head h) (l1 ++ l2).
Proof.
  intros Hc Hn ->. destruct (chain_split _ _ _ _ _ Hc Hn) as (S1 & S2 & S3 & S4 & S5 & S6 & S7 & S8 & S9 & S10 & S11).
  apply chain_app. split; [by do 2 (apply seg_insert; [done|])|]. destruct l2 as [|c l2].
  - split; [done|]. cbn [fin]. rewrite lookup_insert_ne by done. look.
  - destruct S4 as [[_ H1] H2]. cbn [fin] in H2.
    assert (chain (<[Field a := None]> (<[fin (Head h) l1 := Some c]> n)) (Field c) l2) as [H3 H4].
    { apply chain_insert; [|intros d Hd [= <-]; set_solver|]; [intros [= <-]; set_solver|].
      apply chain_insert; [apply S7; set_solver|intros d Hd; apply S7; set_solver|by split]. }
    split; [|done]. split; [|done]. rewrite lookup_insert_ne by done. look.
Qed.

Lemma find_before_spec n b h l1 c a l2 : forall fuel o l0, (length l1 < fuel)%nat ->
  chain n (Head h) (l0 ++ l1 ++ c :: a :: l2) -> NoDup (l0 ++ l1 ++ c :: a :: l2) -> o = head (l1 ++ [c]) ->
  wp (find_before fuel o a) (fun r m' => r = c /\ m' = Links n b) (Links n b).
Proof.
  induction l1 as [|d l1 IH]; intros fuel o l0 Hf Hc Hn ->; destruct fuel as [|fuel]; try (simpl in Hf; lia); cbn [find_before head app]; q_go.
  - destruct (chain_split n h l0 c (a :: l2) Hc Hn) as (_ & _ & S3 & _). eapply wp_get_next; [exact S3|]. cbn [head]. rewrite bool_decide_true by done. by apply wp_ret.
  - destruct (chain_split n h l0 d (l1 ++ c :: a :: l2) Hc Hn) as (_ & _ & S3 & _). eapply wp_get_next; [exact S3|].
    assert (head (l1 ++ c :: a :: l2) = head (l1 ++ [c])) as -> by (by destruct l1).
    rewrite bool_decide_false.
    { apply (IH fuel _ (l0 ++ [d])); [simpl in Hf; lia|by rewrite <-app_assoc|by rewrite <-app_assoc|done]. }
    intros He. apply NoDup_app in Hn as (_ & _ & Hn). apply NoDup_cons in Hn as [_ Hn]. apply NoDup_app in Hn as (_ & Hd & Hn).
    destruct l1 as [|e l1]; cbn in He; injection He as ->; [apply NoDup_cons in Hn as [Hn _]; set_solver|]. apply (Hd a); set_solver.
Qed.

Lemma chain_size n h l : chain n (Head h) l -> NoDup l -> (length l < size n)%nat.
Proof.
  intros Hc Hn. rewrite <-(size_dom n).
  assert (list_to_set (Head h :: (Field <$> l)) ⊆ dom n) as Hs.
  { assert (forall p k, chain n p k -> forall q, q ∈ p :: (Field <$> k) -> is_Some (n !! q)) as Hin.
    { intros p k. revert p. induction k as [|a k IH]; intros p [H1 H2] q; simpl; rewrite elem_of_cons.
      - intros [->|Hq]; [simpl in H2; eauto|set_solver].
      - destruct H1 as [H1 H3]. intros [->|Hq]; [eauto|]. apply (IH (Field a)); [by split|done]. }
    intros q. rewrite elem_of_list_to_set, elem_of_dom. by apply Hin. }
  apply subseteq_size in Hs. rewrite size_list_to_set in Hs by (by apply NoDup_head). simpl in Hs. rewrite length_fmap in Hs. lia.
Qed.

(** An element that is not the first is found from the one before it. *)
Lemma wp_find_before n b h l1 a l2 (R : Z -> links -> Prop) : l1 <> [] -> chain n (Head h) (l1 ++ a :: l2) -> NoDup (l1 ++ a :: l2) ->
  (forall c, fin (Head h) l1 = Field c -> c ∈ l1 -> R c (Links n b)) -> wp (find_before (size n) (head (l1 ++ a :: l2)) a) R (Links n b).
Proof.
  intros Hl Hc Hn HR. destruct (exists_last Hl) as (l0 & c & ->). rewrite <-app_assoc in Hc, Hn |- *.
  eapply wp_mono; [apply (find_before_spec n b h l0 c a l2 _ _ []); [|done|done|]|].
  - pose proof (chain_size _ _ _ Hc Hn) as Hs. simpl in Hs. rewrite length_app in Hs. lia.
  - by destruct l0.
  - intros r m' [-> ->]. apply HR; [by rewrite fin_app|set_solver].
Qed.

(** The first is [elm] exactly when nothing is before it. *)
Lemma first_is l1 a l2 : NoDup (l1 ++ a :: l2) -> bool_decide (head (l1 ++ a :: l2) = Some a) = bool_decide (l1 = []).
Proof.
  intros Hn. destruct l1 as [|c l1]; [by rewrite !bool_decide_true|]. rewrite !bool_decide_false; [done|done|].
  cbn. intros [= ->]. apply NoDup_cons in Hn as [Hn _]. set_solver.
Qed.

Ltac in_footprint := unfold footprint; cbn [fmap list_fmap]; rewrite ?fmap_app; cbn [fmap list_fmap]; set_solver.

Lemma fin_in_footprint h l1 l2 : fin (Head h) l1 ∈ footprint h (l1 ++ l2).
Proof. pose proof (fin_footprint (Head h) l1). unfold footprint. rewrite fmap_app. set_solver. Qed.

Lemma field_in_footprint h l a : a ∈ l -> Field a ∈ footprint h l.
Proof. intros Ha. right. by apply list_elem_of_fmap_2. Qed.

Lemma head_in_footprint h l : Head h ∈ footprint h l.
Proof. by left. Qed.

#[local] Hint Resolve fin_in_footprint field_in_footprint head_in_footprint only_refl : core.
#[local] Hint Extern 3 (_ ∈ _ :: _) => set_solver : core.
#[local] Hint Extern 3 (_ ∈ _ ++ _) => set_solver : core.

Lemma NoDup_insert l1 a l2 : NoDup (l1 ++ l2) -> a ∉ l1 ++ l2 -> NoDup (l1 ++ a :: l2).
Proof. intros Hn Ha. rewrite <-Permutation_middle. by constructor. Qed.

Section slist.
Lemma slist_first m h l : slist m h l -> wp (SLIST_FIRST h) (fun r m' => r = head l /\ m' = m) m.
Proof. intros [Hc Hn]. by eapply wp_get_next; [by apply chain_first|]. Qed.

Lemma slist_next m h l1 a l2 : slist m h (l1 ++ a :: l2) -> wp (SLIST_NEXT a) (fun r m' => r = head l2 /\ m' = m) m.
Proof. intros [Hc Hn]. destruct (chain_split _ _ _ _ _ Hc Hn) as (_ & _ & S3 & _). by eapply wp_get_next. Qed.

Lemma slist_insert_head m h l a : slist m h l -> a ∉ l -> cell m (Field a) ->
  wp (SLIST_INSERT_HEAD h a) (fun _ m' => slist m' h (a :: l) /\ only (footprint h (a :: l)) m m') m.
Proof.
  intros [Hc Hn] Ha [[v Hv] _]. pose proof (chain_first _ _ _ Hc) as Hf. unfold SLIST_INSERT_HEAD, SLIST_FIRST. q_go.
  split; [split; [by apply (chain_insert_after _ h [] l a _)|by constructor]|]. by touched; auto.
Qed.

Lemma slist_insert_after m h l1 c l2 a : slist m h (l1 ++ c :: l2) -> a ∉ l1 ++ c :: l2 -> cell m (Field a) ->
  wp (SLIST_INSERT_AFTER c a) (fun _ m' => slist m' h (l1 ++ c :: a :: l2) /\ only (footprint h (l1 ++ c :: a :: l2)) m m') m.
Proof.
  intros [Hc Hn] Ha [[v Hv] _]. destruct (chain_split _ _ _ _ _ Hc Hn) as (_ & _ & S3 & _).
  assert (a <> c) by set_solver. unfold SLIST_INSERT_AFTER, SLIST_NEXT. q_go.
  replace (l1 ++ c :: a :: l2) with ((l1 ++ [c]) ++ a :: l2) by by rewrite <-app_assoc.
  replace (l1 ++ c :: l2) with ((l1 ++ [c]) ++ l2) in Hc, Hn, Ha by by rewrite <-app_assoc.
  split; [split; [|by apply NoDup_insert]|by touched; auto].
  replace (Field c) with (fin (Head h) (l1 ++ [c])) by by rewrite fin_app. by apply chain_insert_after.
Qed.

Lemma slist_remove m h l1 a l2 : slist m h (l1 ++ a :: l2) ->
  wp (SLIST_REMOVE h a) (fun _ m' => slist m' h (l1 ++ l2) /\ only (footprint h (l1 ++ a :: l2)) m m') m.
Proof.
  intros [Hc Hn]. destruct m as [n b]. cbn [nxt prv] in *. pose proof (chain_first _ _ _ Hc) as Hf.
  destruct (chain_split _ _ _ _ _ Hc Hn) as (S1 & S2 & S3 & S4 & S5 & S6 & S7 & S8 & S9 & S10 & S11).
  unfold SLIST_REMOVE, SLIST_FIRST. q_go. rewrite first_is by done. case_bool_decide as E.
  - subst l1. unfold SLIST_REMOVE_HEAD, SLIST_FIRST, SLIST_NEXT. cbn [app fin] in *. q_go.
    split; [split; [by apply (chain_remove n h [] a l2)|done]|by touched; auto].
  - q_go. eapply wp_find_before; try done. intros c Ec Hc1. unfold SLIST_REMOVE_AFTER, SLIST_NEXT. rewrite <-Ec in *. q_go.
    split; [split; [by apply (chain_remove n h l1 a l2)|done]|by touched; auto].
Qed.

#[export] Instance slist_queue : queue | 100.
Proof.
  refine (Queue slist SLIST_INIT SLIST_FIRST SLIST_NEXT SLIST_INSERT_HEAD (fun _ => SLIST_INSERT_AFTER) SLIST_REMOVE _ _ _ _ _ _ _ _ _);
    [| | | |exact slist_first|exact slist_next|exact slist_insert_head|exact slist_insert_after|exact slist_remove].
  - by intros m h l [].
  - intros m h l [Hc Hn]. by eapply chain_size.
  - intros m m' h l [Hc Hn] He. split; [|done]. eapply chain_ext; [|done]. intros q Hq. by apply He.
  - intros m h [[v Hv] _]. unfold SLIST_INIT. q_go. split; [|by touched; auto]. split; [|constructor]. split; [done|]. cbn. look.
Defined.
End slist.

(** ** Singly-linked tail queues *)

Definition stailq m h l : Prop := slist m h l /\ prv m !! Head h = Some (Some (fin (Head h) l)).

(** The chain of [head2] appended to that of [head1]. *)
Lemma chain_join n h1 h2 l1 l2 : h1 <> h2 -> l2 <> [] -> l1 ## l2 -> NoDup l1 -> NoDup l2 -> chain n (Head h1) l1 -> chain n (Head h2) l2 ->
  chain (<[Head h2 := None]> (<[fin (Head h1) l1 := head l2]> n)) (Head h1) (l1 ++ l2).
Proof.
  intros Hh Hl Hd N1 N2 [H1 H2] [H3 H4]. destruct l2 as [|c l2]; [done|]. apply NoDup_cons in N2 as [N2 N3].
  assert (forall q, q <> Head h2 -> q ∈ Head h1 :: (Field <$> l1) -> forall d, d ∈ c :: l2 -> q <> Field d) as Hne.
  { intros q _ Hq d Hd' ->. apply elem_of_cons in Hq as [Hq|Hq]; [done|]. apply list_elem_of_fmap in Hq as (e & [= <-] & He). set_solver. }
  assert (fin (Head h1) l1 <> Head h2) as Hf by (destruct (fin_in (Head h1) l1) as [->|(e & _ & ->)]; congruence).
  apply chain_app. split.
  - apply seg_insert; [intros Hs; apply elem_of_srcs in Hs; naive_solver|]. apply seg_insert; [|done]. by apply fin_src, NoDup_head.
  - assert (chain (<[Head h2 := None]> (<[fin (Head h1) l1 := head (c :: l2)]> n)) (Field c) l2) as [H5 H6].
    { destruct H3 as [_ H3]. apply chain_insert; [done|done|]. apply chain_insert; [| |by split].
      - apply Hne; [done|apply fin_footprint|set_solver].
      - intros d Hd'. apply Hne; [done|apply fin_footprint|set_solver]. }
    split; [|done]. split; [|done]. rewrite lookup_insert_ne by done. look.
Qed.

(** A chain hung on another head. *)
Lemma chain_move n n' h h' l : (forall a, a ∈ l -> n' !! Field a = n !! Field a) -> n' !! Head h' = n !! Head h -> chain n (Head h) l -> chain n' (Head h') l.
Proof.
  intros He Hh [H1 H2]. destruct l as [|a l]; [split; [done|]; simpl in *; congruence|]. destruct H1 as [H1 H3].
  assert (chain n' (Field a) l) as [H4 H5]; [|split; [split|]; [congruence|done|done]].
  apply (chain_ext n); [|by split]. intros q Hq. rewrite <-fmap_cons in Hq. apply list_elem_of_fmap in Hq as (d & -> & Hd). by apply He.
Qed.

Lemma fin_move h h' l : fin (Head h') l = if bool_decide (l = []) then Head h' else fin (Head h) l.
Proof. by destruct l. Qed.

Lemma fin_after h l1 a l2 : fin (Head h) (l1 ++ a :: l2) = if bool_decide (head l2 = None) then Field a else fin (Head h) (l1 ++ l2).
Proof. rewrite !fin_app. by destruct l2. Qed.

Lemma fin_without h l1 a l2 : fin (Head h) (l1 ++ l2) = if bool_decide (head l2 = None) then fin (Head h) l1 else fin (Head h) (l1 ++ a :: l2).
Proof. rewrite !fin_app. by destruct l2. Qed.

Lemma fin_last h l : l <> [] -> exists a, last l = Some a /\ fin (Head h) l = Field a.
Proof. intros Hl. destruct (exists_last Hl) as (l0 & a & ->). exists a. by rewrite last_snoc, fin_app. Qed.

Lemma head_nil l : head l = None <-> l = [].
Proof. by destruct l. Qed.

Section stailq.
Lemma stailq_init m h : cell m (Head h) -> wp (STAILQ_INIT h) (fun _ m' => stailq m' h [] /\ only (footprint h []) m m') m.
Proof.
  intros [[v Hv] [w Hw]]. unfold STAILQ_INIT. q_go. split; [|by touched; auto]. split; [|look]. split; [|constructor]. split; [done|]. cbn. look.
Qed.

Lemma stailq_insert_head m h l a : stailq m h l -> a ∉ l -> cell m (Field a) ->
  wp (STAILQ_INSERT_HEAD h a) (fun _ m' => stailq m' h (a :: l) /\ only (footprint h (a :: l)) m m') m.
Proof.
  intros [[Hc Hn] Hl] Ha [[v Hv] _]. pose proof (chain_first _ _ _ Hc) as Hf. unfold STAILQ_INSERT_HEAD, STAILQ_FIRST. q_go.
  assert (forall m', nxt m' = <[Head h := Some a]> (<[Field a := head l]> (nxt m)) -> prv m' !! Head h = Some (Some (fin (Head h) (a :: l))) -> stailq m' h (a :: l)) as HS.
  { intros m' He Hp. split; [|done]. split; [rewrite He; by apply (chain_insert_after _ h [] l)|by constructor]. }
  pose proof (fin_after h [] a l) as Ef. cbn [app] in Ef. destruct l as [|c l]; cbn [head when] in *; case_bool_decide; try done; cbn [when]; q_go;
    (split; [apply HS; [done|rewrite Ef; cbn [prv]; look]|by touched; auto]).
Qed.

Lemma stailq_insert_after m h l1 c l2 a : stailq m h (l1 ++ c :: l2) -> a ∉ l1 ++ c :: l2 -> cell m (Field a) ->
  wp (STAILQ_INSERT_AFTER h c a) (fun _ m' => stailq m' h (l1 ++ c :: a :: l2) /\ only (footprint h (l1 ++ c :: a :: l2)) m m') m.
Proof.
  intros [[Hc Hn] Hl] Ha [[v Hv] _]. destruct (chain_split _ _ _ _ _ Hc Hn) as (_ & _ & S3 & _).
  assert (a <> c) by set_solver. unfold STAILQ_INSERT_AFTER, STAILQ_NEXT. q_go.
  replace (l1 ++ c :: a :: l2) with ((l1 ++ [c]) ++ a :: l2) by by rewrite <-app_assoc.
  replace (l1 ++ c :: l2) with ((l1 ++ [c]) ++ l2) in Hc, Hn, Ha, Hl by by rewrite <-app_assoc.
  assert (forall m', nxt m' = <[Field c := Some a]> (<[Field a := head l2]> (nxt m)) ->
    prv m' !! Head h = Some (Some (fin (Head h) ((l1 ++ [c]) ++ a :: l2))) -> stailq m' h ((l1 ++ [c]) ++ a :: l2)) as HS.
  { intros m' He Hp. split; [|done]. split; [rewrite He|by apply NoDup_insert].
    replace (Field c) with (fin (Head h) (l1 ++ [c])) by by rewrite fin_app. by apply chain_insert_after. }
  pose proof (fin_after h (l1 ++ [c]) a l2) as Ef. destruct (bool_decide (head l2 = None)); cbn [when]; q_go;
    (split; [apply HS; [done|rewrite Ef; cbn [prv]; look]|by touched; auto]).
Qed.

Lemma stailq_insert_tail m h l a : stailq m h l -> a ∉ l -> cell m (Field a) ->
  wp (STAILQ_INSERT_TAIL h a) (fun _ m' => stailq m' h (l ++ [a]) /\ only (footprint h (l ++ [a])) m m') m.
Proof.
  intros [[Hc Hn] Hl] Ha [[v Hv] _]. unfold STAILQ_INSERT_TAIL. q_go.
  assert (fin (Head h) l <> Field a) by (destruct (fin_in (Head h) l) as [->|(e & He & ->)]; [done|intros [= ->]; done]).
  eapply wp_set_next; [cbn [nxt]; rewrite lookup_insert_ne by done; by apply Hc|]. q_go.
  split; [|by touched; auto]. split; [|cbn [prv]; rewrite fin_app; look]. rewrite <-(app_nil_r l) in Hc, Hn, Ha.
  split; [by apply chain_insert_after|by apply NoDup_insert].
Qed.

Lemma stailq_remove m h l1 a l2 : stailq m h (l1 ++ a :: l2) ->
  wp (STAILQ_REMOVE h a) (fun _ m' => stailq m' h (l1 ++ l2) /\ only (footprint h (l1 ++ a :: l2)) m m') m.
Proof.
  intros [[Hc Hn] Hl]. destruct m as [n b]. cbn [nxt prv] in *. pose proof (chain_first _ _ _ Hc) as Hf.
  destruct (chain_split _ _ _ _ _ Hc Hn) as (S1 & S2 & S3 & S4 & S5 & S6 & S7 & S8 & S9 & S10 & S11).
  assert (forall m', nxt m' = <[Field a := None]> (<[fin (Head h) l1 := head l2]> n) ->
    prv m' !! Head h = Some (Some (fin (Head h) (l1 ++ l2))) -> stailq m' h (l1 ++ l2)) as HS.
  { intros m' He Hp. split; [|done]. split; [rewrite He; by apply chain_remove|done]. }
  unfold STAILQ_REMOVE, STAILQ_FIRST. q_go. rewrite first_is by done. case_bool_decide as E; pose proof (fin_without h l1 a l2) as Ef.
  - subst l1. unfold STAILQ_REMOVE_HEAD, STAILQ_FIRST, STAILQ_NEXT. cbn [app fin] in *. q_go.
    destruct (bool_decide (head l2 = None)); cbn [when]; q_go; (split; [apply HS; [done|rewrite Ef; cbn [prv]; look]|by touched; auto]).
  - q_go. eapply wp_find_before; try done. intros c Ec Hc1. unfold STAILQ_REMOVE_AFTER, STAILQ_NEXT. rewrite <-Ec in *. q_go.
    destruct (bool_decide (head l2 = None)); cbn [when]; q_go; (split; [apply HS; [done|rewrite Ef; cbn [prv]; look]|by touched; auto]).
Qed.

Lemma stailq_last m h l : stailq m h l -> wp (STAILQ_LAST h) (fun r m' => r = last l /\ m' = m) m.
Proof.
  intros [[Hc Hn] Hl]. pose proof (chain_first _ _ _ Hc) as Hf. unfold STAILQ_LAST, STAILQ_EMPTY, STAILQ_FIRST. q_go.
  destruct (decide (l = [])) as [->|E]; [by q_go|]. rewrite bool_decide_false by (by rewrite head_nil). q_go.
  destruct (fin_last h l E) as (a & Ea & Ef). rewrite Ef. by q_go.
Qed.

Lemma stailq_concat m h1 h2 l1 l2 : stailq m h1 l1 -> stailq m h2 l2 -> h1 <> h2 -> l1 ## l2 ->
  wp (STAILQ_CONCAT h1 h2) (fun _ m' => stailq m' h1 (l1 ++ l2) /\ stailq m' h2 [] /\ only (footprint h1 l1 ++ footprint h2 l2) m m') m.
Proof.
  intros [[C1 N1] L1] [[C2 N2] L2] Hh Hd. pose proof (chain_first _ _ _ C2) as Hf. unfold STAILQ_CONCAT, STAILQ_EMPTY, STAILQ_FIRST. q_go.
  destruct (decide (l2 = [])) as [->|E].
  { q_go. rewrite app_nil_r. done. }
  rewrite bool_decide_false by (by rewrite head_nil). q_go.
  eapply wp_set_next; [by apply C1|]. assert (fin (Head h1) l1 <> Head h2) as Hf2 by (destruct (fin_in (Head h1) l1) as [->|(e & _ & ->)]; congruence).
  assert (Head h1 <> Head h2) by congruence. q_go. unfold STAILQ_INIT. q_go. split; [split; [split|]|].
  - by apply chain_join.
  - by apply NoDup_app.
  - cbn [prv]. look. rewrite fin_app. by destruct l2.
  - split; [split; [split; [split; [done|cbn; look]|constructor]|cbn [prv]; look]|].
    pose proof (fin_footprint (Head h1) l1). touched; unfold footprint in *; set_solver.
Qed.

#[export] Instance stailq_queue : queue | 100.
Proof.
  refine (Queue stailq STAILQ_INIT STAILQ_FIRST STAILQ_NEXT STAILQ_INSERT_HEAD STAILQ_INSERT_AFTER STAILQ_REMOVE _ _ _ _ _ _ _ _ _);
    [| | |exact stailq_init| | |exact stailq_insert_head|exact stailq_insert_after|exact stailq_remove].
  - by intros m h l [[]].
  - intros m h l [[Hc Hn] _]. by eapply chain_size.
  - intros m m' h l [HS Hl] He. split; [by apply (q_local (queue := slist_queue) m m')|]. rewrite <-Hl. apply He. by left.
  - intros m h l [HS _]. by apply slist_first.
  - intros m h l1 a l2 [HS _]. by eapply slist_next.
Defined.

#[export] Instance stailq_tail_queue : tail_queue | 100.
Proof.
  exact (TailQueue stailq_queue STAILQ_LAST STAILQ_INSERT_TAIL STAILQ_CONCAT stailq_last stailq_insert_tail stailq_concat).
Defined.
End stailq.

(** ** Back links *)

(** The back links of a queue with a new element after [fin p l1]. *)
Lemma back_insert_after b h l1 l2 a : back b (Head h) (l1 ++ l2) -> NoDup (l1 ++ l2) -> a ∉ l1 ++ l2 ->
  back (<[Field a := Some (fin (Head h) l1)]> (match head l2 with Some c => <[Field c := Some (Field a)]> b | None => b end)) (Head h) (l1 ++ a :: l2).
Proof.
  intros Hb Hn Ha. apply back_app in Hb as [H1 H2]. apply NoDup_app in Hn as (N1 & N2 & N3). apply back_app. split.
  - apply back_insert; [set_solver|]. destruct l2 as [|c l2]; cbn [head]; [done|]. apply back_insert; [|done]. intros d Hd [= ->]. apply (N2 d); set_solver.
  - cbn [back]. split; [look|]. destruct l2 as [|c l2]; cbn [head back]; [done|]. destruct H2 as [_ H2]. apply NoDup_cons in N3 as [N3 _].
    assert (a <> c) by set_solver. split; [by rewrite lookup_insert_ne by congruence; look|]. apply back_insert; [set_solver|]. apply back_insert; [set_solver|done].
Qed.

(** The back links without the element after [fin p l1]. *)
Lemma back_remove b h l1 a l2 : back b (Head h) (l1 ++ a :: l2) -> NoDup (l1 ++ a :: l2) ->
  back (<[Field a := None]> (match head l2 with Some c => <[Field c := Some (fin (Head h) l1)]> b | None => b end)) (Head h) (l1 ++ l2).
Proof.
  intros Hb Hn. apply back_app in Hb as [H1 H2]. apply NoDup_app in Hn as (N1 & N2 & N3). apply NoDup_cons in N3 as [N3 N4]. apply back_app. split.
  - apply back_insert; [intros d Hd [= ->]; apply (N2 d); set_solver|]. destruct l2 as [|c l2]; cbn [head]; [done|]. apply back_insert; [|done]. intros d Hd [= ->]. apply (N2 d); set_solver.
  - destruct H2 as [_ H2]. destruct l2 as [|c l2]; cbn [head back]; [done|]. destruct H2 as [_ H2]. apply NoDup_cons in N4 as [N4 _].
    assert (a <> c) by set_solver. split; [by rewrite lookup_insert_ne by congruence; look|]. apply back_insert; [set_solver|]. apply back_insert; [set_solver|done].
Qed.

Lemma back_at b p l1 a l2 : back b p (l1 ++ a :: l2) -> b !! Field a = Some (Some (fin p l1)).
Proof. intros Hb. by apply back_app in Hb as (_ & ? & _). Qed.

Lemma back_head b h p l v : back b p l -> back (<[Head h := v]> b) p l.
Proof. by apply back_insert. Qed.

(** ** Lists *)

Definition lst m h l : Prop := slist m h l /\ back (prv m) (Head h) l.

Lemma not_field h l a : a ∉ l -> fin (Head h) l <> Field a.
Proof. intros Ha. destruct (fin_in (Head h) l) as [->|(e & He & ->)]; [done|]. by intros [= ->]. Qed.

Section lst.
Lemma lst_insert_head m h l a : lst m h l -> a ∉ l -> cell m (Field a) ->
  wp (LIST_INSERT_HEAD h a) (fun _ m' => lst m' h (a :: l) /\ only (footprint h (a :: l)) m m') m.
Proof.
  intros [[Hc Hn] Hb] Ha [[v Hv] [w Hw]]. pose proof (chain_first _ _ _ Hc) as Hf.
  pose proof (chain_insert_after _ h [] l a _ Hc Hn Ha eq_refl) as HC. pose proof (back_insert_after _ h [] l a Hb Hn Ha) as HB.
  unfold LIST_INSERT_HEAD, LIST_FIRST. q_go. destruct l as [|c l]; cbn [head set_back] in *; [|assert (a <> c) by set_solver; destruct Hb as [Hb _]]; q_go;
    (split; [split; [split; [exact HC|by constructor]|exact HB]|by touched; auto]).
Qed.

Lemma lst_insert_after m h l1 c l2 a : lst m h (l1 ++ c :: l2) -> a ∉ l1 ++ c :: l2 -> cell m (Field a) ->
  wp (LIST_INSERT_AFTER c a) (fun _ m' => lst m' h (l1 ++ c :: a :: l2) /\ only (footprint h (l1 ++ c :: a :: l2)) m m') m.
Proof.
  intros [[Hc Hn] Hb] Ha [[v Hv] [w Hw]]. destruct (chain_split _ _ _ _ _ Hc Hn) as (_ & _ & S3 & _). assert (a <> c) by set_solver.
  replace (l1 ++ c :: a :: l2) with ((l1 ++ [c]) ++ a :: l2) by by rewrite <-app_assoc.
  replace (l1 ++ c :: l2) with ((l1 ++ [c]) ++ l2) in Hc, Hn, Ha, Hb by by rewrite <-app_assoc.
  pose proof (chain_insert_after _ h (l1 ++ [c]) l2 a _ Hc Hn Ha eq_refl) as HC. pose proof (back_insert_after _ h (l1 ++ [c]) l2 a Hb Hn Ha) as HB.
  pose proof (NoDup_insert _ _ _ Hn Ha) as HN. rewrite fin_app in HC, HB. cbn [fin] in HC, HB.
  unfold LIST_INSERT_AFTER, LIST_NEXT. q_go. destruct l2 as [|d l2]; cbn [head set_back] in *;
    [|assert (a <> d) by set_solver; apply back_at in Hb]; q_go; (split; [split; [split; [exact HC|exact HN]|exact HB]|by touched; auto]).
Qed.

Lemma lst_insert_before m h l1 c l2 a : lst m h (l1 ++ c :: l2) -> a ∉ l1 ++ c :: l2 -> cell m (Field a) ->
  wp (LIST_INSERT_BEFORE c a) (fun _ m' => lst m' h (l1 ++ a :: c :: l2) /\ only (footprint h (l1 ++ a :: c :: l2)) m m') m.
Proof.
  intros [[Hc Hn] Hb] Ha [[v Hv] [w Hw]]. destruct (chain_split _ _ _ _ _ Hc Hn) as (_ & S2 & _). assert (a <> c) by set_solver.
  pose proof (not_field h l1 a ltac:(set_solver)) as Hne.
  pose proof (chain_insert_after _ h l1 (c :: l2) a _ Hc Hn Ha eq_refl) as HC. pose proof (back_insert_after _ h l1 (c :: l2) a Hb Hn Ha) as HB.
  pose proof (NoDup_insert _ _ _ Hn Ha) as HN. apply back_at in Hb. cbn [head] in HC, HB. rewrite insert_insert_ne in HB by congruence.
  unfold LIST_INSERT_BEFORE. q_go. (split; [split; [split; [exact HC|exact HN]|exact HB]|by touched; auto]).
Qed.

Lemma lst_remove m h l1 a l2 : lst m h (l1 ++ a :: l2) ->
  wp (LIST_REMOVE a) (fun _ m' => lst m' h (l1 ++ l2) /\ only (footprint h (l1 ++ a :: l2)) m m') m.
Proof.
  intros [[Hc Hn] Hb]. destruct (chain_split _ _ _ _ _ Hc Hn) as (S1 & S2 & S3 & S4 & S5 & S6 & S7 & S8 & S9 & S10 & S11).
  pose proof (chain_remove _ h l1 a l2 _ Hc Hn eq_refl) as HC. pose proof (back_remove _ h l1 a l2 Hb Hn) as HB. pose proof (back_at _ _ _ _ _ Hb) as Ba.
  unfold LIST_REMOVE, LIST_NEXT. q_go. destruct l2 as [|d l2]; cbn [head set_back] in *;
    [|assert (a <> d) by set_solver; replace (l1 ++ a :: d :: l2) with ((l1 ++ [a]) ++ d :: l2) in Hb by (by rewrite <-app_assoc); apply back_at in Hb];
    q_go; (split; [split; [split; [exact HC|exact S11]|exact HB]|by touched; auto]).
Qed.

#[export] Instance lst_queue : queue | 100.
Proof.
  refine (Queue lst LIST_INIT LIST_FIRST LIST_NEXT LIST_INSERT_HEAD (fun _ => LIST_INSERT_AFTER) (fun _ => LIST_REMOVE) _ _ _ _ _ _ _ _ _);
    [| | | | | |exact lst_insert_head|exact lst_insert_after|exact lst_remove].
  - by intros m h l [[]].
  - intros m h l [[Hc Hn] _]. by eapply chain_size.
  - intros m m' h l [HS Hb] He. split; [by apply (q_local (queue := slist_queue) m m')|]. eapply back_ext; [|done]. intros q Hq. apply He. by right.
  - intros m h Hc. eapply wp_mono; [by apply (q_init_law (queue := slist_queue))|]. intros _ m' [HS HO]. done.
  - intros m h l [HS _]. by apply slist_first.
  - intros m h l1 a l2 [HS _]. by eapply slist_next.
Defined.
End lst.

(** ** Tail queues *)

Definition tailq m h l : Prop := stailq m h l /\ back (prv m) (Head h) l.

Section tailq.
Lemma tailq_insert_head m h l a : tailq m h l -> a ∉ l -> cell m (Field a) ->
  wp (TAILQ_INSERT_HEAD h a) (fun _ m' => tailq m' h (a :: l) /\ only (footprint h (a :: l)) m m') m.
Proof.
  intros [[[Hc Hn] Hl] Hb] Ha [[v Hv] [w Hw]]. pose proof (chain_first _ _ _ Hc) as Hf.
  pose proof (chain_insert_after _ h [] l a _ Hc Hn Ha eq_refl) as HC. pose proof (back_insert_after _ h [] l a Hb Hn Ha) as HB.
  unfold TAILQ_INSERT_HEAD, TAILQ_FIRST. q_go. destruct l as [|c l]; cbn [head] in *; [|assert (a <> c) by set_solver; destruct Hb as [Hb _]]; q_go.
  - split; [|by touched; auto]. split; [split; [split; [exact HC|by constructor]|cbn [prv fin]; look]|].
    cbn [prv]. rewrite insert_insert_ne by done. by apply back_head.
  - split; [|by touched; auto]. split; [split; [split; [exact HC|by constructor]|cbn [prv fin]; look]|exact HB].
Qed.

Lemma tailq_insert_after m h l1 c l2 a : tailq m h (l1 ++ c :: l2) -> a ∉ l1 ++ c :: l2 -> cell m (Field a) ->
  wp (TAILQ_INSERT_AFTER h c a) (fun _ m' => tailq m' h (l1 ++ c :: a :: l2) /\ only (footprint h (l1 ++ c :: a :: l2)) m m') m.
Proof.
  intros [[[Hc Hn] Hl] Hb] Ha [[v Hv] [w Hw]]. destruct (chain_split _ _ _ _ _ Hc Hn) as (_ & _ & S3 & _). assert (a <> c) by set_solver.
  replace (l1 ++ c :: a :: l2) with ((l1 ++ [c]) ++ a :: l2) by by rewrite <-app_assoc.
  replace (l1 ++ c :: l2) with ((l1 ++ [c]) ++ l2) in Hc, Hn, Ha, Hb, Hl by by rewrite <-app_assoc.
  pose proof (chain_insert_after _ h (l1 ++ [c]) l2 a _ Hc Hn Ha eq_refl) as HC. pose proof (back_insert_after _ h (l1 ++ [c]) l2 a Hb Hn Ha) as HB.
  pose proof (NoDup_insert _ _ _ Hn Ha) as HN. rewrite fin_app in HC, HB. pose proof (fin_after h (l1 ++ [c]) a l2) as Ef. cbn [fin] in HC, HB.
  unfold TAILQ_INSERT_AFTER, TAILQ_NEXT. q_go. destruct l2 as [|d l2]; cbn [head] in *; [|assert (a <> d) by set_solver; apply back_at in Hb]; q_go.
  - split; [|by touched; auto]. split; [split; [split; [exact HC|exact HN]|rewrite Ef; cbn [prv]; look]|].
    cbn [prv]. rewrite insert_insert_ne by done. by apply back_head.
  - split; [|by touched; auto]. split; [split; [split; [exact HC|exact HN]|rewrite Ef; cbn [prv]; look]|exact HB].
Qed.

Lemma tailq_insert_before m h l1 c l2 a : tailq m h (l1 ++ c :: l2) -> a ∉ l1 ++ c :: l2 -> cell m (Field a) ->
  wp (TAILQ_INSERT_BEFORE c a) (fun _ m' => tailq m' h (l1 ++ a :: c :: l2) /\ only (footprint h (l1 ++ a :: c :: l2)) m m') m.
Proof.
  intros [[HS Hl] Hb] Ha Hc. assert (lst m h (l1 ++ c :: l2)) as HL by done.
  assert (wp (TAILQ_INSERT_BEFORE c a) (fun _ m' => prv m' !! Head h = prv m !! Head h) m) as Hh.
  { destruct HS as [HS Hn]. destruct (chain_split _ _ _ _ _ HS Hn) as (_ & S2 & _). assert (a <> c) by set_solver. destruct Hc as [[v Hv] [w Hw]].
    pose proof (not_field h l1 a ltac:(set_solver)) as Hne. apply back_at in Hb. unfold TAILQ_INSERT_BEFORE. q_go. cbn [prv]. look. }
  pose proof (lst_insert_before m h l1 c l2 a HL Ha Hc) as HW. change (LIST_INSERT_BEFORE c a) with (TAILQ_INSERT_BEFORE c a) in HW.
  unfold wp in *. destruct (TAILQ_INSERT_BEFORE c a m) as [[r m']|]; [|done]. destruct HW as [[H1 H2] H3]. split; [|done]. split; [|done]. split; [done|].
  rewrite Hh, Hl. by rewrite !fin_app.
Qed.

Lemma tailq_insert_tail m h l a : tailq m h l -> a ∉ l -> cell m (Field a) ->
  wp (TAILQ_INSERT_TAIL h a) (fun _ m' => tailq m' h (l ++ [a]) /\ only (footprint h (l ++ [a])) m m') m.
Proof.
  intros [[[Hc Hn] Hl] Hb] Ha [[v Hv] [w Hw]]. pose proof (not_field h l a Ha) as Hne.
  assert (nxt m !! fin (Head h) l = Some None) as Hf by apply Hc. rewrite <-(app_nil_r l) in Hc, Hn, Ha, Hb.
  pose proof (chain_insert_after _ h l [] a _ Hc Hn Ha eq_refl) as HC. pose proof (back_insert_after _ h l [] a Hb Hn Ha) as HB.
  unfold TAILQ_INSERT_TAIL. q_go. split; [|by touched; auto]. split; [|cbn [prv]; by apply back_head].
  split; [split; [exact HC|by apply NoDup_insert]|]. cbn [prv]. rewrite fin_app. look.
Qed.

Lemma tailq_remove_spec m h l1 a l2 : tailq m h (l1 ++ a :: l2) ->
  wp (TAILQ_REMOVE h a) (fun _ m' => tailq m' h (l1 ++ l2) /\ only (footprint h (l1 ++ a :: l2)) m m') m.
Proof.
  intros [[[Hc Hn] Hl] Hb]. destruct (chain_split _ _ _ _ _ Hc Hn) as (S1 & S2 & S3 & S4 & S5 & S6 & S7 & S8 & S9 & S10 & S11).
  pose proof (chain_remove _ h l1 a l2 _ Hc Hn eq_refl) as HC. pose proof (back_remove _ h l1 a l2 Hb Hn) as HB. pose proof (back_at _ _ _ _ _ Hb) as Ba.
  pose proof (fin_without h l1 a l2) as Ef. unfold TAILQ_REMOVE, TAILQ_NEXT. q_go. destruct l2 as [|d l2]; cbn [head] in *; [|assert (a <> d) by set_solver].
  - q_go. split; [|by touched; auto]. split; [split; [split; [exact HC|exact S11]|rewrite Ef; cbn [prv]; look]|].
    cbn [prv]. rewrite insert_insert_ne by done. by apply back_head.
  - replace (l1 ++ a :: d :: l2) with ((l1 ++ [a]) ++ d :: l2) in Hb by (by rewrite <-app_assoc). apply back_at in Hb.
    q_go. split; [|by touched; auto]. split; [split; [split; [exact HC|exact S11]|rewrite Ef; cbn [prv]; look]|exact HB].
Qed.

(** The word [TAILQ_LAST] and [TAILQ_PREV] read is the pointer to the last of the
    elements before that place. *)
Lemma last_of_spec m h l1 l2 p : tailq m h (l1 ++ l2) -> prv m !! p = Some (Some (fin (Head h) l1)) ->
  wp (last_of p) (fun r m' => r = last l1 /\ m' = m) m.
Proof.
  intros [[[Hc Hn] Hl] Hb] Hp. unfold last_of. q_go. destruct (decide (l1 = [])) as [->|E].
  - cbn [fin]. q_go. eapply wp_get_next; [by apply Hc|done].
  - destruct (exists_last E) as (l0 & a & ->). rewrite <-app_assoc in Hc, Hb, Hn. rewrite fin_app. cbn [fin]. apply back_at in Hb. q_go.
    destruct (chain_split _ _ _ _ _ Hc Hn) as (_ & S2 & _). eapply wp_get_next; [done|]. by rewrite last_snoc.
Qed.

Lemma tailq_last m h l : tailq m h l -> wp (TAILQ_LAST h) (fun r m' => r = last l /\ m' = m) m.
Proof. intros HT. apply (last_of_spec m h l []); [by rewrite app_nil_r|]. apply HT. Qed.

Lemma tailq_prev m h l1 a l2 : tailq m h (l1 ++ a :: l2) -> wp (TAILQ_PREV a) (fun r m' => r = last l1 /\ m' = m) m.
Proof. intros HT. eapply last_of_spec; [done|]. by eapply back_at, HT. Qed.

Lemma tailq_concat m h1 h2 l1 l2 : tailq m h1 l1 -> tailq m h2 l2 -> h1 <> h2 -> l1 ## l2 ->
  wp (TAILQ_CONCAT h1 h2) (fun _ m' => tailq m' h1 (l1 ++ l2) /\ tailq m' h2 [] /\ only (footprint h1 l1 ++ footprint h2 l2) m m') m.
Proof.
  intros [[[C1 N1] L1] B1] [[[C2 N2] L2] B2] Hh Hd. pose proof (chain_first _ _ _ C2) as Hf. unfold TAILQ_CONCAT, TAILQ_EMPTY, TAILQ_FIRST. q_go.
  destruct (decide (l2 = [])) as [->|E].
  { q_go. rewrite app_nil_r. done. }
  rewrite bool_decide_false by (by rewrite head_nil). q_go. assert (nxt m !! fin (Head h1) l1 = Some None) as Hz by apply C1.
  pose proof (chain_join _ _ _ _ _ Hh E Hd N1 N2 C1 C2) as HC.
  assert (fin (Head h1) l1 <> Head h2) as Hf2 by (destruct (fin_in (Head h1) l1) as [->|(e & _ & ->)]; congruence).
  assert (Head h1 <> Head h2) by congruence. destruct l2 as [|c l2]; [done|]. cbn [head] in *. destruct B2 as [B2 B3].
  apply NoDup_cons in N2 as [N2 N3]. q_go. unfold TAILQ_INIT. q_go. split; [split; [split; [split|]|]|].
  - exact HC.
  - apply NoDup_app. split; [done|]. split; [set_solver|by constructor].
  - cbn [prv]. look. by rewrite fin_app.
  - cbn [prv]. do 2 apply back_head. apply back_app. split; [apply back_insert; [|done]; intros d Hd' [= ->]; set_solver|].
    cbn [back]. split; [look|]. apply back_insert; [|done]. intros d Hd' [= ->]. set_solver.
  - split; [split; [split; [split; [split; [done|cbn; look]|constructor]|cbn [prv]; look]|done]|].
    pose proof (fin_footprint (Head h1) l1). touched; unfold footprint in *; set_solver.
Qed.

#[export] Instance tailq_queue : queue | 100.
Proof.
  refine (Queue tailq TAILQ_INIT TAILQ_FIRST TAILQ_NEXT TAILQ_INSERT_HEAD TAILQ_INSERT_AFTER TAILQ_REMOVE _ _ _ _ _ _ _ _ _);
    [| | | | | |exact tailq_insert_head|exact tailq_insert_after|exact tailq_remove_spec].
  - by intros m h l [[[]]].
  - intros m h l [[[Hc Hn] _] _]. by eapply chain_size.
  - intros m m' h l [HS Hb] He. split; [by apply (q_local (queue := stailq_queue) m m')|]. eapply back_ext; [|done]. intros q Hq. apply He. by right.
  - intros m h Hc. eapply wp_mono; [by apply stailq_init|]. intros _ m' [HS HO]. done.
  - intros m h l [[HS _] _]. by apply slist_first.
  - intros m h l1 a l2 [[HS _] _]. by eapply slist_next.
Defined.

#[export] Instance tailq_tail_queue : tail_queue | 100.
Proof.
  exact (TailQueue tailq_queue TAILQ_LAST TAILQ_INSERT_TAIL TAILQ_CONCAT tailq_last tailq_insert_tail tailq_concat).
Defined.
End tailq.

(** ** Traversals *)

(** A walk over [l] with a body that leaves the links alone folds over [l]. *)
Lemma foreach_loop_visits {A} (next : Z -> M links (option Z)) (f : Z -> A -> A) m l : forall fuel acc, (length l < fuel)%nat ->
  (forall l1 a l2, l = l1 ++ a :: l2 -> wp (next a) (fun r m' => r = head l2 /\ m' = m) m) ->
  wp (foreach_loop next (fun a acc => mret (f a acc)) fuel (head l) acc) (fun r m' => r = fold_left (fun acc a => f a acc) l acc /\ m' = m) m.
Proof.
  induction l as [|a l IH]; intros [|fuel] acc Hf Hn; try (simpl in Hf; lia); [done|]. cbn [foreach_loop head fold_left]. q_go.
  eapply wp_mono; [by apply (Hn [] a l)|]. intros r m' [-> ->]. apply IH; [simpl in Hf; lia|]. intros l1 c l2 ->. by apply (Hn (a :: l1) c l2).
Qed.

Section clients.
Context `{queue}.

Lemma foreach_visits {A} (f : Z -> A -> A) m h l acc : q_repr m h l ->
  wp (foreach (q_first h) q_next (fun a acc => mret (f a acc)) acc) (fun r m' => r = fold_left (fun acc a => f a acc) l acc /\ m' = m) m.
Proof.
  intros HR. unfold foreach. q_go. eapply wp_mono; [by apply q_first_law|]. intros r m' [-> ->].
  apply foreach_loop_visits; [pose proof (q_size _ _ _ HR); lia|]. intros l1 a l2 ->. by eapply q_next_law.
Qed.
End clients.

(** The queues of a memory: distinct heads hold distinct elements. *)
Definition disjoint_queues (Q : gmap Z (list Z)) : Prop :=
  forall h1 l1 h2 l2, Q !! h1 = Some l1 -> Q !! h2 = Some l2 -> h1 <> h2 -> l1 ## l2.

Section history.
Context `{queue}.
Implicit Type Q : gmap Z (list Z).

Definition queues m Q : Prop := map_Forall (q_repr m) Q /\ disjoint_queues Q.

Lemma only_other X m m' h l : only X m m' -> (forall p, p ∈ footprint h l -> p ∉ X) -> q_repr m h l -> q_repr m' h l.
Proof. intros [HO _] Hp HR. eapply q_local; [done|]. intros p Hp'. apply HO. by apply Hp. Qed.

Lemma footprint_disjoint h l h' l' : h <> h' -> l ## l' -> forall p, p ∈ footprint h l -> p ∉ footprint h' l'.
Proof.
  intros Hh Hl p Hp Hp'. unfold footprint in *. rewrite elem_of_cons, list_elem_of_fmap in Hp, Hp'. naive_solver.
Qed.

(** One queue changes, with elements [k] at most, none of which is on another. *)
Lemma queues_update m m' Q h l l' k : queues m Q -> Q !! h = Some l -> q_repr m' h l' -> only (footprint h k) m m' ->
  (forall h' l2, h' <> h -> Q !! h' = Some l2 -> k ## l2) -> l' ⊆ k -> queues m' (<[h := l']> Q).
Proof.
  intros [HQ HD] Hh HR HO Hk Hs. split.
  - apply map_Forall_lookup. intros h' l2. rewrite lookup_insert_Some. intros [[<- <-]|[Hne Hl]]; [done|].
    eapply only_other; [done| |by apply HQ]. apply footprint_disjoint; [done|]. pose proof (Hk h' l2). set_solver.
  - intros h1 l1 h2 l2. rewrite !lookup_insert_Some. intros [[<- <-]|[E1 Q1]] [[<- <-]|[E2 Q2]] Hne; try done.
    + pose proof (Hk h2 l2). set_solver.
    + pose proof (Hk h1 l1). set_solver.
    + by eapply HD.
Qed.
End history.

(** ** Histories *)

Inductive qop :=
  | QInsertHead (h a : Z)
  | QInsertTail (h a : Z)
  | QInsertAfter (h c a : Z)
  | QRemove (h a : Z)
  | QConcat (h1 h2 : Z)
  | QFirst (h : Z)
  | QNext (h a : Z)
  | QLast (h : Z).

(** The same on lists: an element is inserted when it is on no queue, after one
    that is on this queue, and removed from the queue it is on. *)
Fixpoint insert_after c a l : list Z :=
  match l with [] => [] | x :: l' => if decide (x = c) then x :: a :: l' else x :: insert_after c a l' end.
Fixpoint next_in a l : option Z :=
  match l with [] => None | x :: l' => if decide (x = a) then head l' else next_in a l' end.

Definition lists_do (E : gset Z) (o : qop) (Q : gmap Z (list Z)) : option (option Z * gmap Z (list Z)) :=
  let fresh a := decide (a ∈ E /\ map_Forall (fun _ l => a ∉ l) Q) in
  match o with
  | QInsertHead h a => l ← Q !! h; if fresh a then Some (None, <[h := a :: l]> Q) else None
  | QInsertTail h a => l ← Q !! h; if fresh a then Some (None, <[h := l ++ [a]]> Q) else None
  | QInsertAfter h c a => l ← Q !! h; if decide (c ∈ l) then if fresh a then Some (None, <[h := insert_after c a l]> Q) else None else None
  | QRemove h a => l ← Q !! h; if decide (a ∈ l) then Some (None, <[h := remove1 a l]> Q) else None
  | QConcat h1 h2 => l1 ← Q !! h1; l2 ← Q !! h2; if decide (h1 = h2) then None else Some (None, <[h1 := l1 ++ l2]> (<[h2 := []]> Q))
  | QFirst h => l ← Q !! h; Some (head l, Q)
  | QNext h a => l ← Q !! h; if decide (a ∈ l) then Some (next_in a l, Q) else None
  | QLast h => l ← Q !! h; Some (last l, Q)
  end.

Fixpoint lists_run (E : gset Z) (os : list qop) (Q : gmap Z (list Z)) : option (list (option Z) * gmap Z (list Z)) :=
  match os with
  | [] => Some ([], Q)
  | o :: os' => '(r, Q1) ← lists_do E o Q; '(rs, Q2) ← lists_run E os' Q1; Some (r :: rs, Q2)
  end.

Section tail_history.
Context `{tail_queue}.
Implicit Type Q : gmap Z (list Z).

Definition queue_do (o : qop) : M links (option Z) :=
  match o with
  | QInsertHead h a => q_insert_head h a;; mret None
  | QInsertTail h a => q_insert_tail h a;; mret None
  | QInsertAfter h c a => q_insert_after h c a;; mret None
  | QRemove h a => q_remove h a;; mret None
  | QConcat h1 h2 => q_concat h1 h2;; mret None
  | QFirst h => q_first h
  | QNext _ a => q_next a
  | QLast h => q_last h
  end.

Fixpoint queue_run (os : list qop) : M links (list (option Z)) :=
  match os with [] => mret [] | o :: os' => r ← queue_do o; rs ← queue_run os'; mret (r :: rs) end.

Lemma insert_after_split l1 c a l2 : c ∉ l1 -> insert_after c a (l1 ++ c :: l2) = l1 ++ c :: a :: l2.
Proof.
  induction l1 as [|x l1 IH]; cbn [app insert_after]; [by rewrite decide_True|]. rewrite not_elem_of_cons. intros [H1 H2].
  rewrite decide_False by done. by rewrite IH.
Qed.

Lemma next_in_split l1 a l2 : a ∉ l1 -> next_in a (l1 ++ a :: l2) = head l2.
Proof.
  induction l1 as [|x l1 IH]; cbn [app next_in]; [by rewrite decide_True|]. rewrite not_elem_of_cons. intros [H1 H2].
  rewrite decide_False by done. by rewrite IH.
Qed.

Lemma in_split_nodup l a : NoDup l -> a ∈ l -> exists l1 l2, l = l1 ++ a :: l2 /\ a ∉ l1.
Proof.
  intros Hn Ha. apply list_elem_of_split in Ha as (l1 & l2 & ->). exists l1, l2. split; [done|].
  apply NoDup_app in Hn as (_ & Hd & _). intros Ha. apply (Hd a); set_solver.
Qed.

(** What a state of the history keeps: the queues, and the cells of elements. *)
Definition stands (E : gset Z) m Q : Prop := queues m Q /\ forall a, a ∈ E -> cell m (Field a).

(** An update of one queue by elements that are on no other. *)
Lemma stands_update (E : gset Z) m m' Q h l l' k : stands E m Q -> Q !! h = Some l -> q_repr m' h l' -> only (footprint h k) m m' ->
  (forall a, a ∈ k -> a ∈ l \/ map_Forall (fun _ l => a ∉ l) Q) -> l' ⊆ k -> stands E m' (<[h := l']> Q).
Proof.
  intros [HQ HE] Hh HR HO Hk Hs. split.
  - eapply queues_update; try done. intros h' l2 Hne Hl a Ha Ha2. destruct (Hk a Ha) as [Hl1|Hfr]; [by apply (proj2 HQ h l h' l2 Hh Hl (not_eq_sym Hne) a)|].
    by apply (Hfr h' l2 Hl).
  - intros a Ha. by apply HO, HE.
Qed.

Lemma stands_concat (E : gset Z) m m' Q h1 h2 l1 l2 : stands E m Q -> Q !! h1 = Some l1 -> Q !! h2 = Some l2 -> h1 <> h2 ->
  q_repr m' h1 (l1 ++ l2) -> q_repr m' h2 [] -> only (footprint h1 l1 ++ footprint h2 l2) m m' ->
  stands E m' (<[h1 := l1 ++ l2]> (<[h2 := []]> Q)).
Proof.
  intros [[HQ HD] HE] H1 H2 E1 HR1 HR2 HO. split; [|intros a Ha; by apply HO, HE]. split.
  - apply map_Forall_lookup. intros h l. rewrite !lookup_insert_Some. intros [[<- <-]|[Hne1 [[<- <-]|[Hne2 Hl]]]]; [done|done|].
    eapply only_other; [done| |by apply HQ]. intros p Hp. apply not_elem_of_app.
    split; (eapply footprint_disjoint; [| |done]); [done|by apply (HD h l h1 l1)|done|by apply (HD h l h2 l2)].
  - intros k1 x1 k2 x2. rewrite !lookup_insert_Some.
    intros [[<- <-]|[N1 [[<- <-]|[N2 Q1]]]] [[<- <-]|[N3 [[<- <-]|[N4 Q2]]]] Hne; try done;
      try (by intros y Hy%elem_of_nil); try (by intros y _ Hy%elem_of_nil).
    + pose proof (HD h1 l1 k2 x2 H1 Q2 Hne). pose proof (HD h2 l2 k2 x2 H2 Q2 ltac:(done)). intros y [Hy|Hy]%elem_of_app Hy2; naive_solver.
    + pose proof (HD k1 x1 h1 l1 Q1 H1 Hne). pose proof (HD k1 x1 h2 l2 Q1 H2 ltac:(done)). intros y Hy [Hy2|Hy2]%elem_of_app; naive_solver.
    + by eapply HD.
Qed.

Lemma queue_do_refines (E : gset Z) o m Q r Q' : stands E m Q -> lists_do E o Q = Some (r, Q') ->
  wp (queue_do o) (fun r' m' => r' = r /\ stands E m' Q') m.
Proof.
  intros HS Hd. pose proof HS as [[HQ HD] HE]. destruct o as [h a|h a|h c a|h a|h1 h2|h|h a|h]; cbn [lists_do queue_do] in *;
    try (destruct (Q !! h) as [l|] eqn:Hh; cbn [mbind option_bind] in Hd; [|done]; pose proof (HQ h l Hh) as HR; pose proof (q_nodup _ _ _ HR) as HN);
    repeat (case_decide as E1; [|done]); try (injection Hd as <- <-).
  - destruct E1 as [E1 E2]. q_go. eapply wp_mono; [apply q_insert_head_law; [done|by apply (E2 h)|by apply HE]|]. intros _ m' [HR' HO].
    q_go. split; [done|]. eapply stands_update; try done. intros x Hx. apply elem_of_cons in Hx as [->|Hx]; [by right|by left].
  - destruct E1 as [E1 E2]. q_go. eapply wp_mono; [apply q_insert_tail_law; [done|by apply (E2 h)|by apply HE]|]. intros _ m' [HR' HO].
    q_go. split; [done|]. eapply stands_update; try done. intros x Hx. apply elem_of_app in Hx as [Hx|Hx]; [by left|]. apply list_elem_of_singleton in Hx as ->. by right.
  - destruct (in_split_nodup l c HN E1) as (l1 & l2 & -> & Hc). case_decide as E2; [|done]. destruct E2 as [E2 E3]. injection Hd as <- <-.
    rewrite insert_after_split by done. q_go. eapply wp_mono; [apply q_insert_after_law; [done|by apply (E3 h)|by apply HE]|]. intros _ m' [HR' HO].
    q_go. split; [done|]. eapply stands_update; try done. intros x Hx. destruct (decide (x = a)) as [->|]; [by right|]. left. set_solver.
  - destruct (in_split_nodup l a HN E1) as (l1 & l2 & -> & Ha). rewrite remove1_split by done. q_go. eapply wp_mono; [by apply q_remove_law|]. intros _ m' [HR' HO].
    q_go. split; [done|]. eapply stands_update; try done; [auto|set_solver].
  - destruct (Q !! h1) as [l1|] eqn:H1; cbn [mbind option_bind] in Hd; [|done]. destruct (Q !! h2) as [l2|] eqn:H2; cbn [mbind option_bind] in Hd; [|done].
    case_decide as E1; [done|]. injection Hd as <- <-. q_go.
    eapply wp_mono; [apply (q_concat_law m h1 h2 l1 l2); [by apply HQ|by apply HQ|done|by apply (HD h1 l1 h2 l2)]|]. intros _ m' (HR1 & HR2 & HO).
    q_go. split; [done|]. by eapply stands_concat.
  - eapply wp_mono; [by apply q_first_law|]. by intros r' m' [-> ->].
  - destruct (in_split_nodup l a HN E1) as (l1 & l2 & -> & Ha). rewrite next_in_split by done. eapply wp_mono; [by eapply q_next_law|]. by intros r' m' [-> ->].
  - eapply wp_mono; [by apply q_last_law|]. by intros r' m' [-> ->].
Qed.

Lemma queue_run_refines (E : gset Z) os : forall m Q rs Q', stands E m Q -> lists_run E os Q = Some (rs, Q') ->
  wp (queue_run os) (fun rs' m' => rs' = rs /\ stands E m' Q') m.
Proof.
  induction os as [|o os IH]; intros m Q rs Q' HS Hr; cbn [lists_run queue_run] in *; [by injection Hr as <- <-|].
  destruct (lists_do E o Q) as [[r Q1]|] eqn:E1; cbn [mbind option_bind] in Hr; [|done].
  destruct (lists_run E os Q1) as [[rs1 Q2]|] eqn:E2; cbn [mbind option_bind] in Hr; [|done]. injection Hr as <- <-. q_go.
  eapply wp_mono; [by eapply queue_do_refines|]. intros r' m' [-> HS']. q_go. eapply wp_mono; [by eapply IH|]. intros rs' m2 [-> HS2]. by q_go.
Qed.
End tail_history.

(** C24: Any history of insertions (at the head, at the tail, after an element),
    removals, concatenations and readings of first, next and last elements on any
    number of tail queues, run on links by the [STAILQ] or the [TAILQ] macros,
    answers as the same history on lists does and leaves the links of the resulting
    lists, with no other word of memory involved; provided that it inserts elements
    that are on no queue and removes from the queue an element is on. *)
Theorem queue_history_refines_lists (E : gset Z) os m (Q : gmap Z (list Z)) rs Q' (Hr : lists_run E os Q = Some (rs, Q')) :
  (stands (H := stailq_tail_queue) E m Q ->
     wp (queue_run (H := stailq_tail_queue) os) (fun rs' m' => rs' = rs /\ stands (H := stailq_tail_queue) E m' Q') m) /\
  (stands (H := tailq_tail_queue) E m Q ->
     wp (queue_run (H := tailq_tail_queue) os) (fun rs' m' => rs' = rs /\ stands (H := tailq_tail_queue) E m' Q') m).
Proof. split; intros HS; by eapply queue_run_refines. Qed.

(** Two empty queues and four elements. *)
Definition ex_links : links :=
  Links (list_to_map ((fun p => (p, None)) <$> (Head <$> [1; 2]) ++ (Field <$> [10; 11; 12; 13])))
    (list_to_map (((fun h => (Head h, Some (Head h))) <$> [1; 2]) ++ ((fun a => (Field a, None)) <$> [10; 11; 12; 13]))).
Definition ex_history : list qop :=
  [QInsertTail 1 10; QInsertTail 1 11; QInsertHead 1 12; QRemove 1 10; QInsertAfter 1 12 13; QConcat 2 1; QFirst 2; QNext 2 13; QLast 2; QLast 1].

Lemma queue_history_refines_lists_witness :
  wp (queue_run (H := tailq_tail_queue) ex_history) (fun rs m => rs = [None; None; None; None; None; None; Some 12; Some 11; Some 11; None] /\
    stands (H := tailq_tail_queue) (list_to_set [10; 11; 12; 13]) m (<[2 := [12; 13; 11]]> (<[1 := []]> {[1 := []; 2 := []]}))) ex_links.
Proof.
  assert (lists_run (list_to_set [10; 11; 12; 13]) ex_history {[1 := []; 2 := []]} =
    Some ([None; None; None; None; None; None; Some 12; Some 11; Some 11; None], <[2 := [12; 13; 11]]> (<[1 := []]> {[1 := []; 2 := []]}))) as Hr by (vm_compute; reflexivity).
  refine (proj2 (queue_history_refines_lists _ ex_history ex_links _ _ _ Hr) _). split; [split|].
  - apply map_Forall_lookup. intros h l. rewrite lookup_insert_Some. intros [[<- <-]|[_ Hl]]; [|apply lookup_singleton_Some in Hl as [<- <-]]; (split; [split; [split; [split; [exact I|reflexivity]|constructor]|reflexivity]|exact I]).
  - intros h1 l1 h2 l2 H1 H2 _. rewrite lookup_insert_Some in H1. destruct H1 as [[<- <-]|[_ H1]]; [|apply lookup_singleton_Some in H1 as [<- <-]]; intros x Hx; by apply elem_of_nil in Hx.
  - intros a Ha. apply elem_of_list_to_set in Ha. repeat (apply elem_of_cons in Ha as [->|Ha]; [split; vm_compute; eauto|]). by apply elem_of_nil in Ha.
Defined.
