(* ===== verification/Chain.v ===== *)
(** * Hash chains (mc_assoc.c) on links

    The loops of [assoc_find], [assoc_delete] and the maintenance thread over the
    links of a bucket, and their correspondence with the lists [Assoc] uses for
    buckets. *)

From stdpp Require Import gmap list.
From S2P Require Import Prelude Assoc Queue QueueOk.
Open Scope Z_scope.
Implicit Types (h a c : Z) (l : list Z) (m : links) (k : list Z).

Section chains.
Context (ekey : Z -> list Z) (hash : list Z -> Z).

(** The loop of [assoc_find]. *)
Fixpoint find_loop (fuel : nat) (it : option Z) k : M links (option Z) :=
  match fuel, it with
  | O, _ => undef
  | S _, None => mret None
  | S fuel', Some a =>
      if decide (ekey a = k) then mret it else n ← SLIST_NEXT a; find_loop fuel' n k
  end.

Definition bucket_find (bucket : Z) k : M links (option Z) :=
  fuel ← gets (fun m => size (nxt m)); it ← SLIST_FIRST bucket; find_loop fuel it k.

(** The loop of [assoc_delete]: the entry before the one with the key. *)
Fixpoint prev_loop (fuel : nat) (prev it : option Z) k : M links (option Z) :=
  match fuel, it with
  | O, _ => undef
  | S _, None => mret prev
  | S fuel', Some a =>
      if decide (ekey a = k) then mret prev else n ← SLIST_NEXT a; prev_loop fuel' it n k
  end.

Definition bucket_delete (bucket : Z) k : M links unit :=
  fuel ← gets (fun m => size (nxt m));
  it ← SLIST_FIRST bucket;
  prev ← prev_loop fuel None it k;
  match prev with
  | None => SLIST_REMOVE_HEAD bucket
  | Some p => SLIST_REMOVE_AFTER p
  end.

(** The loop of the maintenance thread over [old_bucket]; [new_bucket i] is the
    head of the bucket [i] of the primary table. *)
Definition bucket_move (old_bucket : Z) (power : Z) (new_bucket : nat -> Z) : M links unit :=
  SLIST_FOREACH_SAFE old_bucket (fun it _ =>
    SLIST_REMOVE old_bucket it;;
    SLIST_INSERT_HEAD (new_bucket (Z.to_nat (Z.land (hash (ekey it)) (HASHMASK power)))) it) tt.

(** ** Lookup *)

Lemma find_loop_spec m h k : forall l2 l1 fuel, (length l2 < fuel)%nat -> slist m h (l1 ++ l2) ->
  wp (find_loop fuel (head l2) k) (fun r m' => r = chain_find ekey k l2 /\ m' = m) m.
Proof.
  induction l2 as [|a l2 IH]; intros l1 [|fuel] Hf HS; try (simpl in Hf; lia); [done|]. cbn [find_loop head chain_find].
  case_decide; [done|]. apply wp_bind. eapply wp_mono; [by eapply slist_next|]. intros r m' [-> ->].
  apply (IH (l1 ++ [a])); [simpl in Hf; lia|by rewrite <-app_assoc].
Qed.

Lemma bucket_find_spec m h l k : slist m h l -> wp (bucket_find h k) (fun r m' => r = chain_find ekey k l /\ m' = m) m.
Proof.
  intros HS. unfold bucket_find. q_go. eapply wp_mono; [by apply slist_first|]. intros r m' [-> ->].
  apply (find_loop_spec m h k l []); [|done]. by apply (q_size (queue := slist_queue) m h l).
Qed.

(** ** Deletion *)

Lemma slist_remove_head m h a l : slist m h (a :: l) ->
  wp (SLIST_REMOVE_HEAD h) (fun _ m' => slist m' h l /\ only (footprint h (a :: l)) m m') m.
Proof.
  intros HS. pose proof (slist_remove m h [] a l HS) as HW. unfold SLIST_REMOVE in HW. apply wp_bind_inv in HW.
  pose proof (slist_first m h (a :: l) HS) as HF. unfold wp in *. destruct (SLIST_FIRST h m) as [[r m']|]; [|done]. destruct HF as [-> ->].
  cbn [head] in HW. by rewrite bool_decide_true in HW.
Qed.

Lemma slist_remove_after m h l1 c a l2 : slist m h (l1 ++ c :: a :: l2) ->
  wp (SLIST_REMOVE_AFTER c) (fun _ m' => slist m' h (l1 ++ c :: l2) /\ only (footprint h (l1 ++ c :: a :: l2)) m m') m.
Proof.
  intros [Hc Hn]. replace (l1 ++ c :: a :: l2) with ((l1 ++ [c]) ++ a :: l2) in * by (by rewrite <-app_assoc).
  replace (l1 ++ c :: l2) with ((l1 ++ [c]) ++ l2) by (by rewrite <-app_assoc).
  destruct (chain_split _ _ _ _ _ Hc Hn) as (S1 & S2 & S3 & S4 & S5 & S6 & S7 & S8 & S9 & S10 & S11).
  pose proof (chain_remove _ h (l1 ++ [c]) a l2 _ Hc Hn eq_refl) as HC. rewrite fin_app in *. cbn [fin] in *.
  unfold SLIST_REMOVE_AFTER, SLIST_NEXT. q_go. split; [split; [exact HC|done]|]. touched; apply field_in_footprint; set_solver.
Qed.

(** What the loop finds: the list up to the entry, or the whole of it. *)
Lemma prev_loop_spec m h k : forall l2 l1 fuel, (length l2 < fuel)%nat -> slist m h (l1 ++ l2) -> Forall (fun a => ekey a <> k) l1 ->
  wp (prev_loop fuel (last l1) (head l2) k) (fun r m' => m' = m /\ exists k1 k2, l1 ++ l2 = k1 ++ k2 /\ r = last k1 /\
    Forall (fun a => ekey a <> k) k1 /\ (forall a, head k2 = Some a -> ekey a = k)) m.
Proof.
  induction l2 as [|a l2 IH]; intros l1 [|fuel] Hf HS Hl; try (simpl in Hf; lia).
  - split; [done|]. exists l1, []. done.
  - cbn [prev_loop head]. case_decide as E; [split; [done|]; exists l1, (a :: l2); naive_solver|].
    apply wp_bind. eapply wp_mono; [by eapply slist_next|]. intros r m' [-> ->].
    pose proof (IH (l1 ++ [a]) fuel ltac:(simpl in Hf; lia) ltac:(by rewrite <-app_assoc) ltac:(by apply Forall_app; split; [|constructor])) as HW.
    rewrite last_snoc, <-app_assoc in HW. exact HW.
Qed.

Lemma chain_delete_split k k1 k2 : Forall (fun a => ekey a <> k) k1 -> (forall a, head k2 = Some a -> ekey a = k) ->
  chain_delete ekey k (k1 ++ k2) = match k2 with [] => None | _ :: k3 => Some (k1 ++ k3) end.
Proof.
  intros Hk1 Hk2. induction k1 as [|x k1 IH]; cbn [app chain_delete].
  - destruct k2 as [|y k2]; [done|]. cbn [chain_delete]. rewrite decide_True; [done|]. by apply Hk2.
  - apply Forall_cons in Hk1 as [Hx Hk1]. rewrite decide_False by done. rewrite IH by done. by destruct k2.
Qed.

(** [assoc_delete] takes the entry off its chain, or follows NULL when the key
    is not there. *)
Lemma bucket_delete_spec m h l k : slist m h l ->
  match chain_delete ekey k l with
  | Some l' => wp (bucket_delete h k) (fun _ m' => slist m' h l' /\ only (footprint h l) m m') m
  | None => bucket_delete h k m = None
  end.
Proof.
  intros HS. pose proof (prev_loop_spec m h k l [] (size (nxt m)) (q_size (queue := slist_queue) m h l HS) HS ltac:(constructor)) as HP.
  pose proof (slist_first m h l HS) as HF.
  assert (bucket_delete h k m = (prev ← prev_loop (size (nxt m)) None (head l) k; match prev with None => SLIST_REMOVE_HEAD h | Some p => SLIST_REMOVE_AFTER p end) m) as Hb.
  { unfold bucket_delete, mbind, M_bind, gets. unfold wp in HF. destruct (SLIST_FIRST h m) as [[r m']|]; [|done]. by destruct HF as [-> ->]. }
  apply wp_elim in HP as (r & m' & He & -> & k1 & k2 & El & -> & Hk1 & Hk2). cbn [app] in El. subst l.
  rewrite (chain_delete_split k k1 k2 Hk1 Hk2). unfold mbind, M_bind in Hb. cbn [last] in He. rewrite He in Hb.
  destruct k2 as [|a k2].
  - rewrite Hb. rewrite app_nil_r in HS. destruct (decide (k1 = [])) as [->|E].
    + destruct HS as [[_ Hc] _]. cbn in Hc |- *. unfold SLIST_REMOVE_HEAD, SLIST_FIRST, get_next, mbind, M_bind, gets. by rewrite Hc.
    + destruct (exists_last E) as (k0 & c & ->). rewrite last_snoc. destruct HS as [[_ Hc] _]. rewrite fin_app in Hc. cbn in Hc.
      unfold SLIST_REMOVE_AFTER, SLIST_NEXT, get_next, mbind, M_bind, gets. by rewrite Hc.
  - unfold wp at 1. rewrite Hb. destruct (decide (k1 = [])) as [->|E]; [by apply slist_remove_head|].
    destruct (exists_last E) as (k0 & c & ->). rewrite last_snoc. rewrite <-!app_assoc in *. by apply slist_remove_after.
Qed.

(** ** Moving a bucket *)

(** The buckets of the primary table are queues of the memory. *)
Definition hung (Q : gmap Z (list Z)) (new_bucket : nat -> Z) (primary : list (list Z)) : Prop :=
  forall i x, primary !! i = Some x -> Q !! new_bucket i = Some x.

(** The body for the first entry of the old bucket. *)
Lemma move_entry_spec m (Q : gmap Z (list Z)) old a l new l' : queues (H := slist_queue) m Q -> Q !! old = Some (a :: l) -> Q !! new = Some l' -> old <> new ->
  cell m (Field a) ->
  wp (SLIST_REMOVE old a;; SLIST_INSERT_HEAD new a) (fun _ m' => queues (H := slist_queue) m' (<[new := a :: l']> (<[old := l]> Q)) /\
    forall p, cell m p -> cell m' p) m.
Proof.
  intros HQ Ho Hn Hne Ha. pose proof (proj1 HQ old (a :: l) Ho) as HS. apply wp_bind.
  eapply wp_mono; [by apply (slist_remove m old [] a l)|]. intros _ m1 [HS1 HO1].
  assert (queues (H := slist_queue) m1 (<[old := l]> Q)) as HQ1.
  { eapply (queues_update (H := slist_queue) m m1 Q old (a :: l) l (a :: l)); try done; [|set_solver].
    intros h' l2 Hh' Hl2. apply (proj2 HQ old (a :: l) h' l2); [done|done|congruence]. }
  assert ((<[old := l]> Q) !! new = Some l') as Hn1 by (by rewrite lookup_insert_ne).
  assert (forall h' l2, (<[old := l]> Q) !! h' = Some l2 -> a ∉ l2) as Hfr.
  { intros h' l2. rewrite lookup_insert_Some. intros [[<- <-]|[Hh' Hl2]] Ha2.
    - pose proof (q_nodup (queue := slist_queue) _ _ _ HS) as HN. apply NoDup_cons in HN. naive_solver.
    - apply (proj2 HQ old (a :: l) h' l2 Ho Hl2 Hh' a); [set_solver|done]. }
  eapply wp_mono; [apply (slist_insert_head m1 new l' a); [by apply (proj1 HQ1)|by eapply Hfr|by apply HO1]|]. intros _ m2 [HS2 HO2].
  split; [|intros p Hp; by apply HO2, HO1].
  eapply (queues_update (H := slist_queue) m1 m2 _ new l' (a :: l') (a :: l')); try done.
  intros h' l2 Hh' Hl2 x Hx Hx2. apply elem_of_cons in Hx as [->|Hx]; [by eapply Hfr|].
  by apply (proj2 HQ1 new l' h' l2 Hn1 Hl2 (not_eq_sym Hh') x).
Qed.

Lemma move_loop_spec old power new_bucket (Hinj : Inj (=) (=) new_bucket) (Hold : forall i, new_bucket i <> old) : forall l fuel m (Q : gmap Z (list Z)) primary primary',
  (length l < fuel)%nat -> queues (H := slist_queue) m Q -> Q !! old = Some l -> hung Q new_bucket primary -> (forall a, a ∈ l -> cell m (Field a)) ->
  move_chain ekey hash power l primary = Some primary' ->
  wp (foreach_safe_loop SLIST_NEXT (fun it _ => SLIST_REMOVE old it;; SLIST_INSERT_HEAD (new_bucket (Z.to_nat (Z.land (hash (ekey it)) (HASHMASK power)))) it) fuel (head l) tt)
    (fun _ m' => exists Q', queues (H := slist_queue) m' Q' /\ Q' !! old = Some [] /\ hung Q' new_bucket primary' /\
      forall h, h <> old -> (forall i, h <> new_bucket i) -> Q' !! h = Q !! h) m.
Proof.
  induction l as [|a l IH]; intros [|fuel] m Q primary primary' Hf HQ Ho Hp Hc Hm; try (simpl in Hf; lia); cbn [foreach_safe_loop head move_chain] in *.
  { injection Hm as <-. by exists Q. }
  set (i := Z.to_nat (Z.land (hash (ekey a)) (HASHMASK power))) in *. destruct (primary !! i) as [c|] eqn:Hi; cbn [mbind option_bind] in Hm; [|done].
  apply wp_bind. eapply wp_mono; [apply (slist_next m old [] a l); by apply (proj1 HQ)|]. intros r m' [-> ->]. apply wp_bind.
  eapply wp_mono; [apply (move_entry_spec m Q old a l (new_bucket i) c); [done|done|by apply Hp|by apply not_eq_sym|by apply Hc; left]|].
  intros [] m1 [HQ1 HO1]. eapply wp_mono; [eapply (IH fuel m1 _ (<[i := a :: c]> primary) primary')|].
  - simpl in Hf. lia.
  - exact HQ1.
  - by rewrite lookup_insert_ne, lookup_insert_eq.
  - intros j d. rewrite list_lookup_insert_Some. intros [(<- & <- & _)|[Hj Hd]]; [by rewrite lookup_insert_eq|].
    rewrite lookup_insert_ne by (by intros ?%Hinj). rewrite lookup_insert_ne by (by apply not_eq_sym). by apply Hp.
  - intros x Hx. apply HO1, Hc. by right.
  - exact Hm.
  - intros _ m2 (Q' & H1 & H2 & H3 & H4). exists Q'. do 3 (split; [done|]). intros h Hh1 Hh2. rewrite H4 by done.
    by rewrite !lookup_insert_ne by (done || by apply not_eq_sym).
Qed.

Lemma bucket_move_spec old power new_bucket m (Q : gmap Z (list Z)) l primary primary' : Inj (=) (=) new_bucket -> (forall i, new_bucket i <> old) ->
  queues (H := slist_queue) m Q -> Q !! old = Some l -> hung Q new_bucket primary -> (forall a, a ∈ l -> cell m (Field a)) ->
  move_chain ekey hash power l primary = Some primary' ->
  wp (bucket_move old power new_bucket)
    (fun _ m' => exists Q', queues (H := slist_queue) m' Q' /\ Q' !! old = Some [] /\ hung Q' new_bucket primary' /\
      forall h, h <> old -> (forall i, h <> new_bucket i) -> Q' !! h = Q !! h) m.
Proof.
  intros Hinj Hold HQ Ho Hp Hc Hm. unfold bucket_move, SLIST_FOREACH_SAFE, foreach_safe. q_go. pose proof (proj1 HQ old l Ho) as HS.
  eapply wp_mono; [by apply slist_first|]. intros r m' [-> ->]. eapply move_loop_spec; try done.
  pose proof (q_size (queue := slist_queue) m old l HS). lia.
Qed.
End chains.

(** C25: The loops of [mc_assoc.c] over the links of the buckets do what the model of
    the hash table does on lists: [assoc_find] returns the entry with the key;
    [assoc_delete] unlinks it and touches no word outside the chain, and follows a
    NULL pointer when there is none; the maintenance thread empties an old bucket
    and hangs its entries on the buckets of the primary table, each at the head,
    and on no other queue. *)
Theorem hash_chains_refine_lists (ekey : Z -> list Z) (hash : list Z -> Z) m (Q : gmap Z (list Z)) h l k (HQ : queues (H := slist_queue) m Q) (Hh : Q !! h = Some l) :
  wp (bucket_find ekey h k) (fun r m' => r = chain_find ekey k l /\ m' = m) m /\
  match chain_delete ekey k l with
  | Some l' => wp (bucket_delete ekey h k) (fun _ m' => slist m' h l' /\ only (footprint h l) m m') m
  | None => bucket_delete ekey h k m = None
  end /\
  forall power new_bucket primary primary', Inj (=) (=) new_bucket -> (forall i, new_bucket i <> h) -> hung Q new_bucket primary ->
    (forall a, a ∈ l -> cell m (Field a)) -> move_chain ekey hash power l primary = Some primary' ->
    wp (bucket_move ekey hash h power new_bucket)
      (fun _ m' => exists Q', queues (H := slist_queue) m' Q' /\ Q' !! h = Some [] /\ hung Q' new_bucket primary' /\
        forall h', h' <> h -> (forall i, h' <> new_bucket i) -> Q' !! h' = Q !! h') m.
Proof.
  pose proof (proj1 HQ h l Hh) as HS. split; [by apply bucket_find_spec|]. split; [by apply bucket_delete_spec|]. intros. by eapply bucket_move_spec.
Qed.

(** An old bucket with three entries and two buckets of the primary table. *)
Definition ex_chains : links :=
  Links {[Head 0 := Some 10; Field 10 := Some 11; Field 11 := Some 12; Field 12 := None; Head 1 := None; Head 2 := None]}
    {[Field 10 := None; Field 11 := None; Field 12 := None]}.
Definition ex_queues : gmap Z (list Z) := {[0 := [10; 11; 12]; 1 := []; 2 := []]}.

Lemma ex_chains_queues : queues (H := slist_queue) ex_chains ex_queues.
Proof.
  split.
  - apply map_Forall_lookup. intros h l. unfold ex_queues. rewrite !lookup_insert_Some, lookup_singleton_Some.
    intros [[<- <-]|[_ [[<- <-]|[_ [<- <-]]]]]; (split; [|apply (bool_decide_unpack _); vm_compute; exact I]); vm_compute; repeat split.
  - intros h1 l1 h2 l2. unfold ex_queues. rewrite !lookup_insert_Some, !lookup_singleton_Some.
    intros [[<- <-]|[_ [[<- <-]|[_ [<- <-]]]]] [[<- <-]|[_ [[<- <-]|[_ [<- <-]]]]] Hne; try done; intros x Hx Hx2; try (by apply elem_of_nil in Hx); by apply elem_of_nil in Hx2.
Qed.

Lemma hash_chains_refine_lists_witness :
  wp (bucket_find (fun a => [a]) 0 [11]) (fun r m' => r = Some 11 /\ m' = ex_chains) ex_chains /\
  wp (bucket_move (fun a => [a]) (hd 0) 0 1 (fun i => Z.of_nat i + 1))
    (fun _ m' => exists Q', queues (H := slist_queue) m' Q' /\ Q' !! 0 = Some [] /\ hung Q' (fun i => Z.of_nat i + 1) [[12; 10]; [11]] /\
      forall h', h' <> 0 -> (forall i : nat, h' <> Z.of_nat i + 1) -> Q' !! h' = ex_queues !! h') ex_chains.
Proof.
  destruct (hash_chains_refine_lists (fun a => [a]) (hd 0) ex_chains ex_queues 0 [10; 11; 12] [11] ex_chains_queues eq_refl) as (H1 & _ & H2).
  split; [exact H1|]. apply (H2 1 (fun i => Z.of_nat i + 1) [[]; []] [[12; 10]; [11]]).
  - intros i j Hij. lia.
  - intros i. lia.
  - intros [|[|i]] x Hx; [injection Hx as <-; reflexivity|injection Hx as <-; reflexivity|discriminate Hx].
  - intros a Ha. repeat (apply elem_of_cons in Ha as [->|Ha]; [split; vm_compute; eauto|]). by apply elem_of_nil in Ha.
  - vm_compute. reflexivity.
Defined.
