(* ===== verification/Conc.v ===== *)
(** * Threads

    A thread is a sequence of atomic accesses to a shared state [S]; a pool of
    threads runs them in any order.  A thread is shown correct on its own, given
    what the others may do to the state ([R], its rely) and for what it does itself
    ([G], its guarantee); threads whose guarantees are among the relies of the
    others are correct together. *)

From stdpp Require Import relations list.
From S2P Require Import Prelude.

Inductive thread (S A : Type) : Type :=
  | Done (a : A)
  | Act (B : Type) (m : M S B) (k : B -> thread S A).
Arguments Done {S A}.
Arguments Act {S A B}.

Fixpoint then_ {S A B} (t : thread S A) (k : A -> thread S B) : thread S B :=
  match t with
  | Done a => k a
  | Act m c => Act m (fun b => then_ (c b) k)
  end.

#[export] Instance thread_ret S : MRet (thread S) := fun A a => Done a.
#[export] Instance thread_bind S : MBind (thread S) := fun A B k t => then_ t k.

(** One access of the shared state. *)
Definition atomic {S A} (m : M S A) : thread S A := Act m Done.

(** The thread run on its own. *)
Fixpoint alone {S A} (t : thread S A) : M S A :=
  match t with
  | Done a => mret a
  | Act m k => b ← m; alone (k b)
  end.

(** ** Interleavings *)

Section pool.
Context {S : Type}.
Notation pool := (S * list (thread S unit))%type.

Inductive pstep : pool -> pool -> Prop :=
  | pstep_act s s' ts i B (m : M S B) k b :
      ts !! i = Some (Act m k) -> m s = Some (b, s') -> pstep (s, ts) (s', <[i := k b]> ts).

(** The next access of some thread is undefined. *)
Definition wrong (c : pool) : Prop := exists i B (m : M S B) k, c.2 !! i = Some (Act m k) /\ m c.1 = None.
End pool.

(** The pool after thread [i] has run as far as it can. *)
Fixpoint run_thread {S} (fuel : nat) (i : nat) (c : S * list (thread S unit)) : S * list (thread S unit) :=
  match fuel with
  | O => c
  | Datatypes.S fuel' =>
      match c.2 !! i with
      | Some (Act m k) => match m c.1 with Some (b, s) => run_thread fuel' i (s, <[i := k b]> c.2) | None => c end
      | _ => c
      end
  end.

Lemma run_thread_steps {S} i fuel : forall c : S * list (thread S unit), rtc pstep c (run_thread fuel i c).
Proof.
  induction fuel as [|fuel IH]; intros [s ts]; [constructor|]. cbn. destruct (ts !! i) as [[a|B m k]|] eqn:Ei; [constructor| |constructor].
  destruct (m s) as [[b s']|] eqn:Em; [|constructor]. eapply rtc_l; [by eapply pstep_act|]. apply IH.
Qed.

(** ** Rely and guarantee *)

Section rg.
Context {S : Type} (R G : S -> S -> Prop).

Fixpoint rg {A} (t : thread S A) (Q : A -> S -> Prop) (s : S) : Prop :=
  match t with
  | Done a => forall s', R s s' -> Q a s'
  | Act m k => forall s', R s s' -> wp m (fun b s'' => G s' s'' /\ rg (k b) Q s'') s'
  end.

Context `{!Transitive R, !Reflexive R}.

(** What the others do does not matter. *)
Lemma rg_stable {A} (t : thread S A) Q s s' : rg t Q s -> R s s' -> rg t Q s'.
Proof. destruct t; simpl; intros HT HR s2 HR2; apply HT; by etrans. Qed.

Lemma rg_mono {A} (t : thread S A) (P Q : A -> S -> Prop) : (forall a s, P a s -> Q a s) -> forall s, rg t P s -> rg t Q s.
Proof.
  intros HPQ. induction t as [a|B m k IH]; intros s; simpl; [auto|]. intros HT s' HR.
  eapply wp_mono; [by apply HT|]. intros b s2 [H1 H2]. split; [done|]. by apply IH.
Qed.

Lemma rg_bind {A B} (t : thread S A) (k : A -> thread S B) Q s : rg t (fun a => rg (k a) Q) s -> rg (t ≫= k) Q s.
Proof.
  unfold mbind, thread_bind. revert s. induction t as [a|C m c IH]; intros s; simpl; [intros HT; by apply HT|]. intros HT s' HR.
  eapply wp_mono; [by apply HT|]. intros b s2 [H1 H2]. split; [done|]. by apply IH.
Qed.

Lemma rg_ret {A} (a : A) (Q : A -> S -> Prop) s : (forall s', R s s' -> Q a s') -> rg (mret a) Q s.
Proof. done. Qed.

Lemma rg_atomic {A} (m : M S A) (Q : A -> S -> Prop) s :
  (forall s', R s s' -> wp m (fun a s'' => G s' s'' /\ forall s3, R s'' s3 -> Q a s3) s') -> rg (atomic m) Q s.
Proof. done. Qed.

Lemma rg_step {A B} (m : M S A) (k : A -> thread S B) Q s :
  (forall s', R s s' -> wp m (fun a s'' => G s' s'' /\ rg (k a) Q s'') s') -> rg (atomic m ≫= k) Q s.
Proof. done. Qed.

(** A thread that relies on nothing happening runs alone. *)
Lemma rg_alone {A} (t : thread S A) Q s : rg t Q s -> wp (alone t) Q s.
Proof.
  revert s. induction t as [a|B m k IH]; intros s; simpl; intros HT; [by apply HT|]. apply wp_bind.
  eapply wp_mono; [by apply HT|]. intros b s2 [_ H2]. by apply IH.
Qed.
End rg.

Section parallel.
Context {S : Type} (R G : nat -> S -> S -> Prop) (Q : nat -> S -> Prop).
Context (R_refl : forall i, Reflexive (R i)) (R_trans : forall i, Transitive (R i)).
Context (G_R : forall i j s s', i <> j -> G i s s' -> R j s s').

(** Every thread of the pool does what it promises. *)
Definition kept (c : S * list (thread S unit)) : Prop :=
  forall i t, c.2 !! i = Some t -> rg (R i) (G i) t (fun _ => Q i) c.1.

Definition moves (s s' : S) : Prop := exists i, G i s s'.

Lemma kept_step c c' : kept c -> pstep c c' -> kept c' /\ moves c.1 c'.1.
Proof.
  intros HK Hs. destruct Hs as [s s' ts i B m k b Hi Hm]. pose proof (HK i _ Hi) as HT. cbn in HT.
  specialize (HT s (R_refl i s)). unfold wp in HT. rewrite Hm in HT. destruct HT as [HG HT]. split; [|by exists i].
  intros j t Hj. cbn in Hj |- *. apply list_lookup_insert_Some in Hj as [(<- & <- & _)|[Hne Hj]]; [done|].
  eapply rg_stable; [apply R_trans|by apply (HK j)|by eapply G_R].
Qed.

Lemma kept_steps c c' : kept c -> rtc pstep c c' -> kept c' /\ rtc moves c.1 c'.1.
Proof.
  intros HK Hs. induction Hs as [c|c1 c2 c3 H1 H2 IH]; [done|]. destruct (kept_step _ _ HK H1) as [HK2 HM]. destruct (IH HK2) as [HK3 HM3].
  split; [done|]. by eapply rtc_l.
Qed.

Lemma kept_right c : kept c -> ~ wrong c.
Proof.
  intros HK (i & B & m & k & Hi & Hm). pose proof (HK i _ Hi) as HT. cbn in HT. specialize (HT c.1 (R_refl i c.1)).
  unfold wp in HT. by rewrite Hm in HT.
Qed.

(** Threads that keep their promises never go wrong, and an invariant of their
    guarantees holds throughout; one that is done has achieved its purpose. *)
Lemma parallel_invariant (I : S -> Prop) s ts s' ts' : (forall i s s', G i s s' -> I s -> I s') ->
  kept (s, ts) -> I s -> rtc pstep (s, ts) (s', ts') -> I s' /\ ~ wrong (s', ts') /\ forall i, ts' !! i = Some (Done tt) -> Q i s'.
Proof.
  intros HI HK HI0 Hs. destruct (kept_steps _ _ HK Hs) as [HK' HM].
  split; [|split; [by apply kept_right|intros i Hi; apply (HK' i _ Hi), R_refl]]. cbn in HM. clear Hs HK HK'.
  induction HM as [s|s1 s2 s3 [i Hi] _ IH]; [done|]. apply IH. by eapply HI.
Qed.
End parallel.
