(* ===== verification/Cache.v ===== *)
(** * The object cache (mc_cache.c)

    A stack of free buffers of one size, from which the suffixes of responses are
    allocated, over an array that grows.  An object is handed out to one user at a
    time, and the array is never accessed out of bounds. *)

From stdpp Require Import list.
From S2P Require Import Prelude Util.
Open Scope Z_scope.

Definition initial_pool_size : nat := 64.
Definition POINTER_SIZE : nat := 8.

(** [ptr] has as many slots as its memory has room for; [next_obj] is the address
    of the next object that is allocated, [ncall] counts the calls of the
    allocator. *)
Record cache := Cache {
  ptr : list (option Z);
  bufsize : nat;
  freetotal : nat;
  freecurr : nat;
  next_obj : Z;
  ncall : nat
}.

(** The answers to the three allocations and to [pthread_mutex_init]. *)
Definition cache_create (size : nat) (allocated : bool * bool * bool) (mutex : bool) (next : Z) : option cache :=
  let '(ret, name_new, ptr) := allocated in
  if ret && name_new && ptr && mutex then
    Some (Cache (replicate (initial_pool_size * size / POINTER_SIZE) None) size initial_pool_size 0 next 0)
  else None.

Section cache.
(** Whether the [n]-th call of [malloc] or [realloc] succeeds. *)
Context (e_alloc : nat -> bool).

Definition next_call : M cache bool :=
  k ← gets ncall;
  modify (fun c => Cache (ptr c) (bufsize c) (freetotal c) (freecurr c) (next_obj c) (S k));;
  mret (e_alloc k).

Definition cache_alloc : M cache (option Z) :=
  n ← gets freecurr;
  match n with
  | S n' =>
      o ← gets (fun c => ptr c !! n');
      slot ← lift o; a ← lift slot;
      modify (fun c => Cache (ptr c) (bufsize c) (freetotal c) n' (next_obj c) (ncall c));;
      mret (Some a)
  | O =>
      ok ← next_call;
      if (ok : bool) then
        a ← gets next_obj;
        modify (fun c => Cache (ptr c) (bufsize c) (freetotal c) (freecurr c) (a + 1) (ncall c));;
        mret (Some a)
      else mret None
  end.

(** [cache->ptr[cache->freecurr++] = buf] *)
Definition put_slot (buf : Z) : M cache unit :=
  c ← gets id;
  if decide (freecurr c < length (ptr c))%nat then
    modify (fun c => Cache (<[freecurr c := Some buf]> (ptr c)) (bufsize c) (freetotal c) (S (freecurr c)) (next_obj c) (ncall c))
  else undef.

Definition cache_free (buf : Z) : M cache unit :=
  c ← gets id;
  if decide (freecurr c < freetotal c)%nat then put_slot buf
  else
    let newtotal := (freetotal c * 2)%nat in
    if decide (Z.of_nat newtotal <= INT_MAX) then
      ok ← next_call;
      if (ok : bool) then
        modify (fun c => Cache (take newtotal (ptr c) ++ replicate (newtotal - length (ptr c)) None) (bufsize c) newtotal (freecurr c) (next_obj c) (ncall c));;
        put_slot buf
      else mret tt
    else undef.

(** [cache_destroy]: the objects it frees, before the structure itself. *)
Fixpoint destroy_loop (n : nat) : M cache (list Z) :=
  match n with
  | O => mret []
  | S n' =>
      o ← gets (fun c => ptr c !! n');
      slot ← lift o; a ← lift slot;
      modify (fun c => Cache (ptr c) (bufsize c) (freetotal c) n' (next_obj c) (ncall c));;
      l ← destroy_loop n';
      mret (a :: l)
  end.
Definition cache_destroy : M cache (list Z) := n ← gets freecurr; destroy_loop n.

(** ** Objects have one user *)

Implicit Types (c : cache) (out pool : list Z).

(** [out] are the objects in use. *)
Definition cache_ok out c : Prop :=
  exists pool, take (freecurr c) (ptr c) = Some <$> pool /\ length pool = freecurr c /\ NoDup (pool ++ out) /\
    (freecurr c <= freetotal c <= length (ptr c))%nat /\ Forall (fun a => a < next_obj c) (pool ++ out).

(** The first array is allocated with the size of an object, not of a pointer; it is
    large enough if objects are not smaller than pointers. *)
Lemma cache_create_ok size next c : (POINTER_SIZE <= size)%nat -> cache_create size (true, true, true) true next = Some c -> cache_ok [] c.
Proof.
  unfold cache_create. cbn [andb]. intros Hs <-%(inj Some). exists []. cbn [freecurr ptr freetotal next_obj]. split; [done|]. split; [done|]. split; [constructor|].
  split; [|constructor]. rewrite length_replicate. split; [lia|]. unfold POINTER_SIZE in *. apply Nat.div_le_lower_bound; [lia|]. rewrite Nat.mul_comm. by apply Nat.mul_le_mono_l.
Qed.

Lemma cache_alloc_spec out c : cache_ok out c ->
  wp cache_alloc (fun o c' => match o with Some a => a ∉ out /\ cache_ok (a :: out) c' | None => cache_ok out c' end) c.
Proof.
  intros (pool & Hp & Hl & Hnd & Hb & Hf). unfold cache_alloc. apply wp_bind, wp_gets. destruct (freecurr c) as [|k] eqn:Ek.
  - destruct pool; [|done]. unfold next_call. apply wp_bind, wp_bind, wp_gets, wp_bind, wp_modify, wp_ret. destruct (e_alloc _).
    + apply wp_bind, wp_gets, wp_bind, wp_modify, wp_ret. simpl in *. split.
      * intros Ha. rewrite Forall_forall in Hf. specialize (Hf _ Ha). simpl in Hf. lia.
      * exists []. simpl. rewrite Ek. split; [done|]. split; [done|]. split; [|split; [lia|]].
        -- constructor; [|done]. intros Ha. rewrite Forall_forall in Hf. specialize (Hf _ Ha). simpl in Hf. lia.
        -- constructor; [lia|]. eapply Forall_impl; [done|]. simpl. lia.
    + apply wp_ret. exists []. simpl in *. rewrite Ek. done.
  - destruct pool as [|a pool _] using rev_ind; [done|]. rewrite length_app in Hl. simpl in Hl.
    assert (ptr c !! k = Some (Some a)) as Ha.
    { rewrite <-(lookup_take_lt (ptr c) (S k)) by lia. rewrite Hp, fmap_app, lookup_app_r by (rewrite length_fmap; lia).
      rewrite length_fmap. replace (k - length pool)%nat with 0%nat by lia. done. }
    apply wp_bind, wp_gets. eapply wp_bind, wp_lift; [exact Ha|]. eapply wp_bind, wp_lift; [done|]. apply wp_bind, wp_modify, wp_ret.
    rewrite <-app_assoc in Hnd, Hf. split; [apply NoDup_app in Hnd as (_ & _ & Hnd); by apply NoDup_cons in Hnd as [? _]|].
    exists pool. simpl. split; [|split; [lia|]; split; [done|]; split; [lia|done]].
    replace k with (k `min` S k)%nat by lia. rewrite <-take_take, Hp, fmap_app, take_app_le by (rewrite length_fmap; lia). apply take_ge. rewrite length_fmap. lia.
Qed.

Lemma cache_free_spec out1 buf out2 c : cache_ok (out1 ++ buf :: out2) c -> Z.of_nat (freetotal c * 2) <= INT_MAX -> (0 < freetotal c)%nat ->
  wp (cache_free buf) (fun _ c' => cache_ok (out1 ++ out2) c') c.
Proof.
  intros (pool & Hp & Hl & Hnd & Hb & Hf) Hmax Hpos.
  assert (pool ++ out1 ++ buf :: out2 ≡ₚ (pool ++ [buf]) ++ out1 ++ out2) as Hperm.
  { rewrite <-app_assoc. apply Permutation_app_head. simpl. by rewrite Permutation_middle. }
  assert (forall d : cache, take (freecurr d) (ptr d) = Some <$> pool -> freecurr d = freecurr c -> (freecurr d < freetotal d <= length (ptr d))%nat -> next_obj d = next_obj c ->
    wp (put_slot buf) (fun _ c' => cache_ok (out1 ++ out2) c') d) as Hput.
  { intros d Hp' Hc' Hb' Hn'. unfold put_slot. apply wp_bind, wp_gets. unfold id. rewrite decide_True by lia. apply wp_modify.
    exists (pool ++ [buf]). simpl. rewrite <-Hperm. split; [|split; [rewrite length_app; simpl; lia|]; split; [done|]; split; [rewrite length_insert; lia|by rewrite Hn']].
    rewrite (take_S_r _ _ (Some buf)) by (apply list_lookup_insert_eq; lia). rewrite take_insert_ge by lia. by rewrite Hp', fmap_app. }
  unfold cache_free. apply wp_bind, wp_gets. unfold id. case_decide as Hd; [apply Hput; [done|done|lia|done]|]. rewrite decide_True by done.
  unfold next_call. apply wp_bind, wp_bind, wp_gets, wp_bind, wp_modify, wp_ret. destruct (e_alloc _).
  - apply wp_bind, wp_modify. apply Hput; simpl; [|done| |done].
    + rewrite take_app_le by (rewrite length_take; lia). rewrite take_take. by replace (freecurr c `min` (freetotal c * 2))%nat with (freecurr c) by lia.
    + rewrite length_app, length_take, length_replicate. lia.
  - apply wp_ret. exists pool. simpl. split; [done|]. split; [done|]. rewrite Hperm, <-app_assoc in Hnd, Hf. split; [|split; [done|]].
    + apply NoDup_app in Hnd as (N1 & N2 & N3). apply NoDup_app in N3 as (_ & _ & N3). apply NoDup_app. split; [done|]. split; [|done].
      intros x Hx Hx'. apply (N2 x Hx). set_solver.
    + apply Forall_app in Hf as [F1 F2]. apply Forall_app in F2 as [_ F2]. by apply Forall_app.
Qed.

(** Each free object is freed once. *)
Lemma cache_destroy_spec c : cache_ok [] c -> wp cache_destroy (fun l c' => NoDup l /\ length l = freecurr c /\ freecurr c' = 0%nat) c.
Proof.
  intros (pool & Hp & Hl & Hnd & _ & _). rewrite app_nil_r in Hnd. unfold cache_destroy. apply wp_bind, wp_gets.
  assert (forall n d, take n (ptr d) = Some <$> pool -> freecurr d = n -> length pool = n ->
    wp (destroy_loop n) (fun l d' => l = reverse pool /\ freecurr d' = 0%nat) d) as Hloop.
  { clear c Hp Hl Hnd. induction pool as [|a pool IH] using rev_ind; intros n d Ht Hd Hn.
    - simpl in Hn. subst n. rewrite <-Hn. by apply wp_ret.
    - rewrite length_app in Hn. simpl in Hn. destruct n as [|n]; [lia|]. cbn [destroy_loop].
      assert (ptr d !! n = Some (Some a)) as Ha.
      { rewrite <-(lookup_take_lt (ptr d) (S n)) by lia. rewrite Ht, fmap_app, lookup_app_r by (rewrite length_fmap; lia).
        rewrite length_fmap. replace (n - length pool)%nat with 0%nat by lia. done. }
      apply wp_bind, wp_gets. eapply wp_bind, wp_lift; [exact Ha|]. eapply wp_bind, wp_lift; [done|]. apply wp_bind, wp_modify, wp_bind.
      eapply wp_mono; [apply IH; simpl; [|done|lia]|].
      + replace n with (n `min` S n)%nat by lia. rewrite <-take_take, Ht, fmap_app, take_app_le by (rewrite length_fmap; lia). apply take_ge. rewrite length_fmap. lia.
      + intros l d' [-> Hz]. apply wp_ret. by rewrite reverse_snoc. }
  eapply wp_mono; [by apply Hloop|]. intros l d [-> Hz]. split; [by rewrite reverse_Permutation|]. by rewrite length_reverse.
Qed.
End cache.
