(* ===== verification/Klog.v ===== *)
(** * Command log (mc_klog.c)

    Every worker thread writes the lines of its requests into a circular buffer of
    its own, and the logger thread moves them to the log file; neither takes a
    lock.  The functions are threads ([Conc]): the accesses to [r_idx], [w_idx] and
    every byte of the buffer are single steps, so that those of the other thread
    may come in between.  The results of [write], [rename] and [open] and the text
    of the time are arguments. *)

From stdpp Require Import list.
From S2P Require Import Prelude Util Items Conc.
Open Scope Z_scope.

Definition KLOG_ENTRY_SIZE : Z := 384.
Definition KLOG_MAX_SIZE : Z := 1024 * 1024 * 1024.
Definition CIRCULAR_INCR (i d s : Z) : Z := (i + d) mod s.

Inductive klog_event := klog_skipped | klog_discarded | klog_logged.

(** [struct kbuf], and the counters of the thread it belongs to.  The last three
    fields are the history: the lines published so far, the bytes of them that
    [r_idx] has passed, and the bytes [write] has taken from this buffer. *)
Record kbuf := Kbuf {
  r_idx : Z;
  w_idx : Z;
  entries : Z;
  errors : Z;
  buf : mem;
  k_stats : list klog_event;
  lines : list (list Z);
  taken : nat;
  sent : list Z
}.

Definition size (k : kbuf) : Z := Z.of_nat (length (buf k)).
Definition set_r_idx (r : Z) (n : nat) (k : kbuf) : kbuf := Kbuf r (w_idx k) (entries k) (errors k) (buf k) (k_stats k) (lines k) n (sent k).
Definition set_w_idx (w : Z) (msg : list Z) (k : kbuf) : kbuf := Kbuf (r_idx k) w (entries k) (errors k) (buf k) (k_stats k) (lines k ++ [msg]) (taken k) (sent k).
Definition set_entries (n : Z) (k : kbuf) : kbuf := Kbuf (r_idx k) (w_idx k) n (errors k) (buf k) (k_stats k) (lines k) (taken k) (sent k).
Definition set_errors (n : Z) (k : kbuf) : kbuf := Kbuf (r_idx k) (w_idx k) (entries k) n (buf k) (k_stats k) (lines k) (taken k) (sent k).
Definition set_buf (b : mem) (k : kbuf) : kbuf := Kbuf (r_idx k) (w_idx k) (entries k) (errors k) b (k_stats k) (lines k) (taken k) (sent k).
Definition add_stat (e : klog_event) (k : kbuf) : kbuf := Kbuf (r_idx k) (w_idx k) (entries k) (errors k) (buf k) (k_stats k ++ [e]) (lines k) (taken k) (sent k).
Definition add_sent (bs : list Z) (k : kbuf) : kbuf := Kbuf (r_idx k) (w_idx k) (entries k) (errors k) (buf k) (k_stats k) (lines k) (taken k) (sent k ++ bs).

(** The static variables, the settings, the buffers of the threads and the log
    file and its backup. *)
Record klog := Klog {
  kbufs : list kbuf;
  fd : bool;
  kfs : Z;
  running : bool;
  sampling_rate : Z;
  log_file : list Z;
  backup : list Z;
  nsys : nat
}.

Definition set_kbufs (l : list kbuf) (s : klog) : klog := Klog l (fd s) (kfs s) (running s) (sampling_rate s) (log_file s) (backup s) (nsys s).
Definition set_fd (b : bool) (s : klog) : klog := Klog (kbufs s) b (kfs s) (running s) (sampling_rate s) (log_file s) (backup s) (nsys s).
Definition set_kfs (n : Z) (s : klog) : klog := Klog (kbufs s) (fd s) n (running s) (sampling_rate s) (log_file s) (backup s) (nsys s).
Definition set_running (b : bool) (s : klog) : klog := Klog (kbufs s) (fd s) (kfs s) b (sampling_rate s) (log_file s) (backup s) (nsys s).
Definition set_files (cur old : list Z) (s : klog) : klog := Klog (kbufs s) (fd s) (kfs s) (running s) (sampling_rate s) cur old (nsys s).
Definition tick (s : klog) : klog := Klog (kbufs s) (fd s) (kfs s) (running s) (sampling_rate s) (log_file s) (backup s) (S (nsys s)).

Definition get_kbuf (i : nat) : M klog kbuf := o ← gets (fun s => kbufs s !! i); lift o.
Definition upd_kbuf (i : nat) (f : kbuf -> kbuf) : M klog unit :=
  k ← get_kbuf i; modify (fun s => set_kbufs (<[i := f k]> (kbufs s)) s).

(** [klog_buf_create] with [settings.klog_entry]; the size is an [int]. *)
Definition klog_buf_create (klog_entry : Z) (allocated : bool) : option (option kbuf) :=
  let size := KLOG_ENTRY_SIZE * klog_entry in
  if (INT_MAX <? size) || (size <=? 0) then None
  else if allocated then Some (Some (Kbuf 0 0 0 0 (replicate (Z.to_nat size) None) [] [] 0 []))
  else Some None.

Section klog.
(** The [n]-th system call of the logger: the bytes [write] takes, or [None] for an
    error; whether [rename] and [open] succeed. *)
Context (e_write : nat -> option Z) (e_rename e_open : nat -> bool).

Definition klog_init (named : bool) : M klog Z :=
  modify (set_fd false);;
  if named then
    n ← gets nsys; modify tick;;
    if e_open n then modify (fun s => set_files [] (backup s) (set_fd true s));; mret 0 else mret (-1)
  else mret 0.

Definition klog_remain (k : kbuf) : Z :=
  let remain := r_idx k - w_idx k in
  let remain := if remain <=? 0 then remain + size k else remain in
  remain - 1.

(** ** Writing a line *)

(** A request to log: the time is [None] when [strftime] fails. *)
Record request := Request {
  q_peer : list Z;
  q_time : option (list Z);
  q_type : req_type;
  q_cmdkey : list Z;
  q_status : Z;
  q_res_len : Z
}.

(** [KLOG_GET_FMT], [KLOG_GETS_FMT], [KLOG_FMT] *)
Definition klog_text (q : request) (timestr : list Z) : list Z :=
  q_peer q ++ bytes " - [" ++ timestr ++ bytes "] " ++ [34] ++
  match q_type q with
  | REQ_IQGET => bytes "get "
  | REQ_GETS => bytes "gets "
  | _ => []
  end ++ q_cmdkey q ++ [34] ++ bytes " " ++ print_int (q_status q) ++ bytes " " ++ print_int (q_res_len q) ++ [10].

Definition incr_errors (i : nat) : thread klog unit := atomic (upd_kbuf i (fun k => set_errors (errors k + 1) k)).

(** What is printed, if anything, and the value returned. *)
Definition klog_fmt (i : nat) (q : request) : thread klog (option (list Z) * Z) :=
  match q_time q with
  | None => incr_errors i;; mret (None, 0)
  | Some timestr =>
      let text := klog_text q timestr in
      let len := _vscnprintf (Z.of_nat (length text)) KLOG_ENTRY_SIZE in
      let msg := take (Z.to_nat (KLOG_ENTRY_SIZE - 1)) text in
      if KLOG_ENTRY_SIZE <=? len then incr_errors i;; mret (Some msg, 0) else mret (Some msg, len)
  end.

Definition put_byte (i : nat) (pos b : Z) : M klog unit :=
  k ← get_kbuf i; m ← lift (mem_write (buf k) pos [Some b]); upd_kbuf i (set_buf m).

Fixpoint copy (i : nat) (pos : Z) (bs : list Z) : thread klog unit :=
  match bs with
  | [] => mret tt
  | b :: bs' => atomic (put_byte i pos b);; copy i (pos + 1) bs'
  end.

(** [entries++] and the sampling: whether the request is skipped. *)
Definition count_entry (i : nat) : M klog bool :=
  k ← get_kbuf i;
  rate ← gets sampling_rate;
  if rate =? 0 then undef
  else if negb (Z.rem (entries k + 1) rate =? 0) then upd_kbuf i (fun k => add_stat klog_skipped (set_entries (entries k + 1) k));; mret true
  else upd_kbuf i (set_entries 0);; mret false.

(** Composes the line in the buffer, or beside it when it may wrap around. *)
Definition compose (i : nat) (q : request) (w remain : Z) : thread klog (list Z) :=
  '(text, ret) ← klog_fmt i q;
  let msg := default [] text in
  if remain <? KLOG_ENTRY_SIZE then
    let entry := take (Z.to_nat ret) msg in
    (if remain <? ret then copy i w (take (Z.to_nat remain) entry);; copy i 0 (drop (Z.to_nat remain) entry)
     else copy i w entry);;
    mret entry
  else
    (match text with Some t => copy i w (t ++ [0]) | None => mret tt end);;
    mret (take (Z.to_nat ret) msg).

Definition _klog_write (i : nat) (q : request) : thread klog unit :=
  enabled ← atomic (gets running);
  if negb enabled then mret tt
  else
    skip ← atomic (count_entry i);
    if skip : bool then mret tt
    else
      remain ← atomic (k ← get_kbuf i; mret (klog_remain k));
      if remain <? KLOG_ENTRY_SIZE then atomic (upd_kbuf i (add_stat klog_discarded))
      else
        '(w, sz) ← atomic (k ← get_kbuf i; mret (w_idx k, size k));
        msg ← compose i q w (sz - w);
        if (0 <? length msg)%nat then
          atomic (upd_kbuf i (add_stat klog_logged));;
          atomic (upd_kbuf i (set_w_idx (CIRCULAR_INCR w (Z.of_nat (length msg)) sz) msg))
        else mret tt.

(** ** Collecting *)

(** [mc_write(fd, &kbuf->buf[off], len)] *)
Definition sys_write (i : nat) (off len : Z) : M klog (option Z) :=
  k ← get_kbuf i;
  bs ← lift (mem_read (buf k) off len);
  open ← gets fd;
  n ← gets nsys; modify tick;;
  if negb open then mret None
  else
    match e_write n with
    | None => mret None
    | Some x =>
        let n := Z.max 0 (Z.min x len) in
        upd_kbuf i (add_sent (take (Z.to_nat n) bs));;
        modify (fun s => set_files (log_file s ++ take (Z.to_nat n) bs) (backup s) s);;
        mret (Some n)
    end.

Definition klog_reopen : M klog unit :=
  open ← gets fd;
  if negb open then mret tt
  else
    n ← gets nsys; modify tick;; modify tick;;
    modify (fun s => set_files [] (if e_rename n then log_file s else backup s) s);;
    if e_open (S n) then mret tt
    else modify (set_fd false);; modify (set_running false).

(** [kfs] is an [int]. *)
Definition count_bytes (ret : Z) : M klog unit :=
  n ← gets kfs;
  if INT_MAX <? n + ret then undef
  else if KLOG_MAX_SIZE <? n + ret then klog_reopen;; modify (set_kfs 0)
  else modify (set_kfs (n + ret)).

Definition read_parts (i : nat) (r w sz : Z) : thread klog (option Z) :=
  if r <=? w then
    if r <? w then atomic (sys_write i r (w - r)) else mret (Some 0)
  else
    n ← atomic (sys_write i r (sz - r));
    match n with
    | None => mret None
    | Some n =>
        if n =? sz - r then
          n2 ← atomic (sys_write i 0 w);
          match n2 with None => mret None | Some n2 => mret (Some (n + n2)) end
        else mret (Some n)
    end.

Definition klog_read (i : nat) : thread klog Z :=
  '(w, r, sz) ← atomic (k ← get_kbuf i; mret (w_idx k, r_idx k, size k));
  ret ← read_parts i r w sz;
  match ret with
  | None => incr_errors i;; mret 0
  | Some ret =>
      (if 0 <? ret then atomic (upd_kbuf i (fun k => set_r_idx (CIRCULAR_INCR r ret sz) (taken k + Z.to_nat ret) k)) else mret tt);;
      atomic (count_bytes ret);;
      mret ret
  end.

(** The loop over [threads[i].kbuf] from [i]. *)
Fixpoint collect_loop (n i : nat) : thread klog Z :=
  match n with
  | O => mret 0
  | S n' => a ← klog_read i; b ← collect_loop n' (S i); mret (a + b)
  end.

Definition _klog_collect (num_workers : nat) : thread klog unit :=
  enabled ← atomic (gets running);
  if negb enabled then mret tt else collect_loop num_workers 0;; mret tt.
End klog.
