(* ===== verification/KlogOk.v ===== *)
(** * The command log loses and reorders nothing it accepts

    Worker threads and the logger in any interleaving: the buffers stay in order,
    no line is overwritten before it is read, and what reaches the file is what was
    published, in order. *)

From stdpp Require Import list relations.
From S2P Require Import Prelude Util Items Conc Klog.
Open Scope Z_scope.
Implicit Types (k : kbuf) (s : klog) (i : nat).

(** ** Positions in the stream and in the buffer *)

Lemma mod_add n d sz : (d < sz)%nat -> ((n + d) mod sz = n mod sz + d \/ (n + d) mod sz + sz = n mod sz + d)%nat.
Proof.
  intros Hd. pose proof (Nat.div_mod_eq n sz). pose proof (Nat.mod_upper_bound n sz ltac:(lia)).
  destruct (decide (n mod sz + d < sz)%nat).
  - left. symmetry. apply (Nat.mod_unique _ _ (n / sz)); lia.
  - right. assert (((n + d) mod sz = n mod sz + d - sz)%nat); [|lia]. symmetry. apply (Nat.mod_unique _ _ (n / sz + 1)); lia.
Qed.

Lemma mod_distinct a b sz : (a < b < a + sz)%nat -> (a mod sz <> b mod sz)%nat.
Proof. intros Hab. destruct (mod_add a (b - a) sz) as [E|E]; [lia|..]; replace (a + (b - a))%nat with b in E by lia; lia. Qed.

Definition logged k : list Z := mjoin (lines k).

(** The bytes of the stream between [taken] and its end are in the buffer, at their
    position modulo its size. *)
Record kb_ok k : Prop := {
  k_size : (0 < length (buf k))%nat;
  k_small : size k <= INT_MAX - KLOG_MAX_SIZE;
  k_r : r_idx k = Z.of_nat (taken k mod length (buf k));
  k_w : w_idx k = Z.of_nat (length (logged k) mod length (buf k));
  k_room : (taken k <= length (logged k) < taken k + length (buf k))%nat;
  k_bytes j x : (taken k <= j)%nat -> logged k !! j = Some x -> buf k !! (j mod length (buf k))%nat = Some (Some x);
  k_errors : 0 <= errors k;
  k_sent : errors k = 0 -> sent k `prefix_of` logged k
}.

(** [klog_remain]: what is left of the buffer, less one. *)
Lemma klog_remain_spec k : kb_ok k -> klog_remain k = Z.of_nat (length (buf k) + taken k - length (logged k)) - 1.
Proof.
  intros []. unfold klog_remain, size. rewrite k_r0, k_w0. set (n := length (buf k)) in *. set (t := taken k) in *. set (e := length (logged k)) in *.
  pose proof (Nat.mod_upper_bound t n ltac:(lia)). pose proof (Nat.mod_upper_bound e n ltac:(lia)).
  destruct (mod_add t (e - t) n) as [E|E]; [lia|..]; replace (t + (e - t))%nat with e in E by lia; zcase; lia.
Qed.

(** ** What the threads may do *)

(** The logger: [r_idx] moves on. *)
Record kc k k' : Prop := {
  kc_buf : buf k' = buf k;
  kc_lines : lines k' = lines k;
  kc_w : w_idx k' = w_idx k;
  kc_taken : (taken k <= taken k')%nat;
  kc_ok : kb_ok k -> kb_ok k'
}.

(** A worker: bytes outside of the unread part change, and lines are published. *)
Record kw k k' : Prop := {
  kw_len : length (buf k') = length (buf k);
  kw_r : r_idx k' = r_idx k;
  kw_taken : taken k' = taken k;
  kw_sent : sent k' = sent k;
  kw_lines : lines k `prefix_of` lines k';
  kw_bytes j : (taken k <= j < length (logged k))%nat -> buf k' !! (j mod length (buf k))%nat = buf k !! (j mod length (buf k))%nat;
  kw_errors : errors k <= errors k';
  kw_ok : kb_ok k -> kb_ok k'
}.

#[export] Instance kc_refl : Reflexive kc.
Proof. by split. Qed.
#[export] Instance kc_trans : Transitive kc.
Proof. intros k1 k2 k3 [] []. split; [congruence|congruence|congruence|lia|auto]. Qed.
#[export] Instance kw_refl : Reflexive kw.
Proof. by split. Qed.

Lemma logged_prefix k k' : lines k `prefix_of` lines k' -> logged k `prefix_of` logged k'.
Proof. intros [l Hl]. unfold logged. rewrite Hl, join_app. by apply prefix_app_r. Qed.

#[export] Instance kw_trans : Transitive kw.
Proof.
  intros k1 k2 k3 H1 H2. pose proof (logged_prefix k1 k2 (kw_lines _ _ H1)) as Hp. apply prefix_length in Hp. destruct H1, H2.
  split; [congruence|congruence|congruence|congruence|by etrans| |lia|auto].
  intros j Hj. rewrite <-kw_len0. rewrite kw_bytes1 by lia. rewrite kw_len0. by apply kw_bytes0.
Qed.

(** Worker [i] changes its buffer only. *)
Definition Gw i s s' : Prop :=
  sampling_rate s' = sampling_rate s /\ kfs s' = kfs s /\ length (kbufs s') = length (kbufs s) /\
  (forall j, j <> i -> kbufs s' !! j = kbufs s !! j) /\
  (forall k, kbufs s !! i = Some k -> exists k', kbufs s' !! i = Some k' /\ kw k k').
Definition kfs_ok s : Prop := 0 <= kfs s <= KLOG_MAX_SIZE.
Definition Gc s s' : Prop :=
  sampling_rate s' = sampling_rate s /\ length (kbufs s') = length (kbufs s) /\ (kfs_ok s -> kfs_ok s') /\
  (forall j k, kbufs s !! j = Some k -> exists k', kbufs s' !! j = Some k' /\ kc k k').

Definition Rw i s s' : Prop :=
  sampling_rate s' = sampling_rate s /\ (forall k, kbufs s !! i = Some k -> exists k', kbufs s' !! i = Some k' /\ kc k k').
Definition Rc s s' : Prop :=
  kfs s' = kfs s /\ length (kbufs s') = length (kbufs s) /\ (forall j k, kbufs s !! j = Some k -> exists k', kbufs s' !! j = Some k' /\ kw k k').

#[export] Instance Rw_refl i : Reflexive (Rw i).
Proof. intros s. split; [done|]. intros k Hk. by exists k. Qed.
#[export] Instance Rw_trans i : Transitive (Rw i).
Proof.
  intros s1 s2 s3 [E1 H1] [E2 H2]. split; [congruence|]. intros k Hk. destruct (H1 k Hk) as (k2 & Hk2 & C1). destruct (H2 k2 Hk2) as (k3 & Hk3 & C2).
  exists k3. split; [done|]. by etrans.
Qed.
#[export] Instance Rc_refl : Reflexive Rc.
Proof. intros s. split; [done|]. split; [done|]. intros j k Hk. by exists k. Qed.
#[export] Instance Rc_trans : Transitive Rc.
Proof.
  intros s1 s2 s3 (E1 & L1 & H1) (E2 & L2 & H2). split; [congruence|]. split; [congruence|]. intros j k Hk. destruct (H1 j k Hk) as (k2 & Hk2 & C1).
  destruct (H2 j k2 Hk2) as (k3 & Hk3 & C2). exists k3. split; [done|]. by etrans.
Qed.

Lemma Gw_refl i s : Gw i s s.
Proof. do 4 (split; [done|]). intros k Hk. by exists k. Qed.
Lemma Gc_refl s : Gc s s.
Proof. do 3 (split; [done|]). intros j k Hk. by exists k. Qed.

Lemma Gc_same s s' : sampling_rate s' = sampling_rate s -> kbufs s' = kbufs s -> (kfs_ok s -> kfs_ok s') -> Gc s s'.
Proof. intros E1 E2 E3. split; [done|]. rewrite E2. split; [done|]. split; [done|]. intros j k Hk. by exists k. Qed.

Lemma Gw_Rw i j s s' : i <> j -> Gw i s s' -> Rw j s s'.
Proof. intros Hij (E & _ & _ & H1 & _). split; [done|]. intros k Hk. exists k. by rewrite H1. Qed.

Lemma Gw_Rc i s s' : Gw i s s' -> Rc s s'.
Proof.
  intros (_ & E & L & H1 & H2). split; [done|]. split; [done|]. intros j k Hk. destruct (decide (j = i)) as [->|]; [by apply H2|].
  exists k. by rewrite H1.
Qed.

Lemma Gc_Rw i s s' : Gc s s' -> Rw i s s'.
Proof. intros (E & _ & _ & H1). split; [done|]. intros k Hk. by apply H1. Qed.

(** ** Steps *)

Lemma wp_get_kbuf i k (Q : kbuf -> klog -> Prop) s : kbufs s !! i = Some k -> Q k s -> wp (get_kbuf i) Q s.
Proof. intros Hk HQ. unfold get_kbuf. apply wp_bind, wp_gets. by eapply wp_lift. Qed.

Lemma wp_upd_kbuf i k f (Q : unit -> klog -> Prop) s : kbufs s !! i = Some k -> Q tt (set_kbufs (<[i := f k]> (kbufs s)) s) -> wp (upd_kbuf i f) Q s.
Proof. intros Hk HQ. unfold upd_kbuf. apply wp_bind. eapply wp_get_kbuf; [done|]. by apply wp_modify. Qed.

Lemma Gw_upd i k k' s : kbufs s !! i = Some k -> kw k k' -> Gw i s (set_kbufs (<[i := k']> (kbufs s)) s).
Proof.
  intros Hk HW. split; [done|]. split; [done|]. split; [by cbn; rewrite length_insert|]. split; [intros j Hj; cbn; by rewrite list_lookup_insert_ne|].
  intros k0 Hk0. exists k'. rewrite Hk in Hk0. injection Hk0 as <-. split; [|done]. cbn. apply list_lookup_insert_eq. by eapply lookup_lt_Some.
Qed.

Lemma kbufs_upd i k k' s : kbufs s !! i = Some k -> kbufs (set_kbufs (<[i := k']> (kbufs s)) s) !! i = Some k'.
Proof. intros Hk. cbn. apply list_lookup_insert_eq. by eapply lookup_lt_Some. Qed.

Lemma Gc_upd i k k' s : kbufs s !! i = Some k -> kc k k' -> Gc s (set_kbufs (<[i := k']> (kbufs s)) s).
Proof.
  intros Hk HW. split; [done|]. split; [by cbn; rewrite length_insert|]. split; [done|]. intros j k0 Hk0. destruct (decide (j = i)) as [->|Hne].
  - rewrite Hk in Hk0. injection Hk0 as <-. exists k'. split; [by eapply kbufs_upd|done].
  - exists k0. split; [|done]. cbn. by rewrite list_lookup_insert_ne.
Qed.

(** ** A worker *)

Section worker.
Context (i : nat).
Notation end_of L := (length (mjoin L)).

(** The buffer of the worker when it has published [L], has put the bytes [W] after
    them, and may put [cap] bytes in all. *)
Definition held (L : list (list Z)) (sz : nat) (W : list Z) (cap : nat) s : Prop :=
  0 < sampling_rate s /\ exists k, kbufs s !! i = Some k /\ kb_ok k /\ lines k = L /\ length (buf k) = sz /\ (end_of L + cap <= taken k + sz)%nat /\
    forall m x, W !! m = Some x -> buf k !! ((end_of L + m) mod sz)%nat = Some (Some x).

(** The same before the space is known. *)
Definition owns (L : list (list Z)) s : Prop := 0 < sampling_rate s /\ exists k, kbufs s !! i = Some k /\ kb_ok k /\ lines k = L.

Lemma held_stable L sz W cap s s' : held L sz W cap s -> Rw i s s' -> held L sz W cap s'.
Proof.
  intros (Hs & k & Hk & Hok & Hl & Hsz & Hc & HW) [E HR]. split; [by rewrite E|]. destruct (HR k Hk) as (k' & Hk' & []). exists k'. split; [done|]. split; [auto|].
  split; [congruence|]. split; [congruence|]. split; [lia|]. by rewrite kc_buf0.
Qed.

Lemma owns_stable L s s' : owns L s -> Rw i s s' -> owns L s'.
Proof.
  intros (Hs & k & Hk & Hok & Hl) [E HR]. split; [by rewrite E|]. destruct (HR k Hk) as (k' & Hk' & []). exists k'. split; [done|]. split; [auto|]. congruence.
Qed.

Lemma held_owns L sz W cap s : held L sz W cap s -> owns L s.
Proof. intros (Hs & k & ? & ? & ? & _). split; [done|]. by exists k. Qed.

Lemma mem_write_byte (b : mem) n (x : Z) : (n < length b)%nat -> mem_write b (Z.of_nat n) [Some x] = Some (<[n := Some x]> b).
Proof.
  intros Hn. unfold mem_write. rewrite decide_True by (cbn; lia). rewrite Nat2Z.id. f_equal. cbn [length]. symmetry. rewrite insert_take_drop by done. by rewrite Nat.add_1_r.
Qed.

(** One byte after those that are there. *)
Lemma put_byte_spec L sz W cap b s : held L sz W cap s -> (length W < cap)%nat -> (cap <= sz)%nat ->
  wp (put_byte i (Z.of_nat ((end_of L + length W) mod sz)) b) (fun _ s' => Gw i s s' /\ held L sz (W ++ [b]) cap s') s.
Proof.
  intros (Hs & k & Hk & Hok & Hl & Hsz & Hc & HW) HlW Hcap. pose proof Hok as []. set (p := (end_of L + length W)%nat) in *.
  assert (p mod sz < length (buf k))%nat as Hp by (rewrite Hsz; apply Nat.mod_upper_bound; lia). unfold put_byte. apply wp_bind. eapply wp_get_kbuf; [done|].
  apply wp_bind. eapply wp_lift; [by apply mem_write_byte|]. eapply wp_upd_kbuf; [done|]. set (k' := set_buf (<[(p mod sz)%nat := Some b]> (buf k)) k).
  assert (logged k = mjoin L) as HL by (unfold logged; by rewrite Hl).
  assert (forall j, (taken k <= j < p)%nat -> buf k' !! (j mod sz)%nat = buf k !! (j mod sz)%nat) as Hkeep.
  { intros j Hj. cbn. apply list_lookup_insert_ne. apply not_eq_sym, mod_distinct. lia. }
  assert (length (buf k') = length (buf k)) as Hlen by (cbn; by rewrite length_insert).
  assert (kb_ok k') as Hok'.
  { split; try (rewrite Hlen; done); try done; [unfold size; by rewrite Hlen|].
    intros j x Hj Hx. rewrite Hlen, Hsz. rewrite Hkeep; [rewrite <-Hsz; by apply k_bytes0|]. apply lookup_lt_Some in Hx. cbn in Hj.
    change (logged k') with (logged k) in Hx. rewrite HL in Hx. lia. }
  assert (kw k k') as HK.
  { split; try done. intros j Hj. rewrite Hsz. apply Hkeep. rewrite HL in Hj. lia. }
  split; [by apply Gw_upd with k|]. split; [done|]. exists k'. split; [by eapply kbufs_upd|]. split; [done|]. split; [done|]. split; [lia|]. split; [cbn; lia|].
  intros m x Hx. apply lookup_snoc_Some in Hx as [[Hm Hx]|[-> ->]].
  - cbn. rewrite list_lookup_insert_ne; [by apply HW|]. apply not_eq_sym, mod_distinct. lia.
  - cbn. by apply list_lookup_insert_eq.
Qed.

(** The bytes of a copy that does not wrap around. *)
Lemma copy_spec L sz cap bs : forall W pos s, held L sz W cap s -> (length W + length bs <= cap)%nat -> (cap <= sz)%nat ->
  pos = Z.of_nat ((end_of L + length W) mod sz) -> pos + Z.of_nat (length bs) <= Z.of_nat sz ->
  rg (Rw i) (Gw i) (copy i pos bs) (fun _ => held L sz (W ++ bs) cap) s.
Proof.
  induction bs as [|b bs IH]; intros W pos s HH Hl Hcap Hpos Hsz; cbn [copy].
  { intros s' HR. rewrite app_nil_r. by eapply held_stable. }
  cbn [length] in *. apply rg_step. intros s' HR. pose proof (held_stable _ _ _ _ _ _ HH HR) as HH'. rewrite Hpos.
  eapply wp_mono; [apply put_byte_spec; [done|lia|done]|]. intros _ s2 [HG HH2]. split; [done|].
  replace (W ++ b :: bs) with ((W ++ [b]) ++ bs) by (by rewrite <-app_assoc).
  destruct bs as [|b2 bs]; [cbn [copy]; intros s3 HR3; rewrite app_nil_r; by eapply held_stable|].
  apply IH; [done|rewrite length_app; cbn [length] in *; lia|done| |cbn [length] in *; lia].
  rewrite length_app. cbn [length] in *. destruct (mod_add (end_of L + length W) 1 sz) as [E|E]; [lia|..].
  - replace (end_of L + (length W + 1))%nat with (end_of L + length W + 1)%nat by lia. lia.
  - pose proof (Nat.mod_upper_bound (end_of L + length W + 1) sz). lia.
Qed.

(** The line of a request, if it can be printed. *)
Definition line_of (q : request) : list Z :=
  match q_time q with None => [] | Some ts => take (Z.to_nat (KLOG_ENTRY_SIZE - 1)) (klog_text q ts) end.

Lemma line_short q : (length (line_of q) <= 383)%nat.
Proof. unfold line_of. destruct (q_time q); [|cbn; lia]. rewrite length_take. unfold KLOG_ENTRY_SIZE. lia. Qed.

Lemma held_errors L sz W cap s s' : held L sz W cap s -> Rw i s s' ->
  wp (upd_kbuf i (fun k => set_errors (errors k + 1) k)) (fun _ s2 => Gw i s' s2 /\ held L sz W cap s2) s'.
Proof.
  intros HH HR. pose proof (held_stable _ _ _ _ _ _ HH HR) as (Hs & k & Hk & Hok & Hl & Hsz & Hc & HW). eapply wp_upd_kbuf; [done|].
  assert (kb_ok (set_errors (errors k + 1) k)) as Hok' by (destruct Hok; split; try done; cbn; lia).
  split; [apply Gw_upd with k; [done|]; split; try done; cbn; lia|]. split; [done|]. eexists. split; [by eapply kbufs_upd|]. done.
Qed.

Lemma klog_fmt_spec q L sz W cap s : held L sz W cap s ->
  rg (Rw i) (Gw i) (klog_fmt i q) (fun r s' => held L sz W cap s' /\
    r = match q_time q with None => (None, 0) | Some _ => (Some (line_of q), Z.of_nat (length (line_of q))) end) s.
Proof.
  intros HH. unfold klog_fmt, line_of. destruct (q_time q) as [ts|].
  - set (text := klog_text q ts).
    assert (_vscnprintf (Z.of_nat (length text)) KLOG_ENTRY_SIZE = Z.of_nat (length (take (Z.to_nat (KLOG_ENTRY_SIZE - 1)) text))) as ->.
    { unfold _vscnprintf. rewrite length_take. unfold KLOG_ENTRY_SIZE. destruct (Z.leb_spec (Z.of_nat (length text)) 0); [lia|].
      destruct (Z.ltb_spec (Z.of_nat (length text)) 384); [lia|]. change (s32 (u64 (384 - 1))) with 383. lia. }
    destruct (Z.leb_spec KLOG_ENTRY_SIZE (Z.of_nat (length (take (Z.to_nat (KLOG_ENTRY_SIZE - 1)) text)))) as [Hlt|Hlt]; [rewrite length_take in Hlt; unfold KLOG_ENTRY_SIZE in Hlt; lia|].
    intros s' HR. split; [by eapply held_stable|done].
  - apply rg_step. intros s' HR. eapply wp_mono; [by eapply held_errors|]. intros _ s2 [HG HH2]. split; [done|]. intros s3 HR3. split; [by eapply held_stable|done].
Qed.

Lemma compose_spec q L sz cap s w remain : held L sz [] cap s -> (384 <= cap <= sz)%nat -> w = Z.of_nat (end_of L mod sz) -> remain = Z.of_nat sz - w ->
  rg (Rw i) (Gw i) (compose i q w remain) (fun msg s' => msg = line_of q /\ exists W, held L sz W cap s' /\ msg `prefix_of` W) s.
Proof.
  intros HH Hcap Hw Hrem. pose proof (Nat.mod_upper_bound (end_of L) sz ltac:(lia)) as Hub. unfold compose. apply rg_bind; [apply _|].
  eapply rg_mono; [|by eapply klog_fmt_spec]. intros [text ret] s1 [HH1 Er]. pose proof (line_short q) as Hsh.
  assert (text = (if q_time q then Some (line_of q) else None) /\ ret = Z.of_nat (length (line_of q)) /\ default [] text = line_of q) as (-> & -> & ->).
  { unfold line_of in *. destruct (q_time q); injection Er as -> ->; done. }
  clear Er. unfold KLOG_ENTRY_SIZE. destruct (Z.ltb_spec remain 384) as [Hlt|Hge].
  - rewrite take_ge by lia. destruct (Z.ltb_spec remain (Z.of_nat (length (line_of q)))) as [Hwr|Hfit]; (apply rg_bind; [apply _|]).
    + apply rg_bind; [apply _|]. eapply rg_mono; [|eapply (copy_spec L sz cap _ []); [done|rewrite length_take; cbn [length]; lia|lia|by rewrite Nat.add_0_r|rewrite length_take; lia]].
      intros [] s2 HH2. eapply rg_mono; [|eapply (copy_spec L sz cap _ _ 0 s2 HH2); [rewrite length_app, length_take, length_drop; cbn [length]; lia|lia| |rewrite length_drop; lia]].
      * intros [] s3 HH3 s4 HR. split; [done|]. exists (line_of q). split; [|done]. cbn [app] in HH3. rewrite take_drop in HH3. by eapply held_stable.
      * cbn [app]. rewrite length_take_le by lia. destruct (mod_add (end_of L) (sz - end_of L mod sz) sz) as [E|E];
          [destruct (decide (end_of L mod sz = 0)%nat); lia| |]; replace (Z.to_nat remain) with (sz - end_of L mod sz)%nat by lia; pose proof (Nat.mod_upper_bound (end_of L + (sz - end_of L mod sz)) sz); lia.
    + eapply rg_mono; [|eapply (copy_spec L sz cap _ []); [done|cbn [length]; lia|lia|by rewrite Nat.add_0_r|lia]].
      intros [] s2 HH2 s3 HR. split; [done|]. exists (line_of q). split; [by eapply held_stable|done].
  - rewrite take_ge by lia. apply rg_bind; [apply _|]. destruct (q_time q) as [ts|] eqn:Et; cbn [mbind].
    + eapply rg_mono; [|eapply (copy_spec L sz cap _ []); [done|rewrite length_app; cbn [length]; lia|lia|by rewrite Nat.add_0_r|rewrite length_app; cbn [length]; lia]].
      intros [] s2 HH2 s3 HR. split; [done|]. exists (line_of q ++ [0]). split; [by eapply held_stable|by apply prefix_app_r].
    + intros s2 HR2 s3 HR3. split; [done|]. exists []. split; [eapply held_stable; [by eapply held_stable|done]|]. unfold line_of. by rewrite Et.
Qed.

(** Changes of the counters only. *)
Lemma kw_quiet k k' : buf k' = buf k -> r_idx k' = r_idx k -> w_idx k' = w_idx k -> taken k' = taken k -> sent k' = sent k -> lines k' = lines k -> errors k' = errors k -> kw k k'.
Proof.
  intros E1 E2 E3 E4 E5 E6 E7. assert (logged k' = logged k) as E8 by (unfold logged; by rewrite E6).
  split; try congruence; [by rewrite E6|lia|]. intros []. split; rewrite ?E1, ?E2, ?E3, ?E4, ?E5, ?E8, ?E7; try done. unfold size. by rewrite E1.
Qed.

Lemma owns_upd L s k f : kbufs s !! i = Some k -> kb_ok k -> lines k = L -> 0 < sampling_rate s -> kw k (f k) -> lines (f k) = L ->
  wp (upd_kbuf i f) (fun _ s' => Gw i s s' /\ owns L s') s.
Proof.
  intros Hk Hok Hl Hs HK Hl'. eapply wp_upd_kbuf; [done|]. split; [by apply Gw_upd with k|]. split; [done|]. exists (f k). split; [by eapply kbufs_upd|].
  split; [by apply (kw_ok _ _ HK)|done].
Qed.

Lemma count_entry_spec L s : owns L s -> wp (count_entry i) (fun _ s' => Gw i s s' /\ owns L s') s.
Proof.
  intros (Hs & k & Hk & Hok & Hl). unfold count_entry. apply wp_bind. eapply wp_get_kbuf; [done|]. apply wp_bind, wp_gets.
  destruct (Z.eqb_spec (sampling_rate s) 0); [lia|]. destruct (negb _); apply wp_bind;
    (eapply wp_mono; [eapply owns_upd; try done; by apply kw_quiet|]); by intros [] s' HG.
Qed.

(** Publishing the line. *)
Lemma publish_spec L sz cap W msg s w : held L sz W cap s -> msg `prefix_of` W -> (length msg < cap <= sz)%nat -> w = Z.of_nat (end_of L mod sz) ->
  wp (upd_kbuf i (set_w_idx (CIRCULAR_INCR w (Z.of_nat (length msg)) (Z.of_nat sz)) msg)) (fun _ s' => Gw i s s' /\ owns (L ++ [msg]) s') s.
Proof.
  intros (Hs & k & Hk & Hok & Hl & Hsz & Hc & HW) [W' ->] Hm ->. eapply wp_upd_kbuf; [done|]. set (k' := set_w_idx _ msg k).
  assert (logged k = mjoin L) as HL by (unfold logged; by rewrite Hl).
  assert (logged k' = logged k ++ msg) as HL' by (unfold logged, k'; cbn; by rewrite join_app; cbn; rewrite app_nil_r).
  assert (kb_ok k') as Hok'.
  { pose proof Hok as []. split; try done.
    - change (w_idx k') with (CIRCULAR_INCR (Z.of_nat (end_of L mod sz)) (Z.of_nat (length msg)) (Z.of_nat sz)). change (buf k') with (buf k).
      rewrite HL', length_app, HL. unfold CIRCULAR_INCR. rewrite Hsz, Nat2Z.inj_mod, Z.add_mod_idemp_l by lia. by rewrite <-Nat2Z.inj_add, <-Nat2Z.inj_mod.
    - change (taken k') with (taken k). change (buf k') with (buf k). rewrite HL', length_app, HL. rewrite HL in k_room0. lia.
    - intros j x Hj Hx. change (buf k') with (buf k). rewrite HL' in Hx. apply lookup_app_Some in Hx as [Hx|[Hj2 Hx]]; [by apply k_bytes0|].
      rewrite HL in Hx, Hj2. rewrite Hsz. replace j with (end_of L + (j - end_of L))%nat by lia. apply HW. by apply lookup_app_l_Some.
    - intros He. rewrite HL'. by apply prefix_app_r, k_sent0. }
  split; [apply Gw_upd with k; [done|]; split; try done; by apply prefix_app_r|]. split; [done|]. exists k'. split; [by eapply kbufs_upd|]. split; [done|]. cbn. by rewrite Hl.
Qed.

(** A call publishes its line, or nothing. *)
Lemma klog_write_spec L q s : owns L s ->
  rg (Rw i) (Gw i) (_klog_write i q) (fun _ s' => owns L s' \/ owns (L ++ [line_of q]) s') s.
Proof.
  intros HO. unfold _klog_write. apply rg_step. intros s1 HR1. pose proof (owns_stable _ _ _ HO HR1) as HO1. apply wp_gets. split; [apply Gw_refl|].
  destruct (running s1); cbn [negb]; [|intros s2 HR2; left; by eapply owns_stable]. apply rg_step. intros s2 HR2. pose proof (owns_stable _ _ _ HO1 HR2) as HO2.
  eapply wp_mono; [by apply (count_entry_spec L)|]. intros [] s3 [HG3 HO3]; (split; [done|]); [intros s4 HR4; left; by eapply owns_stable|].
  apply rg_step. intros s4 HR4. destruct (owns_stable _ _ _ HO3 HR4) as (Hs & k & Hk & Hok & Hl). apply wp_bind. eapply wp_get_kbuf; [done|]. apply wp_ret. split; [apply Gw_refl|].
  rewrite klog_remain_spec by done. destruct (Z.ltb_spec (Z.of_nat (length (buf k) + taken k - length (logged k)) - 1) KLOG_ENTRY_SIZE) as [Hlt|Hge].
  { apply rg_atomic. intros s5 HR5. destruct (owns_stable L s4 s5 ltac:(split; [done|by exists k]) HR5) as (Hs5 & k5 & Hk5 & Hok5 & Hl5).
    eapply wp_mono; [eapply (owns_upd L s5 k5 (add_stat klog_discarded)); try done; by apply kw_quiet|]. intros _ s6 [HG HO6]. split; [done|]. intros s7 HR7. left. by eapply owns_stable. }
  pose proof Hok as []. unfold KLOG_ENTRY_SIZE in Hge. set (sz := length (buf k)) in *.
  assert (held L sz [] 384 s4) as HH.
  { split; [done|]. exists k. do 4 (split; [done|]). split; [unfold logged in *; rewrite Hl in *; lia|done]. }
  apply rg_step. intros s5 HR5. pose proof (held_stable _ _ _ _ _ _ HH HR5) as HH5. pose proof HH5 as (Hs5 & k5 & Hk5 & Hok5 & Hl5 & Hsz5 & Hc5 & _). apply wp_bind. eapply wp_get_kbuf; [done|].
  apply wp_ret. split; [apply Gw_refl|]. unfold size. rewrite (k_w _ Hok5), Hsz5. unfold logged. rewrite Hl5. apply rg_bind; [apply _|].
  eapply rg_mono; [|eapply (compose_spec q L sz 384 s5 _ _ HH5); [lia|done|done]]. intros msg s6 (-> & W & HH6 & Hp). pose proof (line_short q) as Hsh.
  destruct (0 <? length (line_of q))%nat; [|intros s7 HR7; left; eapply owns_stable; [by eapply held_owns|done]].
  apply rg_step. intros s7 HR7. pose proof (held_stable _ _ _ _ _ _ HH6 HR7) as (Hs7 & k7 & Hk7 & Hok7 & Hl7 & Hsz7 & Hc7 & HW7). eapply wp_upd_kbuf; [done|].
  assert (kw k7 (add_stat klog_logged k7)) as HK7 by (by apply kw_quiet). split; [by eapply Gw_upd|]. set (s8 := set_kbufs _ s7).
  assert (held L sz W 384 s8) as HH8.
  { split; [done|]. eexists. split; [by eapply kbufs_upd|]. split; [by apply (kw_ok _ _ HK7)|]. done. }
  apply rg_atomic. intros s9 HR9. eapply wp_mono; [eapply publish_spec; [by eapply held_stable|done|lia|done]|]. intros _ s10 [HG HO10]. split; [done|].
  intros s11 HR11. right. by eapply owns_stable.
Qed.

(** A worker that logs the requests [qs]. *)
Fixpoint worker (qs : list request) : thread klog unit :=
  match qs with [] => mret tt | q :: qs' => _klog_write i q;; worker qs' end.

Lemma worker_spec qs : forall L s, owns L s ->
  rg (Rw i) (Gw i) (worker qs) (fun _ s' => exists ls, ls `sublist_of` (line_of <$> qs) /\ owns (L ++ ls) s') s.
Proof.
  induction qs as [|q qs IH]; intros L s HO; cbn [worker].
  { intros s' HR. exists []. split; [constructor|]. rewrite app_nil_r. by eapply owns_stable. }
  apply rg_bind; [apply _|]. eapply rg_mono; [|by apply klog_write_spec]. intros _ s1 [HO1|HO1].
  - eapply rg_mono; [|by apply (IH L)]. intros _ s2 (ls & H1 & H2). exists ls. split; [by constructor|done].
  - eapply rg_mono; [|by apply (IH (L ++ [line_of q]))]. intros _ s2 (ls & H1 & H2). exists (line_of q :: ls). split; [by constructor|]. by rewrite <-app_assoc in H2.
Qed.
End worker.

(** ** The logger *)

Definition idle k : Prop := kb_ok k /\ (errors k = 0 -> sent k = take (taken k) (logged k)).
Definition all_idle (n : nat) s : Prop := kfs_ok s /\ length (kbufs s) = n /\ forall j k, kbufs s !! j = Some k -> idle k.

Lemma idle_stable k k' : idle k -> kw k k' -> idle k'.
Proof.
  intros [Hok Hs] HW. pose proof (logged_prefix _ _ (kw_lines _ _ HW)) as [l Hl]. destruct HW, Hok. split; [by apply kw_ok0|].
  intros He. rewrite kw_taken0, kw_sent0, Hl, take_app_le by lia. apply Hs. lia.
Qed.

Lemma Rc_back s s' j k' : Rc s s' -> kbufs s' !! j = Some k' -> exists k, kbufs s !! j = Some k /\ kw k k'.
Proof.
  intros (_ & L & HR) Hk'. destruct (lookup_lt_is_Some_2 (kbufs s) j) as [k Hk]; [rewrite <-L; by eapply lookup_lt_Some|].
  destruct (HR j k Hk) as (k2 & Hk2 & HW). exists k. split; [done|]. congruence.
Qed.

Lemma all_idle_stable n s s' : all_idle n s -> Rc s s' -> all_idle n s'.
Proof.
  intros (H1 & H2 & H3) HR. split; [unfold kfs_ok; by rewrite (proj1 HR)|]. split; [destruct HR as (_ & -> & _); done|].
  intros j k' Hk'. destruct (Rc_back _ _ _ _ HR Hk') as (k & Hk & HW). eapply idle_stable; [by apply (H3 j)|done].
Qed.

(** The logger has read [d] bytes of [L], which was the stream when it looked at
    [w_idx], from position [t]. *)
Definition reading (n i t d : nat) (L : list Z) (sz : nat) s : Prop :=
  kfs_ok s /\ length (kbufs s) = n /\ (forall j k, kbufs s !! j = Some k -> j <> i -> idle k) /\
  exists k, kbufs s !! i = Some k /\ kb_ok k /\ taken k = t /\ length (buf k) = sz /\ L `prefix_of` logged k /\ (errors k = 0 -> sent k = take (t + d) L).

Lemma reading_stable n i t d L sz s s' : reading n i t d L sz s -> Rc s s' -> reading n i t d L sz s'.
Proof.
  intros (H1 & H2 & H3 & k & Hk & Hok & Ht & Hsz & HL & Hs) HR. split; [unfold kfs_ok; by rewrite (proj1 HR)|]. split; [destruct HR as (_ & -> & _); done|].
  split; [intros j k' Hk' Hj; destruct (Rc_back _ _ _ _ HR Hk') as (k0 & Hk0 & HW); eapply idle_stable; [by apply (H3 j)|done]|].
  destruct HR as (_ & _ & HR). destruct (HR i k Hk) as (k' & Hk' & HW). exists k'. pose proof (logged_prefix _ _ (kw_lines _ _ HW)). destruct HW. split; [done|].
  split; [auto|]. split; [congruence|]. split; [congruence|]. split; [by etrans|]. intros He. rewrite kw_sent0. apply Hs. destruct Hok. lia.
Qed.

(** Reading a stretch of the buffer whose bytes are known. *)
Lemma mem_read_known (b : mem) off (l : list Z) : (forall j x, l !! j = Some x -> b !! (off + j)%nat = Some (Some x)) ->
  (off + length l <= length b)%nat -> mem_read b (Z.of_nat off) (Z.of_nat (length l)) = Some l.
Proof.
  intros Hl Hb. replace b with (take off b ++ init l ++ drop (off + length l) b).
  - replace (Z.of_nat off) with (Z.of_nat (length (take off b))) by (rewrite length_take; lia). apply mem_read_app.
  - apply list_eq. intros p. destruct (decide (p < off)%nat) as [H1|H1].
    { rewrite lookup_app_l by (rewrite length_take; lia). by apply lookup_take_lt. }
    rewrite lookup_app_r by (rewrite length_take; lia). rewrite length_take_le by lia. destruct (decide (p < off + length l)%nat) as [H2|H2].
    + rewrite lookup_app_l by (rewrite length_init; lia). unfold init. rewrite list_lookup_fmap.
      destruct (lookup_lt_is_Some_2 l (p - off)) as [x Hx]; [lia|]. rewrite Hx. cbn. rewrite <-(Hl _ _ Hx). f_equal. lia.
    + rewrite lookup_app_r by (rewrite length_init; lia). rewrite lookup_drop, length_init. f_equal. lia.
Qed.

Section logger.
Context (e_write : nat -> option Z) (e_rename e_open : nat -> bool).

(** One [write]: it takes the next bytes of the stream, or fails. *)
Lemma sys_write_spec n i t d L sz len s : reading n i t d L sz s -> (t + d + len <= length L)%nat -> ((t + d) mod sz + len <= sz)%nat ->
  wp (sys_write e_write i (Z.of_nat ((t + d) mod sz)) (Z.of_nat len)) (fun r s' => Gc s s' /\
    match r with
    | None => reading n i t d L sz s'
    | Some x => 0 <= x <= Z.of_nat len /\ reading n i t (d + Z.to_nat x) L sz s'
    end) s.
Proof.
  intros (H1 & H2 & H3 & k & Hk & Hok & Ht & Hsz & HL & Hs) Hlen Hoff. unfold sys_write. apply wp_bind. eapply wp_get_kbuf; [done|]. apply wp_bind.
  set (bs := take len (drop (t + d) L)). assert (length bs = len) as Hbs by (unfold bs; rewrite length_take, length_drop; lia).
  eapply (wp_lift _ bs); [rewrite <-Hbs; apply mem_read_known; [|lia]|].
  { intros j x Hx. pose proof (lookup_lt_Some _ _ _ Hx) as Hj. unfold bs in Hx. apply lookup_take_Some in Hx as [Hx _]. rewrite lookup_drop in Hx.
    pose proof Hok as []. rewrite <-Hsz. replace ((t + d) mod length (buf k) + j)%nat with ((t + d + j) mod length (buf k))%nat.
    - apply k_bytes0; [lia|]. by eapply prefix_lookup_Some.
    - rewrite Hsz. destruct (mod_add (t + d) j sz) as [E|E]; [lia|done|]. pose proof (Nat.mod_upper_bound (t + d + j) sz). lia. }
  apply wp_bind, wp_gets. apply wp_bind, wp_gets. apply wp_bind, wp_modify. destruct (fd s); cbn [negb].
  2: { split; [by apply Gc_same|]. do 3 (split; [done|]). by exists k. }
  destruct (e_write (nsys s)) as [x|]; [|split; [by apply Gc_same|]; do 3 (split; [done|]); by exists k].
  set (x' := Z.max 0 (Z.min x (Z.of_nat len))). assert (0 <= x' <= Z.of_nat len) as Hx' by (unfold x'; lia). clearbody x'. apply wp_bind. eapply wp_upd_kbuf; [done|].
  apply wp_bind, wp_modify, wp_ret. set (k' := add_sent _ k).
  assert (errors k = 0 -> sent k' = take (t + (d + Z.to_nat x')) L) as Hs'.
  { intros He. cbn. rewrite Hs by done. unfold bs. rewrite take_take, Nat.min_l by lia. replace (t + (d + Z.to_nat x'))%nat with (t + d + Z.to_nat x')%nat by lia.
    rewrite <-(take_take_drop L (t + d)). done. }
  assert (kb_ok k') as Hok'.
  { destruct Hok. split; try done. intros He. rewrite Hs' by done. etrans; [apply prefix_take|done]. }
  split; [|split; [done|]].
  - pose proof (Gc_upd i k k' (tick s) Hk) as (G1 & G2 & G3 & G4); [by split|]. done.
  - split; [done|]. split; [cbn; by rewrite length_insert|]. split; [intros j k0 Hk0 Hj; cbn in Hk0; rewrite list_lookup_insert_ne in Hk0 by done; by apply (H3 j)|].
    exists k'. split; [by apply (kbufs_upd i k k' (tick s))|]. done.
Qed.

(** The one or two writes of a round. *)
Lemma read_parts_spec n i t L sz s r w : reading n i t 0 L sz s -> (0 < sz)%nat -> (t <= length L < t + sz)%nat ->
  r = Z.of_nat (t mod sz) -> w = Z.of_nat (length L mod sz) ->
  rg Rc Gc (read_parts e_write i r w (Z.of_nat sz)) (fun ret s' =>
    match ret with
    | None => exists d, reading n i t d L sz s'
    | Some x => 0 <= x <= Z.of_nat (length L - t) /\ reading n i t (Z.to_nat x) L sz s'
    end) s.
Proof.
  intros HR Hsz HL Er Ew. pose proof (Nat.mod_upper_bound t sz ltac:(lia)). pose proof (Nat.mod_upper_bound (length L) sz ltac:(lia)).
  pose proof (mod_add t (length L - t) sz ltac:(lia)) as HM. replace (t + (length L - t))%nat with (length L) in HM by lia. unfold read_parts.
  destruct (Z.leb_spec r w) as [Hle|Hgt].
  - destruct (Z.ltb_spec r w) as [Hlt|Hge]; [|intros s' HR'; split; [lia|]; by eapply reading_stable].
    apply rg_atomic. intros s1 HR1. replace r with (Z.of_nat ((t + 0) mod sz)) by (rewrite Nat.add_0_r; lia).
    replace (w - Z.of_nat ((t + 0) mod sz)) with (Z.of_nat (length L - t)) by (rewrite Nat.add_0_r; lia).
    eapply wp_mono; [apply (sys_write_spec n i t 0 L sz); [by eapply reading_stable|lia|rewrite Nat.add_0_r; lia]|]. intros [x|] s2 [HG HP]; (split; [done|]); intros s3 HR3.
    + destruct HP as [Hx HP]. split; [lia|]. by eapply reading_stable.
    + exists 0%nat. by eapply reading_stable.
  - apply rg_step. intros s1 HR1. replace r with (Z.of_nat ((t + 0) mod sz)) by (rewrite Nat.add_0_r; lia).
    replace (Z.of_nat sz - Z.of_nat ((t + 0) mod sz)) with (Z.of_nat (sz - t mod sz)) by (rewrite Nat.add_0_r; lia).
    eapply wp_mono; [apply (sys_write_spec n i t 0 L sz); [by eapply reading_stable|lia|rewrite Nat.add_0_r; lia]|]. intros [x|] s2 [HG HP]; (split; [done|]);
      [|intros s3 HR3; exists 0%nat; by eapply reading_stable]. destruct HP as [Hx HP]. destruct (Z.eqb_spec x (Z.of_nat (sz - t mod sz))) as [Ex|Ex];
      [|intros s3 HR3; split; [lia|]; by eapply reading_stable].
    apply rg_step. intros s3 HR3. replace (0 + Z.to_nat x)%nat with (Z.to_nat x) in HP by lia. assert ((t + Z.to_nat x) mod sz = 0)%nat as E0.
    { subst x. rewrite Nat2Z.id. destruct (mod_add t (sz - t mod sz) sz) as [E|E]; [lia| |]; pose proof (Nat.mod_upper_bound (t + (sz - t mod sz)) sz); lia. }
    replace 0 with (Z.of_nat ((t + Z.to_nat x) mod sz)) by lia. rewrite Ew.
    eapply wp_mono; [apply (sys_write_spec n i t (Z.to_nat x) L sz); [by eapply reading_stable|lia|lia]|]. intros [y|] s4 [HG4 HP4]; (split; [done|]); intros s5 HR5.
    + destruct HP4 as [Hy HP4]. split; [lia|]. replace (Z.to_nat (x + y)) with (Z.to_nat x + Z.to_nat y)%nat by lia. by eapply reading_stable.
    + exists (Z.to_nat x). by eapply reading_stable.
Qed.

(** [r_idx] moves over the bytes that were written. *)
Lemma advance_spec n i t L sz x s : reading n i t (Z.to_nat x) L sz s -> 0 <= x -> (t + Z.to_nat x <= length L)%nat ->
  wp (upd_kbuf i (fun k => set_r_idx (CIRCULAR_INCR (Z.of_nat (t mod sz)) x (Z.of_nat sz)) (taken k + Z.to_nat x) k)) (fun _ s' => Gc s s' /\ all_idle n s') s.
Proof.
  intros (H1 & H2 & H3 & k & Hk & Hok & Ht & Hsz & HL & Hs) Hx Hle. eapply wp_upd_kbuf; [done|]. set (k' := set_r_idx _ _ k). pose proof (prefix_length _ _ HL) as HlL.
  assert (kb_ok k') as Hok'.
  { destruct Hok. split; try done; change (buf k') with (buf k); change (logged k') with (logged k); change (taken k') with (taken k + Z.to_nat x)%nat.
    - change (r_idx k') with (CIRCULAR_INCR (Z.of_nat (t mod sz)) x (Z.of_nat sz)). unfold CIRCULAR_INCR. rewrite Hsz, Ht, Nat2Z.inj_mod, Z.add_mod_idemp_l by lia.
      rewrite <-(Z2Nat.id x) at 1 by lia. by rewrite <-Nat2Z.inj_add, <-Nat2Z.inj_mod.
    - lia.
    - intros j y Hj Hy. apply k_bytes0; [lia|done]. }
  split; [apply Gc_upd with k; [done|]; split; try done; cbn; lia|]. split; [done|]. split; [cbn; by rewrite length_insert|].
  intros j k0 Hk0. destruct (decide (j = i)) as [->|Hj]; [|cbn in Hk0; rewrite list_lookup_insert_ne in Hk0 by done; by apply (H3 j)].
  rewrite (kbufs_upd i k k') in Hk0 by done. injection Hk0 as <-. split; [done|]. intros He. change (sent k') with (sent k). change (logged k') with (logged k).
  change (taken k') with (taken k + Z.to_nat x)%nat. rewrite Hs, Ht by done. destruct HL as [l ->]. by rewrite take_app_le by lia.
Qed.

Lemma read_error_spec n i t d L sz s : reading n i t d L sz s ->
  wp (upd_kbuf i (fun k => set_errors (errors k + 1) k)) (fun _ s' => Gc s s' /\ all_idle n s') s.
Proof.
  intros (H1 & H2 & H3 & k & Hk & Hok & Ht & Hsz & HL & Hs). eapply wp_upd_kbuf; [done|]. set (k' := set_errors _ k).
  assert (kb_ok k') as Hok' by (destruct Hok; split; try done; cbn; lia).
  split; [apply Gc_upd with k; [done|]; by split|]. split; [done|]. split; [cbn; by rewrite length_insert|].
  intros j k0 Hk0. destruct (decide (j = i)) as [->|Hj]; [|cbn in Hk0; rewrite list_lookup_insert_ne in Hk0 by done; by apply (H3 j)].
  rewrite (kbufs_upd i k k') in Hk0 by done. injection Hk0 as <-. split; [done|]. cbn. destruct Hok. lia.
Qed.

Lemma count_bytes_spec n x s : all_idle n s -> 0 <= x <= INT_MAX - KLOG_MAX_SIZE -> wp (count_bytes e_rename e_open x) (fun _ s' => Gc s s' /\ all_idle n s') s.
Proof.
  intros (H1 & H2 & H3) Hx. unfold kfs_ok in H1. unfold count_bytes. apply wp_bind, wp_gets. destruct (Z.ltb_spec INT_MAX (kfs s + x)); [lia|].
  assert (forall s', kbufs s' = kbufs s -> sampling_rate s' = sampling_rate s -> kfs_ok s' -> Gc s s' /\ all_idle n s') as HE.
  { intros s' E1 E2 E3. split; [by apply Gc_same|]. split; [done|]. by rewrite E1. }
  destruct (Z.ltb_spec KLOG_MAX_SIZE (kfs s + x)); [|apply wp_modify, HE; [done|done|unfold kfs_ok; cbn; lia]]. apply wp_bind.
  assert (0 <= KLOG_MAX_SIZE) by done. unfold klog_reopen. apply wp_bind, wp_gets. destruct (fd s); cbn [negb]; [|apply wp_ret, wp_modify, HE; [done|done|unfold kfs_ok; cbn; lia]].
  do 4 (apply wp_bind; first [apply wp_gets|apply wp_modify]). destruct (e_open _); [apply wp_ret|apply wp_bind, wp_modify, wp_modify]; apply wp_modify, HE; try done; unfold kfs_ok; cbn; lia.
Qed.

Lemma klog_read_spec n i s : (i < n)%nat -> all_idle n s -> rg Rc Gc (klog_read e_write e_rename e_open i) (fun _ => all_idle n) s.
Proof.
  intros Hi HI. unfold klog_read. apply rg_step. intros s1 HR1. pose proof (all_idle_stable _ _ _ HI HR1) as HI1. pose proof HI1 as (H1 & H2 & H3).
  destruct (lookup_lt_is_Some_2 (kbufs s1) i) as [k Hk]; [lia|]. pose proof (H3 i k Hk) as [Hok Hs]. apply wp_bind. eapply wp_get_kbuf; [done|]. apply wp_ret. split; [apply Gc_refl|].
  pose proof Hok as []. rewrite k_r0, k_w0. unfold size in *. set (sz := length (buf k)) in *. set (t := taken k) in *.
  assert (reading n i t 0 (logged k) sz s1) as HRd.
  { do 2 (split; [done|]). split; [intros j k0 Hk0 _; by apply (H3 j)|]. exists k. rewrite Nat.add_0_r. done. }
  apply rg_bind; [apply _|]. eapply rg_mono; [|by apply (read_parts_spec n i t (logged k) sz)]. intros [x|] s2 HP.
  - destruct HP as [Hx HP].
    assert (forall s3, all_idle n s3 -> rg Rc Gc (atomic (count_bytes e_rename e_open x);; mret x) (fun _ => all_idle n) s3) as Hrest.
    { intros s3 HI3. apply rg_step. intros s4 HR4. eapply wp_mono; [apply (count_bytes_spec n); [by eapply all_idle_stable|lia]|]. intros _ s5 [HG HI5]. split; [done|].
      intros s6 HR6. by eapply all_idle_stable. }
    apply rg_bind; [apply _|]. destruct (Z.ltb_spec 0 x) as [Hpos|Hz].
    + apply rg_atomic. intros s3 HR3. eapply wp_mono; [apply (advance_spec n i t (logged k) sz); [by eapply reading_stable|lia|lia]|]. intros _ s4 [HG HI4]. split; [done|].
      intros s5 HR5. apply Hrest. by eapply all_idle_stable.
    + intros s3 HR3. apply Hrest. replace x with 0 in * by lia. destruct (reading_stable _ _ _ _ _ _ _ _ HP HR3) as (Q1 & Q2 & Q3 & k3 & Hk3 & Hok3 & Ht3 & Hsz3 & [l HL3] & Hs3).
      split; [done|]. split; [done|]. intros j k0 Hk0. destruct (decide (j = i)) as [->|Hj]; [|by apply (Q3 j)]. rewrite Hk3 in Hk0. injection Hk0 as <-. split; [done|].
      intros He. rewrite Hs3, Ht3, HL3, Nat.add_0_r by done. by rewrite take_app_le by lia.
  - destruct HP as [d HP]. unfold incr_errors. apply rg_step. intros s3 HR3. eapply wp_mono; [eapply read_error_spec; by eapply reading_stable|]. intros _ s4 [HG HI4]. split; [done|].
    intros s5 HR5. by eapply all_idle_stable.
Qed.

Lemma collect_loop_spec n m : forall i s, (i + m <= n)%nat -> all_idle n s -> rg Rc Gc (collect_loop e_write e_rename e_open m i) (fun _ => all_idle n) s.
Proof.
  induction m as [|m IH]; intros i s Hi HI; cbn [collect_loop]; [intros s' HR; by eapply all_idle_stable|].
  apply rg_bind; [apply _|]. eapply rg_mono; [|apply (klog_read_spec n i); [lia|done]]. intros a s1 HI1. apply rg_bind; [apply _|].
  eapply rg_mono; [|apply IH; [lia|done]]. intros b s2 HI2 s3 HR3. exact (all_idle_stable _ _ _ HI2 HR3).
Qed.

(** The logger, woken [rounds] times. *)
Fixpoint logger (n rounds : nat) : thread klog unit :=
  match rounds with O => mret tt | S rounds' => _klog_collect e_write e_rename e_open n;; logger n rounds' end.

Lemma logger_spec n rounds : forall s, all_idle n s -> rg Rc Gc (logger n rounds) (fun _ => all_idle n) s.
Proof.
  induction rounds as [|rounds IH]; intros s HI; cbn [logger]; [intros s' HR; by eapply all_idle_stable|]. apply rg_bind; [apply _|].
  eapply (rg_mono _ _ _ (fun _ => all_idle n)); [intros _; apply IH|]. unfold _klog_collect. apply rg_step. intros s1 HR1. apply wp_gets. split; [apply Gc_refl|].
  pose proof (all_idle_stable _ _ _ HI HR1) as HI1. destruct (running s1); cbn [negb]; [|intros s2 HR2; by eapply all_idle_stable].
  apply rg_bind; [apply _|]. eapply rg_mono; [|apply (collect_loop_spec n n 0); [lia|done]]. intros b s2 HI2 s3 HR3. exact (all_idle_stable _ _ _ HI2 HR3).
Qed.
End logger.

(** ** All together *)

Section together.
Context (n : nat).

Definition R_of (j : nat) : klog -> klog -> Prop := if decide (j < n)%nat then Rw j else if decide (j = n) then Rc else fun _ _ => True.
Definition G_of (j : nat) : klog -> klog -> Prop := if decide (j < n)%nat then Gw j else if decide (j = n) then Gc else fun _ _ => False.

Lemma R_of_refl j : Reflexive (R_of j).
Proof. unfold R_of. repeat case_decide; [apply _|apply _|done]. Qed.
Lemma R_of_trans j : Transitive (R_of j).
Proof. unfold R_of. repeat case_decide; [apply _|apply _|done]. Qed.

Lemma G_of_R_of j j' s s' : j <> j' -> G_of j s s' -> R_of j' s s'.
Proof.
  intros Hne. unfold G_of, R_of. destruct (decide (j < n)%nat); [|destruct (decide (j = n)) as [->|]; [|done]].
  - intros HG. destruct (decide (j' < n)%nat); [by eapply Gw_Rw|]. destruct (decide (j' = n)); [by eapply Gw_Rc|done].
  - intros HG. destruct (decide (j' < n)%nat); [by apply Gc_Rw|]. destruct (decide (j' = n)); done.
Qed.

Lemma R_of_logger : R_of n = Rc.
Proof. unfold R_of. rewrite decide_False by lia. by rewrite decide_True. Qed.
Lemma G_of_logger : G_of n = Gc.
Proof. unfold G_of. rewrite decide_False by lia. by rewrite decide_True. Qed.

Definition bufs_ok s : Prop := forall j k, kbufs s !! j = Some k -> kb_ok k.

Lemma bufs_ok_G j s s' : G_of j s s' -> bufs_ok s -> bufs_ok s'.
Proof.
  intros HG HI i k' Hk'. unfold G_of in HG. destruct (decide (j < n)%nat); [|destruct (decide (j = n)) as [->|]; [|done]].
  - destruct (Rc_back s s' i k' (Gw_Rc _ _ _ HG) Hk') as (k & Hk & HW). by apply (kw_ok _ _ HW), (HI i).
  - destruct HG as (_ & L & _ & HG). destruct (lookup_lt_is_Some_2 (kbufs s) i) as [k Hk]; [rewrite <-L; by eapply lookup_lt_Some|].
    destruct (HG i k Hk) as (k2 & Hk2 & HC). rewrite Hk' in Hk2. injection Hk2 as <-. by apply (kc_ok _ _ HC), (HI i).
Qed.
End together.

(** A buffer as it is created. *)
Lemma created_ok e k : klog_buf_create e true = Some (Some k) -> KLOG_ENTRY_SIZE * e <= INT_MAX - KLOG_MAX_SIZE -> idle k /\ lines k = [].
Proof.
  unfold klog_buf_create. destruct (Z.ltb_spec INT_MAX (KLOG_ENTRY_SIZE * e)); [done|]. destruct (Z.leb_spec (KLOG_ENTRY_SIZE * e) 0); [done|]. cbn [orb].
  intros [= <-] Hsm. split; [|done]. split; [|done]. split; cbn [buf r_idx w_idx taken sent errors logged lines]; unfold size; cbn [buf]; rewrite ?length_replicate; try done; try lia.
  - by rewrite Nat.Div0.mod_0_l.
  - by rewrite Nat.Div0.mod_0_l.
  - cbn. lia.
Qed.

(** The threads of the server that log: a worker for every buffer, and the logger. *)
Definition log_threads (e_write : nat -> option Z) (e_rename e_open : nat -> bool) (qss : list (list request)) (rounds : nat) : list (thread klog unit) :=
  imap worker qss ++ [logger e_write e_rename e_open (length qss) rounds].

(** What a thread has achieved when it is done. *)
Definition achieved (qss : list (list request)) (j : nat) s : Prop :=
  match qss !! j with
  | Some qs => exists ls, ls `sublist_of` (line_of <$> qs) /\ owns j ls s
  | None => j = length qss -> all_idle (length qss) s
  end.

Lemma log_threads_kept e_write e_rename e_open qss rounds k e s : klog_buf_create e true = Some (Some k) -> KLOG_ENTRY_SIZE * e <= INT_MAX - KLOG_MAX_SIZE ->
  kbufs s = replicate (length qss) k -> kfs s = 0 -> 0 < sampling_rate s ->
  kept (R_of (length qss)) (G_of (length qss)) (achieved qss) (s, log_threads e_write e_rename e_open qss rounds).
Proof.
  intros He Hsm Hk Hf Hr. destruct (created_ok e k He Hsm) as [HI Hl]. intros j t Hj. cbn in Hj |- *. unfold log_threads in Hj.
  apply lookup_app_Some in Hj as [Hj|[Hge Hj]].
  - rewrite list_lookup_imap in Hj. destruct (qss !! j) as [qs|] eqn:Eq; [|done]. injection Hj as <-. pose proof (lookup_lt_Some _ _ _ Eq) as Hlt.
    unfold R_of, G_of, achieved. rewrite Eq, !decide_True by done. apply (worker_spec j qs []). split; [done|]. exists k. rewrite Hk. split; [by apply lookup_replicate_2|]. split; [apply HI|done].
  - rewrite length_imap in Hge, Hj. apply list_lookup_singleton_Some in Hj as [Hj <-]. assert (j = length qss) as -> by lia. unfold achieved.
    rewrite lookup_ge_None_2 by done. rewrite R_of_logger, G_of_logger. eapply rg_mono; [|apply logger_spec]; [done|].
    split; [unfold kfs_ok; rewrite Hf; done|]. rewrite Hk. split; [apply length_replicate|]. intros i k0 Hk0. apply lookup_replicate in Hk0 as [-> _]. done.
Qed.

(** C27: Worker threads that log any requests and the logger thread, in any
    interleaving of their accesses to the buffers, without a lock: no access is
    undefined; the bytes written to the log from a buffer are, as long as its error
    count is 0, the beginning of the lines its worker published, in order and
    without a gap; once a worker is done, its published lines are whole lines of its
    requests in the order of the requests (some may be sampled out or discarded for
    want of space); once the logger is done, what it has written from a buffer
    without errors is everything [r_idx] has passed. *)
Theorem klog_in_order e_write e_rename e_open qss rounds e k s s' ts'
  (He : klog_buf_create e true = Some (Some k)) (Hsm : KLOG_ENTRY_SIZE * e <= INT_MAX - KLOG_MAX_SIZE)
  (Hk : kbufs s = replicate (length qss) k) (Hf : kfs s = 0) (Hr : 0 < sampling_rate s)
  (Hs : rtc pstep (s, log_threads e_write e_rename e_open qss rounds) (s', ts')) :
  ~ wrong (s', ts') /\
  (forall i b, kbufs s' !! i = Some b -> errors b = 0 -> sent b `prefix_of` logged b) /\
  (forall i qs, qss !! i = Some qs -> ts' !! i = Some (Done tt) -> exists b, kbufs s' !! i = Some b /\ lines b `sublist_of` (line_of <$> qs)) /\
  (ts' !! length qss = Some (Done tt) -> forall i b, kbufs s' !! i = Some b -> errors b = 0 -> sent b = take (taken b) (logged b)).
Proof.
  destruct (parallel_invariant _ _ _ (R_of_refl (length qss)) (R_of_trans (length qss)) (G_of_R_of (length qss)) bufs_ok _ _ s' ts' (bufs_ok_G (length qss))
    (log_threads_kept e_write e_rename e_open qss rounds k e s He Hsm Hk Hf Hr)) as (HI & HW & HD); [|done|].
  { intros i b Hb. rewrite Hk in Hb. apply lookup_replicate in Hb as [-> _]. by apply (created_ok e k He Hsm). }
  split; [done|]. split; [intros i b Hb; by apply (k_sent b (HI i b Hb))|]. split.
  - intros i qs Hq Ht. pose proof (HD i Ht) as HA. unfold achieved in HA. rewrite Hq in HA. destruct HA as (ls & Hls & _ & b & Hb & _ & Hl). exists b. by rewrite Hl.
  - intros Ht i b Hb. pose proof (HD _ Ht) as HA. unfold achieved in HA. rewrite lookup_ge_None_2 in HA by done. destruct (HA eq_refl) as (_ & _ & Hid). by apply (Hid i b Hb).
Qed.

(** One worker and one round of the logger, the worker first. *)
Definition ex_request : request := Request (bytes "10.0.0.1") (Some (bytes "01/Jan/2020:00:00:00 +0000")) REQ_GETS (bytes "k1") 0 12.
Definition ex_klog : klog := Klog [Kbuf 0 0 0 0 (replicate 768 None) [] [] 0 []] true 0 true 1 [] [] 0.

Definition ex_run : klog * list (thread klog unit) :=
  run_thread 100 1 (run_thread 100 0 (ex_klog, log_threads (fun _ => Some 1000) (fun _ => true) (fun _ => true) [[ex_request]] 1)).

Lemma klog_in_order_witness :
  exists b, kbufs (ex_run.1) !! 0%nat = Some b /\ sent b = line_of ex_request /\ sent b = take (taken b) (logged b).
Proof.
  assert (rtc pstep (ex_klog, log_threads (fun _ => Some 1000) (fun _ => true) (fun _ => true) [[ex_request]] 1) (ex_run.1, ex_run.2)) as Hs.
  { etransitivity; [apply (run_thread_steps 0 100)|]. rewrite <-surjective_pairing. apply run_thread_steps. }
  destruct (klog_in_order _ _ _ [[ex_request]] 1 2 (Kbuf 0 0 0 0 (replicate 768 None) [] [] 0 []) ex_klog ex_run.1 ex_run.2
    ltac:(vm_compute; reflexivity) ltac:(vm_compute; discriminate) ltac:(vm_compute; reflexivity) eq_refl ltac:(reflexivity) Hs) as (_ & _ & _ & Hlast).
  assert ((fun o => match o with Some b => Some (sent b, errors b) | None => None end) (kbufs (ex_run.1) !! 0%nat) = Some (line_of ex_request, 0)) as Hb by (vm_compute; reflexivity).
  assert (ex_run.2 !! 1%nat = Some (Done tt)) as Hd by (vm_compute; reflexivity).
  destruct (kbufs (ex_run.1) !! 0%nat) as [b|] eqn:Eb; [|discriminate Hb]. injection Hb as H1 H2. exists b. split; [reflexivity|]. split; [exact H1|].
  exact (Hlast Hd 0%nat b Eb H2).
Defined.
