(* ===== verification/Stats.v ===== *)
(** * Statistics (mc_stats.c)

    Every thread that serves requests has its own metrics; the functions the rest
    of the server calls change those of the thread they run in, and the aggregator
    adds them up for the [stats] commands, whose reports are assembled in a buffer
    of the connection.  The model records the calls of the item store as a list of
    [stat] (in [State]); [stats_call] is what such a call does to the metrics of its
    thread. *)

From stdpp Require Import list strings.
From S2P Require Import Prelude Util State.
Open Scope Z_scope.

Inductive metric_type := STATS_TIMESTAMP | STATS_COUNTER | STATS_GAUGE | STATS_LARGEST.
#[export] Instance metric_type_eq_dec : EqDecision metric_type.
Proof. solve_decision. Defined.

(** [struct stats_metric]: the member of the union that its type selects. *)
Inductive stats_metric :=
  | Timestamp (ts : Z)
  | Counter (n : Z)
  | Gauge (t b : Z)
  | Largest (n : Z).

Definition STATS_THREAD_METRICS : list (string * metric_type) :=
  [
    ("conn_disabled", STATS_COUNTER); ("conn_total", STATS_COUNTER); ("conn_struct", STATS_COUNTER); ("conn_yield", STATS_COUNTER);
    ("conn_curr", STATS_GAUGE); ("data_read", STATS_COUNTER); ("data_written", STATS_COUNTER); ("add", STATS_COUNTER); ("add_exist", STATS_COUNTER);
    ("set", STATS_COUNTER); ("replace", STATS_COUNTER); ("replace_miss", STATS_COUNTER); ("append", STATS_COUNTER); ("append_miss", STATS_COUNTER);
    ("prepend", STATS_COUNTER); ("prepend_miss", STATS_COUNTER); ("delete", STATS_COUNTER); ("delete_hit", STATS_COUNTER);
    ("delete_miss", STATS_COUNTER); ("incr", STATS_COUNTER); ("incr_miss", STATS_COUNTER); ("decr", STATS_COUNTER); ("decr_miss", STATS_COUNTER);
    ("cas", STATS_COUNTER); ("cas_miss", STATS_COUNTER); ("get", STATS_COUNTER); ("get_miss", STATS_COUNTER); ("gets", STATS_COUNTER);
    ("gets_miss", STATS_COUNTER); ("flush", STATS_COUNTER); ("stats", STATS_COUNTER); ("cmd_error", STATS_COUNTER); ("server_error", STATS_COUNTER);
    ("klog_logged", STATS_COUNTER); ("klog_discarded", STATS_COUNTER); ("klog_skipped", STATS_COUNTER); ("active_q_lease", STATS_GAUGE);
    ("active_c_lease", STATS_GAUGE); ("active_o_lease", STATS_GAUGE); ("total_i_lease", STATS_GAUGE); ("total_q_lease", STATS_GAUGE);
    ("total_c_lease", STATS_GAUGE); ("total_o_lease", STATS_GAUGE); ("released_i_lease", STATS_GAUGE); ("released_q_lease", STATS_GAUGE);
    ("released_c_lease", STATS_GAUGE); ("released_o_lease", STATS_GAUGE); ("total_lease", STATS_COUNTER); ("total_sess", STATS_COUNTER);
    ("sess_commit", STATS_COUNTER); ("sess_abort", STATS_COUNTER); ("sess_unlease", STATS_COUNTER); ("ciget", STATS_COUNTER); ("iqget", STATS_COUNTER);
    ("iqget_hit", STATS_COUNTER); ("iqget_miss", STATS_COUNTER); ("iset", STATS_COUNTER); ("get_hit", STATS_COUNTER); ("iqset", STATS_COUNTER);
    ("iqappend", STATS_COUNTER); ("iqprepend", STATS_COUNTER); ("iqincr", STATS_COUNTER); ("iqdecr", STATS_COUNTER); ("total_trans", STATS_COUNTER);
    ("trans_remove", STATS_COUNTER); ("unlease", STATS_COUNTER); ("iqset_miss", STATS_COUNTER); ("set_miss_token", STATS_COUNTER);
    ("lease_error", STATS_COUNTER); ("expired_leases", STATS_COUNTER); ("expired_i_leases", STATS_COUNTER); ("expired_q_leases", STATS_COUNTER);
    ("expired_c_leases", STATS_COUNTER); ("expired_o_leases", STATS_COUNTER); ("ilease_aborts", STATS_COUNTER); ("qlease_voids", STATS_COUNTER);
    ("qlease_aborts", STATS_COUNTER); ("ftrans", STATS_COUNTER); ("getprik", STATS_COUNTER); ("items_unlink", STATS_COUNTER);
    ("items_free", STATS_COUNTER); ("oqread", STATS_COUNTER); ("oqswap", STATS_COUNTER); ("swap", STATS_COUNTER); ("validate", STATS_COUNTER);
    ("oqincr", STATS_COUNTER); ("oqdecr", STATS_COUNTER); ("oqappend", STATS_COUNTER); ("oqprepend", STATS_COUNTER); ("oqwrite", STATS_COUNTER);
    ("iqget_meet_qlease", STATS_COUNTER)
  ].

Definition STATS_SLAB_METRICS : list (string * metric_type) :=
  [
    ("data_curr", STATS_GAUGE); ("data_value_curr", STATS_GAUGE); ("item_curr", STATS_GAUGE); ("item_acquire", STATS_COUNTER);
    ("item_remove", STATS_COUNTER); ("item_expire", STATS_COUNTER); ("item_evict", STATS_COUNTER); ("item_free", STATS_GAUGE);
    ("item_expire_ts", STATS_TIMESTAMP); ("item_reclaim_ts", STATS_TIMESTAMP); ("item_evict_ts", STATS_TIMESTAMP); ("slab_req", STATS_COUNTER);
    ("slab_error", STATS_COUNTER); ("slab_alloc", STATS_COUNTER); ("slab_curr", STATS_GAUGE); ("slab_evict", STATS_COUNTER);
    ("slab_req_ts", STATS_TIMESTAMP); ("slab_error_ts", STATS_TIMESTAMP); ("slab_alloc_ts", STATS_TIMESTAMP); ("slab_new_ts", STATS_TIMESTAMP);
    ("slab_evict_ts", STATS_TIMESTAMP); ("set_success", STATS_COUNTER); ("add_success", STATS_COUNTER); ("replace_hit", STATS_COUNTER);
    ("replace_success", STATS_COUNTER); ("append_hit", STATS_COUNTER); ("append_success", STATS_COUNTER); ("prepend_hit", STATS_COUNTER);
    ("prepend_success", STATS_COUNTER); ("incr_hit", STATS_COUNTER); ("incr_success", STATS_COUNTER); ("decr_hit", STATS_COUNTER);
    ("decr_success", STATS_COUNTER); ("cas_badval", STATS_COUNTER); ("cas_hit", STATS_COUNTER); ("cas_success", STATS_COUNTER);
    ("get_hit", STATS_COUNTER); ("gets_hit", STATS_COUNTER); ("bytes_allocated", STATS_GAUGE)
  ].

Definition stats_metric_init (ty : metric_type) : stats_metric :=
  match ty with
  | STATS_TIMESTAMP => Timestamp 0
  | STATS_COUNTER => Counter 0
  | STATS_LARGEST => Largest 0
  | STATS_GAUGE => Gauge 0 0
  end.

(** The templates, after [stats_template_init]. *)
Definition stats_tmetrics : list stats_metric := stats_metric_init ∘ snd <$> STATS_THREAD_METRICS.
Definition stats_smetrics : list stats_metric := stats_metric_init ∘ snd <$> STATS_SLAB_METRICS.

(** The metrics of a thread; a row for every slab class, and one, 0, for all. *)
Record tstats := TStats {
  stats_thread : list stats_metric;
  stats_slabs : list (list stats_metric)
}.

Definition stats_thread_init : list stats_metric := stats_tmetrics.
Definition stats_slabs_init : list (list stats_metric) := replicate (Z.to_nat (SLABCLASS_MAX_ID + 1)) stats_smetrics.
Definition tstats_init : tstats := TStats stats_thread_init stats_slabs_init.

(** Addition of [int64_t]. *)
Definition add64 (a b : Z) : option Z := if decide (- 2 ^ 63 <= a + b < 2 ^ 63) then Some (a + b) else None.

(** The switches of [_stats_thread_incr_by] and [_stats_slab_incr_by]. *)
Definition metric_incr (delta : Z) (m : stats_metric) : option stats_metric :=
  match m with
  | Counter n => Counter <$> add64 n delta
  | Largest n => Some (Largest delta)
  | Gauge t b => (fun t' => Gauge t' b) <$> add64 t delta
  | Timestamp _ => Some m
  end.

(** [value.gauge.b += delta], which is beside the value of the other types. *)
Definition metric_decr (delta : Z) (m : stats_metric) : option stats_metric :=
  match m with Gauge t b => Gauge t <$> add64 b delta | _ => Some m end.

Definition metric_settime (val : Z) (m : stats_metric) : option stats_metric :=
  match m with Timestamp _ => Some (Timestamp (u32 val)) | _ => None end.

(** The position of a name in the enumeration the macro makes of the table. *)
Fixpoint index_of (name : string) (l : list (string * metric_type)) : option nat :=
  match l with [] => None | (n, _) :: l' => if decide (n = name) then Some O else S <$> index_of name l' end.

Definition upd_metric (f : stats_metric -> option stats_metric) (j : nat) (row : list stats_metric) : option (list stats_metric) :=
  m ← row !! j; m' ← f m; Some (<[j := m']> row).

Definition upd_thread (f : stats_metric -> option stats_metric) (name : string) (t : tstats) : option tstats :=
  j ← index_of name STATS_THREAD_METRICS; row ← upd_metric f j (stats_thread t); Some (TStats row (stats_slabs t)).

Definition upd_slab (f : stats_metric -> option stats_metric) (cls_id : Z) (name : string) (t : tstats) : option tstats :=
  j ← index_of name STATS_SLAB_METRICS;
  row ← stats_slabs t !! Z.to_nat cls_id;
  row' ← upd_metric f j row;
  Some (TStats (stats_thread t) (<[Z.to_nat cls_id := row']> (stats_slabs t))).

Definition _stats_thread_incr_by (name : string) (delta : Z) : tstats -> option tstats := upd_thread (metric_incr delta) name.
Definition _stats_thread_decr_by (name : string) (delta : Z) : tstats -> option tstats := upd_thread (metric_decr delta) name.
Definition _stats_thread_incr (name : string) : tstats -> option tstats := _stats_thread_incr_by name 1.
Definition _stats_thread_decr (name : string) : tstats -> option tstats := _stats_thread_decr_by name 1.
Definition _stats_slab_incr_by (cls_id : Z) (name : string) (delta : Z) : tstats -> option tstats := upd_slab (metric_incr delta) cls_id name.
Definition _stats_slab_decr_by (cls_id : Z) (name : string) (delta : Z) : tstats -> option tstats := upd_slab (metric_decr delta) cls_id name.
Definition _stats_slab_incr (cls_id : Z) (name : string) : tstats -> option tstats := _stats_slab_incr_by cls_id name 1.
Definition _stats_slab_decr (cls_id : Z) (name : string) : tstats -> option tstats := _stats_slab_decr_by cls_id name 1.
Definition _stats_slab_settime (cls_id : Z) (name : string) (val : Z) : tstats -> option tstats := upd_slab (metric_settime val) cls_id name.

(** The macros [stats_thread_incr], [stats_slab_incr], ... *)
Definition stats_call (e : stat) : tstats -> option tstats :=
  match e with
  | ThreadIncr name => _stats_thread_incr name
  | ThreadDecr name => _stats_thread_decr name
  | SlabIncr id name => _stats_slab_incr id name
  | SlabDecr id name => _stats_slab_decr id name
  | SlabIncrBy id name n => _stats_slab_incr_by id name n
  | SlabDecrBy id name n => _stats_slab_decr_by id name n
  | SlabSet id name n => _stats_slab_settime id name n
  end.

Fixpoint stats_calls (es : list stat) (t : tstats) : option tstats :=
  match es with [] => Some t | e :: es' => t' ← stats_call e t; stats_calls es' t' end.

(** What is reported of a metric; [now] is [time_now()]. *)
Definition stats_metric_val (now : Z) (m : stats_metric) : Z :=
  match m with
  | Counter n | Largest n => n
  | Gauge t b => let delta := t - b in if 0 <=? delta then delta else 0
  | Timestamp ts => if 0 <? ts then now - ts else -1
  end.

Definition stats_metric_update (m1 m2 : stats_metric) : option stats_metric :=
  match m1, m2 with
  | Timestamp a, Timestamp b => Some (Timestamp (if a <? b then b else a))
  | Counter a, Counter b => Counter <$> add64 a b
  | Largest a, Largest b => Some (Largest (if b <? a then a else b))
  | Gauge t1 b1, Gauge t2 b2 => t ← add64 t1 t2; b ← add64 b1 b2; Some (Gauge t b)
  | _, _ => None
  end.

(** The loop over the metrics of two rows. *)
Fixpoint update_row (row1 row2 : list stats_metric) : option (list stats_metric) :=
  match row1, row2 with
  | m1 :: r1, m2 :: r2 => m ← stats_metric_update m1 m2; r ← update_row r1 r2; Some (m :: r)
  | _, _ => Some []
  end.

(** The loop over the slab classes of two threads, from class [SLABCLASS_MIN_ID]. *)
Fixpoint update_rows (rows1 rows2 : list (list stats_metric)) : option (list (list stats_metric)) :=
  match rows1, rows2 with
  | r1 :: l1, r2 :: l2 => r ← update_row r1 r2; l ← update_rows l1 l2; Some (r :: l)
  | _, _ => Some []
  end.

(** The metrics of one thread added to those of the aggregator. *)
Definition aggregate_thread (agg t : tstats) : option tstats :=
  th ← update_row (stats_thread agg) (stats_thread t);
  match stats_slabs agg, stats_slabs t with
  | sum :: rows, _ :: rows' => l ← update_rows rows rows'; Some (TStats th (sum :: l))
  | _, _ => None
  end.

Fixpoint aggregate_threads (agg : tstats) (ts : list tstats) : option tstats :=
  match ts with [] => Some agg | t :: ts' => agg' ← aggregate_thread agg t; aggregate_threads agg' ts' end.

(** The sum over classes [SLABCLASS_MIN_ID <= cid < SLABCLASS_MAX_ID]. *)
Fixpoint sum_rows (sum : list stats_metric) (rows : list (list stats_metric)) : option (list stats_metric) :=
  match rows with [] => Some sum | r :: rows' => sum' ← update_row sum r; sum_rows sum' rows' end.

Definition _stats_aggregate (threads : list tstats) : option tstats :=
  agg ← aggregate_threads tstats_init threads;
  match stats_slabs agg with
  | sum :: rows => sum' ← sum_rows sum (take (Z.to_nat (SLABCLASS_MAX_ID - SLABCLASS_MIN_ID)) rows); Some (TStats (stats_thread agg) (sum' :: rows))
  | [] => None
  end.
