(* ===== verification/StatsOk.v ===== *)
(** * The statistics count the calls

    What the aggregator reports of a counter or a gauge is the sum of the calls of
    all threads, and the summary over the slab classes is the sum over all but the
    last. *)

From stdpp Require Import list strings.
From S2P Require Import Prelude Util State Stats.
Open Scope Z_scope.
Implicit Types (e : stat) (es : list stat) (m : stats_metric) (row : list stats_metric) (name : string).

(** ** What the calls add up to *)

Fixpoint total (f : stat -> Z) es : Z := match es with [] => 0 | e :: es' => f e + total f es' end.

Definition thread_up name e : Z := match e with ThreadIncr n => if decide (n = name) then 1 else 0 | _ => 0 end.
Definition thread_down name e : Z := match e with ThreadDecr n => if decide (n = name) then 1 else 0 | _ => 0 end.
Definition slab_up (id : Z) name e : Z :=
  match e with
  | SlabIncr i n => if decide (i = id /\ n = name) then 1 else 0
  | SlabIncrBy i n d => if decide (i = id /\ n = name) then d else 0
  | _ => 0
  end.
Definition slab_down (id : Z) name e : Z :=
  match e with
  | SlabDecr i n => if decide (i = id /\ n = name) then 1 else 0
  | SlabDecrBy i n d => if decide (i = id /\ n = name) then d else 0
  | _ => 0
  end.
Definition weight e : Z := match e with SlabIncrBy _ _ d | SlabDecrBy _ _ d => d | SlabSet _ _ _ => 0 | _ => 1 end.

(** A call the sources make: the name is in the table, a class that exists, a time
    for a time stamp, no negative amounts. *)
Definition in_table name (l : list (string * metric_type)) : bool := bool_decide (name ∈ l.*1).
Definition class_ok (id : Z) : bool := (SLABCLASS_MIN_ID <=? id) && (id <=? SLABCLASS_MAX_ID).
Definition known e : bool :=
  match e with
  | ThreadIncr n | ThreadDecr n => in_table n STATS_THREAD_METRICS
  | SlabIncr id n | SlabDecr id n => class_ok id && in_table n STATS_SLAB_METRICS
  | SlabIncrBy id n d | SlabDecrBy id n d => class_ok id && in_table n STATS_SLAB_METRICS && (0 <=? d)
  | SlabSet id n _ => class_ok id && bool_decide ((n, STATS_TIMESTAMP) ∈ STATS_SLAB_METRICS)
  end.

Lemma total_app f es es' : total f (es ++ es') = total f es + total f es'.
Proof. induction es as [|e es IH]; cbn in *; [done|]. rewrite IH. lia. Qed.

Lemma total_le f g es : Forall (fun e => f e <= g e) es -> total f es <= total g es.
Proof. induction 1; cbn in *; lia. Qed.

Lemma total_nonneg f es : Forall (fun e => 0 <= f e) es -> 0 <= total f es.
Proof. induction 1; cbn in *; lia. Qed.

(** The amounts of one metric are among all. *)
Lemma amounts_bounded e name id : known e = true ->
  (0 <= thread_up name e <= weight e) /\ (0 <= thread_down name e <= weight e) /\ (0 <= slab_up id name e <= weight e) /\ (0 <= slab_down id name e <= weight e).
Proof.
  destruct e; cbn [known thread_up thread_down slab_up slab_down weight]; intros Hk; rewrite ?andb_true_iff, ?Z.leb_le in Hk; repeat case_decide; repeat split; lia.
Qed.

Lemma total_bounded (f : stat -> Z) es : (forall e, known e = true -> 0 <= f e <= weight e) -> Forall (fun e => known e = true) es -> 0 <= total f es <= total weight es.
Proof.
  intros Hf HF. split.
  - apply total_nonneg. eapply Forall_impl; [done|]. intros e He. by apply Hf.
  - apply total_le. eapply Forall_impl; [done|]. intros e He. by apply Hf.
Qed.

(** ** Rows *)

Definition has (ty : metric_type) m (u d : Z) : Prop :=
  match ty with
  | STATS_COUNTER => m = Counter u
  | STATS_GAUGE => m = Gauge u d
  | STATS_TIMESTAMP => exists ts, m = Timestamp ts
  | STATS_LARGEST => exists n, m = Largest n
  end.

Definition row_has (tbl : list (string * metric_type)) row (U D : string -> Z) : Prop :=
  Forall2 (fun p m => has p.2 m (U p.1) (D p.1)) tbl row.

Lemma row_init tbl : row_has tbl (stats_metric_init ∘ snd <$> tbl) (fun _ => 0) (fun _ => 0).
Proof. induction tbl as [|[n ty] tbl IH]; constructor; [|done]. destruct ty; cbn; eauto. Qed.

Lemma row_ext tbl row U D U' D' : row_has tbl row U D -> (forall n, U n = U' n) -> (forall n, D n = D' n) -> row_has tbl row U' D'.
Proof. intros HR HU HD. eapply Forall2_impl; [done|]. intros p m. cbv beta. by rewrite HU, HD. Qed.

Lemma index_of_lookup name tbl j : index_of name tbl = Some j -> exists ty, tbl !! j = Some (name, ty).
Proof.
  revert j. induction tbl as [|[n ty] tbl IH]; intros j; cbn; [done|]. case_decide; [intros [= <-]; subst; by exists ty|].
  destruct (index_of name tbl) as [j'|]; [|done]. intros [= <-]. by apply IH.
Qed.

Lemma index_of_in name tbl : name ∈ tbl.*1 -> is_Some (index_of name tbl).
Proof.
  induction tbl as [|[n ty] tbl IH]; cbn; [by rewrite elem_of_nil|]. rewrite elem_of_cons. intros [->|Hn]; [rewrite decide_True by done; eauto|].
  case_decide; [eauto|]. destruct (IH Hn) as [j ->]. cbn. eauto.
Qed.

Lemma add64_small a b : 0 <= a -> 0 <= b -> a + b < 2 ^ 63 -> add64 a b = Some (a + b).
Proof. intros. unfold add64. rewrite decide_True; [done|]. lia. Qed.

(** An update of the metric [name] that makes its amounts [u] and [d]. *)
Lemma row_update tbl row U D name j f (u d : Z) : NoDup tbl.*1 -> row_has tbl row U D -> index_of name tbl = Some j ->
  (forall ty m, tbl !! j = Some (name, ty) -> has ty m (U name) (D name) -> exists m', f m = Some m' /\ has ty m' u d) ->
  exists row', upd_metric f j row = Some row' /\ row_has tbl row' (fun n => if decide (n = name) then u else U n) (fun n => if decide (n = name) then d else D n).
Proof.
  intros HN HR Hj Hf. destruct (index_of_lookup _ _ _ Hj) as [ty Ht]. destruct (Forall2_lookup_l _ _ _ _ _ HR Ht) as (m & Hm & Hh). cbn in Hh.
  destruct (Hf ty m Ht Hh) as (m' & Hm' & Hh'). exists (<[j := m']> row). unfold upd_metric. rewrite Hm. cbn. rewrite Hm'. split; [done|].
  apply Forall2_same_length_lookup. split; [rewrite length_insert; by eapply Forall2_length|]. intros i [n ty'] m2 Hi Hm2. cbn.
  rewrite list_lookup_insert_Some in Hm2. destruct Hm2 as [(<- & <- & _)|[Hne Hm2]].
  - rewrite Ht in Hi. injection Hi as -> ->. by rewrite !decide_True.
  - assert (n <> name) as Hnn.
    { intros ->. apply Hne. eapply (NoDup_lookup tbl.*1 _ _ name); [done|by rewrite list_lookup_fmap, Ht|by rewrite list_lookup_fmap, Hi]. }
    rewrite !decide_False by done. apply (Forall2_lookup_lr _ _ _ _ _ _ HR Hi Hm2).
Qed.

Lemma row_incr tbl row U D name j delta : NoDup tbl.*1 -> row_has tbl row U D -> index_of name tbl = Some j -> 0 <= U name -> 0 <= delta -> U name + delta < 2 ^ 63 ->
  exists row', upd_metric (metric_incr delta) j row = Some row' /\ row_has tbl row' (fun n => if decide (n = name) then U name + delta else U n) D.
Proof.
  intros HN HR Hj HU Hd Hb. destruct (row_update tbl row U D name j (metric_incr delta) (U name + delta) (D name) HN HR Hj) as (row' & H1 & H2).
  - intros ty m _ Hh. destruct ty; cbn in Hh; [destruct Hh as [ts ->]|subst m|subst m|destruct Hh as [n ->]]; cbn; rewrite ?add64_small by lia; eexists; cbn; eauto.
  - exists row'. split; [done|]. eapply row_ext; [done|done|]. intros n. cbn. case_decide; by subst.
Qed.

Lemma row_decr tbl row U D name j delta : NoDup tbl.*1 -> row_has tbl row U D -> index_of name tbl = Some j -> 0 <= D name -> 0 <= delta -> D name + delta < 2 ^ 63 ->
  exists row', upd_metric (metric_decr delta) j row = Some row' /\ row_has tbl row' U (fun n => if decide (n = name) then D name + delta else D n).
Proof.
  intros HN HR Hj HU Hd Hb. destruct (row_update tbl row U D name j (metric_decr delta) (U name) (D name + delta) HN HR Hj) as (row' & H1 & H2).
  - intros ty m _ Hh. destruct ty; cbn in Hh; [destruct Hh as [ts ->]|subst m|subst m|destruct Hh as [n ->]]; cbn; rewrite ?add64_small by lia; eexists; cbn; eauto.
  - exists row'. split; [done|]. eapply row_ext; [done| |done]. intros n. cbn. case_decide; by subst.
Qed.

Lemma row_sum tbl r1 r2 U1 D1 U2 D2 : row_has tbl r1 U1 D1 -> row_has tbl r2 U2 D2 ->
  (forall n, 0 <= U1 n /\ 0 <= U2 n /\ U1 n + U2 n < 2 ^ 63) -> (forall n, 0 <= D1 n /\ 0 <= D2 n /\ D1 n + D2 n < 2 ^ 63) ->
  exists r, update_row r1 r2 = Some r /\ row_has tbl r (fun n => U1 n + U2 n) (fun n => D1 n + D2 n).
Proof.
  intros HR1. revert r2. induction HR1 as [|[n ty] m1 tbl r1 Hh1 HR1 IH]; intros r2 HR2 HU HD; inversion HR2 as [|? m2 ? r2' Hh2 HR2' E1 E2]; subst; [exists []; by split; [|constructor]|].
  destruct (IH r2' HR2' HU HD) as (r & Hr & HR). cbn [update_row]. destruct (HU n) as (U1n & U2n & Un). destruct (HD n) as (D1n & D2n & Dn).
  assert (exists m, stats_metric_update m1 m2 = Some m /\ has ty m (U1 n + U2 n) (D1 n + D2 n)) as (m & Hm & Hh).
  { destruct ty; cbn in Hh1, Hh2; [destruct Hh1 as [? ->], Hh2 as [? ->]|subst m1 m2|subst m1 m2|destruct Hh1 as [? ->], Hh2 as [? ->]]; cbn; rewrite ?add64_small by lia; eexists; cbn; eauto. }
  rewrite Hm. cbn. rewrite Hr. cbn. exists (m :: r). split; [done|]. by constructor.
Qed.

(** ** The metrics of a thread *)

Definition rows_have (rows : list (list stats_metric)) es : Prop :=
  length rows = Z.to_nat (SLABCLASS_MAX_ID + 1) /\
  forall id, 0 <= id <= SLABCLASS_MAX_ID -> exists row, rows !! Z.to_nat id = Some row /\
    row_has STATS_SLAB_METRICS row (fun n => total (slab_up id n) es) (fun n => total (slab_down id n) es).

Definition thread_has (t : tstats) es : Prop :=
  row_has STATS_THREAD_METRICS (stats_thread t) (fun n => total (thread_up n) es) (fun n => total (thread_down n) es) /\ rows_have (stats_slabs t) es.

Lemma thread_names : NoDup STATS_THREAD_METRICS.*1.
Proof. apply (bool_decide_unpack _). vm_compute. exact I. Qed.
Lemma slab_names : NoDup STATS_SLAB_METRICS.*1.
Proof. apply (bool_decide_unpack _). vm_compute. exact I. Qed.

Lemma init_has : thread_has tstats_init [].
Proof.
  split; [apply row_init|]. split; [apply length_replicate|]. intros id Hid. exists stats_smetrics. split; [|apply row_init].
  apply lookup_replicate_2. unfold SLABCLASS_MAX_ID in *. lia.
Qed.

Lemma total_snoc f es e : total f (es ++ [e]) = total f es + f e.
Proof. rewrite total_app. cbn. lia. Qed.

(** Rows that are not touched. *)
Lemma rows_same rows es e : (forall id n, slab_up id n e = 0 /\ slab_down id n e = 0) -> rows_have rows es -> rows_have rows (es ++ [e]).
Proof.
  intros H0 [Hl HR]. split; [done|]. intros id Hid. destruct (HR id Hid) as (row & Hr & Hh). exists row. split; [done|].
  eapply row_ext; [done|..]; intros n; cbv beta; rewrite total_snoc; destruct (H0 id n); lia.
Qed.

Lemma rows_update rows es e id row row' : class_ok id = true -> rows_have rows es ->
  rows !! Z.to_nat id = Some row -> (forall id' n, id' <> id -> slab_up id' n e = 0 /\ slab_down id' n e = 0) ->
  row_has STATS_SLAB_METRICS row' (fun n => total (slab_up id n) (es ++ [e])) (fun n => total (slab_down id n) (es ++ [e])) ->
  rows_have (<[Z.to_nat id := row']> rows) (es ++ [e]).
Proof.
  unfold class_ok, SLABCLASS_MIN_ID. intros Hc%andb_true_iff [Hl HR] Hr H0 Hh. rewrite !Z.leb_le in Hc. split; [by rewrite length_insert|]. intros id' Hid. destruct (decide (id' = id)) as [->|Hne].
  - exists row'. split; [|done]. apply list_lookup_insert_eq. by eapply lookup_lt_Some.
  - destruct (HR id' Hid) as (row2 & Hr2 & Hh2). exists row2. rewrite list_lookup_insert_ne by lia. split; [done|].
    eapply row_ext; [done|..]; intros n; cbv beta; rewrite total_snoc; destruct (H0 id' n Hne); lia.
Qed.

Lemma thread_step es e t f name : thread_has t es -> in_table name STATS_THREAD_METRICS = true -> (forall id n, slab_up id n e = 0 /\ slab_down id n e = 0) ->
  (forall j row, row_has STATS_THREAD_METRICS row (fun n => total (thread_up n) es) (fun n => total (thread_down n) es) -> index_of name STATS_THREAD_METRICS = Some j ->
    exists row', upd_metric f j row = Some row' /\ row_has STATS_THREAD_METRICS row' (fun n => total (thread_up n) (es ++ [e])) (fun n => total (thread_down n) (es ++ [e]))) ->
  exists t', upd_thread f name t = Some t' /\ thread_has t' (es ++ [e]).
Proof.
  intros [H1 H2] Hin H0 Hf. apply bool_decide_eq_true in Hin. destruct (index_of_in _ _ Hin) as [j Hj]. destruct (Hf j _ H1 Hj) as (row' & Hr & Hh).
  unfold upd_thread. rewrite Hj. cbn. rewrite Hr. cbn. eexists. split; [done|]. split; [done|]. by apply rows_same.
Qed.

Lemma slab_step es e t f id name : thread_has t es -> class_ok id = true -> name ∈ STATS_SLAB_METRICS.*1 ->
  (forall id' n, id' <> id -> slab_up id' n e = 0 /\ slab_down id' n e = 0) -> (forall n, thread_up n e = 0 /\ thread_down n e = 0) ->
  (forall j row, row_has STATS_SLAB_METRICS row (fun n => total (slab_up id n) es) (fun n => total (slab_down id n) es) -> index_of name STATS_SLAB_METRICS = Some j ->
    exists row', upd_metric f j row = Some row' /\ row_has STATS_SLAB_METRICS row' (fun n => total (slab_up id n) (es ++ [e])) (fun n => total (slab_down id n) (es ++ [e]))) ->
  exists t', upd_slab f id name t = Some t' /\ thread_has t' (es ++ [e]).
Proof.
  intros [H1 H2] Hid Hin H0 H0' Hf. destruct (index_of_in _ _ Hin) as [j Hj]. destruct (proj2 H2 id) as (row & Hr & Hh).
  { unfold class_ok, SLABCLASS_MIN_ID in Hid. apply andb_true_iff in Hid. rewrite !Z.leb_le in Hid. lia. }
  destruct (Hf j _ Hh Hj) as (row' & Hr' & Hh'). unfold upd_slab. rewrite Hj. cbn. rewrite Hr. cbn. rewrite Hr'. cbn. eexists. split; [done|]. split; [|by eapply rows_update].
  cbn. eapply row_ext; [done|..]; intros n; cbv beta; rewrite total_snoc; destruct (H0' n); lia.
Qed.

(** What an increment or decrement of [name] does to the amounts. *)
Lemma incr_amounts (f g : string -> stat -> Z) tbl row es e name j delta : NoDup tbl.*1 -> index_of name tbl = Some j ->
  (forall n, f n e = if decide (n = name) then delta else 0) -> (forall n, g n e = 0) -> 0 <= delta -> 0 <= total (f name) es -> total (f name) es + delta < 2 ^ 63 ->
  row_has tbl row (fun n => total (f n) es) (fun n => total (g n) es) ->
  exists row', upd_metric (metric_incr delta) j row = Some row' /\ row_has tbl row' (fun n => total (f n) (es ++ [e])) (fun n => total (g n) (es ++ [e])).
Proof.
  intros HN Hj Hf Hg Hd H0 Hb HR. destruct (row_incr tbl row _ _ name j delta HN HR Hj H0 Hd Hb) as (row' & H1 & H2). exists row'. split; [done|].
  eapply row_ext; [done|..]; intros n; cbv beta; rewrite total_snoc, ?Hf, ?Hg; [|lia]. case_decide; subst; lia.
Qed.

Lemma decr_amounts (f g : string -> stat -> Z) tbl row es e name j delta : NoDup tbl.*1 -> index_of name tbl = Some j ->
  (forall n, f n e = 0) -> (forall n, g n e = if decide (n = name) then delta else 0) -> 0 <= delta -> 0 <= total (g name) es -> total (g name) es + delta < 2 ^ 63 ->
  row_has tbl row (fun n => total (f n) es) (fun n => total (g n) es) ->
  exists row', upd_metric (metric_decr delta) j row = Some row' /\ row_has tbl row' (fun n => total (f n) (es ++ [e])) (fun n => total (g n) (es ++ [e])).
Proof.
  intros HN Hj Hf Hg Hd H0 Hb HR. destruct (row_decr tbl row _ _ name j delta HN HR Hj H0 Hd Hb) as (row' & H1 & H2). exists row'. split; [done|].
  eapply row_ext; [done|..]; intros n; cbv beta; rewrite total_snoc, ?Hf, ?Hg; [lia|]. case_decide; subst; lia.
Qed.

Ltac amounts := intros; cbn; repeat case_decide; destruct_and?; subst; try split; first [done|congruence|tauto|exfalso; tauto].

Lemma call_spec es e t : thread_has t es -> Forall (fun e => known e = true) es -> known e = true -> total weight (es ++ [e]) < 2 ^ 63 ->
  exists t', stats_call e t = Some t' /\ thread_has t' (es ++ [e]).
Proof.
  intros HT HF Hk Hw. rewrite total_snoc in Hw.
  assert (forall f, (forall e, known e = true -> 0 <= f e <= weight e) -> 0 <= total f es <= total weight es) as HB by (intros f Hf; by apply total_bounded).
  destruct e as [id n|id n|id n d|id n d|id n v|n|n]; cbn [known weight stats_call] in *; rewrite ?andb_true_iff in Hk.
  - destruct Hk as [Hid Hn%bool_decide_eq_true]. apply slab_step; [done|done|done|amounts|amounts|]. intros j row HR Hj.
    eapply (incr_amounts (slab_up id) (slab_down id)); try done; [apply slab_names|amounts|..]; pose proof (HB (slab_up id n) ltac:(intros e He; by apply (amounts_bounded e n id))); lia.
  - destruct Hk as [Hid Hn%bool_decide_eq_true]. apply slab_step; [done|done|done|amounts|amounts|]. intros j row HR Hj.
    eapply (decr_amounts (slab_up id) (slab_down id)); try done; [apply slab_names|amounts|..]; pose proof (HB (slab_down id n) ltac:(intros e He; by apply (amounts_bounded e n id))); lia.
  - destruct Hk as [[Hid Hn%bool_decide_eq_true] Hd%Z.leb_le]. apply slab_step; [done|done|done|amounts|amounts|]. intros j row HR Hj.
    eapply (incr_amounts (slab_up id) (slab_down id)); try done; [apply slab_names|amounts|..]; pose proof (HB (slab_up id n) ltac:(intros e He; by apply (amounts_bounded e n id))); lia.
  - destruct Hk as [[Hid Hn%bool_decide_eq_true] Hd%Z.leb_le]. apply slab_step; [done|done|done|amounts|amounts|]. intros j row HR Hj.
    eapply (decr_amounts (slab_up id) (slab_down id)); try done; [apply slab_names|amounts|..]; pose proof (HB (slab_down id n) ltac:(intros e He; by apply (amounts_bounded e n id))); lia.
  - destruct Hk as [Hid Hn%bool_decide_eq_true]. apply slab_step; [done|done|by eapply (list_elem_of_fmap_2 fst) in Hn|amounts|amounts|]. intros j row HR Hj.
    destruct (row_update STATS_SLAB_METRICS row _ _ n j (metric_settime v) (total (slab_up id n) es) (total (slab_down id n) es) slab_names HR Hj) as (row' & H1 & H2).
    + intros ty m Ht Hh. assert (ty = STATS_TIMESTAMP) as ->.
      { apply list_elem_of_lookup in Hn as (j2 & Hj2). pose proof slab_names as HN. assert (j = j2) as ->; [|congruence].
        eapply (NoDup_lookup STATS_SLAB_METRICS.*1 _ _ n); [done|by rewrite list_lookup_fmap, Ht|by rewrite list_lookup_fmap, Hj2]. }
      destruct Hh as [ts ->]. eexists. split; [done|]. cbn. eauto.
    + exists row'. split; [done|]. eapply row_ext; [done|..]; intros n'; cbv beta; rewrite total_snoc; cbn; case_decide; subst; lia.
  - apply thread_step; [done|done|amounts|]. intros j row HR Hj. eapply (incr_amounts thread_up thread_down); try done; [apply thread_names|amounts|..];
      pose proof (HB (thread_up n) ltac:(intros e He; by apply (amounts_bounded e n 0))); lia.
  - apply thread_step; [done|done|amounts|]. intros j row HR Hj. eapply (decr_amounts thread_up thread_down); try done; [apply thread_names|amounts|..];
      pose proof (HB (thread_down n) ltac:(intros e He; by apply (amounts_bounded e n 0))); lia.
Qed.

Lemma calls_spec es2 : forall es t, thread_has t es -> Forall (fun e => known e = true) (es ++ es2) -> total weight (es ++ es2) < 2 ^ 63 ->
  exists t', stats_calls es2 t = Some t' /\ thread_has t' (es ++ es2).
Proof.
  induction es2 as [|e es2 IH]; intros es t HT HF Hw; [exists t; by rewrite app_nil_r|]. cbn [stats_calls].
  replace (es ++ e :: es2) with ((es ++ [e]) ++ es2) in * by (by rewrite <-app_assoc).
  pose proof HF as HF'. apply Forall_app in HF' as [HF1 HF2]. pose proof HF1 as HF1'. apply Forall_app in HF1' as [HF0 [He _]%Forall_cons].
  destruct (call_spec es e t HT HF0 He) as (t1 & H1 & HT1).
  { rewrite total_app in Hw. assert (0 <= total weight es2); [|lia]. apply total_nonneg. eapply Forall_impl; [exact HF2|]. intros x Hx. destruct (amounts_bounded x ""%string 0 Hx). lia. }
  rewrite H1. cbn. by apply IH.
Qed.

(** ** The aggregator *)

Notation amount := (nat -> string -> Z).

(** The amounts of rows that follow one another. *)
Definition seq_have tbl (rows : list (list stats_metric)) (U D : amount) : Prop :=
  forall i row, rows !! i = Some row -> row_has tbl row (U i) (D i).

Lemma seq_have_cons tbl row rows (U D : amount) : seq_have tbl (row :: rows) U D <-> row_has tbl row (U O) (D O) /\ seq_have tbl rows (fun i => U (S i)) (fun i => D (S i)).
Proof.
  split; [intros HS; split; [by apply (HS O)|intros i r Hr; by apply (HS (S i))]|]. intros [H1 H2] [|i] r Hr; [by injection Hr as <-|]. by apply H2.
Qed.

Definition small2 (U1 U2 : string -> Z) : Prop := forall n, 0 <= U1 n /\ 0 <= U2 n /\ U1 n + U2 n < 2 ^ 63.

Lemma rows_sum tbl l1 : forall l2 (U1 D1 U2 D2 : amount), length l1 = length l2 -> seq_have tbl l1 U1 D1 -> seq_have tbl l2 U2 D2 ->
  (forall i, small2 (U1 i) (U2 i)) -> (forall i, small2 (D1 i) (D2 i)) ->
  exists l, update_rows l1 l2 = Some l /\ length l = length l1 /\ seq_have tbl l (fun i n => U1 i n + U2 i n) (fun i n => D1 i n + D2 i n).
Proof.
  induction l1 as [|r1 l1 IH]; intros [|r2 l2] U1 D1 U2 D2 Hl H1 H2 HU HD; try done; [by exists []|]. apply seq_have_cons in H1 as [A1 B1], H2 as [A2 B2].
  destruct (IH l2 _ _ _ _ ltac:(by injection Hl) B1 B2 (fun i => HU (S i)) (fun i => HD (S i))) as (l & E1 & E2 & E3).
  destruct (row_sum tbl r1 r2 _ _ _ _ A1 A2 (HU O) (HD O)) as (r & F1 & F2). cbn. rewrite F1. cbn. rewrite E1. cbn. exists (r :: l). split; [done|]. split; [by cbn; f_equal|].
  by apply seq_have_cons.
Qed.

Lemma rows_have_seq rows es : rows_have rows es -> exists sum l, rows = sum :: l /\
  row_has STATS_SLAB_METRICS sum (fun n => total (slab_up 0 n) es) (fun n => total (slab_down 0 n) es) /\ length l = Z.to_nat SLABCLASS_MAX_ID /\
  seq_have STATS_SLAB_METRICS l (fun i n => total (slab_up (Z.of_nat i + 1) n) es) (fun i n => total (slab_down (Z.of_nat i + 1) n) es).
Proof.
  intros [Hl HR]. destruct rows as [|sum l]; [done|]. exists sum, l. split; [done|]. destruct (HR 0 ltac:(done)) as (r & Hr & H0). injection Hr as ->. split; [done|].
  unfold SLABCLASS_MAX_ID in *. cbn in Hl. split; [lia|]. intros i row Hi. pose proof (lookup_lt_Some _ _ _ Hi). destruct (HR (Z.of_nat i + 1) ltac:(lia)) as (r2 & Hr2 & H2).
  replace (Z.to_nat (Z.of_nat i + 1)) with (S i) in Hr2 by lia. assert (r2 = row) as -> by (apply (inj Some); rewrite <-Hr2; exact Hi). done.
Qed.

Lemma seq_rows_have sum l es : row_has STATS_SLAB_METRICS sum (fun n => total (slab_up 0 n) es) (fun n => total (slab_down 0 n) es) ->
  length l = Z.to_nat SLABCLASS_MAX_ID -> seq_have STATS_SLAB_METRICS l (fun i n => total (slab_up (Z.of_nat i + 1) n) es) (fun i n => total (slab_down (Z.of_nat i + 1) n) es) ->
  rows_have (sum :: l) es.
Proof.
  intros H0 Hl HS. split; [cbn; rewrite Hl; done|]. intros id Hid. destruct (decide (id = 0)) as [->|Hne]; [by exists sum|].
  destruct (lookup_lt_is_Some_2 l (Z.to_nat (id - 1))) as [row Hr]; [unfold SLABCLASS_MAX_ID in *; lia|]. exists row. replace (Z.to_nat id) with (S (Z.to_nat (id - 1))) by lia.
  split; [done|]. pose proof (HS _ _ Hr) as HR. cbv beta in HR. replace (Z.of_nat (Z.to_nat (id - 1)) + 1) with id in HR by lia. done.
Qed.

(** No call is for class 0. *)
Lemma no_class0 es n : Forall (fun e => known e = true) es -> total (slab_up 0 n) es = 0 /\ total (slab_down 0 n) es = 0.
Proof.
  induction 1 as [|e es He _ [IH1 IH2]]; cbn [total]; [done|]. rewrite IH1, IH2. clear IH1 IH2.
  destruct e as [id x|id x|id x d|id x d|id x v|x|x]; cbn [known slab_up slab_down] in *; try done;
    (rewrite decide_False; [lia|]); intros [-> _]; done.
Qed.

Section bounds.
Context (es1 es2 : list stat) (K1 : Forall (fun e => known e = true) es1) (K2 : Forall (fun e => known e = true) es2).
Context (Hw : total weight es1 + total weight es2 < 2 ^ 63).

Lemma small_totals (f : string -> stat -> Z) : (forall n e, known e = true -> 0 <= f n e <= weight e) -> small2 (fun n => total (f n) es1) (fun n => total (f n) es2).
Proof. intros Hf n. pose proof (total_bounded (f n) es1 (Hf n) K1). pose proof (total_bounded (f n) es2 (Hf n) K2). lia. Qed.

Lemma aggregate_thread_spec agg t : thread_has agg es1 -> thread_has t es2 -> exists agg', aggregate_thread agg t = Some agg' /\ thread_has agg' (es1 ++ es2).
Proof.
  intros [A1 B1] [A2 B2]. destruct (rows_have_seq _ _ B1) as (s1 & l1 & E1 & S1 & L1 & Q1). destruct (rows_have_seq _ _ B2) as (s2 & l2 & E2 & S2 & L2 & Q2).
  destruct (row_sum _ _ _ _ _ _ _ A1 A2) as (th & F1 & F2); [apply (small_totals thread_up)|apply (small_totals thread_down)|]; try (intros n e He; by apply (amounts_bounded e n 0)).
  destruct (rows_sum _ l1 l2 _ _ _ _ ltac:(congruence) Q1 Q2) as (l & G1 & G2 & G3); [intros i; apply (small_totals (slab_up _))|intros i; apply (small_totals (slab_down _))|];
    try (intros n e He; by apply (amounts_bounded e n _)).
  unfold aggregate_thread. rewrite F1, E1, E2. cbn. rewrite G1. cbn. eexists. split; [done|]. split; cbn [stats_thread stats_slabs].
  - eapply row_ext; [exact F2|..]; intros n; cbv beta; by rewrite total_app.
  - apply seq_rows_have; [|congruence|].
    + eapply row_ext; [exact S1|..]; intros n; cbv beta; rewrite total_app; destruct (no_class0 es2 n K2); lia.
    + intros i row Hi. eapply row_ext; [by apply G3|..]; intros n; cbv beta; by rewrite total_app.
Qed.
End bounds.

Lemma aggregate_threads_spec ess : forall es ts agg, thread_has agg es -> Forall2 thread_has ts ess -> Forall (fun e => known e = true) (es ++ mjoin ess) ->
  total weight (es ++ mjoin ess) < 2 ^ 63 -> exists agg', aggregate_threads agg ts = Some agg' /\ thread_has agg' (es ++ mjoin ess).
Proof.
  induction ess as [|es2 ess IH]; intros es ts agg HA HT HK Hw; inversion HT as [|t ? ts' ? Ht HT' E1 E2]; subst; [exists agg; by rewrite app_nil_r|].
  change (mjoin (es2 :: ess)) with (es2 ++ mjoin ess) in *.
  rewrite app_assoc in HK, Hw |- *. pose proof HK as HK'. apply Forall_app in HK' as [HK1 HK2]. pose proof HK1 as HK1'. apply Forall_app in HK1' as [K1 K2].
  assert (0 <= total weight (mjoin ess)) as Hn.
  { apply total_nonneg. eapply Forall_impl; [exact HK2|]. intros x Hx. destruct (amounts_bounded x ""%string 0 Hx). lia. }
  destruct (aggregate_thread_spec es es2 K1 K2 ltac:(rewrite !total_app in Hw; lia) agg t HA Ht) as (agg' & E & HA'). cbn. rewrite E. cbn. by apply IH.
Qed.

(** ** The summary *)

Fixpoint sumZ (f : Z -> Z) (l : list Z) : Z := match l with [] => 0 | x :: l' => f x + sumZ f l' end.

Lemma total_sum (f : Z -> stat -> Z) ids es : sumZ (fun id => total (f id) es) ids = total (fun e => sumZ (fun id => f id e) ids) es.
Proof.
  induction es as [|e es IH]; cbn [total].
  - induction ids as [|x ids IH]; cbn [sumZ total]; [done|]. by rewrite IH.
  - rewrite <-IH. clear IH. induction ids as [|x ids IH]; cbn [sumZ total]; [done|]. cbn [total] in IH. rewrite IH. lia.
Qed.

(** A call is for one class. *)
Lemma class_sum (f : Z -> string -> stat -> Z) n ids e : (f = slab_up \/ f = slab_down) -> known e = true -> NoDup ids -> 0 <= sumZ (fun id => f id n e) ids <= weight e.
Proof.
  intros Hf Hk HN. assert (forall id, 0 <= f id n e <= weight e) as Hb by (intros id; destruct Hf as [-> | ->]; apply (amounts_bounded e n id Hk)).
  assert (exists c, forall id, id <> c -> f id n e = 0) as [c Hc].
  { destruct e as [i x|i x|i x d|i x d|i x v|x|x]; first [exists i|exists 0]; intros id Hid; destruct Hf as [-> | ->]; cbn; try done; rewrite decide_False; try done; naive_solver. }
  assert (forall l, c ∉ l -> sumZ (fun id => f id n e) l = 0) as H0.
  { induction l as [|x l IH]; cbn; [done|]. rewrite not_elem_of_cons. intros [Hx Hl]. rewrite IH, Hc by congruence. done. }
  induction HN as [|x l Hx HN IH]; cbn; [specialize (Hb 0); lia|]. destruct (decide (x = c)) as [->|Hne]; [rewrite H0 by done; specialize (Hb c); lia|].
  rewrite (Hc x Hne). lia.
Qed.

(** The loop that adds up the classes from [k]. *)
Lemma sum_rows_spec tbl (U D : Z -> string -> Z) : forall l sum k, 0 <= k ->
  (forall i row, l !! i = Some row -> row_has tbl row (U (k + Z.of_nat i)) (D (k + Z.of_nat i))) ->
  row_has tbl sum (fun n => sumZ (fun id => U id n) (seqZ 1 (k - 1))) (fun n => sumZ (fun id => D id n) (seqZ 1 (k - 1))) -> 1 <= k ->
  (forall n j, 0 <= j <= k - 1 + Z.of_nat (length l) -> 0 <= sumZ (fun id => U id n) (seqZ 1 j) < 2 ^ 63) ->
  (forall n j, 0 <= j <= k - 1 + Z.of_nat (length l) -> 0 <= sumZ (fun id => D id n) (seqZ 1 j) < 2 ^ 63) ->
  (forall id n, 0 <= U id n /\ 0 <= D id n) ->
  exists r, sum_rows sum l = Some r /\
    row_has tbl r (fun n => sumZ (fun id => U id n) (seqZ 1 (k - 1 + Z.of_nat (length l)))) (fun n => sumZ (fun id => D id n) (seqZ 1 (k - 1 + Z.of_nat (length l)))).
Proof.
  induction l as [|row l IH]; intros sum k Hk HS HR Hk1 HU HD H0; cbn [length]; [exists sum; split; [done|]; by rewrite Z.add_0_r|].
  assert (forall (f : Z -> string -> Z) n, sumZ (fun id => f id n) (seqZ 1 k) = sumZ (fun id => f id n) (seqZ 1 (k - 1)) + f k n) as Hsn.
  { intros f n. replace k with (k - 1 + 1) at 1 by lia. rewrite seqZ_app by lia. replace (1 + (k - 1)) with k by lia. change (seqZ k 1) with [k].
    generalize (seqZ 1 (k - 1)). intros q. induction q as [|x q IHq]; cbn in *; lia. }
  destruct (row_sum tbl sum row _ _ _ _ HR (HS O row eq_refl)) as (r & E1 & E2).
  - intros n. rewrite Z.add_0_r. pose proof (HU n k ltac:(cbn; lia)) as Hu. rewrite Hsn in Hu. pose proof (HU n (k - 1) ltac:(cbn; lia)). destruct (H0 k n). lia.
  - intros n. rewrite Z.add_0_r. pose proof (HD n k ltac:(cbn; lia)) as Hd. rewrite Hsn in Hd. pose proof (HD n (k - 1) ltac:(cbn; lia)). destruct (H0 k n). lia.
  - cbn [sum_rows]. rewrite E1. cbn. destruct (IH r (k + 1)) as (r2 & F1 & F2).
    + lia.
    + intros i row2 Hi. replace (k + 1 + Z.of_nat i) with (k + Z.of_nat (S i)) by lia. by apply HS.
    + replace (k + 1 - 1) with k by lia. eapply row_ext; [exact E2|..]; intros n; cbv beta; rewrite Z.add_0_r; symmetry; apply Hsn.
    + lia.
    + intros n j Hj. apply HU. cbn. lia.
    + intros n j Hj. apply HD. cbn. lia.
    + done.
    + exists r2. split; [done|]. replace (k - 1 + Z.of_nat (S (length l))) with (k + 1 - 1 + Z.of_nat (length l)) by lia. done.
Qed.

(** ** The reports *)

(** The value the [stats] commands print for a metric. *)
Definition reported (now : Z) (tbl : list (string * metric_type)) row name : option Z :=
  j ← index_of name tbl; m ← row !! j; Some (stats_metric_val now m).

(** A counter shows its increments, a gauge how far they exceed the decrements. *)
Definition shows (ty : metric_type) (u d : Z) : option Z :=
  match ty with STATS_COUNTER => Some u | STATS_GAUGE => Some (Z.max 0 (u - d)) | _ => None end.

Lemma row_reports now tbl row U D name ty v : NoDup tbl.*1 -> row_has tbl row U D -> (name, ty) ∈ tbl -> shows ty (U name) (D name) = Some v ->
  reported now tbl row name = Some v.
Proof.
  intros HN HR Hin Hv. destruct (index_of_in name tbl) as [j Hj]; [by apply (list_elem_of_fmap_2 fst) in Hin|]. unfold reported. rewrite Hj. cbn.
  destruct (index_of_lookup _ _ _ Hj) as [ty' Ht]. assert (ty' = ty) as ->.
  { apply list_elem_of_lookup in Hin as (j2 & Hj2). assert (j = j2) as ->; [|congruence].
    eapply (NoDup_lookup tbl.*1 _ _ name); [done|by rewrite list_lookup_fmap, Ht|by rewrite list_lookup_fmap, Hj2]. }
  destruct (Forall2_lookup_l _ _ _ _ _ HR Ht) as (m & -> & Hh). cbn in Hh |- *. destruct ty; cbn in *; try done; injection Hv as <-; subst m; cbn; [done|].
  f_equal. destruct (Z.leb_spec 0 (U name - D name)); lia.
Qed.

Lemma threads_spec ess : Forall (fun e => known e = true) (mjoin ess) -> total weight (mjoin ess) < 2 ^ 63 ->
  exists ts, mapM (fun es => stats_calls es tstats_init) ess = Some ts /\ Forall2 thread_has ts ess.
Proof.
  induction ess as [|es ess IH]; intros HK Hw; [by exists []|]. change (mjoin (es :: ess)) with (es ++ mjoin ess) in *. apply Forall_app in HK as [K1 K2].
  assert (forall l, Forall (fun e => known e = true) l -> 0 <= total weight l) as Hn.
  { intros l Hl. apply total_nonneg. eapply Forall_impl; [exact Hl|]. intros x Hx. destruct (amounts_bounded x ""%string 0 Hx). lia. }
  rewrite total_app in Hw. pose proof (Hn _ K1). pose proof (Hn _ K2). destruct (IH K2 ltac:(lia)) as (ts & E & HT).
  destruct (calls_spec es [] tstats_init init_has K1 ltac:(cbn [app]; lia)) as (t & Et & Ht). exists (t :: ts). cbn. rewrite Et. cbn. rewrite E. split; [done|]. by constructor.
Qed.

(** C33: After any calls of the statistics functions by any number of threads (with
    names and classes that exist, and amounts that fit in 63 bits together), the
    aggregation succeeds, and what the [stats] commands report is the total of the
    calls of all threads: for a counter the sum of its increments, for a gauge that
    sum less the decrements, or 0; for the server, and for every slab class; and in
    the summary over the slab classes the total of the classes but the last, which
    the loop of the source leaves out. *)
Theorem stats_report_totals ess (HK : Forall (fun e => known e = true) (mjoin ess)) (Hw : total weight (mjoin ess) < 2 ^ 63) :
  exists ts agg, mapM (fun es => stats_calls es tstats_init) ess = Some ts /\ _stats_aggregate ts = Some agg /\
    let es := mjoin ess in
    (forall now name ty v, (name, ty) ∈ STATS_THREAD_METRICS -> shows ty (total (thread_up name) es) (total (thread_down name) es) = Some v ->
       reported now STATS_THREAD_METRICS (stats_thread agg) name = Some v) /\
    (forall id, SLABCLASS_MIN_ID <= id <= SLABCLASS_MAX_ID -> exists row, stats_slabs agg !! Z.to_nat id = Some row /\
       forall now name ty v, (name, ty) ∈ STATS_SLAB_METRICS -> shows ty (total (slab_up id name) es) (total (slab_down id name) es) = Some v ->
       reported now STATS_SLAB_METRICS row name = Some v) /\
    (exists row, stats_slabs agg !! 0%nat = Some row /\ let ids := seqZ SLABCLASS_MIN_ID (SLABCLASS_MAX_ID - SLABCLASS_MIN_ID) in
       forall now name ty v, (name, ty) ∈ STATS_SLAB_METRICS ->
       shows ty (sumZ (fun id => total (slab_up id name) es) ids) (sumZ (fun id => total (slab_down id name) es) ids) = Some v ->
       reported now STATS_SLAB_METRICS row name = Some v).
Proof.
  destruct (threads_spec ess HK Hw) as (ts & Et & HT). destruct (aggregate_threads_spec ess [] ts tstats_init init_has HT HK Hw) as (agg & Ea & [HA HB]). cbn [app] in HA, HB.
  destruct (rows_have_seq _ _ HB) as (sum & l & El & HS & Hl & HQ). set (es := mjoin ess) in *.
  assert (forall f : Z -> string -> stat -> Z, f = slab_up \/ f = slab_down -> forall n j, 0 <= sumZ (fun id => total (f id n) es) (seqZ 1 j) < 2 ^ 63) as Hsum.
  { intros f Hf n j. rewrite (total_sum (fun id => f id n)). pose proof (total_bounded (fun e => sumZ (fun id => f id n e) (seqZ 1 j)) es) as Hb. cbv beta in Hb.
    assert (0 <= total (fun e => sumZ (fun id => f id n e) (seqZ 1 j)) es <= total weight es) as Hb'; [|lia]. apply Hb; [|done]. intros e He. apply (class_sum f); [done|done|apply NoDup_seqZ]. }
  destruct (sum_rows_spec STATS_SLAB_METRICS (fun id n => total (slab_up id n) es) (fun id n => total (slab_down id n) es)
    (take (Z.to_nat (SLABCLASS_MAX_ID - SLABCLASS_MIN_ID)) l) sum 1) as (r & Er & HR); try done.
  - intros i row Hi. apply lookup_take_Some in Hi as [Hi _]. pose proof (HQ i row Hi) as HQi. cbv beta in HQi. by rewrite (Z.add_comm 1).
  - eapply row_ext; [exact HS|..]; intros n; cbv beta; destruct (no_class0 es n HK) as [A B]; rewrite ?A, ?B; done.
  - intros n j _. by apply (Hsum slab_up); left.
  - intros n j _. by apply (Hsum slab_down); right.
  - intros id n. split; [apply (total_bounded (slab_up id n))|apply (total_bounded (slab_down id n))]; try done; intros e He; by apply (amounts_bounded e n id).
  - exists ts, (TStats (stats_thread agg) (r :: l)). split; [done|]. split; [unfold _stats_aggregate; rewrite Ea; cbn; rewrite El; by rewrite Er|]. cbn [stats_thread stats_slabs]. split; [|split].
    + intros now name ty v Hin Hv. by eapply (row_reports now _ _ _ _ name ty v thread_names HA).
    + intros id Hid. unfold SLABCLASS_MIN_ID in *. destruct (proj2 HB id ltac:(lia)) as (row & Hrow & Hh). exists row. rewrite El in Hrow.
      replace (Z.to_nat id) with (S (Z.to_nat (id - 1))) in * by lia. split; [done|]. intros now name ty v Hin Hv. by eapply (row_reports now _ _ _ _ name ty v slab_names Hh).
    + exists r. split; [done|]. cbv zeta. intros now name ty v Hin Hv. eapply (row_reports now _ _ _ _ name ty v slab_names HR); [done|].
      rewrite length_take_le by (rewrite Hl; unfold SLABCLASS_MAX_ID, SLABCLASS_MIN_ID; lia). exact Hv.
Qed.

(** Two threads, and a class that is the last one. *)
Definition ex_calls : list (list stat) :=
  [[ThreadIncr "get"; SlabIncr 1 "item_curr"; SlabIncrBy 1 "data_curr" 100; SlabIncr 254 "item_curr"]; [ThreadIncr "get"; SlabDecr 1 "item_curr"; SlabIncr 1 "item_curr"]].

Lemma stats_report_totals_witness :
  exists agg row1 row0, mapM (fun es => stats_calls es tstats_init) ex_calls ≫= _stats_aggregate = Some agg /\
    reported 0 STATS_THREAD_METRICS (stats_thread agg) "get" = Some 2 /\
    stats_slabs agg !! 1%nat = Some row1 /\ reported 0 STATS_SLAB_METRICS row1 "item_curr" = Some 1 /\
    stats_slabs agg !! 0%nat = Some row0 /\ reported 0 STATS_SLAB_METRICS row0 "item_curr" = Some 1.
Proof.
  assert (Forall (fun e => known e = true) (mjoin ex_calls)) as HK by (repeat constructor).
  destruct (stats_report_totals ex_calls HK ltac:(vm_compute; reflexivity)) as (ts & agg & Et & Ea & H1 & H2 & row0 & E0 & H3).
  destruct (H2 1 ltac:(split; vm_compute; discriminate)) as (row1 & E1 & H4). exists agg, row1, row0. rewrite Et. split; [exact Ea|].
  split; [apply (H1 0 "get"%string STATS_COUNTER); [apply (bool_decide_unpack _); vm_compute; exact I|vm_compute; reflexivity]|].
  split; [exact E1|]. split; [apply (H4 0 "item_curr"%string STATS_GAUGE); [apply (bool_decide_unpack _); vm_compute; exact I|vm_compute; reflexivity]|].
  split; [exact E0|]. apply (H3 0 "item_curr"%string STATS_GAUGE); [apply (bool_decide_unpack _); vm_compute; exact I|vm_compute; reflexivity].
Defined.
