(* ===== verification/IQ.v ===== *)
(** * mc_items.c: the IQ commands

    An I lease (inhibit) lets one reader fill a missing key; a Q lease
    (quarantine) is taken by a transaction that will invalidate (shared by
    several transactions), refresh or increment a key.  A lease is an item under
    the lease key: the token as its value, or for a Q lease to invalidate the
    packed list of the transactions that share it.  A transaction is an item
    under its id whose value is the packed list of its keys.

    Assertions are compiled out, as they are by default. *)

From S2P Require Import Prelude Util Time Lease Keylist Assoc Item State Slabs Items.
Open Scope Z_scope.

Definition klen8 (key : list Z) : Z := u8 (Z.of_nat (length key)).

(** ** Key lists kept in items *)

Definition list_data (a : addr) : M st (mem * Z) :=
  it ← get_item a; d ← lift (item_data_raw it); mret (d, i_nbyte it).

(** [it == NULL || trig_check_keylist(...) == TRIG_NOTFOUND] *)
Definition list_lacks (o : option addr) (entry : list Z) : M st bool :=
  match o with
  | None => mret true
  | Some a =>
      '(d, n) ← list_data a;
      r ← lift (trig_check_keylist d n entry (klen8 entry));
      mret (bool_decide (r = TRIG_NOTFOUND))
  end.

Definition list_len (o : option addr) : M st Z :=
  match o with Some a => it ← get_item a; mret (i_nbyte it) | None => mret 0 end.

(** [trig_keylist_addkey] from the list of the old item into the new item. *)
Definition list_add (na : addr) (o : option addr) (entry : list Z) : M st unit :=
  '(dest, _) ← list_data na;
  '(old, n) ← (match o with
               | Some a => '(d, n) ← list_data a; mret (Some d, n)
               | None => mret (None, 0)
               end);
  '(_, dest', _) ← lift (trig_keylist_addkey false dest 0 old n entry (klen8 entry));
  write_data na 0 dest'.

Definition list_rmv (na a : addr) (entry : list Z) : M st unit :=
  '(dest, _) ← list_data na;
  '(d, n) ← list_data a;
  '(_, dest', _) ← lift (trig_keylist_rmvkey false dest 0 (Some d) n entry (klen8 entry));
  write_data na 0 dest'.

(** [while (trig_keylist_next(item_data(a), a->nbyte, &cursor, &key, &nkey) ==
    TRIG_OK)], the body given where the key starts in the list; the length of the
    list is fuel enough. *)
Fixpoint list_fold {A} (fuel : nat) (a : addr) (cursor : option Z) (body : Z -> list Z -> A -> M st A) (acc : A)
  : M st A :=
  match fuel with
  | O => undef
  | S fuel' =>
      '(d, n) ← list_data a;
      r ← lift (trig_keylist_next d n cursor);
      match r with
      | (TRIG_OK, cursor', Some (off, len)) =>
          key ← lift (mem_read d off len);
          acc' ← body off key acc;
          list_fold fuel' a cursor' body acc'
      | _ => mret acc
      end
  end.

Definition fold_keys {A} (a : addr) (body : Z -> list Z -> A -> M st A) (acc : A) : M st A :=
  n ← list_len (Some a); list_fold (S (Z.to_nat n)) a None body acc.

Definition foreach_key (a : addr) (body : list Z -> M st unit) : M st unit :=
  fold_keys a (fun _ key _ => body key) tt.

(** ** Associating keys, transactions and leases

    An allocation that fails is dereferenced. *)

Definition _item_assoc_key_tid (c : conn) (trans_it : option addr) (key tid : list Z) : M st unit :=
  lacks ← list_lacks trans_it key;
  when lacks (
    old ← list_len trans_it;
    o ← _item_create_reserved_item tid (u32 (old + trig_new_keylist_size (klen8 key))) true;
    na ← lift o;
    upd_item na item_set_sess;;
    list_add na trans_it key;;
    (match trans_it with
     | Some a => item_unset_pinned a
     | None => record (ThreadIncr "total_trans")
     end);;
    _item_store na REQ_SET c true;;
    _item_remove na).

Definition _item_assoc_tid_lease (c : conn) (lease_it : option addr) (key tid : list Z) : M st unit :=
  lacks ← list_lacks lease_it tid;
  when lacks (
    old ← list_len lease_it;
    o ← _item_create_reserved_item (mc_get_lease_key key) (u32 (old + trig_new_keylist_size (klen8 tid))) true;
    na ← lift o;
    upd_item na item_set_q_inv_lease;;
    list_add na lease_it tid;;
    _item_store na REQ_SET c true;;
    record (ThreadIncr "active_q_lease");;
    record (ThreadIncr "total_q_lease");;
    record (ThreadIncr "total_lease");;
    _item_remove na).

Definition _item_assoc_tid_ptrans (c : conn) (ptrans_it : option addr) (key tid : list Z) : M st unit :=
  lacks ← list_lacks ptrans_it tid;
  when lacks (
    old ← list_len ptrans_it;
    o ← _item_create_reserved_item (mc_get_ptrans_key key) (u32 (old + trig_new_keylist_size (klen8 tid))) true;
    na ← lift o;
    upd_item na (set_exptime 0);;
    upd_item na item_set_ptrans;;
    list_add na ptrans_it tid;;
    _item_store na REQ_SET c true;;
    _item_remove na).

(** The flags of the item that replaces a shortened list. *)
Definition inherit_kind (it new : item) : item :=
  if item_has_c_lease it then item_set_c_lease (set_coflags (i_coflags it) new)
  else if item_has_o_lease it then set_coflags (i_coflags it) new
  else if item_has_q_lease it then item_set_q_inv_lease new
  else new.

Definition record_released (it : item) : M st unit :=
  if item_has_c_lease it then record (ThreadIncr "released_c_lease")
  else if item_has_o_lease it then record (ThreadIncr "released_o_lease")
  else when (item_has_q_lease it) (record (ThreadIncr "released_q_lease")).

Definition _item_remove_entry_from_list (c : conn) (o : option addr) (key entry : list Z) : M st unit :=
  match o with
  | None => mret tt
  | Some a =>
      lacks ← list_lacks o entry;
      it ← get_item a;
      if (lacks : bool) then mret tt
      else if i_nbyte it =? klen8 entry + 1 then record_released it;; _item_unlink a
      else
        o ← _item_create_reserved_item key (u32 (i_nbyte it - trig_new_keylist_size (klen8 entry))) true;
        na ← lift o;
        it ← get_item a;
        upd_item na (inherit_kind it);;
        list_rmv na a entry;;
        _item_store na REQ_SET c true;;
        _item_remove na
  end.

Definition _item_remove_tid_lease (c : conn) (lease_it : option addr) (key tid : list Z) : M st unit :=
  _item_remove_entry_from_list c lease_it (mc_get_lease_key key) tid.

Definition _item_remove_tid_ptrans (c : conn) (ptrans_it : option addr) (key tid : list Z) : M st unit :=
  match ptrans_it with
  | None => mret tt
  | Some a =>
      lacks ← list_lacks ptrans_it tid;
      it ← get_item a;
      if (lacks : bool) then mret tt
      else if i_nbyte it =? klen8 tid + 1 then _item_unlink a
      else
        o ← _item_create_reserved_item (mc_get_ptrans_key key)
              (u32 (i_nbyte it - trig_new_keylist_size (klen8 tid))) true;
        na ← lift o;
        it ← get_item a;
        upd_item na (set_exptime 0);;
        upd_item na (set_coflags (i_coflags it));;
        list_rmv na a tid;;
        _item_store na REQ_SET c true;;
        _item_remove na
  end.

(** ** Small accesses *)

Definition field {A} (f : item -> A) (a : addr) : M st A := it ← get_item a; mret (f it).

(** [x != NULL && f(x)] *)
Definition test (f : item -> bool) (o : option addr) : M st bool :=
  match o with Some a => field f a | None => mret false end.

(** [memcpy(item_data(na) + off, item_data(a), a->nbyte)] *)
Definition copy_data (na : addr) (off : Z) (a : addr) : M st unit :=
  '(d, _) ← list_data a; write_data na off d.

(** Whether a pending item of the key exists. *)
Definition pending_of (key : list Z) : M st Z :=
  o ← _item_get_pending key;
  match o with Some a => _item_remove a;; mret 1 | None => mret 0 end.

(** ** Commands *)

Definition item_get_and_unlease (key : list Z) (token_val : Z) : M st rstatus :=
  lock_cache;;
  lease_it ← _item_get_lease key;
  (match lease_it with
   | Some l =>
       v ← _item_lease_value lease_it;
       if v =? token_val then
         _item_unlink l;;
         _item_remove l;;
         record (ThreadIncr "unlease");;
         i ← field item_has_i_lease l;
         when i (record (ThreadIncr "released_i_lease"))
       else _item_remove l
   | None => mret tt
   end);;
  unlock_cache;;
  mret MC_OK.

(** The status and [*markedVal]. *)
Definition item_quarantine_and_register (c : conn) (tid key : list Z) : M st (rstatus * Z) :=
  lock_cache;;
  trans_it ← _item_get tid;
  lease_it ← _item_get_lease key;
  i ← test item_has_i_lease lease_it;
  lease_it ← (match lease_it, i with
              | Some l, true => _item_unlink l;; _item_remove l;; mret None
              | _, _ => mret lease_it
              end);
  _item_assoc_tid_lease c lease_it key tid;;
  _item_assoc_key_tid c trans_it key tid;;
  (match lease_it with
   | Some l => _item_remove l;; record (ThreadIncr "qlease_voids")
   | None => mret tt
   end);;
  it ← _item_get key;
  lease_it ← _item_get_lease key;
  (match it with
   | Some a =>
       (match lease_it with
        | Some l => e ← field i_exptime l; upd_item a (set_exptime e)
        | None => mret tt
        end);;
       _item_remove a
   | None => mret tt
   end);;
  opt_remove lease_it;;
  opt_remove trans_it;;
  unlock_cache;;
  mret (MC_OK, 1).

(** One key of [item_delete_and_release]. *)
Definition dar_key (c : conn) (tid key : list Z) : M st unit :=
  it ← _item_get key;
  unlink_remove it;;
  lease_it ← _item_get_lease key;
  match lease_it with
  | None => mret tt
  | Some l =>
      inv ← field item_has_q_inv_lease l;
      if (inv : bool) then _item_remove_tid_lease c lease_it key tid;; _item_remove l
      else _item_unlink l;; _item_remove l;; record (ThreadIncr "released_q_lease")
  end.

Definition item_delete_and_release (c : conn) (tid : list Z) : M st rstatus :=
  lock_cache;;
  trans_it ← _item_get tid;
  match trans_it with
  | None => unlock_cache;; mret MC_INVALID
  | Some t =>
      foreach_key t (dar_key c tid);;
      _item_unlink t;;
      item_unset_pinned t;;
      _item_remove t;;
      record (ThreadIncr "trans_remove");;
      unlock_cache;;
      mret MC_OK
  end.

(** ** Commit and release *)

(** [if (it == NULL)] of [item_commit]: the pending item is made or dropped. *)
Definition commit_pending (c : conn) (key : list Z) (pending server_cfg_id : Z) : M st unit :=
  pending_it ← _item_get_pending key;
  pending_it ← (match pending_it with
                | None =>
                    if pending =? 1 then
                      id ← item_slabid (Z.of_nat (length (mc_get_pending_key key))) 1;
                      o ← _item_alloc_config id (mc_get_pending_key key) 0 0 1 true false server_cfg_id;
                      na ← lift o;
                      _item_store na REQ_SET c true;;
                      mret (Some na)
                    else mret None
                | Some p => when (pending =? 0) (_item_unlink p);; mret (Some p)
                end);
  opt_remove pending_it.

(** The new version replaces the item. *)
Definition commit_apply (c : conn) (key : list Z) (pv : addr) (pending server_cfg_id : Z) : M st unit :=
  pit ← get_item pv;
  id ← item_slabid (Z.of_nat (length key)) (i_nbyte pit);
  o ← _item_alloc_config id key (i_dataflags pit) 0 (i_nbyte pit) true false server_cfg_id;
  na ← lift o;
  copy_data na 0 pv;;
  upd_item na (set_p (u8 pending));;
  _item_store na REQ_SET c true;;
  _item_remove na.

Definition commit_key (c : conn) (tid : list Z) (pending server_cfg_id : Z) (key : list Z) : M st unit :=
  lease_it ← _item_get_lease key;
  pv_it ← _item_get_pending_version key;
  match lease_it with
  | None => mret tt
  | Some l =>
      q ← field item_has_q_lease l;
      if negb q then _item_remove l
      else
        inv ← field item_has_q_inv_lease l;
        (if (inv : bool) then _item_remove_tid_lease c lease_it key tid else _item_unlink l);;
        _item_remove l;;
        (match pv_it with
         | Some pv => commit_apply c key pv pending server_cfg_id
         | None => mret tt
         end);;
        it ← _item_get key;
        (match it with
         | Some a =>
             (match pv_it with
              | None => _item_unlink a
              | Some _ => inv ← field item_has_q_inv_lease l; when inv (_item_unlink a)
              end);;
             p ← _item_get_pending key; unlink_remove p;;
             _item_remove a
         | None => commit_pending c key pending server_cfg_id
         end);;
        unlink_remove pv_it
  end.

Definition item_commit (c : conn) (tid : list Z) (pending server_cfg_id : Z) : M st item_iq_result :=
  lock_cache;;
  trans_it ← _item_get tid;
  match trans_it with
  | None => unlock_cache;; mret IQ_NOT_FOUND
  | Some t =>
      foreach_key t (commit_key c tid pending server_cfg_id);;
      item_unset_pinned t;;
      _item_unlink t;;
      _item_remove t;;
      record (ThreadIncr "trans_remove");;
      unlock_cache;;
      mret IQ_OK
  end.

(** [_item_remove_tid_lease] is called with the transaction item. *)
Definition release_key (c : conn) (t : addr) (tid key : list Z) : M st unit :=
  lease_it ← _item_get_lease key;
  pv_it ← _item_get_pending_version key;
  match lease_it with
  | None => mret tt
  | Some l =>
      lit ← get_item l;
      if negb (item_has_q_lease lit) then _item_remove l
      else
        (if item_has_q_inv_lease lit then _item_remove_tid_lease c (Some t) key tid
         else when (item_has_q_incr_lease lit || item_has_q_ref_lease lit)
                (record (ThreadIncr "released_q_lease")));;
        _item_unlink l;;
        _item_remove l;;
        unlink_remove pv_it
  end.

Definition item_release (c : conn) (tid : list Z) : M st item_iq_result :=
  lock_cache;;
  trans_it ← _item_get tid;
  match trans_it with
  | None => unlock_cache;; mret IQ_NOT_FOUND
  | Some t =>
      foreach_key t (release_key c t tid);;
      item_unset_pinned t;;
      _item_unlink t;;
      _item_remove t;;
      record (ThreadIncr "trans_remove");;
      unlock_cache;;
      mret IQ_OK
  end.

(** ** Quarantine and read *)

(** A copy of the item, stored as its pending version, expiring with the lease. *)
Definition create_version (c : conn) (a l : addr) : M st addr :=
  o ← _item_create_pending_version a;
  pv ← lift o;
  p ← field i_p a;
  upd_item pv (set_p p);;
  e ← field i_exptime l;
  upd_item pv (set_exptime e);;
  copy_data pv 0 a;;
  _item_store pv REQ_SET c true;;
  mret pv.

Record qaread := QaRead { qr_status : rstatus; qr_token : Z; qr_it : option addr; qr_pending : Z }.

(** [*it] is NULL and [*pending] is 0 on entry. *)
Definition item_quarantine_and_read (c : conn) (tid key : list Z) (lease_token : Z) : M st qaread :=
  lock_cache;;
  trans_it ← _item_get tid;
  lease_it ← _item_get_lease key;
  q ← test item_has_q_lease lease_it;
  '(lease_it, r) ← (match lease_it, q with
    | Some l, true =>
        lit ← get_item l;
        same ← (if item_has_q_ref_lease lit || item_has_q_incr_lease lit then
                  v ← _item_lease_value lease_it; mret (v =? lease_token)
                else mret false);
        if (same : bool) then
          pv_it ← _item_get_pending_version key;
          pending ← (match pv_it with Some pv => field i_p pv | None => pending_of key end);
          mret (lease_it, QaRead MC_OK lease_token pv_it pending)
        else mret (lease_it, QaRead MC_OK (lease_type_val LEASE_HOTMISS) None 0)
    | _, _ =>
        (match lease_it with Some _ => record (ThreadIncr "qlease_voids") | None => mret tt end);;
        '(o, token) ← _item_create_lease key;
        l ← lift o;
        upd_item l item_set_q_ref_lease;;
        _item_store l (c_req_type c) c true;;
        orig_it ← _item_get key;
        '(it, pending) ← (match orig_it with
                          | Some a =>
                              pending ← field i_p a;
                              pv ← create_version c a l;
                              _item_remove a;;
                              mret (Some pv, pending)
                          | None => pending ← pending_of key; mret (None, pending)
                          end);
        record (ThreadIncr "active_q_lease");;
        record (ThreadIncr "total_lease");;
        record (ThreadIncr "total_q_lease");;
        (match it with
         | Some a => e ← field i_exptime l; upd_item a (set_exptime e)
         | None => mret tt
         end);;
        _item_assoc_key_tid c trans_it key tid;;
        mret (Some l, QaRead MC_OK token it pending)
    end);
  opt_remove lease_it;;
  opt_remove trans_it;;
  unlock_cache;;
  mret r.

(** ** Swap *)

(** Whether the lease of the key carries the token of the connection. *)
Definition token_matches (c : conn) (lease_it : option addr) : M st bool :=
  match lease_it with
  | None => mret false
  | Some _ => v ← _item_lease_value lease_it; mret (v =? c_lease_token c)
  end.

Definition item_swap_and_release (a : addr) (c : conn) : M st item_store_result :=
  lock_cache;;
  it ← get_item a;
  lease_it ← _item_get_lease (i_key it);
  ok ← token_matches c lease_it;
  match lease_it, ok with
  | Some l, true =>
      _item_unlink l;;
      _item_remove l;;
      record (ThreadIncr "released_q_lease");;
      if i_nbyte it =? 0 then unlock_cache;; mret STORE_ERROR
      else
        oit ← _item_get (i_key it);
        (match oit with
         | None => _item_store a REQ_SET c true;; mret tt
         | Some oa => _item_replace oa a
         end);;
        opt_remove oit;;
        unlock_cache;;
        mret STORED
  | _, _ => opt_remove lease_it;; unlock_cache;; mret NOT_FOUND
  end.

Definition item_swap (a : addr) (c : conn) : M st item_store_result :=
  lock_cache;;
  it ← get_item a;
  lease_it ← _item_get_lease (i_key it);
  ok ← token_matches c lease_it;
  match lease_it, ok with
  | Some l, true =>
      _item_remove l;;
      if i_nbyte it =? 0 then unlock_cache;; mret STORED
      else
        pv_it ← _item_get_pending_version (i_key it);
        pending ← (match pv_it with
                   | Some pv => p ← field i_p pv; _item_unlink pv;; _item_remove pv;; mret p
                   | None =>
                       pending_it ← _item_get_pending (i_key it);
                       match pending_it with
                       | Some p => _item_unlink p;; _item_remove p;; mret 1
                       | None => mret 0
                       end
                   end);
        o ← _item_create_pending_version a;
        pv ← lift o;
        copy_data pv 0 a;;
        upd_item pv (set_p pending);;
        _item_store pv REQ_SET c true;;
        _item_remove pv;;
        unlock_cache;;
        mret STORED
  | _, _ => opt_remove lease_it;; unlock_cache;; mret NOT_FOUND
  end.

Definition item_ftrans (c : conn) (tid key : list Z) : M st unit :=
  lock_cache;;
  ptrans_it ← _item_get_ptrans key;
  _item_remove_tid_ptrans c ptrans_it key tid;;
  opt_remove ptrans_it;;
  unlock_cache.

(** ** Get *)

(** What a get answers: the status, [*item], [*new_lease_token] when set, and
    the lease item whose reference is still held. *)
Record iqget := IqGet { ig_status : item_iq_result; ig_item : option addr; ig_token : option Z; ig_lease : option addr }.

(** The key has a lease: the holder is told to go on, others to back off. *)
Definition iqget_leased (l : addr) (lease_token pending : Z) : M st iqget :=
  upd_item l (set_p pending);;
  token ← _item_lease_value (Some l);
  if token =? lease_token then mret (IqGet IQ_NO_VALUE (Some l) None (Some l))
  else
    record (ThreadIncr "ilease_aborts");;
    mret (IqGet IQ_MISS (Some l) (Some (lease_type_val LEASE_HOTMISS)) (Some l)).

(** The key has none: the reader gets an I lease; [drop] is unlinked first. *)
Definition iqget_lease (c : conn) (key : list Z) (pending : Z) (drop : option addr) : M st iqget :=
  '(o, token) ← _item_create_lease key;
  match o with
  | None => mret (IqGet IQ_SERVER_ERROR None (Some token) None)
  | Some l =>
      upd_item l item_set_i_lease;;
      (match drop with Some a => _item_unlink a | None => mret tt end);;
      _item_store l REQ_SET c true;;
      record (ThreadIncr "total_lease");;
      record (ThreadIncr "total_i_lease");;
      upd_item l (set_p pending);;
      mret (IqGet IQ_LEASE (Some l) (Some token) (Some l))
  end.

(** The key is not one of the transaction's. *)
Definition iqget_other (c : conn) (key : list Z) (lease_token : Z) (it : option addr) (pending : Z)
    (override foreground : bool) : M st iqget :=
  match it with
  | Some a =>
      lease_it ← _item_get_lease key;
      mine ← (match lease_it with
              | Some l =>
                  q ← field item_has_q_ref_lease l;
                  if (q : bool) then v ← _item_lease_value lease_it; mret (v =? lease_token) else mret false
              | None => mret false
              end);
      if (mine : bool) then
        record (ThreadIncr "iqget_miss");; mret (IqGet IQ_NO_VALUE None None lease_it)
      else if override then
        match lease_it with
        | None => iqget_lease c key pending (Some a)
        | Some l => iqget_leased l lease_token pending
        end
      else
        _item_touch a;;
        id ← field i_id a;
        when foreground (record (SlabIncr id "get_hit");; record (ThreadIncr "iqget_hit"));;
        mret (IqGet IQ_VALUE (Some a) None lease_it)
  | None =>
      record (ThreadIncr "iqget_miss");;
      lease_it ← _item_get_lease key;
      match lease_it with
      | None => iqget_lease c key pending None
      | Some l => iqget_leased l lease_token pending
      end
  end.

(** The key is one of the transaction's. *)
Definition iqget_own (key : list Z) (it : option addr) (foreground : bool) : M st iqget :=
  lease_it ← _item_get_lease key;
  match lease_it with
  | None => mret (IqGet IQ_NO_VALUE None None None)
  | Some l =>
      lit ← get_item l;
      if item_has_q_inv_lease lit then mret (IqGet IQ_NO_VALUE None None lease_it)
      else if item_has_q_incr_lease lit then
        pv_it ← _item_get_pending_version key;
        match pv_it with
        | Some pv =>
            when foreground (
              a ← lift it;
              id ← field i_id a;
              record (SlabIncr id "get_hit");; record (ThreadIncr "iqget_hit"));;
            mret (IqGet IQ_VALUE (Some pv) None lease_it)
        | None => record (ThreadIncr "iqget_miss");; mret (IqGet IQ_NO_VALUE None None lease_it)
        end
      else mret (IqGet IQ_NO_VALUE None None lease_it)
  end.

Definition item_iqget (c : conn) (key : list Z) (lease_token : Z) (tid : list Z) (override foreground : bool)
  : M st iqget :=
  lock_cache;;
  when foreground (record (ThreadIncr "iqget"));;
  trans_it ← (if 0 <? Z.of_nat (length tid) then _item_get tid else mret None);
  it ← _item_get key;
  pending ← (match it with Some a => field i_p a | None => pending_of key end);
  own ← (match trans_it with
         | None => mret false
         | Some t =>
             '(d, n) ← list_data t;
             r ← lift (trig_check_keylist d n key (klen8 key));
             mret (bool_decide (r = TRIG_OK))
         end);
  r ← (if (own : bool) then iqget_own key it foreground
       else iqget_other c key lease_token it pending override foreground);
  (match ig_item r with Some a => item_acquire_refcount a | None => mret tt end);;
  opt_remove trans_it;;
  opt_remove it;;
  opt_remove (ig_lease r);;
  unlock_cache;;
  mret r.

(** ** Increment, append and prepend under a Q lease *)

Definition _item_append_prepend_iq (c : conn) (a : addr) (data : mem) : M st item_iq_result :=
  it ← get_item a;
  let nbyte := Z.of_nat (length data) in
  let total_size := i_nbyte it + nbyte in
  id ← item_slabid (i_nkey it) total_size;
  o ← _item_alloc id (i_key it) (i_dataflags it) (i_exptime it) total_size true false;
  na ← lift o;
  p ← field i_p a;
  upd_item na (set_p p);;
  (match c_req_type c with
   | REQ_IQAPPEND => copy_data na 0 a;; n ← field i_nbyte a; write_data na n data
   | REQ_IQPREPEND => write_data na 0 data;; copy_data na nbyte a
   | _ => mret tt
   end);;
  _item_store na REQ_SET c true;;
  _item_remove na;;
  mret IQ_LEASE.

Definition _item_add_delta_iq (c : conn) (key : list Z) (delta : Z) : M st item_iq_result :=
  dret ← (match c_req_type c with
          | REQ_IQINCR => r ← _item_add_delta (mc_get_version_key key) true delta; mret r.1
          | REQ_IQDECR => r ← _item_add_delta (mc_get_version_key key) false delta; mret r.1
          | _ => mret DELTA_OK
          end);
  mret (match dret with
        | DELTA_EOM => IQ_SERVER_ERROR
        | DELTA_NON_NUMERIC => IQ_CLIENT_ERROR
        | DELTA_OK => IQ_LEASE
        | DELTA_NOT_FOUND => IQ_ABORT
        end).

(** The result, [*pending] and [*new_lease_token] when set. *)
Record iqdelta := IqDelta { id_result : item_iq_result; id_pending : Z; id_token : option Z }.

(** The body [_item_iqincr_iqdecr] and [item_iqappend_iqprepend] share: a lease
    of the key is taken or recognised, and [apply] updates its version.  Only
    append and prepend ([append]) give up the reference to a voided I lease, and
    take a lease that is not an I lease for a Q lease. *)
Definition iq_update (c : conn) (key tid : list Z) (append : bool)
    (apply : addr -> M st item_iq_result) : M st iqdelta :=
  it ← _item_get key;
  trans_it ← _item_get tid;
  lease_it ← _item_get_lease key;
  free ← (match lease_it with Some l => field item_has_i_lease l | None => mret true end);
  '(lease_it, pv_it, r) ← (
    if (free : bool) then
      (match lease_it with
       | Some l => _item_unlink l;; when append (_item_remove l);; record (ThreadIncr "qlease_voids")
       | None => mret tt
       end);;
      '(o, token) ← _item_create_lease key;
      l ← lift o;
      upd_item l item_set_q_inc_lease;;
      stored ← _item_store l REQ_SET c true;
      if bool_decide (stored = NOT_STORED) then mret (Some l, None, IqDelta IQ_SERVER_ERROR 0 (Some token))
      else
        record (ThreadIncr "active_q_lease");;
        record (ThreadIncr "total_lease");;
        record (ThreadIncr "total_q_lease");;
        _item_assoc_key_tid c trans_it key tid;;
        match it with
        | Some a =>
            pv ← create_version c a l;
            p ← field i_p a;
            ret ← apply pv;
            mret (Some l, Some pv, IqDelta ret p (Some token))
        | None =>
            p ← pending_of key;
            mret (Some l, None, IqDelta IQ_LEASE_NO_VALUE p (Some token))
        end
    else
      q ← test item_has_q_lease lease_it;
      lacks ← (if append || q then list_lacks trans_it key else mret true);
      if negb append && negb q then mret (lease_it, None, IqDelta IQ_LEASE 0 None)
      else if (lacks : bool) then
        record (ThreadIncr "qlease_aborts");;
        mret (lease_it, None, IqDelta IQ_ABORT 0 None)
      else
        token ← _item_lease_value lease_it;
        pv_it ← _item_get_pending_version key;
        match pv_it with
        | None => p ← pending_of key; mret (lease_it, None, IqDelta IQ_LEASE_NO_VALUE p (Some token))
        | Some pv =>
            p ← field i_p pv;
            ret ← apply pv;
            mret (lease_it, Some pv, IqDelta ret p (Some token))
        end);
  opt_remove it;;
  opt_remove trans_it;;
  opt_remove pv_it;;
  opt_remove lease_it;;
  mret r.

Definition _item_iqincr_iqdecr (c : conn) (key : list Z) (delta : Z) (tid : list Z) : M st iqdelta :=
  (match c_req_type c with
   | REQ_IQINCR => record (ThreadIncr "iqincr")
   | REQ_IQDECR => record (ThreadIncr "iqdecr")
   | _ => mret tt
   end);;
  iq_update c key tid false (fun _ => _item_add_delta_iq c key delta).

Definition item_iqincr_iqdecr (c : conn) (key : list Z) (delta : Z) (tid : list Z) : M st iqdelta :=
  lock_cache;; r ← _item_iqincr_iqdecr c key delta tid; unlock_cache;; mret r.

Definition item_iqappend_iqprepend (c : conn) (a : addr) : M st iqdelta :=
  lock_cache;;
  (match c_req_type c with
   | REQ_IQAPPEND => record (ThreadIncr "iqappend")
   | REQ_IQPREPEND => record (ThreadIncr "iqprepend")
   | _ => mret tt
   end);;
  key ← field i_key a;
  r ← iq_update c key (c_tid c) true
        (fun pv => '(d, _) ← list_data a; _item_append_prepend_iq c pv d);
  unlock_cache;;
  mret r.
