(* ===== verification/CO.v ===== *)
(** * mc_items.c: the C and O leases of sessions

    A session reads under C (consistent) leases and writes under O (ownership)
    leases.  The lease of a key is an item under the CO lease key whose value is
    the packed list of the sessions that share it; a session is an item under
    its id whose value is the packed list of its keys and whose status says
    whether a conflicting writer has aborted it.  Values written by a session
    are pending versions that [item_dcommit] installs.

    Assertions are compiled out, as they are by default. *)

From S2P Require Import Prelude Util Time Lease Keylist Assoc Item State Slabs Items IQ.
Open Scope Z_scope.

(** ** Sessions *)

(** [trig_check_keylist(item_data(a), a->nbyte, entry, ...) == TRIG_OK] *)
Definition list_holds (a : addr) (entry : list Z) : M st bool :=
  '(d, n) ← list_data a;
  r ← lift (trig_check_keylist d n entry (klen8 entry));
  mret (bool_decide (r = TRIG_OK)).

(** [sess_it != NULL && sess_it->sess_status == ABORT] *)
Definition sess_aborted (o : option addr) : M st bool := test (fun it => i_sess_status it =? ABORT) o.

(** Unlinking does not unpin a session. *)
Definition remove_session (a : addr) : M st unit := _item_unlink a;; item_unset_pinned a;; _item_remove a.

Definition _item_assoc_key_sid (c : conn) (sess_it : option addr) (key sid : list Z) : M st unit :=
  lacks ← list_lacks sess_it key;
  when lacks (
    old ← list_len sess_it;
    o ← _item_create_reserved_item sid (u32 (old + trig_new_keylist_size (klen8 key))) true;
    na ← lift o;
    upd_item na (set_sess_status ALIVE);;
    upd_item na item_set_sess;;
    list_add na sess_it key;;
    (match sess_it with Some a => item_unset_pinned a | None => mret tt end);;
    _item_store na REQ_SET c true;;
    _item_remove na).

(** The flag of a CO lease of the given type. *)
Definition set_co_type (type : Z) (it : item) : item :=
  if type =? C_LEASE then item_set_c_lease it
  else if type =? O_LEASE_INV then item_set_o_lease_inv it
  else if type =? O_LEASE_REF then item_set_o_lease_ref it
  else it.

Definition record_co_lease (type : Z) (new : bool) : M st unit :=
  if type =? C_LEASE then
    record (ThreadIncr "active_c_lease");; when new (record (ThreadIncr "total_c_lease"))
  else if (type =? O_LEASE_INV) || (type =? O_LEASE_REF) then
    record (ThreadIncr "active_o_lease");; when new (record (ThreadIncr "total_o_lease"))
  else mret tt.

Definition _item_assoc_sid_colease (c : conn) (colease_it : option addr) (key sid : list Z) (type : Z) : M st unit :=
  lacks ← list_lacks colease_it sid;
  when lacks (
    old ← list_len colease_it;
    o ← _item_create_reserved_item (mc_get_co_lease_key key) (u32 (old + trig_new_keylist_size (klen8 sid))) true;
    na ← lift o;
    upd_item na (set_co_type type);;
    list_add na colease_it sid;;
    _item_store na REQ_SET c true;;
    record_co_lease type (bool_decide (colease_it = None));;
    _item_remove na).

Definition _item_remove_sid_colease (c : conn) (colease_it : option addr) (key sid : list Z) : M st unit :=
  _item_remove_entry_from_list c colease_it (mc_get_co_lease_key key) sid.

(** ** Aborting and cleaning sessions *)

(** [memcmp(sid, psid, nsid) != 0] where [psid] points into the list at [off];
    [None] when the comparison runs past the list. *)
Fixpoint differs (sid : list Z) (d : mem) (off : Z) : option bool :=
  match sid with
  | [] => Some false
  | x :: sid' => y ← mem_byte d off; if x =? y then differs sid' d (off + 1) else Some true
  end.

(** A key of a session that is aborted because of [colease_it]. *)
Definition abort_key (c : conn) (colease_it : addr) (psid tkey : list Z) : M st unit :=
  tcolease_it ← _item_get_co_lease tkey;
  match tcolease_it with
  | None => mret tt
  | Some t =>
      if decide (t = colease_it) then _item_remove t
      else
        holds ← list_holds t psid;
        when holds (_item_remove_sid_colease c (Some t) tkey psid);;
        tlease_it ← _item_get_lease tkey;
        unlink_remove tlease_it;;
        _item_remove t
  end.

Definition abort_sessions (c : conn) (colease_it : addr) (sid : list Z) : M st unit :=
  fold_keys colease_it (fun off psid _ =>
    psess_it ← _item_get psid;
    match psess_it with
    | None => mret tt
    | Some p =>
        '(d, _) ← list_data colease_it;
        other ← lift (differs sid d off);
        when other (
          upd_item p (set_sess_status ABORT);;
          foreach_key p (abort_key c colease_it psid));;
        _item_remove p
    end) tt.

(** A key of a session that gives up its leases. *)
Definition clean_key (c : conn) (sid key : list Z) : M st unit :=
  lease_it ← _item_get_lease key;
  unlink_remove lease_it;;
  colease_it ← _item_get_co_lease key;
  (match colease_it with
   | Some l => _item_remove_sid_colease c colease_it key sid;; _item_remove l
   | None => mret tt
   end);;
  pv_it ← _item_get_pending_version key;
  unlink_remove pv_it.

(** On a session that is already aborted [clean_session] also gives up the lock. *)
Definition clean_session (c : conn) (sid : list Z) : M st unit :=
  sess_it ← _item_get sid;
  match sess_it with
  | None => mret tt
  | Some s =>
      aborted ← sess_aborted sess_it;
      if (aborted : bool) then
        remove_session s;; record (ThreadIncr "sess_abort");; unlock_cache
      else
        foreach_key s (clean_key c sid);;
        remove_session s;;
        record (ThreadIncr "sess_unlease")
  end.

(** The session of a command: [None] when it has been aborted, which the command
    reports after removing it.  [item_oqswap] and [item_oqwrite] do not count
    it. *)
Definition live_session (sid : list Z) (count : bool) : M st bool :=
  sess_it ← _item_get sid;
  aborted ← sess_aborted sess_it;
  match sess_it, aborted with
  | Some s, true => remove_session s;; when count (record (ThreadIncr "sess_abort"));; mret false
  | _, _ => opt_remove sess_it;; mret true
  end.

(** ** Reading *)

(** The status, [*item] and [*new_lease_token] when set. *)
Record ciget := CiGet { cg_status : item_co_result; cg_item : option addr; cg_token : option Z }.

(** The key has an O lease: only its owner reads, the pending version. *)
Definition ciget_owned (c : conn) (sid key : list Z) (l : addr) : M st ciget :=
  mine ← list_holds l sid;
  if (mine : bool) then
    it ← _item_get_pending_version key;
    (match it with Some _ => record (ThreadIncr "get_hit") | None => mret tt end);;
    _item_remove l;;
    mret (CiGet CO_OK it None)
  else
    _item_remove l;;
    clean_session c sid;;
    mret (CiGet CO_ABORT None None).

(** The key has a Q lease; the list of the session is read with the length of
    its id. *)
Definition ciget_quarantined (sid key : list Z) : M st ciget :=
  sess_it ← _item_get sid;
  mine ← (match sess_it with
          | Some s =>
              it ← get_item s;
              r ← lift (trig_check_keylist (drop (Z.to_nat (data_pos it)) (i_payload it))
                          (Z.of_nat (length sid)) key (klen8 key));
              mret (bool_decide (r = TRIG_OK))
          | None => mret false
          end);
  if (mine : bool) then
    it ← _item_get key;
    (match it with Some _ => record (ThreadIncr "get_hit") | None => mret tt end);;
    opt_remove sess_it;;
    mret (CiGet CO_OK it None)
  else opt_remove sess_it;; mret (CiGet CO_RETRY None None).

(** The key can be leased: the session gets a C lease, and an I lease when there
    is no value. *)
Definition ciget_lease (c : conn) (sid key : list Z) (colease_it : option addr) : M st ciget :=
  sess_it ← _item_get sid;
  _item_assoc_key_sid c sess_it key sid;;
  when (bool_decide (sess_it = None)) (record (ThreadIncr "total_sess"));;
  it ← _item_get key;
  '(item, token) ← (match it with
                    | None =>
                        '(o, token) ← _item_create_lease key;
                        match o with
                        | Some l =>
                            upd_item l item_set_i_lease;;
                            _item_store l REQ_SET c true;;
                            record (ThreadIncr "get_miss");;
                            record (ThreadIncr "total_i_lease");;
                            mret (Some l, Some token)
                        | None => mret (None, Some token)
                        end
                    | Some _ => record (ThreadIncr "get_hit");; mret (it, None)
                    end);
  _item_assoc_sid_colease c colease_it key sid C_LEASE;;
  opt_remove colease_it;;
  opt_remove sess_it;;
  mret (CiGet CO_OK item token).

Definition item_ciget (c : conn) (sid key : list Z) (lease_token : Z) : M st ciget :=
  lock_cache;;
  record (ThreadIncr "ciget");;
  live ← live_session sid true;
  r ← (if negb live then mret (CiGet CO_ABORT None None)
       else
         colease_it ← _item_get_co_lease key;
         owned ← test item_has_o_lease colease_it;
         match colease_it, owned with
         | Some l, true => ciget_owned c sid key l
         | _, _ =>
             iqlease_it ← _item_get_lease key;
             i ← test item_has_i_lease iqlease_it;
             q ← test item_has_q_lease iqlease_it;
             if (i : bool) then
               v ← _item_lease_value iqlease_it;
               opt_remove iqlease_it;;
               opt_remove colease_it;;
               mret (CiGet (if v =? lease_token then CO_OK else CO_RETRY) None None)
             else if (q : bool) then
               r ← ciget_quarantined sid key;
               opt_remove iqlease_it;;
               opt_remove colease_it;;
               mret r
             else ciget_lease c sid key colease_it
         end);
  unlock_cache;;
  mret r.

(** ** Writing *)

(** Either the command is over with this answer, or it goes on. *)
Definition oqread_lease (c : conn) (key : list Z) : M st (item_co_result * option addr) :=
  lease_it ← _item_get_lease key;
  quarantined ← test item_has_q_ref_lease lease_it;
  '(lease_it, r) ← (if (quarantined : bool) then
      opt_remove lease_it;; mret (lease_it, (CO_ABORT, None))
    else
      it ← _item_get key;
      (match lease_it with Some _ => record (ThreadIncr "qlease_voids") | None => mret tt end);;
      o ← _item_create_reserved_item (mc_get_lease_key key) 0 true;
      l ← lift o;
      upd_item l item_set_q_ref_lease;;
      _item_store l REQ_SET c true;;
      record (ThreadIncr "active_q_lease");;
      record (ThreadIncr "total_lease");;
      record (ThreadIncr "total_q_lease");;
      (match it with
       | Some a => e ← field i_exptime l; upd_item a (set_exptime e)
       | None => mret tt
       end);;
      mret (Some l, (CO_OK, it)));
  opt_remove lease_it;;
  mret r.

(** Neither the session nor the CO lease looked up at the end is given up. *)
Definition oqread_go (c : conn) (sid key : list Z) : M st (item_co_result * option addr) :=
  r ← oqread_lease c key;
  when (bool_decide (r.1 = CO_OK)) (
    sess_it ← _item_get sid;
    _item_assoc_key_sid c sess_it key sid;;
    colease_it ← _item_get_co_lease key;
    _item_assoc_sid_colease c colease_it key sid O_LEASE_REF);;
  mret r.

(** The status and [*it]. *)
Definition item_oqread (c : conn) (sid key : list Z) : M st (item_co_result * option addr) :=
  lock_cache;;
  live ← live_session sid true;
  r ← (if negb live then mret (CO_ABORT, None)
       else
         colease_it ← _item_get_co_lease key;
         match colease_it with
         | None => oqread_go c sid key
         | Some l =>
             lit ← get_item l;
             if item_has_c_lease lit then
               abort_sessions c l sid;;
               _item_unlink l;;
               _item_remove l;;
               oqread_go c sid key
             else if item_has_o_lease lit then
               mine ← list_holds l sid;
               if (mine : bool) then
                 it ← _item_get key; _item_remove l;; mret (CO_OK, it)
               else _item_remove l;; clean_session c sid;; mret (CO_ABORT, None)
             else oqread_go c sid key
         end);
  unlock_cache;;
  mret r.

(** The new value becomes the pending version of its key. *)
Definition put_version (c : conn) (a : addr) : M st unit :=
  o ← _item_create_pending_version a;
  pv ← lift o;
  copy_data pv 0 a;;
  _item_store pv REQ_SET c true;;
  _item_remove pv.

Definition item_oqswap (c : conn) (sid : list Z) (a : addr) : M st item_co_result :=
  lock_cache;;
  live ← live_session sid false;
  key ← field i_key a;
  r ← (if negb live then mret CO_ABORT
       else
         colease_it ← _item_get_co_lease key;
         co ← (match colease_it with
               | None => mret (Some CO_ABORT)
               | Some l =>
                   lit ← get_item l;
                   if item_has_c_lease lit then _item_remove l;; mret (Some CO_ABORT)
                   else if item_has_o_lease lit then
                     mine ← list_holds l sid;
                     if (mine : bool) then _item_remove l;; mret None
                     else _item_unlink l;; _item_remove l;; mret (Some CO_ABORT)
                   else _item_unlink l;; _item_remove l;; mret (Some CO_INVALID)
               end);
         match co with
         | Some r => mret r
         | None =>
             lease_it ← _item_get_lease key;
             q ← test item_has_q_ref_lease lease_it;
             if negb q then opt_remove lease_it;; mret CO_INVALID
             else
               unlink_remove lease_it;;
               record (ThreadIncr "released_q_lease");;
               n ← field i_nbyte a;
               if n =? 0 then mret CO_INVALID else put_version c a;; mret CO_OK
         end);
  unlock_cache;;
  mret r.

(** The value of [item_oqwrite]: an empty one drops the pending version. *)
Definition oqwrite_value (c : conn) (a : addr) : M st unit :=
  it ← get_item a;
  if i_nbyte it =? 0 then
    pv_it ← _item_get_pending_version (i_key it); unlink_remove pv_it
  else put_version c a.

(** What [item_oqwrite] does once the session owns the key. *)
Definition oqwrite_go (c : conn) (sid : list Z) (a : addr) : M st item_co_result :=
  key ← field i_key a;
  oqwrite_value c a;;
  sess_it ← _item_get sid;
  _item_assoc_key_sid c sess_it key sid;;
  opt_remove sess_it;;
  mret CO_OK.

Definition item_oqwrite (c : conn) (sid : list Z) (a : addr) : M st item_co_result :=
  lock_cache;;
  live ← live_session sid false;
  key ← field i_key a;
  r ← (if negb live then mret CO_ABORT
       else
         colease_it ← _item_get_co_lease key;
         shared ← test item_has_c_lease colease_it;
         colease_it ← (match colease_it, shared with
                       | Some l, true =>
                           abort_sessions c l sid;;
                           _item_unlink l;;
                           _item_remove l;;
                           lease_it ← _item_get_lease key;
                           unlink_remove lease_it;;
                           mret None
                       | _, _ => mret colease_it
                       end);
         match colease_it with
         | None =>
             _item_assoc_sid_colease c None key sid O_LEASE_REF;;
             oqwrite_go c sid a
         | Some l =>
             mine ← list_holds l sid;
             if negb mine then _item_remove l;; clean_session c sid;; mret CO_ABORT
             else
               _item_remove l;;
               lease_it ← _item_get_lease key;
               q ← test item_has_q_ref_lease lease_it;
               match lease_it, q with
               | Some l, false => _item_remove l;; mret CO_INVALID
               | _, _ =>
                   unlink_remove lease_it;;
                   record (ThreadIncr "released_q_lease");;
                   oqwrite_go c sid a
               end
         end);
  unlock_cache;;
  mret r.

(** ** Updates in place *)

Definition _item_append_prepend_co (c : conn) (a : addr) (data : mem) : M st item_co_result :=
  it ← get_item a;
  let nbyte := Z.of_nat (length data) in
  let total_size := i_nbyte it + nbyte in
  id ← item_slabid (i_nkey it) total_size;
  o ← _item_alloc id (i_key it) (i_dataflags it) (i_exptime it) total_size true false;
  match o with
  | None => mret CO_ABORT
  | Some na =>
      (match c_req_type c with
       | REQ_OQAPPEND => copy_data na 0 a;; n ← field i_nbyte a; write_data na n data
       | REQ_OQPREPEND => write_data na 0 data;; copy_data na nbyte a
       | _ => mret tt
       end);;
      _item_store na REQ_SET c true;;
      _item_remove na;;
      mret CO_OK
  end.

Definition _item_add_delta_co (c : conn) (key : list Z) (delta : Z) : M st item_co_result :=
  dret ← (match c_req_type c with
          | REQ_OQINCR => r ← _item_add_delta (mc_get_version_key key) true delta; mret r.1
          | REQ_OQDECR => r ← _item_add_delta (mc_get_version_key key) false delta; mret r.1
          | _ => mret DELTA_OK
          end);
  mret (match dret with DELTA_EOM | DELTA_NON_NUMERIC => CO_ABORT | DELTA_OK | DELTA_NOT_FOUND => CO_OK end).

(** [None] when the command is aborted, else the O lease of the key if the
    session has it. *)
Definition oq_enter (c : conn) (sid key : list Z) : M st (option (option addr)) :=
  live ← live_session sid true;
  if negb live then mret None
  else
    colease_it ← _item_get_co_lease key;
    match colease_it with
    | None => mret (Some None)
    | Some l =>
        lit ← get_item l;
        if item_has_c_lease lit then
          abort_sessions c l sid;; _item_unlink l;; _item_remove l;; mret (Some None)
        else if item_has_o_lease lit then
          mine ← list_holds l sid;
          if (mine : bool) then mret (Some colease_it)
          else _item_remove l;; clean_session c sid;; mret None
        else mret (Some colease_it)
    end.

(** [if (it != NULL && item_is_linked(it)) _item_remove(it)] *)
Definition remove_linked (o : option addr) : M st unit :=
  match o with Some a => l ← field item_is_linked a; when l (_item_remove a) | None => mret tt end.

(** The body [_item_oqincr_oqdecr] and [item_oqappend_oqprepend] share; [apply]
    is given the pending version, made from the item when there is none. *)
Definition oq_update (c : conn) (sid key : list Z) (apply : option addr -> M st item_co_result)
  : M st item_co_result :=
  e ← oq_enter c sid key;
  match e with
  | None => mret CO_ABORT
  | Some colease_it =>
      it ← _item_get key;
      lease_it ← _item_get_lease key;
      free ← (match lease_it with Some l => field item_has_i_lease l | None => mret true end);
      '(pv_it, ret) ← (if (free : bool) then
          (match lease_it with
           | Some l => _item_unlink l;; record (ThreadIncr "qlease_voids")
           | None => mret tt
           end);;
          pv_it ← _item_get_pending_version key;
          pv_it ← (match pv_it, it with
                   | None, Some a =>
                       o ← _item_create_pending_version a;
                       pv ← lift o;
                       copy_data pv 0 a;;
                       _item_store pv REQ_SET c true;;
                       mret (Some pv)
                   | _, _ => mret pv_it
                   end);
          ret ← apply pv_it;
          mret (pv_it, ret)
        else mret (None, CO_OK));
      (match colease_it with
       | None => _item_assoc_sid_colease c None key sid O_LEASE_REF
       | Some _ => mret tt
       end);;
      sess_it ← _item_get sid;
      _item_assoc_key_sid c sess_it key sid;;
      opt_remove sess_it;;
      remove_linked it;;
      remove_linked pv_it;;
      opt_remove lease_it;;
      opt_remove colease_it;;
      mret ret
  end.

Definition _item_oqincr_oqdecr (c : conn) (key : list Z) (delta : Z) (sid : list Z) : M st item_co_result :=
  (match c_req_type c with
   | REQ_OQINCR => record (ThreadIncr "oqincr")
   | REQ_OQDECR => record (ThreadIncr "oqdecr")
   | _ => mret tt
   end);;
  oq_update c sid key (fun _ => _item_add_delta_co c key delta).

(** The status and [*val] when the value was parsed. *)
Definition item_oqincr_oqdecr (c : conn) (key : list Z) (delta : Z) (sid : list Z)
  : M st (item_co_result * option Z) :=
  lock_cache;;
  ret ← _item_oqincr_oqdecr c key delta sid;
  pv_it ← _item_get_pending_version key;
  r ← (match pv_it, bool_decide (ret = CO_OK) with
       | Some pv, true =>
           it ← get_item pv;
           v ← lift (item_value it);
           mret (CO_OK, (mc_strtoull_len v).2)
       | None, true => mret (CO_NOVALUE, None)
       | _, false => mret (ret, None)
       end);
  opt_remove pv_it;;
  unlock_cache;;
  mret r.

Definition item_oqappend_oqprepend (c : conn) (a : addr) : M st item_co_result :=
  lock_cache;;
  (match c_req_type c with
   | REQ_OQAPPEND => record (ThreadIncr "oqappend")
   | REQ_OQPREPEND => record (ThreadIncr "oqprepend")
   | _ => mret tt
   end);;
  key ← field i_key a;
  r ← oq_update c (c_tid c) key (fun pv_it =>
        match pv_it with
        | Some pv => '(d, _) ← list_data a; _item_append_prepend_co c pv d;; mret CO_OK
        | None => mret CO_OK
        end);
  unlock_cache;;
  mret r.

(** ** Registering an invalidation *)

(** A Q lease that is already there keeps the reference of the lookup. *)
Definition oqreg_lease (c : conn) (key : list Z) : M st unit :=
  lease_it ← _item_get_lease key;
  i ← test item_has_i_lease lease_it;
  lease_it ← (match lease_it, i with
              | Some l, true =>
                  _item_unlink l;; _item_remove l;; record (ThreadIncr "qlease_voids");; mret None
              | _, _ => mret lease_it
              end);
  it ← _item_get key;
  opt_remove it;;
  match lease_it with
  | Some _ => mret tt
  | None =>
      o ← _item_create_reserved_item (mc_get_lease_key key) 0 true;
      l ← lift o;
      upd_item l item_set_q_inv_lease;;
      _item_store l REQ_SET c true;;
      _item_remove l
  end.

(** The O lease of the key; readers under a C lease are aborted. *)
Definition oqreg_colease (c : conn) (sid key : list Z) : M st (option addr) :=
  colease_it ← _item_get_co_lease key;
  colease_it ← (match colease_it with
                | None => _item_assoc_sid_colease c None key sid O_LEASE_INV;; _item_get_co_lease key
                | Some _ => mret colease_it
                end);
  l ← lift colease_it;
  shared ← field item_has_c_lease l;
  if (shared : bool) then
    abort_sessions c l sid;;
    _item_unlink l;;
    _item_remove l;;
    _item_assoc_sid_colease c None key sid O_LEASE_INV;;
    mret None
  else mret (Some l).

Definition item_oqreg (c : conn) (sid key : list Z) : M st item_co_result :=
  lock_cache;;
  live ← live_session sid true;
  r ← (if negb live then mret CO_ABORT
       else
         oqreg_lease c key;;
         colease_it ← oqreg_colease c sid key;
         sess_it ← _item_get sid;
         _item_assoc_key_sid c sess_it key sid;;
         (match sess_it with
          | None => record (ThreadIncr "total_sess")
          | Some s => _item_remove s
          end);;
         opt_remove colease_it;;
         mret CO_OK);
  unlock_cache;;
  mret r.

(** ** The end of a session *)

(** The pending version of a key replaces its item. *)
Definition dcommit_apply (c : conn) (key : list Z) (pv : addr) : M st unit :=
  pit ← get_item pv;
  id ← item_slabid (Z.of_nat (length key)) (i_nbyte pit);
  o ← _item_alloc id key (i_dataflags pit) 0 (i_nbyte pit) true false;
  na ← lift o;
  copy_data na 0 pv;;
  _item_store na REQ_SET c true;;
  _item_remove na;;
  _item_unlink pv;;
  _item_remove pv.

Definition opt_unlink (o : option addr) : M st unit :=
  match o with Some a => _item_unlink a | None => mret tt end.

Definition dcommit_key (c : conn) (sid key : list Z) : M st unit :=
  it ← _item_get key;
  lease_it ← _item_get_lease key;
  q ← test item_has_q_lease lease_it;
  when q (record (ThreadIncr "released_q_lease"));;
  unlink_remove lease_it;;
  colease_it ← _item_get_co_lease key;
  (match colease_it with
   | None => mret tt
   | Some l =>
       lit ← get_item l;
       (if item_has_o_lease_inv lit then opt_unlink it
        else if item_has_o_lease_ref lit then
          pv_it ← _item_get_pending_version key;
          match pv_it with
          | Some pv => dcommit_apply c key pv
          | None => opt_unlink it
          end
        else if item_has_c_lease lit then
          match it with Some a => upd_item a (set_exptime 0) | None => mret tt end
        else mret tt);;
       _item_remove_sid_colease c colease_it key sid;;
       _item_remove l
   end);;
  opt_remove it.

(** The pin of the session is not given up. *)
Definition item_dcommit (c : conn) (sid : list Z) : M st item_co_result :=
  lock_cache;;
  sess_it ← _item_get sid;
  aborted ← sess_aborted sess_it;
  r ← (match sess_it with
       | None => mret CO_NOT_FOUND
       | Some s =>
           if (aborted : bool) then
             remove_session s;; record (ThreadIncr "sess_abort");; mret CO_ABORT
           else
             foreach_key s (dcommit_key c sid);;
             record (ThreadIncr "sess_commit");;
             _item_unlink s;;
             _item_remove s;;
             mret CO_OK
       end);
  unlock_cache;;
  mret r.

(** One key of [item_validate]: it fails when the session lost its lease. *)
Definition validate_key (sid key : list Z) (status : item_co_result) : M st item_co_result :=
  colease_it ← _item_get_co_lease key;
  match colease_it with
  | None => mret status
  | Some l =>
      mine ← list_holds l sid;
      _item_remove l;;
      mret (if (mine : bool) then status else CO_ABORT)
  end.

(** The list of the session is read after its reference was given up. *)
Definition item_validate (c : conn) (sid : list Z) : M st item_co_result :=
  lock_cache;;
  sess_it ← _item_get sid;
  aborted ← sess_aborted sess_it;
  r ← (match sess_it with
       | None => mret CO_ABORT
       | Some s =>
           if (aborted : bool) then
             remove_session s;; record (ThreadIncr "sess_abort");; mret CO_ABORT
           else
             _item_remove s;;
             status ← fold_keys s (fun _ key status => validate_key sid key status) CO_OK;
             when (bool_decide (status = CO_ABORT)) (clean_session c sid);;
             mret status
       end);
  unlock_cache;;
  mret r.

Definition item_co_unlease (c : conn) (sid : list Z) : M st item_co_result :=
  lock_cache;;
  sess_it ← _item_get sid;
  aborted ← sess_aborted sess_it;
  r ← (match sess_it with
       | None => mret CO_NOT_FOUND
       | Some s =>
           if (aborted : bool) then
             remove_session s;; record (ThreadIncr "sess_abort");; mret CO_ABORT
           else
             foreach_key s (clean_key c sid);;
             remove_session s;;
             record (ThreadIncr "sess_unlease");;
             mret CO_OK
       end);
  unlock_cache;;
  mret r.
