(* ===== verification/Conn.v ===== *)
(** * mc_connection.c: the response vector

    A response is assembled as a list of messages, each a run of entries of one
    array of buffers ([struct iovec]); [conn_add_iov] appends a buffer, splitting
    it when a datagram or the first TCP message is full, and [core_transmit]
    (mc_core.c) hands the messages to the socket, which may take any part of
    them.

    The array entries are the bytes they point to.  Whether an allocation
    succeeds, and how much the socket takes, are arguments. *)

From S2P Require Import Prelude Slabs.

Definition UDP_HEADER_SIZE : nat := 8.
Definition UDP_MAX_PAYLOAD_SIZE : nat := 1400.
Definition IOV_MAX : nat := 1024.
Definition IOV_SIZE : nat := 400.
Definition MSG_SIZE : nat := 10.

(** [struct msghdr]: the index of its first entry and their number. *)
Record msghdr := Msghdr { m_iov : nat; m_iovlen : nat }.

(** The fields of [struct conn] that hold a response; the entries of an array
    that were never written are [None]. *)
Record outv := OutV {
  udp : bool;
  udp_rid : Z;
  iov : list (option mem);
  iov_used : nat;
  msg : list (option msghdr);
  msg_used : nat;
  msg_curr : nat;
  msg_bytes : nat;
  udp_hsize : nat;
  reallocs : nat -> bool;
  nrealloc : nat
}.

Definition set_iov x o := OutV (udp o) (udp_rid o) x (iov_used o) (msg o) (msg_used o) (msg_curr o) (msg_bytes o) (udp_hsize o) (reallocs o) (nrealloc o).
Definition set_iov_used x o := OutV (udp o) (udp_rid o) (iov o) x (msg o) (msg_used o) (msg_curr o) (msg_bytes o) (udp_hsize o) (reallocs o) (nrealloc o).
Definition set_msg x o := OutV (udp o) (udp_rid o) (iov o) (iov_used o) x (msg_used o) (msg_curr o) (msg_bytes o) (udp_hsize o) (reallocs o) (nrealloc o).
Definition set_msg_used x o := OutV (udp o) (udp_rid o) (iov o) (iov_used o) (msg o) x (msg_curr o) (msg_bytes o) (udp_hsize o) (reallocs o) (nrealloc o).
Definition set_msg_curr x o := OutV (udp o) (udp_rid o) (iov o) (iov_used o) (msg o) (msg_used o) x (msg_bytes o) (udp_hsize o) (reallocs o) (nrealloc o).
Definition set_msg_bytes x o := OutV (udp o) (udp_rid o) (iov o) (iov_used o) (msg o) (msg_used o) (msg_curr o) x (udp_hsize o) (reallocs o) (nrealloc o).
Definition set_udp_hsize x o := OutV (udp o) (udp_rid o) (iov o) (iov_used o) (msg o) (msg_used o) (msg_curr o) (msg_bytes o) x (reallocs o) (nrealloc o).
Definition set_nrealloc x o := OutV (udp o) (udp_rid o) (iov o) (iov_used o) (msg o) (msg_used o) (msg_curr o) (msg_bytes o) (udp_hsize o) (reallocs o) x.

(** ** Accesses *)

Definition array_get {A} (l : list (option A)) (i : nat) : option A := l !! i ≫= id.
Definition array_set {A} (l : list (option A)) (i : nat) (x : A) : option (list (option A)) :=
  if decide (i < length l)%nat then Some (<[i := Some x]> l) else None.

(** Whether [mc_realloc] (or [mc_alloc]) succeeds. *)
Definition realloc : M outv bool :=
  o ← gets id; modify (set_nrealloc (S (nrealloc o)));; mret (reallocs o (nrealloc o)).

Definition get_msg (i : nat) : M outv msghdr := o ← gets id; lift (array_get (msg o) i).
Definition put_msg (i : nat) (m : msghdr) : M outv unit :=
  o ← gets id; l ← lift (array_set (msg o) i m); modify (set_msg l).
Definition put_iov (i : nat) (buf : mem) : M outv unit :=
  o ← gets id; l ← lift (array_set (iov o) i buf); modify (set_iov l).

(** ** Assembling *)

(** All messages are pointed at the new array. *)
Fixpoint repoint (n i iovnum : nat) (msgs : list (option msghdr)) : option (list (option msghdr)) :=
  match n with
  | O => Some msgs
  | S n' =>
      m ← array_get msgs i;
      msgs' ← array_set msgs i (Msghdr iovnum (m_iovlen m));
      repoint n' (S i) (iovnum + m_iovlen m) msgs'
  end.

Definition conn_ensure_iov_space : M outv rstatus :=
  o ← gets id;
  if decide (length (iov o) <= iov_used o)%nat then
    ok ← realloc;
    if negb ok then mret MC_ENOMEM
    else
      modify (set_iov (iov o ++ replicate (length (iov o)) None));;
      msgs ← lift (repoint (msg_used o) 0 0 (msg o));
      modify (set_msg msgs);;
      mret MC_OK
  else mret MC_OK.

(** [conn_add_msghdr]; [add_iov] leaves room for the header of a datagram. *)
Definition conn_add_msghdr_ (add_iov : mem -> M outv rstatus) : M outv rstatus :=
  o ← gets id;
  status ← (if decide (length (msg o) = msg_used o) then
              ok ← realloc;
              if negb ok then mret MC_ENOMEM
              else modify (set_msg (msg o ++ replicate (length (msg o)) None));; mret MC_OK
            else mret MC_OK);
  if negb (bool_decide (status = MC_OK)) then mret status
  else
    put_msg (msg_used o) (Msghdr (iov_used o) 0);;
    modify (set_msg_bytes 0);;
    modify (set_msg_used (S (msg_used o)));;
    if udp o then add_iov (replicate UDP_HEADER_SIZE None) else mret MC_OK.

(** An entry at the end of the last message. *)
Definition push_iov (buf : mem) : M outv unit :=
  o ← gets id;
  m ← get_msg (msg_used o - 1);
  put_iov (m_iov m + m_iovlen m) buf;;
  modify (set_msg_bytes (msg_bytes o + length buf));;
  modify (set_iov_used (S (iov_used o)));;
  put_msg (msg_used o - 1) (Msghdr (m_iov m) (S (m_iovlen m))).

(** The loop of [conn_add_iov]: a round for each message the buffer is split
    over, and one for the header of a datagram. *)
Fixpoint conn_add_iov_loop (fuel : nat) (buf : mem) : M outv rstatus :=
  match fuel with
  | O => undef
  | S fuel' =>
      o ← gets id;
      m ← get_msg (msg_used o - 1);
      let limit_to_mtu := udp o || (msg_used o =? 1)%nat in
      status ← (if (m_iovlen m =? IOV_MAX)%nat || (limit_to_mtu && (UDP_MAX_PAYLOAD_SIZE <=? msg_bytes o)%nat)
                then conn_add_msghdr_ (conn_add_iov_loop fuel') else mret MC_OK);
      if negb (bool_decide (status = MC_OK)) then mret status
      else
        status ← conn_ensure_iov_space;
        if negb (bool_decide (status = MC_OK)) then mret status
        else
          o ← gets id;
          let leftover :=
            if limit_to_mtu && (UDP_MAX_PAYLOAD_SIZE <? length buf + msg_bytes o)%nat
            then (length buf + msg_bytes o - UDP_MAX_PAYLOAD_SIZE)%nat else 0%nat in
          let len := (length buf - leftover)%nat in
          push_iov (take len buf);;
          if (0 <? leftover)%nat then conn_add_iov_loop fuel' (drop len buf) else mret MC_OK
  end.

Definition conn_add_iov (buf : mem) : M outv rstatus := conn_add_iov_loop (S (S (length buf))) buf.

Definition conn_add_msghdr : M outv rstatus := conn_add_msghdr_ conn_add_iov.

(** ** Headers of datagrams *)

Open Scope Z_scope.

(** The header of datagram [i] of [n]. *)
Definition udp_header (rid i n : Z) : mem :=
  init [u8 (rid / 256); u8 (rid mod 256); u8 (i / 256); u8 (i mod 256); u8 (n / 256); u8 (n mod 256); 0; 0].

Fixpoint udp_headers (rid : Z) (n used : nat) (i : nat) : M outv unit :=
  match n with
  | O => mret tt
  | S n' =>
      m ← get_msg i;
      put_iov (m_iov m) (udp_header rid (Z.of_nat i) (Z.of_nat used));;
      udp_headers rid n' used (S i)
  end.

Definition conn_build_udp_headers : M outv rstatus :=
  o ← gets id;
  status ← (if decide (udp_hsize o < msg_used o)%nat then
              ok ← realloc;
              if negb ok then mret MC_ENOMEM else modify (set_udp_hsize (msg_used o * 2)%nat);; mret MC_OK
            else mret MC_OK);
  if negb (bool_decide (status = MC_OK)) then mret status
  else udp_headers (udp_rid o) (msg_used o) (msg_used o) 0;; mret MC_OK.

(** ** Transmission *)

Inductive transmit_result := TRANSMIT_COMPLETE | TRANSMIT_INCOMPLETE | TRANSMIT_SOFT_ERROR | TRANSMIT_HARD_ERROR.

(** What [sendmsg] answers: it took up to so many bytes, it would block, or it
    failed. *)
Inductive sendmsg_result := Sent (n : nat) | WouldBlock | SendError.

(** The entries that were sent completely are dropped, and the one that was sent
    in part starts after what was sent. *)
Fixpoint consume_iov (fuel : nat) (i : nat) (res : nat) : M outv unit :=
  match fuel with
  | O => undef
  | S fuel' =>
      m ← get_msg i;
      o ← gets id;
      if decide (0 < m_iovlen m)%nat then
        buf ← lift (array_get (iov o) (m_iov m));
        if decide (length buf <= res)%nat then
          put_msg i (Msghdr (S (m_iov m)) (m_iovlen m - 1));;
          consume_iov fuel' i (res - length buf)
        else when (0 <? res)%nat (put_iov (m_iov m) (drop res buf))
      else when (0 <? res)%nat undef
  end.

(** The bytes of a message. *)
Definition msg_data (o : outv) (m : msghdr) : option mem :=
  bufs ← mapM (array_get (iov o)) (seq (m_iov m) (m_iovlen m)); Some (mjoin bufs).

(** The result and the bytes that were sent; what the result does to the state
    of the connection is in [Core]. *)
Definition core_transmit (send : sendmsg_result) : M outv (transmit_result * mem) :=
  o ← gets id;
  (if decide (msg_curr o < msg_used o)%nat then
     m ← get_msg (msg_curr o);
     when (m_iovlen m =? 0)%nat (modify (set_msg_curr (S (msg_curr o))))
   else mret tt);;
  o ← gets id;
  if decide (msg_curr o < msg_used o)%nat then
    m ← get_msg (msg_curr o);
    data ← lift (msg_data o m);
    match send with
    | Sent n =>
        let res := Nat.min n (length data) in
        if decide (0 < res)%nat then
          consume_iov (S (m_iovlen m)) (msg_curr o) res;;
          mret (TRANSMIT_INCOMPLETE, take res data)
        else mret (TRANSMIT_HARD_ERROR, [])
    | WouldBlock => mret (TRANSMIT_SOFT_ERROR, [])
    | SendError => mret (TRANSMIT_HARD_ERROR, [])
    end
  else mret (TRANSMIT_COMPLETE, []).

(** The state machine transmits until the response is sent or the socket fails;
    the answers of the socket are given in advance, and it may be left blocked. *)
Fixpoint transmit_all (sends : list sendmsg_result) : M outv (transmit_result * mem) :=
  match sends with
  | [] => mret (TRANSMIT_SOFT_ERROR, [])
  | send :: sends' =>
      '(r, sent) ← core_transmit send;
      match r with
      | TRANSMIT_COMPLETE | TRANSMIT_HARD_ERROR => mret (r, sent)
      | TRANSMIT_INCOMPLETE | TRANSMIT_SOFT_ERROR =>
          '(r', sent') ← transmit_all sends'; mret (r', sent ++ sent')
      end
  end.
