(* ===== verification/Ascii.v ===== *)
(** * mc_ascii.c: requests and responses of the text protocol

    The connection that is being served, the tokens of a request line, the
    recognition of the command, and the writers of responses.  The handlers of
    the commands are in [AsciiCmd].

    A pointer into a NUL terminated string is the rest of that string, so a
    token is such a rest and a length.  Entries of the token array that were
    never written are indeterminate.  The command log ([klog_write]) and
    debugging output are not modelled. *)

From S2P Require Import Prelude Util Time Lease Item State Slabs Items IQ CO Conn.
From Stdlib Require Import Strings.Ascii.
Open Scope Z_scope.

Definition CRLF : list Z := [13; 10].

Definition KEY_MAX_LEN : nat := 250.
Definition TID_MAX_LEN : nat := 250.
Definition TOKEN_MAX : nat := 16.
Definition SUFFIX_MAX_LEN : nat := 44.
Definition LEASE_TOKEN_SIZE : nat := 13.
Definition CAS_SUFFIX_SIZE : nat := 21.
Definition SUFFIX_SIZE : nat := 22 + LEASE_TOKEN_SIZE.

(** ** The connection *)

Inductive conn_state :=
  | CONN_LISTEN | CONN_NEW_CMD | CONN_WAIT | CONN_READ | CONN_PARSE | CONN_NREAD | CONN_WRITE
  | CONN_MWRITE | CONN_SWALLOW | CONN_CLOSE.
#[export] Instance conn_state_eq_dec : EqDecision conn_state.
Proof. solve_decision. Defined.

(** The settings of logging and of the statistics; [klog_named] says whether
    [klog_name] is set, the interval is in microseconds. *)
Record log_settings := LogSettings {
  klog_named : bool;
  klog_running : bool;
  klog_sampling_rate : Z;
  stats_agg_intvl : Z;
  log_level : Z
}.

(** The server as a connection sees it: the store, the configuration number, the
    settings commands change, and the fields of [struct conn].  [cn] has those the store reads.  [wdata] is the
    text between [wcurr] and [wcurr + wbytes]; [ritem] counts the bytes of the
    value that were read; [ileft] and [sleft] are what is left of the lists of
    items and suffixes to give up after the response. *)
Record asc := Asc {
  store : st;
  configuration_number : Z;
  logs : log_settings;
  out : outv;
  cn : conn;
  state : conn_state;
  write_and_go : conn_state;
  noreply : bool;
  wdata : mem;
  wsize : nat;
  c_item : option addr;
  ritem : Z;
  rlbytes : Z;
  sbytes : Z;
  isize : nat;
  ileft : list (option addr);
  ssize : nat;
  sleft : nat
}.

Definition set_store x c := Asc x (configuration_number c) (logs c) (out c) (cn c) (state c) (write_and_go c) (noreply c) (wdata c) (wsize c) (c_item c) (ritem c) (rlbytes c) (sbytes c) (isize c) (ileft c) (ssize c) (sleft c).
Definition set_configuration_number x c := Asc (store c) x (logs c) (out c) (cn c) (state c) (write_and_go c) (noreply c) (wdata c) (wsize c) (c_item c) (ritem c) (rlbytes c) (sbytes c) (isize c) (ileft c) (ssize c) (sleft c).
Definition set_logs x c := Asc (store c) (configuration_number c) x (out c) (cn c) (state c) (write_and_go c) (noreply c) (wdata c) (wsize c) (c_item c) (ritem c) (rlbytes c) (sbytes c) (isize c) (ileft c) (ssize c) (sleft c).
Definition set_out x c := Asc (store c) (configuration_number c) (logs c) x (cn c) (state c) (write_and_go c) (noreply c) (wdata c) (wsize c) (c_item c) (ritem c) (rlbytes c) (sbytes c) (isize c) (ileft c) (ssize c) (sleft c).
Definition set_cn x c := Asc (store c) (configuration_number c) (logs c) (out c) x (state c) (write_and_go c) (noreply c) (wdata c) (wsize c) (c_item c) (ritem c) (rlbytes c) (sbytes c) (isize c) (ileft c) (ssize c) (sleft c).
Definition set_state x c := Asc (store c) (configuration_number c) (logs c) (out c) (cn c) x (write_and_go c) (noreply c) (wdata c) (wsize c) (c_item c) (ritem c) (rlbytes c) (sbytes c) (isize c) (ileft c) (ssize c) (sleft c).
Definition set_write_and_go x c := Asc (store c) (configuration_number c) (logs c) (out c) (cn c) (state c) x (noreply c) (wdata c) (wsize c) (c_item c) (ritem c) (rlbytes c) (sbytes c) (isize c) (ileft c) (ssize c) (sleft c).
Definition set_noreply x c := Asc (store c) (configuration_number c) (logs c) (out c) (cn c) (state c) (write_and_go c) x (wdata c) (wsize c) (c_item c) (ritem c) (rlbytes c) (sbytes c) (isize c) (ileft c) (ssize c) (sleft c).
Definition set_wdata x c := Asc (store c) (configuration_number c) (logs c) (out c) (cn c) (state c) (write_and_go c) (noreply c) x (wsize c) (c_item c) (ritem c) (rlbytes c) (sbytes c) (isize c) (ileft c) (ssize c) (sleft c).
Definition set_c_item x c := Asc (store c) (configuration_number c) (logs c) (out c) (cn c) (state c) (write_and_go c) (noreply c) (wdata c) (wsize c) x (ritem c) (rlbytes c) (sbytes c) (isize c) (ileft c) (ssize c) (sleft c).
Definition set_ritem x c := Asc (store c) (configuration_number c) (logs c) (out c) (cn c) (state c) (write_and_go c) (noreply c) (wdata c) (wsize c) (c_item c) x (rlbytes c) (sbytes c) (isize c) (ileft c) (ssize c) (sleft c).
Definition set_rlbytes x c := Asc (store c) (configuration_number c) (logs c) (out c) (cn c) (state c) (write_and_go c) (noreply c) (wdata c) (wsize c) (c_item c) (ritem c) x (sbytes c) (isize c) (ileft c) (ssize c) (sleft c).
Definition set_sbytes x c := Asc (store c) (configuration_number c) (logs c) (out c) (cn c) (state c) (write_and_go c) (noreply c) (wdata c) (wsize c) (c_item c) (ritem c) (rlbytes c) x (isize c) (ileft c) (ssize c) (sleft c).
Definition set_isize x c := Asc (store c) (configuration_number c) (logs c) (out c) (cn c) (state c) (write_and_go c) (noreply c) (wdata c) (wsize c) (c_item c) (ritem c) (rlbytes c) (sbytes c) x (ileft c) (ssize c) (sleft c).
Definition set_ileft x c := Asc (store c) (configuration_number c) (logs c) (out c) (cn c) (state c) (write_and_go c) (noreply c) (wdata c) (wsize c) (c_item c) (ritem c) (rlbytes c) (sbytes c) (isize c) x (ssize c) (sleft c).
Definition set_ssize x c := Asc (store c) (configuration_number c) (logs c) (out c) (cn c) (state c) (write_and_go c) (noreply c) (wdata c) (wsize c) (c_item c) (ritem c) (rlbytes c) (sbytes c) (isize c) (ileft c) x (sleft c).
Definition set_sleft x c := Asc (store c) (configuration_number c) (logs c) (out c) (cn c) (state c) (write_and_go c) (noreply c) (wdata c) (wsize c) (c_item c) (ritem c) (rlbytes c) (sbytes c) (isize c) (ileft c) (ssize c) x.

(** The settings of the store that commands change. *)
Definition set_evict_opt x c := Settings (prealloc c) (use_cas c) x (use_freeq c) (use_lruq c) (maxbytes c) (slab_size_opt c) (hash_power_opt c) (oldest_live c) (profile c) (profile_last_id c) (reserved_percentage c) (reserved_maxbytes c) (lease_token_expiry c).
Definition set_oldest_live x c := Settings (prealloc c) (use_cas c) (evict_opt c) (use_freeq c) (use_lruq c) (maxbytes c) (slab_size_opt c) (hash_power_opt c) x (profile c) (profile_last_id c) (reserved_percentage c) (reserved_maxbytes c) (lease_token_expiry c).

(** An operation of the store, and one of the response vector. *)
Definition on_store {A} (m : M st A) : M asc A := fun c =>
  match m (store c) with Some (a, s) => Some (a, set_store s c) | None => None end.
Definition on_out {A} (m : M outv A) : M asc A := fun c =>
  match m (out c) with Some (a, o) => Some (a, set_out o c) | None => None end.

(** An operation of the store that is given the connection. *)
Definition on_conn {A} (m : conn -> M st A) : M asc A := c ← gets cn; on_store (m c).

Definition conn_set_state (x : conn_state) : M asc unit := modify (set_state x).
Definition req_type_of : M asc req_type := gets (fun c => c_req_type (cn c)).

(** ** Tokens *)

Record token := Token { t_val : option (list Z); t_len : nat }.

(** The bytes of a token. *)
Definition t_key (t : token) : list Z := take (t_len t) (default [] (t_val t)).

(** [s] is the start marker, [len] bytes before the end marker [e]; [room] more
    tokens may be saved before the terminal one. *)
Fixpoint asc_tokenize_loop (s e : list Z) (len room : nat) : list token :=
  match room with
  | O => [Token (match e with [] => None | _ => Some e end) 0]
  | S room' =>
      match e with
      | [] => (if decide (len = 0)%nat then [] else [Token (Some s) len]) ++ [Token None 0]
      | b :: e' =>
          if b =? 32 then
            if decide (len = 0)%nat then asc_tokenize_loop e' e' 0 room
            else Token (Some s) len :: asc_tokenize_loop e' e' 0 room'
          else asc_tokenize_loop s e' (S len) room
      end
  end.

Definition asc_tokenize (command : list Z) (ntoken_max : nat) : list token :=
  asc_tokenize_loop command command 0 (ntoken_max - 1).

(** [token[i]] *)
Definition tok (ts : list token) (i : nat) : M asc token := lift (ts !! i).

(** ** Commands *)

(** [strNcmp]: the first bytes of the string. *)
Definition strcmp_n (s : list Z) (lit : string) : bool := bool_decide (take (String.length lit) s = bytes lit).

Fixpoint first_match (s : list Z) (l : list (string * req_type)) : req_type :=
  match l with
  | [] => REQ_UNKNOWN
  | (lit, t) :: l' => if strcmp_n s lit then t else first_match s l'
  end.

Definition asc_parse_type (ts : list token) : option req_type :=
  if decide (length ts < 2)%nat then Some REQ_UNKNOWN
  else
    t ← ts !! 0%nat;
    s ← t_val t;
    Some (first_match s (match t_len t with
      | 3%nat => [("get ", REQ_GET); ("set ", REQ_SET); ("add ", REQ_ADD); ("cas ", REQ_CAS); ("dar ", REQ_DAR); ("sar ", REQ_SAR)]
      | 4%nat => [("gets", REQ_GETS); ("incr", REQ_INCR); ("decr", REQ_DECR); ("quit", REQ_QUIT); ("swap", REQ_SWAP); ("iset", REQ_ISET)]
      | 5%nat => [("iqget", REQ_IQGET); ("iqset", REQ_IQSET); ("stats", REQ_STATS); ("qareg", REQ_QAREG); ("ciget", REQ_CIGET);
                  ("oqreg", REQ_OQREG); ("check", REQ_CHECK)]
      | 6%nat => [("append", REQ_APPEND); ("delete", REQ_DELETE); ("config", REQ_CONFIG); ("qaread", REQ_QAREAD);
                  ("iqincr", REQ_IQINCR); ("iqdecr", REQ_IQDECR); ("commit", REQ_COMMIT); ("ftrans", REQ_FTRANS);
                  ("oqread", REQ_OQREAD); ("oqswap", REQ_OQSWAP); ("oqincr", REQ_OQINCR); ("oqdecr", REQ_OQDECR)]
      | 7%nat => [("replace ", REQ_REPLACE); ("prepend ", REQ_PREPEND); ("version", REQ_VERSION); ("unlease", REQ_UNLEASE);
                  ("release", REQ_RELEASE); ("dcommit", REQ_DCOMMIT); ("getprik", REQ_GETPRIK); ("oqwrite", REQ_OQWRITE)]
      | 8%nat => [("iqappend", REQ_IQAPPEND); ("validate", REQ_VALIDATE); ("oqappend", REQ_OQAPPEND)]
      | 9%nat => [("flush_all", REQ_FLUSHALL); ("verbosity", REQ_VERBOSITY); ("iqprepend", REQ_IQPREPEND);
                  ("counlease", REQ_COUNLEASE); ("oqprepend", REQ_OQPREPEND)]
      | 10%nat => [("updateconf", REQ_UPDATECONFIG)]
      | _ => []
      end)).

(** [ntoken_bound]: the least and largest number of tokens, without and with
    [noreply]. *)
Definition ntoken_bound (t : req_type) (noreply : bool) : Z * Z :=
  let b min max nmin nmax : Z * Z := if noreply then (nmin, nmax) else (min, max) in
  match t with
  | REQ_UNKNOWN => b 0 0 0 0
  | REQ_IQSET => b 9 9 11 11
  | REQ_SET => b 8 8 9 9
  | REQ_ADD => b 8 8 9 9
  | REQ_REPLACE => b 7 7 8 8
  | REQ_APPEND => b 7 7 8 8
  | REQ_PREPEND => b 7 7 8 8
  | REQ_CAS => b 9 9 11 11
  | REQ_IQGET => b 5 INT_MAX 5 INT_MAX
  | REQ_GET => b 4 INT_MAX 43 INT_MAX
  | REQ_GETS => b 4 INT_MAX 4 INT_MAX
  | REQ_INCR => b 5 5 6 6
  | REQ_DECR => b 5 5 6 6
  | REQ_DELETE => b 4 INT_MAX 4 INT_MAX
  | REQ_QUIT => b 2 2 2 2
  | REQ_STATS => b 2 5 2 5
  | REQ_CONFIG => b 3 5 3 5
  | REQ_VERSION => b 2 2 2 2
  | REQ_FLUSHALL => b 2 3 3 4
  | REQ_VERBOSITY => b 4 4 3 4
  | REQ_UNLEASE => b 5 5 6 6
  | REQ_QAREG => b 5 5 6 6
  | REQ_DAR => b 4 4 5 5
  | REQ_QAREAD => b 5 7 5 7
  | REQ_SAR => b 8 8 9 9
  | REQ_IQAPPEND => b 6 6 7 7
  | REQ_IQPREPEND => b 6 5 6 6
  | REQ_IQINCR => b 6 6 7 7
  | REQ_IQDECR => b 6 6 7 7
  | REQ_COMMIT => b 5 7 8 8
  | REQ_RELEASE => b 4 4 5 5
  | REQ_CIGET => b 5 INT_MAX 5 INT_MAX
  | REQ_COUNLEASE => b 3 4 3 4
  | REQ_OQREG => b 5 5 5 5
  | REQ_DCOMMIT => b 3 3 3 4
  | REQ_CHECK => b 4 INT_MAX 4 INT_MAX
  | REQ_FTRANS => b 4 INT_MAX 4 INT_MAX
  | REQ_GETPRIK => b 3 2 3 3
  | REQ_OQREAD => b 3 5 4 6
  | REQ_OQSWAP => b 7 7 8 8
  | REQ_SWAP => b 9 9 10 10
  | REQ_VALIDATE => b 3 5 4 6
  | REQ_OQAPPEND => b 5 5 6 6
  | REQ_OQPREPEND => b 5 5 6 6
  | REQ_OQINCR => b 5 5 6 6
  | REQ_OQDECR => b 5 5 6 6
  | REQ_OQWRITE => b 7 7 8 8
  | REQ_UPDATECONFIG => b 3 INT_MAX 3 INT_MAX
  | REQ_ISET => b 4 INT_MAX 4 INT_MAX
  end.

Definition asc_ntoken_valid (t : req_type) (noreply : bool) (ntoken : Z) : bool :=
  let '(min, max) := ntoken_bound t noreply in (min <=? ntoken) && (ntoken <=? max).

Definition asc_set_noreply_maybe (ts : list token) : M asc unit :=
  if decide (length ts < 2)%nat then mret tt
  else
    t ← tok ts (length ts - 2);
    if decide (t_len t = 7)%nat then
      s ← lift (t_val t);
      when (strcmp_n s "noreply") (modify (set_noreply true))
    else mret tt.

(** ** Simple responses *)

Definition asc_write_string (str : list Z) : M asc unit :=
  c ← gets id;
  if noreply c then modify (set_noreply false);; conn_set_state CONN_NEW_CMD
  else
    str ← (if decide (wsize c < length str + 2)%nat
           then on_store (record (ThreadIncr "server_error"));; mret (bytes "SERVER_ERROR")
           else mret str);
    modify (set_wdata (init (str ++ CRLF)));;
    conn_set_state CONN_WRITE;;
    modify (set_write_and_go CONN_NEW_CMD).

Definition asc_write_crash : M asc unit := asc_write_string (bytes "FAIL").
Definition asc_write_abort : M asc unit := asc_write_string (bytes "ABORT").
Definition asc_write_stored : M asc unit := asc_write_string (bytes "STORED").
Definition asc_write_exists : M asc unit := asc_write_string (bytes "EXISTS").
Definition asc_write_not_found : M asc unit := asc_write_string (bytes "NOT_FOUND").
Definition asc_write_not_stored : M asc unit := asc_write_string (bytes "NOT_STORED").
Definition asc_write_deleted : M asc unit := asc_write_string (bytes "DELETED").
Definition asc_write_invalid : M asc unit := asc_write_string (bytes "INVALID").
Definition asc_write_invalid_deleted : M asc unit := asc_write_string (bytes "INVALID").
Definition asc_write_client_error : M asc unit :=
  on_store (record (ThreadIncr "cmd_error"));; asc_write_string (bytes "CLIENT_ERROR").
Definition asc_write_server_error : M asc unit :=
  on_store (record (ThreadIncr "server_error"));; asc_write_string (bytes "SERVER_ERROR").
Definition asc_write_ok : M asc unit := asc_write_string (bytes "OK").
Definition asc_write_ok_novalue : M asc unit := asc_write_string (bytes "OK_NOVALUE").
Definition asc_write_retry : M asc unit := asc_write_string (bytes "RETRY").
(** The version string is set by the build. *)
Definition asc_write_version (mc_version : list Z) : M asc unit := asc_write_string (bytes "VERSION " ++ mc_version).
Definition asc_write_q_inv_leasehold (markedVal : Z) : M asc unit :=
  asc_write_string (bytes "LEASE" ++ bytes " " ++ print_u64 markedVal).

(** The number of the configuration the server is in, or -1 when the client is
    in another one. *)
Definition asc_check_config (client_configuration_number : Z) : M asc Z :=
  server_config ← gets configuration_number;
  if negb (client_configuration_number =? -1) && negb (client_configuration_number =? server_config)
  then asc_write_crash;; mret (-1)
  else mret server_config.

(** ** Responses with values *)

Definition add_iov (buf : mem) : M asc rstatus := on_out (conn_add_iov buf).

(** [status = ...; if (status != MC_OK) return status;] *)
Definition or_return (m : M asc rstatus) (k : M asc rstatus) : M asc rstatus :=
  status ← m; if bool_decide (status = MC_OK) then k else mret status.

(** A buffer for suffix [i] of the response. *)
Definition asc_create_suffix (i : nat) : M asc rstatus :=
  c ← gets id;
  room ← (if decide (ssize c <= i)%nat then
            ok ← on_out realloc;
            when ok (modify (set_ssize (ssize c * 2)%nat));; mret ok
          else mret true);
  if negb room then mret MC_ENOMEM
  else
    ok ← on_out realloc;
    if negb ok then asc_write_server_error;; mret MC_ENOMEM else mret MC_OK.

(** The size of a suffix buffer ([thread_setup]). *)
Definition suffix_size (use_cas : bool) : nat :=
  if use_cas then CAS_SUFFIX_SIZE + SUFFIX_SIZE + 1 else SUFFIX_SIZE + 1.

(** [sz = mc_snprintf(suffix, SUFFIX_MAX_LEN, ...)]: the [sz] bytes of the buffer
    that are added to the response; [sz] is the length of the whole text. *)
Definition suffix_text (use_cas : bool) (txt : list Z) : option mem :=
  let sz := length txt in
  let cut := take (SUFFIX_MAX_LEN - 1) txt in
  if decide (length cut + 1 <= suffix_size use_cas /\ sz <= suffix_size use_cas)%nat
  then Some (take sz (init (cut ++ [0]) ++ replicate sz None)) else None.

Definition add_suffix (txt : list Z) : M asc rstatus :=
  use ← on_store (setting use_cas); buf ← lift (suffix_text use txt); add_iov buf.

(** A number with the blank before it. *)
Definition num (n : Z) : list Z := bytes " " ++ print_u64 n.

(** The end of a response of several parts. *)
Definition end_response : M asc unit :=
  status ← add_iov (init (bytes "END" ++ CRLF));
  udp ← gets (fun c => udp (out c));
  ok ← (if negb (bool_decide (status = MC_OK)) then mret false
        else if (udp : bool) then status ← on_out conn_build_udp_headers; mret (bool_decide (status = MC_OK))
        else mret true);
  if (ok : bool) then conn_set_state CONN_MWRITE;; modify (fun c => set_out (set_msg_curr 0 (out c)) c)
  else asc_write_server_error.

(** The room for item [i] in the list of items; whether there is none. *)
Definition ensure_ilist (i : nat) : M asc bool :=
  isz ← gets isize;
  if decide (isz <= i)%nat then
    ok ← on_out realloc; when ok (modify (set_isize (isz * 2)%nat));; mret ok
  else mret true.

Definition asc_write_novalue : M asc rstatus :=
  or_return (add_iov (init (bytes "NOVALUE "))) (
  or_return (asc_create_suffix 0) (
  add_suffix (num 0);;
  or_return (add_iov (init CRLF)) (
  end_response;;
  modify (set_sleft 1);;
  mret MC_OK))).

(** The item's key, header line and value, as [asc_write_ciget_value] and
    [asc_write_iqget_value] send them, with the text of the header. *)
Definition asc_write_value (a : addr) (header : item -> list Z) : M asc rstatus :=
  ensure_ilist 0;;
  or_return (add_iov (init (bytes "VALUE "))) (
  it ← on_store (get_item a);
  or_return (add_iov (init (i_key it))) (
  or_return (asc_create_suffix 0) (
  add_suffix (header it);;
  or_return (add_iov (init CRLF)) (
  data ← lift (item_data_raw it);
  or_return (add_iov data) (
  or_return (add_iov (init CRLF)) (
  modify (set_ileft [Some a]);;
  modify (set_sleft 1);;
  end_response;;
  mret MC_OK)))))).

Definition asc_write_ciget_value (a : addr) : M asc rstatus :=
  asc_write_value a (fun it => num (i_dataflags it) ++ num (i_nbyte it)).

Definition asc_write_iqget_value (a : addr) : M asc rstatus :=
  asc_write_value a (fun it => num (i_dataflags it) ++ num (i_p it) ++ num (i_nbyte it) ++ num (u32 (i_config_number it))).

Definition asc_write_ciget_lease (o : option addr) (new_lease_token : Z) : M asc rstatus :=
  or_return (add_iov (init (bytes "LVALUE "))) (
  a ← lift o;
  it ← on_store (get_item a);
  or_return (add_iov (init (i_key it))) (
  or_return (asc_create_suffix 0) (
  add_suffix (num (i_dataflags it) ++ num new_lease_token);;
  or_return (add_iov (init CRLF)) (
  end_response;;
  on_store (item_remove a);;
  mret MC_OK)))).

(** The suffix reads [it->p] also when there is no item. *)
Definition asc_write_iqget_lease (o : option addr) (new_lease_token : Z) : M asc rstatus :=
  or_return (add_iov (init (bytes "LVALUE "))) (
  it ← (match o with Some a => it ← on_store (get_item a); mret (Some it) | None => mret None end);
  or_return (add_iov (match it with Some it => init (i_key it) | None => init (bytes "nokey") end)) (
  or_return (asc_create_suffix 0) (
  it ← lift it;
  add_suffix (num (i_dataflags it) ++ num (i_p it) ++ num new_lease_token);;
  or_return (add_iov (init CRLF)) (
  end_response;;
  modify (set_sleft 1);;
  mret MC_OK)))).

Definition asc_write_qaread (o : option addr) (key : list Z) (lease_token p : Z) : M asc rstatus :=
  it ← (match o with Some a => it ← on_store (get_item a); mret (Some it) | None => mret None end);
  or_return (add_iov (init (bytes (match it with None => "LVALUE " | Some _ => "LEASE " end)))) (
  or_return (add_iov (init key)) (
  or_return (asc_create_suffix 0) (
  add_suffix (match it with
              | None => num 0 ++ num p ++ num lease_token
              | Some it => num (i_dataflags it) ++ num p ++ num lease_token ++ num (i_nbyte it)
              end);;
  or_return (add_iov (init CRLF)) (
  or_return (match it with
             | Some it => data ← lift (item_data_raw it); add_iov data
             | None => mret MC_OK
             end) (
  or_return (add_iov (init CRLF)) (
  (match o with Some a => modify (set_ileft [Some a]) | None => mret tt end);;
  modify (set_sleft 1);;
  end_response;;
  mret MC_OK)))))).

Definition asc_write_oqread (o : option addr) (key : list Z) : M asc rstatus :=
  it ← (match o with Some a => it ← on_store (get_item a); mret (Some it) | None => mret None end);
  or_return (add_iov (init (bytes (match it with None => "NOVALUE " | Some _ => "VALUE " end)))) (
  or_return (add_iov (init key)) (
  or_return (asc_create_suffix 0) (
  add_suffix (match it with
              | None => num 0
              | Some it => num (i_dataflags it) ++ num (i_nbyte it)
              end);;
  or_return (add_iov (init CRLF)) (
  or_return (match it with
             | Some it => data ← lift (item_data_raw it); add_iov data
             | None => mret MC_OK
             end) (
  or_return (add_iov (init CRLF)) (
  modify (set_ileft [o]);;
  modify (set_sleft 1);;
  end_response;;
  mret MC_OK)))))).

Definition asc_write_ok_pending (pending lease_token : Z) : M asc rstatus :=
  or_return (asc_create_suffix 0) (
  or_return (add_suffix (bytes "OK" ++ num pending ++ num lease_token)) (
  or_return (add_iov (init CRLF)) (
  conn_set_state CONN_WRITE;;
  modify (set_write_and_go CONN_NEW_CMD);;
  modify (set_sleft 1);;
  mret MC_OK))).

Definition asc_write_ok_novalue_pending (pending lease_token : Z) : M asc rstatus :=
  or_return (asc_create_suffix 0) (
  or_return (add_suffix (bytes "OK_NOVALUE" ++ num pending ++ num lease_token)) (
  or_return (add_iov (init CRLF)) (
  conn_set_state CONN_MWRITE;;
  modify (fun c => set_out (set_msg_curr 0 (out c)) c);;
  modify (set_sleft 1);;
  mret MC_OK))).

Definition asc_write_ok_val (val : Z) : M asc rstatus :=
  or_return (add_iov (init (bytes "VALUE"))) (
  or_return (asc_create_suffix 0) (
  add_suffix (num val);;
  or_return (add_iov (init CRLF)) (
  end_response;;
  mret MC_OK))).

(** One hit of a get. *)
Definition asc_respond_get (i : nat) (a : addr) (return_cas : bool) : M asc rstatus :=
  it ← on_store (get_item a);
  data ← lift (item_data_raw it);
  or_return (add_iov (init (bytes "VALUE "))) (
  or_return (add_iov (init (i_key it))) (
  or_return (asc_create_suffix i) (
  or_return (add_suffix (num (i_dataflags it) ++ num (i_nbyte it) ++
                         num (if return_cas then item_cas it else u32 (i_config_number it)))) (
  or_return (add_iov (init CRLF)) (
  or_return (add_iov data) (
  add_iov (init CRLF))))))).
