(* ===== verification/AsciiCmd.v ===== *)
(** * mc_ascii.c: the handlers of the commands

    One definition per command, from the check of its tokens to its response,
    then the dispatch of a request and the extraction of a request from the
    bytes that were read.

    The guards every handler makes on its tokens are functions that are given
    the rest of the handler: a guard that fails answers [CLIENT_ERROR] and
    returns. *)

From S2P Require Import Prelude Util Time Lease Item State Slabs Items IQ CO Conn Ascii.
Open Scope Z_scope.

(** ** Guards *)

(** [if (!asc_ntoken_valid(c, ntoken)) { ...; return; }] *)
Definition valid_tokens (ts : list token) (k : M asc unit) : M asc unit :=
  t ← req_type_of; nr ← gets noreply;
  if asc_ntoken_valid t nr (Z.of_nat (length ts)) then k else asc_write_client_error.

(** [if (!mc_strto...(token[i].val, &x)) { ...; return; }]; the parsers
    dereference the pointer. *)
Definition number (parse : list Z -> bool * Z) (ts : list token) (i : nat) (k : Z -> M asc unit) : M asc unit :=
  t ← tok ts i;
  s ← lift (t_val t);
  let '(ok, x) := parse s in
  if (ok : bool) then k x else asc_write_client_error.

(** [key = token[i].val; if (token[i].len > max) { ...; return; }] *)
Definition key_arg (max : nat) (ts : list token) (i : nat) (k : list Z -> M asc unit) : M asc unit :=
  t ← tok ts i;
  if decide (max < t_len t)%nat then asc_write_client_error else k (t_key t).

(** A token that is taken as it is. *)
Definition arg (ts : list token) (i : nat) (k : list Z -> M asc unit) : M asc unit := t ← tok ts i; k (t_key t).

(** [if (asc_check_config(...) == -1) return;] *)
Definition in_config (client_configuration_number : Z) (k : M asc unit) : M asc unit :=
  server_config ← asc_check_config client_configuration_number;
  if server_config =? -1 then mret tt else k.

(** The check on the number of tokens, then on the configuration. *)
Definition with_config (ts : list token) (k : M asc unit) : M asc unit :=
  valid_tokens ts (number mc_strtol ts 1 (fun cfgno => in_config cfgno k)).

(** [strncmp(t->val, lit, t->len) == 0] *)
Definition is_prefix_of (t : token) (lit : string) : bool := bool_decide (t_key t = take (t_len t) (bytes lit)).

Definition reltime (exptime : Z) : M asc Z := on_store (gets (fun s => time_reltime (clk s) exptime)).

(** ** Values to be read *)

(** The data line is skipped. *)
Definition swallow (vlen : Z) : M asc unit :=
  modify (set_write_and_go CONN_SWALLOW);; modify (set_sbytes (s32 (vlen + 2))).

(** The item is filled from the connection. *)
Definition read_value (a : addr) (vlen : Z) : M asc unit :=
  modify (set_c_item (Some a));;
  modify (set_ritem 0);;
  modify (set_rlbytes (s32 (vlen + 2)));;
  conn_set_state CONN_NREAD.

(** There is no memory for the value: the old one, which would be stale, is
    removed. *)
Definition no_memory (key : list Z) (vlen : Z) (drop : bool) : M asc unit :=
  asc_write_server_error;;
  swallow vlen;;
  when drop (
    o ← on_store (item_get key);
    match o with Some a => on_store (item_delete a) | None => mret tt end).

Definition set_conn_token (token : Z) : M asc unit :=
  modify (fun c => set_cn (Items.Conn (c_req_type (cn c)) token (c_tid (cn c))) c).
(** The length is kept in 8 bits. *)
Definition set_conn_tid (tid : list Z) : M asc unit :=
  modify (fun c => set_cn (Items.Conn (c_req_type (cn c)) (c_lease_token (cn c)) (take (Z.to_nat (u8 (Z.of_nat (length tid)))) tid)) c).

(** The class for the value, or [CLIENT_ERROR]. *)
Definition slabid_arg (key : list Z) (vlen : Z) (k : Z -> M asc unit) : M asc unit :=
  id ← on_store (item_slabid (Z.of_nat (length key)) vlen);
  if id =? SLABCLASS_INVALID_ID then asc_write_client_error else k id.

(** ** Configuration *)

Definition asc_process_update_configuration (ts : list token) : M asc unit :=
  asc_set_noreply_maybe ts;;
  valid_tokens ts (number mc_strtol ts 1 (fun n => modify (set_configuration_number n);; asc_write_ok)).

(** ** Reads *)

(** The keys of one array of tokens: [None] after a key that is too long, else
    where the keys end and the items that were found.  A response that cannot be
    built ends the keys too. *)
Fixpoint read_tokens (ts : list token) (return_cas : bool) (found : list addr)
  : M asc (option (option (list Z) * list addr)) :=
  match ts with
  | [] => undef
  | t :: ts' =>
      if decide (t_len t = 0)%nat then mret (Some (t_val t, found))
      else if decide (KEY_MAX_LEN < t_len t)%nat then asc_write_client_error;; mret None
      else
        on_store (record (ThreadIncr (if return_cas then "gets" else "get")));;
        o ← on_store (item_get (t_key t));
        match o with
        | None => read_tokens ts' return_cas found
        | Some a =>
            it ← on_store (get_item a);
            on_store (record (SlabIncr (i_id it) (if return_cas then "gets_hit" else "get_hit")));;
            room ← ensure_ilist (length found);
            if negb room then on_store (item_remove a);; mret (Some (t_val t, found))
            else
              status ← asc_respond_get (length found) a return_cas;
              if bool_decide (status = MC_OK) then
                on_store (item_touch a);; read_tokens ts' return_cas (found ++ [a])
              else
                on_store (record (ThreadIncr "cmd_error"));;
                on_store (item_remove a);;
                mret (Some (t_val t, found))
        end
  end.

(** What is left of the line is made into tokens again, up to [fuel] times. *)
Fixpoint read_line (fuel : nat) (ts : list token) (return_cas : bool) (found : list addr) : M asc (option (list addr)) :=
  r ← read_tokens ts return_cas found;
  match r with
  | None => mret None
  | Some (None, found) => mret (Some found)
  | Some (Some rest, found) =>
      match fuel with
      | O => undef
      | S fuel' => read_line fuel' (asc_tokenize rest TOKEN_MAX) return_cas found
      end
  end.

Definition asc_process_read (fuel : nat) (ts : list token) : M asc unit :=
  with_config ts (
    t ← req_type_of;
    r ← read_line fuel (drop 2 ts) (bool_decide (t = REQ_GETS)) [];
    match r with
    | None => mret tt
    | Some found =>
        modify (set_ileft (Some <$> found));;
        modify (set_sleft (length found));;
        end_response
    end).

(** ** Updates *)

Definition asc_process_update (ts : list token) : M asc unit :=
  asc_set_noreply_maybe ts;;
  valid_tokens ts (
  number mc_strtol ts 1 (fun client_configuration_number =>
  number mc_strtol ts 2 (fun next_fragment_cfg_id =>
  type ← req_type_of;
  key_arg KEY_MAX_LEN ts 3 (fun key =>
  number mc_strtoul ts 4 (fun flags =>
  number mc_strtol ts 5 (fun exptime =>
  number mc_strtoul ts 6 (fun vlen =>
  (if bool_decide (type = REQ_IQSET) then number mc_strtoll ts 7 else fun k => k 0) (fun lease_token =>
  server_config ← asc_check_config client_configuration_number;
  if server_config =? -1 then swallow vlen
  else slabid_arg key vlen (fun id =>
    (if bool_decide (type = REQ_CAS) then number mc_strtoull ts 6 else fun k => k 0) (fun req_cas_id =>
    e ← reltime exptime;
    o ← on_store (item_alloc_config id key flags e vlen
                    (if next_fragment_cfg_id =? -1 then server_config else next_fragment_cfg_id));
    match o with
    | None => no_memory key vlen (bool_decide (type = REQ_IQSET) || bool_decide (type = REQ_SET))
    | Some a =>
        on_store (upd_item a (item_set_cas req_cas_id));;
        when (bool_decide (type = REQ_IQSET)) (set_conn_token (u64 lease_token));;
        read_value a vlen
    end)))))))))).

Definition asc_process_arithmetic (ts : list token) : M asc unit :=
  asc_set_noreply_maybe ts;;
  with_config ts (
  t ← req_type_of;
  let incr := bool_decide (t = REQ_INCR) in
  key_arg KEY_MAX_LEN ts 2 (fun key =>
  number mc_strtoull ts 3 (fun delta =>
  '(res, temp) ← on_store (item_add_delta key incr delta);
  match res with
  | DELTA_OK => asc_write_string temp
  | DELTA_NON_NUMERIC => asc_write_client_error
  | DELTA_EOM => asc_write_server_error
  | DELTA_NOT_FOUND =>
      on_store (record (ThreadIncr (if incr then "incr_miss" else "decr_miss")));; asc_write_not_found
  end))).

(** The last result, or none when there was no key. *)
Fixpoint delete_tokens (ts : list token) (delete_lease : bool) (res : option item_store_result)
  : M asc (option (option (list Z) * option item_store_result)) :=
  match ts with
  | [] => undef
  | t :: ts' =>
      if decide (t_len t = 0)%nat then mret (Some (t_val t, res))
      else if decide (KEY_MAX_LEN < t_len t)%nat then asc_write_client_error;; mret None
      else
        r ← on_store (item_get_and_delete (t_key t) delete_lease);
        delete_tokens ts' delete_lease (Some r)
  end.

Fixpoint delete_line (fuel : nat) (ts : list token) (delete_lease : bool) (res : option item_store_result)
  : M asc (option (option item_store_result)) :=
  r ← delete_tokens ts delete_lease res;
  match r with
  | None => mret None
  | Some (None, res) => mret (Some res)
  | Some (Some rest, res) =>
      match fuel with
      | O => undef
      | S fuel' => delete_line fuel' (asc_tokenize rest TOKEN_MAX) delete_lease res
      end
  end.

Definition asc_process_delete (fuel : nat) (ts : list token) : M asc unit :=
  asc_set_noreply_maybe ts;;
  with_config ts (
  number mc_strtol ts 2 (fun delete_lease =>
  r ← delete_line fuel (drop 3 ts) (delete_lease =? 1) None;
  match r with
  | None => mret tt
  | Some o =>
      res ← lift o;
      match res with
      | EXISTS | STORED => asc_write_deleted
      | NOT_FOUND => asc_write_not_found
      | _ => asc_write_server_error
      end
  end)).

(** ** IQ leases *)

Definition asc_process_unlease (ts : list token) : M asc unit :=
  asc_set_noreply_maybe ts;;
  with_config ts (
  key_arg KEY_MAX_LEN ts 2 (fun key =>
  number mc_strtoll ts 3 (fun lease_token =>
  r ← on_store (item_get_and_unlease key (u64 lease_token));
  if bool_decide (r = MC_OK) then asc_write_deleted else asc_write_server_error))).

Definition asc_process_qareg (ts : list token) : M asc unit :=
  asc_set_noreply_maybe ts;;
  with_config ts (
  key_arg KEY_MAX_LEN ts 2 (fun key =>
  key_arg TID_MAX_LEN ts 3 (fun tid =>
  '(r, markedVal) ← on_conn (fun c => item_quarantine_and_register c tid key);
  if bool_decide (r = MC_OK) then asc_write_q_inv_leasehold markedVal else asc_write_server_error))).

Definition asc_process_dar (ts : list token) : M asc unit :=
  asc_set_noreply_maybe ts;;
  with_config ts (
  key_arg TID_MAX_LEN ts 2 (fun tid =>
  exc ← on_conn (fun c => item_delete_and_release c tid);
  match exc with
  | MC_OK => asc_write_deleted
  | MC_INVALID => asc_write_invalid_deleted
  | _ => asc_write_server_error
  end)).

Definition asc_process_qaread (ts : list token) : M asc unit :=
  asc_set_noreply_maybe ts;;
  with_config ts (
  key_arg KEY_MAX_LEN ts 2 (fun key =>
  number mc_strtol ts 3 (fun read_value =>
  (if decide (4 < length ts)%nat then number mc_strtoll ts 4 else fun k => k 0) (fun lease_token =>
  (if decide (5 < length ts)%nat then arg ts 5 else fun k => k []) (fun tid =>
  r ← on_conn (fun c => item_quarantine_and_read c tid key (u64 lease_token));
  match qr_status r with
  | MC_OK =>
      exc ← asc_write_qaread (if read_value =? 0 then None else qr_it r) key (qr_token r) (qr_pending r);
      if bool_decide (exc = MC_OK) then mret tt
      else match qr_it r with Some a => on_store (item_remove a) | None => mret tt end
  | MC_INVALID => asc_write_invalid_deleted
  | _ => asc_write_server_error
  end))))).

(** The arguments a store command has after its key, from token [i] on: flags,
    expiry and length. *)
Definition value_args (ts : list token) (i : nat) (k : Z -> Z -> Z -> M asc unit) : M asc unit :=
  number mc_strtoul ts i (fun flags =>
  number mc_strtol ts (i + 1) (fun exptime =>
  number mc_strtoul ts (i + 2) (fun vlen => k flags exptime vlen))).

Definition asc_process_sar (ts : list token) : M asc unit :=
  asc_set_noreply_maybe ts;;
  with_config ts (
  key_arg KEY_MAX_LEN ts 2 (fun key =>
  value_args ts 3 (fun flags exptime vlen =>
  number mc_strtoll ts 6 (fun lease_token =>
  slabid_arg key vlen (fun id =>
  e ← reltime exptime;
  o ← on_store (item_alloc id key flags e vlen);
  match o with
  | None => no_memory key vlen true
  | Some a => set_conn_token (u64 lease_token);; read_value a vlen
  end))))).

(** The transaction is taken from the token the delta was read from. *)
Definition asc_process_iqincr_iqdecr (ts : list token) : M asc unit :=
  asc_set_noreply_maybe ts;;
  with_config ts (
  t ← req_type_of;
  let incr := bool_decide (t = REQ_IQINCR) in
  key_arg KEY_MAX_LEN ts 2 (fun key =>
  number mc_strtoull ts 3 (fun delta =>
  (if decide (4 < length ts)%nat then arg ts 3 else fun k => k []) (fun tid =>
  r ← on_conn (fun c => item_iqincr_iqdecr c key delta tid);
  match id_result r with
  | IQ_LEASE => asc_write_ok_pending (id_pending r) (default 0 (id_token r));; mret tt
  | IQ_LEASE_NO_VALUE => asc_write_ok_novalue_pending (id_pending r) (default 0 (id_token r));; mret tt
  | IQ_CLIENT_ERROR => asc_write_client_error
  | IQ_SERVER_ERROR => asc_write_server_error
  | IQ_ABORT => on_store (record (ThreadIncr (if incr then "incr_miss" else "decr_miss")));; asc_write_abort
  | _ => undef
  end)))).

(** Neither the class nor the length of the value is checked. *)
Definition alloc_fragment (key : list Z) (vlen : Z) (tid : list Z) : M asc unit :=
  id ← on_store (item_slabid (Z.of_nat (length key)) vlen);
  o ← on_store (item_alloc id key 0 0 vlen);
  match o with
  | None => no_memory key vlen false
  | Some a => set_conn_tid tid;; read_value a vlen
  end.

Definition asc_process_iqappend_iqprepend (ts : list token) : M asc unit :=
  asc_set_noreply_maybe ts;;
  valid_tokens ts (
  number mc_strtol ts 1 (fun client_configuration_number =>
  key_arg KEY_MAX_LEN ts 2 (fun key =>
  number mc_strtoul ts 3 (fun vlen =>
  arg ts 4 (fun tid =>
  server_config ← asc_check_config client_configuration_number;
  if server_config =? -1 then swallow vlen else alloc_fragment key vlen tid))))).

Definition asc_process_commit (ts : list token) : M asc unit :=
  asc_set_noreply_maybe ts;;
  valid_tokens ts (
  number mc_strtol ts 1 (fun client_configuration_number =>
  number mc_strtol ts 2 (fun frag_configuration_number =>
  key_arg TID_MAX_LEN ts 3 (fun tid =>
  number mc_strtol ts 4 (fun pending =>
  server_cfg_id ← asc_check_config client_configuration_number;
  if server_cfg_id =? -1 then mret tt
  else
    exc ← on_conn (fun c => item_commit c tid pending
             (if frag_configuration_number =? -1 then server_cfg_id else frag_configuration_number));
    match exc with
    | IQ_OK => asc_write_ok
    | IQ_NOT_FOUND => asc_write_not_found
    | _ => asc_write_server_error
    end))))).

Definition asc_process_release (ts : list token) : M asc unit :=
  asc_set_noreply_maybe ts;;
  valid_tokens ts (
  key_arg TID_MAX_LEN ts 1 (fun tid =>
  exc ← on_conn (fun c => item_release c tid);
  match exc with
  | IQ_OK => asc_write_ok
  | IQ_NOT_FOUND => asc_write_not_found
  | _ => mret tt
  end)).

(** The keys that are missing are collected in a buffer of 1024 bytes. *)
Fixpoint check_keys (ts : list token) (n : Z) (buf : list Z) : M asc (list Z) :=
  if n <=? 0 then mret buf
  else
    match ts with
    | [] => undef
    | t :: ts' =>
        o ← on_store (item_get (t_key t));
        match o with
        | None =>
            let buf' := buf ++ t_key t ++ bytes " " in
            if decide (1024 < length buf')%nat then undef else check_keys ts' (n - 1) buf'
        | Some a => on_store (item_remove a);; check_keys ts' (n - 1) buf
        end
    end.

Definition asc_process_check (ts : list token) : M asc unit :=
  valid_tokens ts (
  number mc_strtoll ts 1 (fun num_keys =>
  ok ← on_out realloc;
  if negb ok then undef
  else buf ← check_keys (drop 2 ts) num_keys (bytes "OK "); asc_write_string buf)).

Fixpoint ftrans_keys (ts : list token) (n : Z) (tid : list Z) : M asc unit :=
  if n <=? 0 then mret tt
  else
    match ts with
    | [] => undef
    | t :: ts' => on_conn (fun c => item_ftrans c tid (t_key t));; ftrans_keys ts' (n - 1) tid
    end.

Definition asc_process_ftrans (ts : list token) : M asc unit :=
  asc_set_noreply_maybe ts;;
  valid_tokens ts (
  arg ts 1 (fun tid =>
  number mc_strtoll ts 2 (fun num_keys =>
  ftrans_keys (drop 3 ts) num_keys tid;; asc_write_ok))).

Definition asc_process_swap (ts : list token) : M asc unit :=
  asc_set_noreply_maybe ts;;
  valid_tokens ts (
  number mc_strtol ts 1 (fun client_configuration_number =>
  number mc_strtol ts 2 (fun frag_configuration_number =>
  key_arg KEY_MAX_LEN ts 3 (fun key =>
  value_args ts 4 (fun flags exptime vlen =>
  number mc_strtoll ts 7 (fun lease_token =>
  server_config ← asc_check_config client_configuration_number;
  if server_config =? -1 then swallow vlen
  else slabid_arg key vlen (fun id =>
    e ← reltime exptime;
    o ← on_store (item_alloc_config id key flags e vlen
                    (if frag_configuration_number =? -1 then server_config else frag_configuration_number));
    match o with
    | None => no_memory key vlen true
    | Some a => set_conn_token (u64 lease_token);; read_value a vlen
    end))))))).

(** The response to a get under leases; the item is handed to the connection
    only when its value is sent. *)
Definition iqget_respond (r : iqget) : M asc unit :=
  match ig_status r with
  | IQ_VALUE => a ← lift (ig_item r); asc_write_iqget_value a;; mret tt
  | s =>
      (match s with
       | IQ_NO_VALUE => asc_write_novalue;; mret tt
       | IQ_MISS | IQ_LEASE => asc_write_iqget_lease (ig_item r) (default 0 (ig_token r));; mret tt
       | IQ_SERVER_ERROR => asc_write_server_error
       | _ => mret tt
       end);;
      match ig_item r with Some a => on_store (item_remove a) | None => mret tt end
  end.

Definition asc_process_iqget (ts : list token) : M asc unit :=
  asc_set_noreply_maybe ts;;
  with_config ts (
  key_arg KEY_MAX_LEN ts 2 (fun key =>
  number mc_strtoll ts 3 (fun lease_token =>
  number mc_strtol ts 4 (fun foreground =>
  r ← on_conn (fun c => item_iqget c key (u64 lease_token) [] false (foreground =? 1));
  iqget_respond r)))).

Definition asc_process_iset (ts : list token) : M asc unit :=
  asc_set_noreply_maybe ts;;
  with_config ts (
  key_arg KEY_MAX_LEN ts 2 (fun key =>
  number mc_strtoll ts 3 (fun lease_token =>
  (if decide (4 < length ts)%nat then arg ts 4 else fun k => k []) (fun tid =>
  r ← on_conn (fun c => item_iqget c key (u64 lease_token) tid true true);
  iqget_respond r)))).

(** ** Sessions *)

(** The responses to most of the results of a session's command. *)
Definition co_respond (exc : item_co_result) : M asc unit :=
  match exc with
  | CO_OK => asc_write_ok
  | CO_INVALID => asc_write_invalid
  | CO_NOT_FOUND => asc_write_not_found
  | CO_ABORT => asc_write_abort
  | _ => asc_write_server_error
  end.

Definition asc_process_dcommit (ts : list token) : M asc unit :=
  asc_set_noreply_maybe ts;;
  valid_tokens ts (
  key_arg KEY_MAX_LEN ts 1 (fun sid =>
  exc ← on_conn (fun c => item_dcommit c sid);
  co_respond exc)).

Definition asc_process_co_unlease (ts : list token) : M asc unit :=
  asc_set_noreply_maybe ts;;
  valid_tokens ts (
  key_arg KEY_MAX_LEN ts 1 (fun sid =>
  exc ← on_conn (fun c => item_co_unlease c sid);
  match exc with CO_ABORT => asc_write_server_error | _ => co_respond exc end)).

Definition asc_process_oqreg (ts : list token) : M asc unit :=
  asc_set_noreply_maybe ts;;
  valid_tokens ts (
  key_arg KEY_MAX_LEN ts 1 (fun sid =>
  key_arg TID_MAX_LEN ts 2 (fun key =>
  exc ← on_conn (fun c => item_oqreg c sid key);
  co_respond exc))).

(** The delta is read from token 4, which is the terminal one of the five that
    are accepted. *)
Definition asc_process_oqincr_oqdecr (ts : list token) : M asc unit :=
  asc_set_noreply_maybe ts;;
  with_config ts (
  arg ts 2 (fun sid =>
  key_arg KEY_MAX_LEN ts 3 (fun key =>
  number mc_strtoull ts 4 (fun delta =>
  '(res, val) ← on_conn (fun c => item_oqincr_oqdecr c key delta sid);
  match res with
  | CO_OK => v ← lift val; asc_write_ok_val v;; mret tt
  | CO_NOVALUE => asc_write_novalue;; mret tt
  | CO_ABORT => asc_write_abort
  | _ => undef
  end)))).

Definition asc_process_oqappend_oqprepend (ts : list token) : M asc unit :=
  asc_set_noreply_maybe ts;;
  valid_tokens ts (
  arg ts 1 (fun tid =>
  key_arg KEY_MAX_LEN ts 2 (fun key =>
  number mc_strtoul ts 3 (fun vlen => alloc_fragment key vlen tid)))).

Definition asc_process_oqread (ts : list token) : M asc unit :=
  asc_set_noreply_maybe ts;;
  valid_tokens ts (
  arg ts 1 (fun sid =>
  key_arg KEY_MAX_LEN ts 2 (fun key =>
  '(exc, it) ← on_conn (fun c => item_oqread c sid key);
  match exc with
  | CO_OK =>
      status ← asc_write_oqread it key;
      if bool_decide (status = MC_OK) then mret tt
      else match it with Some a => on_store (item_remove a) | None => mret tt end
  | CO_ABORT => asc_write_abort
  | CO_INVALID => asc_write_invalid
  | _ => mret tt
  end))).

(** [asc_process_oqwrite] and [asc_process_oqswap] have the same text. *)
Definition asc_process_oqwrite (ts : list token) : M asc unit :=
  asc_set_noreply_maybe ts;;
  valid_tokens ts (
  arg ts 1 (fun sid =>
  key_arg KEY_MAX_LEN ts 2 (fun key =>
  value_args ts 3 (fun flags exptime vlen =>
  slabid_arg key vlen (fun id =>
  e ← reltime exptime;
  o ← on_store (item_alloc id key flags e vlen);
  match o with
  | None => no_memory key vlen true
  | Some a => set_conn_tid sid;; read_value a vlen
  end))))).

Definition asc_process_oqswap (ts : list token) : M asc unit := asc_process_oqwrite ts.

Definition asc_process_validate (ts : list token) : M asc unit :=
  asc_set_noreply_maybe ts;;
  valid_tokens ts (
  arg ts 1 (fun sid =>
  exc ← on_conn (fun c => item_validate c sid);
  match exc with
  | CO_OK => asc_write_ok
  | CO_ABORT => asc_write_abort
  | _ => asc_write_invalid
  end)).

Definition asc_process_ciget (ts : list token) : M asc unit :=
  asc_set_noreply_maybe ts;;
  valid_tokens ts (
  arg ts 1 (fun sid =>
  key_arg KEY_MAX_LEN ts 2 (fun key =>
  number mc_strtoll ts 3 (fun lease_token =>
  r ← on_conn (fun c => item_ciget c sid key (u64 lease_token));
  let token := default 0 (cg_token r) in
  match cg_status r with
  | CO_OK =>
      (if negb (token =? 0) then asc_write_ciget_lease (cg_item r) token
       else match cg_item r with
            | None => asc_write_novalue
            | Some a => asc_write_ciget_value a
            end);; mret tt
  | s =>
      (match s with
       | CO_RETRY => asc_write_retry
       | CO_ABORT => asc_write_abort
       | CO_INVALID => asc_write_invalid
       | _ => mret tt
       end);;
      match cg_item r with Some a => on_store (item_remove a) | None => mret tt end
  end)))).

(** ** Administration *)

Definition STATS_DEFAULT_INTVL : Z := 100000.
Definition KLOG_MIN_INTVL : Z := 100.
Definition KLOG_DEFAULT_SMP_RATE : Z := 100.
Definition LOG_PVERB : Z := 11.

Definition stats_set_interval (interval : Z) : M asc unit :=
  modify (fun c => let l := logs c in set_logs (LogSettings (klog_named l) (klog_running l) (klog_sampling_rate l) interval (log_level l)) c).
Definition set_klog_running (b : bool) : M asc unit :=
  modify (fun c => let l := logs c in set_logs (LogSettings (klog_named l) b (klog_sampling_rate l) (stats_agg_intvl l) (log_level l)) c).
Definition set_klog_sampling (n : Z) : M asc unit :=
  modify (fun c => let l := logs c in set_logs (LogSettings (klog_named l) (klog_running l) n (stats_agg_intvl l) (log_level l)) c).
Definition log_level_set (level : Z) : M asc unit :=
  modify (fun c => let l := logs c in
    set_logs (LogSettings (klog_named l) (klog_running l) (klog_sampling_rate l) (stats_agg_intvl l) (Z.max 0 (Z.min (s32 level) LOG_PVERB))) c).

Definition asc_process_klog (ts : list token) : M asc unit :=
  valid_tokens ts (
  t ← tok ts 3;
  if is_prefix_of t "run" then
    named ← gets (fun c => klog_named (logs c));
    if negb named then asc_write_client_error
    else
      t ← tok ts 4;
      if is_prefix_of t "start" then set_klog_running true;; asc_write_ok
      else if is_prefix_of t "stop" then set_klog_running false;; asc_write_ok
      else asc_write_client_error
  else if is_prefix_of t "interval" then
    t ← tok ts 4;
    if is_prefix_of t "reset" then stats_set_interval STATS_DEFAULT_INTVL;; asc_write_ok
    else number mc_strtol ts 4 (fun interval =>
      if interval <? KLOG_MIN_INTVL then asc_write_client_error else stats_set_interval interval;; asc_write_ok)
  else if is_prefix_of t "sampling" then
    t ← tok ts 4;
    if is_prefix_of t "reset" then set_klog_sampling KLOG_DEFAULT_SMP_RATE;; asc_write_ok
    else number mc_strtol ts 4 (fun sampling =>
      if sampling <=? 0 then asc_write_client_error else set_klog_sampling sampling;; asc_write_ok)
  else asc_write_client_error).

Definition asc_process_verbosity (ts : list token) : M asc unit :=
  asc_set_noreply_maybe ts;;
  if decide (length ts = 3 \/ length ts = 4)%nat then
    number mc_strtoul ts 2 (fun level => log_level_set level;; asc_write_ok)
  else asc_write_client_error.

Definition asc_process_aggregate (ts : list token) : M asc unit :=
  if decide (length ts = 4)%nat then
    number mc_strtol ts 3 (fun interval =>
      stats_set_interval (if 0 <? interval then interval else if interval =? 0 then STATS_DEFAULT_INTVL else -1000000);;
      asc_write_ok)
  else asc_write_client_error.

Definition asc_process_evict (ts : list token) : M asc unit :=
  if decide (length ts = 4)%nat then
    number mc_strtol ts 3 (fun option =>
      if (EVICT_NONE <=? option) && (option <? EVICT_INVALID) then
        on_store (modify (fun s => set_cfg (set_evict_opt option (cfg s)) s));; asc_write_ok
      else asc_write_client_error)
  else asc_write_client_error.

Definition asc_process_config (ts : list token) : M asc unit :=
  t ← tok ts 2;
  if is_prefix_of t "aggregate" then asc_process_aggregate ts
  else if is_prefix_of t "klog" then asc_process_klog ts
  else if is_prefix_of t "evict" then asc_process_evict ts
  else mret tt.

(** [tv_sec] is what [gettimeofday] answers to [time_update]. *)
Definition asc_process_flushall (tv_sec : Z) (ts : list token) : M asc unit :=
  on_store (modify (fun s => set_clk (time_update tv_sec (clk s)) s));;
  asc_set_noreply_maybe ts;;
  valid_tokens ts (
  nr ← gets noreply;
  let flush live := on_store (modify (fun s => set_cfg (set_oldest_live (u32 (live (clk s) - 1)) (cfg s)) s);; item_flush_expired);; asc_write_ok in
  if Z.of_nat (length ts) =? (ntoken_bound REQ_FLUSHALL nr).1 then flush time_now
  else number mc_strtol ts 2 (fun exptime =>
    if 0 <? exptime then flush (fun k => time_reltime k exptime) else flush time_now)).

(** [core_write_and_free] (mc_core.c) *)
Definition core_write_and_free (buf : option mem) : M asc unit :=
  match buf with
  | Some b => modify (set_wdata b);; conn_set_state CONN_WRITE;; modify (set_write_and_go CONN_NEW_CMD)
  | None => asc_write_server_error
  end.

(** [report] gives the text of each kind of statistics, if there was memory for
    it; it is written by mc_stats.c and mc_items.c ([item_cache_dump]). *)
Definition asc_process_stats (report : string -> option mem) (ts : list token) : M asc unit :=
  interval ← gets (fun c => stats_agg_intvl (logs c));
  if interval ÷ 1000000 <? 0 then asc_write_server_error
  else valid_tokens ts (
    t ← tok ts 1;
    if decide (length ts = 2)%nat then core_write_and_free (report "default")
    else if is_prefix_of t "reset" then asc_write_server_error
    else if is_prefix_of t "settings" then core_write_and_free (report "settings")
    else if is_prefix_of t "cachedump" then
      if decide (length ts < 5)%nat then asc_write_client_error
      else number mc_strtoul ts 3 (fun id => number mc_strtoul ts 4 (fun _ =>
        if (id <? SLABCLASS_MIN_ID) || (SLABCLASS_MAX_ID <? id) then asc_write_client_error
        else core_write_and_free (report "cachedump")))
    else if is_prefix_of t "slabs" then core_write_and_free (report "slabs")
    else if is_prefix_of t "sizes" then core_write_and_free (report "sizes")
    else asc_write_client_error).

(** ** The value was read *)

(** The responses to the results of an append or prepend under a lease; other
    results leave the connection without one. *)
Definition iqdelta_respond (r : iqdelta) : M asc unit :=
  match id_result r with
  | IQ_LEASE => asc_write_ok_pending (id_pending r) (default 0 (id_token r));; mret tt
  | IQ_LEASE_NO_VALUE => asc_write_ok_novalue_pending (id_pending r) (default 0 (id_token r));; mret tt
  | IQ_ABORT => asc_write_abort
  | IQ_SERVER_ERROR => asc_write_server_error
  | IQ_CLIENT_ERROR => asc_write_client_error
  | _ => mret tt
  end.

Definition stored_respond (exc : item_co_result) : M asc unit :=
  match exc with
  | CO_OK => asc_write_stored
  | CO_ABORT => asc_write_abort
  | _ => asc_write_invalid
  end.

Definition complete_update (type : req_type) (sid : list Z) (a : addr) : M asc unit :=
  match type with
  | REQ_IQAPPEND | REQ_IQPREPEND => r ← on_conn (fun c => item_iqappend_iqprepend c a); iqdelta_respond r
  | REQ_OQAPPEND | REQ_OQPREPEND =>
      r ← on_conn (fun c => item_oqappend_oqprepend c a);
      match r with CO_OK => asc_write_ok | CO_ABORT => asc_write_ok_novalue | _ => mret tt end
  | REQ_SAR =>
      r ← on_conn (item_swap_and_release a);
      match r with STORED => asc_write_stored | NOT_STORED => asc_write_not_stored | _ => asc_write_invalid_deleted end
  | REQ_OQSWAP => r ← on_conn (fun c => item_oqswap c sid a); stored_respond r
  | REQ_SWAP =>
      r ← on_conn (item_swap a);
      match r with STORED => asc_write_stored | NOT_STORED => asc_write_abort | _ => asc_write_invalid end
  | REQ_OQWRITE => r ← on_conn (fun c => item_oqwrite c sid a); stored_respond r
  | _ =>
      r ← on_conn (item_store a type);
      match r with
      | STORED => asc_write_stored
      | EXISTS => asc_write_exists
      | NOT_FOUND => asc_write_not_found
      | NOT_STORED => asc_write_not_stored
      | _ => asc_write_server_error
      end
  end.

Definition asc_complete_nread : M asc unit :=
  c ← gets id;
  a ← lift (c_item c);
  it ← on_store (get_item a);
  b0 ← lift (mem_byte (i_payload it) (data_pos it + i_nbyte it));
  crlf ← (if b0 =? 13 then b1 ← lift (mem_byte (i_payload it) (data_pos it + i_nbyte it + 1)); mret (b1 =? 10) else mret false);
  (if (crlf : bool) then complete_update (c_req_type (cn c)) (c_tid (cn c)) a else asc_write_client_error);;
  on_store (item_remove a);;
  modify (set_c_item None).

(** ** Dispatch *)

(** What a request needs of its environment: the bound on the rounds of a line,
    the time of day, the version of the build and the text of statistics. *)
Record request_env := RequestEnv {
  rq_fuel : nat;
  rq_tv_sec : Z;
  rq_version : list Z;
  rq_report : string -> option mem
}.

(** The counter and the handler of each command. *)
Definition asc_handle (e : request_env) (type : req_type) (ts : list token) : M asc unit :=
  let count name := on_store (record (ThreadIncr name)) in
  match type with
  | REQ_UPDATECONFIG => asc_process_update_configuration ts
  | REQ_GET | REQ_GETS => asc_process_read (rq_fuel e) ts
  | REQ_CIGET => asc_process_ciget ts
  | REQ_IQGET => asc_process_iqget ts
  | REQ_ISET => asc_process_iset ts
  | REQ_IQSET => asc_process_update ts
  | REQ_SET => count "set";; asc_process_update ts
  | REQ_ADD => count "add";; asc_process_update ts
  | REQ_REPLACE => count "replace";; asc_process_update ts
  | REQ_APPEND => count "append";; asc_process_update ts
  | REQ_PREPEND => count "prepend";; asc_process_update ts
  | REQ_CAS => count "cas";; asc_process_update ts
  | REQ_INCR => count "incr";; asc_process_arithmetic ts
  | REQ_DECR => count "decr";; asc_process_arithmetic ts
  | REQ_DELETE => count "delete";; asc_process_delete (rq_fuel e) ts
  | REQ_OQREAD => count "oqread";; asc_process_oqread ts
  | REQ_OQSWAP => count "oqswap";; asc_process_oqswap ts
  | REQ_SWAP => count "swap";; asc_process_swap ts
  | REQ_OQWRITE => count "oqwrite";; asc_process_oqwrite ts
  | REQ_VALIDATE => count "validate";; asc_process_validate ts
  | REQ_STATS => count "stats";; asc_process_stats (rq_report e) ts
  | REQ_FLUSHALL => count "flush";; asc_process_flushall (rq_tv_sec e) ts
  | REQ_VERSION => asc_write_version (rq_version e)
  | REQ_QUIT => conn_set_state CONN_CLOSE
  | REQ_VERBOSITY => asc_process_verbosity ts
  | REQ_CONFIG => asc_process_config ts
  | REQ_UNLEASE => count "unlease";; asc_process_unlease ts
  | REQ_COUNLEASE => asc_process_co_unlease ts
  | REQ_OQREG => asc_process_oqreg ts
  | REQ_DCOMMIT => asc_process_dcommit ts
  | REQ_QAREG => asc_process_qareg ts
  | REQ_DAR => asc_process_dar ts
  | REQ_QAREAD => asc_process_qaread ts
  | REQ_SAR => asc_process_sar ts
  | REQ_IQAPPEND | REQ_IQPREPEND => asc_process_iqappend_iqprepend ts
  | REQ_IQINCR | REQ_IQDECR => asc_process_iqincr_iqdecr ts
  | REQ_OQAPPEND | REQ_OQPREPEND => asc_process_oqappend_oqprepend ts
  | REQ_OQINCR | REQ_OQDECR => asc_process_oqincr_oqdecr ts
  | REQ_COMMIT => asc_process_commit ts
  | REQ_RELEASE => asc_process_release ts
  | REQ_CHECK => asc_process_check ts
  | REQ_FTRANS => count "ftrans";; asc_process_ftrans ts
  | REQ_UNKNOWN | REQ_GETPRIK => asc_write_client_error
  end.

Definition asc_dispatch (e : request_env) (req : list Z) : M asc unit :=
  status ← on_out (modify (set_msg_curr 0);; modify (set_msg_used 0);; modify (set_iov_used 0);; conn_add_msghdr);
  if negb (bool_decide (status = MC_OK)) then asc_write_server_error
  else
    let ts := asc_tokenize req TOKEN_MAX in
    type ← lift (asc_parse_type ts);
    modify (fun c => set_cn (Items.Conn type (c_lease_token (cn c)) (c_tid (cn c))) c);;
    asc_handle e type ts.

(** ** Requests *)

(** A C string ends at the first NUL. *)
Fixpoint c_string (l : list Z) : list Z :=
  match l with
  | [] => []
  | b :: l' => if b =? 0 then [] else b :: c_string l'
  end.

(** [memchr(l, b, n)] *)
Fixpoint memchr (l : list Z) (b : Z) : option nat :=
  match l with
  | [] => None
  | x :: l' => if x =? b then Some O else S <$> memchr l' b
  end.

(** The blanks the line starts with; a line of blanks only is read past its
    end. *)
Fixpoint skip_blanks (l : list Z) : option (nat * list Z) :=
  match l with
  | [] => None
  | b :: l' => if b =? 32 then '(n, rest) ← skip_blanks l'; Some (S n, rest) else Some (O, l)
  end.

(** The bytes that were read and not parsed, and what is left of them. *)
Definition asc_parse (e : request_env) (data : list Z) : M asc (rstatus * list Z) :=
  if decide (data = []) then mret (MC_EAGAIN, data)
  else
    match memchr data 10 with
    | None =>
        if decide (1024 < length data)%nat then
          '(n, ptr) ← lift (skip_blanks data);
          if (100 <? n)%nat || (negb (strcmp_n ptr "get ") && negb (strcmp_n ptr "gets "))
          then conn_set_state CONN_CLOSE;; mret (MC_ERROR, data)
          else mret (MC_EAGAIN, data)
        else mret (MC_EAGAIN, data)
    | Some el =>
        let line := take el data in
        let line := if (1 <? el)%nat && bool_decide (last line = Some 13) then take (el - 1) line else line in
        asc_dispatch e (c_string line);;
        mret (MC_OK, drop (S el) data)
    end.
