(* ===== verification/Report.v ===== *)
(** * Reports (mc_stats.c, mc_items.c)

    The texts of the [stats] commands: lines are appended to a buffer of the
    connection that grows as needed, and the dump of a slab class is written into a
    buffer of fixed size.  What the operating system answers (the process id, the
    resource usage, the time) and the texts of floating point numbers are
    arguments. *)

From stdpp Require Import list strings.
From S2P Require Import Prelude Util Time Item State Slabs Items Startup Stats Ascii.
Open Scope Z_scope.

(** [%o] of an [int] *)
Fixpoint octal_rev (fuel : nat) (n : Z) : list Z :=
  match fuel with O => [] | S f => (48 + n mod 8) :: if n / 8 =? 0 then [] else octal_rev f (n / 8) end.
Definition print_oct (n : Z) : list Z := reverse (octal_rev 11 (u32 n)).
Definition print_bool (b : bool) : list Z := print_u64 (if b then 1 else 0).

(** ** The buffer of a report: [c->stats] *)

Record stats_buf := SBuf {
  sb_buffer : option mem;
  sb_size : Z;
  sb_offset : Z;
  sb_nalloc : nat
}.

Section report.
(** Whether the [n]-th [mc_realloc] succeeds. *)
Context (e_realloc : nat -> bool).

(** [while (needed > available)] *)
Fixpoint grow_loop (fuel : nat) (needed nsize available offset : Z) : option Z :=
  match fuel with
  | O => None
  | S fuel' =>
      if available <? needed then
        let nsize := u64 (Z.shiftl nsize 1) in
        grow_loop fuel' needed nsize (u64 (nsize - offset)) offset
      else Some nsize
  end.

Definition stats_buf_grow (needed : Z) : M stats_buf bool :=
  s ← gets id;
  let '(nsize, available, s) :=
    match sb_buffer s with
    | Some _ => (sb_size s, u64 (sb_size s - sb_offset s), s)
    | None => (1024, 0, SBuf None 0 0 (sb_nalloc s))
    end in
  modify (fun _ => s);;
  nsize ← lift (grow_loop 64 needed nsize available (sb_offset s));
  if nsize =? sb_size s then mret true
  else if e_realloc (sb_nalloc s) then
    let old := default [] (sb_buffer s) in
    modify (fun _ => SBuf (Some (take (Z.to_nat nsize) old ++ replicate (Z.to_nat nsize - length old) None)) nsize (sb_offset s) (S (sb_nalloc s)));;
    mret true
  else modify (fun _ => SBuf (sb_buffer s) (sb_size s) (sb_offset s) (S (sb_nalloc s)));; mret false.

(** [snprintf(pos, room, ...)]: writes what fits and a NUL. *)
Definition snprintf_at (m : mem) (pos room : Z) (text : list Z) : option mem :=
  if room <? 0 then None
  else if room =? 0 then Some m
  else mem_write m pos (init (take (Z.to_nat (room - 1)) text ++ [0])).

(** [val] is the string; [vlen] may be larger. *)
Definition asc_append_stats (key : list Z) (klen : Z) (val : list Z) (vlen : Z) : M stats_buf unit :=
  s ← gets id;
  b ← lift (sb_buffer s);
  let room := sb_size s - sb_offset s - 1 in
  let text :=
    if (klen =? 0) && (vlen =? 0) then bytes "END" ++ [13; 10]
    else if vlen =? 0 then bytes "STAT " ++ key ++ [13; 10]
    else bytes "STAT " ++ key ++ bytes " " ++ val ++ [13; 10] in
  b' ← lift (snprintf_at b (sb_offset s) room text);
  modify (fun s => SBuf (Some b') (sb_size s) (sb_offset s + Z.of_nat (length text)) (sb_nalloc s)).

Definition stats_append (key : list Z) (klen : Z) (val : list Z) (vlen : Z) : M stats_buf unit :=
  let klen := u16 klen in
  let vlen := u32 vlen in
  if (klen =? 0) && (0 <? vlen) then mret tt
  else
    ok ← stats_buf_grow (u32 (vlen + klen + 10));
    if ok : bool then asc_append_stats key klen val vlen else mret tt.

Definition STATS_KEY_LEN : Z := 128.
Definition STATS_VAL_LEN : Z := 128.
Definition STATS_BUCKET_SIZE : Z := 32.

(** The text printed with the format, cut to the buffer it is printed to. *)
Definition stats_print (name text : list Z) : M stats_buf unit :=
  stats_append name (Z.of_nat (length name)) (take (Z.to_nat (STATS_VAL_LEN - 2)) text) (Z.of_nat (length text)).

Fixpoint print_lines (l : list (list Z * list Z)) : M stats_buf unit :=
  match l with [] => mret tt | (name, text) :: l' => stats_print name text;; print_lines l' end.

(** The terminator. *)
Definition stats_end : M stats_buf unit := stats_append [] 0 [] 0.

(** ** The commands *)

Definition stats_settings (text_factor : double -> list Z) (text_secs : Z -> list Z) (c : conf) : M stats_buf unit :=
  let s := kept_settings c in
  let str (o : option (list Z)) := default (bytes "(null)") o in
  print_lines [
    (bytes "prealloc", print_bool (prealloc s));
    (bytes "lock_page", print_bool (lock_page c));
    (bytes "accepting_conns", print_bool (accepting_conns c));
    (bytes "daemonize", print_bool (daemonize c));
    (bytes "max_corefile", print_bool (max_corefile c));
    (bytes "cas_enabled", print_bool (use_cas s));
    (bytes "num_workers", print_int (num_workers c));
    (bytes "reqs_per_event", print_int (reqs_per_event c));
    (bytes "oldest", print_u64 (oldest_live s));
    (bytes "log_filename", str (log_filename c));
    (bytes "verbosity", print_int (verbose c));
    (bytes "maxconns", print_int (maxconns c));
    (bytes "tcpport", print_int (port c));
    (bytes "udpport", print_int (udpport c));
    (bytes "interface", default [] (interface c));
    (bytes "domain_socket", default (bytes "NULL") (socketpath c));
    (bytes "umask", print_oct (access c));
    (bytes "tcp_backlog", print_int (backlog c));
    (bytes "evictions", print_int (evict_opt s));
    (bytes "growth_factor", text_factor (factor c));
    (bytes "maxbytes", print_u64 (maxbytes s));
    (bytes "chunk_size", print_int (s32 (chunk_size c)));
    (bytes "slab_size", print_int (s32 (slab_size_opt s)));
    (bytes "username", str (username c));
    (bytes "stats_agg_intvl", text_secs (Startup.stats_agg_intvl c));
    (bytes "hash_power", print_int (hash_power_opt s));
    (bytes "klog_name", str (Startup.klog_name c));
    (bytes "klog_sampling_rate", print_int (Startup.klog_sampling_rate c));
    (bytes "klog_entry", print_int (Startup.klog_entry c));
    (bytes "klog_intvl", text_secs (Startup.klog_intvl c))].

(** The metrics of a row, with their names. *)
Definition metric_lines (now : Z) (tbl : list (string * metric_type)) (row : list stats_metric) : list (list Z * list Z) :=
  zip_with (fun p m => (bytes p.1, print_int (stats_metric_val now m))) tbl row.

(** [%0wd] of a number that is not negative *)
Definition print_pad (w : nat) (n : Z) : list Z := let d := print_u64 n in replicate (w - length d) 48 ++ d.
(** [%ld.%06ld] of a [struct timeval] *)
Definition print_timeval (tv : Z * Z) : list Z := print_int tv.1 ++ bytes "." ++ print_pad 6 tv.2.

(** What the operating system and the build answer. *)
Record process_info := Proc {
  pid : Z;
  stats_ts : Z * Z;
  ru_utime : Z * Z;
  ru_stime : Z * Z;
  version : Z * Z * Z
}.

Definition stats_head (o : process_info) (k : clock) : list (list Z * list Z) :=
  let '(major, minor, patch) := version o in [
    (bytes "pid", print_int (pid o));
    (bytes "uptime", print_u64 (time_now k));
    (bytes "time", print_int (time_started k + time_now k));
    (bytes "aggregate_ts", print_timeval (stats_ts o));
    (bytes "version", print_pad 2 major ++ print_pad 2 minor ++ print_pad 2 patch);
    (bytes "pointer_size", print_u64 64);
    (bytes "rusage_user", print_timeval (ru_utime o));
    (bytes "rusage_system", print_timeval (ru_stime o))].

Definition stats_default (o : process_info) (k : clock) (agg : tstats) : M stats_buf unit :=
  slab ← lift (stats_slabs agg !! 0%nat);
  print_lines (stats_head o k);;
  print_lines (metric_lines (time_now k) STATS_THREAD_METRICS (stats_thread agg));;
  print_lines (metric_lines (time_now k) STATS_SLAB_METRICS slab).

(** One line of [stats_slabs]. *)
Definition slab_line (cid : Z) (name : list Z) (text : list Z) : M stats_buf unit :=
  let key := print_int cid ++ [58] ++ name in
  stats_append (take (Z.to_nat (STATS_KEY_LEN - 1)) key) (Z.of_nat (length key))
    (take (Z.to_nat (STATS_VAL_LEN - 1)) text) (Z.of_nat (length text)).

Fixpoint slab_metric_lines (cid : Z) (l : list (list Z * list Z)) : M stats_buf unit :=
  match l with [] => mret tt | (name, text) :: l' => slab_line cid name text;; slab_metric_lines cid l' end.

(** The sizes of the classes, copied at start-up. *)
Definition stats_slab_getstatic (cl : gmap Z slabclass) : gmap Z (Z * Z) := (fun p => (csize p, nitem p)) <$> cl.

Fixpoint slabs_loop (cids : list Z) (consts : gmap Z (Z * Z)) (now : Z) (agg : tstats) : M stats_buf unit :=
  match cids with
  | [] => mret tt
  | cid :: cids' =>
      slab ← lift (stats_slabs agg !! Z.to_nat cid);
      k ← lift (consts !! cid);
      slab_line cid (bytes "chunk_size") (print_u64 k.1);;
      slab_line cid (bytes "chunks_per_page") (print_u64 k.2);;
      slab_metric_lines cid (metric_lines now STATS_SLAB_METRICS slab);;
      slabs_loop cids' consts now agg
  end.

Definition stats_slabs_report (max_id : Z) (consts : gmap Z (Z * Z)) (now : Z) (agg : tstats) : M stats_buf unit :=
  slabs_loop (seqZ SLABCLASS_MIN_ID (max_id - SLABCLASS_MIN_ID + 1)) consts now agg;; stats_end.

(** The lines of [stats_sizes] from bucket [i] on.  The key is printed inside an
    [ASSERT]: in a build without assertions the line is printed with a key nobody
    wrote, and with them a key of more than seven digits stops the server. *)
Fixpoint sizes_lines (asserts : bool) (i : Z) (histogram : list Z) : M stats_buf unit :=
  match histogram with
  | [] => mret tt
  | n :: histogram' =>
      (if n =? 0 then mret tt
       else
         let key := print_int (s32 (i * 32)) in
         if asserts && (Z.of_nat (length key) <? 8) then stats_print key (print_u64 n) else undef);;
      sizes_lines asserts (i + 1) histogram'
  end.

Definition stats_sizes (asserts : bool) (histogram : option (list Z)) : M stats_buf unit :=
  match histogram with Some h => sizes_lines asserts 0 h | None => mret tt end;; stats_end.
End report.

(** The counting half of [stats_sizes]; a bucket outside the array is an access out
    of bounds. *)
Definition bucket_of (it : item) : Z := (item_size it - 1) ÷ STATS_BUCKET_SIZE + 1.

Fixpoint count_queue (l : list addr) (histogram : list Z) : M st (list Z) :=
  match l with
  | [] => mret histogram
  | a :: l' =>
      it ← get_item a;
      let b := bucket_of it in
      if b <? 0 then undef
      else n ← lift (histogram !! Z.to_nat b); count_queue l' (<[Z.to_nat b := u32 (n + 1)]> histogram)
  end.

Fixpoint count_queues (ids : list Z) (histogram : list Z) : M st (list Z) :=
  match ids with
  | [] => mret histogram
  | id :: ids' => q ← get_lruq false id; h ← count_queue q histogram; count_queues ids' h
  end.

Definition sizes_histogram : M st (option (list Z)) :=
  num_buckets ← gets (fun s => slab_size_opt (cfg s) ÷ STATS_BUCKET_SIZE + 1);
  allocated ← next_malloc;
  lock_cache;;
  max_id ← gets slabclass_max_id;
  r ← (if allocated : bool then
         h ← count_queues (seqZ SLABCLASS_MIN_ID (max_id - SLABCLASS_MIN_ID + 1)) (replicate (Z.to_nat num_buckets) 0);
         mret (Some h)
       else mret None);
  unlock_cache;;
  mret r.

(** ** The dump of a slab class *)

Definition ITEM_CACHEDUMP_MEMLIMIT : Z := 2 * 1024 * 1024.

Definition dump_line (started : Z) (it : item) : list Z :=
  bytes "ITEM " ++ i_key it ++ bytes " [" ++ print_int (s32 (i_nbyte it)) ++ bytes " b; " ++ print_u64 (u64 (i_exptime it + started)) ++ bytes " s]" ++ [13; 10].

(** [bufcurr] is the length of the text so far; the key and the line are put
    together in two arrays of fixed size. *)
Fixpoint dump_loop (l : list addr) (limit shown : Z) (text : list Z) : M st (list Z) :=
  match l with
  | [] => mret text
  | a :: l' =>
      if (limit =? 0) || (shown <? limit) then
        it ← get_item a;
        started ← gets (fun s => time_started (clk s));
        let line := dump_line started it in
        if decide (KEY_MAX_LEN < length (i_key it))%nat then undef
        else if (Z.of_nat (length line) >=? Z.of_nat (2 * KEY_MAX_LEN)) then undef
        else if ITEM_CACHEDUMP_MEMLIMIT <? Z.of_nat (length text + length line + 5) then mret text
        else dump_loop l' limit (u32 (shown + 1)) (text ++ line)
      else mret text
  end.

Definition _item_cache_dump (id limit : Z) : M st (option (list Z)) :=
  allocated ← next_malloc;
  if allocated : bool then
    q ← get_lruq false id;
    text ← dump_loop q limit 0 [];
    mret (Some (text ++ bytes "END" ++ [13; 10]))
  else mret None.

Definition item_cache_dump (id limit : Z) : M st (option (list Z)) :=
  lock_cache;; r ← _item_cache_dump (u8 id) limit; unlock_cache;; mret r.
