(* ===== verification/ReportOk.v ===== *)
(** * The reports are complete and stay in their buffers

    Each line of a report lands whole in the buffer of the connection, or is left out
    whole when the buffer could not grow; the dump of a slab class holds the lines of
    the first items of its queue. *)

From stdpp Require Import list strings.
From S2P Require Import Prelude Util Time Item State Slabs Items Startup Stats Ascii Report.
Open Scope Z_scope.
Implicit Types (s : stats_buf) (text : list Z).

(** ** Growing *)

Definition REPORT_MAX : Z := 2 ^ 29.

(** The buffer holds the text, and the counters describe it. *)
Definition holds text s : Prop :=
  match sb_buffer s with
  | None => text = []
  | Some b =>
      (exists rest, b = init text ++ rest) /\ Z.of_nat (length b) = sb_size s /\
      sb_offset s = Z.of_nat (length text) /\ 1024 <= sb_size s <= 2 * REPORT_MAX
  end.

(** Doubling ends: [k] doublings are enough. *)
Lemma grow_loop_spec k fuel needed nsize offset :
  (k < fuel)%nat -> 0 <= offset -> 0 <= needed -> offset + needed <= REPORT_MAX ->
  0 < nsize <= 2 * REPORT_MAX -> offset <= nsize -> offset + needed <= 2 ^ Z.of_nat k * nsize ->
  exists n, grow_loop fuel needed nsize (nsize - offset) offset = Some n /\
    offset + needed <= n /\ nsize <= n <= 2 * REPORT_MAX.
Proof.
  unfold REPORT_MAX. revert k nsize. induction fuel as [|fuel IH]; intros k nsize Hk Ho Hn Hb Hs Hos Hp; [lia|].
  cbn [grow_loop]. destruct (Z.ltb_spec (nsize - offset) needed) as [Hlt|]; [|exists nsize; split; [done|lia]].
  rewrite Z.shiftl_mul_pow2 by lia. change (2 ^ 1) with 2.
  rewrite (u64_small (nsize * 2)) by lia. rewrite u64_small by lia.
  destruct k as [|k]; [change (2 ^ Z.of_nat 0) with 1 in Hp; lia|].
  rewrite Nat2Z.inj_succ, Z.pow_succ_r in Hp by lia.
  destruct (IH k (nsize * 2)) as (n & -> & ? & ?); [lia..|]. exists n. split; [done|]. lia.
Qed.

Section grow.
Context (e_realloc : nat -> bool).

Definition memory : Prop := forall n, e_realloc n = true.

Lemma stats_buf_grow_spec needed text s :
  holds text s -> 0 < needed -> Z.of_nat (length text) + needed <= REPORT_MAX ->
  wp (stats_buf_grow e_realloc needed) (fun ok s' => holds text s' /\
    (ok = true -> is_Some (sb_buffer s') /\ Z.of_nat (length text) + needed <= sb_size s') /\
    (memory -> ok = true)) s.
Proof.
  intros Hh Hn Hb. unfold stats_buf_grow. apply wp_bind, wp_gets. unfold id.
  destruct s as [[b|] sz off na]; unfold holds in Hh; cbn [sb_buffer sb_size sb_offset sb_nalloc] in Hh |- *.
  - destruct Hh as ((rest & ->) & Hl & -> & Hr). apply wp_bind, wp_modify.
    rewrite u64_small by (unfold REPORT_MAX in *; rewrite length_app, length_init in Hl; lia).
    destruct (grow_loop_spec 30 64 needed sz (Z.of_nat (length text))) as (n & Hg & ? & ?);
      [rewrite ?length_app, ?length_init in Hl; unfold REPORT_MAX in *; lia..|].
    eapply wp_bind, wp_lift; [exact Hg|]. cbn [sb_buffer sb_size sb_offset sb_nalloc]. destruct (Z.eqb_spec n sz) as [->|Hne].
    + apply wp_ret. split; [split; [by exists rest|done]|]. split; [by eauto|done].
    + destruct (e_realloc na) eqn:He.
      * apply wp_bind, wp_modify, wp_ret. split; [|split; [simpl; split; [by eexists|lia]|done]].
        unfold holds; simpl. rewrite take_ge by lia. split; [rewrite <-app_assoc; by eexists|].
        rewrite length_app, length_replicate. lia.
      * apply wp_bind, wp_modify, wp_ret. split; [split; [by exists rest|done]|].
        split; [done|]. intros Hm. by rewrite Hm in He.
  - subst text. apply wp_bind, wp_modify. simpl in Hb.
    assert (exists n, grow_loop 64 needed 1024 0 0 = Some n /\ needed <= n /\ 1024 <= n <= 2 * REPORT_MAX) as (n & Hg & ? & ?).
    { change 64%nat with (S 63). cbn [grow_loop]. destruct (Z.ltb_spec 0 needed); [|lia].
      destruct (grow_loop_spec 30 63 needed 2048 0) as (n & Hg & ? & ?); [unfold REPORT_MAX in *; lia..|].
      exists n. split; [exact Hg|]. lia. }
    eapply wp_bind, wp_lift; [exact Hg|]. cbn [sb_buffer sb_size sb_offset sb_nalloc]. destruct (Z.eqb_spec n 0) as [->|_]; [lia|].
    destruct (e_realloc na) eqn:He.
    + apply wp_bind, wp_modify, wp_ret. split; [|split; [simpl; split; [by eexists|lia]|done]].
      unfold holds; simpl. rewrite take_nil. simpl. split; [by eexists|]. rewrite length_replicate. lia.
    + apply wp_bind, wp_modify, wp_ret. split; [done|]. split; [done|]. intros Hm. by rewrite Hm in He.
Qed.

(** ** One line *)

(** The line [stats_append] writes; [vlen] is not what is written but what was
    asked for. *)
Definition stat_line (key : list Z) (klen : Z) (val : list Z) (vlen : Z) : list Z :=
  if (klen =? 0) && (vlen =? 0) then bytes "END" ++ [13; 10]
  else if vlen =? 0 then bytes "STAT " ++ key ++ [13; 10]
  else bytes "STAT " ++ key ++ bytes " " ++ val ++ [13; 10].

(** The ten bytes asked for beside the key and the value are enough for the words,
    the NUL and the byte the room is short of. *)
Lemma stat_line_length key klen val vlen :
  Z.of_nat (length key) <= klen -> Z.of_nat (length val) <= vlen ->
  Z.of_nat (length (stat_line key klen val vlen)) + 2 <= vlen + klen + 10.
Proof.
  intros. unfold stat_line.
  repeat case_match; rewrite ?length_app; simpl; lia.
Qed.

Lemma asc_append_stats_spec key klen val vlen text s :
  holds text s -> is_Some (sb_buffer s) ->
  Z.of_nat (length text + length (stat_line key klen val vlen)) + 2 <= sb_size s ->
  wp (asc_append_stats key klen val vlen) (fun _ => holds (text ++ stat_line key klen val vlen)) s.
Proof.
  intros Hh [b Hb] Hn. unfold asc_append_stats. fold (stat_line key klen val vlen).
  set (line := stat_line key klen val vlen) in *. apply wp_bind, wp_gets. unfold id.
  unfold holds in Hh. rewrite Hb in Hh. destruct Hh as ((rest & ->) & Hl & Ho & Hr).
  eapply wp_bind, wp_lift; [exact Hb|]. rewrite Ho.
  assert (exists m rest', rest = m ++ rest' /\ length m = S (length line)) as (m & rest' & -> & Hm).
  { exists (take (S (length line)) rest), (drop (S (length line)) rest). split; [by rewrite take_drop|].
    rewrite length_app, length_init in Hl. rewrite length_take. lia. }
  eapply wp_bind, wp_lift.
  - unfold snprintf_at. destruct (Z.ltb_spec (sb_size s - Z.of_nat (length text) - 1) 0); [lia|].
    destruct (Z.eqb_spec (sb_size s - Z.of_nat (length text) - 1) 0); [lia|].
    rewrite take_ge by lia. rewrite <-(length_init text) at 1. apply mem_write_app.
    rewrite length_init, length_app. simpl. lia.
  - apply wp_modify. unfold holds; simpl. split.
    + exists (Some 0 :: rest'). rewrite !init_app, <-!app_assoc. done.
    + rewrite !length_app, !length_init, Hm in Hl. rewrite !length_app, !length_init, !length_app. simpl. lia.
Qed.

Lemma stats_append_spec key klen val vlen text s :
  holds text s -> Z.of_nat (length key) <= klen < 2 ^ 16 -> Z.of_nat (length val) <= vlen ->
  Z.of_nat (length text) + vlen + klen + 10 <= REPORT_MAX -> (klen = 0 -> vlen = 0) ->
  wp (stats_append e_realloc key klen val vlen) (fun _ s' =>
    holds (text ++ stat_line key klen val vlen) s' \/ holds text s' /\ ~ memory) s.
Proof.
  intros Hh Hk Hv Hb H0. unfold stats_append. unfold REPORT_MAX in Hb.
  rewrite (u16_small klen), (u32_small vlen), u32_small by lia.
  destruct (Z.eqb_spec klen 0), (Z.ltb_spec 0 vlen); simpl; try (exfalso; lia).
  all: eapply wp_bind, wp_mono; [apply (stats_buf_grow_spec _ text); [done|lia|unfold REPORT_MAX; lia]|].
  all: intros [] s' (Hh' & Hok & Hm); [|apply wp_ret; right; split; [done|]; intros Hmem; by specialize (Hm Hmem)].
  all: destruct (Hok eq_refl) as [Hs Hz]; pose proof (stat_line_length key klen val vlen).
  all: eapply wp_mono; [apply asc_append_stats_spec; [exact Hh'|done|lia]|]; by left.
Qed.

(** ** Whole reports *)

(** The line of a name and the text of its value. *)
Definition line_of (l : list Z * list Z) : list Z :=
  stat_line l.1 (Z.of_nat (length l.1)) (take 126 l.2) (Z.of_nat (length l.2)).
Definition line_cost (l : list Z * list Z) : Z := Z.of_nat (length l.1) + Z.of_nat (length l.2) + 10.
Definition cost (lines : list (list Z * list Z)) : Z := foldr (fun l z => line_cost l + z) 0 lines.
Definition named (l : list Z * list Z) : Prop := 0 < Z.of_nat (length l.1) < 2 ^ 16.

Lemma cost_nonneg lines : 0 <= cost lines.
Proof. induction lines as [|l lines IH]; simpl; [done|]. unfold line_cost. lia. Qed.

Lemma line_of_length l : Z.of_nat (length (line_of l)) + 2 <= line_cost l.
Proof.
  unfold line_of, line_cost. pose proof (stat_line_length l.1 (Z.of_nat (length l.1)) (take 126 l.2) (Z.of_nat (length l.2))) as H.
  rewrite length_take in H. lia.
Qed.

Lemma print_lines_spec lines text s :
  holds text s -> Forall named lines -> Z.of_nat (length text) + cost lines <= REPORT_MAX ->
  wp (print_lines e_realloc lines) (fun _ s' => exists printed,
    printed `sublist_of` lines /\ (memory -> printed = lines) /\ holds (text ++ concat (line_of <$> printed)) s') s.
Proof.
  revert text s. induction lines as [|[name val] lines IH]; intros text s Hh Hn Hc; simpl.
  - apply wp_ret. exists []. simpl. by rewrite app_nil_r.
  - inversion_clear Hn as [|? ? Hl Hn']. unfold named in Hl; simpl in Hl.
    pose proof (cost_nonneg lines). pose proof (line_of_length (name, val)) as Hlen.
    simpl in Hc. unfold line_cost in Hc, Hlen; simpl in Hc, Hlen.
    apply wp_bind. unfold stats_print. change (Z.to_nat (STATS_VAL_LEN - 2)) with 126%nat.
    eapply wp_mono; [apply (stats_append_spec _ _ _ _ text); [done|lia|rewrite length_take; lia|lia|lia]|].
    intros _ s' [Hh'|[Hh' Hm]].
    + change (stat_line _ _ _ _) with (line_of (name, val)) in Hh'.
      eapply wp_mono; [apply (IH _ _ Hh' Hn'); rewrite length_app; lia|].
      intros _ s'' (printed & Hp & Hm & Hh''). exists ((name, val) :: printed).
      split; [by constructor|]. split; [intros; f_equal; auto|]. simpl. by rewrite app_assoc.
    + eapply wp_mono; [apply (IH _ _ Hh' Hn'); lia|].
      intros _ s'' (printed & Hp & Hm' & Hh''). exists printed.
      split; [by constructor|]. split; [by intros|done].
Qed.
End grow.

Definition empty_report : stats_buf := SBuf None 0 0 0.
Definition END_LINE : list Z := bytes "END" ++ [13; 10].

(** C34: A report of the [stats] commands is a list of names and values printed one
    after the other and then the terminator.  It never writes outside the buffer of
    the connection, whatever the allocator answers, and the buffer then holds whole
    lines only: a subsequence of the lines of the report, and all of them, each with
    at most the first 126 bytes of its value, when no allocation failed; the
    terminator is lost only with an allocation. *)
Theorem stats_report_whole (e_realloc : nat -> bool) (lines : list (list Z * list Z)) :
  Forall named lines -> cost lines + 10 <= REPORT_MAX ->
  wp (print_lines e_realloc lines;; stats_end e_realloc) (fun _ s => exists printed tail,
    printed `sublist_of` lines /\ (tail = END_LINE \/ tail = [] /\ ~ memory e_realloc) /\
    (memory e_realloc -> printed = lines) /\
    holds (concat (line_of <$> printed) ++ tail) s) empty_report.
Proof.
  intros Hn Hc. apply wp_bind.
  eapply wp_mono; [apply (print_lines_spec _ lines []); [done|done|simpl; lia]|].
  intros _ s (printed & Hp & Hm & Hh). simpl in Hh. unfold stats_end.
  eapply wp_mono; [apply (stats_append_spec _ _ _ _ _ _ _ Hh); [done|done| |done]|].
  { assert (Z.of_nat (length (concat (line_of <$> printed))) <= cost lines); [|lia].
    clear -Hp. unfold cost. induction Hp as [|l k1 k2 Hp IH|l k1 k2 Hp IH]; rewrite ?fmap_cons; cbn [concat foldr]; [done| |].
    - rewrite length_app. pose proof (line_of_length l). lia.
    - pose proof (line_of_length l). lia. }
  intros _ s' [Hh'|[Hh' ?]].
  - exists printed, END_LINE. split; [done|]. split; [by left|]. split; done.
  - exists printed, []. rewrite app_nil_r. split; [done|]. split; [by right|]. split; done.
Qed.

Lemma stats_report_whole_witness :
  exists s : stats_buf, holds (bytes "STAT pid 7" ++ [13; 10] ++ bytes "STAT interface" ++ [13; 10] ++ END_LINE) s.
Proof.
  destruct (wp_elim _ _ _ (stats_report_whole (fun _ => true) [(bytes "pid", print_int 7); (bytes "interface", [])]
    ltac:(repeat constructor) ltac:(done))) as (_ & s & _ & printed & tail & _ & [->|[_ Hm]] & Hp & Hh).
  - exists s. rewrite (Hp (fun _ => eq_refl)) in Hh. exact Hh.
  - exfalso. by apply Hm.
Defined.

(** ** The dump of a slab class *)

Definition dumpable (st0 : st) (a : addr) : Prop :=
  exists it, heap st0 !! a = Some it /\ (length (i_key it) <= KEY_MAX_LEN)%nat.

Definition line_at (st0 : st) (a : addr) : list Z :=
  match heap st0 !! a with Some it => dump_line (time_started (clk st0)) it | None => [] end.

Lemma dump_line_length started it :
  (length (i_key it) <= KEY_MAX_LEN)%nat -> (length (dump_line started it) < 2 * KEY_MAX_LEN)%nat.
Proof.
  unfold dump_line, KEY_MAX_LEN. intros. pose proof (print_int_length (s32 (i_nbyte it))).
  pose proof (print_u64_length (u64 (i_exptime it + started))). rewrite !length_app. simpl. lia.
Qed.

Lemma dump_loop_spec q limit shown text (st0 : st) :
  Forall (dumpable st0) q -> Z.of_nat (length text) + 5 <= ITEM_CACHEDUMP_MEMLIMIT ->
  0 <= limit < 2 ^ 32 -> (limit = 0 \/ 0 <= shown <= limit) ->
  wp (dump_loop q limit shown text) (fun r st' => st' = st0 /\ exists k,
    r = text ++ concat (line_at st0 <$> take k q) /\
    Z.of_nat (length r) + 5 <= ITEM_CACHEDUMP_MEMLIMIT /\
    (limit = 0 \/ Z.of_nat k + shown <= limit)) st0.
Proof.
  revert shown text. induction q as [|a q IH]; intros shown text Hq Ht Hl Hs; cbn [dump_loop].
  - apply wp_ret. split; [done|]. exists 0%nat. rewrite app_nil_r. split; [done|]. lia.
  - assert (wp (mret text) (fun r st' => st' = st0 /\ exists k, r = text ++ concat (line_at st0 <$> take k (a :: q)) /\
      Z.of_nat (length r) + 5 <= ITEM_CACHEDUMP_MEMLIMIT /\ (limit = 0 \/ Z.of_nat k + shown <= limit)) st0) as Hstop.
    { apply wp_ret. split; [done|]. exists 0%nat. rewrite app_nil_r. split; [done|]. lia. }
    inversion_clear Hq as [|? ? (it & Hit & Hk) Hq'].
    destruct ((limit =? 0) || (shown <? limit)) eqn:Hgo; [|done].
    unfold get_item. apply wp_bind, wp_bind, wp_gets, (wp_lift _ it); [done|]. apply wp_bind, wp_gets.
    rewrite decide_False by lia. pose proof (dump_line_length (time_started (clk st0)) it Hk).
    rewrite Z.geb_leb. destruct (Z.leb_spec (Z.of_nat (2 * KEY_MAX_LEN)) (Z.of_nat (length (dump_line (time_started (clk st0)) it)))); [lia|].
    destruct (Z.ltb_spec ITEM_CACHEDUMP_MEMLIMIT (Z.of_nat (length text + length (dump_line (time_started (clk st0)) it) + 5))); [done|].
    eapply wp_mono; [apply IH; [done|rewrite length_app; lia|done|]|].
    + destruct (Z.eqb_spec limit 0), (Z.ltb_spec shown limit); simpl in Hgo; try lia.
      right. rewrite u32_small; lia.
    + intros r st' (-> & k & -> & Hr & Hn). split; [done|]. exists (S k). simpl. unfold line_at at 2. rewrite Hit.
      split; [by rewrite app_assoc|]. split; [done|].
      destruct (Z.eqb_spec limit 0), (Z.ltb_spec shown limit); simpl in Hgo; try lia.
      rewrite u32_small in Hn by lia. lia.
Qed.

(** The dump: the lines of the first items of the queue, no more than asked for, and
    the terminator, in the two megabytes of the buffer. *)
Lemma _item_cache_dump_spec id limit q (st0 : st) :
  lruqs st0 false !! id = Some q -> Forall (dumpable st0) q -> 0 <= limit < 2 ^ 32 ->
  wp (_item_cache_dump id limit) (fun r st' => st' = set_nalloc (S (nalloc st0)) st0 /\
    match r with
    | None => e_malloc (env st0) (nalloc st0) = false
    | Some text => exists k, text = concat (line_at st0 <$> take k q) ++ END_LINE /\
        Z.of_nat (length text) <= ITEM_CACHEDUMP_MEMLIMIT /\ (limit = 0 \/ Z.of_nat k <= limit)
    end) st0.
Proof.
  intros Hq Hd Hl. unfold _item_cache_dump, next_malloc. apply wp_bind, wp_bind, wp_gets, wp_bind, wp_modify, wp_ret.
  destruct (e_malloc (env st0) (nalloc st0)) eqn:He; [|by apply wp_ret].
  unfold get_lruq. apply wp_bind, wp_bind, wp_gets, (wp_lift _ q); [done|].
  apply wp_bind. eapply wp_mono; [apply (dump_loop_spec _ _ _ _ (set_nalloc (S (nalloc st0)) st0)); [exact Hd|done|done|lia]|].
  intros r st' (-> & k & -> & Hr & Hk). apply wp_ret. split; [done|]. exists k. simpl. split; [done|].
  split; [rewrite length_app; simpl in *; lia|]. lia.
Qed.
