(* ===== verification/Core.v ===== *)
(** * mc_core.c: the state machine of a connection

    [core_drive_machine] runs while the connection can make progress and stops
    when it has to wait for the socket; libevent calls it again when the socket
    is ready.  One turn of its loop is [core_step].

    The socket is given by what it will answer: the results of the successive
    calls of [read] (or [recvfrom]) and of [sendmsg].  When a list is exhausted
    the socket is not ready.  Whether the calls of libevent and of [realloc]
    succeed is given in advance too.

    The read buffer is the list of the bytes from [rcurr] on that were not
    parsed, with the size of the allocation; the counters of bytes ([data_read],
    [data_written]) and the memory of [write_and_free] are not modelled.  A
    listening socket runs [core_accept] only and is not modelled. *)

From S2P Require Import Prelude Util Item State Slabs Items Conn Ascii AsciiCmd.
Open Scope Z_scope.

Definition TCP_BUFFER_SIZE : nat := 2048.
Definition RSIZE_HIGHWAT : nat := 8192.
Definition ILIST_SIZE : nat := 200.
Definition ILIST_HIGHWAT : nat := 400.
Definition IOV_HIGHWAT : nat := 600.
Definition MSG_HIGHWAT : nat := 100.

(** What [read] answers: the bytes that have arrived (of which it takes as many
    as there is room for), the end of the stream, that it would block, or an
    error. *)
Inductive read_answer := Data (bs : list Z) | Eof | ReadBlock | ReadFail.

(** The events a connection waits for ([EV_PERSIST] is always set). *)
Inductive ev := EV_READ | EV_WRITE.
#[export] Instance ev_eq_dec : EqDecision ev.
Proof. solve_decision. Defined.

(** A connection with its server, its read buffer and its socket; [sent] is what
    the socket took. *)
Record core := Core {
  srv : asc;
  rdata : list Z;
  rsize : nat;
  ev_flags : ev;
  incoming : list read_answer;
  sends : list sendmsg_result;
  sent : mem;
  event_ok : nat -> bool;
  nevent : nat
}.

Definition set_srv x c := Core x (rdata c) (rsize c) (ev_flags c) (incoming c) (sends c) (sent c) (event_ok c) (nevent c).
Definition set_rdata x c := Core (srv c) x (rsize c) (ev_flags c) (incoming c) (sends c) (sent c) (event_ok c) (nevent c).
Definition set_rsize x c := Core (srv c) (rdata c) x (ev_flags c) (incoming c) (sends c) (sent c) (event_ok c) (nevent c).
Definition set_ev_flags x c := Core (srv c) (rdata c) (rsize c) x (incoming c) (sends c) (sent c) (event_ok c) (nevent c).
Definition set_incoming x c := Core (srv c) (rdata c) (rsize c) (ev_flags c) x (sends c) (sent c) (event_ok c) (nevent c).
Definition set_sends x c := Core (srv c) (rdata c) (rsize c) (ev_flags c) (incoming c) x (sent c) (event_ok c) (nevent c).
Definition set_sent x c := Core (srv c) (rdata c) (rsize c) (ev_flags c) (incoming c) (sends c) x (event_ok c) (nevent c).
Definition set_nevent x c := Core (srv c) (rdata c) (rsize c) (ev_flags c) (incoming c) (sends c) (sent c) (event_ok c) x.

Definition on_srv {A} (m : M asc A) : M core A := fun c =>
  match m (srv c) with Some (a, k) => Some (a, set_srv k c) | None => None end.
Definition core_set_state (x : conn_state) : M core unit := on_srv (conn_set_state x).

(** ** The socket *)

(** [read(sd, buf, size)] *)
Definition sock_read (size : nat) : M core read_answer :=
  l ← gets incoming;
  match l with
  | [] => mret ReadBlock
  | Data bs :: l' =>
      let got := take size bs in
      modify (set_incoming (match drop size bs with [] => l' | rest => Data rest :: l' end));;
      mret (match got with [] => Eof | _ => Data got end)
  | r :: l' => modify (set_incoming l');; mret r
  end.

(** [recvfrom]: what does not fit of a datagram is lost. *)
Definition sock_recvfrom (size : nat) : M core read_answer :=
  l ← gets incoming;
  match l with
  | [] => mret ReadBlock
  | Data bs :: l' => modify (set_incoming l');; mret (Data (take size bs))
  | r :: l' => modify (set_incoming l');; mret r
  end.

Definition next_event : M core bool :=
  c ← gets id; modify (set_nevent (S (nevent c)));; mret (event_ok c (nevent c)).

Definition core_update (new_flags : ev) : M core rstatus :=
  f ← gets ev_flags;
  if decide (f = new_flags) then mret MC_OK
  else
    del ← next_event;
    if negb del then mret MC_ERROR
    else
      modify (set_ev_flags new_flags);;
      add ← next_event;
      mret (if (add : bool) then MC_OK else MC_ERROR).

(** [core_update] in the state machine: a failure closes the connection. *)
Definition update_or_close (new_flags : ev) : M core bool :=
  status ← core_update new_flags;
  if bool_decide (status = MC_OK) then mret true else core_set_state CONN_CLOSE;; mret false.

(** ** Connections *)

(** [conn_shrink] (mc_connection.c) *)
Definition conn_shrink : M core unit :=
  c ← gets id;
  if udp (out (srv c)) then mret tt
  else
    when (bool_decide (RSIZE_HIGHWAT < rsize c /\ length (rdata c) < TCP_BUFFER_SIZE)%nat)
      (ok ← on_srv (on_out realloc); when ok (modify (set_rsize TCP_BUFFER_SIZE)));;
    on_srv (
      k ← gets id;
      when (ILIST_HIGHWAT <? isize k)%nat (ok ← on_out realloc; when ok (modify (set_isize ILIST_SIZE)));;
      on_out (
        o ← gets id;
        when (MSG_HIGHWAT <? length (msg o))%nat (ok ← realloc; when ok (modify (fun o => set_msg (take MSG_SIZE (msg o)) o)));;
        o ← gets id;
        when (IOV_HIGHWAT <? length (iov o))%nat (ok ← realloc; when ok (modify (fun o => set_iov (take IOV_SIZE (iov o)) o))))).

(** The items of the response are given up; a NULL in the list is skipped after
    a complete response, and followed when the connection is cleaned up. *)
Fixpoint give_up_items (skip_null : bool) (l : list (option addr)) : M asc unit :=
  match l with
  | [] => modify (set_ileft [])
  | Some a :: l' => on_store (item_remove a);; give_up_items skip_null l'
  | None :: l' => if skip_null then give_up_items skip_null l' else undef
  end.

(** The item that was to be filled. *)
Definition drop_item : M asc unit :=
  o ← gets c_item;
  match o with Some a => on_store (item_remove a);; modify (set_c_item None) | None => mret tt end.

(** [conn_cleanup] (mc_connection.c) *)
Definition conn_cleanup : M asc unit :=
  drop_item;;
  k ← gets id;
  give_up_items false (ileft k);;
  modify (set_sleft 0);;
  when (udp (out k)) (conn_set_state CONN_READ).

(** [core_close], and [conn_close] (mc_connection.c) for the fields of the
    connection. *)
Definition core_close : M core unit :=
  on_srv (
    k ← gets id;
    if udp (out k) then conn_cleanup
    else conn_cleanup;; on_store (record (ThreadDecr "conn_curr"))).

(** ** Reading *)

Inductive read_result := READ_DATA_RECEIVED | READ_NO_DATA_RECEIVED | READ_ERROR | READ_MEMORY_ERROR.

Definition core_read_udp : M core read_result :=
  size ← gets rsize;
  r ← sock_recvfrom size;
  match r with
  | Data (b0 :: b1 :: _ :: _ :: b4 :: b5 :: _ :: _ :: b :: rest) =>
      on_srv (on_out (modify (fun o => OutV (udp o) (b0 * 256 + b1) (iov o) (iov_used o) (msg o) (msg_used o) (msg_curr o) (msg_bytes o)
                                           (udp_hsize o) (reallocs o) (nrealloc o))));;
      if negb (b4 =? 0) || negb (b5 =? 1) then on_srv asc_write_server_error;; mret READ_NO_DATA_RECEIVED
      else modify (set_rdata (b :: rest));; mret READ_DATA_RECEIVED
  | _ => mret READ_NO_DATA_RECEIVED
  end.

(** When the buffer is full it is doubled, four times at most: the number of
    allocations so far, or the result to return. *)
Definition core_grow (num_allocs : nat) (gotdata : read_result) : M core (read_result + nat) :=
  c ← gets id;
  if decide (rsize c <= length (rdata c))%nat then
    if decide (num_allocs = 4)%nat then mret (inl gotdata)
    else
      ok ← on_srv (on_out realloc);
      if negb ok then
        modify (set_rdata []);;
        on_srv (asc_write_server_error;; modify (set_write_and_go CONN_CLOSE));;
        mret (inl READ_MEMORY_ERROR)
      else if decide (2 ^ 31 <= 2 * Z.of_nat (rsize c)) then undef
      else modify (set_rsize (rsize c * 2)%nat);; mret (inr (S num_allocs))
  else mret (inr num_allocs).

Fixpoint core_read_tcp_loop (fuel num_allocs : nat) (gotdata : read_result) : M core read_result :=
  match fuel with
  | O => undef
  | S fuel' =>
      go ← core_grow num_allocs gotdata;
      match go with
      | inl r => mret r
      | inr num_allocs =>
          c ← gets id;
          let size := (rsize c - length (rdata c))%nat in
          r ← sock_read size;
          match r with
          | Data bs =>
              modify (set_rdata (rdata c ++ bs));;
              if decide (length bs = size) then core_read_tcp_loop fuel' num_allocs READ_DATA_RECEIVED
              else mret READ_DATA_RECEIVED
          | Eof => mret READ_ERROR
          | ReadBlock => mret gotdata
          | ReadFail => mret READ_ERROR
          end
      end
  end.

(** A read without an allocation, four with one, and the round that returns. *)
Definition core_read_tcp : M core read_result := core_read_tcp_loop 6 0 READ_NO_DATA_RECEIVED.

Definition core_read : M core unit :=
  u ← gets (fun c => udp (out (srv c)));
  result ← (if (u : bool) then core_read_udp else core_read_tcp);
  match result with
  | READ_NO_DATA_RECEIVED => core_set_state CONN_WAIT
  | READ_DATA_RECEIVED => core_set_state CONN_PARSE
  | READ_ERROR => core_set_state CONN_CLOSE
  | READ_MEMORY_ERROR => mret tt
  end.

(** ** Requests *)

Definition core_reset_cmd_handler : M core unit :=
  on_srv (modify (fun k => set_cn (Items.Conn REQ_UNKNOWN (c_lease_token (cn k)) (c_tid (cn k))) k);; drop_item);;
  conn_shrink;;
  d ← gets rdata;
  core_set_state (if decide (d = []) then CONN_WAIT else CONN_PARSE).

Definition core_parse (e : request_env) : M core unit :=
  d ← gets rdata;
  '(status, rest) ← on_srv (asc_parse e d);
  modify (set_rdata rest);;
  when (bool_decide (status = MC_EAGAIN)) (core_set_state CONN_WAIT).

(** After a read that brought nothing: the end of the stream and errors close
    the connection, otherwise it waits; whether the loop stops. *)
Definition read_failed (r : read_answer) : M core bool :=
  match r with
  | ReadBlock => update_or_close EV_READ
  | _ => core_set_state CONN_CLOSE;; mret false
  end.

(** Bytes of the value of the item. *)
Definition fill_item (a : addr) (bs : list Z) : M asc unit :=
  k ← gets id;
  on_store (write_data a (ritem k) (init bs));;
  modify (set_ritem (ritem k + Z.of_nat (length bs)));;
  modify (set_rlbytes (rlbytes k - Z.of_nat (length bs))).

Definition nread_socket (a : addr) : M core bool :=
  left ← gets (fun c => rlbytes (srv c));
  if left =? 0 then mret false
  else
    r ← sock_read (Z.to_nat left);
    match r with
    | Data bs => on_srv (fill_item a bs);; mret false
    | _ => read_failed r
    end.

(** [CONN_NREAD]: the value of an item is read, first from the bytes that have
    been read already; whether the loop stops.  A negative length overruns the
    buffer. *)
Definition core_nread : M core bool :=
  k ← gets srv;
  if rlbytes k =? 0 then on_srv asc_complete_nread;; mret false
  else if rlbytes k <? 0 then undef
  else
    a ← lift (c_item k);
    d ← gets rdata;
    let tocopy := Nat.min (Z.to_nat (rlbytes k)) (length d) in
    when (0 <? tocopy)%nat (on_srv (fill_item a (take tocopy d));; modify (set_rdata (drop tocopy d)));;
    nread_socket a.

(** [CONN_SWALLOW]: bytes are read and dropped. *)
Definition core_swallow : M core bool :=
  k ← gets srv;
  if sbytes k =? 0 then core_set_state CONN_NEW_CMD;; mret false
  else if sbytes k <? 0 then undef
  else
    d ← gets rdata;
    if decide (0 < length d)%nat then
      let tocopy := Nat.min (Z.to_nat (sbytes k)) (length d) in
      on_srv (modify (set_sbytes (sbytes k - Z.of_nat tocopy)));;
      modify (set_rdata (drop tocopy d));;
      mret false
    else
      size ← gets rsize;
      r ← sock_read (Nat.min (Z.to_nat (sbytes k)) size);
      match r with
      | Data bs => on_srv (modify (set_sbytes (sbytes k - Z.of_nat (length bs))));; mret false
      | _ => read_failed r
      end.

(** ** Responses *)

(** [core_transmit] with its effects on the state of the connection; [sendmsg]
    is not called when everything was sent. *)
Definition core_transmit_conn : M core transmit_result :=
  l ← gets sends;
  '(r, bytes) ← on_srv (on_out (core_transmit (default WouldBlock (head l))));
  modify (fun c => set_sent (sent c ++ bytes) c);;
  modify (set_sends (match r with TRANSMIT_COMPLETE => l | _ => tail l end));;
  match r with
  | TRANSMIT_SOFT_ERROR =>
      ok ← update_or_close EV_WRITE; mret (if (ok : bool) then TRANSMIT_SOFT_ERROR else TRANSMIT_HARD_ERROR)
  | TRANSMIT_HARD_ERROR =>
      u ← gets (fun c => udp (out (srv c)));
      core_set_state (if (u : bool) then CONN_READ else CONN_CLOSE);; mret r
  | _ => mret r
  end.

(** The response was sent. *)
Definition transmit_complete : M asc unit :=
  k ← gets id;
  match state k with
  | CONN_MWRITE => give_up_items true (ileft k);; modify (set_sleft 0);; conn_set_state CONN_NEW_CMD
  | CONN_WRITE => conn_set_state (write_and_go k)
  | _ => conn_set_state CONN_CLOSE
  end.

(** [CONN_MWRITE] *)
Definition core_mwrite : M core bool :=
  k ← gets srv;
  status ← (if udp (out k) && (msg_curr (out k) =? 0)%nat then on_srv (on_out conn_build_udp_headers) else mret MC_OK);
  if negb (bool_decide (status = MC_OK)) then core_set_state CONN_CLOSE;; mret false
  else
    r ← core_transmit_conn;
    match r with
    | TRANSMIT_COMPLETE => on_srv transmit_complete;; mret false
    | TRANSMIT_INCOMPLETE | TRANSMIT_HARD_ERROR => mret false
    | TRANSMIT_SOFT_ERROR => mret true
    end.

(** [CONN_WRITE]: a simple response is put in the vector first. *)
Definition core_write : M core bool :=
  k ← gets srv;
  status ← (if (iov_used (out k) =? 0)%nat || (udp (out k) && (iov_used (out k) =? 1)%nat)
            then on_srv (add_iov (wdata k)) else mret MC_OK);
  if negb (bool_decide (status = MC_OK)) then core_set_state CONN_CLOSE;; mret false
  else core_mwrite.

(** ** The state machine *)

(** One turn of the loop, with the number of requests that may still be served:
    whether the loop stops, and that number. *)
Definition core_step (e : request_env) (nreqs : Z) : M core (bool * Z) :=
  k ← gets srv;
  let go_on (m : M core bool) : M core (bool * Z) := stop ← m; mret (stop, nreqs) in
  match state k with
  | CONN_LISTEN => undef
  | CONN_WAIT => go_on (
      ok ← update_or_close EV_READ;
      if (ok : bool) then core_set_state CONN_READ;; mret true else mret false)
  | CONN_READ => go_on (core_read;; mret false)
  | CONN_PARSE => go_on (core_parse e;; mret false)
  | CONN_NEW_CMD =>
      if 0 <=? nreqs - 1 then core_reset_cmd_handler;; mret (false, nreqs - 1)
      else
        on_srv (on_store (record (ThreadIncr "conn_yield")));;
        d ← gets rdata;
        when (0 <? length d)%nat (update_or_close EV_WRITE;; mret tt);;
        mret (true, nreqs - 1)
  | CONN_NREAD => go_on core_nread
  | CONN_SWALLOW => go_on core_swallow
  | CONN_WRITE => go_on core_write
  | CONN_MWRITE => go_on core_mwrite
  | CONN_CLOSE => go_on (core_close;; mret true)
  end.

(** [nreqs] starts as [settings.reqs_per_event]. *)
Fixpoint core_drive_machine (e : request_env) (fuel : nat) (nreqs : Z) : M core unit :=
  match fuel with
  | O => undef
  | S fuel' =>
      '(stop, nreqs) ← core_step e nreqs;
      if (stop : bool) then mret tt else core_drive_machine e fuel' nreqs
  end.
