(* ===== verification/Pool.v ===== *)
(** * Connections between threads (mc_connection.c, mc_thread.c, mc_core.c)

    The main thread accepts clients, takes a connection structure from the pool of
    unused ones or allocates it, and hands it to the next worker through the
    worker's queue and a byte in its pipe; a worker takes connections from its
    queue, serves them and puts the structures back.  The queues are linked by the
    macros of [Queue].  Every thread is a sequence of atomic accesses: what a mutex
    protects is one access.

    Counters of the statistics, the name of the peer and the re-arming of listening
    sockets are left out.  Fields that start with [g_] are not in the program; they record what it did. *)

From stdpp Require Import gmap.
From S2P Require Import Prelude State Items Queue Conc Conn Ascii Core Report.
Open Scope Z_scope.

(** ** Connection structures *)

(** What [conn_get] sets for a new use. *)
Record use := Use {
  u_sd : Z;
  u_state : conn_state;
  u_ev_flags : ev;
  u_thread : option nat;
  u_rbytes : Z;
  u_wbytes : Z;
  u_write_and_go : conn_state;
  u_write_and_free : bool;
  u_ritem : bool;
  u_rlbytes : Z;
  u_item : option addr;
  u_sbytes : Z;
  u_iov_used : Z;
  u_msg_used : Z;
  u_msg_curr : Z;
  u_msg_bytes : Z;
  u_ileft : Z;
  u_sleft : Z;
  u_stats : stats_buf;
  u_req_type : req_type;
  u_req_len : Z;
  u_udp : bool;
  u_udp_rid : Z;
  u_udp_hbuf : bool;
  u_udp_hsize : Z;
  u_noreply : bool
}.

(** [mc_zalloc] *)
Definition zero_use : use :=
  Use 0 CONN_LISTEN EV_READ None 0 0 CONN_LISTEN false false 0 None 0 0 0 0 0 0 0 (SBuf None 0 0 0) REQ_UNKNOWN 0 false 0 false 0 false.
Definition new_use (sd : Z) (state : conn_state) (ev_flags : ev) (udp : bool) : use :=
  Use sd state ev_flags None 0 0 state false false 0 None 0 0 0 0 0 0 0 (SBuf None 0 0 0) REQ_UNKNOWN 0 udp 0 false 0 false.
Definition set_thread (t : nat) (u : use) : use :=
  Use (u_sd u) (u_state u) (u_ev_flags u) (Some t) (u_rbytes u) (u_wbytes u) (u_write_and_go u) (u_write_and_free u) (u_ritem u)
    (u_rlbytes u) (u_item u) (u_sbytes u) (u_iov_used u) (u_msg_used u) (u_msg_curr u) (u_msg_bytes u) (u_ileft u) (u_sleft u) (u_stats u)
    (u_req_type u) (u_req_len u) (u_udp u) (u_udp_rid u) (u_udp_hbuf u) (u_udp_hsize u) (u_noreply u).

(** [c_bufs] says which of [rbuf], [wbuf], [ilist], [slist], [iov] and [msg] are not
    NULL. *)
Record cstruct := CStruct { c_rsize : Z; c_bufs : list bool; c_use : use }.

Definition UDP_BUFFER_SIZE : Z := 65536.

(** ** The shared state

    [sds] are the open descriptors, each with the connection of a client it was
    given to (datagram sockets are shared by the workers);
    [g_holder] is the thread that works on a connection, [g_handed] and [g_taken]
    are the connections pushed onto and popped from the queues of the workers. *)
Record wire := Wire {
  lnk : links;
  conns : gmap Z cstruct;
  next_conn : Z;
  nfree_connq : Z;
  last_thread : Z;
  notify : gmap nat nat;
  registered : gmap Z nat;
  sds : gmap Z (option Z);
  accepting : bool;
  nsys : nat;
  g_holder : gmap Z nat;
  g_handed : list (Z * nat);
  g_taken : list (Z * nat)
}.

Definition set_lnk x s := Wire x (conns s) (next_conn s) (nfree_connq s) (last_thread s) (notify s) (registered s) (sds s) (accepting s) (nsys s) (g_holder s) (g_handed s) (g_taken s).
Definition set_conns x s := Wire (lnk s) x (next_conn s) (nfree_connq s) (last_thread s) (notify s) (registered s) (sds s) (accepting s) (nsys s) (g_holder s) (g_handed s) (g_taken s).
Definition set_next_conn x s := Wire (lnk s) (conns s) x (nfree_connq s) (last_thread s) (notify s) (registered s) (sds s) (accepting s) (nsys s) (g_holder s) (g_handed s) (g_taken s).
Definition set_nfree_connq x s := Wire (lnk s) (conns s) (next_conn s) x (last_thread s) (notify s) (registered s) (sds s) (accepting s) (nsys s) (g_holder s) (g_handed s) (g_taken s).
Definition set_last_thread x s := Wire (lnk s) (conns s) (next_conn s) (nfree_connq s) x (notify s) (registered s) (sds s) (accepting s) (nsys s) (g_holder s) (g_handed s) (g_taken s).
Definition set_notify x s := Wire (lnk s) (conns s) (next_conn s) (nfree_connq s) (last_thread s) x (registered s) (sds s) (accepting s) (nsys s) (g_holder s) (g_handed s) (g_taken s).
Definition set_registered x s := Wire (lnk s) (conns s) (next_conn s) (nfree_connq s) (last_thread s) (notify s) x (sds s) (accepting s) (nsys s) (g_holder s) (g_handed s) (g_taken s).
Definition set_sds x s := Wire (lnk s) (conns s) (next_conn s) (nfree_connq s) (last_thread s) (notify s) (registered s) x (accepting s) (nsys s) (g_holder s) (g_handed s) (g_taken s).
Definition set_accepting x s := Wire (lnk s) (conns s) (next_conn s) (nfree_connq s) (last_thread s) (notify s) (registered s) (sds s) x (nsys s) (g_holder s) (g_handed s) (g_taken s).
Definition set_nsys x s := Wire (lnk s) (conns s) (next_conn s) (nfree_connq s) (last_thread s) (notify s) (registered s) (sds s) (accepting s) x (g_holder s) (g_handed s) (g_taken s).
Definition set_holder x s := Wire (lnk s) (conns s) (next_conn s) (nfree_connq s) (last_thread s) (notify s) (registered s) (sds s) (accepting s) (nsys s) x (g_handed s) (g_taken s).
Definition set_handed x s := Wire (lnk s) (conns s) (next_conn s) (nfree_connq s) (last_thread s) (notify s) (registered s) (sds s) (accepting s) (nsys s) (g_holder s) x (g_taken s).
Definition set_taken x s := Wire (lnk s) (conns s) (next_conn s) (nfree_connq s) (last_thread s) (notify s) (registered s) (sds s) (accepting s) (nsys s) (g_holder s) (g_handed s) x.

(** The heads: [free_connq], and [new_cq.hdr] of worker [i]. *)
Definition free_connq : Z := 0.
Definition new_cq (i : nat) : Z := Z.of_nat i + 1.

Definition on_links {A} (m : M links A) : M wire A := fun s =>
  match m (lnk s) with Some (a, l) => Some (a, set_lnk l s) | None => None end.
Definition get_conn (c : Z) : M wire cstruct := o ← gets (fun s => conns s !! c); lift o.
Definition put_conn (c : Z) (x : cstruct) : M wire unit := modify (fun s => set_conns (<[c := x]> (conns s)) s).
Definition hold (c : Z) (me : nat) : M wire unit := modify (fun s => set_holder (<[c := me]> (g_holder s)) s).
Definition let_go (c : Z) : M wire unit := modify (fun s => set_holder (delete c (g_holder s)) s).

(** [conn_init], and [conn_cq_init] of the worker threads. *)
Fixpoint conn_queues_init (n : nat) : M links unit :=
  match n with
  | O => STAILQ_INIT free_connq
  | S n' => conn_queues_init n';; STAILQ_INIT (new_cq n')
  end.

Section wire.
(** The [n]-th call of the operating system or of libevent: whether an allocation,
    [event_add], the [write] to a pipe, [fcntl] succeed. *)
Context (e_alloc e_event e_notify e_nonblock : nat -> bool) (num_workers : Z).
Notation thr := (thread wire).

Definition sys {A} (e : nat -> A) : M wire A := n ← gets nsys; modify (set_nsys (S n));; mret (e n).

(** ** Queues of connections *)

Definition conn_cq_push (t : nat) (c : Z) : thr unit :=
  atomic (on_links (set_next (Field c) None));;
  atomic (
    on_links (STAILQ_INSERT_TAIL (new_cq t) c);;
    let_go c;; modify (fun s => set_handed (g_handed s ++ [(c, t)]) s)).

Definition conn_cq_pop (me : nat) : thr (option Z) :=
  atomic (
    o ← on_links (STAILQ_FIRST (new_cq me));
    match o with
    | Some c =>
        on_links (STAILQ_REMOVE (new_cq me) c);;
        hold c me;; modify (fun s => set_taken (g_taken s ++ [(c, me)]) s);;
        mret (Some c)
    | None => mret None
    end).

(** ** The pool of structures *)

(** The memory of the structure is given back with that of its buffers. *)
Definition conn_free (c : Z) : thr unit :=
  atomic (
    _ ← get_conn c;
    modify (fun s => set_conns (delete c (conns s)) (set_lnk (Links (delete (Field c) (nxt (lnk s))) (delete (Field c) (prv (lnk s)))) s));;
    let_go c).

Definition conn_put (c : Z) : thr unit :=
  x ← atomic (get_conn c);
  if Z.of_nat RSIZE_HIGHWAT <? c_rsize x then conn_free c
  else
    atomic (
      modify (fun s => set_nfree_connq (nfree_connq s + 1) s);;
      on_links (STAILQ_INSERT_TAIL free_connq c);;
      let_go c).

Definition _conn_get (me : nat) : thr (option Z) :=
  atomic (
    empty ← on_links (STAILQ_EMPTY free_connq);
    if (empty : bool) then mret None
    else
      o ← on_links (STAILQ_FIRST free_connq);
      c ← lift o;
      modify (fun s => set_nfree_connq (nfree_connq s - 1) s);;
      on_links (STAILQ_REMOVE free_connq c);;
      hold c me;; mret (Some c)).

(** [mc_zalloc] of a structure: memory nothing points to. *)
Definition zalloc_conn (me : nat) (rsize : Z) : thr (option Z) :=
  atomic (
    ok ← sys e_alloc;
    if (ok : bool) then
      c ← gets next_conn;
      modify (fun s => set_next_conn (c + 1) (set_lnk (Links (<[Field c := None]> (nxt (lnk s))) (<[Field c := None]> (prv (lnk s)))) s));;
      put_conn c (CStruct rsize (replicate 6 false) zero_use);;
      hold c me;; mret (Some c)
    else mret None).

(** The [k] buffers of a new structure. *)
Fixpoint alloc_bufs (k : nat) (c : Z) : thr unit :=
  match k with
  | O => mret tt
  | S k' =>
      atomic (
        ok ← sys e_alloc; x ← get_conn c;
        put_conn c (CStruct (c_rsize x) (<[(6 - k)%nat := ok]> (c_bufs x)) (c_use x)));;
      alloc_bufs k' c
  end.

(** The fields are set; the descriptor of a client belongs to the connection now. *)
Definition reset_conn (c sd : Z) (state : conn_state) (ev_flags : ev) (udp : bool) : thr unit :=
  atomic (on_links (set_next (Field c) None));;
  atomic (
    x ← get_conn c;
    if forallb id (c_bufs x) then
      put_conn c (CStruct (c_rsize x) (c_bufs x) (new_use sd state ev_flags udp));;
      when (negb udp) (modify (fun s => set_sds (<[sd := Some c]> (sds s)) s))
    else undef).

(** A structure from the pool, or a new one with its buffers. *)
Definition struct_get (me : nat) (rsize : Z) : thr (option Z) :=
  o ← _conn_get me;
  match o with
  | Some c => mret (Some c)
  | None =>
      o ← zalloc_conn me rsize;
      match o with
      | Some c =>
          alloc_bufs 6 c;;
          x ← atomic (get_conn c);
          if forallb id (c_bufs x) then mret (Some c) else conn_free c;; mret None
      | None => mret None
      end
  end.

Definition conn_get (me : nat) (sd : Z) (state : conn_state) (ev_flags : ev) (rsize : Z) (udp : bool) : thr (option Z) :=
  o ← struct_get me rsize;
  match o with
  | Some c => reset_conn c sd state ev_flags udp;; mret (Some c)
  | None => mret None
  end.

(** ** Handing over *)

Definition close (sd : Z) : thr unit := atomic (modify (fun s => set_sds (delete sd (sds s)) s)).

Definition notify_worker (t : nat) : thr bool :=
  atomic (
    ok ← sys e_notify;
    modify (fun s => if ok : bool then set_notify (alter S t (notify s)) s else s);;
    mret ok).

Definition next_worker : thr nat :=
  atomic (
    l ← gets last_thread;
    (if num_workers =? 0 then undef else mret tt);;
    let tid := (l + 1) mod num_workers in
    modify (set_last_thread tid);; mret (Z.to_nat tid)).

(** Answers whether the connection was dispatched. *)
Definition thread_dispatch (me : nat) (sd : Z) (state : conn_state) (ev_flags : ev) (udp : bool) : thr bool :=
  let rsize := if udp then UDP_BUFFER_SIZE else Z.of_nat TCP_BUFFER_SIZE in
  o ← conn_get me sd state ev_flags rsize udp;
  match o with
  | None => mret false
  | Some c => t ← next_worker; conn_cq_push t c;; notify_worker t
  end.

Definition core_accept_conns (do_accept : bool) : thr unit := atomic (modify (set_accepting do_accept)).

Inductive accept_answer := Accepted | AcceptIntr | AcceptAgain | AcceptMfile | AcceptError.

(** [accept] opens a descriptor that was not open. *)
Definition accept_sd : thr Z :=
  atomic (sd ← gets (fun s => fresh (dom (sds s))); modify (fun s => set_sds (<[sd := None]> (sds s)) s);; mret sd).

Definition accepted (me : nat) : thr unit :=
  sd ← accept_sd;
  ok ← atomic (sys e_nonblock);
  if (ok : bool) then
    ok ← thread_dispatch me sd CONN_NEW_CMD EV_READ false;
    if (ok : bool) then mret tt else close sd
  else close sd.

(** One readiness of a listening socket; [answers] are those of [accept]. *)
Fixpoint core_accept (me : nat) (answers : list accept_answer) : thr unit :=
  match answers with
  | AcceptIntr :: answers' => core_accept me answers'
  | AcceptMfile :: _ => core_accept_conns false
  | Accepted :: _ => accepted me
  | AcceptAgain :: _ | AcceptError :: _ | [] => mret tt
  end.

(** The loop of [core_create_inet_socket] for a datagram socket. *)
Fixpoint dispatch_udp (me : nat) (sd : Z) (k : nat) : thr unit :=
  match k with
  | O => mret tt
  | S k' =>
      ok ← thread_dispatch me sd CONN_READ EV_READ true;
      if (ok : bool) then dispatch_udp me sd k' else mret tt
  end.

(** ** The workers *)

(** [event_add]: from now on the loop of thread [me] serves the connection. *)
Definition conn_set_event (c : Z) (me : nat) : thr bool :=
  atomic (
    ok ← sys e_event;
    modify (fun s => if ok : bool then set_registered (<[c := me]> (registered s)) s else s);;
    mret ok).

Definition thread_libevent_process (me : nat) : thr unit :=
  atomic (modify (fun s => set_notify (alter pred me (notify s)) s));;
  o ← conn_cq_pop me;
  match o with
  | None => mret tt
  | Some c =>
      atomic (x ← get_conn c; put_conn c (CStruct (c_rsize x) (c_bufs x) (set_thread me (c_use x))));;
      ok ← conn_set_event c me;
      if (ok : bool) then mret tt
      else x ← atomic (get_conn c); close (u_sd (c_use x));; conn_put c
  end.

(** [conn_cleanup] is in [Core]. *)
Definition conn_close (c : Z) : thr unit :=
  atomic (modify (fun s => set_registered (delete c (registered s)) s));;
  x ← atomic (get_conn c);
  close (u_sd (c_use x));;
  core_accept_conns true;;
  conn_put c.

Definition core_close_conn (c : Z) : thr unit :=
  x ← atomic (get_conn c);
  if u_udp (c_use x) then mret tt else conn_close c.

(** What a worker's loop is woken for: a byte in its pipe, or a connection it has
    registered, which it serves (and whose read buffer may grow) or closes. *)
Inductive wakeup := Notified | Grew (c : Z) (rsize : Z) | Closing (c : Z).

Definition worker_wakes (me : nat) (w : wakeup) : thr unit :=
  match w with
  | Notified => thread_libevent_process me
  | Grew c rsize =>
      atomic (
        o ← gets (fun s => registered s !! c);
        if decide (o = Some me) then x ← get_conn c; put_conn c (CStruct rsize (c_bufs x) (c_use x)) else mret tt)
  | Closing c =>
      o ← atomic (gets (fun s => registered s !! c));
      if decide (o = Some me) then core_close_conn c else mret tt
  end.

Fixpoint worker_loop (me : nat) (ws : list wakeup) : thr unit :=
  match ws with [] => mret tt | w :: ws' => worker_wakes me w;; worker_loop me ws' end.

(** The main thread: datagram sockets at start-up, then the listening ones. *)
Fixpoint dispatch_all (me : nat) (udp_sds : list Z) : thr unit :=
  match udp_sds with [] => mret tt | sd :: l => dispatch_udp me sd (Z.to_nat num_workers);; dispatch_all me l end.
Fixpoint accept_all (me : nat) (scripts : list (list accept_answer)) : thr unit :=
  match scripts with [] => mret tt | a :: l => core_accept me a;; accept_all me l end.
Definition main_loop (me : nat) (udp_sds : list Z) (scripts : list (list accept_answer)) : thr unit :=
  dispatch_all me udp_sds;; accept_all me scripts.
End wire.
