(* ===== verification/PoolOk.v ===== *)
(** * Connections are handed over and never shared

    Main thread and workers in any interleaving: a structure is in the pool, on the
    queue of one worker or held by one thread; each worker gets its connections in
    the order in which they were dispatched, and they are dispatched in turn. *)

From stdpp Require Import gmap relations.
From S2P Require Import Prelude State Items Queue QueueOk Conc Conn Ascii Core Report Pool.
Open Scope Z_scope.
Implicit Types (s : wire) (c sd : Z) (i j : nat) (x : cstruct) (Q : gmap Z (list Z)).

#[local] Existing Instance stailq_queue | 0.

Lemma new_cq_free i : new_cq i <> free_connq.
Proof. unfold new_cq, free_connq. lia. Qed.
#[local] Instance new_cq_inj : Inj (=) (=) new_cq.
Proof. intros i j. unfold new_cq. lia. Qed.

Section pool.
Context (e_alloc e_event e_notify e_nonblock : nat -> bool) (n : nat) (udp_sds : list Z).
Context (Hn : (0 < n)%nat).

(** The calls whose failure makes the program close descriptors that are in use. *)
Definition reliable : Prop := (forall k, e_event k = true) /\ (forall k, e_notify k = true).

Definition whole x : Prop := c_bufs x = replicate 6 true.
Definition of_worker i (l : list (Z * nat)) : list Z := (filter (fun p => p.2 = i) l).*1.

(** The descriptor of a client is the connection's own. *)
Definition owns s c x : Prop := u_udp (c_use x) = false -> sds s !! u_sd (c_use x) = Some (Some c).

Record inv_with Q s : Prop := {
  i_queues : queues (lnk s) Q;
  i_free : exists l, Q !! free_connq = Some l /\ nfree_connq s = Z.of_nat (length l);
  i_worker i : (i < n)%nat -> exists l, Q !! new_cq i = Some l /\ of_worker i (g_handed s) = of_worker i (g_taken s) ++ l;
  i_queued h l c : Q !! h = Some l -> c ∈ l -> g_holder s !! c = None /\ exists x, conns s !! c = Some x /\ whole x /\ (reliable -> h <> free_connq -> owns s c x);
  i_held c j : g_holder s !! c = Some j -> is_Some (conns s !! c);
  i_conns c : is_Some (conns s !! c) -> c < next_conn s /\ cell (lnk s) (Field c) /\ (is_Some (g_holder s !! c) \/ exists h l, Q !! h = Some l /\ c ∈ l);
  i_registered c i : registered s !! c = Some i -> g_holder s !! c = Some i /\ exists x, conns s !! c = Some x /\ whole x /\ (reliable -> owns s c x);
  i_turns k c i : g_handed s !! k = Some (c, i) -> i = (k mod n)%nat;
  i_udp sd : reliable -> sd ∈ udp_sds -> sds s !! sd = Some None
}.
Definition inv s : Prop := exists Q, inv_with Q s.

(** What the others leave to thread [i]: the connections it holds, and to the main
    thread the accepted descriptors and the turns. *)
Record mine i s s' : Prop := {
  m_held c : g_holder s !! c = Some i ->
    g_holder s' !! c = Some i /\ conns s' !! c = conns s !! c /\ registered s' !! c = registered s !! c /\
    (reliable -> forall sd, sds s !! sd = Some (Some c) -> sds s' !! sd = Some (Some c));
  m_main : i = n -> g_handed s' = g_handed s /\ last_thread s' = last_thread s /\
    (reliable -> forall sd, sds s !! sd = Some None -> sds s' !! sd = Some None)
}.

Definition R i s s' : Prop := inv s -> inv s' /\ mine i s s'.
Definition G i s s' : Prop := inv s -> inv s' /\ forall j, j <> i -> mine j s s'.

Lemma mine_refl i s : mine i s s.
Proof. by split. Qed.
Lemma mine_trans i s1 s2 s3 : mine i s1 s2 -> mine i s2 s3 -> mine i s1 s3.
Proof.
  intros [A1 A2] [B1 B2]. split.
  - intros c Hc. destruct (A1 c Hc) as (H1 & H2 & H3 & H4). destruct (B1 c H1) as (K1 & K2 & K3 & K4).
    split; [done|]. split; [congruence|]. split; [congruence|]. intros Hr sd Hs. by apply K4, H4.
  - intros Hi. destruct (A2 Hi) as (H1 & H2 & H3), (B2 Hi) as (K1 & K2 & K3). split; [congruence|]. split; [congruence|].
    intros Hr sd Hs. by apply K3, H3.
Qed.

#[local] Instance R_refl i : Reflexive (R i).
Proof. intros s HI. split; [done|apply mine_refl]. Qed.
#[local] Instance R_trans i : Transitive (R i).
Proof. intros s1 s2 s3 H1 H2 HI. destruct (H1 HI) as [I2 M2]. destruct (H2 I2) as [I3 M3]. split; [done|by eapply mine_trans]. Qed.
Lemma G_R i j s s' : i <> j -> G i s s' -> R j s s'.
Proof. intros Hne HG HI. destruct (HG HI) as [HI' HM]. split; [done|]. by apply HM. Qed.

(** An access: it may assume the invariant and what the others leave, keeps the
    invariant, and leaves the others what is theirs. *)
Definition step i s s' : Prop := inv s' /\ forall j, j <> i -> mine j s s'.

Lemma rg_act {A B} i (m : M wire A) (k : A -> thread wire B) P s :
  inv s -> (forall s1, inv s1 -> mine i s s1 -> wp m (fun a s2 => step i s1 s2 /\ rg (R i) (G i) (k a) P s2) s1) ->
  rg (R i) (G i) (atomic m ≫= k) P s.
Proof.
  intros HI Hm. apply rg_step. intros s1 HR. destruct (HR HI) as [I1 M1]. eapply wp_mono; [by apply Hm|].
  intros a s2 [HS HK]. split; [by intros _|done].
Qed.

Lemma rg_last {A} i (m : M wire A) P s :
  inv s -> (forall s1, inv s1 -> mine i s s1 -> wp m (fun a s2 => step i s1 s2 /\ forall s3, inv s3 -> mine i s2 s3 -> P a s3) s1) ->
  rg (R i) (G i) (atomic m) P s.
Proof.
  intros HI Hm. apply rg_atomic. intros s1 HR. destruct (HR HI) as [I1 M1]. eapply wp_mono; [by apply Hm|].
  intros a s2 [HS HK]. split; [by intros _|]. intros s3 HR3. destruct (HR3 (proj1 HS)) as [I3 M3]. by apply HK.
Qed.

Lemma rg_done {A} i (a : A) (P : A -> wire -> Prop) s :
  inv s -> (forall s', inv s' -> mine i s s' -> P a s') -> rg (R i) (G i) (mret a) P s.
Proof. intros HI HP. apply rg_ret. intros s' HR. destruct (HR HI). by apply HP. Qed.

(** ** A connection that only its holder can see *)

Record private i c x s : Prop := {
  p_holder : g_holder s !! c = Some i;
  p_registered : registered s !! c = None;
  p_conn : conns s !! c = Some x
}.

Lemma private_mine i c x s s' : private i c x s -> mine i s s' -> private i c x s'.
Proof. intros [H1 H2 H3] [HM _]. destruct (HM c H1) as (K1 & K2 & K3 & _). split; congruence. Qed.
Lemma owns_mine i c x s s' : g_holder s !! c = Some i -> reliable -> mine i s s' -> owns s c x -> owns s' c x.
Proof. intros H1 Hr [HM _] Ho Hu. destruct (HM c H1) as (_ & _ & _ & K4). by apply K4, Ho. Qed.

(** It is on no queue. *)
Lemma held_not_queued Q s c i h l : inv_with Q s -> g_holder s !! c = Some i -> Q !! h = Some l -> c ∉ l.
Proof. intros HI Hc Hh Hl. destruct (i_queued _ _ HI h l c Hh Hl) as [He _]. congruence. Qed.

(** ** Accesses to what is one's own *)

(** Counters, pipes and the flag are nobody's. *)
Record same s s' : Prop := {
  s_lnk : lnk s' = lnk s;
  s_conns : conns s' = conns s;
  s_next : next_conn s' = next_conn s;
  s_nfree : nfree_connq s' = nfree_connq s;
  s_last : last_thread s' = last_thread s;
  s_registered : registered s' = registered s;
  s_sds : sds s' = sds s;
  s_holder : g_holder s' = g_holder s;
  s_handed : g_handed s' = g_handed s;
  s_taken : g_taken s' = g_taken s
}.

Lemma same_inv Q s s' : same s s' -> inv_with Q s -> inv_with Q s'.
Proof.
  intros [] HI. destruct s, s'; simpl in *; subst. destruct HI. split; simpl in *; try done.
Qed.
Lemma same_mine i s s' : same s s' -> mine i s s'.
Proof. intros [E1 E2 E3 E4 E5 E6 E7 E8 E9 E10]. split; rewrite ?E2, ?E5, ?E6, ?E7, ?E8, ?E9; done. Qed.
Lemma same_step i s s' : same s s' -> inv s -> step i s s'.
Proof. intros HS [Q HQ]. split; [exists Q; by eapply same_inv|]. intros. by apply same_mine. Qed.

(** The fields of a connection. *)
Lemma inv_put i c x' Q s : inv_with Q s -> g_holder s !! c = Some i ->
  (forall j, registered s !! c = Some j -> whole x' /\ (reliable -> owns s c x')) -> inv_with Q (set_conns (<[c := x']> (conns s)) s).
Proof.
  intros HI P1 P2. destruct s; simpl in *. split; simpl; try apply HI.
  - intros h l d Hh Hd. destruct (i_queued _ _ HI h l d Hh Hd) as (E1 & y & E2 & E3 & E4). simpl in *.
    rewrite lookup_insert_ne by congruence. eauto.
  - intros d j Hd. apply (i_held _ _ HI) in Hd. simpl in Hd. destruct (decide (d = c)) as [->|]; [by rewrite lookup_insert_eq|by rewrite lookup_insert_ne].
  - intros d Hd. apply (i_conns _ _ HI d). simpl. destruct (decide (d = c)) as [->|]; [by eapply (i_held _ _ HI)|by rewrite lookup_insert_ne in Hd].
  - intros d j Hd. destruct (i_registered _ _ HI d j Hd) as (E1 & y & E2 & E3 & E4). simpl in *. split; [done|].
    destruct (decide (d = c)) as [->|]; [rewrite lookup_insert_eq; destruct (P2 j Hd); eauto|rewrite lookup_insert_ne by congruence; eauto].
Qed.

Lemma mine_put i j c x s : j <> i -> g_holder s !! c = Some i -> mine j s (set_conns (<[c := x]> (conns s)) s).
Proof.
  intros Hne Hc. split; [|by intros]. simpl. intros d Hd. split; [done|]. split; [|done]. rewrite lookup_insert_ne; [done|congruence].
Qed.

Lemma put_step i c x' s : inv s -> g_holder s !! c = Some i ->
  (forall j, registered s !! c = Some j -> whole x' /\ (reliable -> owns s c x')) -> step i s (set_conns (<[c := x']> (conns s)) s).
Proof. intros [Q HQ] Hc Hr. split; [exists Q; by eapply inv_put|]. intros j Hj. by eapply mine_put. Qed.

(** Its link. *)
Lemma inv_link i c m' Q s : inv_with Q s -> g_holder s !! c = Some i -> only [Field c] (lnk s) m' -> inv_with Q (set_lnk m' s).
Proof.
  intros HI Hc HO. pose proof (fun h l Hh => held_not_queued Q s c i h l HI Hc Hh) as Hq. destruct s; simpl in *. destruct HI; simpl in *. split; simpl; try done.
  - destruct i_queues0 as [HQ HD]. split; [|done]. apply map_Forall_lookup. intros h l Hh. eapply only_other; [done| |by apply HQ].
    intros p Hp Hp'. apply list_elem_of_singleton in Hp' as ->. unfold footprint in Hp. rewrite elem_of_cons, list_elem_of_fmap in Hp.
    destruct Hp as [?|(d & [= <-] & Hd)]; [done|]. by apply (Hq h l).
  - intros d Hd. destruct (i_conns0 d Hd) as (H1 & H2 & H3). split; [done|]. split; [by apply HO|done].
Qed.

Lemma link_step i c s : inv s -> g_holder s !! c = Some i ->
  wp (on_links (set_next (Field c) None)) (fun _ s' => step i s s' /\ exists m', s' = set_lnk m' s) s.
Proof.
  intros [Q HQ] Hc. destruct (i_held _ _ HQ c i Hc) as [x Hx]. destruct (i_conns _ _ HQ c ltac:(by eexists)) as (_ & [[v Hv] Hp] & _).
  unfold on_links, set_next, get_next, wp, mbind, M_bind, gets, lift, modify. simpl. rewrite Hv. simpl. split; [|by eexists].
  split; [exists Q; eapply inv_link; [done..|]|by intros; split].
  split; simpl; [intros p Hp'; rewrite lookup_insert_ne; [done|set_solver]|].
  intros p [A B]. split; [|done]. simpl. destruct (decide (p = Field c)) as [->|]; [by rewrite lookup_insert_eq|by rewrite lookup_insert_ne].
Qed.

Lemma get_conn_wp c x s : conns s !! c = Some x -> wp (get_conn c) (fun y s' => y = x /\ s' = s) s.
Proof. intros Hx. unfold get_conn. apply wp_bind, wp_gets, (wp_lift _ x); done. Qed.

(** ** Descriptors *)

(** Who may close [sd]. *)
Definition closable i s sd : Prop :=
  reliable -> sd ∉ udp_sds /\ (sds s !! sd = Some None /\ i = n \/ exists c, sds s !! sd = Some (Some c) /\ g_holder s !! c = Some i /\ registered s !! c = None).

Lemma closable_other i s sd c j : closable i s sd -> inv s -> reliable -> sds s !! sd = Some (Some c) -> g_holder s !! c = Some j \/ g_holder s !! c = None -> j <> i -> False.
Proof.
  intros Hc HI Hr Hs Hj Hne. destruct (Hc Hr) as (_ & [[E _]|(d & E1 & E2 & _)]); [congruence|]. rewrite Hs in E1. injection E1 as <-.
  destruct Hj as [Hj|Hj]; congruence.
Qed.

Lemma close_step i sd s : inv s -> closable i s sd -> step i s (set_sds (delete sd (sds s)) s).
Proof.
  intros HI Hc. split.
  - pose proof HI as [Q HQ]. exists Q. destruct HQ. split; simpl; try done.
    + intros h l c Hh Hl. destruct (i_queued0 h l c Hh Hl) as (E1 & x & E2 & E3 & E4). split; [done|]. exists x. split; [done|]. split; [done|].
      intros Hr Hf Hu. pose proof (E4 Hr Hf Hu) as Hs. simpl. rewrite lookup_delete_ne; [done|]. intros ->.
      apply (closable_other i s _ c (S i) Hc HI Hr Hs); [by right|lia].
    + intros c j Hj. destruct (i_registered0 c j Hj) as (E1 & x & E2 & E3 & E4). split; [done|]. exists x. split; [done|]. split; [done|].
      intros Hr Hu. pose proof (E4 Hr Hu) as Hs. simpl. rewrite lookup_delete_ne; [done|]. intros ->.
      destruct (Hc Hr) as (_ & [[E _]|(d & K1 & K2 & K3)]); congruence.
    + intros sd' Hr Hu. rewrite lookup_delete_ne; [by apply i_udp0|]. intros <-. by apply (Hc Hr).
  - intros j Hj. split; simpl.
    + intros c Hh. split; [done|]. split; [done|]. split; [done|]. intros Hr sd' Hs. rewrite lookup_delete_ne; [done|]. intros <-.
      apply (closable_other i s _ c j Hc HI Hr Hs); [by left|done].
    + intros ->. split; [done|]. split; [done|]. intros Hr sd' Hs. rewrite lookup_delete_ne; [done|]. intros <-.
      destruct (Hc Hr) as (_ & [[_ E]|(d & K1 & _)]); congruence.
Qed.

(** ** Queues *)

Lemma wp_on_links {A} (m : M links A) (P : A -> wire -> Prop) s : wp m (fun a l => P a (set_lnk l s)) (lnk s) -> wp (on_links m) P s.
Proof. unfold wp, on_links. by destruct (m (lnk s)) as [[a l]|]. Qed.

Lemma enqueue_links i c h l Q s : inv_with Q s -> g_holder s !! c = Some i -> Q !! h = Some l ->
  wp (STAILQ_INSERT_TAIL h c) (fun _ m' => queues m' (<[h := l ++ [c]]> Q) /\ forall p, cell (lnk s) p -> cell m' p) (lnk s).
Proof.
  intros HI Hc Hh. pose proof (i_queues _ _ HI) as HQ. pose proof HQ as [HQr HD]. destruct (i_held _ _ HI c i Hc) as [x Hx].
  destruct (i_conns _ _ HI c ltac:(by eexists)) as (_ & Hcell & _). pose proof (fun h l Hh => held_not_queued Q s c i h l HI Hc Hh) as Hq.
  eapply wp_mono; [apply (q_insert_tail_law (tail_queue := stailq_tail_queue) _ _ l); [by apply (HQr h l)|by eapply Hq|done]|].
  intros _ m' [HR HO]. split; [|apply HO]. eapply queues_update; [done|done|done|done| |done].
  intros h' l2 Hne Hh'. pose proof (HD h' l2 h l Hh' Hh Hne). pose proof (Hq h' l2 Hh'). set_solver.
Qed.

Lemma dequeue_links c h l Q s : inv_with Q s -> Q !! h = Some (c :: l) ->
  wp (STAILQ_REMOVE h c) (fun _ m' => queues m' (<[h := l]> Q) /\ forall p, cell (lnk s) p -> cell m' p) (lnk s).
Proof.
  intros HI Hh. pose proof (i_queues _ _ HI) as HQ. pose proof HQ as [HQr HD].
  eapply wp_mono; [apply (q_remove_law (queue := stailq_queue) _ _ [] c l), (HQr h (c :: l) Hh)|].
  intros _ m' [HR HO]. split; [|apply HO]. eapply queues_update; [done|done|done|done| |set_solver].
  intros h' l2 Hne Hh'. pose proof (HD _ _ _ _ Hh' Hh Hne). set_solver.
Qed.

Lemma first_links h l Q s : inv_with Q s -> Q !! h = Some l -> wp (STAILQ_FIRST h) (fun o m' => o = head l /\ m' = lnk s) (lnk s).
Proof. intros HI Hh. apply (q_first_law (queue := stailq_queue)). by apply (i_queues _ _ HI). Qed.

(** The state after a connection went onto a queue. *)
Lemma inv_enqueue i c x h l Q s s' : inv_with Q s -> private i c x s -> whole x -> (reliable -> h <> free_connq -> owns s c x) ->
  Q !! h = Some l -> queues (lnk s') (<[h := l ++ [c]]> Q) -> (forall p, cell (lnk s) p -> cell (lnk s') p) ->
  conns s' = conns s -> next_conn s' = next_conn s -> registered s' = registered s -> sds s' = sds s -> g_holder s' = delete c (g_holder s) ->
  (exists l', <[h := l ++ [c]]> Q !! free_connq = Some l' /\ nfree_connq s' = Z.of_nat (length l')) ->
  (forall i, (i < n)%nat -> exists l', <[h := l ++ [c]]> Q !! new_cq i = Some l' /\ of_worker i (g_handed s') = of_worker i (g_taken s') ++ l') ->
  (forall k c i, g_handed s' !! k = Some (c, i) -> i = (k mod n)%nat) ->
  inv_with (<[h := l ++ [c]]> Q) s'.
Proof.
  intros HI [P1 P2 P3] Hw Ho Hh HQ' Hcell Ec En Er Es Eg HF HW HT. split; try done.
  - intros h' l' d Hh' Hd. rewrite Eg, Ec.
    assert (d = c /\ h' = h \/ d <> c /\ exists l2, Q !! h' = Some l2 /\ d ∈ l2) as [[-> ->]|(Hne & l2 & Hl2 & Hd2)].
    { destruct (decide (h' = h)) as [->|Hne].
      - rewrite lookup_insert_eq in Hh'. injection Hh' as <-. apply elem_of_app in Hd as [Hd|Hd]; [|apply list_elem_of_singleton in Hd; by left].
        right. split; [intros ->; by eapply (held_not_queued Q s c i h l)|by eauto].
      - rewrite lookup_insert_ne in Hh' by done. right. split; [intros ->; by eapply (held_not_queued Q s c i h' l')|by eauto]. }
    + rewrite lookup_delete_eq. split; [done|]. exists x. split; [done|]. split; [done|]. unfold owns. by rewrite Es.
    + destruct (i_queued _ _ HI h' l2 d Hl2 Hd2) as (E1 & y & E2). rewrite lookup_delete_ne by done. split; [done|]. exists y. unfold owns. by rewrite Es.
  - intros d j. rewrite Eg, Ec, lookup_delete_Some. intros [_ Hd]. by eapply (i_held _ _ HI).
  - intros d. rewrite Ec, En, Eg. intros Hd. destruct (i_conns _ _ HI d Hd) as (H1 & H2 & H3). split; [done|]. split; [by apply Hcell|].
    destruct (decide (d = c)) as [->|Hne]; [right; exists h, (l ++ [c]); rewrite lookup_insert_eq; set_solver|].
    rewrite lookup_delete_ne by done. destruct H3 as [H3|(h' & l' & Hh' & Hd')]; [by left|]. right.
    destruct (decide (h' = h)) as [->|Hneh]; [exists h, (l ++ [c]); rewrite lookup_insert_eq; split; [done|]; set_solver|].
    exists h', l'. by rewrite lookup_insert_ne.
  - intros d j. rewrite Er, Eg, Ec. intros Hd. destruct (i_registered _ _ HI d j Hd) as (E1 & y & E2). rewrite lookup_delete_ne by congruence.
    split; [done|]. exists y. unfold owns. by rewrite Es.
  - intros sd. rewrite Es. by apply (i_udp _ _ HI).
Qed.

(** And after one was taken off. *)
Lemma inv_dequeue i c h l Q s s' : inv_with Q s -> Q !! h = Some (c :: l) -> queues (lnk s') (<[h := l]> Q) -> (forall p, cell (lnk s) p -> cell (lnk s') p) ->
  conns s' = conns s -> next_conn s' = next_conn s -> registered s' = registered s -> sds s' = sds s -> g_holder s' = <[c := i]> (g_holder s) ->
  (exists l', <[h := l]> Q !! free_connq = Some l' /\ nfree_connq s' = Z.of_nat (length l')) ->
  (forall i, (i < n)%nat -> exists l', <[h := l]> Q !! new_cq i = Some l' /\ of_worker i (g_handed s') = of_worker i (g_taken s') ++ l') ->
  g_handed s' = g_handed s ->
  inv_with (<[h := l]> Q) s'.
Proof.
  intros HI Hh HQ' Hcell Ec En Er Es Eg HF HW HT. destruct (i_queued _ _ HI h (c :: l) c Hh ltac:(set_solver)) as (Hc & xc & Hxc & _).
  assert (NoDup (c :: l)) as Hnd by (eapply (q_nodup (queue := stailq_queue)), (i_queues _ _ HI), Hh). apply NoDup_cons in Hnd as [Hcl _].
  assert (forall h' l' d, <[h := l]> Q !! h' = Some l' -> d ∈ l' -> d <> c /\ exists l2, Q !! h' = Some l2 /\ d ∈ l2) as Hold.
  { intros h' l' d Hh' Hd. destruct (decide (h' = h)) as [->|Hne].
    - rewrite lookup_insert_eq in Hh'. injection Hh' as <-. split; [by intros ->|]. exists (c :: l). set_solver.
    - rewrite lookup_insert_ne in Hh' by done. split; [|by eauto]. intros ->.
      pose proof (proj2 (i_queues _ _ HI) h' l' h (c :: l) Hh' Hh Hne). set_solver. }
  split; try done.
  - intros h' l' d Hh' Hd. destruct (Hold h' l' d Hh' Hd) as (Hne & l2 & Hl2 & Hd2). rewrite Eg, Ec, lookup_insert_ne by done.
    destruct (i_queued _ _ HI h' l2 d Hl2 Hd2) as (E1 & y & E2). split; [done|]. exists y. unfold owns. by rewrite Es.
  - intros d j. rewrite Eg, Ec, lookup_insert_Some. intros [[<- _]|[_ Hd]]; [by eexists|by eapply (i_held _ _ HI)].
  - intros d. rewrite Ec, En, Eg. intros Hd. destruct (i_conns _ _ HI d Hd) as (H1 & H2 & H3). split; [done|]. split; [by apply Hcell|].
    destruct (decide (d = c)) as [->|Hne]; [left; by rewrite lookup_insert_eq|]. rewrite lookup_insert_ne by done.
    destruct H3 as [H3|(h' & l' & Hh' & Hd')]; [by left|]. right.
    destruct (decide (h' = h)) as [->|Hneh]; [exists h, l; rewrite lookup_insert_eq; split; [done|]; set_solver|].
    exists h', l'. by rewrite lookup_insert_ne.
  - intros d j. rewrite Er, Eg, Ec. intros Hd. destruct (i_registered _ _ HI d j Hd) as (E1 & y & E2). rewrite lookup_insert_ne by congruence.
    split; [done|]. exists y. unfold owns. by rewrite Es.
  - intros k d j. rewrite HT. apply (i_turns _ _ HI).
  - intros sd. rewrite Es. by apply (i_udp _ _ HI).
Qed.

Lemma of_worker_app i l1 l2 : of_worker i (l1 ++ l2) = of_worker i l1 ++ of_worker i l2.
Proof. unfold of_worker. by rewrite filter_app, fmap_app. Qed.
Lemma of_worker_one i c t : of_worker i [(c, t)] = if decide (t = i) then [c] else [].
Proof. unfold of_worker. rewrite filter_cons, filter_nil. simpl. by case_decide. Qed.

Lemma mine_release i j c s s' : j <> i -> g_holder s !! c = Some i -> conns s' = conns s -> registered s' = registered s -> sds s' = sds s ->
  g_holder s' = delete c (g_holder s) -> (j = n -> g_handed s' = g_handed s /\ last_thread s' = last_thread s) -> mine j s s'.
Proof.
  intros Hne Hc Ec Er Es Eg Hm. split; [|intros Hj; destruct (Hm Hj); rewrite Es; done].
  intros d Hd. rewrite Ec, Er, Es, Eg, lookup_delete_ne by congruence. done.
Qed.

Lemma mine_take i j c s s' : j <> i -> g_holder s !! c = None -> conns s' = conns s -> registered s' = registered s -> sds s' = sds s ->
  g_holder s' = <[c := i]> (g_holder s) -> g_handed s' = g_handed s -> last_thread s' = last_thread s -> mine j s s'.
Proof.
  intros Hne Hc Ec Er Es Eg Hm Hl. split; [|intros Hj; rewrite Es; done].
  intros d Hd. rewrite Ec, Er, Es, Eg, lookup_insert_ne by congruence. done.
Qed.

(** [conn_cq_push] by the main thread to the worker whose turn it is. *)
Lemma push_step c x t s : inv s -> private n c x s -> whole x -> (reliable -> owns s c x) -> t = (length (g_handed s) mod n)%nat ->
  wp (on_links (STAILQ_INSERT_TAIL (new_cq t) c);; let_go c;; modify (fun s => set_handed (g_handed s ++ [(c, t)]) s))
    (fun _ s' => step n s s' /\ g_handed s' = g_handed s ++ [(c, t)] /\ last_thread s' = last_thread s) s.
Proof.
  intros [Q HI] HP Hw Ho Ht. assert (t < n)%nat as Htn by (rewrite Ht; apply Nat.mod_upper_bound; lia).
  destruct (i_worker _ _ HI t Htn) as (l & Hl & Hof). apply wp_bind, wp_on_links.
  eapply wp_mono; [by apply (enqueue_links n c (new_cq t) l Q s HI (p_holder _ _ _ _ HP))|]. intros _ m' [HQ' Hcell].
  unfold let_go. apply wp_bind, wp_modify, wp_modify. simpl. split; [|done]. split.
  - eexists. eapply (inv_enqueue n c x (new_cq t) l Q s); simpl; try done; [by auto|..].
    + rewrite lookup_insert_ne by apply new_cq_free. apply (i_free _ _ HI).
    + intros i Hi. rewrite of_worker_app, of_worker_one. destruct (decide (t = i)) as [<-|Hne].
      * rewrite lookup_insert_eq, Hof. exists (l ++ [c]). by rewrite app_assoc.
      * rewrite lookup_insert_ne, app_nil_r by (intros ?%(inj new_cq); done). by apply (i_worker _ _ HI).
    + intros k d j Hk. apply lookup_app_Some in Hk as [Hk|[Hk Hk2]]; [by eapply (i_turns _ _ HI)|].
      apply list_lookup_singleton_Some in Hk2 as [Hk2 [= <- <-]]. replace k with (length (g_handed s)) by lia. done.
  - intros j Hj. eapply (mine_release n j c); simpl; try done. apply HP.
Qed.

Lemma pop_step i s : inv s -> (i < n)%nat ->
  wp (o ← on_links (STAILQ_FIRST (new_cq i));
      match o with
      | Some c => on_links (STAILQ_REMOVE (new_cq i) c);; hold c i;; modify (fun s => set_taken (g_taken s ++ [(c, i)]) s);; mret (Some c)
      | None => mret None
      end)
    (fun o s' => step i s s' /\ match o with None => True | Some c => exists x, private i c x s' /\ whole x /\ (reliable -> owns s' c x) end) s.
Proof.
  intros [Q HI] Hi. destruct (i_worker _ _ HI i Hi) as (l & Hl & Hof). apply wp_bind, wp_on_links.
  eapply wp_mono; [by apply (first_links (new_cq i) l Q s)|]. intros o m' [-> ->]. destruct l as [|c l]; simpl.
  - apply wp_ret. split; [|done]. apply same_step; [by destruct s|by exists Q].
  - apply wp_bind, wp_on_links. eapply wp_mono; [by apply (dequeue_links c (new_cq i) l Q s)|]. intros _ m' [HQ' Hcell].
    destruct (i_queued _ _ HI _ _ c Hl ltac:(set_solver)) as (Hc & x & Hx & Hw & Ho).
    unfold hold. apply wp_bind, wp_modify, wp_bind, wp_modify, wp_ret. split; [split|].
    + eexists. eapply (inv_dequeue i c (new_cq i) l Q s); simpl; try done.
      * rewrite lookup_insert_ne by apply new_cq_free. apply (i_free _ _ HI).
      * intros j Hj. rewrite of_worker_app, of_worker_one. destruct (decide (i = j)) as [<-|Hne].
        -- rewrite lookup_insert_eq, Hof. exists l. by rewrite <-app_assoc.
        -- rewrite lookup_insert_ne, app_nil_r by (intros ?%(inj new_cq); done). by apply (i_worker _ _ HI).
    + intros j Hj. by eapply (mine_take i j c).
    + exists x. split; [split; simpl|].
      * by rewrite lookup_insert_eq.
      * destruct (registered s !! c) as [j|] eqn:Er; [|done]. destruct (i_registered _ _ HI c j Er). congruence.
      * done.
      * split; [done|]. intros Hr. apply (Ho Hr), new_cq_free.
Qed.

(** Into the pool and out of it. *)
Lemma free_step i c x s : inv s -> private i c x s -> whole x ->
  wp (modify (fun s => set_nfree_connq (nfree_connq s + 1) s);; on_links (STAILQ_INSERT_TAIL free_connq c);; let_go c) (fun _ s' => step i s s') s.
Proof.
  intros [Q HI] HP Hw. destruct (i_free _ _ HI) as (l & Hl & Hf). apply wp_bind, wp_modify, wp_bind, wp_on_links. simpl.
  eapply wp_mono; [by apply (enqueue_links i c free_connq l Q s HI (p_holder _ _ _ _ HP))|]. intros _ m' [HQ' Hcell].
  unfold let_go. apply wp_modify. split.
  - eexists. eapply (inv_enqueue i c x free_connq l Q s); simpl; try done; [..|apply (i_turns _ _ HI)].
    + rewrite lookup_insert_eq. eexists. split; [done|]. rewrite length_app. simpl. lia.
    + intros j Hj. rewrite lookup_insert_ne by (intros E; symmetry in E; by apply new_cq_free in E). by apply (i_worker _ _ HI).
  - intros j Hj. eapply (mine_release i j c); simpl; try done. apply HP.
Qed.

Lemma reuse_step i s : inv s ->
  wp (empty ← on_links (STAILQ_EMPTY free_connq);
      if (empty : bool) then mret None
      else
        o ← on_links (STAILQ_FIRST free_connq);
        c ← lift o;
        modify (fun s => set_nfree_connq (nfree_connq s - 1) s);;
        on_links (STAILQ_REMOVE free_connq c);;
        hold c i;; mret (Some c))
    (fun o s' => step i s s' /\ g_handed s' = g_handed s /\ last_thread s' = last_thread s /\ sds s' = sds s /\
      match o with None => True | Some c => exists x, private i c x s' /\ whole x end) s.
Proof.
  intros [Q HI]. destruct (i_free _ _ HI) as (l & Hl & Hf). apply wp_bind, wp_on_links. unfold STAILQ_EMPTY. apply wp_bind.
  eapply wp_mono; [by apply (first_links free_connq l Q s)|]. intros o m' [-> ->]. apply wp_ret. replace (set_lnk (lnk s) s) with s by (by destruct s).
  destruct l as [|c l]; simpl.
  - apply wp_ret. split; [|done]. apply same_step; [done|by exists Q].
  - apply wp_bind, wp_on_links. eapply wp_mono; [by apply (first_links free_connq (c :: l) Q s)|]. intros o m' [-> ->].
    replace (set_lnk (lnk s) s) with s by (by destruct s). simpl.
    eapply wp_bind, wp_lift; [done|]. apply wp_bind, wp_modify, wp_bind, wp_on_links. simpl.
    eapply wp_mono; [by apply (dequeue_links c free_connq l Q s)|]. intros _ m' [HQ' Hcell].
    destruct (i_queued _ _ HI _ _ c Hl ltac:(set_solver)) as (Hc & x & Hx & Hw & Ho).
    unfold hold. apply wp_bind, wp_modify, wp_ret. split; [split|].
    + eexists. eapply (inv_dequeue i c free_connq l Q s); simpl; try done.
      * rewrite lookup_insert_eq. eexists. split; [done|]. simpl in Hf. lia.
      * intros j Hj. rewrite lookup_insert_ne by (intros E; symmetry in E; by apply new_cq_free in E). by apply (i_worker _ _ HI).
    + intros j Hj. by eapply (mine_take i j c).
    + do 3 (split; [done|]). exists x. split; [split; simpl|done].
      * by rewrite lookup_insert_eq.
      * destruct (registered s !! c) as [j|] eqn:Er; [|done]. destruct (i_registered _ _ HI c j Er). congruence.
      * done.
Qed.

(** ** Memory *)

(** Queues do not mind cells outside of them. *)
Lemma queues_elsewhere c m m' Q : queues m Q -> (forall h l, Q !! h = Some l -> c ∉ l) ->
  (forall p, p <> Field c -> nxt m' !! p = nxt m !! p /\ prv m' !! p = prv m !! p) -> queues m' Q.
Proof.
  intros [HQ HD] Hc He. split; [|done]. apply map_Forall_lookup. intros h l Hh. eapply (q_local (queue := stailq_queue)); [by apply HQ|].
  intros p Hp. apply He. intros ->. unfold footprint in Hp. rewrite elem_of_cons, list_elem_of_fmap in Hp.
  destruct Hp as [?|(d & [= <-] & Hd)]; [done|]. by apply (Hc h l).
Qed.

Lemma zalloc_step i rsize s : inv s ->
  wp (ok ← sys e_alloc;
      if (ok : bool) then
        c ← gets next_conn;
        modify (fun s => set_next_conn (c + 1) (set_lnk (Links (<[Field c := None]> (nxt (lnk s))) (<[Field c := None]> (prv (lnk s)))) s));;
        put_conn c (CStruct rsize (replicate 6 false) zero_use);;
        hold c i;; mret (Some c)
      else mret None)
    (fun o s' => step i s s' /\ g_handed s' = g_handed s /\ last_thread s' = last_thread s /\ sds s' = sds s /\
      match o with None => True | Some c => private i c (CStruct rsize (replicate 6 false) zero_use) s' end) s.
Proof.
  intros [Q HI]. unfold sys. apply wp_bind, wp_bind, wp_gets, wp_bind, wp_modify, wp_ret. destruct (e_alloc _).
  2: { apply wp_ret. split; [|done]. apply same_step; [done|by exists Q]. }
  unfold put_conn, hold. apply wp_bind, wp_gets, wp_bind, wp_modify, wp_bind, wp_modify, wp_bind, wp_modify, wp_ret. simpl.
  set (c := next_conn s) in *.
  assert (conns s !! c = None) as Hc by (apply eq_None_not_Some; intros Hs; apply (i_conns _ _ HI) in Hs as [Hs _]; lia).
  assert (g_holder s !! c = None) as Hg by (apply eq_None_not_Some; intros [j Hj]; apply (i_held _ _ HI) in Hj; rewrite Hc in Hj; by destruct Hj).
  assert (forall h l, Q !! h = Some l -> c ∉ l) as Hq by (intros h l Hh Hl; destruct (i_queued _ _ HI h l c Hh Hl) as (_ & x & Hx & _); congruence).
  split; [split|].
  - exists Q. split; simpl; try apply HI.
    + eapply (queues_elsewhere c); [by apply HI|done|]. intros p Hp. simpl. by rewrite !lookup_insert_ne.
    + intros h l d Hh Hd. destruct (i_queued _ _ HI h l d Hh Hd) as (E1 & y & E2 & E3). rewrite !lookup_insert_ne by congruence. eauto.
    + intros d j. rewrite lookup_insert_Some. intros [[<- _]|[Hne Hd]]; [by rewrite lookup_insert_eq|]. rewrite lookup_insert_ne by done. by eapply (i_held _ _ HI).
    + intros d. destruct (decide (d = c)) as [->|Hne].
      * intros _. rewrite lookup_insert_eq. split; [lia|]. split; [split; simpl; by rewrite lookup_insert_eq|by left].
      * rewrite !lookup_insert_ne by done. intros Hd. destruct (i_conns _ _ HI d Hd) as (H1 & [H2 H2'] & H3). split; [lia|].
        split; [split; simpl; rewrite lookup_insert_ne; [done|congruence|done|congruence]|done].
    + intros d j Hd. destruct (i_registered _ _ HI d j Hd) as (E1 & y & E2 & E3). rewrite !lookup_insert_ne by congruence. eauto.
  - intros j Hj. split; simpl; [|by intros]. intros d Hd. rewrite !lookup_insert_ne by congruence. done.
  - do 3 (split; [done|]). split; simpl; [by rewrite lookup_insert_eq| |by rewrite lookup_insert_eq].
    destruct (registered s !! c) as [j|] eqn:Er; [|done]. destruct (i_registered _ _ HI c j Er). congruence.
Qed.

Lemma destroy_step i c x s : inv s -> private i c x s ->
  wp (_ ← get_conn c;
      modify (fun s => set_conns (delete c (conns s)) (set_lnk (Links (delete (Field c) (nxt (lnk s))) (delete (Field c) (prv (lnk s)))) s));;
      let_go c)
    (fun _ s' => step i s s' /\ g_handed s' = g_handed s /\ last_thread s' = last_thread s /\ sds s' = sds s) s.
Proof.
  intros [Q HI] [P1 P2 P3]. apply wp_bind. eapply wp_mono; [by apply get_conn_wp|]. intros y s' [-> ->].
  unfold let_go. apply wp_bind, wp_modify, wp_modify. simpl. split; [|done].
  pose proof (fun h l Hh => held_not_queued Q s c i h l HI P1 Hh) as Hq. split.
  - exists Q. split; simpl; try apply HI.
    + eapply (queues_elsewhere c); [by apply HI|done|]. intros p Hp. simpl. by rewrite !lookup_delete_ne.
    + intros h l d Hh Hd. assert (d <> c) by (intros ->; by eapply Hq). destruct (i_queued _ _ HI h l d Hh Hd) as (E1 & y & E2).
      rewrite !lookup_delete_ne by done. eauto.
    + intros d j. rewrite lookup_delete_Some. intros [Hne Hd]. rewrite lookup_delete_ne by done. by eapply (i_held _ _ HI).
    + intros d [y Hd]. apply lookup_delete_Some in Hd as [Hne Hd]. destruct (i_conns _ _ HI d ltac:(by eexists)) as (H1 & [H2 H2'] & H3).
      split; [done|]. split; [split; simpl; rewrite lookup_delete_ne; [done|congruence|done|congruence]|]. by rewrite lookup_delete_ne.
    + intros d j Hd. assert (d <> c) by congruence. destruct (i_registered _ _ HI d j Hd) as (E1 & y & E2). rewrite !lookup_delete_ne by done. eauto.
  - intros j Hj. split; simpl; [|by intros]. intros d Hd. rewrite !lookup_delete_ne by congruence. done.
Qed.

(** ** Registration *)

Lemma register_step i c x s : inv s -> private i c x s -> whole x -> (reliable -> owns s c x) -> step i s (set_registered (<[c := i]> (registered s)) s).
Proof.
  intros [Q HI] [P1 P2 P3] Hw Ho. split.
  - exists Q. split; simpl; try apply HI. intros d j. rewrite lookup_insert_Some. intros [[<- <-]|[_ Hd]]; [by eauto|by apply (i_registered _ _ HI)].
  - intros j Hj. split; simpl; [|by intros]. intros d Hd. rewrite lookup_insert_ne by congruence. done.
Qed.

Lemma unregister_step i c s : inv s -> registered s !! c = Some i -> step i s (set_registered (delete c (registered s)) s) /\
  exists x, private i c x (set_registered (delete c (registered s)) s) /\ whole x /\ (reliable -> owns s c x).
Proof.
  intros [Q HI] Hr. destruct (i_registered _ _ HI c i Hr) as (P1 & x & P3 & Hw & Ho). split; [split|].
  - exists Q. split; simpl; try apply HI. intros d j. rewrite lookup_delete_Some. intros [_ Hd]. by apply (i_registered _ _ HI).
  - intros j Hj. split; simpl; [|by intros]. intros d Hd. rewrite lookup_delete_ne by congruence. done.
  - exists x. split; [|done]. split; simpl; [done|by rewrite lookup_delete_eq|done].
Qed.

(** ** Descriptors of clients *)

(** An accepted descriptor no connection has yet. *)
Definition accepted_sd s sd : Prop := reliable -> sds s !! sd = Some None /\ sd ∉ udp_sds.

Lemma accept_step s : inv s -> let sd := fresh (dom (sds s)) in
  step n s (set_sds (<[sd := None]> (sds s)) s) /\ accepted_sd (set_sds (<[sd := None]> (sds s)) s) sd.
Proof.
  intros [Q HI] sd. assert (sds s !! sd = None) as Hsd by (apply not_elem_of_dom; unfold sd; apply is_fresh).
  assert (forall sd' v, sds s !! sd' = Some v -> <[sd := None]> (sds s) !! sd' = Some v) as Hk by (intros sd' v Hv; rewrite lookup_insert_ne; [done|congruence]).
  split; [split|].
  - exists Q. split; simpl; try apply HI.
    + intros h l d Hh Hd. destruct (i_queued _ _ HI h l d Hh Hd) as (E1 & y & E2 & E3 & E4). split; [done|]. exists y. split; [done|]. split; [done|].
      intros Hr Hf Hu. apply Hk. by apply E4.
    + intros d j Hd. destruct (i_registered _ _ HI d j Hd) as (E1 & y & E2 & E3 & E4). split; [done|]. exists y. split; [done|]. split; [done|].
      intros Hr Hu. apply Hk. by apply E4.
    + intros sd' Hr Hu. apply Hk. by apply (i_udp _ _ HI).
  - intros j Hj. split; simpl; [|by intros]. intros d Hd. do 3 (split; [done|]). intros Hr sd' Hs. by apply Hk.
  - intros Hr. simpl. rewrite lookup_insert_eq. split; [done|]. intros Hu. pose proof (i_udp _ _ HI sd Hr Hu). congruence.
Qed.

(** A structure gets its new descriptor and fields. *)
Lemma reset_step c x sd state ev udp s : inv s -> private n c x s -> whole x -> (udp = false -> accepted_sd s sd) ->
  wp (y ← get_conn c;
      if forallb id (c_bufs y) then
        put_conn c (CStruct (c_rsize y) (c_bufs y) (new_use sd state ev udp));;
        when (negb udp) (modify (fun s => set_sds (<[sd := Some c]> (sds s)) s))
      else undef)
    (fun _ s' => step n s s' /\ g_handed s' = g_handed s /\ last_thread s' = last_thread s /\
      exists y, private n c y s' /\ whole y /\ (reliable -> owns s' c y)) s.
Proof.
  intros HI HP Hw Hsd. pose proof HP as [P1 P2 P3]. apply wp_bind. eapply wp_mono; [by apply get_conn_wp|]. intros y s' [-> ->]. rewrite Hw. simpl.
  set (x' := CStruct (c_rsize x) (replicate 6 true) (new_use sd state ev udp)). unfold put_conn. apply wp_bind, wp_modify.
  assert (step n s (set_conns (<[c := x']> (conns s)) s)) as [[Q HI1] HM1] by (apply put_step; [done..|congruence]).
  set (s1 := set_conns (<[c := x']> (conns s)) s) in *.
  assert (private n c x' s1) as HP1 by (split; simpl; [done|done|by rewrite lookup_insert_eq]).
  destruct udp; simpl.
  { apply wp_ret. split; [split; [by exists Q|done]|]. do 2 (split; [done|]). exists x'. split; [done|]. split; [done|]. by intros _ Hu. }
  apply wp_modify. assert (forall sd' v, reliable -> sds s !! sd' = Some v -> v <> None \/ sd' ∈ udp_sds -> <[sd := Some c]> (sds s) !! sd' = Some v) as Hk.
  { intros sd' v Hr Hv Hne. destruct (Hsd eq_refl Hr) as [H1 H2]. rewrite lookup_insert_ne; [done|]. intros <-. rewrite H1 in Hv. injection Hv as <-. by destruct Hne. }
  split; [split|].
  - exists Q. split; simpl; try apply HI1.
    + intros h l d Hh Hd. destruct (i_queued _ _ HI1 h l d Hh Hd) as (E1 & y & E2 & E3 & E4). split; [done|]. exists y. split; [done|]. split; [done|].
      intros Hr Hf Hu. apply (Hk _ (Some d) Hr); [by apply E4|by left].
    + intros d j Hd. destruct (i_registered _ _ HI1 d j Hd) as (E1 & y & E2 & E3 & E4). split; [done|]. exists y. split; [done|]. split; [done|].
      intros Hr Hu. apply (Hk _ (Some d) Hr); [by apply E4|by left].
    + intros sd' Hr Hu. apply (Hk _ None Hr); [by apply (i_udp _ _ HI1)|by right].
  - intros j Hj. eapply mine_trans; [by apply HM1|]. split; simpl; [|by intros]. intros d Hd. do 3 (split; [done|]). intros Hr sd' Hs.
    apply (Hk _ (Some d) Hr Hs). by left.
  - do 2 (split; [done|]). exists x'. split; [|split; [done|]].
    + split; simpl; [done|done|by rewrite lookup_insert_eq].
    + intros Hr _. simpl. by rewrite lookup_insert_eq.
Qed.

(** ** The operations

    What a thread knows of its own connection stays true whatever the others do. *)

Notation run i t post s := (rg (R i) (G i) t (fun a s' => inv s' /\ post a s') s).

Lemma rg_seq {A B} i (t : thread wire A) (k : A -> thread wire B) post P s :
  run i t post s -> (forall a s', inv s' -> post a s' -> rg (R i) (G i) (k a) P s') -> rg (R i) (G i) (t ≫= k) P s.
Proof. intros Ht Hk. apply (rg_bind (R i) (G i)). eapply rg_mono; [|exact Ht]. intros a s' [HI Hp]. by apply Hk. Qed.

(** A connection ready for use, held by [i]. *)
Definition ready i c s : Prop := exists x, private i c x s /\ whole x /\ (reliable -> owns s c x).

Lemma ready_mine i c s s' : ready i c s -> mine i s s' -> ready i c s'.
Proof.
  intros (x & HP & Hw & Ho) HM. exists x. split; [by eapply private_mine|]. split; [done|]. intros Hr. eapply owns_mine; [apply HP|done|done|by apply Ho].
Qed.
Lemma accepted_sd_mine s s' sd : accepted_sd s sd -> mine n s s' -> accepted_sd s' sd.
Proof. intros Ha [_ HM] Hr. destruct (HM eq_refl) as (_ & _ & HM'). destruct (Ha Hr). split; [by apply HM'|done]. Qed.

(** The descriptor of a client that is being dispatched. *)
Definition client (udp : bool) s sd : Prop := udp = false -> accepted_sd s sd.
Lemma client_mine udp s s' sd : client udp s sd -> mine n s s' -> client udp s' sd.
Proof. intros Hc HM Hu. eapply accepted_sd_mine; [by apply Hc|done]. Qed.
Lemma client_same udp s s' sd : sds s' = sds s -> client udp s sd -> client udp s' sd.
Proof. intros E Hc Hu. unfold accepted_sd. rewrite E. by apply Hc. Qed.

(** The turn of the worker that gets the next connection. *)
Definition turn s : Prop := (last_thread s + 1) mod Z.of_nat n = Z.of_nat (length (g_handed s) mod n).
Lemma turn_same s s' : g_handed s' = g_handed s -> last_thread s' = last_thread s -> turn s -> turn s'.
Proof. unfold turn. by intros -> ->. Qed.
Lemma turn_mine s s' : turn s -> mine n s s' -> turn s'.
Proof. intros Ht [_ HM]. destruct (HM eq_refl) as (H1 & H2 & _). by eapply turn_same. Qed.

Lemma rg_same {A} i (m : M wire A) (post : A -> Prop) s : inv s ->
  (forall s1, wp m (fun a s2 => same s1 s2 /\ post a) s1) ->
  rg (R i) (G i) (atomic m) (fun a s' => inv s' /\ mine i s s' /\ post a) s.
Proof.
  intros HI Hm. apply rg_last; [done|]. intros s1 I1 M1. eapply wp_mono; [apply Hm|]. intros a s2 [HS Hp].
  split; [by apply same_step|]. intros s3 I3 M3. split; [done|]. split; [|done].
  eapply mine_trans; [exact M1|]. eapply mine_trans; [by apply same_mine|done].
Qed.

Lemma get_held_spec i c x s : inv s -> private i c x s -> rg (R i) (G i) (atomic (get_conn c)) (fun y s' => inv s' /\ mine i s s' /\ y = x) s.
Proof.
  intros HI HP. apply rg_last; [done|]. intros s1 I1 M1. eapply wp_mono; [apply get_conn_wp, (private_mine i c x s s1 HP M1)|].
  intros y s2 [-> ->]. split; [by apply same_step|]. intros s3 I3 M3. split; [done|]. split; [by eapply mine_trans|done].
Qed.

Lemma conn_free_spec i c x s : inv s -> private i c x s ->
  run i (conn_free c) (fun _ s' => i = n -> (turn s -> turn s') /\ forall udp sd, client udp s sd -> client udp s' sd) s.
Proof.
  intros HI HP. unfold conn_free. apply rg_last; [done|]. intros s1 I1 M1.
  eapply wp_mono; [apply (destroy_step i c x s1 I1), (private_mine i c x s s1 HP M1)|]. intros _ s2 (HS & E1 & E2 & E3). split; [done|].
  intros s3 I3 M3. split; [done|]. intros ->. split.
  - intros Ht. eapply turn_mine; [|done]. eapply turn_same; [done|done|by eapply turn_mine].
  - intros udp sd Ha. eapply client_mine; [|done]. eapply client_same; [done|]. by eapply client_mine.
Qed.

Lemma conn_put_spec i c s : inv s -> (exists x, private i c x s /\ whole x) -> run i (conn_put c) (fun _ _ => True) s.
Proof.
  intros HI (x & HP & Hw). unfold conn_put. apply rg_act; [done|]. intros s1 I1 M1. pose proof (private_mine i c x s s1 HP M1) as HP1.
  eapply wp_mono; [apply get_conn_wp, HP1|]. intros y s2 [-> ->]. split; [by apply same_step|]. zcase.
  - eapply rg_mono; [|by apply (conn_free_spec i c x)]. by intros _ s' [? _].
  - apply rg_last; [done|]. intros s2 I2 M2. eapply wp_mono; [apply (free_step i c x s2 I2); [by eapply private_mine|done]|].
    intros [] s3 HS. split; [done|]. done.
Qed.

(** ** The main thread *)

Lemma alloc_bufs_spec udp sd k : forall c x s, (k <= 6)%nat -> inv s -> turn s -> private n c x s -> client udp s sd -> length (c_bufs x) = 6%nat ->
  run n (alloc_bufs e_alloc k c) (fun _ s' => turn s' /\ client udp s' sd /\ exists y, private n c y s' /\ length (c_bufs y) = 6%nat) s.
Proof.
  induction k as [|k IH]; intros c x s Hk HI Ht HP Ha Hl.
  - apply rg_done; [done|]. intros s' I' M'. split; [done|]. split; [by eapply turn_mine|]. split; [by eapply client_mine|].
    exists x. split; [by eapply private_mine|done].
  - cbn [alloc_bufs]. apply rg_act; [done|]. intros s1 I1 M1. unfold sys. apply wp_bind, wp_bind, wp_gets, wp_bind, wp_modify, wp_ret, wp_bind.
    pose proof (private_mine _ _ _ _ _ HP M1) as HP1. eapply wp_mono; [apply (get_conn_wp c x), HP1|]. intros y s2 [-> ->].
    unfold put_conn. apply wp_modify. set (s2 := set_nsys _ s1). set (x' := CStruct _ _ _).
    assert (step n s1 s2) as [I2 M2] by by apply same_step.
    assert (step n s2 (set_conns (<[c := x']> (conns s2)) s2)) as [I3 M3].
    { apply put_step; [done|apply HP1|]. intros j Hj. destruct HP1 as [_ HR _]. simpl in Hj. congruence. }
    split; [split; [done|intros j Hj; eapply mine_trans; [by apply M2|by apply M3]]|].
    apply (IH c x'); [lia|done| | | |].
    + apply (turn_same s1); [done|done|by eapply turn_mine].
    + destruct HP1. split; simpl; [done|done|by rewrite lookup_insert_eq].
    + exact (client_mine udp s s1 sd Ha M1).
    + simpl. by rewrite length_insert.
Qed.

Lemma all_true l : length l = 6%nat -> forallb id l = true -> l = replicate 6 true.
Proof. intros Hl Hf. do 7 (destruct l as [|[] l]; try discriminate); done. Qed.

(** A structure from the pool or a new one. *)
Lemma obtain_spec rsize udp sd s : inv s -> turn s -> client udp s sd ->
  run n (struct_get e_alloc n rsize)
    (fun o s' => turn s' /\ client udp s' sd /\ match o with None => True | Some c => exists x, private n c x s' /\ whole x end) s.
Proof.
  intros HI Ht Ha. unfold struct_get, _conn_get. apply rg_act; [done|]. intros s1 I1 M1. eapply wp_mono; [by apply reuse_step|].
  intros o s2 ([I2 M2] & E1 & E2 & E3 & Ho). split; [done|].
  assert (turn s2) as Ht2 by (eapply turn_same; [done|done|by eapply turn_mine]).
  assert (client udp s2 sd) as Ha2 by (eapply client_same; [done|]; by eapply (client_mine udp s s1)).
  assert (forall s3, inv s3 -> turn s3 -> client udp s3 sd -> forall (o : option Z), match o with None => True | Some c => exists x, private n c x s3 /\ whole x end ->
    run n (mret o) (fun o s' => turn s' /\ client udp s' sd /\ match o with None => True | Some c => exists x, private n c x s' /\ whole x end) s3) as Hret.
  { intros s3 I3 T3 A3 o' Ho'. apply rg_done; [done|]. intros s4 I4 M4. split; [done|]. split; [by eapply turn_mine|]. split; [by eapply client_mine|].
    destruct o' as [c|]; [|done]. destruct Ho' as (x & HP & Hw). exists x. split; [by eapply private_mine|done]. }
  destruct o as [c|]; [by apply Hret|]. unfold zalloc_conn. apply rg_act; [done|]. intros s3 I3 M3. eapply wp_mono; [by apply zalloc_step|].
  intros o s4 ([I4 M4] & F1 & F2 & F3 & Ho4). split; [done|].
  assert (turn s4) as Ht4 by (eapply turn_same; [done|done|by eapply turn_mine]).
  assert (client udp s4 sd) as Ha4 by (eapply client_same; [done|]; by eapply (client_mine udp s2 s3)).
  destruct o as [c|]; [|by apply Hret]. eapply rg_seq; [by eapply (alloc_bufs_spec udp sd 6 c)|]. intros _ s5 I5 (T5 & A5 & y & HP5 & Hl5).
  apply (rg_bind (R n) (G n)). eapply rg_mono; [|by apply (get_held_spec n c y)]. intros z s6 (I6 & M6 & ->).
  pose proof (turn_mine _ _ T5 M6). pose proof (client_mine _ _ _ _ A5 M6). pose proof (private_mine _ _ _ _ _ HP5 M6) as HP6.
  destruct (forallb id (c_bufs y)) eqn:Ef.
  - apply Hret; [done..|]. exists y. split; [done|]. by apply all_true.
  - eapply rg_seq; [by apply (conn_free_spec n c y)|]. intros [] s7 I7 Hk. destruct (Hk eq_refl) as [T7 A7]. apply Hret; [done|by apply T7|by apply A7|done].
Qed.

Lemma conn_get_spec sd state ev rsize udp s : inv s -> turn s -> client udp s sd ->
  run n (conn_get e_alloc n sd state ev rsize udp)
    (fun o s' => turn s' /\ match o with Some c => ready n c s' | None => client udp s' sd end) s.
Proof.
  intros HI Ht Ha. unfold conn_get. eapply rg_seq; [by apply (obtain_spec rsize udp sd)|]. intros o s1 I1 (T1 & A1 & Ho).
  destruct o as [c|]; [|apply rg_done; [done|]; intros s2 I2 M2; split; [done|]; split; [by eapply turn_mine|by eapply client_mine]].
  destruct Ho as (x & HP & Hw). unfold reset_conn.
  apply (rg_bind (R n) (G n)). apply rg_act; [done|]. intros s2 I2 M2. pose proof (private_mine _ _ _ _ _ HP M2) as HP2.
  eapply wp_mono; [apply (link_step n c s2 I2), HP2|]. intros [] s3 [[I3 M3] (m' & ->)]. split; [done|].
  assert (turn (set_lnk m' s2)) as T3 by (apply (turn_same s2); [done|done|by eapply turn_mine]).
  assert (client udp (set_lnk m' s2) sd) as A3 by (apply (client_same udp s2); [done|by eapply client_mine]).
  assert (private n c x (set_lnk m' s2)) as HP3 by (by destruct HP2).
  apply rg_last; [done|]. intros s4 I4 M4. pose proof (private_mine _ _ _ _ _ HP3 M4) as HP4.
  eapply wp_mono; [apply (reset_step c x sd state ev udp s4 I4 HP4 Hw); intros Hu; by apply (client_mine udp _ s4 sd A3 M4)|].
  intros [] s5 ([I5 M5] & E1 & E2 & HR). split; [done|]. intros s6 I6 M6. apply rg_done; [done|]. intros s7 I7 M7. split; [done|].
  split; [eapply turn_mine; [|done]; eapply turn_mine; [|done]; eapply turn_same; [done|done|by eapply turn_mine]|].
  eapply ready_mine; [|done]. by eapply ready_mine.
Qed.

(** The next worker is the one whose turn it is. *)
Lemma next_worker_spec c s : inv s -> turn s -> ready n c s ->
  run n (next_worker (Z.of_nat n)) (fun t s' => ready n c s' /\ t = (length (g_handed s') mod n)%nat /\ last_thread s' = Z.of_nat t) s.
Proof.
  intros HI Ht Hc. unfold next_worker. apply rg_last; [done|]. intros s1 I1 M1. apply wp_bind, wp_gets, wp_bind.
  destruct (Z.eqb_spec (Z.of_nat n) 0); [lia|]. apply wp_ret, wp_bind, wp_modify, wp_ret.
  pose proof (turn_mine _ _ Ht M1) as T1. unfold turn in T1. rewrite T1. set (t := (length (g_handed s1) mod n)%nat).
  set (s2 := set_last_thread (Z.of_nat t) s1). 
  assert (ready n c s2) as Hc2 by (destruct (ready_mine _ _ _ _ Hc M1) as (x & [] & Hw); exists x; by split). split.
  - destruct I1 as [Q HQ]. split; [exists Q; destruct HQ; by split|]. intros j Hj. split; [done|by intros].
  - intros s3 I3 M3. split; [done|]. split; [by apply (ready_mine n c s2)|]. destruct M3 as [_ M3]. destruct (M3 eq_refl) as (E1 & E2 & _).
    rewrite Nat2Z.id, E1, E2. split; [done|]. simpl. done.
Qed.

Lemma mod_next k : ((Z.of_nat (k mod n) + 1) mod Z.of_nat n = Z.of_nat ((k + 1) mod n)).
Proof. rewrite !Nat2Z.inj_mod, Nat2Z.inj_add. by rewrite Zplus_mod_idemp_l. Qed.

Lemma conn_cq_push_spec c t s : inv s -> ready n c s -> t = (length (g_handed s) mod n)%nat -> last_thread s = Z.of_nat t ->
  run n (conn_cq_push t c) (fun _ s' => turn s') s.
Proof.
  intros HI Hc Ht Hl. unfold conn_cq_push. apply rg_act; [done|]. intros s1 I1 M1. pose proof (ready_mine _ _ _ _ Hc M1) as (x & HP & Hw & Ho).
  eapply wp_mono; [apply (link_step n c s1 I1), HP|]. intros [] s2 [[I2 M2] (m' & ->)]. split; [done|].
  destruct M1 as [_ M1]. destruct (M1 eq_refl) as (E1 & E2 & _).
  apply rg_last; [done|]. intros s3 I3 M3.
  assert (ready n c s3) as (y & HP3 & Hw3 & Ho3) by (eapply ready_mine; [|exact M3]; exists x; by destruct HP).
  destruct M3 as [_ M3]. destruct (M3 eq_refl) as (E3 & E4 & _). simpl in E3, E4.
  eapply wp_mono; [apply (push_step c y t s3 I3 HP3 Hw3 Ho3); congruence|]. intros [] s4 (HS & F1 & F2). split; [done|].
  intros s5 I5 M5. split; [done|]. eapply turn_mine; [|exact M5]. unfold turn.
  rewrite F1, F2, length_app, E4, E2, Hl, Ht, E3, E1. apply mod_next.
Qed.

Lemma thread_dispatch_spec sd state ev udp s : inv s -> turn s -> client udp s sd ->
  run n (thread_dispatch e_alloc e_notify (Z.of_nat n) n sd state ev udp) (fun ok s' => turn s' /\ (ok = false -> client udp s' sd)) s.
Proof.
  intros HI Ht Ha. unfold thread_dispatch. eapply rg_seq; [by apply conn_get_spec|]. intros [c|] s1 I1 (T1 & Hc).
  2: { apply rg_done; [done|]. intros s2 I2 M2. split; [done|]. split; [by eapply turn_mine|]. intros _. by eapply client_mine. }
  eapply rg_seq; [by apply next_worker_spec|]. intros t s2 I2 (Hc2 & Htt & Hlt).
  eapply rg_seq; [by apply conn_cq_push_spec|]. intros [] s3 I3 T3. unfold notify_worker.
  eapply rg_mono; [|apply (rg_same n _ (fun ok => reliable -> ok = true) s3 I3)].
  - intros ok s4 (I4 & M4 & Hok). split; [done|]. split; [by eapply turn_mine|]. intros -> Hu Hr. by specialize (Hok Hr).
  - intros s4. unfold sys. apply wp_bind, wp_bind, wp_gets, wp_bind, wp_modify, wp_ret, wp_bind, wp_modify, wp_ret.
    split; [by destruct (e_notify _)|]. intros [_ Hr]. apply Hr.
Qed.

Lemma close_spec i sd s (P : wire -> Prop) : inv s -> (forall s1, mine i s s1 -> inv s1 -> closable i s1 sd) ->
  (forall s1 s2, mine i s s1 -> lnk s2 = lnk s1 -> conns s2 = conns s1 -> registered s2 = registered s1 -> g_holder s2 = g_holder s1 ->
    g_handed s2 = g_handed s1 -> last_thread s2 = last_thread s1 -> P s2) ->
  (forall s1 s2, P s1 -> mine i s1 s2 -> P s2) -> run i (close sd) (fun _ => P) s.
Proof.
  intros HI Hc HP HS. unfold close. apply rg_last; [done|]. intros s1 I1 M1. apply wp_modify. split; [by apply close_step; [|apply Hc]|].
  intros s3 I3 M3. split; [done|]. eapply HS; [|done]. by apply (HP s1).
Qed.

Lemma accepted_spec s : inv s -> turn s -> run n (accepted e_alloc e_notify e_nonblock (Z.of_nat n) n) (fun _ s' => turn s') s.
Proof.
  intros HI Ht. unfold accepted, accept_sd. apply rg_act; [done|]. intros s1 I1 M1. apply wp_bind, wp_gets, wp_bind, wp_modify, wp_ret.
  destruct (accept_step s1 I1) as [HS Ha]. set (sd := fresh _) in *. set (s2 := set_sds _ s1) in *. split; [done|].
  assert (turn s2) as T2 by (apply (turn_same s1); [done|done|by eapply turn_mine]).
  assert (forall s, inv s -> turn s -> accepted_sd s sd -> run n (close sd) (fun _ s' => turn s') s) as Hclose.
  { intros s3 I3 T3 A3. apply close_spec; [done| | |intros s4 s5 T4 M4; by eapply turn_mine].
    - intros s4 M4 I4 Hr. destruct (accepted_sd_mine _ _ _ A3 M4 Hr). split; [done|]. by left.
    - intros s4 s5 M4 _ _ _ _ E1 E2. eapply turn_same; [done|done|by eapply turn_mine]. }
  apply (rg_bind (R n) (G n)). eapply rg_mono; [|apply (rg_same n _ (fun _ => True) s2 (proj1 HS))].
  2: { intros s3. unfold sys. apply wp_bind, wp_gets, wp_bind, wp_modify, wp_ret. done. }
  intros ok s3 (I3 & M3 & _). pose proof (turn_mine _ _ T2 M3) as T3. pose proof (accepted_sd_mine _ _ _ Ha M3) as A3.
  destruct ok; [|by apply Hclose]. eapply rg_seq; [apply thread_dispatch_spec; [done|done|by intros _]|].
  intros [] s4 I4 (T4 & A4); [|by apply Hclose; [..|apply A4]]. apply rg_done; [done|]. intros s5 I5 M5. split; [done|by eapply turn_mine].
Qed.

Lemma turn_stays s : inv s -> turn s -> run n (mret tt) (fun _ s' => turn s') s.
Proof. intros HI Ht. apply rg_done; [done|]. intros s' I' M'. split; [done|by eapply turn_mine]. Qed.

Lemma core_accept_spec answers : forall s, inv s -> turn s -> run n (core_accept e_alloc e_notify e_nonblock (Z.of_nat n) n answers) (fun _ s' => turn s') s.
Proof.
  induction answers as [|[] answers IH]; intros s HI Ht; cbn [core_accept]; try (by apply turn_stays); [by apply accepted_spec|by apply IH|].
  unfold core_accept_conns. eapply rg_mono; [|apply (rg_same n _ (fun _ => True) s HI); intros s1; apply wp_modify; done].
  intros _ s' (I' & M' & _). split; [done|by eapply turn_mine].
Qed.

Lemma dispatch_udp_spec sd k : forall s, inv s -> turn s -> run n (dispatch_udp e_alloc e_notify (Z.of_nat n) n sd k) (fun _ s' => turn s') s.
Proof.
  induction k as [|k IH]; intros s HI Ht; cbn [dispatch_udp]; [by apply turn_stays|].
  eapply rg_seq; [by apply thread_dispatch_spec|]. intros [] s1 I1 (T1 & _); [by apply IH|by apply turn_stays].
Qed.

Lemma main_loop_spec sds0 scripts s : inv s -> turn s -> run n (main_loop e_alloc e_notify e_nonblock (Z.of_nat n) n sds0 scripts) (fun _ s' => turn s') s.
Proof.
  intros HI Ht. unfold main_loop. eapply (rg_seq n _ _ (fun _ s' => turn s')).
  - revert s HI Ht. induction sds0 as [|sd l IH]; intros s HI Ht; cbn [dispatch_all]; [by apply turn_stays|].
    eapply rg_seq; [by apply dispatch_udp_spec|]. intros [] s1 I1 T1. by apply IH.
  - clear s HI Ht. intros [] s HI Ht. revert s HI Ht. induction scripts as [|a l IH]; intros s HI Ht; cbn [accept_all]; [by apply turn_stays|].
    eapply rg_seq; [by apply core_accept_spec|]. intros [] s1 I1 T1. by apply IH.
Qed.

(** ** The workers *)

Lemma nothing_spec i s : inv s -> run i (mret tt) (fun _ _ => True) s.
Proof. intros HI. by apply rg_done. Qed.

Lemma close_put_spec i c sd s : inv s -> ready i c s -> (forall s1, mine i s s1 -> inv s1 -> closable i s1 sd) ->
  run i (close sd;; core_accept_conns true;; conn_put c) (fun _ _ => True) s /\ run i (close sd;; conn_put c) (fun _ _ => True) s.
Proof.
  intros HI Hc Hcl.
  assert (run i (close sd) (fun _ s' => exists x, private i c x s' /\ whole x) s) as Hclose.
  { apply close_spec; [done|done| |intros s1 s2 (x & HP & Hw) M; exists x; split; [by eapply private_mine|done]].
    intros s1 s2 M1 _ E2 E3 E4 _ _. destruct (ready_mine _ _ _ _ Hc M1) as (x & [] & Hw & _). exists x. split; [split; congruence|done]. }
  split; (eapply rg_seq; [exact Hclose|]); intros [] s1 I1 H1; [|by apply conn_put_spec].
  apply (rg_bind (R i) (G i)). eapply rg_mono; [|apply (rg_same i _ (fun _ => True) s1 I1); intros s2; apply wp_modify; done].
  intros [] s2 (I2 & M2 & _). apply conn_put_spec; [done|]. destruct H1 as (x & HP & Hw). exists x. split; [by eapply private_mine|done].
Qed.

Lemma thread_libevent_process_spec i s : inv s -> (i < n)%nat -> run i (thread_libevent_process e_event i) (fun _ _ => True) s.
Proof.
  intros HI Hi. unfold thread_libevent_process. apply (rg_bind (R i) (G i)).
  eapply rg_mono; [|apply (rg_same i _ (fun _ => True) s HI); intros s1; apply wp_modify; done]. intros [] s1 (I1 & _ & _).
  unfold conn_cq_pop. apply rg_act; [done|]. intros s2 I2 M2. eapply wp_mono; [by apply pop_step|]. intros o s3 [[I3 M3] Ho]. split; [done|].
  destruct o as [c|]; [|by apply nothing_spec]. apply rg_act; [done|]. intros s4 I4 M4. destruct (ready_mine i c s3 s4 Ho M4) as (x & HP & Hw & Hown).
  apply wp_bind. eapply wp_mono; [apply get_conn_wp, HP|]. intros y s5 [-> ->]. unfold put_conn. apply wp_modify. set (x' := CStruct _ _ _).
  assert (step i s4 (set_conns (<[c := x']> (conns s4)) s4)) as [I5 M5].
  { apply put_step; [done|apply HP|]. intros j Hj. destruct HP as [_ HR _]. congruence. }
  split; [done|]. set (s5 := set_conns _ s4) in *.
  assert (ready i c s5) as HR5. { exists x'. split; [|by split]. destruct HP. split; simpl; [done|done|by rewrite lookup_insert_eq]. }
  unfold conn_set_event. apply rg_act; [done|]. intros s6 I6 M6. unfold sys.
  apply wp_bind, wp_bind, wp_gets, wp_bind, wp_modify, wp_ret, wp_bind, wp_modify, wp_ret.
  pose proof (ready_mine _ _ _ _ HR5 M6) as (z & [Z1 Z2 Z3] & Zw & Zo).
  assert (step i s6 (set_nsys (S (nsys s6)) s6)) as [I7 M7] by (apply same_step; [by split|done]). destruct (e_event (nsys s6)) eqn:Ev.
  - assert (step i (set_nsys (S (nsys s6)) s6) (set_registered (<[c := i]> (registered s6)) (set_nsys (S (nsys s6)) s6))) as [I8 M8]
      by (apply (register_step i c z (set_nsys (S (nsys s6)) s6)); [done|by split|done|done]).
    split; [split; [done|]; intros j Hj; eapply mine_trans; [by apply M7|by apply M8]|by apply nothing_spec].
  - split; [done|]. assert (private i c z (set_nsys (S (nsys s6)) s6)) as HP7 by by split.
    apply (rg_bind (R i) (G i)). eapply rg_mono; [|by apply (get_held_spec i c z)]. intros y s8 (I8 & M8 & ->).
    apply close_put_spec; [done| |].
    + exists z. split; [by eapply private_mine|]. split; [done|]. intros Hr. destruct Hr as [Hr _]. by rewrite Hr in Ev.
    + intros s9 _ _ [Hr _]. by rewrite Hr in Ev.
Qed.

(** A registered connection stays so until its worker closes it. *)
Lemma registered_mine i c s s' : inv s -> registered s !! c = Some i -> mine i s s' -> registered s' !! c = Some i.
Proof. intros [Q HQ] Hr [HM _]. destruct (i_registered _ _ HQ c i Hr) as [Hh _]. destruct (HM c Hh) as (_ & _ & E & _). congruence. Qed.

Lemma conn_close_spec i c x s : inv s -> registered s !! c = Some i -> conns s !! c = Some x -> u_udp (c_use x) = false -> run i (conn_close c) (fun _ _ => True) s.
Proof.
  intros HI Hr Hx Hu. unfold conn_close. apply rg_act; [done|]. intros s1 I1 M1. apply wp_modify.
  assert (conns s1 !! c = Some x) as Hx1.
  { destruct HI as [Q HQ]. destruct (i_registered _ _ HQ c i Hr) as [Hh _]. destruct M1 as [M1 _]. destruct (M1 c Hh) as (_ & E & _). congruence. }
  destruct (unregister_step i c s1 I1 (registered_mine i c s s1 HI Hr M1)) as [HS (y & HP & Hw & Ho)]. split; [done|].
  assert (y = x) as -> by (destruct HP as [_ _ E]; simpl in E; congruence). set (s2 := set_registered _ s1) in *.
  apply (rg_bind (R i) (G i)). eapply rg_mono; [|apply (get_held_spec i c x s2); [apply HS|done]]. intros y s3 (I3 & M3 & ->).
  assert (ready i c s3) as Hrd by (apply (ready_mine i c s2); [exists x; by split|done]). apply close_put_spec; [done|done|].
  intros s4 M4 I4 Hre. destruct (ready_mine _ _ _ _ Hrd M4) as (z & [Z1 Z2 Z3] & Zw & Zo).
  assert (z = x) as -> by (destruct (private_mine _ _ _ _ _ (private_mine _ _ _ _ _ HP M3) M4) as [_ _ E]; congruence).
  pose proof (Zo Hre Hu) as Hs. split; [|right; by exists c]. intros Hin. destruct I4 as [Q HQ]. pose proof (i_udp _ _ HQ _ Hre Hin). congruence.
Qed.

Lemma worker_wakes_spec i w s : inv s -> (i < n)%nat -> run i (worker_wakes e_event i w) (fun _ _ => True) s.
Proof.
  intros HI Hi. destruct w as [|c r|c]; cbn [worker_wakes]; [by apply thread_libevent_process_spec|..].
  - apply rg_last; [done|]. intros s1 I1 M1. apply wp_bind, wp_gets. case_decide as Hr; [|apply wp_ret; split; [by apply same_step|done]].
    pose proof I1 as [Q HQ]. destruct (i_registered _ _ HQ c i Hr) as (Hh & x & Hx & Hw & Ho). apply wp_bind.
    eapply wp_mono; [by apply get_conn_wp|]. intros y s2 [-> ->]. unfold put_conn. apply wp_modify. split; [|done]. by apply put_step.
  - apply rg_act; [done|]. intros s1 I1 M1. apply wp_gets. split; [by apply same_step|]. case_decide as Hr; [|by apply nothing_spec].
    unfold core_close_conn. apply rg_act; [done|]. intros s2 I2 M2. pose proof (registered_mine i c s1 s2 I1 Hr M2) as Hr2.
    pose proof I2 as [Q HQ]. destruct (i_registered _ _ HQ c i Hr2) as (Hh & x & Hx & Hw & Ho).
    eapply wp_mono; [by apply get_conn_wp|]. intros y s3 [-> ->]. split; [by apply same_step|].
    destruct (u_udp (c_use x)) eqn:Hu; [by apply nothing_spec|by apply (conn_close_spec i c x)].
Qed.

Lemma worker_loop_spec i ws : forall s, inv s -> (i < n)%nat -> run i (worker_loop e_event i ws) (fun _ _ => True) s.
Proof.
  induction ws as [|w ws IH]; intros s HI Hi; cbn [worker_loop]; [by apply nothing_spec|].
  eapply rg_seq; [by apply worker_wakes_spec|]. intros [] s1 I1 _. by apply IH.
Qed.
End pool.

(** ** The server *)

(** The queues after initialisation are empty. *)
Lemma conn_queues_init_spec k m : (forall h, 0 <= h <= Z.of_nat k -> cell m (Head h)) ->
  wp (conn_queues_init k) (fun _ m' => (forall p, cell m p -> cell m' p) /\ exists Q, queues m' Q /\ Q !! free_connq = Some [] /\
    (forall i, (i < k)%nat -> Q !! new_cq i = Some []) /\ (forall h l, Q !! h = Some l -> h <= Z.of_nat k /\ l = [])) m.
Proof.
  induction k as [|k IH]; intros Hc; cbn [conn_queues_init].
  - eapply wp_mono; [apply (q_init_law (queue := stailq_queue)), Hc; unfold free_connq; lia|]. intros [] m' [HR HO]. split; [apply HO|].
    exists {[free_connq := []]}. split; [split|].
    + apply map_Forall_singleton. done.
    + intros h1 l1 h2 l2 H1 H2. apply lookup_singleton_Some in H1 as [<- <-]. apply lookup_singleton_Some in H2 as [<- <-]. done.
    + split; [by rewrite lookup_singleton_eq|]. split; [lia|]. intros h l Hh. apply lookup_singleton_Some in Hh as [<- <-]. done.
  - apply wp_bind. eapply wp_mono; [apply IH; intros h Hh; apply Hc; lia|]. intros [] m' (Hcell & Q & [HQ HD] & HF & HW & HA).
    eapply wp_mono; [apply (q_init_law (queue := stailq_queue)), Hcell, Hc; unfold new_cq; lia|]. intros [] m2 [HR HO].
    split; [intros p Hp; by apply HO, Hcell|]. exists (<[new_cq k := []]> Q). split; [split|].
    + apply map_Forall_lookup. intros h l. rewrite lookup_insert_Some. intros [[<- <-]|[Hne Hh]]; [done|].
      eapply only_other; [done| |by apply HQ]. apply footprint_disjoint; [done|]. set_solver.
    + intros h1 l1 h2 l2 H1 H2 Hne. assert (l1 = []) as ->; [|set_solver]. apply lookup_insert_Some in H1 as [[_ <-]|[_ H1]]; [done|]. by apply HA in H1 as [_ ?].
    + split; [by rewrite lookup_insert_ne by apply new_cq_free|]. split.
      * intros i Hi. destruct (decide (i = k)) as [->|]; [by rewrite lookup_insert_eq|]. rewrite lookup_insert_ne by (unfold new_cq; lia). apply HW. lia.
      * intros h l. rewrite lookup_insert_Some. intros [[<- <-]|[_ Hh]]; [unfold new_cq; split; [lia|done]|]. apply HA in Hh as [? ->]. split; [lia|done].
Qed.

(** Before the first connection. *)
Record fresh_start (n : nat) (udp_sds : list Z) s : Prop := {
  st_links : exists m, (forall h, 0 <= h <= Z.of_nat n -> cell m (Head h)) /\ conn_queues_init n m = Some (tt, lnk s);
  st_conns : conns s = ∅;
  st_nfree : nfree_connq s = 0;
  st_last : last_thread s = -1;
  st_registered : registered s = ∅;
  st_holder : g_holder s = ∅;
  st_handed : g_handed s = [];
  st_taken : g_taken s = [];
  st_udp sd : sd ∈ udp_sds -> sds s !! sd = Some None
}.

Definition net_threads e_alloc e_event e_notify e_nonblock (wss : list (list wakeup)) (udp_sds : list Z) (scripts : list (list accept_answer)) : list (thread wire unit) :=
  imap (fun i ws => worker_loop e_event i ws) wss ++ [main_loop e_alloc e_notify e_nonblock (Z.of_nat (length wss)) (length wss) udp_sds scripts].

Lemma net_start_inv e_event e_notify n udp_sds s : (0 < n)%nat -> fresh_start n udp_sds s -> inv e_event e_notify n udp_sds s /\ turn n s.
Proof.
  intros Hn [(m & Hm & Hi) E1 E2 E3 E4 E5 E6 E7 E8]. split.
  - destruct (wp_result _ _ _ _ _ (conn_queues_init_spec n m Hm) Hi) as (Hcell & Q & HQ & HF & HW & HA). exists Q. split.
    + done.
    + exists []. rewrite E2. done.
    + intros i Hi'. exists []. rewrite E6, E7. split; [by apply HW|done].
    + intros h l c Hh Hc. apply HA in Hh as [_ ->]. by apply not_elem_of_nil in Hc.
    + intros c j. by rewrite E5, lookup_empty.
    + intros c. rewrite E1, lookup_empty. by intros [].
    + intros c i. by rewrite E4, lookup_empty.
    + intros k c i. by rewrite E6.
    + intros sd _ Hs. by apply E8.
  - unfold turn. rewrite E3, E6. simpl. rewrite Z.mod_0_l, Nat.Div0.mod_0_l by lia. done.
Qed.

(** C26: Worker threads and the main thread, which accepts clients and hands them over
    through the queues of the workers, in any interleaving of their accesses, with any
    failures of allocations and system calls: no access is undefined; every
    connection structure is either held by one thread or on exactly one queue, and the
    pool's counter is right; each worker takes its connections in the order in which
    they were handed to it, each once; the [k]-th connection goes to worker [k] modulo
    the number of workers.  If no call of [event_add] and no write to a pipe fails, two
    registered connections of clients never have the same descriptor. *)
Theorem connections_handed_over e_alloc e_event e_notify e_nonblock wss udp_sds scripts s s' ts'
  (Hw : (0 < length wss)%nat) (Hst : fresh_start (length wss) udp_sds s)
  (Hs : rtc pstep (s, net_threads e_alloc e_event e_notify e_nonblock wss udp_sds scripts) (s', ts')) :
  ~ wrong (s', ts') /\
  (exists Q, queues (lnk s') Q /\ (nfree_connq s' = Z.of_nat (length (default [] (Q !! free_connq)))) /\
    (forall c, is_Some (conns s' !! c) <-> is_Some (g_holder s' !! c) \/ exists h l, Q !! h = Some l /\ c ∈ l) /\
    (forall h l c, Q !! h = Some l -> c ∈ l -> g_holder s' !! c = None)) /\
  (forall i, (i < length wss)%nat -> of_worker i (g_taken s') `prefix_of` of_worker i (g_handed s')) /\
  (forall k c i, g_handed s' !! k = Some (c, i) -> i = (k mod length wss)%nat) /\
  ((forall k, e_event k = true) -> (forall k, e_notify k = true) ->
    forall c1 c2 i1 i2 x1 x2, registered s' !! c1 = Some i1 -> registered s' !! c2 = Some i2 -> conns s' !! c1 = Some x1 -> conns s' !! c2 = Some x2 ->
      u_udp (c_use x1) = false -> u_udp (c_use x2) = false -> u_sd (c_use x1) = u_sd (c_use x2) -> c1 = c2).
Proof.
  set (n := length wss) in *. destruct (net_start_inv e_event e_notify n udp_sds s Hw Hst) as [HI Ht].
  destruct (parallel_invariant (R e_event e_notify n udp_sds) (G e_event e_notify n udp_sds) (fun _ _ => True) (R_refl e_event e_notify n udp_sds) (R_trans e_event e_notify n udp_sds)
    (G_R e_event e_notify n udp_sds) (inv e_event e_notify n udp_sds) s (net_threads e_alloc e_event e_notify e_nonblock wss udp_sds scripts) s' ts') as ([Q HQ] & HW & _).
  - intros i s1 s2 HG HI1. by apply HG.
  - intros i t Hi. cbn in Hi |- *. unfold net_threads in Hi. apply lookup_app_Some in Hi as [Hi|[Hi1 Hi2]].
    + rewrite list_lookup_imap_Some in Hi. destruct Hi as (ws & Hws & ->). eapply rg_mono; [|apply (worker_loop_spec e_alloc e_event e_notify e_nonblock n udp_sds Hw); [done|by eapply lookup_lt_Some]]. done.
    + apply list_lookup_singleton_Some in Hi2 as [Hi2 <-]. rewrite length_imap in *. replace i with n by lia.
      eapply rg_mono; [|by apply (main_loop_spec e_alloc e_event e_notify e_nonblock n udp_sds Hw)]. done.
  - done.
  - done.
  - split; [done|]. split; [|split; [|split]].
    + destruct (i_free _ _ _ _ _ _ HQ) as (l & Hl & Hf). exists Q. split; [apply HQ|]. rewrite Hl. split; [done|]. split.
      * intros c. split; [intros Hc; by apply (i_conns _ _ _ _ _ _ HQ c Hc)|]. intros [[j Hj]|(h & l' & Hh & Hc)]; [by eapply (i_held _ _ _ _ _ _ HQ)|].
        destruct (i_queued _ _ _ _ _ _ HQ h l' c Hh Hc) as (_ & x & Hx & _). by eexists.
      * intros h l' c Hh Hc. by apply (i_queued _ _ _ _ _ _ HQ h l' c Hh Hc).
    + intros i Hi. destruct (i_worker _ _ _ _ _ _ HQ i Hi) as (l & _ & ->). by exists l.
    + intros k c i. apply (i_turns _ _ _ _ _ _ HQ).
    + intros H1 H2 c1 c2 i1 i2 x1 x2 R1 R2 X1 X2 U1 U2 E.
      destruct (i_registered _ _ _ _ _ _ HQ c1 i1 R1) as (_ & y1 & Y1 & _ & O1). destruct (i_registered _ _ _ _ _ _ HQ c2 i2 R2) as (_ & y2 & Y2 & _ & O2).
      assert (y1 = x1) as -> by congruence. assert (y2 = x2) as -> by congruence.
      pose proof (O1 (conj H1 H2) U1) as S1. pose proof (O2 (conj H1 H2) U2) as S2. rewrite E in S1. congruence.
Qed.

(** Two workers and three clients: the main thread runs first, then the workers. *)
Definition ex_links : links :=
  Links (list_to_map [(Head 0, None); (Head 1, None); (Head 2, None)]) (list_to_map [(Head 0, None); (Head 1, None); (Head 2, None)]).
Definition ex_wire : wire :=
  Wire (match conn_queues_init 2 ex_links with Some (_, l) => l | None => ex_links end) ∅ 100 0 (-1) ∅ ∅ {[ 7 := None ]} true 0 ∅ [] [].
Definition ex_calls : nat -> bool := fun _ => true.
Definition ex_pool : wire * list (thread wire unit) :=
  (ex_wire, net_threads ex_calls ex_calls ex_calls ex_calls [[Notified; Closing 100; Notified]; [Notified]] [] [[AcceptIntr; Accepted]; [Accepted]; [Accepted]]).
Definition ex_served : wire * list (thread wire unit) := run_thread 100 1 (run_thread 100 0 (run_thread 100 2 ex_pool)).

Lemma ex_start : fresh_start 2 [] ex_wire.
Proof.
  split; try done; [|intros sd Hs; by apply not_elem_of_nil in Hs]. exists ex_links. split; [|vm_compute; reflexivity].
  intros h Hh. assert (h = 0 \/ h = 1 \/ h = 2) as [->|[->| ->]] by lia; split; vm_compute; eauto.
Qed.

Lemma connections_handed_over_witness :
  g_handed ex_served.1 = [(100, 0%nat); (101, 1%nat); (102, 0%nat)] /\ of_worker 0 (g_taken ex_served.1) = [100; 102] /\
  of_worker 0 (g_taken ex_served.1) `prefix_of` of_worker 0 (g_handed ex_served.1).
Proof.
  assert (rtc pstep ex_pool (ex_served.1, ex_served.2)) as Hs.
  { rewrite <-surjective_pairing. etransitivity; [apply (run_thread_steps 2 100)|]. etransitivity; [apply (run_thread_steps 0 100)|apply (run_thread_steps 1 100)]. }
  destruct (connections_handed_over ex_calls ex_calls ex_calls ex_calls [[Notified; Closing 100; Notified]; [Notified]] []
    [[AcceptIntr; Accepted]; [Accepted]; [Accepted]] ex_wire ex_served.1 ex_served.2 ltac:(simpl; lia) ex_start Hs) as (_ & _ & Hp & _).
  split; [vm_compute; reflexivity|]. split; [vm_compute; reflexivity|]. apply Hp. simpl. lia.
Defined.
