(* ===== verification/Inv.v ===== *)
(** * The invariant of the cache

    What holds of the shared state between any two steps taken under
    [cache_lock], relative to the list [H] of item references that are held
    (by the running command, by other connections): the geometry of slabs and
    chunks, reference counts, the agreement of the hash table and the lru
    queues with the linked items, the free queues, and the current slabs. *)

From S2P Require Import Prelude Hash Time Assoc Item State Slabs.
Open Scope Z_scope.
Implicit Types (a b : addr) (n : nat) (it : item).

(** ** Configuration *)

(** The chunk size and the chunks per slab of a class. *)
Definition psize (c : settings) (id : Z) : Z := default 0 (profile c !! Z.to_nat id).
Definition pcnt (c : settings) (id : Z) : Z := slab_size c / psize c id.

Definition MAX_SLAB : Z := 4194304.
Definition MAX_CHUNKS : Z := 52429.
Definition MAX_HELD : Z := 13000.

Record cfg_ok (c : settings) : Prop := CfgOk {
  ok_last : SLABCLASS_MIN_ID <= profile_last_id c <= SLABCLASS_MAX_ID;
  ok_slab : SLAB_HDR_SIZE < slab_size_opt c <= MAX_SLAB;
  ok_size : forall id, SLABCLASS_MIN_ID <= id <= profile_last_id c ->
    80 <= psize c id <= slab_size c;
  ok_incr : forall i j, SLABCLASS_MIN_ID <= i < j -> j <= profile_last_id c ->
    psize c i < psize c j;
  ok_hash : 0 <= hash_power_opt c < 32
}.

Definition id_ok (c : settings) (id : Z) : Prop := SLABCLASS_MIN_ID <= id <= profile_last_id c.

(** Whether no access reorders the slabs. *)
Definition lra_off (c : settings) : bool := negb (has (evict_opt c) EVICT_CS) && negb (has (evict_opt c) EVICT_AS).

(** The pool an item is freed to. *)
Definition respool (c : settings) (it : item) : bool :=
  slab_has_reserved_slabs c && (item_is_lease_holder it || item_has_co_lease it || item_is_sess it).

(** ** Items *)

(** The value fits the chunk behind the key. *)
Definition layout (c : settings) (it : item) : Prop :=
  i_nkey it = Z.of_nat (length (i_key it)) /\ 0 <= i_nbyte it /\
  Z.of_nat (length (i_payload it)) = payload_size (psize c (i_id it)) (i_nkey it) (item_has_cas it) /\
  i_nbyte it + CRLF_LEN <= Z.of_nat (length (i_payload it)).

(** An allocated chunk nobody uses, and one carved but never handed out. *)
Definition fresh (h : gmap addr item) (a : addr) : Prop :=
  exists it, h !! a = Some it /\ i_refcount it = 0 /\ item_is_linked it = false /\
    item_is_slabbed it = false.

Definition chunk (c : settings) (n : nat) (id i : Z) : addr := slab_2_item n i (psize c id).
Definition chunks (c : settings) (n : nat) (id : Z) : list addr := chunk c n id <$> seqZ 0 (pcnt c id).

Definition ref (h : gmap addr item) (a : addr) : Z :=
  match h !! a with Some it => i_refcount it | None => 0 end.
Definition refs (h : gmap addr item) (l : list addr) : Z := foldr (fun a x => ref h a + x) 0 l.

(** How often a reference is held. *)
Fixpoint held (a : addr) (H : list addr) : Z :=
  match H with
  | [] => 0
  | b :: H' => (if decide (a = b) then 1 else 0) + held a H'
  end.

(** ** The invariant, by component

    [raw] is a slab that has been taken from the heap, or emptied, and not yet
    been carved for a class. *)

Definition P_cls (c : settings) (cl : bool -> gmap Z slabclass) : Prop :=
  forall r id,
    (id_ok c id -> exists p, cl r !! id = Some p /\ csize p = psize c id /\ nitem p = pcnt c id) /\
    (forall p, cl r !! id = Some p -> id_ok c id).

Definition P_chunk (c : settings) (h : gmap addr item) (sl : gmap nat slab) (raw : option nat) : Prop :=
  (forall (a : addr) it, h !! a = Some it -> exists s, sl !! a.1 = Some s /\
     (raw <> Some a.1 -> i_offset it = a.2 /\ i_id it = sl_id s /\ a ∈ chunks c a.1 (sl_id s))) /\
  (forall n s, sl !! n = Some s -> raw <> Some n ->
     id_ok c (sl_id s) /\ forall a : addr, a ∈ chunks c n (sl_id s) -> is_Some (h !! a)).

Definition P_sum (c : settings) (h : gmap addr item) (sl : gmap nat slab) (raw : option nat) : Prop :=
  forall n s, sl !! n = Some s -> raw <> Some n -> sl_refcount s = refs h (chunks c n (sl_id s)).

Definition P_raw (h : gmap addr item) (cl : bool -> gmap Z slabclass) (raw : option nat) : Prop :=
  forall n, raw = Some n ->
    (forall a : addr, a.1 = n -> is_Some (h !! a) -> fresh h a) /\
    (forall r id p (a : addr), cl r !! id = Some p -> free_item p = Some a -> a.1 <> n).

Definition P_refs (H : list addr) (h : gmap addr item) : Prop :=
  (forall a : addr, a ∈ H -> is_Some (h !! a)) /\
  (forall (a : addr) it, h !! a = Some it ->
     held a H <= i_refcount it <= held a H + 1 /\
     (item_is_linked it = true -> item_is_pinned_kind it = true -> i_refcount it = held a H + 1)).

Definition P_tbl (h : gmap addr item) (t : table addr) : Prop :=
  Assoc.wf (hkey h) hash_key t /\
  (forall a : addr, a ∈ contents t <-> exists it, h !! a = Some it /\ item_is_linked it = true) /\
  nhash_item t = Z.of_nat (length (contents t)).

Definition on_lru (h : gmap addr item) (r : bool) (id : Z) (a : addr) : Prop :=
  exists it, h !! a = Some it /\ item_is_linked it = true /\ item_is_lease_holder it = r /\ i_id it = id.

Definition P_lru (h : gmap addr item) (q : bool -> gmap Z (list addr)) : Prop :=
  forall r id, SLABCLASS_MIN_ID <= id <= SLABCLASS_MAX_ID ->
    exists l, q r !! id = Some l /\ NoDup l /\ forall a : addr, a ∈ l <-> on_lru h r id a.

Definition P_free (h : gmap addr item) (cl : bool -> gmap Z slabclass) (inf : bool -> slab_heapinfo) : Prop :=
  (forall r id p, cl r !! id = Some p ->
     NoDup (free_itemq p) /\ nfree_itemq p = Z.of_nat (length (free_itemq p)) /\
     forall a : addr, a ∈ free_itemq p ->
       exists it, h !! a = Some it /\ item_is_slabbed it = true /\ i_id it = id /\
         a.1 ∈ slab_table (inf r)) /\
  (forall (a : addr) it, h !! a = Some it -> item_is_slabbed it = true ->
     item_is_linked it = false /\ i_refcount it = 0 /\
     exists r p, cl r !! i_id it = Some p /\ a ∈ free_itemq p).

Definition P_cur (c : settings) (h : gmap addr item) (sl : gmap nat slab)
    (cl : bool -> gmap Z slabclass) (inf : bool -> slab_heapinfo) : Prop :=
  forall r id p (a : addr), cl r !! id = Some p -> free_item p = Some a ->
    exists k, a = chunk c a.1 id k /\ nfree_item p = pcnt c id - k /\ 0 <= k < pcnt c id /\
      a.1 ∈ slab_table (inf r) /\ (exists s, sl !! a.1 = Some s /\ sl_id s = id) /\
      forall j, k <= j < pcnt c id -> fresh h (chunk c a.1 id j).

Definition P_info (sl : gmap nat slab) (ns : nat) (inf : bool -> slab_heapinfo)
    (raw : option nat) : Prop :=
  (forall r, nslab (inf r) = Z.of_nat (length (slab_table (inf r))) /\
     nslab (inf r) <= max_nslab (inf r) < 2 ^ 32 /\
     NoDup (slab_table (inf r)) /\ NoDup (slab_lruq (inf r)) /\
     (forall n, n ∈ slab_lruq (inf r) <-> n ∈ slab_table (inf r) /\ raw <> Some n) /\
     (forall n, n ∈ slab_table (inf r) -> is_Some (sl !! n))) /\
  (forall n, n ∈ slab_table (inf false) -> n ∈ slab_table (inf true) -> False) /\
  (forall n, is_Some (sl !! n) -> (n < ns)%nat /\ exists r, n ∈ slab_table (inf r)) /\
  (max_nslab (inf false) + max_nslab (inf true)) * MAX_CHUNKS < 2 ^ 31 - 1.

Definition P_home (c : settings) (h : gmap addr item) (inf : bool -> slab_heapinfo) : Prop :=
  forall (a : addr) it, h !! a = Some it -> item_is_linked it = true ->
    a.1 ∈ slab_table (inf (respool c it)) /\
    (lra_off c = true \/ respool c it = item_is_lease_holder it) /\
    (i_refcount it = 0 -> respool c it = false).

Definition P_data (c : settings) (h : gmap addr item) : Prop :=
  forall (a : addr) it, h !! a = Some it -> item_is_linked it = true ->
    layout c it /\ (item_is_lease_holder it = true -> is_Some (item_value it)).

Record INV (raw : option nat) (H : list addr) (c : settings) (h : gmap addr item)
    (sl : gmap nat slab) (ns : nat) (cl : bool -> gmap Z slabclass) (inf : bool -> slab_heapinfo)
    (t : table addr) (q : bool -> gmap Z (list addr)) : Prop := Inv {
  v_cfg : cfg_ok c;
  v_cls : P_cls c cl;
  v_chunk : P_chunk c h sl raw;
  v_sum : P_sum c h sl raw;
  v_raw : P_raw h cl raw;
  v_refs : P_refs H h;
  v_tbl : P_tbl h t;
  v_lru : P_lru h q;
  v_free : P_free h cl inf;
  v_cur : P_cur c h sl cl inf;
  v_info : P_info sl ns inf raw;
  v_home : P_home c h inf;
  v_data : P_data c h
}.

Definition inv_raw (raw : option nat) (H : list addr) (s : st) : Prop :=
  INV raw H (cfg s) (heap s) (slabs s) (next_slab s) (classes s) (info s) (tbl s) (lruqs s).

Definition inv : list addr -> st -> Prop := inv_raw None.

(** ** Held references *)

#[export] Instance held_perm a : Proper ((≡ₚ) ==> (=)) (held a).
Proof.
  induction 1 as [|x l l' _ IH|x y l|l1 l2 l3 _ IH1 _ IH2]; simpl; try lia.
Qed.

Lemma held_nonneg a H : 0 <= held a H.
Proof. induction H; simpl; [lia|]. case_decide; lia. Qed.

Lemma held_le_length a H : held a H <= Z.of_nat (length H).
Proof. induction H; simpl; [lia|]. case_decide; lia. Qed.

Lemma held_elem a H : 0 < held a H <-> a ∈ H.
Proof.
  induction H as [|b H IH]; simpl; [set_solver by lia|]. rewrite elem_of_cons, <-IH.
  pose proof (held_nonneg a H). case_decide; naive_solver lia.
Qed.

Lemma held_cons_eq a H : held a (a :: H) = held a H + 1.
Proof. simpl. rewrite decide_True by done. lia. Qed.
Lemma held_cons_ne a b H : a <> b -> held a (b :: H) = held a H.
Proof. intros. simpl. by rewrite decide_False. Qed.

(** ** Chunks *)

Lemma slab_size_pos c : cfg_ok c -> 0 < slab_size c < MAX_SLAB.
Proof.
  intros Hc. pose proof (ok_slab c Hc). unfold slab_size, MAX_SLAB, SLAB_HDR_SIZE in *.
  rewrite u64_small; lia.
Qed.

Lemma pcnt_range c id : cfg_ok c -> id_ok c id -> 1 <= pcnt c id <= MAX_CHUNKS.
Proof.
  intros Hc Hi. pose proof (ok_size c Hc id Hi). pose proof (slab_size_pos c Hc).
  unfold pcnt, MAX_CHUNKS, MAX_SLAB in *. split.
  - apply Z.div_le_lower_bound; lia.
  - apply Z.div_le_upper_bound; nia.
Qed.

Lemma chunk_fits c id i : cfg_ok c -> id_ok c id -> 0 <= i < pcnt c id ->
  0 <= i * psize c id < MAX_SLAB.
Proof.
  intros Hc Hi Hr. pose proof (ok_size c Hc id Hi). pose proof (slab_size_pos c Hc).
  unfold pcnt in Hr. pose proof (Z.mul_div_le (slab_size c) (psize c id)). nia.
Qed.

Lemma chunk_eq c n id i : cfg_ok c -> id_ok c id -> 0 <= i < pcnt c id ->
  chunk c n id i = (n, SLAB_HDR_SIZE + i * psize c id).
Proof.
  intros Hc Hi Hr. pose proof (chunk_fits c id i Hc Hi Hr). unfold MAX_SLAB in *.
  unfold chunk, slab_2_item. by rewrite u32_small by lia.
Qed.

Lemma chunk_inj c n m id i j : cfg_ok c -> id_ok c id -> 0 <= i < pcnt c id -> 0 <= j < pcnt c id ->
  chunk c n id i = chunk c m id j -> n = m /\ i = j.
Proof.
  intros Hc Hi Hr Hs. rewrite !chunk_eq by done. intros [= -> He]. split; [done|].
  pose proof (ok_size c Hc id Hi). nia.
Qed.

Lemma elem_of_chunks c n id a :
  a ∈ chunks c n id <-> exists i, 0 <= i < pcnt c id /\ a = chunk c n id i.
Proof.
  unfold chunks. rewrite list_elem_of_fmap. setoid_rewrite elem_of_seqZ. simpl. naive_solver.
Qed.

Lemma chunks_slab c n id a : a ∈ chunks c n id -> a.1 = n.
Proof. rewrite elem_of_chunks. intros (i & _ & ->). done. Qed.

Lemma NoDup_chunks c n id : cfg_ok c -> id_ok c id -> NoDup (chunks c n id).
Proof.
  intros Hc Hi. unfold chunks. apply NoDup_fmap_2_strong; [|apply NoDup_seqZ].
  intros i j Hx Hy. apply elem_of_seqZ in Hx, Hy. intros He.
  by destruct (chunk_inj c n n id i j Hc Hi) as [_ ?]; [lia|lia|done|].
Qed.

Lemma length_chunks c n id : cfg_ok c -> id_ok c id -> Z.of_nat (length (chunks c n id)) = pcnt c id.
Proof.
  intros Hc Hi. unfold chunks. rewrite length_fmap, length_seqZ.
  pose proof (pcnt_range c id Hc Hi). lia.
Qed.

(** ** Sums of reference counts *)

Lemma refs_insert_ne h a it l : a ∉ l -> refs (<[a := it]> h) l = refs h l.
Proof.
  induction l as [|b l IH]; simpl; [done|]. rewrite not_elem_of_cons. intros [Hn Hl].
  rewrite IH by done. unfold ref. by rewrite lookup_insert_ne by congruence.
Qed.

Lemma refs_insert h a it l : NoDup l -> a ∈ l ->
  refs (<[a := it]> h) l = refs h l + (i_refcount it - ref h a).
Proof.
  induction 1 as [|b l Hb Hl IH]; simpl; [set_solver|]. intros [<-|Ha]%elem_of_cons.
  - rewrite refs_insert_ne by done. unfold ref. rewrite lookup_insert_eq. lia.
  - rewrite IH by done. unfold ref. rewrite lookup_insert_ne by congruence. lia.
Qed.

Lemma refs_nonneg h l : (forall a : addr, a ∈ l -> 0 <= ref h a) -> 0 <= refs h l.
Proof.
  induction l as [|b l IH]; simpl; [lia|]. intros Hl.
  assert (0 <= ref h b) by (apply Hl; set_solver). assert (0 <= refs h l) by (apply IH; set_solver). lia.
Qed.

Lemma refs_ge h l a : NoDup l -> (forall a : addr, a ∈ l -> 0 <= ref h a) -> a ∈ l -> ref h a <= refs h l.
Proof.
  induction 1 as [|b l Hb Hl IH]; simpl; [set_solver|]. intros Hp [<-|Ha]%elem_of_cons.
  - assert (0 <= refs h l) by (apply refs_nonneg; set_solver). lia.
  - assert (ref h a <= refs h l) by (apply IH; set_solver).
    assert (0 <= ref h b) by (apply Hp; set_solver). lia.
Qed.

Lemma refs_zero h l : (forall a : addr, a ∈ l -> ref h a = 0) -> refs h l = 0.
Proof.
  induction l as [|b l IH]; simpl; [done|]. intros Hl.
  rewrite IH by set_solver. rewrite Hl by set_solver. done.
Qed.

(** The references held into a slab, and one pin a chunk. *)
Lemma refs_bound H h l : NoDup l -> P_refs H h -> refs h l <= Z.of_nat (length H) + Z.of_nat (length l).
Proof.
  intros Hnd [_ Hr].
  assert (forall H', (forall a : addr, a ∈ l -> ref h a <= held a H' + 1) ->
    refs h l <= Z.of_nat (length H') + Z.of_nat (length l)) as Hgen.
  { clear H Hr. induction Hnd as [|b l Hb Hl IH]; intros H Hr; simpl; [lia|].
    pose proof (Hr b ltac:(set_solver)) as H1.
    assert (refs h l <= Z.of_nat (length (filter (fun x => x <> b) H)) + Z.of_nat (length l)) as H2.
    { apply IH. intros a Ha. pose proof (Hr a ltac:(set_solver)) as H2.
      assert (a <> b) as Hab by congruence.
      replace (held a (filter (fun x => x <> b) H)) with (held a H); [done|]. clear -Hab.
      induction H as [|x H IH]; simpl; [done|]. destruct (decide (x <> b)) as [Hx|Hx].
      - rewrite filter_cons_True by done. simpl. by rewrite IH.
      - rewrite filter_cons_False by done. rewrite decide_False; [done|]. intros ->. by apply Hx. }
    assert (held b H + Z.of_nat (length (filter (fun x => x <> b) H)) = Z.of_nat (length H)) as H3; [|lia].
    clear. induction H as [|x H IH]; simpl; [done|]. destruct (decide (x <> b)) as [Hx|Hx].
    - rewrite filter_cons_True by done. rewrite decide_False by congruence. simpl. lia.
    - rewrite filter_cons_False by done. rewrite decide_True; [lia|].
      destruct (decide (b = x)); [done|]. exfalso. apply Hx. congruence. }
  apply Hgen. intros a _. unfold ref. destruct (h !! a) as [it|] eqn:E.
  - by apply Hr in E as [[_ ?] _].
  - pose proof (held_nonneg a H). lia.
Qed.

(** ** Updates of one item *)

Section update.
Context (c : settings) (h : gmap addr item) (a : addr) (it it' : item) (Ha : h !! a = Some it).
Local Abbreviation h' := (<[a := it']> h).

Lemma upd_lookup b x : h' !! b = Some x -> (a = b /\ x = it') \/ (a <> b /\ h !! b = Some x).
Proof. clear Ha it. rewrite lookup_insert_Some. intros [[? ?]|[? ?]]; auto. Qed.

Lemma upd_is_Some b : is_Some (h' !! b) <-> is_Some (h !! b).
Proof.
  destruct (decide (a = b)) as [<-|Hn]; [|by rewrite lookup_insert_ne].
  rewrite lookup_insert_eq, Ha. split; eauto.
Qed.

Lemma upd_chunk sl raw :
  i_offset it' = i_offset it -> i_id it' = i_id it -> P_chunk c h sl raw -> P_chunk c h' sl raw.
Proof.
  intros Ho Hi [H1 H2]. split.
  - intros b x [[<- ->]|[Hn Hb]]%upd_lookup; [|by apply H1].
    rewrite Ho, Hi. by apply H1.
  - intros n s Hn Hr. destruct (H2 n s Hn Hr) as [? Hc]. split; [done|].
    intros b Hb. apply upd_is_Some. by apply Hc.
Qed.

Lemma upd_fresh b :
  i_refcount it' = i_refcount it -> item_is_linked it' = item_is_linked it ->
  item_is_slabbed it' = item_is_slabbed it -> fresh h b -> fresh h' b.
Proof.
  intros H1 H2 H3 (x & Hx & Hf). destruct (decide (a = b)) as [<-|Hn].
  - exists it'. rewrite lookup_insert_eq, H1, H2, H3. simplify_eq. done.
  - exists x. by rewrite lookup_insert_ne.
Qed.

Lemma upd_sum sl raw : i_refcount it' = i_refcount it -> P_sum c h sl raw -> P_sum c h' sl raw.
Proof.
  intros Hr Hs n s Hn Hw. rewrite (Hs n s Hn Hw). clear -Ha Hr.
  induction (chunks c n (sl_id s)) as [|b l IH]; simpl; [done|]. rewrite <-IH. f_equal.
  unfold ref. destruct (decide (a = b)) as [<-|]; [|by rewrite lookup_insert_ne].
  by rewrite lookup_insert_eq, Ha, Hr.
Qed.

Lemma upd_hkey : i_key it' = i_key it -> forall b, hkey h' b = hkey h b.
Proof.
  intros Hk b. unfold hkey. destruct (decide (a = b)) as [<-|]; [|by rewrite lookup_insert_ne].
  by rewrite lookup_insert_eq, Ha.
Qed.
End update.

(** The hash table only reads the keys of its entries. *)
Lemma tbl_wf_ext (k1 k2 : addr -> list Z) (t : table addr) :
  (forall a : addr, a ∈ contents t -> k1 a = k2 a) -> Assoc.wf k1 hash_key t -> Assoc.wf k2 hash_key t.
Proof.
  intros Hk [H1 H2 H3 H4 H5 H6 H7].
  assert (forall i l e, primary_hashtable t !! i = Some l -> e ∈ l -> k1 e = k2 e) as Hp.
  { intros i l e Hi He. apply Hk. apply elem_of_app. left. apply elem_of_buckets. eauto. }
  assert (forall i l e, expanding t = true -> old_hashtable t !! i = Some l -> e ∈ l -> k1 e = k2 e) as Ho.
  { intros i l e Ex Hi He. apply Hk. apply elem_of_app. right. rewrite Ex.
    apply elem_of_buckets. eauto. }
  split; try done.
  - intros i l e Hi He. rewrite <-(Hp i l e Hi He). by eapply H5.
  - intros i l e Ex Hi He. rewrite <-(Ho i l e Ex Hi He). by eapply H6.
  - intros b l Hb Hx. assert (k2 <$> l = k1 <$> l) as ->; [|by apply (H7 b)].
    apply list_fmap_ext. intros i e He. symmetry. apply list_elem_of_lookup_2 in He.
    destruct b as [[] j]; unfold bucket in Hb; simpl in *; [by eapply Ho; eauto|by eapply Hp].
Qed.

(** An update that the rest of the state does not notice. *)
Record inert (c : settings) (it it' : item) : Prop := Inert {
  in_offset : i_offset it' = i_offset it;
  in_id : i_id it' = i_id it;
  in_refcount : i_refcount it' = i_refcount it;
  in_linked : item_is_linked it' = item_is_linked it;
  in_slabbed : item_is_slabbed it' = item_is_slabbed it;
  in_rest : item_is_linked it = true ->
    i_key it' = i_key it /\ item_is_lease_holder it' = item_is_lease_holder it /\
    item_is_pinned_kind it' = item_is_pinned_kind it /\ respool c it' = respool c it /\
    layout c it' /\ (item_is_lease_holder it' = true -> is_Some (item_value it'))
}.

Lemma INV_inert raw H c h sl ns cl inf t q a it it' :
  INV raw H c h sl ns cl inf t q -> h !! a = Some it -> inert c it it' ->
  INV raw H c (<[a := it']> h) sl ns cl inf t q.
Proof.
  intros [V1 V2 V3 V4 V5 V6 V7 V8 V9 V10 V11 V12 V13] Ha [I1 I2 I3 I4 I5 I6].
  split; try done.
  - by apply (upd_chunk c h a it it' Ha).
  - by apply (upd_sum c h a it it' Ha).
  - intros n Hn. destruct (V5 n Hn) as [Hf Hc]. split; [|done]. intros b Hb Hs.
    apply (upd_fresh h a it it' Ha); try done. apply Hf; [done|].
    by apply (upd_is_Some h a it it' Ha) in Hs.
  - destruct V6 as [R1 R2]. split.
    + intros b Hb. apply (upd_is_Some h a it it' Ha). by apply R1.
    + intros b x [[<- ->]|[Hn Hb]]%upd_lookup; [|by apply R2].
      rewrite I3, I4. destruct (R2 a it Ha) as [? Hp]. split; [done|]. intros Hl Hk.
      apply Hp; [done|]. by rewrite <-(proj1 (proj2 (proj2 (I6 Hl)))).
  - destruct V7 as (T1 & T2 & T3). split_and!; [|intros b; rewrite T2; split|done].
    + eapply tbl_wf_ext; [|exact T1]. intros b Hb. apply T2 in Hb as (x & Hx & Hl). unfold hkey.
      destruct (decide (a = b)) as [<-|]; [|by rewrite lookup_insert_ne].
      rewrite lookup_insert_eq, Ha. simplify_eq. symmetry. by apply I6.
    + intros (x & Hx & Hl). destruct (decide (a = b)) as [<-|].
      * exists it'. rewrite lookup_insert_eq, I4. by simplify_eq.
      * exists x. by rewrite lookup_insert_ne.
    + intros (x & [[<- ->]|[Hn Hb]]%upd_lookup & Hl); [exists it; by rewrite <-I4|by exists x].
  - intros r id Hid. destruct (V8 r id Hid) as (l & Hq & Hn & Hl). exists l.
    split_and!; [done|done|]. intros b. rewrite Hl. split.
    + intros (x & Hx & Hx1 & Hx2 & Hx3). destruct (decide (a = b)) as [<-|].
      * exists it'. rewrite lookup_insert_eq, I4, I2. simplify_eq.
        rewrite (proj1 (proj2 (I6 Hx1))). done.
      * exists x. by rewrite lookup_insert_ne.
    + intros (x & [[<- ->]|[Hn' Hb]]%upd_lookup & Hx1 & Hx2 & Hx3); [|by exists x].
      exists it. rewrite I4 in Hx1. rewrite (proj1 (proj2 (I6 Hx1))) in Hx2.
      by rewrite <-I2.
  - destruct V9 as [F1 F2]. split.
    + intros r id p Hp. destruct (F1 r id p Hp) as (? & ? & Hq). split_and!; [done|done|].
      intros b Hb. destruct (Hq b Hb) as (x & Hx & ? & ? & ?). destruct (decide (a = b)) as [<-|].
      * exists it'. rewrite lookup_insert_eq, I5, I2. assert (x = it) as -> by congruence. done.
      * exists x. by rewrite lookup_insert_ne.
    + intros b x [[<- ->]|[Hn Hb]]%upd_lookup Hs; [|by apply F2].
      rewrite I4, I3, I2. apply F2; [done|congruence].
  - intros r id p b Hp Hb. destruct (V10 r id p b Hp Hb) as (k & ? & ? & ? & ? & ? & Hf).
    exists k. do 5 (split; [done|]). intros j Hj.
    apply (upd_fresh h a it it' Ha); auto.
  - intros b x [[<- ->]|[Hn Hb]]%upd_lookup Hl; [|by apply V12].
    rewrite I4 in Hl. destruct (I6 Hl) as (_ & Hlh & _ & -> & _). rewrite Hlh, I3. by apply V12.
  - intros b x [[<- ->]|[Hn Hb]]%upd_lookup Hl; [|by apply (V13 b)].
    rewrite I4 in Hl. by destruct (I6 Hl) as (_ & _ & _ & _ & ? & ?).
Qed.

(** ** Reference counts *)

(** The chunk is not one that a class has still to hand out. *)
Definition not_cur (c : settings) (cl : bool -> gmap Z slabclass) (a : addr) : Prop :=
  forall r id p (b : addr) k j, cl r !! id = Some p -> free_item p = Some b -> b = chunk c b.1 id k ->
    nfree_item p = pcnt c id - k -> k <= j < pcnt c id -> a <> chunk c b.1 id j.

(** In use: linked or referenced, or simply handed out. *)
Definition taken (c : settings) (cl : bool -> gmap Z slabclass) (a : addr) (it : item) : Prop :=
  item_is_slabbed it = false /\
  (item_is_linked it = true \/ 0 < i_refcount it \/ not_cur c cl a).

Lemma taken_not_cur c h sl cl inf a it :
  P_cur c h sl cl inf -> h !! a = Some it -> taken c cl a it -> not_cur c cl a.
Proof.
  intros Hc Ha [_ Ht] r id p b k j Hp Hb Hk Hn Hj ->.
  destruct Ht as [Hl|[Hr|Hnc]]; [| |by eapply (Hnc r id p b k j)];
    destruct (Hc r id p b Hp Hb) as (k' & Hk' & Hn' & _ & _ & _ & Hf);
    assert (k' = k) as -> by lia; destruct (Hf j Hj) as (x & Hx & ? & ? & ?); simplify_eq.
  - congruence.
  - lia.
Qed.

Lemma cur_upd c h sl cl inf a it' :
  P_cur c h sl cl inf -> not_cur c cl a -> P_cur c (<[a := it']> h) sl cl inf.
Proof.
  intros Hc Hn r id p b Hp Hb. destruct (Hc r id p b Hp Hb) as (k & ? & ? & ? & ? & ? & Hf).
  exists k. do 5 (split; [done|]). intros j Hj. destruct (Hf j Hj) as (x & Hx & Hx').
  exists x. rewrite lookup_insert_ne; [done|]. by apply (Hn r id p b k j).
Qed.

Lemma slab_upd_chunk c h sl raw n s s' :
  sl !! n = Some s -> sl_id s' = sl_id s -> P_chunk c h sl raw -> P_chunk c h (<[n := s']> sl) raw.
Proof.
  intros Hs Hi [H1 H2]. split.
  - intros a it Ha. destruct (H1 a it Ha) as (x & Hx & Hr). destruct (decide (n = a.1)) as [->|].
    + exists s'. rewrite lookup_insert_eq, Hi. by simplify_eq.
    + exists x. by rewrite lookup_insert_ne.
  - intros m x. rewrite lookup_insert_Some. intros [[<- <-]|[_ Hm]] Hr; [|by apply H2].
    rewrite Hi. by apply H2.
Qed.

Lemma slab_upd_is_Some (sl : gmap nat slab) n s s' m :
  sl !! n = Some s -> is_Some (<[n := s']> sl !! m) <-> is_Some (sl !! m).
Proof.
  intros Hs. destruct (decide (n = m)) as [<-|]; [|by rewrite lookup_insert_ne].
  rewrite lookup_insert_eq, Hs. split; eauto.
Qed.

Lemma slab_upd_cur c h sl cl inf n s s' :
  sl !! n = Some s -> sl_id s' = sl_id s -> P_cur c h sl cl inf -> P_cur c h (<[n := s']> sl) cl inf.
Proof.
  intros Hs Hi Hc r id p b Hp Hb.
  destruct (Hc r id p b Hp Hb) as (k & ? & ? & ? & ? & (x & Hx & Hx') & Hf).
  exists k. do 4 (split; [done|]). split; [|done]. destruct (decide (n = b.1)) as [->|].
  - exists s'. rewrite lookup_insert_eq. simplify_eq. by rewrite Hi.
  - exists x. by rewrite lookup_insert_ne.
Qed.

Lemma slab_upd_info sl ns inf raw n s s' :
  sl !! n = Some s -> P_info sl ns inf raw -> P_info (<[n := s']> sl) ns inf raw.
Proof.
  intros Hs (H1 & H2 & H3 & H4). split_and!; [|done| |done].
  - intros r. destruct (H1 r) as (? & ? & ? & ? & ? & H5). do 5 (split; [done|]).
    intros m Hm. apply (slab_upd_is_Some sl n s s' m Hs). by apply H5.
  - intros m Hm. apply H3. by apply (slab_upd_is_Some sl n s s' m Hs) in Hm.
Qed.

(** A reference taken or given up. *)
Lemma INV_ref raw H H' c h sl ns cl inf t q a it s d :
  INV raw H c h sl ns cl inf t q -> h !! a = Some it -> sl !! a.1 = Some s ->
  raw <> Some a.1 -> taken c cl a it ->
  (item_is_linked it = true -> i_refcount it + d = 0 -> respool c it = false) ->
  P_refs H' (<[a := set_refcount (i_refcount it + d) it]> h) ->
  INV raw H' c (<[a := set_refcount (i_refcount it + d) it]> h)
    (<[a.1 := set_sl_refcount (sl_refcount s + d) s]> sl) ns cl inf t q.
Proof.
  intros HI Ha Hs Hraw Ht Hz HR. pose proof (taken_not_cur _ _ _ _ _ _ _ (v_cur _ _ _ _ _ _ _ _ _ _ HI) Ha Ht) as Hnc.
  destruct HI as [V1 V2 V3 V4 V5 V6 V7 V8 V9 V10 V11 V12 V13]. destruct Ht as [Hns _].
  set (it' := set_refcount (i_refcount it + d) it). split; try done.
  - apply (slab_upd_chunk c _ sl raw a.1 s); [done|done|]. by apply (upd_chunk c h a it it' Ha).
  - intros n x. rewrite lookup_insert_Some. intros [[<- <-]|[Hn Hx]] Hr.
    + simpl. destruct (proj2 V3 a.1 s Hs Hr) as [Hid _]. rewrite refs_insert.
      * rewrite (V4 a.1 s Hs Hr). assert (ref h a = i_refcount it) as -> by (unfold ref; by rewrite Ha).
        simpl. lia.
      * by apply NoDup_chunks.
      * destruct (proj1 V3 a it Ha) as (s0 & Hs0 & Hin). simplify_eq. by apply Hin.
    + rewrite refs_insert_ne; [by apply V4|]. intros Hin. apply chunks_slab in Hin. congruence.
  - intros n ->. destruct (V5 n eq_refl) as [Hf Hc]. split; [|done]. intros b Hb Hsome.
    rewrite (upd_is_Some h a it it' Ha) in Hsome. destruct (Hf b Hb Hsome) as (x & Hx & Hx').
    exists x. rewrite lookup_insert_ne; [done|]. intros ->. apply Hraw. by rewrite Hb.
  - destruct V7 as (T1 & T2 & T3). split_and!; [|intros b; rewrite T2; split|done].
    + eapply tbl_wf_ext; [|exact T1]. intros b _. symmetry. by apply (upd_hkey h a it it' Ha).
    + intros (x & Hx & Hl). destruct (decide (a = b)) as [<-|].
      * exists it'. rewrite lookup_insert_eq. by simplify_eq.
      * exists x. by rewrite lookup_insert_ne.
    + intros (x & [[<- ->]|[Hn Hb]]%upd_lookup & Hl); [by exists it|by exists x].
  - intros r id Hid. destruct (V8 r id Hid) as (l & Hq & Hn & Hl). exists l.
    split_and!; [done|done|]. intros b. rewrite Hl. split.
    + intros (x & Hx & Hx1). destruct (decide (a = b)) as [<-|].
      * exists it'. rewrite lookup_insert_eq. by simplify_eq.
      * exists x. by rewrite lookup_insert_ne.
    + intros (x & [[<- ->]|[Hn' Hb]]%upd_lookup & Hx1); [by exists it|by exists x].
  - destruct V9 as [F1 F2]. split.
    + intros r id p Hp. destruct (F1 r id p Hp) as (? & ? & Hq). split_and!; [done|done|].
      intros b Hb. destruct (Hq b Hb) as (x & Hx & ? & ? & ?). exists x.
      rewrite lookup_insert_ne; [done|]. intros <-. congruence.
    + intros b x [[<- ->]|[Hn Hb]]%upd_lookup Hsl; [|by apply F2].
      change (item_is_slabbed it = true) in Hsl. congruence.
  - apply (slab_upd_cur c _ sl cl inf a.1 s); [done|done|]. by apply cur_upd.
  - by apply (slab_upd_info sl ns inf raw a.1 s).
  - intros b x [[<- ->]|[Hn Hb]]%upd_lookup Hl; [|by apply V12].
    destruct (V12 a it Ha Hl) as (? & ? & _). split_and!; [done|done|by apply Hz].
  - intros b x [[<- ->]|[Hn Hb]]%upd_lookup Hl; [by apply (V13 a it)|by apply (V13 b)].
Qed.

Lemma refs_acquire H h a it :
  P_refs H h -> h !! a = Some it -> P_refs (a :: H) (<[a := set_refcount (i_refcount it + 1) it]> h).
Proof.
  intros [R1 R2] Ha. split.
  - intros b [->|Hb]%elem_of_cons; [rewrite lookup_insert_eq; eauto|].
    apply (upd_is_Some h a it _ Ha). by apply R1.
  - intros b x [[<- ->]|[Hn Hb]]%upd_lookup.
    + rewrite held_cons_eq. destruct (R2 a it Ha) as [? Hp]. simpl. split; [lia|].
      intros Hl Hk. rewrite (Hp Hl Hk). lia.
    + rewrite held_cons_ne by congruence. by apply R2.
Qed.

Lemma refs_release H H' h a it :
  P_refs H h -> h !! a = Some it -> H ≡ₚ a :: H' ->
  P_refs H' (<[a := set_refcount (i_refcount it - 1) it]> h).
Proof.
  intros [R1 R2] Ha HP. split.
  - intros b Hb. apply (upd_is_Some h a it _ Ha). apply R1. rewrite HP. by right.
  - intros b x [[<- ->]|[Hn Hb]]%upd_lookup.
    + destruct (R2 a it Ha) as [? Hp]. rewrite HP, held_cons_eq in *. simpl. split; [lia|].
      intros Hl Hk. rewrite (Hp Hl Hk). lia.
    + destruct (R2 b x Hb) as [? Hp]. rewrite HP, held_cons_ne in * by congruence. done.
Qed.

Lemma refs_unpin H h a it :
  P_refs H h -> h !! a = Some it -> i_refcount it = held a H + 1 ->
  (item_is_linked it = false \/ item_is_pinned_kind it = false) ->
  P_refs H (<[a := set_refcount (i_refcount it - 1) it]> h).
Proof.
  intros [R1 R2] Ha Hr Hl. split.
  - intros b Hb. apply (upd_is_Some h a it _ Ha). by apply R1.
  - intros b x [[<- ->]|[Hn Hb]]%upd_lookup; [|by apply R2]. simpl. split; [lia|].
    intros H1 H2. change (item_is_linked it = true) in H1. change (item_is_pinned_kind it = true) in H2.
    destruct Hl; congruence.
Qed.

Lemma refs_pin H h a it :
  P_refs H h -> h !! a = Some it -> i_refcount it = held a H ->
  P_refs H (<[a := set_refcount (i_refcount it + 1) it]> h).
Proof.
  intros [R1 R2] Ha Hr. split.
  - intros b Hb. apply (upd_is_Some h a it _ Ha). by apply R1.
  - intros b x [[<- ->]|[Hn Hb]]%upd_lookup; [|by apply R2]. simpl. split; [lia|]. intros _ _. lia.
Qed.

#[export] Instance INV_perm raw : Proper ((≡ₚ) ==> eq ==> iff) (inv_raw raw).
Proof.
  assert (forall H H' s, H ≡ₚ H' -> inv_raw raw H s -> inv_raw raw H' s) as Hg.
  { intros H H' s HP []. split; try done. destruct v_refs0 as [R1 R2]. split.
    - intros a. rewrite <-HP. apply R1.
    - intros a it Ha. rewrite <-HP. by apply R2. }
  intros H H' HP s ? <-. split; apply Hg; [done|]. by symmetry.
Qed.

(** No count wraps while few references are held. *)
Lemma refcount_range H c h sl ns cl inf t q a it s :
  INV None H c h sl ns cl inf t q -> h !! a = Some it -> sl !! a.1 = Some s ->
  Z.of_nat (length H) <= MAX_HELD ->
  0 <= i_refcount it <= sl_refcount s /\ sl_refcount s < 65536 - 1.
Proof.
  intros HI Ha Hs HH. destruct (proj2 (v_chunk _ _ _ _ _ _ _ _ _ _ HI) a.1 s Hs) as [Hid _]; [done|].
  pose proof (v_cfg _ _ _ _ _ _ _ _ _ _ HI) as Hc.
  rewrite (v_sum _ _ _ _ _ _ _ _ _ _ HI a.1 s Hs) by done.
  pose proof (NoDup_chunks c a.1 (sl_id s) Hc Hid) as Hnd.
  pose proof (refs_bound H h _ Hnd (v_refs _ _ _ _ _ _ _ _ _ _ HI)) as Hb.
  rewrite length_chunks in Hb by done. pose proof (pcnt_range c (sl_id s) Hc Hid).
  assert (forall b : addr, 0 <= ref h b) as Hpos.
  { intros b. unfold ref. destruct (h !! b) as [x|] eqn:E; [|lia].
    apply (proj2 (v_refs _ _ _ _ _ _ _ _ _ _ HI)) in E as [[? _] _]. pose proof (held_nonneg b H). lia. }
  assert (ref h a <= refs h (chunks c a.1 (sl_id s))).
  { apply refs_ge; [done|auto|]. destruct (proj1 (v_chunk _ _ _ _ _ _ _ _ _ _ HI) a it Ha) as (s0 & Hs0 & Hin).
    simplify_eq. by apply Hin. }
  pose proof (Hpos a). unfold ref in *. rewrite Ha in *. unfold MAX_HELD, MAX_CHUNKS in *. lia.
Qed.

(** ** Linking and unlinking *)

Definition push_q (q : bool -> gmap Z (list addr)) (r : bool) (id : Z) (l : list addr)
  : bool -> gmap Z (list addr) := <[r := <[id := l]> (q r)]> q.

Lemma push_q_lookup q r id l r' id' :
  push_q q r id l r' !! id' = if decide (r = r' /\ id = id') then Some l else q r' !! id'.
Proof.
  unfold push_q, insert, functions.fn_insert at 1. case_decide as Hr; subst; [|by rewrite decide_False by naive_solver].
  change (<[id := l]> (q r') !! id' = if decide (r' = r' /\ id = id') then Some l else q r' !! id').
  rewrite lookup_insert. repeat case_decide; naive_solver.
Qed.

Lemma linked_not_slabbed h cl inf a it :
  P_free h cl inf -> h !! a = Some it -> item_is_linked it = true -> item_is_slabbed it = false.
Proof.
  intros [_ F] Ha Hl. destruct (item_is_slabbed it) eqn:E; [|done].
  destruct (F a it Ha E) as [? _]. congruence.
Qed.

(** Replacing an item that is on no free queue. *)
Lemma free_upd h cl inf a it it' :
  P_free h cl inf -> h !! a = Some it -> item_is_slabbed it = false -> item_is_slabbed it' = false ->
  P_free (<[a := it']> h) cl inf.
Proof.
  intros [F1 F2] Ha Hs Hs'. split.
  - intros r id p Hp. destruct (F1 r id p Hp) as (? & ? & Hq). split_and!; [done|done|].
    intros b Hb. destruct (Hq b Hb) as (x & Hx & ? & ? & ?). exists x.
    rewrite lookup_insert_ne; [done|]. intros <-. congruence.
  - intros b x [[<- ->]|[Hn Hb]]%upd_lookup Hsl; [congruence|by apply F2].
Qed.

Lemma raw_upd h cl raw a it it' :
  P_raw h cl raw -> h !! a = Some it -> ~ fresh h a -> P_raw (<[a := it']> h) cl raw.
Proof.
  intros Hr Ha Hf n Hn. destruct (Hr n Hn) as [H1 H2]. split; [|done]. intros b Hb Hs.
  rewrite (upd_is_Some h a it it' Ha) in Hs. destruct (H1 b Hb Hs) as (x & Hx & Hx').
  exists x. rewrite lookup_insert_ne; [done|]. intros ->. apply Hf. by exists x.
Qed.

Lemma taken_not_fresh h a it :
  h !! a = Some it -> item_is_linked it = true \/ 0 < i_refcount it -> ~ fresh h a.
Proof. intros Ha Hl (x & Hx & ? & ? & _). simplify_eq. destruct Hl; [congruence|lia]. Qed.

Lemma INV_unlink raw H c h sl ns cl inf t q a it t' l :
  let it' := set_flags (unset_bit (i_flags it) ITEM_LINKED) it in
  let h' := <[a := it']> h in
  INV raw H c h sl ns cl inf t q -> h !! a = Some it -> item_is_linked it = true ->
  Assoc.wf (hkey h') hash_key t' -> contents t ≡ₚ a :: contents t' ->
  nhash_item t' = u32 (nhash_item t - 1) ->
  q (item_is_lease_holder it) !! i_id it = Some l ->
  Z.of_nat (length (contents t)) < 2 ^ 32 ->
  INV raw H c h' sl ns cl inf t' (push_q q (item_is_lease_holder it) (i_id it) (remove1 a l)).
Proof.
  intros it' h' HI Ha Hl Hw HP Hn Hq Hlen. subst h'.
  destruct HI as [V1 V2 V3 V4 V5 V6 V7 V8 V9 V10 V11 V12 V13].
  pose proof (linked_not_slabbed _ _ _ _ _ V9 Ha Hl) as Hns.
  assert (item_is_linked it' = false) as Hl' by (unfold it'; by flags).
  assert (item_is_slabbed it' = false) as Hs' by (unfold it'; by flags).
  assert (not_cur c cl a) as Hnc by (eapply taken_not_cur; [done|done|split; auto]).
  split; try done.
  - by apply (upd_chunk c h a it it' Ha).
  - by apply (upd_sum c h a it it' Ha).
  - eapply raw_upd; [done|done|]. eapply taken_not_fresh; eauto.
  - destruct V6 as [R1 R2]. split.
    + intros b Hb. apply (upd_is_Some h a it it' Ha). by apply R1.
    + intros b x [[<- ->]|[Hn' Hb]]%upd_lookup; [|by apply R2].
      split; [by apply (R2 a it)|]. intros. congruence.
  - destruct V7 as (T1 & T2 & T3). split_and!; [done| |].
    + pose proof (contents_NoDup _ _ hash_key_range t T1) as Hnd. rewrite HP in Hnd. apply NoDup_cons in Hnd as [Hni _].
      intros b. split.
      * intros Hb. assert (b ∈ contents t) as Hb' by (rewrite HP; by right).
        apply T2 in Hb' as (x & Hx & Hxl). exists x. rewrite lookup_insert_ne; [done|]. by intros ->.
      * intros (x & [[<- ->]|[Hn' Hb]]%upd_lookup & Hxl); [congruence|].
        assert (b ∈ contents t) as Hb' by (apply T2; eauto). rewrite HP in Hb'.
        apply elem_of_cons in Hb' as [->|]; done.
    + rewrite Hn, T3, HP in *. simpl in *. rewrite u32_small; lia.
  - intros r id Hid. rewrite push_q_lookup. case_decide as Hd.
    + destruct Hd as [<- <-]. exists (remove1 a l).
      destruct (V8 (item_is_lease_holder it) (i_id it) Hid) as (l0 & Hq0 & Hnd & Hin). simplify_eq.
      split_and!; [done|by apply NoDup_remove1|]. intros b. rewrite elem_of_remove1, Hin by done. split.
      * intros [(x & Hx & Hx') Hne]. exists x. by rewrite lookup_insert_ne.
      * intros (x & [[<- ->]|[Hn' Hb]]%upd_lookup & Hx1 & Hx'); [congruence|].
        split; [by exists x|done].
    + destruct (V8 r id Hid) as (l0 & Hq0 & Hnd & Hin). exists l0. split_and!; [done|done|].
      intros b. rewrite Hin. split.
      * intros (x & Hx & Hx1 & Hx2 & Hx3). exists x. rewrite lookup_insert_ne; [done|]. intros <-.
        simplify_eq. by apply Hd.
      * intros (x & [[<- ->]|[Hn' Hb]]%upd_lookup & Hx1 & Hx'); [congruence|by exists x].
  - by apply (free_upd h cl inf a it it').
  - by apply cur_upd.
  - intros b x [[<- ->]|[Hn' Hb]]%upd_lookup Hlx; [congruence|by apply V12].
  - intros b x [[<- ->]|[Hn' Hb]]%upd_lookup Hlx; [congruence|by apply (V13 b)].
Qed.

Lemma INV_link raw H c h sl ns cl inf t q a it it' t' l :
  let h' := <[a := it']> h in
  INV raw H c h sl ns cl inf t q -> h !! a = Some it ->
  item_is_linked it = false -> taken c cl a it -> raw <> Some a.1 ->
  i_offset it' = i_offset it -> i_id it' = i_id it -> i_refcount it' = i_refcount it ->
  item_is_linked it' = true -> item_is_slabbed it' = false ->
  (item_is_pinned_kind it' = true -> i_refcount it' = held a H + 1) ->
  Assoc.wf (hkey h') hash_key t' -> contents t' ≡ₚ a :: contents t ->
  nhash_item t' = u32 (nhash_item t + 1) ->
  q (item_is_lease_holder it') !! i_id it' = Some l ->
  Z.of_nat (length (contents t)) + 1 < 2 ^ 32 ->
  a.1 ∈ slab_table (inf (respool c it')) ->
  (lra_off c = true \/ respool c it' = item_is_lease_holder it') ->
  (i_refcount it' = 0 -> respool c it' = false) ->
  layout c it' -> (item_is_lease_holder it' = true -> is_Some (item_value it')) ->
  INV raw H c h' sl ns cl inf t' (push_q q (item_is_lease_holder it') (i_id it') (l ++ [a])).
Proof.
  intros h' HI Ha Hl Ht Hraw E1 E2 E3 E4 E5 Hpin Hw HP Hn Hq Hlen Hh Hlra Hz Hlay Hval. subst h'.
  destruct HI as [V1 V2 V3 V4 V5 V6 V7 V8 V9 V10 V11 V12 V13].
  assert (not_cur c cl a) as Hnc by by eapply taken_not_cur.
  destruct Ht as [Hns _].
  split; try done.
  - by apply (upd_chunk c h a it it' Ha).
  - by apply (upd_sum c h a it it' Ha).
  - intros n Hn'. destruct (V5 n Hn') as [H1 H2]. split; [|done]. intros b Hb Hs.
    rewrite (upd_is_Some h a it it' Ha) in Hs. destruct (H1 b Hb Hs) as (x & Hx & Hx').
    exists x. rewrite lookup_insert_ne; [done|]. intros ->. congruence.
  - destruct V6 as [R1 R2]. split.
    + intros b Hb. apply (upd_is_Some h a it it' Ha). by apply R1.
    + intros b x [[<- ->]|[Hn' Hb]]%upd_lookup; [|by apply R2].
      rewrite E3 in *. split; [by apply (R2 a it)|auto].
  - destruct V7 as (T1 & T2 & T3). split_and!; [done| |].
    + intros b. rewrite HP, elem_of_cons, T2. split.
      * intros [->|(x & Hx & Hxl)]; [exists it'; by rewrite lookup_insert_eq|].
        exists x. rewrite lookup_insert_ne; [done|]. intros ->. simplify_eq. congruence.
      * intros (x & [[<- ->]|[Hn' Hb]]%upd_lookup & Hxl); [by left|right; eauto].
    + rewrite Hn, T3, HP in *. simpl in *. rewrite u32_small; lia.
  - intros r id Hid. rewrite push_q_lookup. case_decide as Hd.
    + destruct Hd as [<- <-]. exists (l ++ [a]).
      destruct (V8 (item_is_lease_holder it') (i_id it') Hid) as (l0 & Hq0 & Hnd & Hin). simplify_eq.
      assert (a ∉ l) as Hni.
      { rewrite Hin. intros (x & Hx & Hx' & _). simplify_eq. congruence. }
      split_and!; [done| |].
      * apply NoDup_app. split_and!; [done| |apply NoDup_singleton]. set_solver.
      * intros b. rewrite elem_of_app, Hin, list_elem_of_singleton. split.
        -- intros [(x & Hx & Hx')| ->]; [|exists it'; by rewrite lookup_insert_eq].
           exists x. rewrite lookup_insert_ne; [done|]. intros ->. simplify_eq. naive_solver congruence.
        -- intros (x & [[<- ->]|[Hn' Hb]]%upd_lookup & Hx'); [by right|left; by exists x].
    + destruct (V8 r id Hid) as (l0 & Hq0 & Hnd & Hin). exists l0. split_and!; [done|done|].
      intros b. rewrite Hin. split.
      * intros (x & Hx & Hx1 & Hx'). exists x. rewrite lookup_insert_ne; [done|]. intros <-.
        simplify_eq. congruence.
      * intros (x & [[<- ->]|[Hn' Hb]]%upd_lookup & Hx1 & Hx2 & Hx3); [|by exists x].
        exfalso. by apply Hd.
  - by apply (free_upd h cl inf a it it').
  - by apply cur_upd.
  - intros b x [[<- ->]|[Hn' Hb]]%upd_lookup Hlx; [done|by apply V12].
  - intros b x [[<- ->]|[Hn' Hb]]%upd_lookup Hlx; [done|by apply (V13 b)].
Qed.

(** ** Counting *)

Lemma length_concat_le {A} (ll : list (list A)) m :
  (forall l, l ∈ ll -> Z.of_nat (length l) <= m) -> Z.of_nat (length (concat ll)) <= m * Z.of_nat (length ll).
Proof.
  induction ll as [|l ll IH]; simpl; [lia|]. intros Hl. rewrite length_app.
  pose proof (Hl l ltac:(set_solver)). pose proof (IH ltac:(set_solver)). lia.
Qed.

(** There are fewer than [2^31] chunks. *)
Lemma count_chunks H c h sl ns cl inf t q l :
  INV None H c h sl ns cl inf t q -> NoDup l -> (forall a : addr, a ∈ l -> is_Some (h !! a)) ->
  Z.of_nat (length l) < 2 ^ 31 - 1.
Proof.
  intros HI Hnd Hin. pose proof (v_cfg _ _ _ _ _ _ _ _ _ _ HI) as Hc.
  pose proof (v_chunk _ _ _ _ _ _ _ _ _ _ HI) as [C1 C2].
  pose proof (v_info _ _ _ _ _ _ _ _ _ _ HI) as (I1 & _ & I3 & I4).
  set (cs := fun n => match sl !! n with Some s => chunks c n (sl_id s) | None => [] end).
  set (ll := cs <$> (slab_table (inf false) ++ slab_table (inf true))).
  assert (l ⊆+ concat ll) as Hsub.
  { apply NoDup_submseteq; [done|]. intros a Ha. destruct (Hin a Ha) as [it Hit].
    destruct (C1 a it Hit) as (s & Hs & Hx). destruct (Hx ltac:(done)) as (_ & _ & Hch).
    apply list_elem_of_In, in_concat. exists (cs a.1). split.
    - apply list_elem_of_In, list_elem_of_fmap_2. destruct (I3 a.1) as [_ [[] Hr]]; [eauto| |];
        apply elem_of_app; auto.
    - apply list_elem_of_In. unfold cs. by rewrite Hs. }
  apply submseteq_length in Hsub.
  assert (Z.of_nat (length (concat ll)) <= MAX_CHUNKS * Z.of_nat (length ll)) as Hle.
  { apply length_concat_le. intros x Hx. apply list_elem_of_fmap in Hx as (n & -> & _). unfold cs.
    destruct (sl !! n) as [s|] eqn:Es; [|simpl; unfold MAX_CHUNKS; lia].
    destruct (C2 n s Es) as [Hid _]; [done|]. rewrite length_chunks by done. by apply pcnt_range. }
  unfold ll in Hle at 2. rewrite length_fmap, length_app in Hle.
  destruct (I1 false) as (N1 & M1 & _). destruct (I1 true) as (N2 & M2 & _).
  unfold MAX_CHUNKS in *. lia.
Qed.

Lemma tbl_small H c h sl ns cl inf t q :
  INV None H c h sl ns cl inf t q -> Z.of_nat (length (contents t)) < 2 ^ 31 - 1.
Proof.
  intros HI. destruct (v_tbl _ _ _ _ _ _ _ _ _ _ HI) as (T1 & T2 & _).
  eapply count_chunks; [done|by eapply contents_NoDup; [apply hash_key_range|]|].
  intros a Ha. apply T2 in Ha as (it & Hit & _). eauto.
Qed.

(** ** Classes *)

Definition push_c (cl : bool -> gmap Z slabclass) (r : bool) (id : Z) (p : slabclass)
  : bool -> gmap Z slabclass := <[r := <[id := p]> (cl r)]> cl.

Lemma push_c_lookup cl r id p r' id' :
  push_c cl r id p r' !! id' = if decide (r = r' /\ id = id') then Some p else cl r' !! id'.
Proof.
  unfold push_c, insert, functions.fn_insert at 1. case_decide as Hr; subst; [|by rewrite decide_False by naive_solver].
  change (<[id := p]> (cl r') !! id' = if decide (r' = r' /\ id = id') then Some p else cl r' !! id').
  rewrite lookup_insert. repeat case_decide; naive_solver.
Qed.

Lemma push_c_Some cl r id p r' id' p' :
  push_c cl r id p r' !! id' = Some p' <-> (r = r' /\ id = id' /\ p' = p) \/
    (~ (r = r' /\ id = id') /\ cl r' !! id' = Some p').
Proof. rewrite push_c_lookup. case_decide; naive_solver. Qed.

Lemma cls_upd c cl r id p p' :
  P_cls c cl -> cl r !! id = Some p -> csize p' = csize p -> nitem p' = nitem p -> P_cls c (push_c cl r id p').
Proof.
  intros Hc Hp Hs Hn r' id'. split.
  - intros Hid. rewrite push_c_lookup. destruct (proj1 (Hc r' id') Hid) as (p0 & Hp0 & ?).
    case_decide as Hd; [|eauto]. destruct Hd as [-> ->]. simplify_eq. exists p'.
    by rewrite Hs, Hn.
  - intros p0 [(<- & <- & ->)|[_ Hp0]]%push_c_Some; [by apply (proj2 (Hc r id) p)|by apply (proj2 (Hc r' id') p0)].
Qed.

(** The class of an existing id. *)
Lemma cls_some c cl r id : P_cls c cl -> id_ok c id ->
  exists p, cl r !! id = Some p /\ csize p = psize c id /\ nitem p = pcnt c id.
Proof. intros Hc. by apply Hc. Qed.

(** Changing the free queue of a class does not touch current slabs. *)
Lemma cur_set_freeq c h sl cl inf r id p z x :
  P_cur c h sl cl inf -> cl r !! id = Some p ->
  P_cur c h sl (push_c cl r id (set_free_itemq z x p)) inf.
Proof.
  intros Hc Hp r' id' p' b [(<- & <- & ->)|[_ Hp']]%push_c_Some Hb; [by apply (Hc r id p)|by apply (Hc r' id' p')].
Qed.

Lemma raw_set_freeq h cl raw r id p z x :
  P_raw h cl raw -> cl r !! id = Some p -> P_raw h (push_c cl r id (set_free_itemq z x p)) raw.
Proof.
  intros Hr Hp m Hm. destruct (Hr m Hm) as [H1 H2]. split; [done|].
  intros r' id' p' b [(<- & <- & ->)|[_ Hp']]%push_c_Some Hb; [by apply (H2 r id p)|by apply (H2 r' id' p')].
Qed.

(** ** The free queues *)

Lemma INV_free H c h sl ns cl inf t q a it r p :
  let it' := set_flags (set_bit (i_flags it) ITEM_SLABBED) it in
  INV None H c h sl ns cl inf t q -> h !! a = Some it -> item_is_linked it = false ->
  item_is_slabbed it = false -> i_refcount it = 0 -> not_cur c cl a ->
  a.1 ∈ slab_table (inf r) -> cl r !! i_id it = Some p ->
  INV None H c (<[a := it']> h) sl ns
    (push_c cl r (i_id it) (set_free_itemq (u32 (nfree_itemq p + 1)) (a :: free_itemq p) p)) inf t q.
Proof.
  intros it' HI Ha Hl Hs Hr Hnc Hh Hp.
  assert (Z.of_nat (length (free_itemq p)) < 2 ^ 31 - 1) as Hlen.
  { destruct (proj1 (v_free _ _ _ _ _ _ _ _ _ _ HI) r _ p Hp) as (Hnd & _ & Hin).
    eapply count_chunks; [done|done|]. intros b Hb. destruct (Hin b Hb) as (x & ? & _). eauto. }
  destruct HI as [V1 V2 V3 V4 V5 V6 V7 V8 V9 V10 V11 V12 V13].
  assert (item_is_linked it' = false) as Hl' by (unfold it'; by flags).
  assert (item_is_slabbed it' = true) as Hs' by (unfold it'; by flags).
  split; try done.
  - by apply (cls_upd c cl r _ p).
  - by apply (upd_chunk c h a it it' Ha).
  - by apply (upd_sum c h a it it' Ha).
  - destruct V6 as [R1 R2]. split.
    + intros b Hb. apply (upd_is_Some h a it it' Ha). by apply R1.
    + intros b x [[<- ->]|[Hn' Hb]]%upd_lookup; [|by apply R2].
      split; [by apply (R2 a it)|]. intros. congruence.
  - destruct V7 as (T1 & T2 & T3). split_and!; [|intros b; rewrite T2; split|done].
    + eapply tbl_wf_ext; [|exact T1]. intros b _. symmetry. by apply (upd_hkey h a it it' Ha).
    + intros (x & Hx & Hxl). exists x. rewrite lookup_insert_ne; [done|]. intros ->. congruence.
    + intros (x & [[<- ->]|[Hn Hb]]%upd_lookup & Hxl); [congruence|by exists x].
  - intros r' id Hid. destruct (V8 r' id Hid) as (l & Hq & Hn & Hin). exists l.
    split_and!; [done|done|]. intros b. rewrite Hin. split.
    + intros (x & Hx & Hx1 & Hx2). exists x. rewrite lookup_insert_ne; [done|]. intros ->. congruence.
    + intros (x & [[<- ->]|[Hn' Hb]]%upd_lookup & Hx1 & Hx2); [congruence|by exists x].
  - destruct V9 as [F1 F2]. split.
    + intros r' id' p' [(<- & <- & ->)|[Hne Hp']]%push_c_Some.
      * destruct (F1 r _ p Hp) as (Hnd & Hlq & Hin). simpl. split_and!.
        -- constructor; [|done]. intros Hb. destruct (Hin a Hb) as (x & Hx & ? & _). congruence.
        -- rewrite Hlq, u32_small; lia.
        -- intros b [->|Hb]%elem_of_cons.
           ++ exists it'. by rewrite lookup_insert_eq.
           ++ destruct (Hin b Hb) as (x & Hx & Hx'). exists x. rewrite lookup_insert_ne; [done|].
              intros ->. destruct Hx' as [? _]. congruence.
      * destruct (F1 r' id' p' Hp') as (Hnd & Hlq & Hin). split_and!; [done|done|].
        intros b Hb. destruct (Hin b Hb) as (x & Hx & Hx'). exists x. rewrite lookup_insert_ne; [done|].
        intros ->. destruct Hx' as [? _]. congruence.
    + intros b x [[<- ->]|[Hn Hb]]%upd_lookup Hsl.
      * split_and!; [done|done|]. exists r, (set_free_itemq (u32 (nfree_itemq p + 1)) (a :: free_itemq p) p).
        split; [|by left]. apply push_c_Some. auto.
      * destruct (F2 b x Hb Hsl) as (? & ? & r' & p' & Hp' & Hin). split_and!; [done|done|].
        destruct (decide (r = r' /\ i_id it = i_id x)) as [[<- He]|Hne].
        -- eexists r, _. split; [apply push_c_Some; left; by rewrite He|].
           rewrite He in Hp. simplify_eq. simpl. by right.
        -- exists r', p'. split; [|done]. apply push_c_Some. auto.
  - apply cur_set_freeq; [|done]. by apply cur_upd.
  - intros b x [[<- ->]|[Hn' Hb]]%upd_lookup Hlx; [congruence|by apply V12].
  - intros b x [[<- ->]|[Hn' Hb]]%upd_lookup Hlx; [congruence|by apply (V13 b)].
Qed.

Lemma table_inj sl ns inf raw n r r' :
  P_info sl ns inf raw -> n ∈ slab_table (inf r) -> n ∈ slab_table (inf r') -> r = r'.
Proof.
  intros (_ & Hd & _) H1 H2. specialize (Hd n). destruct r, r'; try done; exfalso; auto.
Qed.

Lemma INV_unfree H c h sl ns cl inf t q a it r p :
  let it' := set_flags (unset_bit (i_flags it) ITEM_SLABBED) it in
  INV None H c h sl ns cl inf t q -> h !! a = Some it ->
  cl r !! i_id it = Some p -> a ∈ free_itemq p ->
  INV None H c (<[a := it']> h) sl ns
    (push_c cl r (i_id it) (set_free_itemq (u32 (nfree_itemq p - 1)) (remove1 a (free_itemq p)) p)) inf t q
  /\ i_refcount it' = 0 /\ item_is_linked it' = false /\ item_is_slabbed it' = false /\
     not_cur c cl a /\ a.1 ∈ slab_table (inf r).
Proof.
  intros it' HI Ha Hp Hin.
  assert (Z.of_nat (length (free_itemq p)) < 2 ^ 31 - 1) as Hlen.
  { destruct (proj1 (v_free _ _ _ _ _ _ _ _ _ _ HI) r _ p Hp) as (Hnd & _ & Hin').
    eapply count_chunks; [done|done|]. intros b Hb. destruct (Hin' b Hb) as (x & ? & _). eauto. }
  destruct HI as [V1 V2 V3 V4 V5 V6 V7 V8 V9 V10 V11 V12 V13].
  destruct (proj1 V9 r _ p Hp) as (Hnd & Hlq & Hq). destruct (Hq a Hin) as (x & Hx & Hs & _ & Hh).
  assert (x = it) as -> by congruence. clear Hx.
  destruct (proj2 V9 a it Ha Hs) as (Hl & Hr & _).
  assert (item_is_linked it' = false) as Hl' by (unfold it'; by flags).
  assert (item_is_slabbed it' = false) as Hs' by (unfold it'; by flags).
  assert (not_cur c cl a) as Hnc.
  { intros r' id' p' b k j Hp' Hb Hk Hn Hj ->. destruct (V10 r' id' p' b Hp' Hb) as (k' & ? & ? & _ & _ & _ & Hf).
    assert (k' = k) as -> by lia. destruct (Hf j Hj) as (y & Hy & _ & _ & ?). congruence. }
  split; [|done]. split; try done.
  - by apply (cls_upd c cl r _ p).
  - by apply (upd_chunk c h a it it' Ha).
  - by apply (upd_sum c h a it it' Ha).
  - destruct V6 as [R1 R2]. split.
    + intros b Hb. apply (upd_is_Some h a it it' Ha). by apply R1.
    + intros b x [[<- ->]|[Hn' Hb]]%upd_lookup; [|by apply R2].
      split; [by apply (R2 a it)|]. intros. congruence.
  - destruct V7 as (T1 & T2 & T3). split_and!; [|intros b; rewrite T2; split|done].
    + eapply tbl_wf_ext; [|exact T1]. intros b _. symmetry. by apply (upd_hkey h a it it' Ha).
    + intros (x & Hx & Hxl). exists x. rewrite lookup_insert_ne; [done|]. intros ->. congruence.
    + intros (x & [[<- ->]|[Hn Hb]]%upd_lookup & Hxl); [congruence|by exists x].
  - intros r' id Hid. destruct (V8 r' id Hid) as (l & Hq' & Hn & Hin'). exists l.
    split_and!; [done|done|]. intros b. rewrite Hin'. split.
    + intros (x & Hx & Hx1 & Hx2). exists x. rewrite lookup_insert_ne; [done|]. intros ->. congruence.
    + intros (x & [[<- ->]|[Hn' Hb]]%upd_lookup & Hx1 & Hx2); [congruence|by exists x].
  - destruct V9 as [F1 F2]. split.
    + intros r' id' p' [(<- & <- & ->)|[Hne Hp']]%push_c_Some.
      * simpl. pose proof (length_remove1 a _ Hin) as Hlr. split_and!.
        -- by apply NoDup_remove1.
        -- rewrite Hlq, u32_small; lia.
        -- intros b [Hb Hne]%elem_of_remove1; [|done]. destruct (Hq b Hb) as (x & Hx & Hx').
           exists x. by rewrite lookup_insert_ne.
      * destruct (F1 r' id' p' Hp') as (Hnd' & Hlq' & Hin'). split_and!; [done|done|].
        intros b Hb. destruct (Hin' b Hb) as (x & Hx & Hx'). exists x. rewrite lookup_insert_ne; [done|].
        intros ->. assert (x = it) as -> by congruence. destruct Hx' as (_ & <- & Hh').
        apply Hne. split; [|done]. by eapply table_inj.
    + intros b x [[<- ->]|[Hn Hb]]%upd_lookup Hsl; [congruence|].
      destruct (F2 b x Hb Hsl) as (? & ? & r' & p' & Hp' & Hin'). split_and!; [done|done|].
      destruct (decide (r = r' /\ i_id it = i_id x)) as [[<- He]|Hne].
      * eexists r, _. split; [apply push_c_Some; left; by rewrite He|].
        rewrite He in Hp. simplify_eq. simpl. apply elem_of_remove1; done.
      * exists r', p'. split; [|done]. apply push_c_Some. auto.
  - apply cur_set_freeq; [|done]. by apply cur_upd.
  - intros b x [[<- ->]|[Hn' Hb]]%upd_lookup Hlx; [congruence|by apply V12].
  - intros b x [[<- ->]|[Hn' Hb]]%upd_lookup Hlx; [congruence|by apply (V13 b)].
Qed.

(** A class update that keeps its free queue. *)
Lemma free_set_item h cl inf r id p z x :
  P_free h cl inf -> cl r !! id = Some p -> P_free h (push_c cl r id (set_free_item z x p)) inf.
Proof.
  intros [F1 F2] Hp. split.
  - intros r' id' p' [(<- & <- & ->)|[_ Hp']]%push_c_Some; [by apply (F1 r id p)|by apply F1].
  - intros b y Hb Hs. destruct (F2 b y Hb Hs) as (? & ? & r' & p' & Hp' & Hin). split_and!; [done|done|].
    destruct (decide (r = r' /\ id = i_id y)) as [[<- He]|Hne].
    + eexists r, _. split; [apply push_c_Some; left; by rewrite He|]. rewrite He in Hp. by simplify_eq.
    + exists r', p'. split; [|done]. apply push_c_Some. auto.
Qed.

(** ** The current slab *)

Lemma INV_take H c h sl ns cl inf t q r id p a :
  let n := u32 (nfree_item p - 1) in
  let p' := set_free_item n (if n =? 0 then None else Some (a.1, a.2 + csize p)) p in
  INV None H c h sl ns cl inf t q -> cl r !! id = Some p -> free_item p = Some a ->
  INV None H c h sl ns (push_c cl r id p') inf t q /\
  (exists it, h !! a = Some it /\ i_id it = id /\ i_refcount it = 0 /\ item_is_linked it = false /\
     item_is_slabbed it = false) /\
  not_cur c (push_c cl r id p') a /\ a.1 ∈ slab_table (inf r).
Proof.
  intros n p' HI Hp Ha. destruct HI as [V1 V2 V3 V4 V5 V6 V7 V8 V9 V10 V11 V12 V13].
  pose proof (proj2 (V2 r id) p Hp) as Hid. pose proof (pcnt_range c id V1 Hid) as Hpc.
  destruct (proj1 (V2 r id) Hid) as (p0 & Hp0 & Hsz & _). simplify_eq.
  destruct (V10 r id p a Hp Ha) as (k & Hk & Hn & Hkr & Hin & (s & Hs & Hsid) & Hf).
  assert (n = pcnt c id - (k + 1)) as Hn'.
  { unfold n. rewrite Hn, u32_small; unfold MAX_CHUNKS in *; lia. }
  assert (forall b, free_item p' = Some b -> b = chunk c a.1 id (k + 1) /\ k + 1 < pcnt c id) as Hnext.
  { intros b. unfold p'. simpl. destruct (Z.eqb_spec n 0); [done|]. intros [= <-].
    assert (k + 1 < pcnt c id) by lia. split; [|done]. rewrite Hk, !chunk_eq, Hsz by (done || lia). simpl.
    f_equal. lia. }
  assert (INV None H c h sl ns (push_c cl r id p') inf t q) as HI'.
  { split; try done.
    - by apply (cls_upd c cl r id p).
    - by apply free_set_item.
    - intros r' id' p1 b [(<- & <- & ->)|[_ Hp1]]%push_c_Some Hb; [|by apply (V10 r' id')].
      destruct (Hnext b Hb) as [-> Hlt]. exists (k + 1).
      change (chunk c a.1 id (k + 1)).1 with a.1.
      split_and!; [done|unfold p'; simpl; lia|lia|lia|done|by exists s|]. intros j Hj. apply Hf. lia. }
  split; [done|]. split_and!; [| |done].
  - destruct (Hf k ltac:(lia)) as (it & Hit & Hx). rewrite <-Hk in Hit. exists it. split; [done|].
    split; [|done]. destruct (proj1 V3 a it Hit) as (s0 & Hs0 & Hc). simplify_eq. by apply Hc.
  - intros r' id' p1 b k' j [(<- & <- & ->)|[Hne Hp1]]%push_c_Some Hb Hbk Hn1 Hj He.
    + destruct (Hnext b Hb) as [-> Hlt]. change (chunk c a.1 id (k + 1)).1 with a.1 in *.
      rewrite Hk in He at 1. unfold p' in Hn1. simpl in Hn1.
      apply chunk_inj in He as [_ ->]; try done; try lia.
    + destruct (V10 r' id' p1 b Hp1 Hb) as (k1 & _ & _ & _ & Hin1 & (s1 & Hs1 & Hsid1) & _).
      assert (a.1 = b.1) as Hab by (by rewrite He). rewrite <-Hab in *. simplify_eq.
      apply Hne. split; [|done]. by eapply table_inj.
Qed.

(** ** Slabs *)

Definition push_i (inf : bool -> slab_heapinfo) (r : bool) (x : slab_heapinfo) : bool -> slab_heapinfo :=
  <[r := x]> inf.

Lemma push_i_lookup inf r x r' : push_i inf r x r' = if decide (r = r') then x else inf r'.
Proof. done. Qed.

(** Slab tables that only grow. *)
Definition grows (inf inf' : bool -> slab_heapinfo) : Prop :=
  forall r n, n ∈ slab_table (inf r) -> n ∈ slab_table (inf' r).

#[export] Instance grows_preorder : PreOrder grows.
Proof. split; [by intros inf r n|]. intros i1 i2 i3 H1 H2 r n Hn. by apply H2, H1. Qed.

Lemma free_grows h cl inf inf' : grows inf inf' -> P_free h cl inf -> P_free h cl inf'.
Proof.
  intros Hg [F1 F2]. split; [|done]. intros r id p Hp. destruct (F1 r id p Hp) as (? & ? & Hq).
  split_and!; [done|done|]. intros a Ha. destruct (Hq a Ha) as (it & ? & ? & ? & ?). exists it.
  split_and!; auto.
Qed.

Lemma cur_grows c h sl cl inf inf' : grows inf inf' -> P_cur c h sl cl inf -> P_cur c h sl cl inf'.
Proof.
  intros Hg Hc r id p a Hp Ha. destruct (Hc r id p a Hp Ha) as (k & ? & ? & ? & ? & ? & ?). exists k.
  split_and!; auto; lia.
Qed.

Lemma home_grows c h inf inf' : grows inf inf' -> P_home c h inf -> P_home c h inf'.
Proof. intros Hg Hh a it Ha Hl. destruct (Hh a it Ha Hl) as (? & ? & ?). auto. Qed.

(** A slab taken from the heap. *)
Lemma INV_new H c h sl ns cl inf t q r s :
  let x := inf r in
  let x' := HeapInfo (u32 (nslab x + 1)) (max_nslab x) (slab_table x ++ [ns]) (slab_lruq x) in
  INV None H c h sl ns cl inf t q -> nslab x < max_nslab x ->
  INV (Some ns) H c h (<[ns := s]> sl) (S ns) cl (push_i inf r x') t q /\
  grows inf (push_i inf r x') /\ ns ∈ slab_table (push_i inf r x' r).
Proof.
  intros x x' HI Hlt. destruct HI as [V1 V2 V3 V4 V5 V6 V7 V8 V9 V10 V11 V12 V13].
  destruct V11 as (I1 & I2 & I3 & I4).
  assert (sl !! ns = None) as Hns.
  { destruct (sl !! ns) eqn:E; [|done]. destruct (I3 ns) as [? _]; [eauto|]. lia. }
  assert (forall r0, ns ∉ slab_table (inf r0)) as Hnt.
  { intros r0 Hin. destruct (I1 r0) as (_ & _ & _ & _ & _ & Hs). destruct (Hs ns Hin). congruence. }
  assert (forall a, is_Some (h !! a) -> a.1 <> ns) as Hh.
  { intros a [it Ha] He. destruct (proj1 V3 a it Ha) as (s0 & ? & _). congruence. }
  assert (grows inf (push_i inf r x')) as Hg.
  { intros r0 n Hn. rewrite push_i_lookup. case_decide; [|done]. subst. simpl. set_solver. }
  split; [|split; [done|]].
  2: { rewrite push_i_lookup, decide_True by done. simpl. set_solver. }
  split; try done.
  - destruct V3 as [C1 C2]. split.
    + intros a it Ha. destruct (C1 a it Ha) as (s0 & Hs0 & Hc). exists s0.
      rewrite lookup_insert_ne by (intros He; by apply (Hh a ltac:(eauto))).
      split; [done|]. intros _. by apply Hc.
    + intros n s0. rewrite lookup_insert_Some. intros [[<- _]|[Hn Hs0]] Hr; [done|]. by apply C2.
  - intros n s0. rewrite lookup_insert_Some. intros [[<- _]|[Hn Hs0]] Hr; [done|]. by apply V4.
  - intros n [= <-]. split; [intros a Ha Hs; by destruct (Hh a Hs)|].
    intros r0 id p a Hp Ha He. destruct (V10 r0 id p a Hp Ha) as (k & _ & _ & _ & Hin & _).
    apply (Hnt r0). by rewrite <-He.
  - by eapply free_grows.
  - eapply cur_grows; [done|]. intros r0 id p a Hp Ha.
    destruct (V10 r0 id p a Hp Ha) as (k & ? & ? & ? & Hin & (s0 & ? & ?) & ?). exists k.
    do 4 (split; [done|]). split; [|done]. exists s0. split; [|done].
    rewrite lookup_insert_ne; [done|]. intros He. apply (Hnt r0). by rewrite He.
  - split_and!.
    + intros r0. destruct (I1 r0) as (N1 & N2 & N3 & N4 & N5 & N6). rewrite push_i_lookup.
      assert (forall n, is_Some (sl !! n) -> is_Some (<[ns := s]> sl !! n)) as Hm
        by (intros n Hn; rewrite lookup_insert; case_decide; eauto).
      case_decide as Hd; [subst r0|].
      * simpl. fold x in N1, N2, N3, N4, N5, N6. rewrite length_app. simpl.
        assert (ns ∉ slab_table x) as Hni by apply Hnt. split_and!.
        -- rewrite u32_small; lia.
        -- rewrite u32_small; lia.
        -- lia.
        -- apply NoDup_app. split_and!; [done|set_solver|apply NoDup_singleton].
        -- done.
        -- intros n. rewrite N5, elem_of_app, list_elem_of_singleton. split.
           ++ intros [Hn _]. split; [by left|]. intros [= ->]. done.
           ++ intros [[Hn| ->] Hne]; [|done]. split; [done|done].
        -- intros n [Hn| Hn]%elem_of_app; [auto|]. apply list_elem_of_singleton in Hn as ->.
           rewrite lookup_insert_eq. eauto.
      * do 4 (split; [done|]). split; [|auto]. intros n. rewrite N5. split; [|naive_solver].
        intros [Hn _]. split; [done|]. intros [= ->]. by apply (Hnt r0).
    + intros n. rewrite !push_i_lookup. specialize (I2 n). pose proof (Hnt true). pose proof (Hnt false).
      repeat case_decide; try done; simpl; subst; rewrite ?elem_of_app, ?list_elem_of_singleton;
        unfold x; intros; naive_solver.
    + intros n Hn. rewrite lookup_insert in Hn. case_decide as Hd.
      * subst. split; [lia|]. exists r. rewrite push_i_lookup, decide_True by done. simpl. set_solver.
      * destruct (I3 n Hn) as [? [r0 Hr]]. split; [lia|]. exists r0. by apply Hg.
    + destruct r; exact I4.
  - by eapply home_grows.
Qed.

(** A slab whose chunks are all unused leaves the queue of slabs. *)
Lemma INV_emptied H c h sl ns cl inf t q r n :
  INV None H c h sl ns cl inf t q -> n ∈ slab_table (inf r) ->
  (forall a : addr, a.1 = n -> is_Some (h !! a) -> fresh h a) ->
  (forall r id p a, cl r !! id = Some p -> free_item p = Some a -> a.1 <> n) ->
  INV (Some n) H c h sl ns cl (push_i inf r (set_slab_lruq (remove1 n (slab_lruq (inf r))) (inf r))) t q.
Proof.
  intros HI Hin Hf Hc. destruct HI as [V1 V2 V3 V4 V5 V6 V7 V8 V9 V10 V11 V12 V13].
  set (x' := set_slab_lruq _ _).
  assert (grows inf (push_i inf r x')) as Hg.
  { intros r0 m Hm. rewrite push_i_lookup. case_decide; [subst|]; done. }
  split; try done.
  - destruct V3 as [C1 C2]. split.
    + intros a it Ha. destruct (C1 a it Ha) as (s0 & Hs0 & Hcc). exists s0. split; [done|]. intros _. by apply Hcc.
    + intros m s0 Hm _. by apply C2.
  - intros m s0 Hm _. by apply V4.
  - intros m [= <-]. done.
  - by eapply free_grows.
  - by eapply cur_grows.
  - pose proof V11 as (I1 & I2 & I3 & I4). split_and!.
    + intros r0. destruct (I1 r0) as (N1 & N2 & N3 & N4 & N5 & N6). rewrite push_i_lookup.
      case_decide as Hd; [subst r0|]; simpl.
      * do 3 (split; [done|]). split; [by apply NoDup_remove1|]. split; [|done].
        intros m. rewrite elem_of_remove1, N5 by done. naive_solver.
      * do 4 (split; [done|]). split; [|done]. intros m. rewrite N5. split; [|naive_solver].
        intros [Hm _]. split; [done|]. intros [= ->]. apply Hd. by eapply table_inj.
    + intros m. rewrite !push_i_lookup. specialize (I2 m). repeat case_decide; subst; simpl; done.
    + intros m Hm. destruct (I3 m Hm) as [? [r0 Hr]]. split; [done|]. exists r0. by apply Hg.
    + destruct r; exact I4.
  - by eapply home_grows.
Qed.

Lemma carve_fold n (id sz : Z) (l : list Z) (h : gmap addr item) a :
  foldr (fun i h => <[slab_2_item n i sz := item_hdr_init (u32 (slab_2_item n i sz).2) id]> h) h l !! a =
  if decide (a ∈ (fun i => slab_2_item n i sz) <$> l) then Some (item_hdr_init (u32 a.2) id) else h !! a.
Proof.
  induction l as [|i l IH].
  - rewrite decide_False; [done|]. set_solver.
  - cbn [foldr fmap list_fmap]. destruct (decide (slab_2_item n i sz = a)) as [<-|Hd].
    + rewrite lookup_insert_eq, decide_True; [done|]. by left.
    + rewrite lookup_insert_ne by done. rewrite IH. repeat case_decide; try done; exfalso; set_solver.
Qed.

Lemma carve_lookup (c : settings) n (id : Z) (h : gmap addr item) a :
  slab_carve n id (psize c id) (pcnt c id) h !! a =
  if decide (a.1 = n)
  then if decide (a ∈ chunks c n id) then Some (item_hdr_init (u32 a.2) id) else None
  else h !! a.
Proof.
  unfold slab_carve. rewrite carve_fold. change ((fun i => slab_2_item n i (psize c id)) <$> seqZ 0 (pcnt c id)) with (chunks c n id).
  destruct (decide (a ∈ chunks c n id)) as [Hin|Hin].
  - by rewrite decide_True by by eapply chunks_slab.
  - case_decide as Hd.
    + apply map_lookup_filter_None. right. intros x _ Hx. by apply Hx.
    + destruct (h !! a) as [x|] eqn:E.
      * apply map_lookup_filter_Some. done.
      * apply map_lookup_filter_None. by left.
Qed.

Lemma fresh_hdr h a off id : h !! a = Some (item_hdr_init off id) -> fresh h a.
Proof. intros Ha. eexists. split; [done|]. done. Qed.

(** A raw slab becomes the current slab of a class. *)
Lemma INV_carve H c h sl ns cl inf t q n r id p s :
  INV (Some n) H c h sl ns cl inf t q -> n ∈ slab_table (inf r) -> cl r !! id = Some p ->
  sl !! n = Some s -> n ∉ H.*1 ->
  INV None H c (slab_carve n id (csize p) (nitem p) h) (<[n := slab_hdr_init id s]> sl) ns
    (push_c cl r id (set_free_item (nitem p) (Some (n, SLAB_HDR_SIZE)) p))
    (push_i inf r (set_slab_lruq (slab_lruq (inf r) ++ [n]) (inf r))) t q.
Proof.
  intros HI Hin Hp Hs HnH. destruct HI as [V1 V2 V3 V4 V5 V6 V7 V8 V9 V10 V11 V12 V13].
  pose proof (proj2 (V2 r id) p Hp) as Hid. destruct (proj1 (V2 r id) Hid) as (p0 & Hp0 & Hsz & Hni).
  simplify_eq. rewrite Hsz, Hni. pose proof (pcnt_range c id V1 Hid) as Hpc.
  destruct (V5 n eq_refl) as [Hraw1 Hraw2]. set (h' := slab_carve _ _ _ _ h).
  assert (forall a, a.1 <> n -> h' !! a = h !! a) as Hsame.
  { intros a Ha. unfold h'. by rewrite carve_lookup, decide_False. }
  assert (forall a it, h' !! a = Some it -> a.1 = n -> a ∈ chunks c n id /\ it = item_hdr_init (u32 a.2) id) as Hnew.
  { intros a it Ha Hn. unfold h' in Ha. rewrite carve_lookup, decide_True in Ha by done.
    case_decide; [|done]. by simplify_eq. }
  assert (forall a it, h !! a = Some it -> item_is_linked it = true \/ item_is_slabbed it = true -> a.1 <> n) as Hold.
  { intros a it Ha Hl Hn. destruct (Hraw1 a Hn) as (x & Hx & ? & ? & ?); [eauto|]. simplify_eq.
    destruct Hl; congruence. }
  set (inf' := push_i _ _ _).
  assert (grows inf inf') as Hg.
  { intros r0 m Hm. unfold inf'. rewrite push_i_lookup. case_decide; [subst|]; done. }
  split; try done.
  - by apply (cls_upd c cl r id p).
  - destruct V3 as [C1 C2]. split.
    + intros a it Ha. destruct (decide (a.1 = n)) as [Hn|Hn].
      * destruct (Hnew a it Ha Hn) as [Hch ->]. exists (slab_hdr_init id s).
        rewrite Hn, lookup_insert_eq. split; [done|]. intros _. simpl. split_and!; [|done|done].
        apply elem_of_chunks in Hch as (i & Hi & ->). rewrite chunk_eq by done. simpl.
        pose proof (chunk_fits c id i V1 Hid Hi). unfold SLAB_HDR_SIZE, MAX_SLAB in *. rewrite u32_small; lia.
      * rewrite Hsame in Ha by done. destruct (C1 a it Ha) as (s0 & Hs0 & Hc). exists s0.
        rewrite lookup_insert_ne by done. split; [done|]. intros _. apply Hc. congruence.
    + intros m s0. rewrite lookup_insert_Some. intros [[<- <-]|[Hm Hs0]] _.
      * simpl. split; [done|]. intros a Ha. unfold h'. rewrite carve_lookup, decide_True, decide_True; [eauto|done|].
        by eapply chunks_slab.
      * destruct (C2 m s0 Hs0) as [? Hc]; [congruence|]. split; [done|]. intros a Ha.
        rewrite Hsame; [by apply Hc|]. apply chunks_slab in Ha. congruence.
  - intros m s0. rewrite lookup_insert_Some. intros [[<- <-]|[Hm Hs0]] _.
    + simpl. symmetry. apply refs_zero. intros a Ha. unfold ref.
      destruct (h' !! a) as [it|] eqn:E; [|done].
      destruct (Hnew a it E) as [_ ->]; [by eapply chunks_slab|done].
    + rewrite (V4 m s0 Hs0) by congruence. assert (forall l, (forall a : addr, a ∈ l -> a.1 <> n) -> refs h' l = refs h l) as Hr.
      { induction l as [|b l IH]; intros Hl; simpl; [done|]. rewrite IH by set_solver. unfold ref.
        rewrite Hsame; [done|]. apply Hl. by left. }
      symmetry. apply Hr. intros a Ha. apply chunks_slab in Ha. congruence.
  - destruct V6 as [R1 R2]. split.
    + intros a Ha. rewrite Hsame; [by apply R1|]. intros Hn. apply HnH. rewrite <-Hn. by apply list_elem_of_fmap_2.
    + intros a it Ha. destruct (decide (a.1 = n)) as [Hn|Hn].
      * destruct (Hnew a it Ha Hn) as [_ ->]. simpl.
        assert (held a H = 0) as ->; [|split; [lia|done]].
        pose proof (held_nonneg a H). destruct (decide (0 < held a H)) as [Hp1|]; [|lia].
        apply held_elem in Hp1. exfalso. apply HnH. rewrite <-Hn. by apply list_elem_of_fmap_2.
      * rewrite Hsame in Ha by done. by apply R2.
  - destruct V7 as (T1 & T2 & T3). split_and!; [|intros a; rewrite T2; split|done].
    + eapply tbl_wf_ext; [|exact T1]. intros a Ha. apply T2 in Ha as (it & Ha & Hl). unfold hkey.
      rewrite Hsame; [done|]. apply (Hold a it); auto.
    + intros (it & Ha & Hl). exists it. rewrite Hsame; [done|]. apply (Hold a it); auto.
    + intros (it & Ha & Hl). exists it. destruct (decide (a.1 = n)) as [Hn|Hn].
      * by destruct (Hnew a it Ha Hn) as [_ ->].
      * by rewrite Hsame in Ha.
  - intros r0 id0 Hid0. destruct (V8 r0 id0 Hid0) as (l & Hq & Hnd & Hl). exists l.
    split_and!; [done|done|]. intros a. rewrite Hl. split.
    + intros (it & Ha & Hl' & Hx). exists it. rewrite Hsame; [done|]. apply (Hold a it); auto.
    + intros (it & Ha & Hl' & Hx). exists it. destruct (decide (a.1 = n)) as [Hn|Hn].
      * by destruct (Hnew a it Ha Hn) as [_ ->].
      * by rewrite Hsame in Ha.
  - apply free_set_item; [|done]. eapply free_grows; [done|]. destruct V9 as [F1 F2]. split.
    + intros r0 id0 p1 Hp1. destruct (F1 r0 id0 p1 Hp1) as (? & ? & Hq). split_and!; [done|done|].
      intros a Ha. destruct (Hq a Ha) as (it & Hit & ? & ? & ?). exists it. rewrite Hsame; [done|].
      apply (Hold a it); auto.
    + intros a it Ha Hsl. destruct (decide (a.1 = n)) as [Hn|Hn].
      * by destruct (Hnew a it Ha Hn) as [_ ->].
      * rewrite Hsame in Ha by done. by apply F2.
  - intros r0 id0 p1 a [(<- & <- & ->)|[Hne Hp1]]%push_c_Some Ha.
    + simpl in Ha. injection Ha as <-. exists 0. simpl.
      split; [rewrite chunk_eq by (done || lia); f_equal; lia|]. split; [lia|]. split; [lia|].
      split; [by apply Hg|]. split; [exists (slab_hdr_init id s); by rewrite lookup_insert_eq|].
      intros j Hj. eapply fresh_hdr. unfold h'. rewrite carve_lookup, decide_True, decide_True; [done| |done].
      apply elem_of_chunks. eauto.
    + destruct (V10 r0 id0 p1 a Hp1 Ha) as (k & ? & ? & ? & ? & (s0 & ? & ?) & Hf).
      pose proof (Hraw2 r0 id0 p1 a Hp1 Ha) as Hn. exists k.
      do 3 (split; [done|]). split; [by apply Hg|]. split; [exists s0; by rewrite lookup_insert_ne|].
      intros j Hj. destruct (Hf j Hj) as (it & Hit & Hx). exists it. by rewrite Hsame.
  - pose proof V11 as (I1 & I2 & I3 & I4). split_and!.
    + intros r0. destruct (I1 r0) as (N1 & N2 & N3 & N4 & N5 & N6).
      assert (forall m, is_Some (sl !! m) -> is_Some (<[n := slab_hdr_init id s]> sl !! m)) as Hm
        by (intros m Hm; rewrite lookup_insert; case_decide; eauto).
      unfold inf'. rewrite push_i_lookup. case_decide as Hd; [subst r0|]; simpl.
      * do 3 (split; [done|]). split; [|split; [|auto]].
        -- apply NoDup_app. split_and!; [done| |apply NoDup_singleton]. intros m Hm1 Hm2.
           apply list_elem_of_singleton in Hm2 as ->. by apply N5 in Hm1 as [_ ?].
        -- intros m. rewrite elem_of_app, N5, list_elem_of_singleton. split.
           ++ intros [[? _]| ->]; done.
           ++ intros [Hm1 _]. destruct (decide (m = n)) as [->|]; [by right|left]. split; [done|congruence].
      * do 4 (split; [done|]). split; [|auto]. intros m. rewrite N5. split; [by intros [? _]|].
        intros [Hm1 _]. split; [done|]. intros [= ->]. apply Hd. by eapply table_inj.
    + intros m. unfold inf'. rewrite !push_i_lookup. specialize (I2 m). repeat case_decide; subst; simpl; done.
    + intros m Hm. rewrite lookup_insert in Hm. destruct (I3 m) as [? [r0 Hr]].
      { case_decide; [subst; eauto|done]. }
      split; [done|]. exists r0. by apply Hg.
    + unfold inf'. destruct r; exact I4.
  - eapply home_grows; [done|]. intros a it Ha Hl. destruct (decide (a.1 = n)) as [Hn|Hn].
    + by destruct (Hnew a it Ha Hn) as [_ ->].
    + rewrite Hsame in Ha by done. by apply V12.
  - intros a it Ha Hl. destruct (decide (a.1 = n)) as [Hn|Hn].
    + by destruct (Hnew a it Ha Hn) as [_ ->].
    + rewrite Hsame in Ha by done. by apply (V13 a).
Qed.

(** Moving a slab to the end of the queue of slabs. *)
Lemma INV_touch H c h sl ns cl inf t q r n s u :
  INV None H c h sl ns cl inf t q -> n ∈ slab_table (inf r) -> sl !! n = Some s ->
  INV None H c h (<[n := set_sl_utime u s]> sl) ns cl
    (push_i inf r (set_slab_lruq (remove1 n (slab_lruq (inf r)) ++ [n]) (inf r))) t q.
Proof.
  intros HI Hin Hs. destruct HI as [V1 V2 V3 V4 V5 V6 V7 V8 V9 V10 V11 V12 V13]. set (inf' := push_i _ _ _).
  assert (grows inf inf') as Hg.
  { intros r0 m Hm. unfold inf'. rewrite push_i_lookup. case_decide; [subst|]; done. }
  split; try done.
  - by apply (slab_upd_chunk c h sl None n s).
  - intros m s0. rewrite lookup_insert_Some. intros [[<- <-]|[Hm Hs0]] _; [by apply (V4 n s)|by apply V4].
  - by eapply free_grows.
  - apply (slab_upd_cur c h sl cl inf' n s); [done|done|]. by eapply cur_grows.
  - apply (slab_upd_info sl ns inf' None n s); [done|]. destruct V11 as (I1 & I2 & I3 & I4). split_and!.
    + intros r0. destruct (I1 r0) as (N1 & N2 & N3 & N4 & N5 & N6). unfold inf'. rewrite push_i_lookup.
      case_decide as Hd; [subst r0; simpl|done]. do 3 (split; [done|]). split; [|split; [|done]].
      * apply NoDup_app. split_and!; [by apply NoDup_remove1| |apply NoDup_singleton]. intros m Hm1 Hm2.
        apply list_elem_of_singleton in Hm2 as ->. by apply elem_of_remove1 in Hm1 as [_ ?].
      * intros m. rewrite elem_of_app, elem_of_remove1, N5, list_elem_of_singleton by done. split.
        -- intros [[? _]| ->]; done.
        -- intros [Hm _]. destruct (decide (m = n)) as [->|]; [by right|by left].
    + intros m. unfold inf'. rewrite !push_i_lookup. specialize (I2 m). repeat case_decide; subst; simpl; done.
    + intros m Hm. destruct (I3 m Hm) as [? [r0 Hr]]. split; [done|]. exists r0. by apply Hg.
    + unfold inf'. destruct r; exact I4.
  - by eapply home_grows.
Qed.

(** A class gives up its current slab. *)
Lemma INV_drop_cur H c h sl ns cl inf t q r id p :
  INV None H c h sl ns cl inf t q -> cl r !! id = Some p ->
  INV None H c h sl ns (push_c cl r id (set_free_item 0 None p)) inf t q.
Proof.
  intros HI Hp. destruct HI as [V1 V2 V3 V4 V5 V6 V7 V8 V9 V10 V11 V12 V13]. split; try done.
  - by apply (cls_upd c cl r id p).
  - by apply free_set_item.
  - intros r0 id0 p1 a [(<- & <- & ->)|[Hne Hp1]]%push_c_Some Ha; [done|by apply (V10 r0 id0)].
Qed.

(** The heaps matter pointwise. *)
Lemma INV_info_ext raw H c h sl ns cl inf inf' t q :
  (forall r, inf' r = inf r) -> INV raw H c h sl ns cl inf t q -> INV raw H c h sl ns cl inf' t q.
Proof.
  intros He [V1 V2 V3 V4 V5 V6 V7 V8 V9 V10 V11 V12 V13].
  assert (grows inf inf') as Hg by (intros r n; by rewrite He). split; try done.
  - by eapply free_grows.
  - by eapply cur_grows.
  - destruct V11 as (I1 & I2 & I3 & I4). split_and!; [|by rewrite !He| |by rewrite !He].
    + intros r. rewrite He. apply I1.
    + intros n Hn. destruct (I3 n Hn) as [? [r Hr]]. split; [done|]. exists r. by rewrite He.
  - by eapply home_grows.
Qed.
