(* ===== verification/SlabsOk.v ===== *)
(** * Correctness of the slab allocator

    Every operation of [Slabs] runs without undefined behaviour from a state
    that satisfies the invariant, re-establishes it, and disturbs neither a
    referenced item nor an item it does not evict. *)

From stdpp Require Import functions.
From S2P Require Import Prelude Hash Time Assoc Item State Slabs Inv.
Open Scope Z_scope.
Implicit Types (a b : addr) (n : nat) (it : item) (s : st).

(** ** Symbolic execution *)

Lemma wp_get_item a it (R : item -> st -> Prop) s :
  heap s !! a = Some it -> R it s -> wp (get_item a) R s.
Proof. intros Ha HR. unfold get_item. apply wp_bind, wp_gets. by eapply wp_lift. Qed.

Lemma wp_get_slab n x (R : slab -> st -> Prop) s :
  slabs s !! n = Some x -> R x s -> wp (get_slab n) R s.
Proof. intros Ha HR. unfold get_slab. apply wp_bind, wp_gets. by eapply wp_lift. Qed.

Lemma wp_get_class r id p (R : slabclass -> st -> Prop) s :
  classes s r !! id = Some p -> R p s -> wp (get_class r id) R s.
Proof. intros Ha HR. unfold get_class. apply wp_bind, wp_gets. by eapply wp_lift. Qed.

Lemma wp_get_lruq r id l (R : list addr -> st -> Prop) s :
  lruqs s r !! id = Some l -> R l s -> wp (get_lruq r id) R s.
Proof. intros Ha HR. unfold get_lruq. apply wp_bind, wp_gets. by eapply wp_lift. Qed.

Lemma wp_upd_item a it f (R : unit -> st -> Prop) s :
  heap s !! a = Some it -> R tt (set_heap (<[a := f it]> (heap s)) s) -> wp (upd_item a f) R s.
Proof. intros Ha HR. unfold upd_item. apply wp_bind. by eapply wp_get_item. Qed.

Lemma wp_upd_slab n x f (R : unit -> st -> Prop) s :
  slabs s !! n = Some x -> R tt (set_slabs (<[n := f x]> (slabs s)) s) -> wp (upd_slab n f) R s.
Proof. intros Ha HR. unfold upd_slab. apply wp_bind. by eapply wp_get_slab. Qed.

Lemma wp_2_slab a it (R : nat -> st -> Prop) s :
  heap s !! a = Some it -> i_offset it = a.2 -> R a.1 s -> wp (item_2_slab a) R s.
Proof.
  intros Ha Ho HR. unfold item_2_slab. apply wp_bind. eapply wp_get_item; [done|].
  rewrite Ho, Z.eqb_refl. done.
Qed.

Lemma wp_lock_slab (R : unit -> st -> Prop) s :
  slab_lock s = false -> R tt (set_slab_lock true s) -> wp lock_slab R s.
Proof. intros Hl HR. unfold lock_slab. apply wp_bind, wp_gets. by rewrite Hl. Qed.

Lemma wp_unlock_slab (R : unit -> st -> Prop) s :
  slab_lock s = true -> R tt (set_slab_lock false s) -> wp unlock_slab R s.
Proof. intros Hl HR. unfold unlock_slab. apply wp_bind, wp_gets. by rewrite Hl. Qed.

Lemma wp_lock_cache (R : unit -> st -> Prop) s :
  cache_lock s = false -> R tt (set_cache_lock true s) -> wp lock_cache R s.
Proof. intros Hl HR. unfold lock_cache. apply wp_bind, wp_gets. by rewrite Hl. Qed.

Lemma wp_unlock_cache (R : unit -> st -> Prop) s :
  cache_lock s = true -> R tt (set_cache_lock false s) -> wp unlock_cache R s.
Proof. intros Hl HR. unfold unlock_cache. apply wp_bind, wp_gets. by rewrite Hl. Qed.
(** Runs the accesses that cannot fail. *)
Ltac wp_go := repeat lazymatch goal with
  | |- wp (mbind _ _) _ _ => apply wp_bind
  | |- wp (mret _) _ _ => apply wp_ret
  | |- wp (gets _) _ _ => apply wp_gets
  | |- wp (modify _) _ _ => apply wp_modify
  | |- wp (record _) _ _ => apply wp_modify
  | |- wp now_ _ _ => apply wp_gets
  | |- wp (setting _) _ _ => apply wp_gets
  | |- wp (get_info _) _ _ => apply wp_gets
  | |- wp (put_info _ _) _ _ => apply wp_modify
  | |- wp (put_item _ _) _ _ => apply wp_modify
  | |- wp (put_slab _ _) _ _ => apply wp_modify
  | |- wp (put_class _ _ _) _ _ => apply wp_modify
  | |- wp (put_lruq _ _ _) _ _ => apply wp_modify
  | |- wp (when false _) _ _ => apply wp_ret
  | |- wp (when true ?m) ?Q ?s => change (wp m Q s)
  | |- wp (get_item _) _ _ => eapply wp_get_item; [eassumption|]
  | |- wp (get_slab _) _ _ => eapply wp_get_slab; [eassumption|]
  | |- wp (get_class _ _) _ _ => eapply wp_get_class; [eassumption|]
  | |- wp (get_lruq _ _) _ _ => eapply wp_get_lruq; [eassumption|]
  | |- wp (upd_item _ _) _ _ => eapply wp_upd_item; [eassumption|]
  | |- wp (upd_slab _ _) _ _ => eapply wp_upd_slab; [eassumption|]
  end.

(** ** What allocation leaves alone *)

(** What no operation on items changes. *)
Record frame s s' : Prop := Frame {
  k_cfg : cfg s' = cfg s;
  k_clk : clk s' = clk s;
  k_lease : lease_token s' = lease_token s;
  k_cache_lock : cache_lock s' = cache_lock s;
  k_slab_lock : slab_lock s' = slab_lock s;
  k_grows : grows (info s) (info s');
  k_max : forall r, max_nslab (info s' r) = max_nslab (info s r)
}.

#[export] Instance frame_preorder : PreOrder frame.
Proof.
  split; [by intros s; split|]. intros s1 s2 s3 [] []. split; try congruence; eauto.
  by transitivity (info s2).
Qed.

(** Referenced items stay as they are, and nothing is linked. *)
Record keeps s s' : Prop := Keeps {
  k_frame :> frame s s';
  k_ref : forall a it, heap s !! a = Some it -> 0 < i_refcount it -> heap s' !! a = Some it;
  k_link : forall a it, heap s' !! a = Some it -> item_is_linked it = true -> heap s !! a = Some it
}.

#[export] Instance keeps_preorder : PreOrder keeps.
Proof.
  split; [intros s; by split|]. intros s1 s2 s3 [] []. split; [by transitivity s2|eauto|eauto].
Qed.

(** Re-reads a frame condition between states with the same fields. *)
Ltac recast K := destruct K as [[] ? ?]; split; [by split|done|done].

Lemma keeps_same s s' : frame s s' -> heap s' = heap s -> keeps s s'.
Proof. intros Hf Hh. split; [done| |]; intros a it; by rewrite Hh. Qed.

#[export] Hint Extern 1 (keeps _ _) => (apply keeps_same; [by split|reflexivity]) : mc.

(** ** Access to the parts of the invariant *)

Section parts.
Context (H : list addr) (s : st) (HI : inv H s).

Lemma inv_cfg : cfg_ok (cfg s).
Proof using HI. apply HI. Qed.

Lemma inv_item_slab a it : heap s !! a = Some it ->
  exists x, slabs s !! a.1 = Some x /\ i_offset it = a.2 /\ i_id it = sl_id x /\
    id_ok (cfg s) (i_id it) /\ a ∈ chunks (cfg s) a.1 (i_id it).
Proof using HI.
  intros Ha. destruct (v_chunk _ _ _ _ _ _ _ _ _ _ HI) as [C1 C2].
  destruct (C1 a it Ha) as (x & Hx & Hc). destruct (Hc ltac:(done)) as (? & Hid & ?). exists x.
  rewrite Hid. destruct (C2 a.1 x Hx) as [? _]; done.
Qed.

Lemma inv_id_254 a it : heap s !! a = Some it -> SLABCLASS_MIN_ID <= i_id it <= SLABCLASS_MAX_ID.
Proof using HI.
  intros Ha. destruct (inv_item_slab a it Ha) as (_ & _ & _ & _ & Hid & _).
  pose proof (ok_last _ inv_cfg). unfold id_ok in Hid. lia.
Qed.

Lemma inv_class r id : id_ok (cfg s) id ->
  exists p, classes s r !! id = Some p /\ csize p = psize (cfg s) id /\ nitem p = pcnt (cfg s) id.
Proof using HI. intros Hid. by apply (v_cls _ _ _ _ _ _ _ _ _ _ HI). Qed.

Lemma inv_lru a it : heap s !! a = Some it -> item_is_linked it = true ->
  exists l, lruqs s (item_is_lease_holder it) !! i_id it = Some l /\ a ∈ l.
Proof using HI.
  intros Ha Hl. destruct (v_lru _ _ _ _ _ _ _ _ _ _ HI (item_is_lease_holder it) (i_id it)) as (l & Hq & _ & Hin).
  { by eapply inv_id_254. }
  exists l. split; [done|]. apply Hin. by exists it.
Qed.

Lemma inv_held a it : heap s !! a = Some it ->
  held a H <= i_refcount it <= held a H + 1 /\ 0 <= i_refcount it.
Proof using HI.
  intros Ha. destruct (proj2 (v_refs _ _ _ _ _ _ _ _ _ _ HI) a it Ha) as [? _].
  pose proof (held_nonneg a H). lia.
Qed.

Lemma inv_held_item a : a ∈ H -> exists it, heap s !! a = Some it /\ 0 < i_refcount it.
Proof using HI.
  intros Ha. destruct (proj1 (v_refs _ _ _ _ _ _ _ _ _ _ HI) a Ha) as [it Hit]. exists it. split; [done|].
  apply held_elem in Ha. destruct (inv_held a it Hit). lia.
Qed.

Lemma inv_taken a it : heap s !! a = Some it -> item_is_linked it = true \/ 0 < i_refcount it ->
  taken (cfg s) (classes s) a it.
Proof using HI.
  intros Ha Hl. split; [|tauto]. destruct (item_is_slabbed it) eqn:E; [|done].
  destruct (proj2 (v_free _ _ _ _ _ _ _ _ _ _ HI) a it Ha E) as (? & ? & _). destruct Hl; [congruence|lia].
Qed.

Lemma inv_pinned a it : heap s !! a = Some it -> item_is_linked it = true -> item_is_pinned_kind it = true ->
  i_refcount it = held a H + 1.
Proof using HI. intros Ha. apply (proj2 (v_refs _ _ _ _ _ _ _ _ _ _ HI) a it Ha). Qed.

Lemma inv_range a it x : heap s !! a = Some it -> slabs s !! a.1 = Some x ->
  Z.of_nat (length H) <= MAX_HELD -> 0 <= i_refcount it <= sl_refcount x /\ sl_refcount x < 65536 - 1.
Proof using HI. intros. by eapply refcount_range. Qed.

(** Deleting a linked item from the table, whatever happened to it but its key. *)
Lemma inv_delete a it h' : heap s !! a = Some it -> item_is_linked it = true ->
  (forall b, hkey h' b = hkey (heap s) b) ->
  exists t', assoc_delete (hkey h') hash_key (tbl s) (i_key it) = Some t' /\
    Assoc.wf (hkey h') hash_key t' /\ contents (tbl s) ≡ₚ a :: contents t' /\
    nhash_item t' = u32 (nhash_item (tbl s) - 1).
Proof using HI.
  intros Ha Hl Hk. destruct (v_tbl _ _ _ _ _ _ _ _ _ _ HI) as (T1 & T2 & _).
  assert (Assoc.wf (hkey h') hash_key (tbl s)) as Hw by (eapply tbl_wf_ext; [|exact T1]; auto).
  assert (a ∈ contents (tbl s)) as Hin by (apply T2; eauto).
  assert (hkey h' a = i_key it) as Hka by (rewrite Hk; unfold hkey; by rewrite Ha).
  pose proof (assoc_delete_spec (hkey h') hash_key hash_key_range (tbl s) (i_key it) Hw) as HD.
  destruct (assoc_delete _ _ _ _) as [t'|].
  - destruct HD as (e & He & Hw' & HP & Hn). exists t'. split_and!; try done.
    assert (e = a) as ->; [|done]. apply (contents_inj (hkey h') hash_key hash_key_range (tbl s)); try done.
    + rewrite HP. by left.
    + congruence.
  - exfalso. apply HD. rewrite <-Hka. by apply list_elem_of_fmap_2.
Qed.
End parts.

(** ** Reference counts *)

Definition add_refs (d : Z) a it (x : slab) s : st :=
  set_slabs (<[a.1 := set_sl_refcount (sl_refcount x + d) x]> (slabs s))
    (set_heap (<[a := set_refcount (i_refcount it + d) it]> (heap s)) s).

Lemma wp_acquire a it x (R : unit -> st -> Prop) s :
  heap s !! a = Some it -> i_offset it = a.2 -> slabs s !! a.1 = Some x ->
  0 <= i_refcount it <= sl_refcount x -> sl_refcount x < 65536 - 1 ->
  R tt (add_refs 1 a it x s) -> wp (item_acquire_refcount a) R s.
Proof.
  intros Ha Ho Hx Hr Hs HR. unfold item_acquire_refcount. wp_go.
  eapply wp_2_slab; [apply lookup_insert_eq|done|]. unfold slab_acquire_refcount. wp_go.
  rewrite !u16_small by lia. exact HR.
Qed.

Lemma wp_release a it x (R : unit -> st -> Prop) s :
  heap s !! a = Some it -> i_offset it = a.2 -> slabs s !! a.1 = Some x ->
  0 < i_refcount it <= sl_refcount x -> sl_refcount x < 65536 ->
  R tt (add_refs (-1) a it x s) -> wp (item_release_refcount a) R s.
Proof.
  intros Ha Ho Hx Hr Hs HR. unfold item_release_refcount. wp_go.
  eapply wp_2_slab; [apply lookup_insert_eq|done|]. unfold slab_release_refcount. wp_go.
  rewrite !u16_small by lia. exact HR.
Qed.

Section ops.
Context (H : list addr) (s : st) (HI : inv H s) (HH : Z.of_nat (length H) <= MAX_HELD).

Lemma acquire_spec a it :
  heap s !! a = Some it -> taken (cfg s) (classes s) a it ->
  wp (item_acquire_refcount a) (fun _ s' => inv (a :: H) s' /\
    exists x, slabs s !! a.1 = Some x /\ s' = add_refs 1 a it x s) s.
Proof using HI HH.
  intros Ha Ht. destruct (inv_item_slab H s HI a it Ha) as (x & Hx & Ho & _).
  destruct (inv_range H s HI a it x Ha Hx HH). eapply wp_acquire; try done.
  split; [|by exists x]. apply (INV_ref None H); try done; [lia|]. apply refs_acquire; [apply HI|done].
Qed.

Lemma pin_spec a it :
  heap s !! a = Some it -> i_refcount it = held a H -> taken (cfg s) (classes s) a it ->
  wp (item_set_pinned a) (fun _ s' => inv H s' /\
    exists x, slabs s !! a.1 = Some x /\ s' = add_refs 1 a it x s) s.
Proof using HI HH.
  intros Ha Hr Ht. destruct (inv_item_slab H s HI a it Ha) as (x & Hx & Ho & _).
  destruct (inv_range H s HI a it x Ha Hx HH). eapply wp_acquire; try done.
  split; [|by exists x]. apply (INV_ref None H); try done; [lia|]. apply refs_pin; [apply HI|done|done].
Qed.

(** The last reference to a linked item is not given up while it lies in the
    pool of the leases. *)
Definition droppable it : Prop :=
  item_is_linked it = true -> i_refcount it = 1 -> respool (cfg s) it = false.

Lemma release_spec a it H' :
  heap s !! a = Some it -> H ≡ₚ a :: H' -> droppable it ->
  wp (item_release_refcount a) (fun _ s' => inv H' s' /\
    exists x, slabs s !! a.1 = Some x /\ s' = add_refs (-1) a it x s) s.
Proof using HI HH.
  intros Ha HP Hk. destruct (inv_item_slab H s HI a it Ha) as (x & Hx & Ho & _).
  destruct (inv_range H s HI a it x Ha Hx HH).
  assert (0 < held a H) as Hh by (rewrite HP, held_cons_eq; pose proof (held_nonneg a H'); lia).
  assert (0 < i_refcount it) as Hpos by (destruct (inv_held H s HI a it Ha) as [[? _] _]; lia).
  eapply wp_release; try done; [lia|lia|].
  split; [|by exists x]. apply (INV_ref None H); try done.
  - apply (inv_taken H s HI); [done|by right].
  - intros Hl Hz. apply Hk; [done|lia].
  - apply (refs_release H); [apply HI|done|done].
Qed.

Lemma unpin_spec a it :
  heap s !! a = Some it -> i_refcount it = held a H + 1 ->
  item_is_linked it = false \/ (item_is_pinned_kind it = false /\ 2 <= i_refcount it) ->
  wp (item_unset_pinned a) (fun _ s' => inv H s' /\
    exists x, slabs s !! a.1 = Some x /\ s' = add_refs (-1) a it x s) s.
Proof using HI HH.
  intros Ha Hr Hl. destruct (inv_item_slab H s HI a it Ha) as (x & Hx & Ho & _).
  destruct (inv_range H s HI a it x Ha Hx HH). pose proof (held_nonneg a H).
  eapply wp_release; try done; [lia|lia|].
  split; [|by exists x]. apply (INV_ref None H); try done.
  - apply (inv_taken H s HI); [done|]. right. lia.
  - intros Hl' Hz. destruct Hl as [|[_ ?]]; [congruence|lia].
  - apply refs_unpin; [apply HI|done|done|naive_solver].
Qed.
End ops.

(** ** Leaving the table and the lru queue *)

(** Clearing [ITEM_LINKED], [assoc_delete] and [item_unlink_q]. *)
Lemma wp_unlink_q a it l (R : unit -> st -> Prop) s :
  heap s !! a = Some it -> lruqs s (item_is_lease_holder it) !! i_id it = Some l -> a ∈ l ->
  (forall es, R tt (set_events es (set_lruqs (push_q (lruqs s) (item_is_lease_holder it) (i_id it) (remove1 a l)) s))) ->
  wp (item_unlink_q a) R s.
Proof.
  intros Ha Hq Hin HR. unfold item_unlink_q. wp_go.
  eapply wp_lift; [unfold tailq_remove; by rewrite decide_True|]. wp_go. apply HR.
Qed.

Lemma wp_tbl_delete k t' (R : unit -> st -> Prop) s :
  assoc_delete (hkey (heap s)) hash_key (tbl s) k = Some t' -> R tt (set_tbl t' s) -> wp (tbl_delete k) R s.
Proof. intros Hd HR. unfold tbl_delete. wp_go. eapply wp_lift; [exact Hd|]. wp_go. done. Qed.

Definition unlinked it : item := set_flags (unset_bit (i_flags it) ITEM_LINKED) it.

Lemma unlinked_flags it :
  item_is_linked (unlinked it) = false /\ item_is_slabbed (unlinked it) = item_is_slabbed it /\
  item_is_lease_holder (unlinked it) = item_is_lease_holder it /\
  item_is_pinned_kind (unlinked it) = item_is_pinned_kind it.
Proof.
  unfold unlinked, item_is_pinned_kind. flags. done.
Qed.

(** An unreferenced item gives up its chunk. *)
Lemma reuse_spec H s a it :
  inv H s -> heap s !! a = Some it -> item_is_linked it = true -> i_refcount it = 0 ->
  wp (item_reuse a) (fun _ s' => inv H s' /\ exists es t' l, s' =
    set_events es (set_lruqs (push_q (lruqs s) (item_is_lease_holder it) (i_id it) l)
      (set_tbl t' (set_heap (<[a := unlinked it]> (heap s)) s)))) s.
Proof.
  intros HI Ha Hl Hr. destruct (unlinked_flags it) as (_ & _ & Hlh & _).
  assert (item_is_lease_holder it = false) as Hnl.
  { destruct (item_is_lease_holder it) eqn:E; [|done].
    assert (item_is_pinned_kind it = true) as Hp by (unfold item_is_pinned_kind; by rewrite E).
    pose proof (inv_pinned H s HI a it Ha Hl Hp). pose proof (held_nonneg a H). lia. }
  destruct (inv_delete H s HI a it (<[a := unlinked it]> (heap s)) Ha Hl) as (t' & Hd & Hw & HP & Hn).
  { by apply (upd_hkey (heap s) a it). }
  destruct (inv_lru H s HI a it Ha Hl) as (l & Hq & Hin).
  unfold item_reuse. wp_go. rewrite Hnl. wp_go.
  eapply wp_get_item; [apply lookup_insert_eq|]. wp_go.
  eapply wp_tbl_delete; [exact Hd|]. wp_go.
  apply (wp_unlink_q a (unlinked it) l); [apply lookup_insert_eq|rewrite Hlh; exact Hq|exact Hin|].
  intros es. wp_go. rewrite Hlh. split.
  - apply (INV_unlink None H (cfg s) (heap s) (slabs s) (next_slab s) (classes s) (info s) (tbl s)
      (lruqs s) a it t' l); try done.
    pose proof (tbl_small _ _ _ _ _ _ _ _ _ HI). lia.
  - rewrite Hnl. eexists _, t', _. reflexivity.
Qed.

(** ** Eviction *)

(** What a step of eviction at one chunk does not change. *)
Record evicts a s s' : Prop := Evicts {
  e_keeps : keeps s s';
  e_other : forall b, b <> a -> heap s' !! b = heap s !! b;
  e_fresh : fresh (heap s') a;
  e_slabs : slabs s' = slabs s;
  e_info : info s' = info s;
  e_cur : forall r id, free_item <$> (classes s' r !! id) = free_item <$> (classes s r !! id)
}.

Lemma keeps_one a it it' s s' :
  heap s !! a = Some it -> i_refcount it = 0 -> heap s' = <[a := it']> (heap s) ->
  item_is_linked it' = false -> info s' = info s ->
  cfg s' = cfg s -> clk s' = clk s -> lease_token s' = lease_token s ->
  cache_lock s' = cache_lock s -> slab_lock s' = slab_lock s -> keeps s s'.
Proof.
  intros Ha Hr Hh Hl Hg ? ? ? ? ?. split.
  - split; try done; by rewrite Hg.
  - intros b x Hb Hx. rewrite Hh, lookup_insert_ne; [done|]. intros ->. simplify_eq. lia.
  - intros b x Hb Hx. rewrite Hh in Hb. apply upd_lookup in Hb as [[<- ->]|[_ Hb]]; [congruence|done].
Qed.

Lemma evict_chunk_spec H s r a it :
  inv H s -> heap s !! a = Some it -> i_refcount it = 0 -> a.1 ∈ slab_table (info s r) ->
  wp (slab_evict_chunk r (i_id it) a) (fun _ s' => inv H s' /\ evicts a s s') s.
Proof.
  intros HI Ha Hr Hin. destruct (unlinked_flags it) as (Hu1 & Hu2 & _).
  unfold slab_evict_chunk. wp_go. destruct (item_is_linked it) eqn:El.
  - eapply wp_mono; [by apply (reuse_spec H s a it)|]. intros _ s' [HI' (es & t' & l & ->)]. split; [done|].
    pose proof (linked_not_slabbed _ _ _ _ _ (v_free _ _ _ _ _ _ _ _ _ _ HI) Ha El) as Hns.
    split; try done.
    + by apply (keeps_one a it (unlinked it)).
    + intros b Hb. simpl. by rewrite lookup_insert_ne.
    + exists (unlinked it). simpl. rewrite lookup_insert_eq, Hu2. done.
  - destruct (item_is_slabbed it) eqn:Es; wp_go.
    + destruct (proj2 (v_free _ _ _ _ _ _ _ _ _ _ HI) a it Ha Es) as (_ & _ & r' & p & Hp & Hq).
      destruct (proj1 (v_free _ _ _ _ _ _ _ _ _ _ HI) r' _ p Hp) as (_ & _ & Hqi).
      destruct (Hqi a Hq) as (x & _ & _ & _ & Hin').
      assert (r' = r) as -> by (eapply table_inj; [apply (v_info _ _ _ _ _ _ _ _ _ _ HI)|done|done]).
      destruct (INV_unfree H _ _ _ _ _ _ _ _ a it r p HI Ha Hp Hq) as (HI' & Hr' & Hl' & Hs' & _).
      eapply wp_get_class; [exact Hp|]. wp_go.
      eapply wp_lift; [unfold tailq_remove; by rewrite decide_True|]. wp_go.
      split; [exact HI'|]. split; try done.
      * eapply (keeps_one a it); try done.
      * intros b Hb. simpl. by rewrite lookup_insert_ne.
      * eexists. simpl. rewrite lookup_insert_eq. done.
      * intros r0 id0. simpl.
        change (free_item <$> (push_c (classes s) r (i_id it) (set_free_itemq (u32 (nfree_itemq p - 1))
          (remove1 a (free_itemq p)) p) r0 !! id0) = free_item <$> (classes s r0 !! id0)).
        rewrite push_c_lookup. case_decide as Hd; [|done]. destruct Hd as [<- <-]. by rewrite Hp.
    + split; [done|]. split; try done. by exists it.
Qed.

Lemma evict_loop_spec H r n id idxs : forall s,
  inv H s -> n ∈ slab_table (info s r) ->
  (forall i, i ∈ idxs -> exists it, heap s !! chunk (cfg s) n id i = Some it) ->
  (forall a it, a.1 = n -> heap s !! a = Some it -> i_refcount it = 0 /\ i_id it = id) ->
  wp (slab_evict_loop r id n (psize (cfg s) id) idxs) (fun _ s' => inv H s' /\ keeps s s' /\
    (forall i, i ∈ idxs -> fresh (heap s') (chunk (cfg s) n id i)) /\
    (forall a, a.1 = n -> fresh (heap s) a -> fresh (heap s') a) /\
    (forall a, a.1 <> n -> heap s' !! a = heap s !! a) /\
    dom (heap s') = dom (heap s) /\ slabs s' = slabs s /\ info s' = info s /\
    (forall r id, free_item <$> (classes s' r !! id) = free_item <$> (classes s r !! id))) s.
Proof.
  induction idxs as [|i idxs IH]; intros s HI Hin Hex Hz; simpl.
  - apply wp_ret. split_and!; try done. intros i Hi. set_solver.
  - destruct (Hex i ltac:(set_solver)) as [it Hit]. set (a := chunk (cfg s) n id i).
    change (slab_2_item n i (psize (cfg s) id)) with a.
    destruct (Hz a it eq_refl Hit) as [Hr Hid].
    apply wp_bind. eapply wp_mono.
    { rewrite <-Hid. apply (evict_chunk_spec H s r a it); done. }
    intros _ s1 [HI1 E]. destruct E as [E1 E2 E3 E4 E5 E6]. pose proof (k_cfg _ _ E1) as Hc.
    assert (dom (heap s1) = dom (heap s)) as Hdom.
    { apply set_eq. intros b. rewrite !elem_of_dom. destruct (decide (b = a)) as [->|Hb]; [|by rewrite E2].
      destruct E3 as (x & -> & _). fold a in Hit. rewrite Hit. split; eauto. }
    rewrite <-Hc. eapply wp_mono; [apply (IH s1 HI1)|].
    + by rewrite E5.
    + intros j Hj. rewrite Hc. destruct (Hex j ltac:(set_solver)) as [x Hx].
      destruct (decide (chunk (cfg s) n id j = a)) as [->|Hne]; [destruct E3 as (y & Hy & _); eauto|].
      exists x. by rewrite E2.
    + intros b x Hb Hx. destruct (decide (b = a)) as [->|Hne].
      * destruct E3 as (y & Hy & ? & _). assert (y = x) as -> by congruence. split; [done|].
        destruct (inv_item_slab H s1 HI1 a x Hx) as (sx & Hsx & _ & -> & _).
        destruct (inv_item_slab H s HI a it Hit) as (sy & Hsy & _ & Hiy & _).
        rewrite E4 in Hsx. congruence.
      * rewrite E2 in Hx by done. by apply (Hz b).
    + intros _ s2 (I1 & K & F1 & F2 & F3 & F4 & F5 & F6 & F7). split_and!; [done|by transitivity s1| | | |congruence|congruence|congruence|].
      * intros j [Hj|Hj]%elem_of_cons; [|by apply F1]. subst j. rewrite Hc.
        apply (F2 a); [reflexivity|exact E3].
      * intros b Hb Hf. apply F2; [done|]. destruct (decide (b = a)) as [->|Hne]; [done|].
        destruct Hf as (x & Hx & Hx'). exists x. by rewrite E2.
      * intros b Hb. rewrite F3 by done. apply E2. intros ->. by apply Hb.
      * intros r0 id0. by rewrite F7.
Qed.

(** Evicting a slab nobody references: everything in it is detached. *)
Lemma evict_one_spec H s r n x :
  inv H s -> n ∈ slab_table (info s r) -> slabs s !! n = Some x -> sl_refcount x = 0 ->
  wp (slab_evict_one r n) (fun _ s' => inv_raw (Some n) H s' /\ keeps s s' /\
    n ∈ slab_table (info s' r) /\ slabs s' = slabs s /\ (forall a, a.1 <> n -> heap s' !! a = heap s !! a)) s.
Proof.
  intros HI Hin Hx Hz. pose proof (inv_cfg H s HI) as Hc.
  destruct (proj2 (v_chunk _ _ _ _ _ _ _ _ _ _ HI) n x Hx) as [Hid Hch]; [done|].
  destruct (inv_class H s HI r (sl_id x) Hid) as (p & Hp & Hsz & Hni).
  assert (forall a it, a.1 = n -> heap s !! a = Some it -> i_refcount it = 0 /\ i_id it = sl_id x) as Hzero.
  { intros a it Ha Hit. destruct (inv_item_slab H s HI a it Hit) as (y & Hy & _ & Hiy & _ & Hac).
    rewrite Ha in Hy. assert (y = x) as -> by congruence. split; [|done].
    pose proof (refs_ge (heap s) (chunks (cfg s) n (sl_id x)) a) as Hge.
    rewrite <-(v_sum _ _ _ _ _ _ _ _ _ _ HI n x Hx) in Hge by done. rewrite Hz in Hge.
    destruct (inv_held H s HI a it Hit) as [_ ?]. unfold ref in Hge. rewrite Hit in Hge.
    enough (i_refcount it <= 0) by lia. apply Hge; [by apply NoDup_chunks| |].
    - intros b Hb. destruct (heap s !! b) as [z|] eqn:E; [|lia]. by destruct (inv_held H s HI b z E).
    - by rewrite <-Ha, <-Hiy. }
  unfold slab_evict_one. wp_go.
  set (cur := match free_item p with Some a => bool_decide (a.1 = n) | None => false end).
  assert (forall (R : bool -> st -> Prop), R cur s ->
    wp (match free_item p with
        | Some a => m ← item_2_slab a; mret (bool_decide (m = n))
        | None => mret false end) R s) as Hcur.
  { intros R HR. unfold cur in HR. destruct (free_item p) as [a|] eqn:Ef; [|done].
    destruct (v_cur _ _ _ _ _ _ _ _ _ _ HI r _ p a Hp Ef) as (k & Hk & _ & Hkr & _ & _ & Hf).
    destruct (Hf k ltac:(lia)) as (it & Hit & _). rewrite <-Hk in Hit.
    destruct (inv_item_slab H s HI a it Hit) as (_ & _ & Ho & _).
    apply wp_bind. eapply wp_2_slab; [done|done|]. by apply wp_ret. }
  apply Hcur. clear Hcur. wp_go.
  set (s1 := if cur then set_classes (push_c (classes s) r (sl_id x) (set_free_item 0 None p)) s else s).
  assert (forall (R : unit -> st -> Prop), R tt s1 -> wp (when cur (put_class r (sl_id x) (set_free_item 0 None p))) R s) as Hw.
  { intros R. unfold s1. destruct cur; intros HR; [|done]. by apply wp_modify. }
  apply Hw. clear Hw. wp_go.
  assert (inv H s1) as HI1.
  { unfold s1. destruct cur; [|done]. by apply (INV_drop_cur H (cfg s)). }
  assert (heap s1 = heap s /\ slabs s1 = slabs s /\ info s1 = info s /\ cfg s1 = cfg s /\ keeps s s1)
    as (Q1 & Q2 & Q3 & Q4 & Q5).
  { unfold s1. destruct cur; split_and!; done || auto with mc. }
  assert (forall r0 id0 p0 a, classes s1 r0 !! id0 = Some p0 -> free_item p0 = Some a -> a.1 <> n) as Hnc.
  { intros r0 id0 p0 a Hp0 Ha He.
    assert (r0 = r /\ id0 = sl_id x) as [-> ->].
    { destruct (v_cur _ _ _ _ _ _ _ _ _ _ HI1 r0 id0 p0 a Hp0 Ha) as (k & _ & _ & _ & Hin0 & (y & Hy & Hy') & _).
      rewrite He in *. rewrite Q2 in Hy. rewrite Q3 in Hin0. assert (y = x) as -> by congruence. split; [|done].
      eapply table_inj; [apply (v_info _ _ _ _ _ _ _ _ _ _ HI)|done|done]. }
    unfold s1, cur in Hp0. destruct (free_item p) as [b|] eqn:Ef.
    - destruct (bool_decide_reflect (b.1 = n)).
      + apply push_c_Some in Hp0 as [(_ & _ & ->)|[Hne _]]; [done|]. by apply Hne.
      + congruence.
    - congruence. }
  rewrite Hsz, Hni, <-Q4. eapply wp_mono; [apply (evict_loop_spec H r n (sl_id x) _ s1 HI1)|].
  - by rewrite Q3.
  - intros i Hi%elem_of_seqZ. rewrite Q4, Q1. apply Hch. apply elem_of_chunks. exists i. rewrite Q4 in Hi. split; [lia|done].
  - intros a it. rewrite Q1. apply Hzero.
  - intros _ s2 (I2 & K & F1 & F2 & F3 & F4 & F5 & F6 & F7). wp_go.
    assert (n ∈ slab_lruq (info s2 r)) as Hlq.
    { destruct (proj1 (v_info _ _ _ _ _ _ _ _ _ _ I2) r) as (_ & _ & _ & _ & Hl & _). apply Hl.
      rewrite F6, Q3. done. }
    unfold slab_lruq_remove. wp_go. eapply wp_lift; [unfold tailq_remove; by rewrite decide_True|]. wp_go.
    split_and!.
    + apply (INV_emptied H (cfg s2) (heap s2) (slabs s2) _ (classes s2)); [exact I2|by rewrite F6, Q3| |].
      * intros a Ha Hs. assert (is_Some (heap s !! a)) as [it Hit].
        { apply elem_of_dom. rewrite <-Q1, <-F4. by apply elem_of_dom. }
        destruct (inv_item_slab H s HI a it Hit) as (y & Hy & _ & Hiy & _ & Hac).
        rewrite Ha in Hy. assert (y = x) as -> by congruence. rewrite Hiy, Ha in Hac. apply elem_of_chunks in Hac as (i & Hi & ->).
        rewrite <-Q4. apply F1. apply elem_of_seqZ. rewrite Q4. lia.
      * intros r0 id0 p0 a Hp0 Ha. pose proof (F7 r0 id0) as He. rewrite Hp0 in He.
        destruct (classes s1 r0 !! id0) as [p1|] eqn:E1; [|done]. simpl in He. injection He as He.
        apply (Hnc r0 id0 p1 a E1). congruence.
    + transitivity s2; [by transitivity s1|]. apply keeps_same; [|done].
      split; try done; [intros r0 m Hm|intros r0]; simpl; unfold insert, fn_insert; case_decide; by subst.
    + change (n ∈ slab_table (push_i (info s2) r (set_slab_lruq (remove1 n (slab_lruq (info s2 r))) (info s2 r)) r)).
      rewrite push_i_lookup, decide_True by done. simpl. by rewrite F6, Q3.
    + simpl. congruence.
    + intros a Ha. simpl. rewrite F3 by done. by rewrite Q1.
Qed.

(** ** Choosing a slab to evict *)

(** Eviction has a slab to choose from: the heap holds a slab, or the first one
    cannot fail. *)
Definition evict_safe s (r : bool) : Prop :=
  evict_opt (cfg s) = 0 \/ 0 < nslab (info s r) \/
  (prealloc (cfg s) = true /\ 0 < max_nslab (info s r)).

Lemma evict_safe_frame H H' s s' r : inv H s -> inv H' s' -> frame s s' -> evict_safe s r -> evict_safe s' r.
Proof.
  intros HI HI' K [He|[Hn|[Hp Hm]]]; unfold evict_safe; rewrite (k_cfg _ _ K), (k_max _ _ K); auto.
  right. left. destruct (proj1 (v_info _ _ _ _ _ _ _ _ _ _ HI) r) as (N & _).
  destruct (proj1 (v_info _ _ _ _ _ _ _ _ _ _ HI') r) as (N' & _). rewrite N in Hn. rewrite N'.
  destruct (slab_table (info s r)) as [|m l] eqn:E; [simpl in Hn; lia|].
  assert (m ∈ slab_table (info s' r)) as Hm by (apply (k_grows _ _ K); rewrite E; by left).
  destruct (slab_table (info s' r)); [set_solver|simpl; lia].
Qed.

Lemma evict_safe_keeps H H' s s' r : inv H s -> inv H' s' -> keeps s s' -> evict_safe s r -> evict_safe s' r.
Proof. intros HI HI' K. by apply (evict_safe_frame H H'); [..|apply K]. Qed.

(** An unreferenced slab of the heap. *)
Definition idle_slab s (r : bool) (o : option nat) : Prop :=
  forall n, o = Some n -> n ∈ slab_table (info s r) /\
    exists x, slabs s !! n = Some x /\ sl_refcount x = 0.

Lemma rand_loop_spec H r tries : forall s,
  inv H s -> 0 < nslab (info s r) ->
  wp (slab_rand_loop tries r) (fun o s' => (exists k, s' = set_nrand k s) /\ idle_slab s r o) s.
Proof.
  induction tries as [|tries IH]; intros s HI Hn; cbn [slab_rand_loop].
  { apply wp_ret. split; [by exists (nrand s); destruct s|done]. }
  destruct (proj1 (v_info _ _ _ _ _ _ _ _ _ _ HI) r) as (N & Nm & _ & _ & _ & Ns).
  apply wp_bind. unfold slab_table_rand, next_rand. wp_go. simpl info.
  rewrite (proj2 (Z.eqb_neq _ _)) by lia.
  pose proof (Z.mod_pos_bound (u32 (e_rand (env s) (nrand s))) (nslab (info s r)) Hn) as Hb.
  destruct (lookup_lt_is_Some_2 (slab_table (info s r))
    (Z.to_nat (u32 (e_rand (env s) (nrand s)) mod nslab (info s r)))) as [n Hl]; [lia|].
  eapply wp_lift; [exact Hl|]. apply list_elem_of_lookup_2 in Hl.
  destruct (Ns n Hl) as [x Hx]. wp_go.
  destruct tries as [|tries]; [apply wp_ret; split; [by eexists|done]|].
  destruct (Z.eqb_spec (sl_refcount x) 0).
  - apply wp_ret. split; [by eexists|]. intros m [= <-]. eauto.
  - eapply wp_mono; [by apply (IH (set_nrand (S (nrand s)) s))|].
    intros o s' [[k ->] Ho]. split; [by eexists|done].
Qed.

Lemma lru_loop_spec H s tries q :
  inv H s -> (forall n, n ∈ q -> is_Some (slabs s !! n)) ->
  wp (slab_lru_loop tries q) (fun o s' => s' = s /\
    forall n, o = Some n -> n ∈ q /\ exists x, slabs s !! n = Some x /\ sl_refcount x = 0) s.
Proof.
  intros HI. revert q. induction tries as [|tries IH]; intros [|n q] Hq; cbn [slab_lru_loop];
    try (apply wp_ret; done).
  destruct (Hq n ltac:(by left)) as [x Hx]. wp_go. destruct (Z.eqb_spec (sl_refcount x) 0).
  - apply wp_ret. split; [done|]. intros m [= <-]. split; [by left|eauto].
  - eapply wp_mono; [apply IH; intros m Hm; apply Hq; by right|]. intros o s' [-> Ho]. split; [done|].
    intros m Hm. destruct (Ho m Hm) as [? ?]. split; [by right|done].
Qed.

(** A slab ready to be carved, or none. *)
Definition got H s (r : bool) (o : option nat) s' : Prop :=
  keeps s s' /\
  match o with
  | None => inv H s' /\ heap s' = heap s /\ info s' = info s
  | Some n => inv_raw (Some n) H s' /\ n ∈ slab_table (info s' r) /\ is_Some (slabs s' !! n)
  end.

Lemma evict_idle_spec H s r o :
  inv H s -> idle_slab s r o ->
  wp (match o with
      | None => mret None
      | Some n => slab_evict_one r n;; mret (Some n)
      end) (got H s r) s.
Proof.
  intros HI Ho. destruct o as [n|]; [|by apply wp_ret].
  destruct (Ho n eq_refl) as (Hin & x & Hx & Hz). apply wp_bind.
  eapply wp_mono; [by apply (evict_one_spec H s r n x)|]. intros _ s' (HI' & K & Hin' & Hs & _).
  apply wp_ret. split; [done|]. split_and!; [done|done|]. rewrite Hs. eauto.
Qed.

Lemma evict_rand_spec H s r : inv H s -> 0 < nslab (info s r) -> wp (slab_evict_rand r) (got H s r) s.
Proof.
  intros HI Hn. unfold slab_evict_rand. apply wp_bind.
  eapply wp_mono; [by apply (rand_loop_spec H r)|]. intros o s1 [[k ->] Ho].
  eapply wp_mono; [by apply (evict_idle_spec H (set_nrand k s) r o)|].
  intros o' s' [K G]. split; [|exact G]. recast K.
Qed.

Lemma evict_lru_spec H s r : inv H s -> wp (slab_evict_lru r) (got H s r) s.
Proof.
  intros HI. unfold slab_evict_lru. wp_go.
  destruct (proj1 (v_info _ _ _ _ _ _ _ _ _ _ HI) r) as (_ & _ & _ & _ & Nl & Ns).
  eapply wp_mono; [apply (lru_loop_spec H s); [done|]|].
  - intros n Hn. apply Ns. by apply Nl.
  - intros o s' [-> Ho]. apply (evict_idle_spec H s r o); [done|].
    intros n Hn. destruct (Ho n Hn) as [Hq Hx]. split; [by apply Nl|done].
Qed.

(** ** New slabs *)

Lemma get_new_spec H s r : inv H s ->
  wp (slab_get_new r) (fun o s' => got H s r o s' /\
    (o = None -> nslab (info s r) < max_nslab (info s r) -> prealloc (cfg s) = false)) s.
Proof.
  intros HI. unfold slab_get_new. wp_go. unfold slab_heap_full.
  destruct (Z.leb_spec (max_nslab (info s r)) (nslab (info s r))) as [Hf|Hf].
  { apply wp_ret. split; [by split; auto with mc|]. lia. }
  unfold slab_heap_alloc. wp_go.
  set (s1 := if prealloc (cfg s) then s else set_nalloc (S (nalloc s)) s).
  set (ok := if prealloc (cfg s) then true else e_malloc (env s) (nalloc s)).
  assert (forall (R : bool -> st -> Prop), R ok s1 ->
    wp (if prealloc (cfg s) then mret true else next_malloc) R s) as Hw.
  { intros R HR. unfold s1, ok in HR. destruct (prealloc (cfg s)); [done|]. unfold next_malloc. by wp_go. }
  apply Hw. clear Hw. assert (inv H s1 /\ keeps s s1 /\ info s1 = info s /\ heap s1 = heap s) as (HI1 & K1 & Hi1 & Hh1).
  { unfold s1. destruct (prealloc (cfg s)); split_and!; done || auto with mc. }
  destruct ok eqn:Eok; wp_go.
  - unfold slab_table_update. wp_go.
    destruct (INV_new H _ _ _ _ _ _ _ _ r (Slab 0 0 (u32 (e_utime (env s1) (next_slab s1)))) HI1) as (HI2 & Hg & Hin).
    { by rewrite Hi1. }
    split; [|done]. split; [|split_and!; [exact HI2|exact Hin|simpl; rewrite lookup_insert_eq; eauto]].
    transitivity s1; [done|]. apply keeps_same; [|done]. split; try done. intros r0. simpl.
    unfold insert, fn_insert. case_decide; by subst.
  - split; [done|]. intros _ _. unfold ok in Eok. by destruct (prealloc (cfg s)).
Qed.

Lemma raw_not_held H s n : inv_raw (Some n) H s -> n ∉ H.*1.
Proof.
  intros HI Hin. apply list_elem_of_fmap in Hin as (a & Ha & Hin).
  destruct (v_refs _ _ _ _ _ _ _ _ _ _ HI) as [R1 R2]. destruct (R1 a Hin) as [it Hit].
  destruct (v_raw _ _ _ _ _ _ _ _ _ _ HI n eq_refl) as [Hf _].
  destruct (Hf a (eq_sym Ha) ltac:(eauto)) as (x & Hx & Hr & _). simplify_eq.
  destruct (R2 a _ Hit) as [? _]. apply held_elem in Hin. lia.
Qed.

(** A raw slab is carved: referenced and linked items are elsewhere. *)
Lemma add_one_spec H s r n id x :
  inv_raw (Some n) H s -> n ∈ slab_table (info s r) -> id_ok (cfg s) id -> slabs s !! n = Some x ->
  wp (slab_add_one r n id) (fun _ s' => inv H s' /\ keeps s s' /\
    exists p a, classes s' r !! id = Some p /\ free_item p = Some a) s.
Proof.
  intros HI Hin Hid Hx.
  destruct (proj1 (v_cls _ _ _ _ _ _ _ _ _ _ HI r id) Hid) as (p & Hp & Hsz & Hni).
  pose proof (raw_not_held H s n HI) as Hnh.
  destruct (v_raw _ _ _ _ _ _ _ _ _ _ HI n eq_refl) as [Hraw _].
  assert (forall a it, heap s !! a = Some it -> 0 < i_refcount it \/ item_is_linked it = true -> a.1 <> n) as Hel.
  { intros a it Ha Hr Hn. destruct (Hraw a Hn) as (y & Hy & ? & ? & _); [eauto|]. simplify_eq.
    destruct Hr; [lia|congruence]. }
  unfold slab_add_one. wp_go. unfold slab_lruq_append. wp_go.
  split_and!.
  - exact (INV_carve H _ _ _ _ _ _ _ _ n r id p x HI Hin Hp Hx Hnh).
  - split; [split; try done|..]; simpl.
    + intros r0 m Hm. unfold insert, fn_insert. case_decide; by subst.
    + intros r0. unfold insert, fn_insert. case_decide; by subst.
    + intros a it Ha Hr. rewrite Hsz, Hni, carve_lookup, decide_False; [done|]. eapply Hel; eauto.
    + intros a it Ha Hl. rewrite Hsz, Hni, carve_lookup in Ha. case_decide; [|done].
      case_decide; [|done]. by simplify_eq.
  - exists (set_free_item (nitem p) (Some (n, SLAB_HDR_SIZE)) p), (n, SLAB_HDR_SIZE). split; [|done].
    change (push_c (classes s) r id (set_free_item (nitem p) (Some (n, SLAB_HDR_SIZE)) p) r !! id = Some
      (set_free_item (nitem p) (Some (n, SLAB_HDR_SIZE)) p)). rewrite push_c_lookup. by rewrite decide_True.
Qed.

(** The class has a current slab, or memory is exhausted. *)
Definition stocked H s (r : bool) (id : Z) (status : rstatus) s' : Prop :=
  inv H s' /\ keeps s s' /\
  (status = MC_OK -> exists p a, classes s' r !! id = Some p /\ free_item p = Some a) /\
  (status <> MC_OK -> heap s' = heap s /\ info s' = info s /\
    (evict_opt (cfg s) = 0 \/ 0 < nslab (info s r))).

Lemma slab_use_spec H s s1 r id o :
  id_ok (cfg s) id -> got H s r o s1 ->
  (o = None -> evict_opt (cfg s) = 0 \/ 0 < nslab (info s r)) ->
  wp (slab_use r id o) (stocked H s r id) s1.
Proof.
  intros Hid [K G] Hn. unfold slab_use. wp_go. destruct o as [n|]; wp_go.
  - destruct G as (HI & Hin & [x Hx]). eapply wp_mono.
    { apply (add_one_spec H _ r n id x); [exact HI|exact Hin| |exact Hx]. simpl. by rewrite (k_cfg _ _ K). }
    intros _ s2 (HI2 & K2 & Hp). wp_go. split; [done|]. split; [|done].
    transitivity s1; [done|]. recast K2.
  - destruct G as (HI & Hh & Hi). split; [exact HI|]. split; [recast K|]. split; [done|]. intros _.
    split_and!; [done|done|]. by apply Hn.
Qed.

Lemma got_trans H s s1 r o s2 :
  keeps s s1 -> heap s1 = heap s -> info s1 = info s -> got H s1 r o s2 -> got H s r o s2.
Proof.
  intros K Hh Hi [K2 G]. split; [by transitivity s1|]. destruct o; [done|]. destruct G as (? & ? & ?).
  split_and!; [done|congruence|congruence].
Qed.

(** Trying again when nothing was found. *)
Lemma got_or H s s1 r o (b : bool) m :
  got H s r o s1 -> (b = true -> inv H s1 -> info s1 = info s -> o = None -> wp m (got H s1 r) s1) ->
  wp (match o with None => if b then m else mret None | Some n => mret (Some n) end)
    (fun o' s2 => got H s r o' s2 /\ (o' = None -> o = None)) s1.
Proof.
  intros G Hm. destruct o as [n|]; [by apply wp_ret|]. destruct b; [|by apply wp_ret].
  destruct G as (K & HI & Hh & Hinf). eapply wp_mono; [by apply Hm|]. intros o' s2 G'.
  split; [|done]. by apply (got_trans H s s1).
Qed.

Lemma slab_get_spec H s r id :
  inv H s -> id_ok (cfg s) id -> evict_safe s r -> wp (slab_get r id) (stocked H s r id) s.
Proof.
  intros HI Hid Hsafe. unfold slab_get. wp_go.
  match goal with |- wp _ _ ?x => set (s0 := x) end.
  assert (inv H s0 /\ keeps s s0) as [HI0 K0] by (split; [exact HI|auto with mc]).
  eapply wp_mono; [by apply (get_new_spec H s0)|]. intros o s1 [G Hnone]. wp_go.
  assert (cfg s1 = cfg s) as Hc1 by (rewrite (k_cfg _ _ (proj1 G)); done). rewrite Hc1.
  assert (got H s r o s1) as G1 by by apply (got_trans H s s0).
  eapply wp_mono; [apply (got_or H s); [done|]; intros _ HI1 _ _; by apply evict_lru_spec|].
  intros o2 s2 [G2 Hn2]. wp_go.
  assert (o2 = None -> evict_opt (cfg s) = 0 \/ 0 < nslab (info s r)) as Hpos.
  { intros ->. destruct Hsafe as [He|[Hn|[Hp Hm]]]; [by left|by right|]. right.
    destruct (proj1 (v_info _ _ _ _ _ _ _ _ _ _ HI) r) as (N & _).
    destruct (decide (nslab (info s r) = 0)) as [Hz|]; [|lia]. exfalso.
    specialize (Hnone (Hn2 eq_refl)). simpl in Hnone. rewrite Hp in Hnone. discriminate Hnone. lia. }
  eapply wp_mono; [apply (got_or H s); [done|]; intros Hrs HI2 Hi2 ->; apply evict_rand_spec; [done|]|].
  - rewrite Hi2. destruct (Hpos eq_refl) as [He|]; [by rewrite He in Hrs|done].
  - intros o3 s3 [G3 Hn3]. apply slab_use_spec; [done|done|]. intros ->.
    by apply Hpos, Hn3.
Qed.

Lemma slab_get_evict_spec H s r id :
  inv H s -> id_ok (cfg s) id -> 0 < nslab (info s r) -> wp (slab_get_evict r id) (stocked H s r id) s.
Proof.
  intros HI Hid Hn. unfold slab_get_evict. wp_go.
  match goal with |- wp _ _ ?x => set (s0 := x) end.
  assert (inv H s0 /\ keeps s s0) as [HI0 K0] by (split; [exact HI|auto with mc]).
  eapply wp_mono; [by apply (evict_rand_spec H s0)|]. intros o s1 G.
  apply slab_use_spec; [done|by apply (got_trans H s s0)|]. by right.
Qed.

(** ** Chunks *)

(** A chunk of the class nobody uses or will be given. *)
Definition avail s (r : bool) (id : Z) a : Prop :=
  exists it, heap s !! a = Some it /\ i_id it = id /\ i_refcount it = 0 /\ item_is_linked it = false /\
    item_is_slabbed it = false /\ not_cur (cfg s) (classes s) a /\ a.1 ∈ slab_table (info s r).

Definition given H s (r : bool) (id : Z) (o : option addr) s' : Prop :=
  inv H s' /\ keeps s s' /\ (forall a, o = Some a -> avail s' r id a) /\
  (o = None -> heap s' = heap s /\ info s' = info s /\
    (evict_opt (cfg s) = 0 \/ 0 < nslab (info s r))).

Lemma take_spec H s r id p a :
  inv H s -> classes s r !! id = Some p -> free_item p = Some a ->
  wp (slab_take r id) (fun o s' => o = Some a /\ given H s r id o s') s.
Proof.
  intros HI Hp Ha. unfold slab_take. wp_go. eapply wp_lift; [done|]. wp_go.
  destruct (INV_take H _ _ _ _ _ _ _ _ r id p a HI Hp Ha) as (HI' & (it & Hit & Hx) & Hnc & Hin).
  split; [done|]. split; [exact HI'|]. split; [auto with mc|]. split; [|done]. intros b [= <-]. exists it.
  destruct Hx as (? & ? & ? & ?). done.
Qed.

Lemma freeq_spec H s r id :
  inv H s -> id_ok (cfg s) id ->
  wp (_slab_get_item_from_freeq r id)
    (fun o s' => match o with Some _ => given H s r id o s' | None => s' = s end) s.
Proof.
  intros HI Hid. unfold _slab_get_item_from_freeq. wp_go. destruct (use_freeq (cfg s)); simpl; [|by apply wp_ret].
  destruct (inv_class H s HI r id Hid) as (p & Hp & _). wp_go.
  destruct (proj1 (v_free _ _ _ _ _ _ _ _ _ _ HI) r id p Hp) as (Hnd & Hl & Hq).
  destruct (Z.eqb_spec (nfree_itemq p) 0) as [|Hne]; [by apply wp_ret|].
  destruct (free_itemq p) as [|a q] eqn:Eq; [simpl in Hl; lia|]. wp_go. eapply wp_lift; [done|].
  destruct (Hq a ltac:(by left)) as (it & Hit & Hs & Hid' & Hin). wp_go.
  eapply wp_lift; [unfold tailq_remove; rewrite decide_True; [done|by left]|]. wp_go.
  rewrite <-Hid' in Hp. assert (a ∈ free_itemq p) as Hap by (rewrite Eq; by left).
  destruct (INV_unfree H _ _ _ _ _ _ _ _ a it r p HI Hit Hp Hap) as (HI' & Hr' & Hl' & Hs' & Hnc & _).
  destruct (proj2 (v_free _ _ _ _ _ _ _ _ _ _ HI) a it Hit Hs) as (_ & Hr & _).
  rewrite Eq, Hid' in HI'. split; [exact HI'|]. split; [by eapply (keeps_one a it)|]. split; [|done].
  intros b [= <-]. eexists. simpl. rewrite lookup_insert_eq. do 5 (split; [done|]). split; [|done].
  intros r' id' p' b k j Hp' Hb Hbk Hnf Hj.
  change (push_c (classes s) r id (set_free_itemq (u32 (nfree_itemq p - 1)) (remove1 a (a :: q)) p) r' !! id' = Some p') in Hp'.
  apply push_c_Some in Hp' as [(<- & <- & ->)|[_ Hp']]; [|by apply (Hnc r' id' p' b k j)].
  apply (Hnc r id p b k j); try done. by rewrite <-Hid'.
Qed.

Lemma given_trans H s s1 r id a s2 :
  keeps s s1 -> given H s1 r id (Some a) s2 -> given H s r id (Some a) s2.
Proof. intros K (HI & K2 & Ha & _). split; [done|]. split; [by transitivity s1|done]. Qed.

(** After a slab was asked for. *)
Lemma take_stocked H s r id status s1 :
  stocked H s r id status s1 ->
  wp (if bool_decide (status = MC_OK) then slab_take r id else mret None) (given H s r id) s1.
Proof.
  intros (HI & K & Hok & Hno). case_bool_decide as Hs.
  - destruct (Hok Hs) as (p & a & Hp & Ha). eapply wp_mono; [by apply (take_spec H s1 r id p a)|].
    intros o s2 [-> G]. by apply (given_trans H s s1).
  - apply wp_ret. split; [done|]. split; [done|]. split; [done|]. intros _. by apply Hno.
Qed.

Lemma get_item_spec H s r id :
  inv H s -> id_ok (cfg s) id -> evict_safe s r -> wp (_slab_get_item r id) (given H s r id) s.
Proof.
  intros HI Hid Hsafe. unfold _slab_get_item. apply wp_bind.
  eapply wp_mono; [by apply (freeq_spec H s)|]. intros [a|] s' G; [by apply wp_ret|].
  subst s'. destruct (inv_class H s HI r id Hid) as (p & Hp & _). wp_go.
  eapply wp_mono; [|intros status s1; apply take_stocked].
  destruct (free_item p) as [a|] eqn:Ef; [|by apply slab_get_spec].
  apply wp_ret. split; [done|]. split; [done|]. split; [eauto|done].
Qed.

Lemma get_item_by_evict_spec H s r id :
  inv H s -> id_ok (cfg s) id -> 0 < nslab (info s r) ->
  wp (_slab_get_item_by_evict_slab r id) (given H s r id) s.
Proof.
  intros HI Hid Hn. unfold _slab_get_item_by_evict_slab.
  destruct (inv_class H s HI r id Hid) as (p & Hp & _). wp_go.
  eapply wp_mono; [|intros status s1; apply take_stocked].
  destruct (free_item p) as [a|] eqn:Ef; [|by apply slab_get_evict_spec].
  apply wp_ret. split; [done|]. split; [done|]. split; [eauto|done].
Qed.

(** Under the slab lock. *)
Lemma unlock_spec H s r id o s' :
  given H (set_slab_lock true s) r id o s' -> slab_lock s = false ->
  wp (unlock_slab;; mret o) (given H s r id) s'.
Proof.
  intros (HI & K & Ha & Hn) Hl. apply wp_bind, wp_unlock_slab; [by rewrite (k_slab_lock _ _ K)|].
  apply wp_ret. split; [exact HI|]. split; [recast K|done].
Qed.

Lemma locked_spec H s r id m :
  slab_lock s = false ->
  wp m (given H (set_slab_lock true s) r id) (set_slab_lock true s) ->
  wp (lock_slab;; o ← m; unlock_slab;; mret o) (given H s r id) s.
Proof.
  intros Hl Hm. apply wp_bind, wp_lock_slab; [done|]. apply wp_bind. eapply wp_mono; [exact Hm|].
  intros o s' G. by apply unlock_spec.
Qed.

(** ** Giving a chunk back *)

Definition slabbed it : item := set_flags (set_bit (i_flags it) ITEM_SLABBED) it.

Lemma put_spec H s r a it :
  inv H s -> heap s !! a = Some it -> item_is_linked it = false -> item_is_slabbed it = false ->
  i_refcount it = 0 -> not_cur (cfg s) (classes s) a -> a.1 ∈ slab_table (info s r) ->
  wp (slab_put_item_into_freeq r a) (fun _ s' => inv H s' /\ exists es cl,
    s' = set_events es (set_classes cl (set_heap (<[a := slabbed it]> (heap s)) s))) s.
Proof.
  intros HI Ha Hl Hs Hr Hnc Hin. unfold slab_put_item_into_freeq. wp_go.
  destruct (inv_item_slab H s HI a it Ha) as (_ & _ & _ & _ & Hid & _).
  destruct (inv_class H s HI r (i_id it) Hid) as (p & Hp & _). wp_go. split.
  - exact (INV_free H _ _ _ _ _ _ _ _ a it r p HI Ha Hl Hs Hr Hnc Hin Hp).
  - eexists _, _. reflexivity.
Qed.

(** ** The queue of slabs *)

Lemma touch_spec H s n allocated r :
  inv H s -> slab_lock s = false -> lra_off (cfg s) = true \/ n ∈ slab_table (info s r) ->
  wp (_slab_lruq_touch n allocated r) (fun _ s' => inv H s' /\ exists sls inf,
    s' = set_slab_lock false (set_info inf (set_slabs sls s)) /\ grows (info s) inf /\
    forall r, max_nslab (inf r) = max_nslab (info s r)) s.
Proof.
  intros HI Hlk Hn. unfold _slab_lruq_touch. wp_go.
  assert (inv H s /\ exists sls inf, s = set_slab_lock false (set_info inf (set_slabs sls s)) /\
    grows (info s) inf /\ forall r, max_nslab (inf r) = max_nslab (info s r)) as Hsame.
  { split; [done|]. exists (slabs s), (info s). split_and!; [|done|done]. rewrite <-Hlk. by destruct s. }
  destruct (negb (allocated && has (evict_opt (cfg s)) EVICT_CS) && negb (has (evict_opt (cfg s)) EVICT_AS)) eqn:Eo;
    [by apply wp_ret|].
  assert (n ∈ slab_table (info s r)) as Hin.
  { destruct Hn as [Hn|]; [|done]. unfold lra_off in Hn. apply andb_true_iff in Hn as [H1 H2].
    apply negb_true_iff in H1. rewrite H1, H2, andb_false_r in Eo. done. }
  pose proof (v_info _ _ _ _ _ _ _ _ _ _ HI) as (I1 & _).
  destruct (I1 r) as (_ & _ & _ & _ & Nl & Ns). destruct (Ns n Hin) as [x Hx]. wp_go.
  destruct (u32 (time_now (clk s) - SLAB_LRU_UPDATE_INTERVAL) <=? sl_utime x); [by apply wp_ret|].
  apply wp_bind, wp_lock_slab; [done|]. unfold _slab_unlink_lruq, _slab_link_lruq, slab_lruq_remove, slab_lruq_append.
  wp_go. eapply wp_lift; [unfold tailq_remove; rewrite decide_True; [done|]; by apply Nl|]. wp_go.
  eapply wp_unlock_slab; [done|].
  match goal with |- context [set_slab_lock false ?x] => set (s1 := x) end.
  assert (forall r0, info s1 r0 = push_i (info s) r (set_slab_lruq (remove1 n (slab_lruq (info s r)) ++ [n]) (info s r)) r0) as Hinf.
  { intros r0. unfold s1. simpl. rewrite fn_lookup_insert. unfold push_i, insert, fn_insert. by case_decide. }
  split.
  - apply (INV_info_ext None H (cfg s) _ _ _ _ _ _ _ _ Hinf). exact (INV_touch H _ _ _ _ _ _ _ _ r n x _ HI Hin Hx).
  - exists (slabs s1), (info s1). split_and!; [done| |]; intros r0; rewrite Hinf, push_i_lookup; case_decide; by subst.
Qed.

(** ** The class of a size *)

Section slab_id.
Context (c : settings) (cl : bool -> gmap Z slabclass) (Hc : cfg_ok c) (Hcl : P_cls c cl) (r : bool) (sz : Z).

(** The smallest class that fits lies between the bounds. *)
Lemma slab_id_loop_spec fuel : forall imin imax,
  1 <= imin <= imax + 1 -> 0 <= imax <= profile_last_id c -> imax - imin + 1 < Z.of_nat fuel ->
  (forall j, 1 <= j < imin -> psize c j < sz) ->
  (imax < profile_last_id c -> 1 <= imax /\ sz <= psize c imax) ->
  exists id, slab_id_loop fuel (cl r) sz imin imax = Some id /\
    ((id_ok c id /\ sz <= psize c id /\ forall j, 1 <= j < id -> psize c j < sz) \/
     (id = SLABCLASS_INVALID_ID /\ forall j, id_ok c j -> psize c j < sz)).
Proof using Hc Hcl.
  pose proof (ok_last c Hc) as Hlast. unfold SLABCLASS_MIN_ID, SLABCLASS_MAX_ID in Hlast.
  induction fuel as [|fuel IH]; intros imin imax H1 H2 Hf Hlo Hhi; [lia|]. cbn [slab_id_loop].
  destruct (Z.leb_spec imin imax) as [Hle|Hgt].
  2: { exists SLABCLASS_INVALID_ID. split; [done|]. right. split; [done|].
       intros j [Hj1 Hj2]. unfold SLABCLASS_MIN_ID in *. destruct (decide (imax < profile_last_id c)) as [Hl|Hl].
       - destruct (Hhi Hl) as [? Hs]. specialize (Hlo imax ltac:(lia)). lia.
       - apply Hlo. lia. }
  set (id := (imin + imax) / 2). assert (imin <= id <= imax) as Hid.
  { unfold id. split; [apply Z.div_le_lower_bound|apply Z.div_le_upper_bound]; lia. }
  destruct (proj1 (Hcl r id)) as (p & Hp & Hps & _); [unfold id_ok, SLABCLASS_MIN_ID; lia|].
  rewrite Hp. cbn [mbind option_bind]. rewrite Hps. destruct (Z.ltb_spec (psize c id) sz) as [Hlt|Hge].
  - rewrite u8_small by lia. apply IH; try lia. intros j Hj.
    destruct (decide (j = id)) as [->|]; [done|].
    assert (psize c j < psize c id); [|lia]. apply (ok_incr c Hc); unfold SLABCLASS_MIN_ID; lia.
  - unfold SLABCLASS_MIN_ID at 1. destruct (Z.ltb_spec 1 id) as [H1id|H1id].
    + destruct (proj1 (Hcl r (id - 1))) as (p' & Hp' & Hps' & _); [unfold id_ok, SLABCLASS_MIN_ID; lia|].
      rewrite Hp'. cbn [mbind option_bind]. rewrite Hps'. destruct (Z.leb_spec sz (psize c (id - 1))) as [Hle'|Hgt'].
      * rewrite u8_small by lia. apply IH; lia || done.
      * exists id. split; [done|]. left. split; [unfold id_ok, SLABCLASS_MIN_ID; lia|]. split; [lia|].
        intros j Hj. destruct (decide (j = id - 1)) as [->|]; [lia|].
        assert (psize c j < psize c (id - 1)); [|lia]. apply (ok_incr c Hc); unfold SLABCLASS_MIN_ID; lia.
    + exists id. split; [done|]. left. split; [unfold id_ok, SLABCLASS_MIN_ID; lia|]. split; [lia|]. intros j Hj. lia.
Qed.

Lemma slab_id_spec : exists id, slab_id_ (cl r) (profile_last_id c) sz = Some id /\
  ((id_ok c id /\ sz <= psize c id /\ forall j, 1 <= j < id -> psize c j < sz) \/
   (id = SLABCLASS_INVALID_ID /\ forall j, id_ok c j -> psize c j < sz)).
Proof using Hc Hcl.
  pose proof (ok_last c Hc) as Hlast. unfold SLABCLASS_MIN_ID, SLABCLASS_MAX_ID in Hlast.
  apply slab_id_loop_spec; unfold SLABCLASS_MIN_ID; try lia.
Qed.
End slab_id.
