(* ===== verification/ItemsOk.v ===== *)
(** * Correctness of the item module

    Allocation, linking, unlinking, release and lookup re-establish the
    invariant, and what each does to the items is stated exactly: allocation
    never touches a referenced item, the others change one item only. *)

From stdpp Require Import functions.
From S2P Require Import Prelude Util Hash Time Lease Assoc Item State Slabs Items Inv SlabsOk.
Open Scope Z_scope.
Implicit Types (a b : addr) (n : nat) (it : item) (s : st).

(** ** Choosing an item to reuse *)

Lemma lruq_scan_spec s l tries :
  (forall a, a ∈ l -> is_Some (heap s !! a)) ->
  wp (lruq_scan tries l) (fun o s' => s' = s /\ forall a, o = Some a ->
    a ∈ l /\ exists it, heap s !! a = Some it /\ i_refcount it = 0) s.
Proof.
  revert l. induction tries as [|tries IH]; intros [|a l] Hl; cbn [lruq_scan]; try (by apply wp_ret).
  destruct (Hl a ltac:(by left)) as [it Hit]. wp_go. destruct (Z.eqb_spec (i_refcount it) 0); simpl.
  - destruct (item_expired _ _); apply wp_ret; (split; [done|]); intros b [= <-]; (split; [by left|eauto]).
  - eapply wp_mono; [apply IH; intros b Hb; apply Hl; by right|]. intros o s' [-> Ho]. split; [done|].
    intros b Hb. destruct (Ho b Hb). split; [by right|done].
Qed.

(** An unreferenced item of the class, found by an lru scan. *)
Definition idle_item s (r : bool) (id : Z) (o : option addr) : Prop :=
  forall a, o = Some a -> r = false /\ exists it, heap s !! a = Some it /\ item_is_linked it = true /\
    i_refcount it = 0 /\ i_id it = id /\ a.1 ∈ slab_table (info s false).

(** The item found is unreferenced, so it is no lease. *)
Lemma get_from_lruq_spec H s r id :
  inv H s -> id_ok (cfg s) id ->
  wp (item_get_from_lruq r id) (fun o s' => s' = s /\ idle_item s r id o) s.
Proof.
  intros HI Hid. unfold item_get_from_lruq. wp_go. destruct (use_lruq (cfg s)); simpl; [|by apply wp_ret].
  destruct (v_lru _ _ _ _ _ _ _ _ _ _ HI r id) as (l & Hq & _ & Hl).
  { pose proof (ok_last _ (inv_cfg H s HI)). unfold id_ok in Hid. lia. }
  wp_go. eapply wp_mono; [apply (lruq_scan_spec s l ITEM_LRUQ_MAX_TRIES); intros a Ha; apply Hl in Ha as (it & ? & _); eauto|].
  intros o s' [-> Ho]. split; [done|]. intros a Ha. destruct (Ho a Ha) as [Hal (it & Hit & Hr)].
  apply Hl in Hal as (it' & Hit' & Hlk & Hlh & Hi). assert (it' = it) as -> by congruence.
  destruct (v_home _ _ _ _ _ _ _ _ _ _ HI a it Hit Hlk) as (Hh & _ & Hz). rewrite (Hz Hr) in Hh.
  split; [|by exists it]. destruct r; [|done]. pose proof (held_nonneg a H).
  assert (item_is_pinned_kind it = true) as Hp by (unfold item_is_pinned_kind; by rewrite Hlh).
  pose proof (inv_pinned H s HI a it Hit Hlk Hp). lia.
Qed.

(** A reused item is an available chunk. *)
Lemma reuse_avail H s a it es t' l q :
  inv H s -> heap s !! a = Some it -> item_is_linked it = true -> i_refcount it = 0 ->
  a.1 ∈ slab_table (info s false) ->
  let s' := set_events es (set_lruqs (push_q (lruqs s) q (i_id it) l) (set_tbl t' (set_heap (<[a := unlinked it]> (heap s)) s))) in
  keeps s s' /\ avail s' false (i_id it) a.
Proof.
  intros HI Ha Hl Hr Hin s'. destruct (unlinked_flags it) as (Hu1 & Hu2 & _).
  destruct (inv_taken H s HI a it Ha ltac:(by left)) as [Hns _]. split.
  - by apply (keeps_one a it (unlinked it)).
  - exists (unlinked it). simpl. rewrite lookup_insert_eq, Hu2. do 5 (split; [done|]). split; [|done].
    eapply taken_not_cur; [apply (v_cur _ _ _ _ _ _ _ _ _ _ HI)|done|]. split; [done|by left].
Qed.

Lemma record_expired_spec it (R : unit -> st -> Prop) s :
  (forall es, R tt (set_events es s)) -> wp (record_expired_lease it) R s.
Proof.
  intros HR. assert (R tt s) as HR0 by (specialize (HR (events s)); by destruct s).
  unfold record_expired_lease. destruct (item_has_i_lease it); [wp_go; apply HR|].
  destruct (item_has_q_inv_lease it || item_has_q_ref_lease it || item_has_q_incr_lease it); [wp_go; apply HR|].
  destruct (item_has_co_lease it); [|by apply wp_ret]. wp_go.
  destruct (item_has_c_lease it); [wp_go; apply HR|]. destruct (item_has_o_lease it); wp_go; apply HR.
Qed.

(** ** Allocation *)

(** What allocation in a pool needs: the lock, and a slab to evict should it
    come to that.  Leases have a pool of their own. *)
Record alloc_ok s (r : bool) : Prop := AllocOk {
  al_lock : slab_lock s = false;
  al_evict : evict_safe s r;
  al_pool : r = true -> slab_has_reserved_slabs (cfg s) = true
}.

Lemma alloc_ok_frame H H' s s' r : inv H s -> inv H' s' -> frame s s' -> alloc_ok s r -> alloc_ok s' r.
Proof.
  intros HI HI' F [A1 A2 A3]. split.
  - by rewrite (k_slab_lock _ _ F).
  - by apply (evict_safe_frame H H' s s').
  - by rewrite (k_cfg _ _ F).
Qed.

Lemma alloc_ok_keeps H H' s s' r : inv H s -> inv H' s' -> keeps s s' -> alloc_ok s r -> alloc_ok s' r.
Proof. intros HI HI' K. by apply (alloc_ok_frame H H'); [..|apply K]. Qed.

Lemma slab_item_spec H s r id :
  inv H s -> id_ok (cfg s) id -> alloc_ok s r ->
  wp (if r then slab_get_reserved_item id true else slab_get_item id) (given H s r id) s.
Proof.
  intros HI Hid [A1 A2 A3].
  assert (wp (_slab_get_item r id) (given H (set_slab_lock true s) r id) (set_slab_lock true s)) as Hw
    by by apply (get_item_spec H (set_slab_lock true s)).
  destruct r; [|by apply locked_spec]. unfold slab_get_reserved_item. apply wp_bind.
  change (wp lock_slab (fun _ s1 => wp (c ← gets cfg; o ← _slab_get_item (slab_has_reserved_slabs c) id;
    unlock_slab;; mret o) (given H s true id) s1) s).
  apply wp_lock_slab; [done|]. wp_go. change (cfg (set_slab_lock true s)) with (cfg s). rewrite A3 by done.
  eapply wp_mono; [exact Hw|]. intros o s' G. by apply unlock_spec.
Qed.

Lemma slab_evict_item_spec H s r id :
  inv H s -> id_ok (cfg s) id -> slab_lock s = false -> 0 < nslab (info s r) ->
  wp (if r then slab_get_item_by_evict_reserved_slab id else slab_get_item_by_evict_slab id) (given H s r id) s.
Proof.
  intros HI Hid Hl Hn. destruct r; apply locked_spec; try done;
    by apply (get_item_by_evict_spec H (set_slab_lock true s)).
Qed.

Definition found H s (r : bool) (id : Z) (o : option addr) s' : Prop :=
  inv H s' /\ keeps s s' /\ forall a, o = Some a -> avail s' r id a.

Lemma found_trans H s s1 r id o s2 : keeps s s1 -> found H s1 r id o s2 -> found H s r id o s2.
Proof. intros K (HI & K2 & Ha). split; [done|]. split; [by transitivity s1|done]. Qed.

(** Reusing the item an lru scan found. *)
Lemma reuse_found H s a it :
  inv H s -> heap s !! a = Some it -> item_is_linked it = true -> i_refcount it = 0 ->
  a.1 ∈ slab_table (info s false) ->
  wp (item_reuse a) (fun _ => found H s false (i_id it) (Some a)) s.
Proof.
  intros HI Ha Hl Hr Hin. eapply wp_mono; [by apply (reuse_spec H s a it)|].
  intros _ s' [HI' (es & t' & l & ->)]. split; [done|].
  destruct (reuse_avail H s a it es t' l (item_is_lease_holder it) HI Ha Hl Hr Hin). split; [done|].
  by intros b [= <-].
Qed.

Lemma given_found H s r id o s' : given H s r id o s' -> found H s r id o s'.
Proof. by intros (? & ? & ? & _). Qed.

Lemma reuse_events H s s1 a it es :
  inv H s1 -> keeps s s1 -> heap s1 !! a = Some it -> item_is_linked it = true -> i_refcount it = 0 ->
  a.1 ∈ slab_table (info s1 false) ->
  wp (item_reuse a) (fun _ => found H s false (i_id it) (Some a)) (set_events es s1).
Proof.
  intros HI K Ha Hl Hr Hin. eapply wp_mono; [by apply (reuse_found H (set_events es s1) a it)|].
  intros u s2. apply found_trans. transitivity s1; [done|auto with mc].
Qed.

Lemma item_take_slab_spec H s r id t uit :
  inv H s -> id_ok (cfg s) id -> alloc_ok s r -> idle_item s r id uit ->
  wp (item_take_slab id true r t (evict_opt (cfg s)) uit) (found H s r id) s.
Proof.
  intros HI Hid Hal Hu. unfold item_take_slab. apply wp_bind.
  eapply wp_mono; [by apply (slab_item_spec H s)|]. intros [a|] s1 G.
  { apply wp_ret. by apply given_found. }
  destruct G as (HI1 & K1 & _ & Hno). destruct (Hno eq_refl) as (Hh & Hi & He).
  destruct uit as [a|]; wp_go.
  - destruct (Hu a eq_refl) as (-> & it & Hit & Hl & Hr & <- & Hin).
    apply (reuse_events H s s1 a it); rewrite ?Hh, ?Hi; done.
  - destruct (Z.eqb_spec (evict_opt (cfg s)) 0) as [Hz|Hz]; [by apply wp_ret|]. apply wp_bind.
    eapply wp_mono; [apply (slab_evict_item_spec H s1 r id HI1)|].
    + by rewrite (k_cfg _ _ K1).
    + rewrite (k_slab_lock _ _ K1). apply Hal.
    + rewrite Hi. by destruct He.
    + intros o s2 G2. apply given_found in G2. apply (found_trans H s s1) in G2; [|done].
      destruct o as [a|]; wp_go; [done|]. destruct G2 as (HI2 & K2 & _). split; [exact HI2|]. split; [|done]. recast K2.
Qed.

Lemma item_take_spec H s r id :
  inv H s -> id_ok (cfg s) id -> alloc_ok s r -> wp (item_take id true r) (found H s r id) s.
Proof.
  intros HI Hid Hal. unfold item_take. apply wp_bind.
  eapply wp_mono; [by apply (get_from_lruq_spec H s)|]. intros o s' [-> Ho]. wp_go.
  assert (idle_item s r id (if has (evict_opt (cfg s)) EVICT_LRU then o else None)) as Hu by by destruct (has _ _).
  destruct o as [a|]; wp_go; [|by apply item_take_slab_spec].
  destruct (Ho a eq_refl) as (-> & it & Hit & Hl & Hr & Hi & Hin). wp_go.
  destruct (item_expired _ it); wp_go.
  - apply record_expired_spec. intros es. rewrite <-Hi. wp_go. by apply (reuse_events H s s a it es).
  - by apply item_take_slab_spec.
Qed.

(** An item just allocated: its key is written, its value is not. *)
Definition blank (c : settings) a (id : Z) (key : list Z) (dataflags exptime nbyte conf atime : Z) : item :=
  Item atime exptime nbyte a.2 dataflags 1 (if use_cas c then ITEM_CAS else 0) 0 0 id
    (Z.of_nat (length key)) ALIVE conf 0 key
    (replicate (Z.to_nat (payload_size (psize c id) (Z.of_nat (length key)) (use_cas c))) None).

Lemma item_fill_spec c a it id key dataflags exptime nbyte conf :
  i_id it = id -> i_offset it = a.2 -> i_refcount it = 1 -> Z.of_nat (length key) < 256 ->
  0 <= payload_size (psize c id) (Z.of_nat (length key)) (use_cas c) ->
  item_fill (use_cas c) (psize c id) key dataflags exptime nbyte conf it =
    Some (blank c a id key dataflags exptime nbyte conf (i_atime it)).
Proof.
  intros <- Ho Hr Hk Hp. unfold item_fill, blank. rewrite u8_small by lia.
  rewrite (proj2 (Z.ltb_ge _ _)) by lia. rewrite Ho, Hr, Nat2Z.id, take_ge by lia. done.
Qed.

Lemma blank_flags c a id key dataflags exptime nbyte conf atime :
  let it := blank c a id key dataflags exptime nbyte conf atime in
  item_is_linked it = false /\ item_is_slabbed it = false /\ item_is_raligned it = false /\
  item_has_cas it = use_cas c /\ item_is_lease_holder it = false /\ item_has_co_lease it = false /\
  item_is_sess it = false /\ item_is_pinned_kind it = false.
Proof. simpl. unfold item_has_cas, blank. simpl. destruct (use_cas c); done. Qed.

(** What allocation promises. *)
Definition alloced H s (r : bool) (id : Z) (key : list Z) (dataflags exptime nbyte conf : Z)
    (o : option addr) s' : Prop :=
  keeps s s' /\
  match o with
  | None => inv H s'
  | Some a => inv (a :: H) s' /\ a ∉ H /\ a.1 ∈ slab_table (info s' r) /\
      (forall it, heap s !! a = Some it -> i_refcount it = 0) /\
      exists atime, heap s' !! a = Some (blank (cfg s) a id key dataflags exptime nbyte conf atime)
  end.

Lemma alloc_spec H s r id key dataflags exptime nbyte conf :
  inv H s -> Z.of_nat (length H) <= MAX_HELD -> id_ok (cfg s) id -> alloc_ok s r ->
  Z.of_nat (length key) < 256 -> 0 <= nbyte < 2 ^ 32 ->
  0 <= payload_size (psize (cfg s) id) (Z.of_nat (length key)) (use_cas (cfg s)) ->
  wp (_item_alloc_config id key dataflags exptime nbyte true r conf)
    (alloced H s r id key dataflags exptime nbyte conf) s.
Proof.
  intros HI HH Hid Hal Hk Hb Hp. unfold _item_alloc_config. apply wp_bind.
  eapply wp_mono; [by apply (item_take_spec H s)|]. intros [a|] s1 (HI1 & K1 & Ha); [|by apply wp_ret].
  destruct (Ha a eq_refl) as (it & Hit & Hi & Hr & Hl & Hs & Hnc & Hin).
  assert (forall x, heap s !! a = Some x -> i_refcount x = 0) as Hold.
  { intros x Hx. destruct (inv_held H s HI a x Hx) as [_ Hge].
    destruct (decide (0 < i_refcount x)) as [Hpos|]; [|lia].
    pose proof (k_ref _ _ K1 a x Hx Hpos). simplify_eq. lia. }
  assert (a ∉ H) as Hnh.
  { intros Hin'. destruct (inv_held_item H s HI a Hin') as (x & Hx & Hpos). rewrite (Hold x Hx) in Hpos. lia. }
  apply wp_bind. eapply wp_mono; [apply (acquire_spec H s1 HI1 HH a it Hit); split; auto|].
  intros _ s2 (HI2 & x & Hx & ->). apply wp_bind.
  eapply wp_get_item; [apply lookup_insert_eq|]. wp_go. unfold slab_item_size. simpl cfg.
  destruct (inv_class H s1 HI1 false id) as (p & Hcl & Hcs & _); [by rewrite (k_cfg _ _ K1)|].
  rewrite Hr. rewrite <-Hi in Hcl. wp_go.
  destruct (inv_item_slab H s1 HI1 a it Hit) as (_ & _ & Ho & _).
  rewrite Hcs, (k_cfg _ _ K1). rewrite u32_small by lia.
  eapply wp_lift; [by apply (item_fill_spec _ a)|]. wp_go. simpl i_atime.
  set (it' := blank _ _ _ _ _ _ _ _ _).
  destruct (blank_flags (cfg s) a id key dataflags exptime nbyte conf (i_atime it)) as (B1 & B2 & _).
  change (item_is_linked it' = false) in B1. change (item_is_slabbed it' = false) in B2.
  assert (heap (add_refs 1 a it x s1) !! a = Some (set_refcount (i_refcount it + 1) it)) as Hl2 by apply lookup_insert_eq.
  split; [|split_and!; [|done|exact Hin|done|by exists (i_atime it); apply lookup_insert_eq]].
  - transitivity s1; [done|]. split; [by split| |]; intros b y; simpl; rewrite insert_insert_eq.
    + intros Hby Hy. rewrite lookup_insert_ne; [done|]. intros ->. simplify_eq. lia.
    + intros [[<- ->]|[_ Hby]]%upd_lookup Hly; [|done]. by rewrite B1 in Hly.
  - eapply (INV_inert None (a :: H) _ _ _ _ _ _ _ _ a _ it' HI2 Hl2). split; simpl; try done.
    + by rewrite Hr.
    + change (item_is_linked it' = item_is_linked it). by rewrite Hl.
    + change (item_is_slabbed it' = item_is_slabbed it). by rewrite Hs.
    + change (item_is_linked it = true -> i_key it' = i_key it /\
        item_is_lease_holder it' = item_is_lease_holder it /\ item_is_pinned_kind it' = item_is_pinned_kind it /\
        respool (cfg s1) it' = respool (cfg s1) it /\ layout (cfg s1) it' /\
        (item_is_lease_holder it' = true -> is_Some (item_value it'))). by rewrite Hl.
Qed.

(** ** Steps that change one item *)

(** Only the item at [a] changes, to [it']; what is not an item keeps its frame. *)
Definition only a it' s s' : Prop := frame s s' /\ heap s' = <[a := it']> (heap s).

Lemma only_trans a x y s1 s2 s3 : only a x s1 s2 -> only a y s2 s3 -> only a y s1 s3.
Proof. intros [F1 H1] [F2 H2]. split; [by transitivity s2|]. by rewrite H2, H1, insert_insert_eq. Qed.

Lemma frame_same s s' :
  cfg s' = cfg s -> clk s' = clk s -> lease_token s' = lease_token s -> cache_lock s' = cache_lock s ->
  slab_lock s' = slab_lock s -> info s' = info s -> frame s s'.
Proof. intros ? ? ? ? ? Hi. split; try done; by rewrite Hi. Qed.

#[export] Hint Extern 1 (frame _ _) => (apply frame_same; reflexivity) : mc.

(** The pool an item is freed to has its slab. *)
Definition homed s a it : Prop := a.1 ∈ slab_table (info s (respool (cfg s) it)).

Lemma homed_frame s s' a it it' :
  frame s s' -> respool (cfg s) it' = respool (cfg s) it -> homed s a it -> homed s' a it'.
Proof. intros F Hr Hh. unfold homed. rewrite (k_cfg _ _ F), Hr. by apply (k_grows _ _ F). Qed.

Lemma inv_homed H s a it : inv H s -> heap s !! a = Some it -> item_is_linked it = true -> homed s a it.
Proof. intros HI Ha Hl. by apply (v_home _ _ _ _ _ _ _ _ _ _ HI a it Ha Hl). Qed.

Lemma free_spec H s a it :
  inv H s -> heap s !! a = Some it -> item_is_linked it = false -> item_is_slabbed it = false ->
  i_refcount it = 0 -> not_cur (cfg s) (classes s) a -> homed s a it -> slab_lock s = false ->
  wp (item_free a true) (fun _ s' => inv H s' /\ only a (slabbed it) s s') s.
Proof.
  intros HI Ha Hl Hs Hr Hnc Hh Hlk. unfold item_free. wp_go.
  set (Q := fun (_ : unit) s1 => inv H s1 /\ only a (slabbed it) s s1).
  assert (forall r, a.1 ∈ slab_table (info s r) ->
    wp (slab_put_item_into_freeq r a) (fun _ s1 => wp unlock_slab Q s1) (set_slab_lock true s)) as Hput.
  { intros r Hin. eapply wp_mono; [by apply (put_spec H (set_slab_lock true s) r a it)|].
    intros _ s1 (HI1 & es & cl & ->). apply wp_unlock_slab; [done|]. split; [exact HI1|]. split; [|done].
    apply frame_same; try done. }
  assert (wp (if item_is_lease_holder it || item_has_co_lease it || item_is_sess it
              then slab_put_reserved_item a true else slab_put_item a) Q s) as HQ.
  { unfold homed, respool in Hh. destruct (item_is_lease_holder it || item_has_co_lease it || item_is_sess it).
    - rewrite andb_true_r in Hh. unfold slab_put_reserved_item. apply wp_bind. cbn [when].
      apply wp_lock_slab; [done|]. wp_go. by apply Hput.
    - rewrite andb_false_r in Hh. unfold slab_put_item. apply wp_bind, wp_lock_slab; [done|]. apply wp_bind.
      by apply Hput. }
  eapply wp_mono; [exact HQ|]. clear HQ Hput. intros _ s1 [HI1 O1].
  assert (forall es, inv H (set_events es s1) /\ only a (slabbed it) s (set_events es s1)) as Hev.
  { intros es. split; [exact HI1|]. destruct O1 as [F O]. split; [|exact O]. transitivity s1; [done|auto with mc]. }
  destruct (item_has_q_lease it); wp_go; [apply Hev|].
  destruct (item_has_c_lease it); wp_go; [apply Hev|].
  destruct (item_has_o_lease it); wp_go; apply Hev.
Qed.

(** ** Unlinking *)

Definition pin it : Z := if item_is_pinned_kind it then 1 else 0.

(** What [_item_unlink] leaves of a linked item: without its pin, and on a free
    queue when nobody holds it. *)
Definition gone it : item :=
  let it' := unlinked (set_refcount (i_refcount it - pin it) it) in
  if i_refcount it' =? 0 then slabbed it' else it'.

Lemma add_refs_0 a it x s : heap s !! a = Some it -> slabs s !! a.1 = Some x -> add_refs 0 a it x s = s.
Proof.
  intros Ha Hx. unfold add_refs. rewrite !Z.add_0_r.
  replace (set_refcount (i_refcount it) it) with it by by destruct it.
  replace (set_sl_refcount (sl_refcount x) x) with x by by destruct x.
  rewrite (insert_id (heap s)), (insert_id (slabs s)) by done. by destruct s.
Qed.

Lemma wp_unpin H s a it (R : unit -> st -> Prop) :
  inv H s -> Z.of_nat (length H) <= MAX_HELD -> heap s !! a = Some it -> item_is_linked it = true ->
  (forall x, slabs s !! a.1 = Some x -> R tt (add_refs (- pin it) a it x s)) ->
  wp (when (item_is_pinned_kind it) (item_unset_pinned a)) R s.
Proof.
  intros HI HH Ha Hl HR. destruct (inv_item_slab H s HI a it Ha) as (x & Hx & Ho & _).
  specialize (HR x Hx). unfold pin in HR. destruct (item_is_pinned_kind it) eqn:Ep.
  - pose proof (inv_pinned H s HI a it Ha Hl Ep). destruct (inv_range H s HI a it x Ha Hx HH).
    pose proof (held_nonneg a H). cbn [when]. eapply wp_release; try done; lia.
  - apply wp_ret. by rewrite add_refs_0 in HR.
Qed.

Lemma unlinked_respool c it d : respool c (unlinked (set_refcount d it)) = respool c it.
Proof. unfold respool, unlinked. by flags. Qed.

(** Unlinking an item and taking its pin, in either order. *)
Lemma INV_gone H s a it x t' l :
  let it' := unlinked (set_refcount (i_refcount it - pin it) it) in
  inv H s -> heap s !! a = Some it -> item_is_linked it = true -> slabs s !! a.1 = Some x ->
  Assoc.wf (hkey (<[a := it']> (heap s))) hash_key t' -> contents (tbl s) ≡ₚ a :: contents t' ->
  nhash_item t' = u32 (nhash_item (tbl s) - 1) -> lruqs s (item_is_lease_holder it) !! i_id it = Some l ->
  INV None H (cfg s) (<[a := it']> (heap s)) (<[a.1 := set_sl_refcount (sl_refcount x - pin it) x]> (slabs s))
    (next_slab s) (classes s) (info s) t' (push_q (lruqs s) (item_is_lease_holder it) (i_id it) (remove1 a l)).
Proof.
  intros it' HI Ha Hl Hx Hw HP Hn Hq. destruct (unlinked_flags it) as (U1 & U2 & _).
  destruct (inv_taken H s HI a it Ha ltac:(by left)) as [Hns Htk].
  assert (INV None H (cfg s) (<[a := unlinked it]> (heap s)) (slabs s) (next_slab s) (classes s) (info s) t'
    (push_q (lruqs s) (item_is_lease_holder it) (i_id it) (remove1 a l))) as H1.
  { apply (INV_unlink None H (cfg s) (heap s) (slabs s) (next_slab s) (classes s) (info s) (tbl s)
      (lruqs s) a it t' l); try done.
    - eapply tbl_wf_ext; [|exact Hw]. intros b _. unfold hkey.
      destruct (decide (a = b)) as [<-|]; [by rewrite !lookup_insert_eq|by rewrite !lookup_insert_ne].
    - pose proof (tbl_small _ _ _ _ _ _ _ _ _ HI). lia. }
  unfold it', pin. destruct (item_is_pinned_kind it) eqn:Ep.
  - pose proof (inv_pinned H s HI a it Ha Hl Ep) as Hr.
    assert (not_cur (cfg s) (classes s) a) as Hnc.
    { eapply taken_not_cur; [apply (v_cur _ _ _ _ _ _ _ _ _ _ HI)|done|]. by split. }
    rewrite <-(insert_insert_eq (heap s) a _ (unlinked it)).
    change (unlinked (set_refcount (i_refcount it - 1) it))
      with (set_refcount (i_refcount (unlinked it) + -1) (unlinked it)).
    apply (INV_ref None H H _ _ _ _ _ _ _ _ a (unlinked it) x (-1) H1); try done.
    + apply lookup_insert_eq.
    + split; [by rewrite U2|auto].
    + by rewrite U1.
    + apply refs_unpin; [apply H1|apply lookup_insert_eq|done|by left].
  - rewrite !Z.sub_0_r. replace (set_refcount (i_refcount it) it) with it by by destruct it.
    replace (set_sl_refcount (sl_refcount x) x) with x by by destruct x. by rewrite (insert_id (slabs s)).
Qed.

Lemma unlink_spec H s a it :
  inv H s -> Z.of_nat (length H) <= MAX_HELD -> heap s !! a = Some it -> item_is_linked it = true ->
  slab_lock s = false ->
  wp (_item_unlink a) (fun _ s' => inv H s' /\ only a (gone it) s s') s.
Proof.
  intros HI HH Ha Hl Hlk. set (it1 := set_refcount (i_refcount it - pin it) it).
  assert (item_is_slabbed it = false) as Hns by by apply (inv_taken H s HI a it Ha ltac:(by left)).
  assert (not_cur (cfg s) (classes s) a) as Hnc.
  { eapply taken_not_cur; [apply (v_cur _ _ _ _ _ _ _ _ _ _ HI)|done|]. apply (inv_taken H s HI a it Ha). by left. }
  destruct (unlinked_flags it1) as (U1 & U2 & U3 & _).
  destruct (inv_delete H s HI a it (<[a := unlinked it1]> (heap s)) Ha Hl) as (t' & Hd & Hw & HP & Hn).
  { by apply (upd_hkey (heap s) a it). }
  destruct (inv_lru H s HI a it Ha Hl) as (l & Hq & Hin).
  unfold _item_unlink. wp_go. apply (wp_unpin H s); try done. intros x Hx. apply wp_bind.
  eapply wp_get_item; [apply lookup_insert_eq|]. change (set_refcount (i_refcount it + - pin it) it) with it1.
  change (item_is_linked it1) with (item_is_linked it). rewrite Hl. wp_go.
  eapply wp_tbl_delete; [simpl; rewrite insert_insert_eq; exact Hd|]. wp_go.
  apply (wp_unlink_q a (unlinked it1) l); [apply lookup_insert_eq|rewrite U3; exact Hq|exact Hin|].
  intros es. wp_go. eapply wp_get_item; [apply lookup_insert_eq|].
  match goal with |- wp _ _ ?y => set (s2 := y) end.
  assert (heap s2 = <[a := unlinked it1]> (heap s)) as Hh2 by (unfold s2; simpl; by rewrite insert_insert_eq).
  assert (inv H s2) as HI2.
  { unfold inv, inv_raw. rewrite Hh2. unfold s2. rewrite U3. by apply (INV_gone H s a it x t' l). }
  assert (frame s s2) as F2 by (by apply frame_same).
  assert (classes s2 = classes s) as Hc2 by done.
  unfold gone. change (set_flags (unset_bit (i_flags it1) ITEM_LINKED) it1) with (unlinked it1).
  fold it1. clearbody s2. assert (only a (unlinked it1) s s2) as O2 by done.
  destruct (Z.eqb_spec (i_refcount (unlinked it1)) 0) as [Hz|Hz]; cbn [when]; wp_go.
  - eapply wp_mono; [apply (free_spec H s2 a (unlinked it1)); try done|].
    + rewrite Hh2. apply lookup_insert_eq.
    + by rewrite U2.
    + by rewrite Hc2, (k_cfg _ _ F2).
    + apply (homed_frame s s2 a it); [done|by apply unlinked_respool|by apply (inv_homed H)].
    + by rewrite (k_slab_lock _ _ F2).
    + intros _ s3 [HI3 O3]. wp_go. split; [exact HI3|]. destruct (only_trans a _ _ s s2 s3 O2 O3) as [F O].
      split; [|exact O]. transitivity s3; [done|auto with mc].
  - split; [exact HI2|]. split; [|exact Hh2]. transitivity s2; [done|auto with mc].
Qed.

(** ** Giving a reference up *)

(** What [_item_remove] leaves: freed with the last reference unless linked. *)
Definition dropped it : item :=
  let it' := set_refcount (i_refcount it - 1) it in
  if (i_refcount it' =? 0) && negb (item_is_linked it') then slabbed it' else it'.

Lemma remove_spec H H' s a it :
  inv H s -> Z.of_nat (length H) <= MAX_HELD -> H ≡ₚ a :: H' -> heap s !! a = Some it -> droppable s it ->
  (item_is_linked it = false -> i_refcount it = 1 -> homed s a it) -> slab_lock s = false ->
  wp (_item_remove a) (fun _ s' => inv H' s' /\ only a (dropped it) s s') s.
Proof.
  intros HI HH HP Ha Hk Hh Hlk. unfold _item_remove, _item_remove2. wp_go.
  assert (0 < i_refcount it) as Hpos.
  { destruct (inv_held H s HI a it Ha) as [[Hge _] _]. rewrite HP, held_cons_eq in Hge.
    pose proof (held_nonneg a H'). lia. }
  assert (taken (cfg s) (classes s) a it) as Ht by (apply (inv_taken H s HI a it Ha); by right).
  assert (not_cur (cfg s) (classes s) a) as Hnc.
  { eapply taken_not_cur; [apply (v_cur _ _ _ _ _ _ _ _ _ _ HI)|done|done]. }
  rewrite (proj2 (Z.eqb_neq _ _)) by lia. cbn [negb when].
  eapply wp_mono; [by apply (release_spec H s HI HH a it H')|]. intros _ s1 (HI1 & x & Hx & ->).
  set (it1 := set_refcount (i_refcount it - 1) it).
  set (s1 := add_refs (-1) a it x s). assert (heap s1 !! a = Some it1) as Ha1 by apply lookup_insert_eq.
  wp_go. assert (only a it1 s s1) as O1 by (split; [by apply frame_same|done]).
  unfold dropped. fold it1. destruct ((i_refcount it1 =? 0) && negb (item_is_linked it1)) eqn:E; wp_go; [|done].
  apply andb_true_iff in E as [Ez%Z.eqb_eq El%negb_true_iff].
  eapply wp_mono; [apply (free_spec H' s1 a it1); try done|].
  - apply Ht.
  - apply (homed_frame s s1 a it); [apply O1|done|]. apply Hh; [done|]. unfold it1 in Ez. simpl in Ez. lia.
  - intros _ s2 [HI2 O2]. split; [done|]. by apply (only_trans a _ _ s s1 s2 O1).
Qed.

(** A linked item that has just been referenced once more. *)
Lemma inv_droppable H s s' a it :
  inv H s -> heap s !! a = Some it -> cfg s' = cfg s -> droppable s' (set_refcount (i_refcount it + 1) it).
Proof.
  intros HI Ha Hc Hl Hr. rewrite Hc. apply (v_home _ _ _ _ _ _ _ _ _ _ HI a it Ha Hl). simpl in Hr. lia.
Qed.

(** ** Lookup *)

(** [a] is the item linked under the key. *)
Definition bound s (k : list Z) a it : Prop :=
  heap s !! a = Some it /\ item_is_linked it = true /\ i_key it = k.

Lemma bound_inj H s k a b it it' : inv H s -> bound s k a it -> bound s k b it' -> a = b /\ it = it'.
Proof.
  intros HI (Ha & Hla & Hka) (Hb & Hlb & Hkb). destruct (v_tbl _ _ _ _ _ _ _ _ _ _ HI) as (T1 & T2 & _).
  assert (a = b) as ->; [|split; [done|congruence]].
  apply (contents_inj (hkey (heap s)) hash_key hash_key_range (tbl s)); try done.
  - apply T2. eauto.
  - apply T2. eauto.
  - unfold hkey. rewrite Ha, Hb. congruence.
Qed.

Lemma find_spec H s k :
  inv H s -> wp (tbl_find k) (fun o s' => s' = s /\
    match o with
    | Some a => exists it, bound s k a it
    | None => forall a it, ~ bound s k a it
    end) s.
Proof.
  intros HI. destruct (v_tbl _ _ _ _ _ _ _ _ _ _ HI) as (T1 & T2 & _).
  destruct (assoc_find_spec (ekey s) hash_key hash_key_range (tbl s) k T1) as (o & Ho & Hf).
  unfold tbl_find. wp_go. eapply wp_lift; [exact Ho|]. split; [done|]. destruct o as [a|].
  - destruct (proj1 (Hf a) eq_refl) as [Hin Hk]. apply T2 in Hin as (it & Hit & Hl). exists it.
    split_and!; try done. unfold ekey, hkey in Hk. by rewrite Hit in Hk.
  - intros a it (Ha & Hl & Hk). assert (None = Some a); [|done]. apply Hf. split; [apply T2; eauto|].
    unfold ekey, hkey. by rewrite Ha.
Qed.

(** [_item_get] serves an item that is neither expired nor flushed. *)
Definition expired s it : bool := negb (i_exptime it =? 0) && (i_exptime it <=? time_now (clk s)).
Definition flushed s it : bool :=
  let live := oldest_live (cfg s) in
  negb (live =? 0) && (live <=? time_now (clk s)) && (i_atime it <=? live).
Definition visible s it : bool := negb (expired s it) && negb (flushed s it).

(** What [_item_get] promises: the visible item with one more reference, or none
    is visible and a stale one is unlinked. *)
Definition got_item H s (k : list Z) (o : option addr) s' : Prop :=
  match o with
  | Some a => exists it, bound s k a it /\ visible s it = true /\ inv (a :: H) s' /\
      only a (set_refcount (i_refcount it + 1) it) s s'
  | None => inv H s' /\
      ((frame s s' /\ heap s' = heap s /\ forall a it, ~ bound s k a it) \/
       exists a it, bound s k a it /\ visible s it = false /\ only a (gone it) s s')
  end.

Lemma get_spec H s k :
  inv H s -> Z.of_nat (length H) <= MAX_HELD -> slab_lock s = false ->
  wp (_item_get k) (got_item H s k) s.
Proof.
  intros HI HH Hlk. unfold _item_get. apply wp_bind. eapply wp_mono; [by apply (find_spec H s)|].
  intros [a|] s0 [-> Hb]; [|apply wp_ret; split; [done|by left]].
  destruct Hb as (it & Ha & Hl & Hk). wp_go. fold (expired s it) (flushed s it).
  assert (forall s1 es, inv H s1 -> only a (gone it) s s1 -> visible s it = false -> got_item H s k None (set_events es s1)) as Hnone.
  { intros s1 es HI1 [F O] Hv. split; [exact HI1|]. right. exists a, it. split_and!; [done|done|].
    split; [transitivity s1; [done|auto with mc]|exact O]. }
  change (negb (i_exptime it =? 0) && (i_exptime it <=? time_now (clk s))) with (expired s it).
  destruct (expired s it) eqn:Ee; [|].
  - wp_go. apply record_expired_spec. intros es. wp_go.
    eapply wp_mono; [by apply (unlink_spec H (set_events es s) a it)|]. intros _ s1 [HI1 [F O]]. wp_go.
    apply Hnone; [exact HI1| |unfold visible; by rewrite Ee]. split; [|exact O]. destruct F. by split.
  - change (negb (oldest_live (cfg s) =? 0) && (oldest_live (cfg s) <=? time_now (clk s)) && (i_atime it <=? oldest_live (cfg s)))
      with (flushed s it).
    destruct (flushed s it) eqn:Ef; wp_go.
    + eapply wp_mono; [by apply (unlink_spec H s a it)|]. intros _ s1 [HI1 O1]. wp_go.
      apply (Hnone s1); [exact HI1|exact O1|]. unfold visible. by rewrite Ef, andb_false_r.
    + eapply wp_mono; [apply (acquire_spec H s HI HH a it Ha); apply (inv_taken H s HI a it Ha); by left|].
      intros _ s1 (HI1 & x & Hx & ->). wp_go. exists it.
      split; [done|]. split; [unfold visible; by rewrite Ee, Ef|]. split; [done|].
      split; [by apply frame_same|done].
Qed.

(** ** Linking *)

Definition linked_item (cas t : Z) it : item :=
  set_atime t (item_set_cas cas (set_flags (set_bit (i_flags it) ITEM_LINKED) it)).

Lemma linked_item_fields cas t it :
  let it' := linked_item cas t it in
  i_offset it' = i_offset it /\ i_id it' = i_id it /\ i_refcount it' = i_refcount it /\ i_key it' = i_key it /\
  i_nkey it' = i_nkey it /\ i_nbyte it' = i_nbyte it /\ i_payload it' = i_payload it /\
  i_coflags it' = i_coflags it /\ i_flags it' = set_bit (i_flags it) ITEM_LINKED /\
  i_exptime it' = i_exptime it /\ i_dataflags it' = i_dataflags it /\ i_p it' = i_p it.
Proof. simpl. unfold linked_item, item_set_cas. by destruct (item_has_cas _). Qed.

Lemma linked_item_flags cas t it :
  let it' := linked_item cas t it in
  item_is_linked it' = true /\ item_is_slabbed it' = item_is_slabbed it /\ item_has_cas it' = item_has_cas it /\
  item_is_lease_holder it' = item_is_lease_holder it /\ item_is_pinned_kind it' = item_is_pinned_kind it /\
  item_has_co_lease it' = item_has_co_lease it /\ item_is_sess it' = item_is_sess it /\
  item_value it' = item_value it.
Proof.
  simpl. destruct (linked_item_fields cas t it) as (_ & _ & _ & _ & _ & Hb & Hp & Hc & Hf & _). revert Hb Hp Hc Hf.
  generalize (linked_item cas t it). intros it' Hb Hp Hc Hf.
  unfold item_value, data_pos, item_is_pinned_kind, item_is_co_lease_holder. rewrite Hb, Hp.
  flags_unfold. rewrite Hf, Hc. flags_eval. done.
Qed.

(** What an item must be to be linked. *)
Record linkable H s a it : Prop := Linkable {
  lk_item : heap s !! a = Some it;
  lk_ref : 0 < i_refcount it;
  lk_new : item_is_linked it = false;
  lk_pin : item_is_pinned_kind it = true -> i_refcount it = held a H + 1;
  lk_home : homed s a it;
  lk_lra : lra_off (cfg s) = true \/ respool (cfg s) it = item_is_lease_holder it;
  lk_layout : layout (cfg s) it;
  lk_value : item_is_lease_holder it = true -> is_Some (item_value it)
}.

Lemma wp_tbl_insert H s a it it' s1 (R : unit -> st -> Prop) :
  inv H s -> heap s !! a = Some it -> item_is_linked it = false -> (forall b x, ~ bound s (i_key it) b x) ->
  i_key it' = i_key it -> heap s1 = <[a := it']> (heap s) -> tbl s1 = tbl s ->
  (forall n t', Assoc.wf (hkey (<[a := it']> (heap s))) hash_key t' -> contents t' ≡ₚ a :: contents (tbl s) ->
    nhash_item t' = u32 (nhash_item (tbl s) + 1) -> R tt (set_tbl t' (set_nalloc n s1))) ->
  wp (tbl_insert a) R s1.
Proof.
  intros HI Ha Hl Hnb Hk Hh Ht HR. destruct (v_tbl _ _ _ _ _ _ _ _ _ _ HI) as (T1 & T2 & T3).
  assert (forall b, hkey (heap s1) b = hkey (heap s) b) as Hke by (rewrite Hh; by apply (upd_hkey (heap s) a it)).
  unfold tbl_insert, next_malloc. wp_go. simpl. unfold ekey. simpl. rewrite Ht.
  destruct (assoc_insert_spec (hkey (heap s1)) hash_key hash_key_range (hash_power_opt (cfg s1))
    (e_malloc (env s1) (nalloc s1)) (tbl s) a) as (t' & Hi & Hw & HP & Hn).
  - eapply tbl_wf_ext; [|exact T1]. auto.
  - intros _. pose proof (tbl_small _ _ _ _ _ _ _ _ _ HI). lia.
  - intros Hin. apply list_elem_of_fmap in Hin as (b & Hb & Hin). apply T2 in Hin as (x & Hx & Hlx).
    apply (Hnb b x). split_and!; [done|done|]. rewrite !Hke in Hb. unfold hkey in Hb. by rewrite Ha, Hx in Hb.
  - eapply wp_lift; [exact Hi|]. wp_go. apply HR; try done. by rewrite <-Hh.
Qed.

Lemma layout_same c it it' :
  i_key it' = i_key it -> i_nkey it' = i_nkey it -> i_nbyte it' = i_nbyte it -> i_payload it' = i_payload it ->
  i_id it' = i_id it -> item_has_cas it' = item_has_cas it -> layout c it -> layout c it'.
Proof. unfold layout. by intros -> -> -> -> -> ->. Qed.

Lemma wp_touch_q H s a it (R : unit -> st -> Prop) :
  inv H s -> slab_lock s = false -> heap s !! a = Some it -> item_is_linked it = true ->
  (forall s', inv H s' -> frame s s' -> heap s' = heap s -> cas_id s' = cas_id s -> R tt s') ->
  forall allocated, wp (if item_is_lease_holder it then slab_reserved_lruq_touch a.1 allocated
    else slab_lruq_touch a.1 allocated) R s.
Proof.
  intros HI Hlk Ha Hl HR allocated.
  assert (wp (_slab_lruq_touch a.1 allocated (item_is_lease_holder it)) R s) as Hw.
  { eapply wp_mono; [apply (touch_spec H s)|]; try done.
    - destruct (v_home _ _ _ _ _ _ _ _ _ _ HI a it Ha Hl) as (Hh & [Ho|Hr] & _); [by left|right]. by rewrite <-Hr.
    - intros [] s' (HI' & sls & inf & -> & Hg & Hm). by apply HR. }
  by destruct (item_is_lease_holder it).
Qed.

Lemma link_spec H s a it :
  inv H s -> slab_lock s = false -> linkable H s a it -> (forall b x, ~ bound s (i_key it) b x) ->
  wp (_item_link a) (fun _ s' => inv H s' /\ exists cas, only a (linked_item cas (time_now (clk s)) it) s s' /\
    (use_cas (cfg s) = true -> cas = u64 (cas_id s + 1)) /\ cas_id s' = if use_cas (cfg s) then cas else cas_id s) s.
Proof.
  intros HI Hlk [Ha Hpos Hnew Hpin Hhome Hlra Hlay Hval] Hnb. unfold _item_link. wp_go.
  set (cas := if use_cas (cfg s) then u64 (cas_id s + 1) else 0).
  set (k := if use_cas (cfg s) then u64 (cas_id s + 1) else cas_id s).
  set (it0 := set_flags (set_bit (i_flags it) ITEM_LINKED) it).
  assert (forall R s1, cfg s1 = cfg s -> cas_id s1 = cas_id s -> R cas (set_cas_id k s1) -> wp item_next_cas R s1) as Hcas.
  { intros R s1 Hc Hk HR. unfold item_next_cas. wp_go. rewrite Hc. unfold cas, k in HR.
    destruct (use_cas (cfg s)); wp_go; [by rewrite Hk|]. rewrite <-Hk in HR. by destruct s1. }
  apply Hcas; [done|done|]. clear Hcas. wp_go. eapply wp_upd_item; [apply lookup_insert_eq|].
  set (it1 := item_set_cas cas it0). simpl heap. rewrite insert_insert_eq.
  wp_go. apply (wp_tbl_insert H s a it it1); try done.
  { unfold it1, item_set_cas. by destruct (item_has_cas it0). }
  intros n t' Hw HP Hn. unfold item_link_q. wp_go. eapply wp_upd_item; [apply lookup_insert_eq|]. wp_go.
  eapply wp_get_item; [apply lookup_insert_eq|]. simpl clk. simpl heap. rewrite insert_insert_eq.
  change (set_atime (time_now (clk s)) it1) with (linked_item cas (time_now (clk s)) it).
  destruct (linked_item_fields cas (time_now (clk s)) it) as (L1 & L2 & L3 & L4 & L5 & L6 & L7 & L8 & _).
  destruct (linked_item_flags cas (time_now (clk s)) it) as (G1 & G2 & G3 & G4 & G5 & G6 & G7 & G8).
  set (it2 := linked_item cas (time_now (clk s)) it) in *.
  assert (respool (cfg s) it2 = respool (cfg s) it) as Hrp by (unfold respool; by rewrite G4, G6, G7).
  destruct (v_lru _ _ _ _ _ _ _ _ _ _ HI (item_is_lease_holder it2) (i_id it2)) as (l & Hq & _).
  { rewrite L2. by apply (inv_id_254 H s HI a). }
  destruct (inv_taken H s HI a it Ha ltac:(by right)) as [Hns Htk].
  wp_go. eapply wp_2_slab; [apply lookup_insert_eq|..].
  { rewrite L1. by destruct (inv_item_slab H s HI a it Ha) as (_ & _ & ? & _). }
  wp_go. match goal with |- wp _ _ ?y => set (s2 := y) end.
  assert (inv H s2) as HI2.
  { apply (INV_link None H (cfg s) (heap s) (slabs s) (next_slab s) (classes s) (info s) (tbl s) (lruqs s)
      a it it2 t' l); try done.
    - by rewrite G2.
    - rewrite G5, L3. done.
    - eapply tbl_wf_ext; [|exact Hw]. intros b _. unfold hkey.
      destruct (decide (a = b)) as [<-|]; [by rewrite !lookup_insert_eq|by rewrite !lookup_insert_ne].
    - pose proof (tbl_small _ _ _ _ _ _ _ _ _ HI). destruct (v_tbl _ _ _ _ _ _ _ _ _ _ HI) as (_ & _ & T3). lia.
    - rewrite Hrp. exact Hhome.
    - rewrite Hrp, G4. exact Hlra.
    - rewrite L3. lia.
    - by apply (layout_same (cfg s) it).
    - rewrite G4, G8. exact Hval. }
  apply (wp_touch_q H s2 a it2); [done|done|apply lookup_insert_eq|done|].
  intros s3 HI3 F3 Hh3 Hc3. wp_go. split; [exact HI3|]. exists cas. split_and!.
  - split; [|exact Hh3]. transitivity s3; [transitivity s2; [by apply frame_same|done]|auto with mc].
  - intros Hu. unfold cas. by rewrite Hu.
  - change (cas_id s3 = if use_cas (cfg s) then cas else cas_id s). rewrite Hc3. simpl. unfold k, cas.
    by destruct (use_cas (cfg s)).
Qed.

Lemma linkable_frame H s s' a it :
  frame s s' -> heap s' !! a = heap s !! a -> linkable H s a it -> linkable H s' a it.
Proof.
  intros F Ha []. pose proof (k_cfg _ _ F) as Hc. split; try done.
  - by rewrite Ha.
  - by apply (homed_frame s s' a it it).
  - by rewrite Hc.
  - by rewrite Hc.
Qed.

(** ** What is linked after a step *)

Lemma only_lookup a it' s s' b : only a it' s s' -> b <> a -> heap s' !! b = heap s !! b.
Proof. intros [_ ->] Hb. by rewrite lookup_insert_ne. Qed.

Lemma only_eq a it' s s' : only a it' s s' -> heap s' !! a = Some it'.
Proof. intros [_ ->]. apply lookup_insert_eq. Qed.

Lemma only_bound a it' s s' k b x : only a it' s s' ->
  bound s' k b x <-> (b = a /\ x = it' /\ item_is_linked it' = true /\ i_key it' = k) \/ (b <> a /\ bound s k b x).
Proof.
  intros [_ Hh]. unfold bound. rewrite Hh, lookup_insert_Some. naive_solver.
Qed.

Lemma gone_flags it : item_is_linked (gone it) = false /\ i_key (gone it) = i_key it.
Proof.
  unfold gone. destruct (unlinked_flags (set_refcount (i_refcount it - pin it) it)) as (U & _).
  destruct (_ =? 0); [|done]. split; [|done]. unfold slabbed. revert U. by flags.
Qed.

Lemma dropped_fields it : item_is_linked (dropped it) = item_is_linked it /\ i_key (dropped it) = i_key it /\
  i_exptime (dropped it) = i_exptime it /\ i_atime (dropped it) = i_atime it /\
  item_data_raw (dropped it) = item_data_raw it /\ item_cas (dropped it) = item_cas it /\
  i_dataflags (dropped it) = i_dataflags it /\ i_nbyte (dropped it) = i_nbyte it.
Proof.
  unfold dropped. destruct (_ && _); [|done]. unfold slabbed, item_data_raw, data_pos, item_cas. by flags.
Qed.

Lemma unbound_after H s s' k a it : inv H s -> bound s k a it -> only a (gone it) s s' ->
  forall b x, ~ bound s' k b x.
Proof.
  intros HI Hb O b x Hx. apply (only_bound _ _ _ _ _ _ _ O) in Hx as [(_ & _ & Hl & _)|[Hne Hx]].
  - destruct (gone_flags it) as [Hg _]. congruence.
  - destruct (bound_inj H s k b a x it HI Hx Hb). done.
Qed.

Lemma replace_spec H s oa oit a it :
  inv H s -> Z.of_nat (length H) <= MAX_HELD -> slab_lock s = false ->
  bound s (i_key it) oa oit -> linkable H s a it ->
  wp (_item_replace oa a) (fun _ s' => inv H s' /\ exists cas s1, only oa (gone oit) s s1 /\
    only a (linked_item cas (time_now (clk s)) it) s1 s' /\
    (use_cas (cfg s) = true -> cas = u64 (cas_id s1 + 1))) s.
Proof.
  intros HI HH Hlk Hb Hlkb. unfold _item_replace. apply wp_bind.
  eapply wp_mono; [apply (unlink_spec H s oa oit); by try apply Hb|]. intros _ s1 [HI1 O1].
  assert (a <> oa) as Hne.
  { intros ->. destruct Hb as (Hb & Hl & _). pose proof (lk_item _ _ _ _ Hlkb).
    pose proof (lk_new _ _ _ _ Hlkb). congruence. }
  eapply wp_mono; [apply (link_spec H s1 a it HI1)|].
  - by rewrite (k_slab_lock _ _ (proj1 O1)).
  - apply (linkable_frame H s); [apply O1|by apply (only_lookup oa (gone oit))|done].
  - by apply (unbound_after H s s1 (i_key it) oa oit).
  - intros _ s2 (HI2 & cas & O2 & Hcas & _). split; [done|]. exists cas, s1.
    rewrite (k_clk _ _ (proj1 O1)), (k_cfg _ _ (proj1 O1)) in *. done.
Qed.

(** ** Moving an item to the end of its queue *)

Lemma INV_requeue raw H c h sl ns cl inf t q q' r id l l' :
  INV raw H c h sl ns cl inf t q -> q r !! id = Some l -> l' ≡ₚ l ->
  (forall r0 id0, q' r0 !! id0 = push_q q r id l' r0 !! id0) ->
  INV raw H c h sl ns cl inf t q'.
Proof.
  intros [V1 V2 V3 V4 V5 V6 V7 V8 V9 V10 V11 V12 V13] Hq HP He. split; try done.
  intros r0 id0 Hid. destruct (V8 r0 id0 Hid) as (l0 & Hl0 & Hnd & Hin). rewrite He, push_q_lookup.
  case_decide as Hd; [|by exists l0]. destruct Hd as [-> ->]. simplify_eq. exists l'.
  split_and!; [done|by rewrite HP|]. intros b. by rewrite HP.
Qed.

Lemma remove1_end a l : a ∈ l -> remove1 a l ++ [a] ≡ₚ l.
Proof.
  induction l as [|b l IH]; simpl; [set_solver|]. intros Hin. case_decide as Hd.
  - subst b. by rewrite Permutation_app_comm.
  - simpl. constructor. apply IH. set_solver.
Qed.

Lemma item_touch_spec H s a it :
  inv H s -> slab_lock s = false -> heap s !! a = Some it ->
  wp (_item_touch a) (fun _ s' => inv H s' /\ exists t, only a (set_atime t it) s s' /\
    (t = i_atime it \/ t = time_now (clk s))) s.
Proof.
  intros HI Hlk Ha. unfold _item_touch. wp_go.
  assert (inv H s /\ exists t, only a (set_atime t it) s s /\ (t = i_atime it \/ t = time_now (clk s))) as Hsame.
  { split; [done|]. exists (i_atime it). split; [|by left]. split; [done|].
    replace (set_atime (i_atime it) it) with it by by destruct it. by rewrite insert_id. }
  destruct (_ <=? _); [by apply wp_ret|]. destruct (item_is_linked it) eqn:El; [|by apply wp_ret].
  destruct (inv_lru H s HI a it Ha El) as (l & Hq & Hin). cbn [when]. wp_go.
  apply (wp_unlink_q a it l); [done|done|done|]. intros es. unfold item_link_q. wp_go.
  eapply wp_get_item; [apply lookup_insert_eq|]. simpl clk. set (it' := set_atime (time_now (clk s)) it). wp_go.
  change (item_is_lease_holder it') with (item_is_lease_holder it). simpl i_id.
  eapply wp_get_lruq; [simpl; fold (push_q (lruqs s) (item_is_lease_holder it) (i_id it) (remove1 a l));
    rewrite push_q_lookup; by rewrite decide_True|]. wp_go.
  eapply wp_2_slab; [apply lookup_insert_eq| |].
  { by destruct (inv_item_slab H s HI a it Ha) as (_ & _ & ? & _). }
  wp_go. match goal with |- wp _ _ ?y => set (s2 := y) end.
  assert (inv H s2) as HI2.
  { change (INV None H (cfg s) (<[a := it']> (heap s)) (slabs s) (next_slab s) (classes s) (info s) (tbl s)
      (push_q (push_q (lruqs s) (item_is_lease_holder it) (i_id it) (remove1 a l)) (item_is_lease_holder it) (i_id it)
        (remove1 a l ++ [a]))).
    apply (INV_requeue None H (cfg s) _ _ _ _ _ _ (lruqs s) _ (item_is_lease_holder it) (i_id it) l
      (remove1 a l ++ [a])); [|done|by apply remove1_end|].
    - apply (INV_inert None H _ _ _ _ _ _ _ _ a it it' HI Ha). split; try done.
      intros _. destruct (v_data _ _ _ _ _ _ _ _ _ _ HI a it Ha El). done.
    - intros r0 id0. rewrite !push_q_lookup. by case_decide. }
  apply (wp_touch_q H s2 a it'); [done|done|apply lookup_insert_eq|done|].
  intros s3 HI3 F3 Hh3 Hc3. wp_go. split; [exact HI3|]. exists (time_now (clk s)). split; [|by right].
  split; [|exact Hh3]. transitivity s3; [transitivity s2; [by apply frame_same|done]|auto with mc].
Qed.

(** ** Start-up *)

(** The heaps are small enough for the counters. *)
Definition heap_ok (c : settings) : Prop :=
  (u32 (maxbytes c / slab_size_opt c) +
   (if slab_has_reserved_slabs c then u32 (reserved_maxbytes c / slab_size_opt c) else 0)) * MAX_CHUNKS < 2 ^ 31 - 1.

Lemma slabclass_init_lookup c id p :
  cfg_ok c -> slab_slabclass_init c !! id = Some p <-> id_ok c id /\ p = slabclass_new c (psize c id).
Proof.
  intros Hc. unfold slab_slabclass_init.
  set (l := omap _ _). assert (forall i x, (i, x) ∈ l <-> id_ok c i /\ x = slabclass_new c (psize c i)) as Hl.
  { intros i x. unfold l. rewrite list_elem_of_omap. setoid_rewrite elem_of_seqZ.
    unfold id_ok, psize, SLABCLASS_MIN_ID. split.
    - intros (j & Hj & Hx). destruct (profile c !! Z.to_nat j) as [sz|] eqn:E; simplify_eq/=. rewrite E. split; [lia|done].
    - intros [Hi ->]. exists i. split; [lia|]. pose proof (ok_size c Hc i Hi) as Hs. unfold psize in Hs.
      destruct (profile c !! Z.to_nat i) as [sz|]; [done|]. simpl in Hs. lia. }
  split.
  - intros Hp. apply Hl. by apply elem_of_list_to_map_2.
  - intros Hp. apply elem_of_list_to_map_1'; [|by apply Hl]. intros y Hy. apply Hl in Hy.
    destruct Hp as [_ ->], Hy as [_ ->]. done.
Qed.

Lemma init_lruq_lookup id : SLABCLASS_MIN_ID <= id <= SLABCLASS_MAX_ID -> item_init_lruq !! id = Some [].
Proof.
  intros Hid. unfold item_init_lruq. apply elem_of_list_to_map_1'.
  - intros y Hy. apply list_elem_of_fmap in Hy as (j & Hj & _). by simplify_eq.
  - apply list_elem_of_fmap. exists id. split; [done|]. apply elem_of_seqZ.
    unfold SLABCLASS_MIN_ID, SLABCLASS_MAX_ID in *. lia.
Qed.

Lemma start_inv c e k : cfg_ok c -> heap_ok c -> inv [] (cache_init c e k).
Proof.
  intros Hc Hh.
  destruct (refines_init (hkey ∅) hash_key hash_key_range (hash_power_opt c)) as (Hw & Hm & Hn); [apply (ok_hash c Hc)|].
  assert (contents (assoc_init (E:=addr) (hash_power_opt c)) = []) as Hnil.
  { apply elem_of_nil_inv. intros b Hb. assert (((∅ : gmap (list Z) addr) !! hkey ∅ b) = Some b); [|done].
    by apply Hm. }
  pose proof (pcnt_range c) as Hpc. pose proof (slab_size_pos c Hc) as Hss. unfold MAX_SLAB, MAX_CHUNKS in *.
  split; simpl; try done.
  - intros r id. split.
    + intros Hid. exists (slabclass_new c (psize c id)). split_and!; [by apply slabclass_init_lookup|done|].
      simpl. fold (pcnt c id). rewrite u32_small; [done|]. specialize (Hpc id Hc Hid). lia.
    + intros p Hp. by apply slabclass_init_lookup in Hp as [? _].
  - split; [set_solver|]. intros ? ? Hx. by apply lookup_empty_Some in Hx.
  - split_and!; [done| |by rewrite Hnil]. intros a. rewrite Hnil. split; [set_solver|].
    intros (? & Hx & _). by apply lookup_empty_Some in Hx.
  - intros r id Hid. exists []. split_and!; [by apply init_lruq_lookup|constructor|]. intros a. split; [set_solver|].
    intros (? & Hx & _). by apply lookup_empty_Some in Hx.
  - split; [|intros ? ? Hx; by apply lookup_empty_Some in Hx]. intros r id p Hp.
    apply slabclass_init_lookup in Hp as [_ ->]; [|done]. simpl. split_and!; [constructor|done|set_solver].
  - intros r id p a Hp. by apply slabclass_init_lookup in Hp as [_ ->].
  - match goal with |- P_info _ _ ?f _ => set (inf := f) end.
    assert (forall r, exists m, inf r = HeapInfo 0 m [] [] /\ 0 <= m < 2 ^ 32) as Hinf.
    { intros r. unfold inf, slab_heapinfo_init. destruct r; [destruct (slab_has_reserved_slabs c)|]; simpl;
        eexists; (split; [destruct (prealloc c); reflexivity|]); try apply u32_range. lia. }
    split_and!.
    + intros r. destruct (Hinf r) as (m & -> & Hm'). simpl. split_and!; try done || lia || constructor; set_solver.
    + intros n Hn'. destruct (Hinf false) as (m & E & _). rewrite E in Hn'. set_solver.
    + intros n [? Hx]. by apply lookup_empty_Some in Hx.
    + unfold heap_ok in Hh. unfold inf, slab_heapinfo_init. simpl.
      destruct (slab_has_reserved_slabs c), (prealloc c); exact Hh.
Qed.

(** A small configuration: three classes, one kilobyte slabs, a pool for leases. *)
Definition ex_cfg : settings :=
  Settings true true EVICT_LRU true true 4096 1024 4 0 [0; 128; 256; 512] 3 20 4096 10000.

Lemma ex_cfg_ok : cfg_ok ex_cfg.
Proof.
  assert (forall id, SLABCLASS_MIN_ID <= id <= 3 -> id = 1 \/ id = 2 \/ id = 3) as H3
    by (unfold SLABCLASS_MIN_ID; lia).
  split.
  - by vm_compute.
  - by vm_compute.
  - intros id [-> | [-> | ->]]%H3; by vm_compute.
  - intros i j Hi Hj. assert (SLABCLASS_MIN_ID <= j <= 3) as Hj' by (simpl in Hj; lia).
    assert (SLABCLASS_MIN_ID <= i <= 3) as Hi' by lia.
    apply H3 in Hi' as [-> | [-> | ->]]; apply H3 in Hj' as [-> | [-> | ->]]; try lia; by vm_compute.
  - by vm_compute.
Qed.

Definition ex_env : environment := Env (fun _ => 0) (fun _ => true) (fun _ => 0).
Definition ex_clk : clock := Clock 1000 100.
