(* ===== verification/StoreOk.v ===== *)
(** * Correctness of the memcached commands

    What a client observes of the cache is a partial map: the entries that are
    linked and visible, by key.  The commands of [Items] are proved to update
    this map as memcached documents, and allocation only to lose entries. *)

From stdpp Require Import functions.
From S2P Require Import Prelude Util Hash Time Lease Assoc Item State Slabs Items Inv SlabsOk ItemsOk.
Open Scope Z_scope.
Implicit Types (a b : addr) (n : nat) (it : item) (s : st) (k : list Z).

(** ** The abstract cache *)

(** What the server answers for an item. *)
Record entry := Entry {
  en_data : option mem;
  en_dataflags : Z;
  en_cas : Z;
  en_exptime : Z
}.

Definition entry_of it : entry := Entry (item_data_raw it) (i_dataflags it) (item_cas it) (i_exptime it).

Definition serves s k (e : entry) : Prop :=
  exists a it, bound s k a it /\ visible s it = true /\ entry_of it = e.

Lemma serves_inj H s k e e' : inv H s -> serves s k e -> serves s k e' -> e = e'.
Proof.
  intros HI (a & it & Hb & _ & <-) (b & it' & Hb' & _ & <-).
  destruct (bound_inj H s k a b it it' HI Hb Hb') as [_ ->]. done.
Qed.

(** Two items a client cannot tell apart. *)
Record same_entry s it it' : Prop := SameEntry {
  se_linked : item_is_linked it' = item_is_linked it;
  se_key : i_key it' = i_key it;
  se_visible : visible s it' = visible s it;
  se_entry : entry_of it' = entry_of it
}.

Lemma visible_frame s s' it : frame s s' -> visible s' it = visible s it.
Proof. intros F. unfold visible, expired, flushed. by rewrite (k_cfg _ _ F), (k_clk _ _ F). Qed.

Lemma serves_heap s s' : frame s s' -> heap s' = heap s -> forall k e, serves s' k e <-> serves s k e.
Proof.
  intros F Hh k e. split; intros (a & it & Hb & Hv & He); exists a, it; unfold bound in *;
    rewrite Hh, (visible_frame s s') in * by done; done.
Qed.

(** A step at a linked item that the client does not see. *)
Lemma only_same s s' a it it' k e :
  heap s !! a = Some it -> only a it' s s' -> same_entry s it it' -> serves s' k e <-> serves s k e.
Proof.
  intros Ha O [S1 S2 S3 S4]. pose proof (fun k b x => only_bound a it' s s' k b x O) as HB. destruct O as [F _].
  split; intros (b & x & Hb & Hv & <-).
  - rewrite (visible_frame s s') in Hv by done. apply HB in Hb as [(-> & -> & Hl & Hk)|[Hne Hb]].
    + exists a, it. split_and!; [split_and!; congruence|congruence|done].
    + by exists b, x.
  - destruct (decide (b = a)) as [->|Hne].
    + destruct Hb as (Hb & Hl & Hk). assert (x = it) as -> by congruence.
      exists a, it'. rewrite (visible_frame s s') by done. split_and!; [|congruence|done].
      apply HB. left. split_and!; congruence.
    + exists b, x. rewrite (visible_frame s s') by done. split_and!; [apply HB; by right|done|done].
Qed.

(** A step that unlinks an item, or works on an unlinked one. *)
Lemma only_gone H s s' a it it' k e :
  inv H s -> heap s !! a = Some it -> only a it' s s' -> item_is_linked it' = false ->
  serves s' k e <-> serves s k e /\ ~ (item_is_linked it = true /\ i_key it = k).
Proof.
  intros HI Ha O Hl. pose proof (fun k b x => only_bound a it' s s' k b x O) as HB. destruct O as [F _]. split.
  - intros (b & x & Hb & Hv & <-). apply HB in Hb as [(_ & _ & Hx & _)|[Hne Hb]]; [congruence|]. split.
    + exists b, x. split_and!; [done| |done]. by rewrite <-(visible_frame s s').
    + intros [Hla Hka]. destruct (bound_inj H s k a b it x HI) as [? _]; [done|done|]. done.
  - intros [(b & x & Hb & Hv & <-) Hn]. exists b, x. split_and!; [|by rewrite (visible_frame s s')|done].
    apply HB. right. split; [|done]. intros ->. destruct Hb as (Hb & ? & ?). simplify_eq. by apply Hn.
Qed.

(** A step that links an item. *)
Lemma only_linked s s' a it it' k e :
  heap s !! a = Some it -> item_is_linked it = false -> only a it' s s' -> item_is_linked it' = true ->
  serves s' k e <-> serves s k e \/ (i_key it' = k /\ visible s' it' = true /\ entry_of it' = e).
Proof.
  intros Ha Hl O Hl'. pose proof (fun k b x => only_bound a it' s s' k b x O) as HB. destruct O as [F _]. split.
  - intros (b & x & Hb & Hv & <-). apply HB in Hb as [(-> & -> & _ & Hk)|[Hne Hb]]; [by right|left].
    exists b, x. split_and!; [done| |done]. by rewrite <-(visible_frame s s').
  - intros [(b & x & Hb & Hv & <-)|(Hk & Hv & He)].
    + exists b, x. split_and!; [|by rewrite (visible_frame s s')|done]. apply HB. right. split; [|done].
      intros ->. destruct Hb as (Hb & Hlb & _). congruence.
    + exists a, it'. split_and!; [|done|done]. apply HB. by left.
Qed.

Lemma same_refcount s d it : same_entry s it (set_refcount d it).
Proof. done. Qed.

Lemma same_dropped s it : same_entry s it (dropped it).
Proof.
  destruct (dropped_fields it) as (D1 & D2 & D3 & D4 & D5 & D6 & D7 & D8). split; try done.
  - unfold visible, expired, flushed. by rewrite D3, D4.
  - unfold entry_of. congruence.
Qed.

(** ** Readers *)

(** Who holds [b] reads the same before and after. *)
Definition reads s s' b : Prop :=
  forall x, heap s !! b = Some x -> exists x', heap s' !! b = Some x' /\
    i_key x' = i_key x /\ i_nbyte x' = i_nbyte x /\ entry_of x' = entry_of x.

Lemma reads_refl s b : reads s s b.
Proof. intros x Hx. by exists x. Qed.

Lemma reads_trans s1 s2 s3 b : reads s1 s2 b -> reads s2 s3 b -> reads s1 s3 b.
Proof.
  intros H1 H2 x Hx. destruct (H1 x Hx) as (y & Hy & ? & ? & ?). destruct (H2 y Hy) as (z & Hz & ? & ? & ?).
  exists z. split_and!; congruence.
Qed.

Lemma only_reads a it it' s s' b :
  heap s !! a = Some it -> only a it' s s' -> i_key it' = i_key it -> i_nbyte it' = i_nbyte it ->
  entry_of it' = entry_of it -> reads s s' b.
Proof.
  intros Ha O Hk Hn He x Hx. destruct (decide (b = a)) as [->|Hb].
  - rewrite Ha in Hx. injection Hx as <-. exists it'. split_and!; [by apply (only_eq a it' s)|done..].
  - exists x. rewrite (only_lookup a it' s s' b O Hb). done.
Qed.

Lemma only_reads_ne a it' s s' b : only a it' s s' -> b <> a -> reads s s' b.
Proof. intros O Hb x Hx. exists x. by rewrite (only_lookup a it' s s' b O Hb). Qed.

Lemma gone_entry it : entry_of (gone it) = entry_of it /\ i_key (gone it) = i_key it /\ i_nbyte (gone it) = i_nbyte it.
Proof.
  unfold gone. destruct (_ =? 0); (split; [|done]); unfold entry_of, slabbed, unlinked, item_data_raw, data_pos, item_cas; by flags.
Qed.

Lemma gone_respool c it : respool c (gone it) = respool c it.
Proof.
  unfold gone. rewrite <-(unlinked_respool c it (i_refcount it - pin it)).
  destruct (_ =? 0); [|done]. unfold respool, slabbed. by flags.
Qed.

Lemma dropped_entry it :
  entry_of (dropped it) = entry_of it /\ i_key (dropped it) = i_key it /\ i_nbyte (dropped it) = i_nbyte it.
Proof. destruct (dropped_fields it) as (_ & D2 & D3 & _ & D5 & D6 & D7 & D8). split; [unfold entry_of; congruence|done]. Qed.

(** ** Lookup *)

(** A lookup changes neither what clients see nor what readers read. *)
Lemma get_serves H s k o s' :
  inv H s -> got_item H s k o s' ->
  frame s s' /\ (forall k' e, serves s' k' e <-> serves s k' e) /\ (forall b, reads s s' b) /\
  match o with
  | Some a => exists e, serves s k e
  | None => forall e, ~ serves s k e
  end.
Proof.
  intros HI G. destruct o as [a|].
  - destruct G as (it & Hb & Hv & HI' & O). pose proof (proj1 Hb) as Ha. split_and!.
    + apply O.
    + intros k' e. by apply (only_same s s' a it (set_refcount (i_refcount it + 1) it)).
    + intros b. by apply (only_reads a it _ s s' b Ha O).
    + exists (entry_of it), a, it. done.
  - destruct G as [HI' [(F & Hh & Hn)|(a & it & Hb & Hv & O)]].
    + split_and!; [done|by apply serves_heap|intros b x Hx; exists x; by rewrite Hh|].
      intros e (a & it & Hb & _). by apply (Hn a it).
    + destruct (gone_entry it) as (E1 & E2 & E3). destruct (gone_flags it) as [Hl _]. pose proof (proj1 Hb) as Ha.
      assert (forall e, ~ serves s k e) as Hnone.
      { intros e (b & x & Hb' & Hv' & _). destruct (bound_inj H s k a b it x HI Hb Hb') as [_ ->]. congruence. }
      split_and!; [apply O| |intros b; by apply (only_reads a it _ s s' b Ha O)|done].
      intros k' e. rewrite (only_gone H s s' a it (gone it) k' e HI Ha O Hl). split; [naive_solver|].
      intros He. split; [done|]. intros [_ Hk]. apply (Hnone e). destruct Hb as (_ & _ & <-). by rewrite Hk.
Qed.

(** ** The end of a store *)

Lemma linkable_cons H s a b it : a <> b -> linkable H s a it -> linkable (b :: H) s a it.
Proof. intros Hne [L1 L2 L3 L4]. split; try done. intros Hp. rewrite held_cons_ne by done. by apply L4. Qed.

(** The item found under the key, as it is released at the end. *)
Definition old_ok s (o : option addr) : Prop :=
  match o with
  | Some b => exists x, heap s !! b = Some x /\ droppable s x /\ (item_is_linked x = false -> homed s b x)
  | None => True
  end.

(** No other item is linked anew or used. *)
Definition unaged a s s' : Prop :=
  forall b x, b <> a -> heap s' !! b = Some x -> item_is_linked x = true ->
    exists y, heap s !! b = Some y /\ item_is_linked y = true /\ i_atime y = i_atime x.

Lemma unaged_refl a s : unaged a s s.
Proof. intros b x _ Hx Hl. by exists x. Qed.
Lemma unaged_trans a s1 s2 s3 : unaged a s1 s2 -> unaged a s2 s3 -> unaged a s1 s3.
Proof. intros H1 H2 b x Hb Hx Hl. destruct (H2 b x Hb Hx Hl) as (y & Hy & Hly & <-). by apply H1. Qed.
Lemma unaged_heap a s s' : heap s' = heap s -> unaged a s s'.
Proof. intros Hh b x _ Hx Hl. rewrite Hh in Hx. by exists x. Qed.
Lemma unaged_only a b it x s s' :
  heap s !! b = Some it -> only b x s s' -> b = a \/ (item_is_linked x = true -> item_is_linked it = true /\ i_atime it = i_atime x) -> unaged a s s'.
Proof.
  intros Hb [_ Hh] Hc d y Hd Hy Hl. rewrite Hh in Hy. destruct (decide (b = d)) as [<-|Hne].
  - rewrite lookup_insert_eq in Hy. injection Hy as <-. destruct Hc as [?|Hc]; [congruence|]. destruct (Hc Hl). by exists it.
  - rewrite lookup_insert_ne in Hy by done. by exists y.
Qed.

(** Storing [it] under its key. *)
Definition stored s a it s' : Prop :=
  frame s s' /\ ((forall b, b <> a -> reads s s' b) /\ unaged a s s') /\
  exists cas, heap s' !! a = Some (linked_item cas (time_now (clk s)) it) /\
    forall k e, serves s' k e <->
      (k <> i_key it /\ serves s k e) \/
      (k = i_key it /\ visible s (linked_item cas (time_now (clk s)) it) = true /\
       entry_of (linked_item cas (time_now (clk s)) it) = e).

Lemma put_over_spec H s a it b oit :
  inv H s -> Z.of_nat (length H) <= MAX_HELD -> slab_lock s = false -> linkable H s a it -> bound s (i_key it) b oit ->
  wp (_item_replace b a) (fun _ s' => inv H s' /\ stored s a it s' /\ old_ok s' (Some b) /\
    forall c, c <> a -> c <> b -> heap s' !! c = heap s !! c) s.
Proof.
  intros HI HH Hlk Hla Hb. pose proof (lk_item _ _ _ _ Hla) as Ha. pose proof (lk_new _ _ _ _ Hla) as Hnew.
  assert (a <> b) as Hne by (intros ->; destruct Hb as (Hb & Hl & _); congruence).
  eapply wp_mono; [by apply (replace_spec H s b oit a it)|].
  intros _ s3 (HI3 & cas & s2 & O2 & O3 & _).
  destruct (gone_entry oit) as (E1 & E2 & E3). destruct (gone_flags oit) as [Hl _].
  destruct (linked_item_fields cas (time_now (clk s)) it) as (_ & _ & _ & L4 & _).
  destruct (linked_item_flags cas (time_now (clk s)) it) as (L5 & _).
  set (it' := linked_item cas (time_now (clk s)) it) in *.
  assert (heap s2 !! a = Some it) as Ha2 by by rewrite (only_lookup b (gone oit) s s2 a O2 Hne).
  assert (frame s s3) as F3 by (transitivity s2; [apply O2|apply O3]).
  split; [done|]. split; [split; [done|split]|split].
  - split.
    + intros c Hc. apply (reads_trans s s2); [by apply (only_reads b oit (gone oit) s s2 c (proj1 Hb) O2)|].
      by apply (only_reads_ne a it').
    + apply (unaged_trans a s s2); [apply (unaged_only a b oit (gone oit)); [apply Hb|done|]|by apply (unaged_only a a it it'); [| |left]].
      right. congruence.
  - exists cas. split; [by apply (only_eq a it' s2)|]. intros k e.
    rewrite (only_linked s2 s3 a it it' k e Ha2 Hnew O3 L5).
    rewrite (only_gone H s s2 b oit (gone oit) k e HI (proj1 Hb) O2 Hl).
    rewrite (visible_frame s s3 it' F3), L4. destruct Hb as (_ & -> & ->). naive_solver.
  - exists (gone oit). split_and!.
    + rewrite (only_lookup a it' s2 s3 b O3) by congruence. by apply (only_eq b (gone oit) s).
    + intros Hx. congruence.
    + intros _. apply (homed_frame s s3 b oit); [done|apply gone_respool|].
      by apply (inv_homed H s b oit HI (proj1 Hb)), Hb.
  - intros c Hc Hcb. rewrite (only_lookup a it' s2 s3 c O3 Hc). by apply (only_lookup b (gone oit)).
Qed.

Lemma put_new_spec H s a it :
  inv H s -> slab_lock s = false -> linkable H s a it -> (forall b x, ~ bound s (i_key it) b x) ->
  wp (_item_link a) (fun _ s' => inv H s' /\ stored s a it s' /\ forall c, c <> a -> heap s' !! c = heap s !! c) s.
Proof.
  intros HI Hlk Hla Hnb. pose proof (lk_item _ _ _ _ Hla) as Ha. pose proof (lk_new _ _ _ _ Hla) as Hnew.
  eapply wp_mono; [by apply (link_spec H s a it)|]. intros _ s2 (HI2 & cas & O2 & _).
  destruct (linked_item_fields cas (time_now (clk s)) it) as (_ & _ & _ & L4 & _).
  destruct (linked_item_flags cas (time_now (clk s)) it) as (L5 & _).
  set (it' := linked_item cas (time_now (clk s)) it) in *.
  split; [done|]. split; [|intros c; by apply (only_lookup a it')]. split; [apply O2|]. split.
  - split; [intros c Hc; by apply (only_reads_ne a it')|by apply (unaged_only a a it it'); [| |left]].
  - exists cas. split; [by apply (only_eq a it' s)|]. intros k e.
    rewrite (only_linked s s2 a it it' k e Ha Hnew O2 L5), L4, (visible_frame s s2 it' (proj1 O2)).
    split; [|naive_solver]. intros [He|?]; [|naive_solver]. left. split; [|done]. intros ->.
    destruct He as (b & x & Hb & _). by apply (Hnb b x).
Qed.

(** The item a lookup left under the key. *)
Definition under s k (o : option addr) : Prop :=
  match o with Some b => exists x, bound s k b x | None => forall b x, ~ bound s k b x end.

(** [_item_replace] or [_item_link]. *)
Lemma put_item_spec H s a it o :
  inv H s -> Z.of_nat (length H) <= MAX_HELD -> slab_lock s = false -> linkable H s a it -> under s (i_key it) o ->
  wp (match o with Some b => _item_replace b a | None => _item_link a end)
    (fun _ s' => inv H s' /\ stored s a it s' /\ old_ok s' o /\
      forall c, c <> a -> o <> Some c -> heap s' !! c = heap s !! c) s.
Proof.
  intros HI HH Hlk Hla Hu. destruct o as [b|].
  - destruct Hu as (oit & Hb). eapply wp_mono; [by apply (put_over_spec H s a it b oit)|].
    intros _ s' (? & ? & ? & Hr). split_and!; try done. intros c Hc Hcb. apply Hr; congruence.
  - eapply wp_mono; [by apply (put_new_spec H s a it)|]. intros _ s' (? & ? & Hr). split_and!; try done. auto.
Qed.

(** After a lookup. *)
Lemma got_under H s k o s' : inv H s -> got_item H s k o s' ->
  inv (option_list o ++ H) s' /\ under s' k o /\
  forall a x, heap s !! a = Some x -> item_is_linked x = false -> heap s' !! a = Some x /\ o <> Some a.
Proof.
  intros HI G. destruct o as [b|].
  - destruct G as (x & Hb & Hv & HI' & O). split; [done|]. split.
    + exists (set_refcount (i_refcount x + 1) x). destruct Hb as (_ & Hl & Hk).
      split_and!; [by apply (only_eq b _ s)|done|done].
    + intros a y Ha Hy. assert (a <> b) by (intros ->; destruct Hb as (Hb & Hl & _); congruence).
      split; [|congruence]. by rewrite (only_lookup b _ s s' a O).
  - destruct G as [HI' [(F & Hh & Hn)|(b & x & Hb & _ & O)]]; (split; [done|]; split).
    + intros b x. unfold bound. rewrite Hh. apply Hn.
    + intros a x Ha _. by rewrite Hh.
    + exact (unbound_after H s s' k b x HI Hb O).
    + intros a y Ha Hy. split; [|done]. rewrite (only_lookup b _ s s' a O); [done|].
      intros ->. destruct Hb as (Hb & Hl & _). congruence.
Qed.

Lemma linkable_app H s a it l : a ∉ l -> linkable H s a it -> linkable (l ++ H) s a it.
Proof.
  induction l as [|b l IH]; simpl; [done|]. intros Hn Hla. apply not_elem_of_cons in Hn as [Hn1 Hn2].
  apply linkable_cons; [done|]. by apply IH.
Qed.

Lemma got_linkable H s k o s' a it : inv H s -> got_item H s k o s' -> frame s s' -> linkable H s a it ->
  linkable (option_list o ++ H) s' a it.
Proof.
  intros HI G F Hla. pose proof (lk_item _ _ _ _ Hla) as Ha. pose proof (lk_new _ _ _ _ Hla) as Hnew.
  destruct (got_under H s k o s' HI G) as (_ & _ & Hun). destruct (Hun a it Ha Hnew) as [Ha' Hne].
  apply linkable_app; [destruct o; set_solver|]. apply (linkable_frame H s); [done|congruence|done].
Qed.

Lemma got_unaged H s k o s' a : got_item H s k o s' -> unaged a s s'.
Proof.
  destruct o as [b|].
  - intros (it & (Hb & Hl & _) & _ & _ & O). apply (unaged_only a b it _ s s' Hb O). by right.
  - intros [_ [(_ & Hh & _)|(b & it & (Hb & Hl & _) & _ & O)]]; [by apply unaged_heap|].
    apply (unaged_only a b it _ s s' Hb O). right. destruct (gone_flags it). congruence.
Qed.

(** A store seen from before the lookup. *)
Lemma stored_from s s1 a it s' :
  frame s s1 -> (forall k e, serves s1 k e <-> serves s k e) -> (forall b, b <> a -> reads s s1 b) ->
  unaged a s s1 -> stored s1 a it s' -> stored s a it s'.
Proof.
  intros F Hs Hr Hu (F1 & [R1 U1] & cas & Ha & Hsv). split; [by transitivity s1|]. rewrite (k_clk _ _ F) in *. split.
  - split; [|by apply (unaged_trans a s s1)]. intros b Hb. apply (reads_trans s s1); auto.
  - exists cas. split; [done|]. intros k e. by rewrite Hsv, Hs, (visible_frame s s1).
Qed.

(** The reference to the item found is given up. *)
Lemma drop_old_spec H s o :
  inv (option_list o ++ H) s -> Z.of_nat (length H) + 1 <= MAX_HELD -> slab_lock s = false -> old_ok s o ->
  wp (match o with Some b => _item_remove2 b true | None => mret tt end)
    (fun _ s' => inv H s' /\ frame s s' /\ (forall k e, serves s' k e <-> serves s k e) /\
      (forall b, reads s s' b) /\ (forall b, o <> Some b -> heap s' !! b = heap s !! b) /\
      (forall k b x, bound s' k b x -> exists y, bound s k b y) /\ forall a, unaged a s s') s.
Proof.
  intros HI HH Hlk Ho. destruct o as [b|].
  - destruct Ho as (x & Hx & Hd & Hh).
    eapply wp_mono; [apply (remove_spec (b :: H) H s b x); try done|]; [simpl; lia|auto|].
    intros _ s' [HI' O]. destruct (dropped_entry x) as (E1 & E2 & E3). split; [done|]. split; [apply O|]. split_and!.
    + intros k e. by apply (only_same s s' b x (dropped x) k e Hx O), same_dropped.
    + intros c. by apply (only_reads b x (dropped x) s s' c Hx O).
    + intros c Hc. apply (only_lookup b (dropped x) s s' c O). congruence.
    + intros k c y Hc. apply (only_bound _ _ _ _ _ _ _ O) in Hc as [(-> & _ & Hl & Hk)|[_ ?]]; [|eauto].
      exists x. destruct (dropped_fields x) as (D1 & D2 & _). split_and!; congruence.
    + intros a. destruct (dropped_fields x) as (D1 & _ & _ & D4 & _). apply (unaged_only a b x (dropped x)); [done|done|right].
      intros Hl. split; congruence.
  - apply wp_ret. split_and!; try done; [intros b; apply reads_refl|eauto|intros a; apply unaged_refl].
Qed.

(** ** Discarding what is found under a key *)

Lemma discard_spec H s a it k :
  inv (a :: H) s -> Z.of_nat (length H) + 1 <= MAX_HELD -> slab_lock s = false -> bound s k a it ->
  wp (_item_unlink a;; _item_remove a) (fun _ s' => inv H s' /\ exists x, only a x s s' /\
    item_is_linked x = false /\ i_key x = i_key it /\ i_nbyte x = i_nbyte it /\ entry_of x = entry_of it) s.
Proof.
  intros HI HH Hlk Hb. assert (Z.of_nat (length (a :: H)) <= MAX_HELD) as HH' by (simpl; lia).
  apply wp_bind. eapply wp_mono; [by apply (unlink_spec (a :: H) s a it); try apply Hb|]. intros _ s1 [HI1 O1].
  destruct (gone_flags it) as [Hl Hk]. destruct (gone_entry it) as (E1 & E2 & E3).
  destruct (dropped_fields (gone it)) as (D1 & _). destruct (dropped_entry (gone it)) as (E4 & E5 & E6).
  eapply wp_mono; [apply (remove_spec (a :: H) H s1 a (gone it) HI1 HH')|]; try done.
  - by apply (only_eq a _ s).
  - intros Hx. congruence.
  - intros _ _. apply (homed_frame s s1 a it); [apply O1|apply gone_respool|].
    by apply (inv_homed (a :: H) s a it HI (proj1 Hb)), Hb.
  - by rewrite (k_slab_lock _ _ (proj1 O1)).
  - intros _ s2 [HI2 O2]. split; [done|]. exists (dropped (gone it)).
    split; [by apply (only_trans a _ _ s s1 s2 O1)|]. split_and!; congruence.
Qed.

(** What steps that link nothing promise: the keys [K] are no longer bound, no
    reader is disturbed, and only items linked under the keys [T] are touched. *)
Record steps (T K : list Z -> Prop) s s' : Prop := Steps {
  st_frame : frame s s';
  st_serves : forall k e, serves s' k e <-> ~ K k /\ serves s k e;
  st_bound : forall k b x, bound s' k b x -> ~ K k /\ exists y, bound s k b y;
  st_reads : forall b, reads s s' b;
  st_rest : forall b x, heap s !! b = Some x -> (item_is_linked x = true -> ~ T (i_key x)) -> heap s' !! b = Some x
}.

Lemma steps_trans (T1 T2 T3 K1 K2 K3 : list Z -> Prop) s1 s2 s3 :
  (forall k, T1 k \/ T2 k -> T3 k) -> (forall k, K3 k <-> K1 k \/ K2 k) ->
  steps T1 K1 s1 s2 -> steps T2 K2 s2 s3 -> steps T3 K3 s1 s3.
Proof.
  intros HT HK [F1 S1 B1 R1 U1] [F2 S2 B2 R2 U2]. split; [by transitivity s2|..].
  - intros k e. rewrite S2, S1, HK. naive_solver.
  - intros k b x Hx. destruct (B2 k b x Hx) as [? [y Hy]]. destruct (B1 k b y Hy) as [? ?]. rewrite HK. naive_solver.
  - intros b. by apply (reads_trans s1 s2).
  - intros b x Hb Hx. apply U2; [apply U1; [done|]|]; intros Hl Hk; apply (Hx Hl); auto.
Qed.

Lemma steps_refl (T K : list Z -> Prop) s : (forall k, ~ K k) -> steps T K s s.
Proof. intros HK. split; [done|naive_solver|eauto|intros; apply reads_refl|done]. Qed.

(** Steps that drop no key. *)
Definition nokey : list Z -> Prop := fun _ => False.

Lemma got_steps H s k o s' : inv H s -> got_item H s k o s' -> steps (fun k' => k' = k) nokey s s'.
Proof.
  intros HI G. destruct (get_serves H s k o s' HI G) as (F & Hs & Hr & _). split; [done| | |done|].
  - intros k' e. rewrite Hs. unfold nokey. naive_solver.
  - intros k' b x Hb. split; [by intros []|]. destruct o as [a|].
    + destruct G as (it & Hb' & _ & _ & O). apply (only_bound _ _ _ _ _ _ _ O) in Hb as [(-> & _ & _ & Hk)|[_ ?]]; [|eauto].
      exists it. destruct Hb' as (? & ? & ?). done.
    + destruct G as [_ [(_ & Hh & _)|(a & it & Hb' & _ & O)]].
      * exists x. unfold bound in *. by rewrite Hh in Hb.
      * apply (only_bound _ _ _ _ _ _ _ O) in Hb as [(_ & _ & Hl & _)|[_ ?]]; [|eauto].
        destruct (gone_flags it). congruence.
  - intros b x Hb Hx.
    assert (forall a y it', bound s k a y -> only a it' s s' -> heap s' !! b = Some x) as Hne.
    { intros a y it' (Ha & Hl & Hk) O. rewrite (only_lookup a it' s s' b O); [done|]. intros ->.
      assert (x = y) as -> by congruence. by apply (Hx Hl). }
    destruct o as [a|].
    + destruct G as (it & Hb' & _ & _ & O). by apply (Hne a it _ Hb' O).
    + destruct G as [_ [(_ & -> & _)|(a & it & Hb' & _ & O)]]; [done|]. by apply (Hne a it _ Hb' O).
Qed.

Lemma gone_steps H s s' k a it x :
  inv H s -> bound s k a it -> only a x s s' -> item_is_linked x = false -> i_key x = i_key it ->
  i_nbyte x = i_nbyte it -> entry_of x = entry_of it -> steps (fun k' => k' = k) (fun k' => k' = k) s s'.
Proof.
  intros HI (Ha & Hl & Hk) O Hx E1 E2 E3. split.
  - apply O.
  - intros k' e. rewrite (only_gone H s s' a it x k' e HI Ha O Hx), Hl, Hk. naive_solver.
  - intros k' b y Hb. apply (only_bound _ _ _ _ _ _ _ O) in Hb as [(_ & _ & ? & _)|[Hne Hb]]; [congruence|].
    split; [|eauto]. intros ->. by destruct (bound_inj H s k b a y it HI Hb) as [? _].
  - intros b. by apply (only_reads a it x s s' b Ha O).
  - intros b y Hb Hy. rewrite (only_lookup a x s s' b O); [done|]. intros ->.
    assert (y = it) as -> by congruence. by apply (Hy Hl).
Qed.

Lemma discard_found_spec H s k o s1 :
  inv H s -> Z.of_nat (length H) + 1 <= MAX_HELD -> slab_lock s = false -> got_item H s k o s1 ->
  wp (unlink_remove o) (fun _ s' => inv H s' /\ steps (fun k' => k' = k) (fun k' => k' = k) s s') s1.
Proof.
  intros HI HH Hlk G. pose proof (got_steps H s k o s1 HI G) as S1.
  destruct (get_serves H s k o s1 HI G) as (F1 & Hs1 & Hr1 & Ho). destruct (got_under H s k o s1 HI G) as (HI1 & Hu & Hun).
  destruct o as [a|]; simpl.
  - destruct Hu as (x & Hb). eapply wp_mono; [apply (discard_spec H s1 a x k); try done; by rewrite (k_slab_lock _ _ F1)|].
    intros _ s2 (HI2 & y & O2 & Hl & Hk & Hn & He). split; [done|].
    apply (steps_trans (fun k' => k' = k) (fun k' => k' = k) _ nokey (fun k' => k' = k) _ s s1 s2);
      [naive_solver|unfold nokey; naive_solver|done|].
    by apply (gone_steps (a :: H) s1 s2 k a x y).
  - apply wp_ret. split; [done|]. destruct S1 as [F S B R U]. split; try done.
    + intros k' e. rewrite Hs1. split; [|naive_solver]. intros He. split; [|done]. intros ->. by apply (Ho e).
    + intros k' b x Hb. split; [|by apply (B k' b x)]. intros ->. by apply (Hu b x).
Qed.

Lemma get_discard_spec H s k (R : unit -> st -> Prop) :
  inv H s -> Z.of_nat (length H) + 1 <= MAX_HELD -> slab_lock s = false ->
  (forall s', inv H s' -> steps (fun k' => k' = k) (fun k' => k' = k) s s' -> slab_lock s' = false -> R tt s') ->
  wp (_item_get k) (fun o s1 => wp (unlink_remove o) R s1) s.
Proof.
  intros HI HH Hlk HR. eapply wp_mono; [apply (get_spec H s k); [done|lia|done]|]. intros o s1 G.
  eapply wp_mono; [by apply (discard_found_spec H s k o s1)|]. intros [] s2 [HI2 D]. apply HR; try done.
  by rewrite (k_slab_lock _ _ (st_frame _ _ _ _ D)).
Qed.

(** ** The memcached update commands *)

(** What memcached answers to the commands that store the item given. *)
Definition store_verdict (type : req_type) it (old : option item) : item_store_result :=
  match type, old with
  | REQ_ADD, Some o => if i_nbyte o =? 0 then STORED else NOT_STORED
  | REQ_REPLACE, Some o => if i_nbyte o =? 0 then NOT_STORED else STORED
  | REQ_REPLACE, None => NOT_STORED
  | REQ_CAS, Some o => if item_cas it =? item_cas o then STORED else EXISTS
  | REQ_CAS, None => NOT_FOUND
  | _, _ => STORED
  end.

Definition store_cmd (type : req_type) : Prop :=
  type = REQ_SET \/ type = REQ_ADD \/ type = REQ_REPLACE \/ type = REQ_CAS.

(** The item a lookup of the key would find. *)
Definition found_under s k (old : option item) : Prop :=
  match old with
  | Some x => exists b, bound s k b x /\ visible s x = true
  | None => forall b x, bound s k b x -> visible s x = false
  end.

(** No item was last used in the future. *)
Definition used_before_now s : Prop :=
  forall a it, heap s !! a = Some it -> item_is_linked it = true -> i_atime it <= time_now (clk s).

Definition not_stored s a it s' : Prop :=
  frame s s' /\ heap s' !! a = Some it /\ (forall k e, serves s' k e <-> serves s k e).

(** ** The decision *)

Lemma got_item_events H s k o s' es : got_item H s k o s' -> got_item H s k o (set_events es s').
Proof.
  assert (frame s' (set_events es s')) as F by auto with mc. destruct o as [a|].
  - intros (it & Hb & Hv & HI & [F' Hh]). exists it. split_and!; [done|done|exact HI|]. split; [by transitivity s'|done].
  - intros [HI [(F' & Hh & Hn)|(a & it & Hb & Hv & [F' Hh])]]; (split; [exact HI|]); [left|right].
    + split; [by transitivity s'|done].
    + exists a, it. split_and!; [done|done|]. split; [by transitivity s'|done].
Qed.

Lemma got_found H s k o s' old : inv H s -> got_item H s k o s' -> found_under s k old ->
  match o with Some b => exists x, bound s k b x /\ old = Some x | None => old = None end.
Proof.
  intros HI G Hf. destruct o as [b|].
  - destruct G as (x & Hb & Hv & _). exists x. split; [done|]. destruct old as [y|].
    + destruct Hf as (c & Hc & _). by destruct (bound_inj H s k b c x y HI Hb Hc) as [_ ->].
    + rewrite (Hf b x Hb) in Hv. done.
  - destruct old as [y|]; [|done]. destruct Hf as (c & Hc & Hv). exfalso.
    destruct G as [_ [(_ & _ & Hn)|(a & it & Hb & Hv' & _)]]; [by apply (Hn c y)|].
    destruct (bound_inj H s k a c it y HI Hb Hc) as [_ ->]. congruence.
Qed.

(** The [switch] decides [v] for the item given. *)
Definition decides a (v : item_store_result) (d : decision) : Prop :=
  d_it d = a /\ d_nit d = None /\ d_lease d = None /\
  (if bool_decide (v = STORED) then d_result d = NOT_STORED /\ d_store d = true
   else d_result d = v /\ (v = NOT_STORED -> d_store d = false)).

Lemma absent_spec s a it type c :
  heap s !! a = Some it -> store_cmd type ->
  wp (item_store_absent a type c)
    (fun d s' => (exists es, s' = set_events es s) /\ decides a (store_verdict type it None) d) s.
Proof.
  intros Ha Ht. unfold item_store_absent. wp_go.
  destruct Ht as [-> | [-> | [-> | ->]]]; wp_go; (split; [by eexists|done]).
Qed.

Lemma present_spec H s a b it oit type c :
  inv H s -> slab_lock s = false -> heap s !! a = Some it -> heap s !! b = Some oit -> store_cmd type ->
  let v := store_verdict type it (Some oit) in
  wp (item_store_present a b type c) (fun d s' => inv H s' /\ decides a v d /\
    if bool_decide (v = STORED) then exists es, s' = set_events es s
    else exists t, only b (set_atime t oit) s s' /\
      (t = i_atime oit \/ (type = REQ_ADD /\ t = time_now (clk s)))) s.
Proof.
  intros HI Hlk Ha Hb Ht v. unfold item_store_present. wp_go.
  assert (forall es, exists t, only b (set_atime t oit) s (set_events es s) /\
    (t = i_atime oit \/ (type = REQ_ADD /\ t = time_now (clk s)))) as Hsame.
  { intros es. exists (i_atime oit). split; [|by left]. split; [auto with mc|].
    replace (set_atime (i_atime oit) oit) with oit by by destruct oit. simpl. by rewrite insert_id. }
  destruct Ht as [-> | [-> | [-> | ->]]]; simpl in v.
  - wp_go. split; [exact HI|]. split; [done|]. by eexists.
  - subst v. destruct (i_nbyte oit =? 0); wp_go; [split; [exact HI|]; split; [done|]; by eexists|].
    eapply wp_mono; [by apply (item_touch_spec H (set_events _ s) b oit)|]. intros _ s' (HI' & t & [F O] & Hx).
    wp_go. split; [done|]. split; [done|]. exists t. split; [|naive_solver]. split; [|done]. transitivity (set_events (ThreadIncr "add_exist" :: events s) s); [auto with mc|done].
  - subst v. destruct (i_nbyte oit =? 0); wp_go; (split; [exact HI|]; split; [done|]); [|by eexists].
    specialize (Hsame (events s)). by destruct s.
  - subst v. destruct (item_cas it =? item_cas oit); cbn [negb]; wp_go; (split; [exact HI|]; split; [done|]); [by eexists|].
    apply Hsame.
Qed.

Lemma visible_touch s it : visible s it = true -> i_atime it <= time_now (clk s) ->
  visible s (set_atime (time_now (clk s)) it) = true.
Proof.
  unfold visible, expired, flushed. simpl. intros Hv Ha. apply andb_true_iff in Hv as [-> Hv]. simpl.
  apply negb_true_iff in Hv. apply negb_true_iff. revert Hv. repeat zcase; simpl; done || lia.
Qed.

(** When nothing is stored. *)
Lemma skip_spec H s s1 s2 a it b oit t :
  inv H s -> Z.of_nat (length H) + 1 <= MAX_HELD -> slab_lock s = false ->
  heap s !! a = Some it -> item_is_linked it = false ->
  bound s (i_key it) b oit -> visible s oit = true -> only b (set_refcount (i_refcount oit + 1) oit) s s1 ->
  inv (b :: H) s2 -> only b (set_atime t (set_refcount (i_refcount oit + 1) oit)) s1 s2 ->
  (t = i_atime oit \/ (used_before_now s /\ t = time_now (clk s))) ->
  wp (_item_remove2 b true) (fun _ s' => inv H s' /\ not_stored s a it s') s2.
Proof.
  intros HI HH Hlk Ha Hnew Hb Hv O1 HI2 O2 Ht.
  pose proof (only_trans _ _ _ _ _ _ O1 O2) as O. set (x := set_atime t (set_refcount (i_refcount oit + 1) oit)) in *.
  assert (a <> b) as Hne by (intros ->; destruct Hb as (Hb & Hl & _); congruence).
  assert (same_entry s oit x) as Hsame.
  { split; try done. rewrite Hv. destruct Ht as [-> | [Hck ->]]; [exact Hv|].
    apply (visible_touch s oit); [done|]. destruct Hb as (Hb & Hl & _). by apply (Hck b). }
  eapply wp_mono; [apply (drop_old_spec H s2 (Some b)); try done|].
  - by rewrite (k_slab_lock _ _ (proj1 O)).
  - exists x. split_and!; [by apply (only_eq b x s)| |].
    + by apply (inv_droppable H s s2 b oit HI (proj1 Hb)), (k_cfg _ _ (proj1 O)).
    + intros Hl. change (item_is_linked oit = false) in Hl. destruct Hb as (_ & Hl' & _). congruence.
  - intros _ s3 (HI3 & F3 & Hs3 & _ & Hh3 & _). split; [done|]. split_and!.
    + transitivity s2; [apply O|done].
    + rewrite Hh3 by congruence. by rewrite (only_lookup b x s s2 a O Hne).
    + intros k e. rewrite Hs3. by apply (only_same s s2 b oit x k e (proj1 Hb) O).
Qed.

Lemma stored_trans s s1 a it s2 :
  frame s s1 -> stored s a it s1 -> heap s2 !! a = heap s1 !! a -> frame s1 s2 ->
  (forall k e, serves s2 k e <-> serves s1 k e) -> (forall b, reads s1 s2 b) -> unaged a s1 s2 -> stored s a it s2.
Proof.
  intros F (F1 & [R1 U1] & cas & Ha & Hs) Hh F2 Hs2 R2 U2. split; [by transitivity s1|]. split.
  - split; [|by apply (unaged_trans a s s1)]. intros b Hb. apply (reads_trans s s1); auto.
  - exists cas. rewrite Hh. split; [done|]. intros k e. by rewrite Hs2.
Qed.

(** The [switch], after the lookup: either the item is to be stored, or what is
    left is to give the reference up. *)
Lemma decision_spec H s s1 a it type c old o :
  inv H s -> Z.of_nat (length H) + 1 <= MAX_HELD -> slab_lock s = false -> (type = REQ_ADD -> used_before_now s) ->
  linkable H s a it -> store_cmd type -> found_under s (i_key it) old -> got_item H s (i_key it) o s1 ->
  let v := store_verdict type it old in
  wp (match o with None => item_store_absent a type c | Some oa => item_store_present a oa type c end)
    (fun d s2 => decides a v d /\
      if bool_decide (v = STORED) then got_item H s (i_key it) o s2
      else wp (match o with Some oa => _item_remove2 oa true | None => mret tt end)
        (fun _ s' => inv H s' /\ not_stored s a it s') s2) s1.
Proof.
  intros HI HH Hlk Hck Hla Ht Hf G v. pose proof (lk_item _ _ _ _ Hla) as Ha. pose proof (lk_new _ _ _ _ Hla) as Hnew.
  pose proof (got_found H s _ o s1 old HI G Hf) as Hold.
  destruct (get_serves H s _ o s1 HI G) as (F1 & Hs1 & Hr1 & _). destruct o as [b|].
  - destruct Hold as (x & Hb & ->). destruct G as (y & Hb' & Hv & HI1 & O1).
    destruct (bound_inj H s _ b b x y HI Hb Hb') as [_ <-]. set (x1 := set_refcount (i_refcount x + 1) x) in *.
    assert (a <> b) as Hne by (intros ->; destruct Hb as (Hb & Hl & _); congruence).
    eapply wp_mono; [apply (present_spec (b :: H) s1 a b it x1 type c HI1)|].
    + by rewrite (k_slab_lock _ _ F1).
    + by rewrite (only_lookup b x1 s s1 a O1 Hne).
    + by apply (only_eq b x1 s).
    + done.
    + intros d s2 (HI2 & D & Hd). change (store_verdict type it (Some x1)) with v in *. split; [done|].
      case_bool_decide.
      * destruct Hd as [es ->]. apply got_item_events. by exists x.
      * destruct Hd as (t & O2 & Hx). apply (skip_spec H s s1 s2 a it b x t); try done.
        rewrite (k_clk _ _ F1) in Hx. naive_solver.
  - subst old. assert (heap s1 !! a = Some it) as Ha1.
    { destruct G as [_ [(_ & -> & _)|(b & x & Hb & _ & O)]]; [done|]. rewrite (only_lookup b (gone x) s s1 a O); [done|].
      intros ->. destruct Hb as (Hb & Hl & _). congruence. }
    eapply wp_mono; [by apply (absent_spec s1 a it type c)|]. intros d s2 [[es ->] D]. split; [done|].
    case_bool_decide; [by apply got_item_events|]. apply wp_ret. split; [apply G|].
    split_and!; [transitivity s1; [done|auto with mc]|done|exact Hs1].
Qed.

Lemma store_spec H s a it type c old :
  inv H s -> Z.of_nat (length H) + 1 <= MAX_HELD -> slab_lock s = false -> (type = REQ_ADD -> used_before_now s) ->
  linkable H s a it -> i_nbyte it <> 0 -> store_cmd type -> found_under s (i_key it) old ->
  wp (_item_store a type c true) (fun r s' => r = store_verdict type it old /\ inv H s' /\
    if bool_decide (r = STORED) then stored s a it s' else not_stored s a it s') s.
Proof.
  intros HI HH Hlk Hck Hla Hn Ht Hf. pose proof (lk_item _ _ _ _ Hla) as Ha. pose proof (lk_new _ _ _ _ Hla) as Hnew.
  unfold _item_store. wp_go. rewrite (proj2 (Z.eqb_neq _ _)) by done. cbn [andb]. apply wp_bind.
  eapply wp_mono; [apply (get_spec H s (i_key it)); [done|lia|done]|]. intros o s1 G.
  assert (o <> Some a) as Hoa.
  { intros ->. destruct G as (x & (Hx & Hl & _) & _). congruence. }
  apply wp_bind. eapply wp_mono; [by apply (decision_spec H s s1 a it type c old o)|].
  intros d s2 [(D1 & D2 & D3 & D4) D5]. set (v := store_verdict type it old) in *. apply wp_bind.
  case_bool_decide as Ev.
  - destruct D4 as [-> ->]. rewrite bool_decide_true by done. cbn [andb]. wp_go. rewrite D1.
    destruct (get_serves H s _ o s2 HI D5) as (F2 & Hs2 & Hr2 & _). destruct (got_under H s _ o s2 HI D5) as (HI2 & Hu & _).
    eapply wp_mono; [apply (put_item_spec (option_list o ++ H) s2 a it o); try done|].
    { rewrite length_app. destruct o; simpl; lia. }
    { by rewrite (k_slab_lock _ _ F2). }
    { by apply (got_linkable H s (i_key it)). }
    intros _ s3 (HI3 & S3 & O3 & _). apply (stored_from s s2 a it s3 F2 Hs2) in S3; [|by auto|by eapply got_unaged]. wp_go.
    eapply wp_mono; [apply (drop_old_spec H s3 o); try done; by rewrite (k_slab_lock _ _ (proj1 S3))|].
    intros _ s4 (HI4 & F4 & Hs4 & Hr4 & Hh4 & _ & Hu4). unfold opt_remove. rewrite D2, D3. wp_go.
    split; [done|]. split; [done|]. rewrite bool_decide_true by done.
    apply (stored_trans s s3); try done; [apply S3|]. by apply Hh4.
  - destruct D4 as [-> Hd]. assert (bool_decide (v = NOT_STORED) && d_store d = false) as ->.
    { case_bool_decide as E; [by rewrite Hd|done]. }
    wp_go. eapply wp_mono; [exact D5|]. intros _ s3 [HI3 N3]. unfold opt_remove. rewrite D2, D3. wp_go.
    split; [done|]. split; [done|]. by rewrite bool_decide_false.
Qed.

(** ** Under the cache lock *)

Lemma frame_locked s s' :
  cache_lock s = false -> frame (set_cache_lock true s) s' -> frame s (set_cache_lock false s').
Proof. intros Hc []. split; simpl; try done. Qed.

Lemma wp_cache_locked {A} (m : M st A) (R : A -> st -> Prop) s :
  cache_lock s = false ->
  wp m (fun r s' => cache_lock s' = true /\ R r (set_cache_lock false s')) (set_cache_lock true s) ->
  wp (lock_cache;; r ← m; unlock_cache;; mret r) R s.
Proof.
  intros Hc Hm. apply wp_bind, wp_lock_cache; [done|]. apply wp_bind. eapply wp_mono; [exact Hm|].
  intros r s' [Hl HR]. apply wp_bind, wp_unlock_cache; [done|]. by apply wp_ret.
Qed.

Lemma write_spec H s a it it' off bs :
  inv H s -> heap s !! a = Some it -> item_write it off bs = Some it' ->
  (item_is_linked it = true -> item_is_lease_holder it = false) ->
  wp (write_data a off bs) (fun _ s' => inv H s' /\ only a it' s s') s.
Proof.
  intros HI Ha Hw Hl. unfold write_data. wp_go. eapply wp_lift; [exact Hw|]. wp_go.
  unfold item_write in Hw. destruct (mem_write _ _ _) as [p|] eqn:E; [|done]. injection Hw as <-.
  apply mem_write_length in E. split; [|split; [auto with mc|done]].
  apply (INV_inert None H _ _ _ _ _ _ _ _ a it); [exact HI|done|]. split; try done. intros Hlk.
  split_and!; try done.
  - destruct (v_data _ _ _ _ _ _ _ _ _ _ HI a it Ha Hlk) as [(L1 & L2 & L3 & L4) _].
    unfold layout. simpl. rewrite E. done.
  - intros Hh. change (item_is_lease_holder it = true) in Hh. rewrite Hl in Hh; done.
Qed.

Lemma item_store_spec H s a it type c old :
  inv H s -> Z.of_nat (length H) + 1 <= MAX_HELD -> slab_lock s = false -> cache_lock s = false ->
  (type = REQ_ADD -> used_before_now s) -> linkable H s a it -> i_nbyte it <> 0 -> store_cmd type -> found_under s (i_key it) old ->
  wp (item_store a type c) (fun r s' => r = store_verdict type it old /\ inv H s' /\
    if bool_decide (r = STORED) then stored s a it s' else not_stored s a it s') s.
Proof.
  intros HI HH Hs Hc Hck Hla Hn Ht Hf.   apply wp_cache_locked; [done|].
  assert (linkable H (set_cache_lock true s) a it) as Hla' by (destruct Hla; by split).
  eapply wp_mono; [by apply (store_spec H (set_cache_lock true s) a it type c old)|].
  intros r s' (Hr & HI' & Hd). case_bool_decide.
  - destruct Hd as (F & R & D). split; [by rewrite (k_cache_lock _ _ F)|]. split; [done|]. split; [exact HI'|].
    split; [by apply frame_locked|done].
  - destruct Hd as (F & D). split; [by rewrite (k_cache_lock _ _ F)|]. split; [done|]. split; [exact HI'|].
    split; [by apply frame_locked|done].
Qed.

(** C10: [item_store] with set, add, replace or cas on a fresh item answers what
    memcached documents for the visible item under the key; when it stores, the
    key serves the new item and every other key what it served before, and when
    it does not, no key changes.  No reader of another item is disturbed. *)
Theorem item_store_verdict H s a it type c old
  (HI : inv H s) (HH : Z.of_nat (length H) + 1 <= MAX_HELD) (Hs : slab_lock s = false) (Hc : cache_lock s = false)
  (Hck : type = REQ_ADD -> used_before_now s) (Hla : linkable H s a it) (Hn : i_nbyte it <> 0) (Ht : store_cmd type)
  (Hf : found_under s (i_key it) old) :
  wp (item_store a type c) (fun r s' => r = store_verdict type it old /\ inv H s' /\
    if bool_decide (r = STORED) then stored s a it s' else not_stored s a it s') s.
Proof. by apply item_store_spec. Qed.

(** ** A concrete cache *)

Definition run {A} (m : M st A) s : st := match m s with Some (_, s') => s' | None => s end.

Lemma run_result {A} (m : M st A) s x : fst <$> m s = Some x -> m s = Some (x, run m s).
Proof. unfold run. destruct (m s) as [[r s']|]; simpl; congruence. Qed.

Lemma wp_run {A} (m : M st A) (Q : A -> st -> Prop) s x : wp m Q s -> fst <$> m s = Some x -> Q x (run m s).
Proof. intros Hw He. by eapply wp_result, run_result. Qed.

Definition ex_init : st := cache_init ex_cfg ex_env ex_clk.
Definition ex_key : list Z := [102; 111; 111].
Definition ex_a : addr := (0%nat, 32).
Definition ex_conn : conn := Conn REQ_SET 0 [].

Lemma ex_init_inv : inv [] ex_init.
Proof. apply start_inv; [exact ex_cfg_ok|by vm_compute]. Qed.

(** An item for [foo] holding [12345], allocated and filled. *)
Definition ex_new : st := run (_item_alloc 1 ex_key 0 0 5 true false) ex_init.
Definition ex_filled : st := run (write_data ex_a 0 (init [49; 50; 51; 52; 53; 13; 10])) ex_new.
Definition ex_it : item := default ex_item (heap ex_filled !! ex_a).

Lemma ex_new_inv : inv [ex_a] ex_new /\ cfg ex_new = ex_cfg /\ slab_lock ex_new = false.
Proof.
  assert (wp (_item_alloc 1 ex_key 0 0 5 true false) (alloced [] ex_init false 1 ex_key 0 0 5 (-1)) ex_init) as Hw.
  { apply alloc_spec; [exact ex_init_inv|by vm_compute|by vm_compute| |by vm_compute..].
    split; [done|right; right; by vm_compute|done]. }
  assert (fst <$> _item_alloc 1 ex_key 0 0 5 true false ex_init = Some (Some ex_a)) as He by (vm_compute; reflexivity).
  assert (alloced [] ex_init false 1 ex_key 0 0 5 (-1) (Some ex_a) ex_new) as (K & HI & _) by exact (wp_run _ _ _ _ Hw He). split; [exact HI|].
  rewrite (k_cfg _ _ K), (k_slab_lock _ _ K). exact (conj eq_refl eq_refl).
Qed.

Lemma ex_filled_inv : inv [ex_a] ex_filled /\ cfg ex_filled = ex_cfg /\ slab_lock ex_filled = false.
Proof.
  destruct ex_new_inv as (HI & Hc & Hl). set (bs := init [49; 50; 51; 52; 53; 13; 10]).
  set (it := default ex_item (heap ex_new !! ex_a)).
  set (it' := default ex_item (item_write it 0 bs)).
  assert (wp (write_data ex_a 0 bs) (fun _ s' => inv [ex_a] s' /\ only ex_a it' ex_new s') ex_new) as Hw.
  { apply (write_spec [ex_a] ex_new ex_a it it' 0 bs HI); try by vm_compute. }
  assert (fst <$> write_data ex_a 0 bs ex_new = Some tt) as He by (vm_compute; reflexivity).
  assert (inv [ex_a] ex_filled /\ only ex_a it' ex_new ex_filled) as [HI' [F _]] by exact (wp_run _ _ _ _ Hw He). split; [exact HI'|].
  rewrite (k_cfg _ _ F), (k_slab_lock _ _ F). exact (conj Hc Hl).
Qed.

Lemma ex_unlinked : map_Forall (fun _ it => item_is_linked it = false) (heap ex_filled).
Proof. apply (bool_decide_unpack _). vm_compute. exact I. Qed.

Lemma ex_linkable : linkable [ex_a] ex_filled ex_a ex_it.
Proof.
  split; try by vm_compute.
  - unfold homed. apply (bool_decide_unpack _). vm_compute. exact I.
  - right. by vm_compute.
Qed.

Lemma ex_absent k : found_under ex_filled k None.
Proof. intros b x (Hb & Hl & _). rewrite (ex_unlinked b x Hb) in Hl. done. Qed.

Lemma item_store_verdict_witness :
  wp (item_store ex_a REQ_SET ex_conn) (fun r s' => r = STORED /\ inv [ex_a] s' /\ stored ex_filled ex_a ex_it s') ex_filled.
Proof.
  destruct ex_filled_inv as (HI & _ & Hl).
  refine (wp_mono _ _ _ _ (item_store_verdict [ex_a] ex_filled ex_a ex_it REQ_SET ex_conn None HI _ Hl _ _
    ex_linkable _ _ (ex_absent _)) _).
  - by vm_compute.
  - by vm_compute.
  - intros Hx. discriminate Hx.
  - by vm_compute.
  - by left.
  - intros r s' (-> & HI' & Hd). split; [reflexivity|]. split; [exact HI'|]. exact Hd.
Defined.

(** ** Start-up, allocation and lookup *)

(** For settings within the bounds, start-up establishes the invariant with
    no reference held, both locks free and no key served. *)
Theorem cache_init_empty c e ck (Hc : cfg_ok c) (Hh : heap_ok c) :
  inv [] (cache_init c e ck) /\ cache_lock (cache_init c e ck) = false /\ slab_lock (cache_init c e ck) = false /\
  forall key en, ~ serves (cache_init c e ck) key en.
Proof.
  split; [by apply start_inv|]. split; [done|]. split; [done|].
  intros key en (a & it & (Ha & _) & _). simpl in Ha. by apply lookup_empty_Some in Ha.
Qed.

Lemma cache_init_empty_witness : inv [] ex_init.
Proof. apply (cache_init_empty ex_cfg ex_env ex_clk); [exact ex_cfg_ok|by vm_compute]. Defined.

(** Eviction only loses entries. *)
Lemma keeps_serves s s' k e : keeps s s' -> serves s' k e -> serves s k e.
Proof.
  intros K (a & it & (Ha & Hl & Hk) & Hv & He). exists a, it. split_and!; [|by rewrite <-(visible_frame s s'); [|apply K]|done].
  split_and!; [|done|done]. by apply (k_link _ _ K).
Qed.

(** C13: [item_alloc] runs without undefined behaviour whenever the key fits the
    class.  It hands out a chunk nobody references, holding the key and one
    reference, or fails; either way every referenced item is left as it was
    (all linked leases among them), no key serves anything it did not serve
    before, and the invariant is kept. *)
Theorem item_alloc_safe H s id key dataflags exptime nbyte
  (HI : inv H s) (HH : Z.of_nat (length H) <= MAX_HELD) (Hid : id_ok (cfg s) id) (Hal : alloc_ok s false)
  (Hc : cache_lock s = false) (Hk : Z.of_nat (length key) < 256) (Hb : 0 <= nbyte < 2 ^ 32)
  (Hp : 0 <= payload_size (psize (cfg s) id) (Z.of_nat (length key)) (use_cas (cfg s))) :
  wp (item_alloc id key dataflags exptime nbyte) (fun o s' =>
    alloced H s false id key dataflags exptime nbyte (-1) o s' /\
    (forall a it, heap s !! a = Some it -> item_is_linked it = true -> item_is_pinned_kind it = true ->
       heap s' !! a = Some it) /\
    (forall k e, serves s' k e -> serves s k e)) s.
Proof.
  apply wp_cache_locked; [done|]. eapply wp_mono.
  { apply (alloc_spec H (set_cache_lock true s) false id key dataflags exptime nbyte (-1)); try done.
    destruct Hal; by split. }
  intros o s' [K Ho]. split; [by rewrite (k_cache_lock _ _ K)|].
  assert (keeps s (set_cache_lock false s')) as K'.
  { destruct K as [F K1 K2]. split; [by apply frame_locked|done|done]. }
  split_and!.
  - split; [done|]. destruct o; exact Ho.
  - intros a it Ha Hl Hpk. apply (k_ref _ _ K'); [done|].
    pose proof (inv_pinned H s HI a it Ha Hl Hpk). pose proof (held_nonneg a H). lia.
  - intros k e. by apply keeps_serves.
Qed.

Lemma ex_alloc_ok : alloc_ok ex_init false.
Proof. split; [done|right; right; by vm_compute|done]. Qed.

Lemma item_alloc_safe_witness :
  wp (item_alloc 1 ex_key 0 0 5) (fun o s' => alloced [] ex_init false 1 ex_key 0 0 5 (-1) o s') ex_init.
Proof.
  refine (wp_mono _ _ _ _ (item_alloc_safe [] ex_init 1 ex_key 0 0 5 ex_init_inv _ _ ex_alloc_ok _ _ _ _) _).
  1-6: by vm_compute.
  intros o s' (Ho & _). exact Ho.
Defined.

Lemma item_get_spec H s k :
  inv H s -> Z.of_nat (length H) <= MAX_HELD -> slab_lock s = false -> cache_lock s = false ->
  wp (item_get k) (fun o s' =>
    match o with
    | Some a => exists it, bound s k a it /\ serves s k (entry_of it) /\ inv (a :: H) s' /\
        heap s' !! a = Some (set_refcount (i_refcount it + 1) it)
    | None => inv H s' /\ (forall e, ~ serves s k e) /\ forall a it, ~ bound s' k a it
    end /\ (forall k' e, serves s' k' e <-> serves s k' e) /\ forall b, reads s s' b) s.
Proof.
  intros HI HH Hs Hc. apply wp_cache_locked; [done|]. set (s0 := set_cache_lock true s).
  eapply wp_mono; [by apply (get_spec H s0 k)|]. intros o s' G.
  destruct (get_serves H s0 k o s' HI G) as (F & Hsv & Hr & Ho).
  split; [by rewrite (k_cache_lock _ _ F)|]. split; [|done]. destruct o as [a|].
  - destruct G as (it & Hb & Hv & HI' & O). exists it. split; [done|]. split; [by exists a, it|].
    split; [exact HI'|]. exact (only_eq a _ s0 s' O).
  - destruct G as [HI' G]. split; [exact HI'|]. split; [exact Ho|]. intros a it Hb.
    destruct G as [(_ & Hh & Hn)|(b & x & Hbx & _ & O)].
    + apply (Hn a it). unfold bound in Hb. simpl in Hb. by rewrite Hh in Hb.
    + by apply (unbound_after H s0 s' k b x HI Hbx O a it).
Qed.

(** C11: [item_get] answers the visible item under the key, with one more
    reference, or nothing when no visible item has the key; a stale item is
    unlinked on the way.  What any key serves and what any reader reads does
    not change. *)
Theorem item_get_visible H s k
  (HI : inv H s) (HH : Z.of_nat (length H) <= MAX_HELD) (Hs : slab_lock s = false) (Hc : cache_lock s = false) :
  wp (item_get k) (fun o s' =>
    match o with
    | Some a => exists it, bound s k a it /\ serves s k (entry_of it) /\ inv (a :: H) s' /\
        heap s' !! a = Some (set_refcount (i_refcount it + 1) it)
    | None => inv H s' /\ (forall e, ~ serves s k e) /\ forall a it, ~ bound s' k a it
    end /\ (forall k' e, serves s' k' e <-> serves s k' e) /\ forall b, reads s s' b) s.
Proof. by apply item_get_spec. Qed.

(** The item is linked. *)
Definition ex_stored : st := run (_item_store ex_a REQ_SET ex_conn true) ex_filled.

Lemma ex_stored_inv : inv [ex_a] ex_stored /\ stored ex_filled ex_a ex_it ex_stored /\
  slab_lock ex_stored = false /\ cache_lock ex_stored = false.
Proof.
  destruct ex_filled_inv as (HI & _ & Hl).
  assert (wp (_item_store ex_a REQ_SET ex_conn true) (fun r s' => r = STORED /\ inv [ex_a] s' /\
    stored ex_filled ex_a ex_it s') ex_filled) as Hw.
  { refine (wp_mono _ _ _ _ (store_spec [ex_a] ex_filled ex_a ex_it REQ_SET ex_conn None HI _ Hl _
      ex_linkable _ _ (ex_absent _)) _).
    - by vm_compute.
    - intros Hx. discriminate Hx.
    - by vm_compute.
    - by left.
    - intros r s' (-> & HI' & Hd). split; [reflexivity|]. split; [exact HI'|]. exact Hd. }
  assert (fst <$> _item_store ex_a REQ_SET ex_conn true ex_filled = Some STORED) as He by (vm_compute; reflexivity).
  assert (inv [ex_a] ex_stored /\ stored ex_filled ex_a ex_it ex_stored) as [HI' S]
    by exact (proj2 (wp_run _ _ _ _ Hw He)). split; [exact HI'|]. split; [exact S|].
  destruct S as [F _]. rewrite (k_slab_lock _ _ F), (k_cache_lock _ _ F). split; [exact Hl|by vm_compute].
Qed.

Lemma item_get_visible_witness :
  let s' := run (item_get ex_key) ex_stored in
  inv [ex_a; ex_a] s' /\ forall k' e, serves s' k' e <-> serves ex_stored k' e.
Proof.
  destruct ex_stored_inv as (HI & _ & Hs & Hc). intros s'.
  assert (Z.of_nat (length [ex_a]) <= MAX_HELD) as HH by by vm_compute.
  assert (fst <$> item_get ex_key ex_stored = Some (Some ex_a)) as He by (vm_compute; reflexivity).
  destruct (wp_run _ _ _ _ (item_get_visible [ex_a] ex_stored ex_key HI HH Hs Hc) He) as ((it & _ & _ & HI' & _) & Hsv & _).
  exact (conj HI' Hsv).
Defined.

(** ** Delete *)

Lemma steps_events T K s s' es : steps T K s s' -> steps T K s (set_events es s').
Proof. intros [F S B R U]. split; [transitivity s'; [done|auto with mc]|exact S|exact B|exact R|exact U]. Qed.

Lemma steps_locked T K s s' : cache_lock s = false -> steps T K (set_cache_lock true s) s' ->
  steps T K s (set_cache_lock false s').
Proof. intros Hc [F S B R U]. split; [by apply frame_locked|exact S|exact B|exact R|exact U]. Qed.

(** The keys [item_get_and_delete] clears beside the key itself, and all. *)
Definition lease_keys (delete_lease : bool) k k' : Prop :=
  delete_lease = true /\ (k' = mc_get_lease_key k \/ k' = mc_get_version_key k \/ k' = mc_get_co_lease_key k).
Definition deleted_keys (delete_lease : bool) k k' : Prop := k' = k \/ lease_keys delete_lease k k'.

Lemma delete_leases_spec H s k (b : bool) (R : unit -> st -> Prop) :
  inv H s -> Z.of_nat (length H) + 1 <= MAX_HELD -> slab_lock s = false ->
  (forall s', inv H s' -> steps (lease_keys b k) (lease_keys b k) s s' -> slab_lock s' = false -> R tt s') ->
  wp (when b (
    o ← _item_get_lease k; unlink_remove o;;
    o ← _item_get_pending_version k; unlink_remove o;;
    o ← _item_get_co_lease k; unlink_remove o)) R s.
Proof.
  intros HI HH Hlk HR. destruct b; cbn [when].
  - apply wp_bind. eapply wp_mono; [|intros o s1 Hw; apply wp_bind; exact Hw].
    apply (get_discard_spec H s _ _ HI HH Hlk). intros s1 HI1 D1 Hl1.
    apply wp_bind. eapply wp_mono; [|intros o s2 Hw; apply wp_bind; exact Hw].
    apply (get_discard_spec H s1 _ _ HI1 HH Hl1). intros s2 HI2 D2 Hl2.
    apply wp_bind. apply (get_discard_spec H s2 _ _ HI2 HH Hl2). intros s3 HI3 D3 Hl3. apply HR; [done| |done].
    set (VC := fun k' => k' = mc_get_version_key k \/ k' = mc_get_co_lease_key k).
    apply (steps_trans (fun k' => k' = mc_get_lease_key k) VC _ (fun k' => k' = mc_get_lease_key k) VC _ s s1 s3);
      [unfold lease_keys; naive_solver|unfold lease_keys; naive_solver|done|].
    by apply (steps_trans (fun k' => k' = mc_get_version_key k) (fun k' => k' = mc_get_co_lease_key k) _
      (fun k' => k' = mc_get_version_key k) (fun k' => k' = mc_get_co_lease_key k) _ s1 s2 s3).
  - apply wp_ret. apply HR; [done| |done]. apply steps_refl. by intros k' [? _].
Qed.

(** C12: [item_get_and_delete] answers EXISTS exactly when the key was served;
    afterwards the key is not served, nor with [delete_lease] its lease, pending
    version and C/O lease; every other key is served as before, no reader is
    disturbed and no item under another key is touched. *)
Theorem item_delete_removes H s k delete_lease
  (HI : inv H s) (HH : Z.of_nat (length H) + 1 <= MAX_HELD) (Hs : slab_lock s = false) (Hc : cache_lock s = false) :
  wp (item_get_and_delete k delete_lease) (fun r s' => inv H s' /\
    steps (deleted_keys delete_lease k) (deleted_keys delete_lease k) s s' /\
    (r = EXISTS \/ r = NOT_FOUND) /\ (r = EXISTS <-> exists e, serves s k e)) s.
Proof.
  unfold item_get_and_delete. apply wp_bind, wp_lock_cache; [done|]. apply wp_bind.
  apply (delete_leases_spec H (set_cache_lock true s) k delete_lease); [done|done|done|].
  intros s1 HI1 D1 Hl1. apply wp_bind. eapply wp_mono; [apply (get_spec H s1 k); [done|lia|done]|]. intros o s2 G.
  pose proof (get_serves H s1 k o s2 HI1 G) as (_ & _ & _ & Ho).
  pose proof (discard_found_spec H s1 k o s2 HI1 HH Hl1 G) as Hd.
  assert (forall e, serves s1 k e <-> serves s k e) as Hk.
  { intros e. rewrite (st_serves _ _ _ _ D1). split; [by intros [_ ?]|]. intros He. split; [|done].
    intros [_ [Hx|[Hx|Hx]]]; apply (f_equal length) in Hx; simpl in Hx; lia. }
  assert (forall r s3, inv H s3 -> steps (fun k' => k' = k) (fun k' => k' = k) s1 s3 -> (r = EXISTS \/ r = NOT_FOUND) ->
    (r = EXISTS <-> exists e, serves s k e) ->
    wp unlock_cache (fun _ s' => inv H s' /\ steps (deleted_keys delete_lease k) (deleted_keys delete_lease k) s s' /\
      (r = EXISTS \/ r = NOT_FOUND) /\ (r = EXISTS <-> exists e, serves s k e)) s3) as Hend.
  { intros r s3 HI3 D3 Hr1 Hr2. apply wp_unlock_cache.
    { rewrite (k_cache_lock _ _ (st_frame _ _ _ _ D3)). by rewrite (k_cache_lock _ _ (st_frame _ _ _ _ D1)). }
    split; [exact HI3|]. split; [|done]. apply steps_locked; [done|].
    refine (steps_trans _ _ _ _ _ _ _ s1 s3 _ _ D1 D3); unfold deleted_keys; naive_solver. }
  apply wp_bind. destruct o as [a|].
  - apply wp_bind. apply wp_bind_inv in Hd. eapply wp_mono; [exact Hd|]. intros u s3 Hd3. apply wp_bind.
    eapply wp_mono; [exact Hd3|]. intros _ s4 [HI4 D4]. wp_go.
    apply (Hend EXISTS (set_events _ s4)); [exact HI4|by apply steps_events|by left|].
    split; [|done]. intros _. destruct Ho as [e He]. exists e. by apply Hk.
  - destruct Hd as [HI3 D3]. apply wp_bind. wp_go.
    apply (Hend NOT_FOUND (set_events _ s2)); [exact HI3|by apply steps_events|by right|].
    split; [done|]. intros [e He]. apply Hk in He. by destruct (Ho e).
Qed.

Lemma item_delete_removes_witness :
  steps (deleted_keys true ex_key) (deleted_keys true ex_key) ex_stored (run (item_get_and_delete ex_key true) ex_stored).
Proof.
  destruct ex_stored_inv as (HI & _ & Hs & Hc).
  assert (Z.of_nat (length [ex_a]) + 1 <= MAX_HELD) as HH by by vm_compute.
  assert (fst <$> item_get_and_delete ex_key true ex_stored = Some EXISTS) as He by (vm_compute; reflexivity).
  exact (proj1 (proj2 (wp_run _ _ _ _ (item_delete_removes [ex_a] ex_stored ex_key true HI HH Hs Hc) He))).
Defined.

(** ** Round trip *)

(** Not expired, and not caught by a flush. *)
Definition lasting s it : Prop :=
  (i_exptime it = 0 \/ time_now (clk s) < i_exptime it) /\
  (oldest_live (cfg s) = 0 \/ oldest_live (cfg s) <> time_now (clk s)).

Lemma lasting_visible s it cas : lasting s it -> visible s (linked_item cas (time_now (clk s)) it) = true.
Proof.
  intros [He Hl]. destruct (linked_item_fields cas (time_now (clk s)) it) as (_ & _ & _ & _ & _ & _ & _ & _ & _ & Hx & _).
  unfold visible, expired, flushed. rewrite Hx. unfold linked_item. cbn [i_atime set_atime].
  repeat zcase; simpl; try done; lia.
Qed.

(** Setting a key and getting it answers the item just stored, with the
    value, flags and expiry time that were given and a further reference. *)
Theorem set_get_roundtrip H s a it c old
  (HI : inv H s) (HH : Z.of_nat (length H) + 1 <= MAX_HELD) (Hs : slab_lock s = false) (Hc : cache_lock s = false)
  (Hla : linkable H s a it) (Hn : i_nbyte it <> 0)
  (Hf : found_under s (i_key it) old) (Hv : lasting s it) :
  wp (r ← item_store a REQ_SET c; o ← item_get (i_key it); mret (r, o)) (fun ro s' =>
    ro = (STORED, Some a) /\ inv (a :: H) s' /\ exists it', heap s' !! a = Some it' /\
      item_value it' = item_value it /\ i_dataflags it' = i_dataflags it /\ i_exptime it' = i_exptime it /\
      i_refcount it' = i_refcount it + 1) s.
Proof.
  apply wp_bind. eapply wp_mono; [apply (item_store_spec H s a it REQ_SET c old); try done; by left|].
  intros r s1 (-> & HI1 & Hst). destruct Hst as (F1 & _ & cas & Ha & _). apply wp_bind.
  assert (slab_lock s1 = false) as Hs1 by by rewrite (k_slab_lock _ _ F1).
  assert (cache_lock s1 = false) as Hc1 by by rewrite (k_cache_lock _ _ F1).
  destruct (linked_item_fields cas (time_now (clk s)) it) as (_ & _ & L3 & L4 & _ & _ & _ & _ & _ & L10 & L11 & _).
  destruct (linked_item_flags cas (time_now (clk s)) it) as (L5 & _ & _ & _ & _ & _ & _ & L8).
  pose proof (lasting_visible s it cas Hv) as Hvis. rewrite <-(visible_frame s s1) in Hvis by done.
  set (it' := linked_item cas (time_now (clk s)) it) in *.
  assert (bound s1 (i_key it) a it') as Hb by done.
  apply wp_cache_locked; [done|]. set (s2 := set_cache_lock true s1).
  eapply wp_mono; [apply (get_spec H s2 (i_key it)); [exact HI1|lia|exact Hs1]|]. intros o s3 G.
  assert (cache_lock s3 = true) as Hc3.
  { destruct (get_serves H s2 _ o s3 HI1 G) as (F & _). by rewrite (k_cache_lock _ _ F). }
  split; [exact Hc3|]. apply wp_ret. destruct o as [b|].
  - destruct G as (x & Hbx & _ & HI3 & O). destruct (bound_inj H s2 _ b a x it' HI1 Hbx Hb) as [-> ->].
    split; [done|]. split; [exact HI3|]. exists (set_refcount (i_refcount it' + 1) it').
    split; [exact (only_eq a _ s2 s3 O)|]. split; [exact L8|]. split; [exact L11|]. split; [exact L10|].
    cbn [i_refcount set_refcount]. by rewrite L3.
  - exfalso. destruct G as [_ [(_ & _ & Hno)|(b & x & Hbx & Hvx & _)]]; [by apply (Hno a it')|].
    destruct (bound_inj H s2 _ b a x it' HI1 Hbx Hb) as [-> ->].
    change (visible s1 it' = false) in Hvx. congruence.
Qed.

Lemma set_get_roundtrip_witness :
  exists it', heap (run (r ← item_store ex_a REQ_SET ex_conn; o ← item_get (i_key ex_it); mret (r, o)) ex_filled) !! ex_a =
    Some it' /\ item_value it' = Some [49; 50; 51; 52; 53].
Proof.
  destruct ex_filled_inv as (HI & _ & Hl).
  assert (Z.of_nat (length [ex_a]) + 1 <= MAX_HELD) as HH by by vm_compute.
  assert (cache_lock ex_filled = false) as Hc by (vm_compute; reflexivity).
  assert (i_nbyte ex_it <> 0) as Hn by (vm_compute; discriminate).
  assert (lasting ex_filled ex_it) as Hv by (split; left; vm_compute; reflexivity).
  assert (fst <$> (r ← item_store ex_a REQ_SET ex_conn; o ← item_get (i_key ex_it); mret (r, o)) ex_filled =
    Some (STORED, Some ex_a)) as He by (vm_compute; reflexivity).
  destruct (wp_run _ _ _ _ (set_get_roundtrip [ex_a] ex_filled ex_a ex_it ex_conn None HI HH Hl Hc ex_linkable Hn
    (ex_absent _) Hv) He) as (_ & _ & it' & Hit & Hval & _).
  exists it'. split; [exact Hit|]. rewrite Hval. vm_compute. reflexivity.
Defined.
