(* ===== verification/RoomOk.v ===== *)
(** * When an allocation fails

    [item_alloc] answers NULL only when the pool of the item is out of memory:
    its class has no chunk left, and no slab can be added to it because all the
    slabs of the pool are in use or because the system has just refused one.
    The specifications here say what a call that fails found; what a call that
    succeeds returns is in [SlabsOk] and [ItemsOk]. *)

From S2P Require Import Prelude Time Assoc Item State Slabs Items Inv SlabsOk ItemsOk StoreOk.
Open Scope Z_scope.

Implicit Types (s : st).

Ltac wlp_go := repeat lazymatch goal with
  | |- wlp (mbind _ _) _ _ => apply wlp_bind
  | |- wlp (mret _) _ _ => apply wlp_wp, wp_ret
  | |- wlp (gets _) _ _ => apply wlp_wp, wp_gets
  | |- wlp (modify _) _ _ => apply wlp_wp, wp_modify
  | |- wlp (record _) _ _ => apply wlp_wp, wp_modify
  | |- wlp now_ _ _ => apply wlp_wp, wp_gets
  | |- wlp (setting _) _ _ => apply wlp_wp, wp_gets
  | |- wlp (get_info _) _ _ => apply wlp_wp, wp_gets
  | |- wlp undef _ _ => exact I
  | |- wlp (get_item _) _ _ => unfold get_item at 1
  | |- wlp (get_slab _) _ _ => unfold get_slab at 1
  | |- wlp (get_class _ _) _ _ => unfold get_class at 1
  | |- wlp (get_lruq _ _) _ _ => unfold get_lruq at 1
  | |- wlp (lift _) _ _ => apply wlp_lift; intros
  end.

(** ** Looking for memory and finding none *)

(** What a search that fails leaves alone. *)
Record quiet s s' : Prop := Quiet {
  q_cfg : cfg s' = cfg s;
  q_env : env s' = env s;
  q_nalloc : nalloc s' = nalloc s;
  q_classes : classes s' = classes s;
  q_info : info s' = info s
}.

#[export] Instance quiet_preorder : PreOrder quiet.
Proof. split; [by intros s; split|]. intros s1 s2 s3 [] []. split; congruence. Qed.

(** No slab can be had: the pool is full, or the system refused the last one. *)
Definition no_slab s (r : bool) : Prop :=
  slab_heap_full (info s r) = true \/
  (prealloc (cfg s) = false /\ exists n, nalloc s = S n /\ e_malloc (env s) n = false).

(** No chunk of the class is left in the pool. *)
Definition exhausted s (r : bool) (id : Z) : Prop :=
  exists p, classes s r !! id = Some p /\ free_item p = None /\
    (use_freeq (cfg s) = true -> nfree_itemq p = 0) /\ no_slab s r.

Lemma no_slab_quiet s s' r : quiet s s' -> no_slab s r -> no_slab s' r.
Proof. intros [Q1 Q2 Q3 Q4 Q5]. unfold no_slab. by rewrite Q1, Q2, Q3, Q5. Qed.

Lemma exhausted_quiet s s' r id : quiet s s' -> exhausted s r id -> exhausted s' r id.
Proof.
  intros Q (p & Hp & Hf & Hq & Hn). exists p. rewrite (q_classes _ _ Q), (q_cfg _ _ Q).
  split; [done|]. split; [done|]. split; [done|]. by apply (no_slab_quiet s).
Qed.

(** As [quiet], but for the allocation the system refused. *)
Definition refused s s' : Prop :=
  cfg s' = cfg s /\ classes s' = classes s /\ info s' = info s.

(** A call that asked for a chunk of the class and failed. *)
Definition failed s (r : bool) (id : Z) s' : Prop := refused s s' /\ exhausted s' r id.

Lemma failed_quiet s s1 s2 r id : quiet s1 s2 -> failed s r id s1 -> failed s r id s2.
Proof. intros Q [(R1 & R2 & R3) E]. split; [destruct Q; split_and!; congruence|by apply (exhausted_quiet s1)]. Qed.

Lemma quiet_refused s s' : quiet s s' -> refused s s'.
Proof. by intros []. Qed.
Lemma refused_quiet s s1 s2 : refused s s1 -> quiet s1 s2 -> refused s s2.
Proof. intros (R1 & R2 & R3) [Q1 Q2 Q3 Q4 Q5]. split_and!; congruence. Qed.

Lemma get_new_none s r :
  wlp (slab_get_new r) (fun o s' => o = None -> refused s s' /\ no_slab s' r) s.
Proof.
  unfold slab_get_new. wlp_go. destruct (slab_heap_full (info s r)) eqn:Hf; wlp_go.
  { intros _. split; [done|]. by left. }
  unfold slab_heap_alloc. wlp_go. destruct (prealloc (cfg s)) eqn:Hp.
  - wlp_go. unfold put_slab, slab_table_update. eapply wlp_mono; [apply wlp_true|]. cbv beta. intros ? ? _. wlp_go.
    by eapply wlp_mono; [apply wlp_true|]; intros; wlp_go.
  - unfold next_malloc. wlp_go. destruct (e_malloc (env s) (nalloc s)) eqn:He; wlp_go.
    + eapply wlp_mono; [apply wlp_true|]. cbv beta. intros ? ? _. wlp_go.
      by eapply wlp_mono; [apply wlp_true|]; intros; wlp_go.
    + intros _. split; [done|]. right. split; [done|]. by exists (nalloc s).
Qed.

Lemma lru_loop_same s tries q : wlp (slab_lru_loop tries q) (fun _ s' => s' = s) s.
Proof.
  revert q. induction tries as [|tries IH]; intros [|n q]; cbn [slab_lru_loop]; wlp_go; try done.
  destruct (sl_refcount _ =? 0); wlp_go; [done|apply IH].
Qed.

Lemma rand_loop_quiet s tries r : wlp (slab_rand_loop tries r) (fun _ s' => quiet s s') s.
Proof.
  revert s. induction tries as [|tries IH]; intros s; cbn [slab_rand_loop]; wlp_go; [done|].
  unfold slab_table_rand, next_rand. wlp_go. destruct (nslab _ =? 0); wlp_go. destruct tries as [|tries]; wlp_go; [done|].
  destruct (sl_refcount _ =? 0); wlp_go; [done|]. eapply wlp_mono; [apply IH|]. cbv beta. intros _ s' [Q1 Q2 Q3 Q4 Q5]. by split.
Qed.

Lemma evict_lru_none s r : wlp (slab_evict_lru r) (fun o s' => o = None -> quiet s s') s.
Proof.
  unfold slab_evict_lru. wlp_go. eapply wlp_mono; [apply lru_loop_same|]. intros [n|] s' ->; wlp_go; [|done].
  by eapply wlp_mono; [apply wlp_true|]; intros; wlp_go.
Qed.

Lemma evict_rand_none s r : wlp (slab_evict_rand r) (fun o s' => o = None -> quiet s s') s.
Proof.
  unfold slab_evict_rand. wlp_go. eapply wlp_mono; [apply rand_loop_quiet|]. intros [n|] s' Q; wlp_go; [|done].
  by eapply wlp_mono; [apply wlp_true|]; intros; wlp_go.
Qed.

(** A step of the search that is taken only if the steps before it failed. *)
Lemma search_step {A} (P : st -> Prop) s (o : option A) (b : bool) (m : M st (option A)) :
  (forall s1 s2, quiet s1 s2 -> P s1 -> P s2) -> (o = None -> P s) ->
  (forall s1, wlp m (fun o' s' => o' = None -> quiet s1 s') s1) ->
  wlp (match o with None => if b then m else mret None | Some n => mret (Some n) end)
    (fun o' s' => o' = None -> P s') s.
Proof.
  intros HQ HP Hm. destruct o as [n|]; wlp_go; [done|]. destruct b; wlp_go; [|auto].
  eapply wlp_mono; [apply Hm|]. cbv beta. intros o' s' Ho Hn. apply (HQ s); auto.
Qed.

Lemma slab_use_fails s r id o : wlp (slab_use r id o) (fun status s' => status <> MC_OK -> o = None /\ quiet s s') s.
Proof.
  unfold slab_use. destruct o as [n|]; wlp_go; [|done].
  by eapply wlp_mono; [apply wlp_true|]; intros; wlp_go.
Qed.

Lemma slab_get_fails s r id :
  wlp (slab_get r id) (fun status s' => status <> MC_OK -> refused s s' /\ no_slab s' r) s.
Proof.
  unfold slab_get. wlp_go. match goal with |- wlp _ _ ?x => set (s0 := x) end.
  set (P := fun s' => refused s s' /\ no_slab s' r).
  assert (forall s1 s2, quiet s1 s2 -> P s1 -> P s2) as HP.
  { intros s1 s2 Q [R N]. split; [by apply (refused_quiet s s1)|by apply (no_slab_quiet s1)]. }
  eapply wlp_mono; [apply get_new_none|]. cbv beta. intros o s1 Ho. wlp_go.
  eapply wlp_mono; [apply (search_step P); [done|exact Ho|intros; apply evict_lru_none]|]. cbv beta. intros o2 s2 Ho2. wlp_go.
  eapply wlp_mono; [apply (search_step P); [done|exact Ho2|intros; apply evict_rand_none]|]. cbv beta. intros o3 s3 Ho3.
  eapply wlp_mono; [apply slab_use_fails|]. cbv beta. intros status s4 Hs He. destruct (Hs He) as [-> Q]. by apply (HP s3), Ho3.
Qed.

Lemma slab_get_evict_fails s r id :
  wlp (slab_get_evict r id) (fun status s' => status <> MC_OK -> quiet s s') s.
Proof.
  unfold slab_get_evict. wlp_go. match goal with |- wlp _ _ ?x => set (s0 := x) end.
  assert (quiet s s0) as Q0 by done.
  eapply wlp_mono; [apply evict_rand_none|]. cbv beta. intros o s1 Ho.
  eapply wlp_mono; [apply slab_use_fails|]. cbv beta. intros status s2 Hs He. destruct (Hs He) as [-> Q].
  transitivity s0; [done|]. transitivity s1; [by apply Ho|done].
Qed.

(** ** Chunks *)

Lemma slab_take_some s r id : wlp (slab_take r id) (fun o _ => o <> None) s.
Proof. unfold slab_take, put_class. by wlp_go. Qed.

Lemma freeq_none s r id :
  wlp (_slab_get_item_from_freeq r id) (fun o s' => o = None -> s' = s /\
    (use_freeq (cfg s) = true -> exists p, classes s r !! id = Some p /\ nfree_itemq p = 0)) s.
Proof.
  unfold _slab_get_item_from_freeq. wlp_go. destruct (use_freeq (cfg s)); cbn [negb]; wlp_go; [|done].
  destruct (Z.eqb_spec (nfree_itemq a) 0) as [Hz|]; wlp_go; [by eauto|].
  unfold upd_item. wlp_go. unfold put_item. wlp_go. unfold put_class. by wlp_go.
Qed.

Lemma get_item_none s r id : wlp (_slab_get_item r id) (fun o s' => o = None -> failed s r id s') s.
Proof.
  unfold _slab_get_item. wlp_go. eapply wlp_mono; [apply freeq_none|]. cbv beta. intros [a|] s' Ho; wlp_go; [done|].
  destruct (Ho eq_refl) as [-> Hq]. destruct (free_item a) as [b|] eqn:Hb; wlp_go.
  { cbn. eapply wlp_mono; [apply slab_take_some|]. by intros o s1 Hs ->. }
  eapply wlp_mono; [apply slab_get_fails|]. cbv beta. intros status s1 Hs. case_bool_decide as Hok; wlp_go.
  { eapply wlp_mono; [apply slab_take_some|]. by intros o s2 Hs' ->. }
  intros _. destruct (Hs Hok) as [(R1 & R2 & R3) N]. split; [done|]. exists a. rewrite R2, R1. split; [done|]. split; [done|]. split; [|done].
  intros Hu. destruct (Hq Hu) as (p & Hp & Hz). by simplify_eq.
Qed.

Lemma get_item_by_evict_none s r id :
  wlp (_slab_get_item_by_evict_slab r id) (fun o s' => o = None -> quiet s s') s.
Proof.
  unfold _slab_get_item_by_evict_slab. wlp_go. destruct (free_item a) as [b|]; wlp_go.
  { cbn. eapply wlp_mono; [apply slab_take_some|]. by intros o s1 Hs ->. }
  eapply wlp_mono; [apply slab_get_evict_fails|]. cbv beta. intros status s1 Hs. case_bool_decide as Hok; wlp_go; [|auto].
  eapply wlp_mono; [apply slab_take_some|]. by intros o s2 Hs' ->.
Qed.

(** Under the slab lock. *)
Lemma wlp_locked {A} (m : M st (option A)) (P : st -> st -> Prop) s :
  (forall s1 s2 b1 b2, P s1 s2 -> P (set_slab_lock b1 s1) (set_slab_lock b2 s2)) ->
  (forall s1, wlp m (fun o s' => o = None -> P s1 s') s1) ->
  wlp (lock_slab;; o ← m; unlock_slab;; mret o) (fun o s' => o = None -> P s s') s.
Proof.
  intros HP Hm. unfold lock_slab, unlock_slab. wlp_go. destruct (slab_lock s) eqn:Hl; wlp_go.
  eapply wlp_mono; [apply Hm|]. cbv beta. intros o s1 Ho. wlp_go. destruct (slab_lock s1); wlp_go. intros Hn.
  specialize (HP _ _ (slab_lock s) false (Ho Hn)). by destruct s.
Qed.

Lemma reserved_none s id : slab_has_reserved_slabs (cfg s) = true ->
  wlp (slab_get_reserved_item id true) (fun o s' => o = None -> failed s true id s') s.
Proof.
  intros Hr. unfold slab_get_reserved_item, lock_slab, unlock_slab. cbn [when]. wlp_go. destruct (slab_lock s); wlp_go.
  change (cfg (set_slab_lock true s)) with (cfg s). rewrite Hr.
  eapply wlp_mono; [apply get_item_none|]. cbv beta. intros o s1 Ho. wlp_go. destruct (slab_lock s1); wlp_go. intros Hn.
  apply (failed_quiet s s1); [done|]. exact (Ho Hn).
Qed.

Lemma item_none s (r : bool) id : (r = true -> slab_has_reserved_slabs (cfg s) = true) ->
  wlp (if r then slab_get_reserved_item id true else slab_get_item id) (fun o s' => o = None -> failed s r id s') s.
Proof.
  intros Hr. destruct r; [by apply reserved_none; auto|].
  apply (wlp_locked (_slab_get_item false id) (fun s s' => failed s false id s')); [|intros; apply get_item_none].
  by intros s1 s2 b1 b2 [R E].
Qed.

Lemma item_evict_none s (r : bool) id :
  wlp (if r then slab_get_item_by_evict_reserved_slab id else slab_get_item_by_evict_slab id)
    (fun o s' => o = None -> quiet s s') s.
Proof.
  destruct r; (apply (wlp_locked (_slab_get_item_by_evict_slab _ id) quiet); [by intros ???? []|intros; apply get_item_by_evict_none]).
Qed.

(** ** Items *)

Lemma lruq_scan_same s tries l : wlp (lruq_scan tries l) (fun _ s' => s' = s) s.
Proof.
  revert l. induction tries as [|tries IH]; intros [|a l]; cbn [lruq_scan]; wlp_go; try done.
  destruct (negb _); [apply IH|]. destruct (item_expired _ _); by wlp_go.
Qed.

Lemma get_from_lruq_same s r id : wlp (item_get_from_lruq r id) (fun _ s' => s' = s) s.
Proof. unfold item_get_from_lruq. wlp_go. destruct (negb _); wlp_go; [done|]. apply lruq_scan_same. Qed.

Lemma item_take_slab_none s (r : bool) id t opt uit : (r = true -> slab_has_reserved_slabs (cfg s) = true) ->
  wlp (item_take_slab id true r t opt uit) (fun o s' => o = None -> failed s r id s') s.
Proof.
  intros Hr. unfold item_take_slab. wlp_go. eapply wlp_mono; [by apply item_none|]. cbv beta. intros [a|] s1 Ho; wlp_go; [done|].
  specialize (Ho eq_refl). destruct uit as [a|]; wlp_go.
  { by eapply wlp_mono; [apply wlp_true|]; intros; wlp_go. }
  destruct (opt =? 0); wlp_go; [done|]. eapply wlp_mono; [apply item_evict_none|]. cbv beta. intros [a|] s2 Q; wlp_go; [done|].
  intros _. apply (failed_quiet s s1); [|done]. by destruct (Q eq_refl).
Qed.

Lemma item_take_none s (r : bool) id : (r = true -> slab_has_reserved_slabs (cfg s) = true) ->
  wlp (item_take id true r) (fun o s' => o = None -> failed s r id s') s.
Proof.
  intros Hr. unfold item_take. wlp_go. eapply wlp_mono; [apply get_from_lruq_same|]. cbv beta. intros o s' ->. wlp_go.
  destruct o as [a|]; wlp_go; [|by apply item_take_slab_none].
  destruct (item_expired _ _); wlp_go; [|by apply item_take_slab_none].
  by eapply wlp_mono; [apply wlp_true|]; intros; wlp_go; eapply wlp_mono; [apply wlp_true|]; intros; wlp_go.
Qed.

(** An allocation fails only when the pool has no chunk of the class left. *)
Lemma alloc_none s (r : bool) id key dataflags exptime nbyte conf : (r = true -> slab_has_reserved_slabs (cfg s) = true) ->
  wlp (_item_alloc_config id key dataflags exptime nbyte true r conf) (fun o s' => o = None -> failed s r id s') s.
Proof.
  intros Hr. unfold _item_alloc_config. wlp_go. eapply wlp_mono; [by apply item_take_none|]. cbv beta.
  intros [a|] s1 Ho; wlp_go; [|exact Ho]. eapply wlp_mono; [apply wlp_true|]. cbv beta. intros ? s2 _. wlp_go.
  unfold slab_item_size, put_item. by wlp_go.
Qed.

(** ** Allocation while there is room *)

(** The class has a chunk left, in its current slab or in its free queue, or its
    pool has preallocated slabs that are not in use. *)
Definition room s (r : bool) (id : Z) : Prop :=
  (exists p, classes s r !! id = Some p /\ (free_item p <> None \/ (use_freeq (cfg s) = true /\ nfree_itemq p <> 0))) \/
  (prealloc (cfg s) = true /\ slab_heap_full (info s r) = false).

Lemma room_not_failed s r id s' : room s r id -> ~ failed s r id s'.
Proof.
  intros Hroom [(R1 & R2 & R3) (p & Hp & Hf & Hq & Hn)]. unfold no_slab in Hn. rewrite R1, R3 in Hn. rewrite R2 in Hp. rewrite R1 in Hq.
  destruct Hroom as [(p' & Hp' & Hc)|[H1 H2]]; [|destruct Hn as [Hn|[Hn _]]; congruence].
  simplify_eq. destruct Hc as [Hc|[Hu Hc]]; [done|]. by apply Hc, Hq.
Qed.

(** C40: an allocation succeeds while there is room: when the class of the item has a
    chunk left in its current slab or in its free queue, or a preallocated slab is
    not in use, [item_alloc] returns an item that nobody references, with the key
    and one reference; every referenced item is left as it was and the invariant is
    kept.  Only a pool that is out of memory makes it fail. *)
Theorem item_alloc_succeeds H s id key dataflags exptime nbyte
  (HI : inv H s) (HH : Z.of_nat (length H) <= MAX_HELD) (Hid : id_ok (cfg s) id) (Hal : alloc_ok s false)
  (Hc : cache_lock s = false) (Hk : Z.of_nat (length key) < 256) (Hb : 0 <= nbyte < 2 ^ 32)
  (Hp : 0 <= payload_size (psize (cfg s) id) (Z.of_nat (length key)) (use_cas (cfg s))) (Hroom : room s false id) :
  wp (item_alloc id key dataflags exptime nbyte) (fun o s' => cache_lock s' = false /\
    exists a, o = Some a /\ alloced H s false id key dataflags exptime nbyte (-1) (Some a) s') s.
Proof.
  apply wp_cache_locked; [done|]. set (s0 := set_cache_lock true s). eapply wp_mono.
  { apply wp_wlp; [apply (alloc_spec H s0 false id key dataflags exptime nbyte (-1)); try done; destruct Hal; by split|
      by apply (alloc_none s0 false)]. }
  cbv beta. intros o s' [[K Ho] Hnone]. split; [by rewrite (k_cache_lock _ _ K)|]. split; [done|].
  destruct o as [a|]; [|by destruct (room_not_failed s0 false id s' Hroom (Hnone eq_refl))].
  exists a. split; [done|]. split; [|done]. destruct K as [F K1 K2]. split; [by apply frame_locked|done|done].
Qed.

Lemma ex_room : room ex_init false 1.
Proof. right. split; vm_compute; reflexivity. Qed.

Lemma item_alloc_succeeds_witness :
  wp (item_alloc 1 ex_key 0 0 5) (fun o s' => exists a, o = Some a /\ inv [a] s') ex_init.
Proof.
  assert (Z.of_nat (length (@nil addr)) <= MAX_HELD) as HH by by vm_compute.
  assert (id_ok (cfg ex_init) 1) as Hid by by vm_compute.
  assert (cache_lock ex_init = false) as Hc by (vm_compute; reflexivity).
  assert (Z.of_nat (length ex_key) < 256) as Hk by by vm_compute.
  assert (0 <= 5 < 2 ^ 32) as Hb by by vm_compute.
  assert (0 <= payload_size (psize (cfg ex_init) 1) (Z.of_nat (length ex_key)) (use_cas (cfg ex_init))) as Hp by by vm_compute.
  refine (wp_mono _ _ _ _ (item_alloc_succeeds [] ex_init 1 ex_key 0 0 5 ex_init_inv HH Hid ex_alloc_ok Hc Hk Hb Hp ex_room) _).
  intros o s' (_ & a & Ho & _ & HI & _). exists a. exact (conj Ho HI).
Defined.
