(* ===== verification/StartupOk.v ===== *)
(** * Correctness of start-up

    Whatever command line is accepted, the server starts with slab classes the
    allocator can work with, and so in a state with the invariant. *)

From S2P Require Import Prelude Util Time Assoc Item State Slabs Items Startup Inv SlabsOk ItemsOk StoreOk.
Open Scope Z_scope.
Implicit Types (c : conf).

(** ** Doubles *)

(** [f <= 2 ^ b] *)
Definition le_pow (f : double) (b : Z) : bool :=
  match f with
  | Double man ex => if 0 <=? ex then man * 2 ^ ex <=? 2 ^ b else man <=? 2 ^ (b - ex)
  | Infinity | NaN => false
  end.

Lemma round53_bounds p : 0 < p -> let '(q, k) := round53 p in
  0 <= k /\ p / 2 ^ k <= q <= p / 2 ^ k + 1 /\ (k = 0 -> q = p) /\ (0 < k -> 2 ^ 52 <= p / 2 ^ k < 2 ^ 53).
Proof.
  intros Hp. unfold round53. set (k := Z.max 0 (Z.log2 p - 52)). assert (0 <= k) as Hk by lia.
  split; [done|]. split; [destruct (_ || _); lia|]. split.
  - intros ->. rewrite Z.div_1_r, Z.mod_1_r. done.
  - intros Hk0. assert (Z.log2 p = k + 52) as Hl by lia. destruct (Z.log2_spec p Hp) as [L1 L2]. rewrite Hl in L1, L2.
    rewrite Z.pow_add_r in L1 by lia. replace (Z.succ (k + 52)) with (k + 53) in L2 by lia. rewrite Z.pow_add_r in L2 by lia.
    assert (0 < 2 ^ k) by (by apply Z.pow_pos_nonneg). split; [apply Z.div_le_lower_bound; lia|apply Z.div_lt_upper_bound; lia].
Qed.

(** Multiplying with a factor above one does not shrink. *)
Lemma times_grows n f : 0 < n < 2 ^ 28 -> le_one f = false -> le_pow f 32 = true -> exists v, times n f = Some v /\ n <= v < 2 ^ 62.
Proof.
  intros Hn H1 H2. destruct f as [m e| |]; [|done..]. unfold times, le_one, le_pow in *.
  assert (0 < m) as Hm.
  { destruct (Z.leb_spec 0 e); [apply Z.leb_gt in H1|apply Z.leb_gt in H1; pose proof (Z.pow_pos_nonneg 2 (- e)); lia].
    pose proof (Z.pow_pos_nonneg 2 e). nia. }
  pose proof (round53_bounds (n * m) ltac:(nia)) as HR. destruct (round53 (n * m)) as [q k]. destruct HR as (Hk & Hq & H0 & H53).
  assert (n <= (if 0 <=? e + k then q * 2 ^ (e + k) else q / 2 ^ - (e + k)) < 2 ^ 62) as Hv.
  2: { eexists. split; [|exact Hv]. cbv zeta. destruct (Z.ltb_spec (if 0 <=? e + k then q * 2 ^ (e + k) else q / 2 ^ - (e + k)) (2 ^ 64)); [done|lia]. }
  assert (0 < 2 ^ k) as P1 by (by apply Z.pow_pos_nonneg). pose proof (Z.mul_div_le (n * m) (2 ^ k) P1) as Hd.
  destruct (Z.leb_spec 0 e) as [He|He]; apply Z.leb_gt in H1; apply Z.leb_le in H2.
  - rewrite (proj2 (Z.leb_le 0 (e + k))) by lia. rewrite Z.pow_add_r by lia. assert (0 < 2 ^ e) as P2 by (by apply Z.pow_pos_nonneg).
    destruct (Z.eq_dec k 0) as [-> |Hk0]; [rewrite (H0 eq_refl); nia|]. specialize (H53 ltac:(lia)).
    assert ((n * m / 2 ^ k) * (2 ^ e * 2 ^ k) < 2 ^ 60) by nia. split; nia.
  - assert (0 < 2 ^ (- e)) as P2 by (apply Z.pow_pos_nonneg; lia). replace (32 - e) with (32 + - e) in H2 by lia. rewrite Z.pow_add_r in H2 by lia.
    destruct (Z.leb_spec 0 (e + k)) as [Hx|Hx].
    + assert (0 < 2 ^ (e + k)) as P3 by (by apply Z.pow_pos_nonneg). assert (2 ^ k = 2 ^ (e + k) * 2 ^ (- e)) as E by (rewrite <-Z.pow_add_r by lia; f_equal; lia).
      specialize (H53 ltac:(lia)). assert ((n * m / 2 ^ k) * 2 ^ (e + k) < 2 ^ 60) by nia. split; nia.
    + assert (0 < 2 ^ (- (e + k))) as P3 by (apply Z.pow_pos_nonneg; lia).
      assert (n <= n * m / 2 ^ (- e)) as Hlow by (apply Z.div_le_lower_bound; nia).
      assert (n * m / 2 ^ k / 2 ^ (- (e + k)) = n * m / 2 ^ (- e)) as E.
      { rewrite Z.div_div by lia. rewrite <-Z.pow_add_r by lia. do 2 f_equal. lia. }
      split; [rewrite <-E in Hlow; etrans; [exact Hlow|]; apply Z.div_le_mono; lia|].
      destruct (Z.eq_dec k 0) as [-> |Hk0].
      * rewrite (H0 eq_refl). rewrite Z.add_0_r. apply Z.div_lt_upper_bound; [lia|]. nia.
      * specialize (H53 ltac:(lia)). apply Z.div_lt_upper_bound; [lia|]. nia.
Qed.

Lemma align_up n : 0 <= n < 2 ^ 63 -> MC_ALIGN n MC_ALIGNMENT = (n + 7) / 8 * 8.
Proof.
  intros Hn. unfold MC_ALIGN, MC_ALIGNMENT. rewrite u64_small by lia. change (u64 (Z.lnot (8 - 1))) with (Z.ldiff (Z.ones 64) (Z.ones 3)).
  replace (n + (8 - 1)) with (n + 7) by lia. set (x := n + 7).
  replace (Z.land x (Z.ldiff (Z.ones 64) (Z.ones 3))) with (Z.ldiff (Z.land x (Z.ones 64)) (Z.ones 3)).
  - rewrite Z.land_ones, Z.mod_small by (unfold x; lia). rewrite Z.ldiff_ones_r by lia. rewrite Z.shiftl_mul_pow2, Z.shiftr_div_pow2 by lia. done.
  - apply Z.bits_inj. intros i. rewrite Z.ldiff_spec, !Z.land_spec, Z.ldiff_spec. by rewrite andb_assoc.
Qed.

Lemma aligned_up n : 0 <= n < 2 ^ 63 -> n <= MC_ALIGN n MC_ALIGNMENT < n + 8 /\ MC_ALIGN n MC_ALIGNMENT mod 8 = 0.
Proof.
  intros Hn. rewrite align_up by done. pose proof (Z.div_mod (n + 7) 8 ltac:(lia)). pose proof (Z.mod_pos_bound (n + 7) 8 ltac:(lia)).
  split; [lia|]. apply Z.mod_mul. lia.
Qed.

(** ** Profiles *)

Lemma min_chunk : ITEM_MIN_CHUNK_SIZE = 80.
Proof. done. Qed.

(** The classes below [n] have chunks that rise from the smallest size, all below
    [lim]. *)
Definition rising (s : settings) (n lim : Z) : Prop :=
  (forall i, SLABCLASS_MIN_ID <= i < n -> ITEM_MIN_CHUNK_SIZE <= psize s i < lim) /\
  (forall i j, SLABCLASS_MIN_ID <= i < j -> j < n -> psize s i < psize s j).

(** A profile the allocator can work with. *)
Record profile_ok (s : settings) : Prop := ProfileOk {
  pr_last : SLABCLASS_MIN_ID <= profile_last_id s <= SLABCLASS_MAX_ID;
  pr_rising : rising s (profile_last_id s + 1) (slab_size s + 1)
}.

(** The settings with another profile. *)
Definition reprofiled (c : conf) (l : list Z) : settings := kept_settings (with_profile l c).

Lemma rising_put c n x lim :
  length (profile (kept_settings c)) = SLABCLASS_MAX_IDS -> SLABCLASS_MIN_ID <= n <= SLABCLASS_MAX_ID ->
  rising (kept_settings c) n x -> ITEM_MIN_CHUNK_SIZE <= x < lim ->
  rising (reprofiled c (<[Z.to_nat n := x]> (profile (kept_settings c)))) (n + 1) lim.
Proof.
  intros Hl Hn [R1 R2] Hx. unfold rising, SLABCLASS_MIN_ID, SLABCLASS_MAX_ID, SLABCLASS_MAX_IDS in *.
  assert (forall i, 1 <= i -> psize (reprofiled c (<[Z.to_nat n := x]> (profile (kept_settings c)))) i = if decide (i = n) then x else psize (kept_settings c) i) as Hp.
  { intros i Hi. unfold psize. cbn. case_decide as Hd.
    - subst i. rewrite list_lookup_insert_eq by lia. done.
    - by rewrite list_lookup_insert_ne by lia. }
  split.
  - intros i Hi. rewrite Hp by lia. case_decide; [lia|]. specialize (R1 i ltac:(lia)). lia.
  - intros i j Hi Hj. rewrite !Hp by lia. destruct (decide (j = n)) as [->|Hjn]; [rewrite decide_False by lia; specialize (R1 i ltac:(lia)); lia|]. rewrite decide_False by lia. apply R2; lia.
Qed.

Lemma same_profile c : with_profile (profile (kept_settings c)) c = c.
Proof. by destruct c as [[] ?]. Qed.

(** The loop of a generated profile. *)
Lemma generate_loop_spec max fuel : forall id item_sz c,
  max <= 2 ^ 27 -> ITEM_MIN_CHUNK_SIZE <= max -> le_one (factor c) = false -> le_pow (factor c) 32 = true ->
  length (profile (kept_settings c)) = SLABCLASS_MAX_IDS -> SLABCLASS_MIN_ID <= id <= SLABCLASS_MAX_ID ->
  ITEM_MIN_CHUNK_SIZE <= item_sz -> rising (kept_settings c) id (Z.min item_sz max) -> 255 <= Z.of_nat fuel + id - 1 ->
  wp (generate_loop fuel id item_sz max) (fun last c' => exists l, c' = with_profile l c /\ length l = SLABCLASS_MAX_IDS /\
    SLABCLASS_MIN_ID <= last <= SLABCLASS_MAX_ID /\ rising (kept_settings c') last max) c.
Proof.
  induction fuel as [|fuel IH]; intros id item_sz c Hmax Hmin Hf1 Hf2 Hl Hid Hsz HR Hfuel; unfold SLABCLASS_MIN_ID, SLABCLASS_MAX_ID in *; [lia|].
  pose proof min_chunk as Hmc. cbn [generate_loop]. unfold SLABCLASS_MAX_ID. destruct (Z.ltb_spec id 254) as [H254|H254]; cbn [andb].
  2: { apply wp_ret. exists (profile (kept_settings c)). split_and!; [symmetry; apply same_profile|done|lia|lia|].
       destruct HR as [R1 R2]. split; [|done]. intros i Hi. specialize (R1 i Hi). lia. }
  destruct (Z.ltb_spec item_sz max) as [Hlt|Hge].
  2: { apply wp_ret. exists (profile (kept_settings c)). split_and!; [symmetry; apply same_profile|done|lia|lia|].
       by rewrite Z.min_r in HR by lia. }
  rewrite Z.min_l in HR by lia. unfold put_size. wp_go. rewrite decide_True by (rewrite Hl; unfold SLABCLASS_MAX_IDS; lia). wp_go.
  destruct (times_grows item_sz (factor c)) as (v & Hv & Hge); [lia|done|done|].
  eapply wp_lift; [exact Hv|]. wp_go. set (next := if v =? item_sz then u64 (v + 1) else v).
  assert (item_sz < next < 2 ^ 62 + 1) as Hnext by (unfold next; destruct (Z.eqb_spec v item_sz); [rewrite u64_small|]; lia).
  destruct (aligned_up next) as [Hal _]; [lia|].
  eapply wp_mono; [apply (IH (u8 (id + 1)) (MC_ALIGN next MC_ALIGNMENT)); try done|].
  - cbn. by rewrite length_insert.
  - rewrite u8_small by lia. lia.
  - lia.
  - rewrite u8_small by lia. apply rising_put; [done|unfold SLABCLASS_MIN_ID, SLABCLASS_MAX_ID; lia|done|lia].
  - rewrite u8_small by lia. lia.
  - intros last c' (l & -> & Hll & Hla & HR'). by exists l.
Qed.

Lemma generate_profile_spec c :
  512 <= slab_size_opt (kept_settings c) <= SLAB_MAX_SIZE -> ITEM_MIN_CHUNK_SIZE <= chunk_size c -> le_one (factor c) = false -> le_pow (factor c) 32 = true ->
  length (profile (kept_settings c)) = SLABCLASS_MAX_IDS ->
  wp mc_generate_profile (fun r c' => r = MC_OK /\ profile_ok (kept_settings c') /\
    exists l n m, c' = set_max_chunk_size m (with_profile_last_id n (with_profile l c))) c.
Proof.
  intros Hs Hc Hf1 Hf2 Hl. unfold mc_generate_profile. wp_go. cbv beta delta [id].
  assert (480 <= slab_size (kept_settings c) <= 2 ^ 27) as Hmax.
  { unfold slab_size, SLAB_HDR_SIZE, SLAB_MAX_SIZE, MB, KB in *. rewrite u64_small; lia. }
  pose proof min_chunk as Hmc.
  eapply wp_mono; [apply (generate_loop_spec (slab_size (kept_settings c))); try done; unfold SLABCLASS_MIN_ID, SLABCLASS_MAX_ID; try lia|].
  { split; intros; unfold SLABCLASS_MIN_ID in *; lia. }
  intros last c1 (l & -> & Hl1 & Hla & HR). unfold put_size. wp_go.
  rewrite decide_True by (cbn; rewrite Hl1; unfold SLABCLASS_MIN_ID, SLABCLASS_MAX_ID, SLABCLASS_MAX_IDS in *; lia). wp_go.
  split; [done|]. split.
  - split; [exact Hla|]. exact (rising_put (with_profile l c) last (slab_size (kept_settings c)) (slab_size (kept_settings c) + 1) Hl1 Hla HR ltac:(lia)).
  - by eexists _, _, _.
Qed.

(** ** Profiles given by the user *)

(** The texts between the commas. *)
Fixpoint split_commas (s : list Z) : list (list Z) :=
  match s with
  | [] => [[]]
  | b :: s' =>
      if b =? 44 then [] :: split_commas s'
      else match split_commas s' with t :: ts => (b :: t) :: ts | [] => [[b]] end
  end.

(** The size a text denotes. *)
Definition size_text (t : list Z) : option Z :=
  if decide (MC_UINT32_MAXLEN <= length t)%nat then None
  else let '(ok, n) := mc_strtoul t in if (ok : bool) then Some n else None.

(** Sizes the slab classes may have. *)
Definition size_ok (max n : Z) : Prop := n mod MC_ALIGNMENT = 0 /\ ITEM_MIN_CHUNK_SIZE <= n <= max.

(** The profile [s] describes these sizes: one for each text between the commas,
    each aligned, large enough and at most a slab, ascending, at most 254. *)
Definition describes (max : Z) (s : list Z) (ns : list Z) : Prop :=
  Forall2 (fun t n => size_text t = Some n /\ size_ok max n) (split_commas s) ns /\ StronglySorted Z.lt ns /\ (length ns <= 254)%nat.

(** The sizes after [prev] in the texts, when there is room for them. *)
Inductive reads_sizes (max : Z) : Z -> nat -> list (list Z) -> list Z -> Prop :=
  | reads_none prev room : reads_sizes max prev room [] []
  | reads_size prev room t ts n ns : size_text t = Some n -> size_ok max n -> prev < n -> reads_sizes max n room ts ns ->
      reads_sizes max prev (S room) (t :: ts) (n :: ns).

Lemma reads_sizes_iff max prev room ts ns : reads_sizes max prev room ts ns <->
  Forall2 (fun t n => size_text t = Some n /\ size_ok max n) ts ns /\ StronglySorted Z.lt (prev :: ns) /\ (length ns <= room)%nat.
Proof.
  split.
  - induction 1 as [prev room|prev room t ts n ns Ht Hn Hp _ (IH1 & IH2 & IH3)].
    + split; [constructor|]. split; [repeat constructor|simpl; lia].
    + split; [by constructor|]. split; [|simpl; lia]. constructor; [done|]. constructor; [done|].
      inversion IH2 as [|? ? _ HF]; subst. eapply Forall_impl; [exact HF|]. intros x Hx. simpl in Hx. lia.
  - intros (HF & HS & HL). revert prev room HS HL. induction HF as [|t n ts ns [Ht Hn] _ IH]; intros prev room HS HL; [constructor|].
    inversion HS as [|? ? HS' HF']; subst. apply Forall_cons in HF' as [Hp _]. destruct room as [|room]; [simpl in HL; lia|].
    constructor; [done|done|done|]. apply IH; [done|simpl in HL; lia].
Qed.

Lemma describes_iff max s ns : describes max s ns <-> reads_sizes max (-1) 254 (split_commas s) ns.
Proof.
  rewrite reads_sizes_iff. unfold describes. split; intros (HF & HS & HL); split_and!; try done; [|by inversion HS].
  constructor; [done|]. clear HS HL. induction HF as [|t n ts ns [_ [_ Hn]] _ IH]; constructor; [pose proof min_chunk; lia|done].
Qed.

Lemma split_comma s n : comma_at s = Some n -> split_commas s = take n s :: split_commas (drop (S n) s).
Proof.
  revert n. induction s as [|b s IH]; intros n Hn; [done|]. cbn [comma_at split_commas] in *. destruct (b =? 44).
  - injection Hn as <-. done.
  - destruct (comma_at s) as [m|] eqn:E; [|done]. injection Hn as <-. by rewrite (IH m eq_refl).
Qed.

Lemma split_no_comma s : comma_at s = None -> split_commas s = [s].
Proof.
  induction s as [|b s IH]; [done|]. cbn [comma_at split_commas]. destruct (b =? 44); [done|]. destruct (comma_at s); [done|]. intros _. by rewrite IH.
Qed.

Lemma split_nonempty s : split_commas s <> [].
Proof. destruct s as [|b s]; [done|]. cbn. destruct (b =? 44); [done|]. by destruct (split_commas s). Qed.

Lemma comma_lt s n : comma_at s = Some n -> (n < length s)%nat.
Proof.
  revert n. induction s as [|b s IH]; intros n Hn; [done|]. cbn [comma_at] in Hn. destruct (b =? 44); [injection Hn as <-; simpl; lia|].
  destruct (comma_at s) as [m|] eqn:E; [|done]. injection Hn as <-. specialize (IH m eq_refl). simpl. lia.
Qed.

(** What the loop reads from [ptr] on, after [id] sizes of which the last is
    [prev]. *)
Definition loop_reads (max : Z) c (ptr : list Z) (id prev : Z) (r : option (bool * Z)) (l : list Z) : Prop :=
  (exists ns, reads_sizes max prev (254 - Z.to_nat id) (split_commas ptr) ns /\ ns <> [] /\ r = Some (true, id + Z.of_nat (length ns)) /\
     forall i n, ns !! i = Some n -> l !! (Z.to_nat id + 1 + i)%nat = Some n) \/
  ((r = None \/ exists i, r = Some (false, i)) /\ forall ns, ~ reads_sizes max prev (254 - Z.to_nat id) (split_commas ptr) ns).

Lemma parse_loop_spec max fuel : forall ptr id c prev,
  slab_size (kept_settings c) = max -> length (profile (kept_settings c)) = SLABCLASS_MAX_IDS -> 0 <= id <= SLABCLASS_MAX_ID ->
  (prev = if SLABCLASS_MIN_ID <=? id then psize (kept_settings c) id else -1) -> 254 < Z.of_nat fuel + id ->
  wp (parse_profile_loop fuel ptr id) (fun r c' => exists l, c' = with_profile l c /\ length l = SLABCLASS_MAX_IDS /\
    (forall i, (i <= Z.to_nat id)%nat -> l !! i = profile (kept_settings c) !! i) /\ loop_reads max c ptr id prev r l) c.
Proof.
  induction fuel as [|fuel IH]; intros ptr id c prev Hmax Hl Hid Hprev Hfuel; unfold SLABCLASS_MAX_ID in *; [lia|].
  assert (forall r, (r = None \/ exists i, r = Some (false, i)) -> (forall ns, ~ reads_sizes max prev (254 - Z.to_nat id) (split_commas ptr) ns) ->
    exists l, c = with_profile l c /\ length l = SLABCLASS_MAX_IDS /\ (forall i, (i <= Z.to_nat id)%nat -> l !! i = profile (kept_settings c) !! i) /\
      loop_reads max c ptr id prev r l) as Hfail.
  { intros r Hr Hn. exists (profile (kept_settings c)). split_and!; [by rewrite same_profile|done|done|by right]. }
  cbn [parse_profile_loop]. unfold SLABCLASS_MAX_ID. destruct (Z.ltb_spec id 254) as [Hlt|Hge].
  2: { apply wp_ret. apply Hfail; [right; by eexists|]. intros ns Hns. replace (254 - Z.to_nat id)%nat with 0%nat in Hns by lia.
       remember (split_commas ptr) as ts eqn:E. inversion Hns; subst; by apply (split_nonempty ptr). }
  set (len := match comma_at ptr with Some n => n | None => length ptr end). set (t := take len ptr).
  assert (exists ts, split_commas ptr = t :: ts /\ match comma_at ptr with Some n => ts = split_commas (drop (S n) ptr) | None => ts = [] end) as (ts & Hts & Hcm).
  { unfold t, len. destruct (comma_at ptr) as [n|] eqn:E; [rewrite (split_comma _ _ E)|rewrite (split_no_comma _ E), take_ge by lia]; by eexists. }
  assert (length t = len) as Hlen.
  { unfold t, len. destruct (comma_at ptr) as [n|] eqn:E; rewrite length_take; [pose proof (comma_lt _ _ E)|]; lia. }
  fold len t. unfold loop_reads in *. rewrite Hts in *.
  assert (forall n, size_text t = Some n -> (size_ok max n /\ prev < n -> False) -> forall ns, ~ reads_sizes max prev (254 - Z.to_nat id) (t :: ts) ns) as Hbad.
  { intros n Hn Hx ns Hns. inversion Hns; subst. apply Hx. split; congruence. }
  assert (size_text t = None -> forall ns, ~ reads_sizes max prev (254 - Z.to_nat id) (t :: ts) ns) as Hbad'.
  { intros Hn ns Hns. inversion Hns; subst. congruence. }
  destruct (Nat.leb_spec MC_UINT32_MAXLEN len) as [Hle|Hle].
  { apply wp_ret, Hfail; [by left|]. apply Hbad'. unfold size_text. by rewrite decide_True by lia. }
  assert (size_text t = let '(ok, n) := mc_strtoul t in if (ok : bool) then Some n else None) as Est by (unfold size_text; by rewrite decide_False by lia).
  destruct (mc_strtoul t) as [[] n]; cbn [negb]; [|apply wp_ret, Hfail; [by left|by apply Hbad']].
  specialize (Hbad n Est). unfold size_ok in Hbad.
  destruct (Z.eqb_spec (n mod MC_ALIGNMENT) 0) as [Hal|Hal]; cbn [negb]; [|apply wp_ret, Hfail; [by left|apply Hbad; naive_solver]].
  destruct (Z.ltb_spec n ITEM_MIN_CHUNK_SIZE) as [Hmin|Hmin]; [apply wp_ret, Hfail; [by left|apply Hbad; lia]|]. wp_go. rewrite Hmax.
  destruct (Z.ltb_spec max n) as [Hmx|Hmx]; [apply wp_ret, Hfail; [by left|apply Hbad; lia]|]. wp_go.
  assert (wp (if SLABCLASS_MIN_ID <=? id then get_size id else mret (-1)) (fun x c' => x = prev /\ c' = c) c) as Hp.
  { rewrite Hprev. destruct (SLABCLASS_MIN_ID <=? id); [|done]. unfold get_size, psize. wp_go.
    destruct (lookup_lt_is_Some_2 (profile (kept_settings c)) (Z.to_nat id)) as [x Hx]; [rewrite Hl; unfold SLABCLASS_MAX_IDS; lia|].
    eapply wp_lift; [exact Hx|]. by rewrite Hx. }
  eapply wp_mono; [exact Hp|]. intros x c' [-> ->]. destruct (Z.leb_spec n prev) as [Hpv|Hpv]; [apply wp_ret, Hfail; [by left|apply Hbad; lia]|].
  unfold put_size. wp_go. rewrite u8_small by lia. rewrite decide_True by (rewrite Hl; unfold SLABCLASS_MAX_IDS; lia). wp_go.
  set (l1 := <[Z.to_nat (id + 1) := n]> (profile (kept_settings c))). assert (length l1 = SLABCLASS_MAX_IDS) as Hl1 by (unfold l1; by rewrite length_insert).
  assert (l1 !! Z.to_nat (id + 1) = Some n) as Hat by (apply list_lookup_insert_eq; rewrite Hl; unfold SLABCLASS_MAX_IDS; lia).
  assert (forall i, (i <= Z.to_nat id)%nat -> l1 !! i = profile (kept_settings c) !! i) as Hbelow by (intros i Hi; apply list_lookup_insert_ne; lia).
  assert (254 - Z.to_nat id = S (254 - Z.to_nat (id + 1)))%nat as Hroom by lia.
  destruct (comma_at ptr) as [m|] eqn:Ecm.
  - eapply wp_mono; [apply (IH (drop (S m) ptr) (id + 1) (with_profile l1 c) n); try done; try lia|].
    { rewrite (proj2 (Z.leb_le _ _)) by (unfold SLABCLASS_MIN_ID; lia). unfold psize. cbn. by rewrite Hat. }
    intros r c' (l & -> & Hll & Hkeep & Hres). cbn in Hkeep. exists l. split_and!; [done|done| |].
    + intros i Hi. rewrite Hkeep by lia. by apply Hbelow.
    + rewrite Hroom. destruct Hres as [(ns & Hns & Hne & -> & Hlk)|[Hr Hno]]; [left|right; split; [done|]].
      * exists (n :: ns). split_and!; [rewrite Hcm; by constructor|done|simpl length; do 2 f_equal; lia|].
        intros [|i] y Hy; [injection Hy as <-; replace (Z.to_nat id + 1 + 0)%nat with (Z.to_nat (id + 1)) by lia; by rewrite Hkeep by lia|].
        replace (Z.to_nat id + 1 + S i)%nat with (Z.to_nat (id + 1) + 1 + i)%nat by lia. by apply Hlk.
      * intros ns Hns. inversion Hns; subst. apply (Hno ns0). congruence.
  - wp_go. exists l1. split_and!; [done|done|done|]. left. exists [n]. rewrite Hroom, Hcm. split_and!; [|done|simpl; do 2 f_equal; lia|].
    + constructor; [done|done|done|constructor].
    + intros [|i] y Hy; [|done]. injection Hy as <-. by replace (Z.to_nat id + 1 + 0)%nat with (Z.to_nat (id + 1)) by lia.
Qed.

Lemma sorted_lookup (ns : list Z) i j x y : StronglySorted Z.lt ns -> (i < j)%nat -> ns !! i = Some x -> ns !! j = Some y -> x < y.
Proof.
  intros HS. revert i j. induction HS as [|z ns HS IH HF]; intros i j Hij Hi Hj; [done|]. destruct j as [|j]; [lia|]. destruct i as [|i].
  - injection Hi as <-. rewrite Forall_lookup in HF. by apply (HF j).
  - apply (IH i j); [lia|done|done].
Qed.

(** A list of sizes in the profile, from the first class on. *)
Lemma sizes_profile_ok s ns : ns <> [] -> Forall (size_ok (slab_size s)) ns -> StronglySorted Z.lt ns -> (length ns <= 254)%nat ->
  profile_last_id s = Z.of_nat (length ns) -> (forall i n, ns !! i = Some n -> profile s !! (1 + i)%nat = Some n) -> profile_ok s.
Proof.
  intros Hne HF HS Hl Hlast Hp. assert (0 < length ns)%nat as H0 by (destruct ns; [done|simpl; lia]).
  assert (forall i, 1 <= i <= Z.of_nat (length ns) -> exists n, ns !! Z.to_nat (i - 1) = Some n /\ psize s i = n) as Hat.
  { intros i Hi. destruct (lookup_lt_is_Some_2 ns (Z.to_nat (i - 1))) as [n Hn]; [lia|]. exists n. split; [done|]. unfold psize.
    replace (Z.to_nat i) with (1 + Z.to_nat (i - 1))%nat by lia. by rewrite (Hp _ _ Hn). }
  unfold SLABCLASS_MIN_ID, SLABCLASS_MAX_ID in *. split; [rewrite Hlast; unfold SLABCLASS_MIN_ID, SLABCLASS_MAX_ID; lia|]. rewrite Hlast. unfold rising, SLABCLASS_MIN_ID. split.
  - intros i Hi. destruct (Hat i ltac:(lia)) as (n & Hn & ->). rewrite Forall_lookup in HF. destruct (HF _ _ Hn). lia.
  - intros i j Hi Hj. destruct (Hat i ltac:(lia)) as (x & Hx & ->). destruct (Hat j ltac:(lia)) as (y & Hy & ->).
    apply (sorted_lookup ns (Z.to_nat (i - 1)) (Z.to_nat (j - 1))); [done|lia|done|done].
Qed.

(** The settings after a profile was taken from the command line. *)
Definition parsed c (ns : list Z) c' : Prop :=
  profile_last_id (kept_settings c') = Z.of_nat (length ns) /\ (forall i n, ns !! i = Some n -> profile (kept_settings c') !! (1 + i)%nat = Some n) /\
  exists l n k m b, c' = with_reserved_maxbytes b (set_max_chunk_size m (with_profile_last_id n (set_chunk_size k (with_profile l c)))).

Lemma parse_profile_spec c s :
  length (profile (kept_settings c)) = SLABCLASS_MAX_IDS ->
  wp (mc_parse_profile s) (fun r c' =>
    (exists ns, describes (slab_size (kept_settings c)) s ns /\ r = MC_OK /\ parsed c ns c' /\ profile_ok (kept_settings c')) \/
    (r = MC_ERROR /\ forall ns, ~ describes (slab_size (kept_settings c)) s ns)) c.
Proof.
  intros Hl. set (max := slab_size (kept_settings c)). unfold mc_parse_profile. wp_go.
  eapply wp_mono; [apply (parse_loop_spec max SLABCLASS_MAX_IDS s (SLABCLASS_MIN_ID - 1) c (-1)); try done|].
  intros r c1 (l & -> & Hll & _ & [(ns & Hns & Hne & -> & Hlk)|[Hr Hno]]).
  - change (254 - Z.to_nat (SLABCLASS_MIN_ID - 1))%nat with 254%nat in Hns. change (SLABCLASS_MIN_ID - 1 + Z.of_nat (length ns)) with (Z.of_nat (length ns)).
    apply describes_iff in Hns. pose proof Hns as (HF & HS & Hlen). 
    assert (0 < length ns)%nat as H0 by (destruct ns; [done|simpl; lia]).
    destruct (lookup_lt_is_Some_2 ns 0) as [n0 Hn0]; [lia|]. destruct (lookup_lt_is_Some_2 ns (length ns - 1)) as [n1 Hn1]; [lia|].
    unfold get_size. wp_go. eapply wp_lift; [exact (Hlk _ _ Hn0)|]. wp_go. eapply wp_lift.
    { cbn. specialize (Hlk _ _ Hn1). simpl in Hlk. rewrite Nat2Z.id. by replace (S (length ns - 1)) with (length ns) in Hlk by lia. }
    wp_go. left. exists ns. split_and!; [done|done| |].
    + split; [done|]. split; [exact Hlk|]. by eexists _, _, _, _, _.
    + apply (sizes_profile_ok _ ns); try done. clear -HF. induction HF as [|t n ts ns [_ Hn] _ IH]; by constructor.
  - change (254 - Z.to_nat (SLABCLASS_MIN_ID - 1))%nat with 254%nat in Hno.
    assert (forall ns, ~ describes max s ns) as Hno' by (intros ns Hd; apply describes_iff in Hd; by apply (Hno ns)).
    destruct Hr as [-> | [i ->]]; wp_go; by right.
Qed.

(** ** Options *)

(** The number the digits stand for. *)
Definition decimal (v : Z) (s : list Z) : Z := fold_left (fun v b => v * 10 + (b - 48)) s v.

(** The digits an argument starts with stand for a number that fits an [int]. *)
Definition fits_int_from (v : Z) (s : list Z) : Prop :=
  forall d rest, s = d ++ rest -> Forall (fun b => 48 <= b <= 57) d -> decimal v d <= INT_MAX.
Definition fits_int (s : list Z) : Prop := fits_int_from 0 s.

Lemma fits_int_take n s : fits_int s -> fits_int (take n s).
Proof. intros Hf d rest Hd HF. apply (Hf d (rest ++ drop n s)); [|done]. by rewrite app_assoc, <-Hd, take_drop. Qed.

Lemma atoi_loop_bounds s : forall value, 0 <= value <= INT_MAX -> fits_int_from value s ->
  exists v, _mc_atoi_loop value s = Some v /\ -1 <= v <= INT_MAX.
Proof.
  unfold INT_MAX. induction s as [|b s IH]; intros value Hv Hf; cbn [_mc_atoi_loop].
  - eexists. split; [done|]. destruct (value <? 0); lia.
  - destruct ((b <? 48) || (57 <? b)) eqn:Eb; [eexists; split; [done|lia]|]. apply orb_false_iff in Eb as [E1%Z.ltb_ge E2%Z.ltb_ge].
    assert (forall d rest, s = d ++ rest -> Forall (fun b => 48 <= b <= 57) d -> decimal (value * 10 + (b - 48)) d <= INT_MAX) as Hf'.
    { intros d rest -> HF. apply (Hf (b :: d) rest); [done|]. constructor; [lia|done]. }
    pose proof (Hf' [] s eq_refl ltac:(constructor)) as Hm. cbn in Hm. rewrite (proj2 (Z.leb_le _ _)) by done.
    apply IH; [unfold INT_MAX in Hm; lia|exact Hf'].
Qed.

Lemma atoi_bounds s : fits_int s -> exists v, _mc_atoi s = Some v /\ -1 <= v <= INT_MAX.
Proof. intros Hf. destruct s as [|b s]; [eexists; split; [done|unfold INT_MAX; lia]|]. apply (atoi_loop_bounds (b :: s) 0); [unfold INT_MAX; lia|done]. Qed.

(** Nine characters always fit. *)
Lemma decimal_bound d : forall v k, 0 <= v < 10 ^ k -> 0 <= k -> Forall (fun b => 48 <= b <= 57) d -> 0 <= decimal v d < 10 ^ (k + Z.of_nat (length d)).
Proof.
  induction d as [|b d IH]; intros v k Hv Hk HF; cbn [decimal fold_left length]; [by rewrite Z.add_0_r|].
  apply Forall_cons in HF as [Hb HF]. replace (k + Z.of_nat (S (length d))) with (k + 1 + Z.of_nat (length d)) by lia.
  apply IH; [rewrite Z.pow_add_r by lia; lia|lia|done].
Qed.

Lemma short_fits s : (length s <= 9)%nat -> fits_int s.
Proof.
  intros Hl d rest -> HF. rewrite length_app in Hl. pose proof (decimal_bound d 0 0 ltac:(lia) ltac:(lia) HF) as Hd.
  assert (10 ^ (0 + Z.of_nat (length d)) <= 10 ^ 9) by (apply Z.pow_le_mono_r; lia). unfold INT_MAX. lia.
Qed.

(** What every accepted command line leaves in the settings. *)
Record options_ok c : Prop := OptionsOk {
  oc_slab : SLAB_MIN_SIZE <= slab_size_opt (kept_settings c) <= SLAB_MAX_SIZE;
  oc_chunk : ITEM_MIN_CHUNK_SIZE <= chunk_size c;
  oc_factor : le_one (factor c) = false /\ le_pow (factor c) 32 = true;
  oc_hash : hash_power_opt (kept_settings c) = 0;
  oc_profile : length (profile (kept_settings c)) = SLABCLASS_MAX_IDS;
  oc_reqs : 0 < reqs_per_event c;
  oc_workers : 0 < num_workers c;
  oc_evict : EVICT_NONE <= evict_opt (kept_settings c) < EVICT_INVALID;
  oc_expiry : 0 <= lease_token_expiry (kept_settings c);
  oc_intvl : STATS_MIN_INTVL <= stats_agg_intvl c <= STATS_MAX_INTVL;
  oc_klog : 0 < klog_entry c /\ 0 < klog_sampling_rate c;
  oc_conns : 0 < maxconns c /\ 0 < backlog c
}.

Lemma default_options_ok : options_ok mc_set_default_options.
Proof. split; vm_compute; done. Qed.

(** The options that take an argument. *)
Definition with_argument : list Z := bytes "ovAxXytPuRcbpUlsaMfmnIzgG".

(** Those of which the argument is read by [_mc_atoi]. *)
Definition numeric : list Z := bytes "vAxytRcbpUMmnIgG".

Section given.
Context (large_pages : bool) (atof : list Z -> double) (allocated : bool).

(** A result of [getopt_long]: an option of the table, with its argument when it
    takes one.  Numbers fit an [int], the slab size is not empty, and the factor is
    finite and at most [2 ^ 32]; nothing is asked of names and profiles. *)
Definition given (o : getopt_result) : Prop :=
  match o with
  | Bad _ => True
  | Opt ch optarg => ch ∈ short_options /\
      (ch ∈ with_argument -> exists s, optarg = Some s /\ (ch ∈ numeric -> fits_int s) /\ (ch = 73 -> s <> []) /\ (ch = 102 -> le_pow (atof s) 32 = true \/ le_one (atof s) = true))
  end.

(** Accepted with settings that are in order, or refused. *)
Definition in_order (r : rstatus) c : Prop := (r = MC_OK /\ options_ok c) \/ r = MC_ERROR.

Lemma wp_at_least min s (K : Z -> M conf rstatus) c : fits_int s ->
  (forall v, min <= v -> wp (K v) in_order c) -> wp (at_least min (Some s) K) in_order c.
Proof.
  intros Hl HK. unfold at_least. wp_go. eapply wp_lift; [done|]. wp_go. destruct (atoi_bounds s Hl) as (v & Hv & Hb). eapply wp_lift; [exact Hv|].
  destruct (Z.ltb_spec v min); [by right|]. apply HK. lia.
Qed.

Lemma wp_accept f c : options_ok (f c) -> wp (accept f) in_order c.
Proof. intros HO. by left. Qed.

Lemma evict_option_spec v c : options_ok c -> 0 <= v -> wp (evict_option v) in_order c.
Proof.
  intros [] Hv. unfold evict_option. destruct ((EVICT_INVALID <=? v) || (v <? EVICT_NONE)) eqn:E; [by right|].
  apply orb_false_iff in E as [E1%Z.leb_gt E2%Z.ltb_ge]. wp_go. destruct (v =? EVICT_CS); left; split; try done; by split.
Qed.

Lemma slab_size_option_spec s c : options_ok c -> fits_int s -> s <> [] -> wp (slab_size_option (Some s)) in_order c.
Proof.
  intros [] Hl Hne. unfold slab_size_option. wp_go. eapply wp_lift; [done|]. wp_go.
  assert (exists len f, size_suffix s = Some (len, f)) as (len & f & Hs).
  { unfold size_suffix. destruct (last s) as [b|] eqn:E; [|by apply last_None in E]. destruct (b =? 107), ((b =? 109) || (b =? 77)); by eexists _, _. }
  eapply wp_lift; [exact Hs|]. cbv beta iota. wp_go. destruct (atoi_bounds (take len s)) as (v & Hv & Hb); [by apply fits_int_take|].
  eapply wp_lift; [exact Hv|]. destruct (v <=? 0); [by right|]. wp_go. destruct (negb _); [by right|].
  destruct (Z.ltb_spec (u64 (v * f)) SLAB_MIN_SIZE); [by right|]. destruct (Z.ltb_spec SLAB_MAX_SIZE (u64 (v * f))); [by right|]. left. split; [done|]. by split.
Qed.

Lemma short_options_codes : short_options = [104; 86; 69; 76; 107; 100; 114; 67; 68; 83; 111; 118; 65; 120; 88; 121; 116; 80; 117; 82; 99; 98; 112; 85; 108; 115; 97; 77; 102; 109; 110; 73; 122; 103; 71].
Proof. done. Qed.

Lemma option_spec o c : given o -> options_ok c -> wp (option_ large_pages atof allocated o) in_order c.
Proof.
  intros Hg HO. destruct o as [ch arg|ch]; [|by right]. destruct Hg as [Hin Harg].
  assert (forall b, bool_decide (ch ∈ with_argument) = b -> if b then exists s, arg = Some s /\ (ch ∈ numeric -> fits_int s) /\ (ch = 73 -> s <> []) /\
    (ch = 102 -> le_pow (atof s) 32 = true \/ le_one (atof s) = true) else True) as Ha.
  { intros [] Hb; [|done]. apply Harg. by apply bool_decide_eq_true in Hb. }
  clear Harg. specialize (Ha _ eq_refl). rewrite short_options_codes in Hin. pose proof HO as [].
  repeat (apply elem_of_cons in Hin as [->|Hin]); [..|by apply not_elem_of_nil in Hin];
    (match type of Ha with context [bool_decide ?P] => let b := eval vm_compute in (bool_decide P) in change (bool_decide P) with b in Ha end;
     cbv iota in Ha; try destruct Ha as (s & -> & Hl & Hne & Hf);
     try specialize (Hl ltac:(apply (bool_decide_unpack _); vm_compute; exact I)); cbn [option_ server_option store_option Z.eqb Pos.eqb]).
  all: try (apply wp_accept; by split).
  all: try (apply wp_at_least; [done|]; intros v Hv; apply wp_accept; split; try done; cbn; lia).
  - destruct large_pages; [apply wp_accept; by split|by left].
  - apply wp_at_least; [done|]. intros v Hv. destruct (Z.ltb_spec v STATS_MIN_INTVL); [by right|]. destruct (Z.ltb_spec STATS_MAX_INTVL v); [by right|]. apply wp_accept. by split.
  - wp_go. eapply wp_lift; [done|]. destruct allocated; [apply wp_accept; by split|]. wp_go. by right.
  - wp_go. eapply wp_lift; [done|]. destruct (mc_str2oct s) as [[] v]; [apply wp_accept; by split|by right].
  - apply wp_at_least; [done|]. intros v Hv. apply evict_option_spec; [done|lia].
  - wp_go. eapply wp_lift; [done|]. wp_go. destruct (le_one (atof s)) eqn:E; [by right|]. left. split; [done|]. split; try done. cbn. naive_solver.
  - apply wp_at_least; [done|]. intros v Hv. destruct (Z.ltb_spec v ITEM_MIN_CHUNK_SIZE); [by right|]. destruct (negb _); [by right|]. apply wp_accept. by split.
  - apply slab_size_option_spec; [done|done|by apply Hne].
  - wp_go. eapply wp_lift; [done|]. wp_go. destruct (atoi_bounds s Hl) as (v & Hv & _). eapply wp_lift; [exact Hv|]. apply wp_accept. by split.
Qed.

Lemma options_loop_spec opts : forall c, Forall given opts -> options_ok c -> wp (options_loop large_pages atof allocated opts) in_order c.
Proof.
  induction opts as [|o opts IH]; intros c HF HO; [by left|]. apply Forall_cons in HF as [Ho HF]. cbn [options_loop]. wp_go.
  eapply wp_mono; [by apply option_spec|]. intros r c' [[-> HO']| ->]; [|by right]. rewrite bool_decide_true by done. by apply IH.
Qed.

Lemma get_options_spec opts c : Forall given opts -> options_ok c -> wp (mc_get_options large_pages atof allocated opts) in_order c.
Proof.
  intros HF HO. unfold mc_get_options. wp_go. eapply wp_mono; [by apply options_loop_spec|]. intros r c' [[-> HO']| ->]; [|by right].
  rewrite bool_decide_true by done. cbn [negb]. wp_go.
  assert (forall c2, options_ok c2 -> wp reserve in_order c2) as Hres.
  { intros c2 []. unfold reserve. wp_go. destruct (0 <? _); [|left; by split]. wp_go. destruct (_ <? _); [by right|]. left. split; [done|]. by split. }
  cbv beta delta [id]. pose proof HO' as []. destruct (tcp_specified c' && negb (udp_specified c')); [|apply wp_when; intros _]; wp_go; apply Hres; by split.
Qed.

(** Setting the profile succeeds with one the allocator can work with, or is
    refused. *)
Lemma set_profile_spec c : options_ok c -> wp mc_set_profile (fun r c' =>
  (r = MC_OK /\ profile_ok (kept_settings c') /\ slab_size_opt (kept_settings c') = slab_size_opt (kept_settings c) /\
   hash_power_opt (kept_settings c') = hash_power_opt (kept_settings c)) \/ r = MC_ERROR) c.
Proof.
  intros []. unfold mc_set_profile. wp_go. destruct (profile_optarg c) as [s|].
  - eapply wp_mono; [by apply parse_profile_spec|]. intros r c' [(ns & _ & -> & (_ & _ & l & n & k & m & b & ->) & Hp)|[-> _]]; [left|by right]. done.
  - eapply wp_mono; [apply generate_profile_spec; try done; by destruct oc_factor0|]. intros r c' (-> & Hp & l & n & m & ->). by left.
Qed.

Lemma profile_cfg_ok s : profile_ok s -> SLAB_MIN_SIZE <= slab_size_opt s <= MAX_SLAB -> hash_power_opt s = 0 -> cfg_ok s.
Proof.
  intros [P1 [P2 P3]] Hs Hh. pose proof min_chunk as Hmc. split; [done| | | |].
  - unfold SLAB_HDR_SIZE, SLAB_MIN_SIZE in *. lia.
  - intros id Hid. specialize (P2 id). lia.
  - intros i j Hi Hj. apply P3; lia.
  - lia.
Qed.

Lemma main_spec g opts : Forall given opts -> exists r, main large_pages atof allocated g opts = Some r /\
  forall c, r = Running c -> SLAB_MIN_SIZE <= slab_size_opt (kept_settings c) <= SLAB_MAX_SIZE /\ hash_power_opt (kept_settings c) = 0 /\ profile_ok (kept_settings c).
Proof.
  intros HF. destruct (wp_elim _ _ _ (get_options_spec opts _ HF default_options_ok)) as (r & c & He & HO). unfold main. rewrite He. cbn [mbind option_bind].
  destruct HO as [[-> HO]| ->]; [|rewrite bool_decide_false by done; by eexists]. rewrite bool_decide_true by done. cbn [negb].
  destruct (show_version c); [by eexists|]. repeat (destruct (_ && negb _); [by eexists|]).
  repeat (destruct (negb _); [by eexists|]). repeat (destruct (_ && negb _); [by eexists|]).
  destruct (wp_elim _ _ _ (set_profile_spec c HO)) as (r' & c' & He' & Hr). rewrite He'. cbn [mbind option_bind].
  destruct Hr as [(-> & Hp & E1 & E2)| ->]; [|rewrite bool_decide_false by done; by eexists]. rewrite bool_decide_true by done. cbn [negb].
  eexists. split; [done|]. intros c2 [= <-]. destruct HO. by rewrite E1, E2.
Qed.
End given.

(** C19: Whatever the command line, start-up does not run into undefined behaviour:
    the process exits with a code or the server runs; and when its slabs are at
    most 4 MB and its heaps small enough for their counters it runs from a state
    that has the invariant, with no key served.  (Results of [getopt_long] are
    options of its table, numbers fit an [int], the slab size is not the empty word,
    and the growth factor is at most [2 ^ 32].  Slabs of 4 MB to 128 MB are accepted
    by the code and not covered by the invariant: a slab of more than 65535 chunks
    can overflow its count of references.) *)
Theorem startup_safe large_pages atof allocated g opts e k (HF : Forall (given atof) opts) :
  exists r, main large_pages atof allocated g opts = Some r /\
    forall c, r = Running c -> slab_size_opt (kept_settings c) <= MAX_SLAB -> heap_ok (kept_settings c) ->
      let s := cache_init (kept_settings c) e k in
      inv [] s /\ cache_lock s = false /\ slab_lock s = false /\ forall key x, ~ serves s key x.
Proof.
  destruct (main_spec large_pages atof allocated g opts HF) as (r & He & Hr). exists r. split; [done|]. intros c Hc Hs Hh.
  destruct (Hr c Hc) as (S1 & S2 & S3). split; [apply start_inv; [apply profile_cfg_ok; [done|lia|done]|done]|].
  split; [done|]. split; [done|]. intros key x (a & it & (Ha & _) & _). simpl in Ha. by apply lookup_empty_Some in Ha.
Qed.

(** A concrete option is one of the table: what it must satisfy is decided. *)
Ltac decided := solve [apply (bool_decide_unpack _); vm_compute; exact I].
Ltac refuted := match goal with H : _ ∈ _ |- _ => solve [exfalso; revert H; decided] end.
Ltac given_ok :=
  split; [decided|intros ?];
  (first
    [refuted
    |eexists; split; [reflexivity|split; [intros ?|split; [discriminate|intros E]]];
     [first [refuted|apply short_fits; apply Nat.leb_le; reflexivity]
     |first [discriminate|left; vm_compute; reflexivity]]]).

Definition ex_opts : list getopt_result :=
  [Opt 111 (Some (bytes "/var/log/twemcache.log")); Opt 67 None; Opt 110 (Some (bytes "88")); Opt 73 (Some (bytes "512k")); Opt 82 (Some (bytes "5")); Opt 102 (Some (bytes "1.5")); Opt 109 (Some (bytes "64"))].
Definition ex_atof : list Z -> double := fun _ => Double 3 (-1).
Definition ex_granted : granted_ := Granted true true true true true true.

Lemma startup_safe_witness :
  exists c, main false ex_atof true ex_granted ex_opts = Some (Running c) /\ profile_last_id (kept_settings c) = 23 /\
    inv [] (cache_init (kept_settings c) ex_env ex_clk).
Proof.
  assert (Forall (given ex_atof) ex_opts) as HF.
  { unfold ex_opts. do 7 (apply Forall_cons; split; [given_ok|]). constructor. }
  assert ((fun r => match r with
      | Some (Running c) => let s := kept_settings c in
          Some (slab_size_opt s, profile_last_id s, maxbytes s, reserved_maxbytes s, reserved_percentage s)
      | _ => None
      end) (main false ex_atof true ex_granted ex_opts) = Some (524288, 23, 67108864, 13421772, 20)) as Hm by (vm_compute; reflexivity).
  destruct (startup_safe false ex_atof true ex_granted ex_opts ex_env ex_clk HF) as (r & Hr & Hs). rewrite Hr in Hm |- *.
  destruct r as [code|c]; [discriminate Hm|]. injection Hm as H1 H2 H3 H4 H5. exists c. split; [reflexivity|]. split; [exact H2|].
  refine (proj1 (Hs c eq_refl _ _)); [rewrite H1; by vm_compute|]. unfold heap_ok, slab_has_reserved_slabs. rewrite H1, H3, H4, H5. by vm_compute.
Defined.

(** C20: The settings are well formed after every accepted command line whose
    numbers fit an [int]: the sizes, the growth factor, the policy, the counts, the
    interval of the statistics and the lifetime of a lease are in the ranges the
    other modules divide, shift and index with; a refused one ends in an error. *)
Theorem settings_in_range large_pages atof allocated opts (HF : Forall (given atof) opts) :
  wp (mc_get_options large_pages atof allocated opts) (fun r c => r = MC_ERROR \/ r = MC_OK /\
    let s := kept_settings c in
    SLAB_MIN_SIZE <= slab_size_opt s <= SLAB_MAX_SIZE /\ ITEM_MIN_CHUNK_SIZE <= chunk_size c /\ le_one (factor c) = false /\
    EVICT_NONE <= evict_opt s < EVICT_INVALID /\ length (profile s) = SLABCLASS_MAX_IDS /\ hash_power_opt s = 0 /\
    0 < num_workers c /\ 0 < reqs_per_event c /\ 0 <= lease_token_expiry s /\
    STATS_MIN_INTVL <= stats_agg_intvl c <= STATS_MAX_INTVL /\ 0 < klog_entry c /\ 0 < klog_sampling_rate c /\
    0 < maxconns c /\ 0 < backlog c) mc_set_default_options.
Proof.
  eapply wp_mono; [by apply get_options_spec, default_options_ok|]. intros r c [[-> HO]| ->]; [right|by left]. split; [done|].
  destruct HO as [? ? [? _] ? ? ? ? ? ? ? [] []]. repeat split; done || lia.
Qed.

Definition ex_args : list getopt_result :=
  [Opt 116 (Some (bytes "8")); Opt 65 (Some (bytes "20000")); Opt 73 (Some (bytes "8m")); Opt 80 (Some (bytes "/var/run/twemcache.pid"))].

Lemma ex_args_accepted : fst <$> mc_get_options false ex_atof true ex_args mc_set_default_options = Some MC_OK.
Proof. vm_compute. reflexivity. Qed.

(** A command line that is accepted, with slabs of 8 MB. *)
Lemma settings_in_range_witness :
  exists c, mc_get_options false ex_atof true ex_args mc_set_default_options = Some (MC_OK, c) /\
    slab_size_opt (kept_settings c) <= SLAB_MAX_SIZE /\ STATS_MIN_INTVL <= stats_agg_intvl c /\ 0 < num_workers c.
Proof.
  assert (Forall (given ex_atof) ex_args) as HF.
  { unfold ex_args. do 4 (apply Forall_cons; split; [given_ok|]). constructor. }
  destruct (wp_elim _ _ _ (settings_in_range false ex_atof true ex_args HF)) as (r & c & He & Hr).
  pose proof ex_args_accepted as Ha. rewrite He in Ha. injection Ha as ->. exists c. split; [exact He|].
  destruct Hr as [Hr|[_ Hr]]; [discriminate Hr|].
  split; [apply Hr|]. split; apply Hr.
Defined.

(** C21: A slab profile given on the command line is accepted exactly when it
    describes sizes for the slab classes: the texts between the commas are numbers
    of at most ten characters, aligned, at least the smallest chunk, at most a
    slab, ascending and at most 254; then the classes have exactly these sizes.
    Otherwise it is refused. *)
Theorem mc_parse_profile_accepts c s (Hl : length (profile (kept_settings c)) = SLABCLASS_MAX_IDS) :
  wp (mc_parse_profile s) (fun r c' =>
    (exists ns, describes (slab_size (kept_settings c)) s ns /\ r = MC_OK /\ parsed c ns c' /\ profile_ok (kept_settings c')) \/
    (r = MC_ERROR /\ forall ns, ~ describes (slab_size (kept_settings c)) s ns)) c.
Proof. by apply parse_profile_spec. Qed.

Lemma mc_parse_profile_accepts_witness :
  wp (mc_parse_profile (bytes "80,128,1024")) (fun r c' => (r = MC_OK /\ profile_ok (kept_settings c')) \/ r = MC_ERROR) mc_set_default_options.
Proof.
  assert (length (profile (kept_settings mc_set_default_options)) = SLABCLASS_MAX_IDS) as Hl by (vm_compute; reflexivity).
  refine (wp_mono _ _ _ _ (mc_parse_profile_accepts mc_set_default_options (bytes "80,128,1024") Hl) _).
  intros r c' [(ns & _ & -> & _ & Hp)|[-> _]]; [left; split; [reflexivity|exact Hp]|right; reflexivity].
Defined.
