(* ===== verification/SockOk.v ===== *)
(** * Correctness of the sockets

    The search for the largest send buffer ends with it; the sockets the server
    listens on belong to connections, and those that cannot be used are closed. *)

From stdpp Require Import gmap list.
From S2P Require Import Prelude Util Slabs Startup Sys Sock.
Open Scope Z_scope.
Implicit Types (w : world) (sd fd : Z) (q : lconns).

(** ** The largest send buffer *)

(** A system that takes a size of the send buffer up to [limit]. *)
Definition limited (limit : Z) (c : call) (w : world) (r : answer c) (w' : world) : Prop :=
  answers c w r w' /\
  match c return answer c -> Prop with
  | Setsockopt _ SO_SNDBUF (IntVal n) => fun r => r = 0 <-> n <= limit
  | _ => fun _ => True
  end r.

Definition sndbuf_of w sd (n : Z) : Prop := exists f, w_fds w !! sd = Some f /\ f_sndbuf f = n.

Lemma maximize_loop_spec limit sd d fuel : forall min max cur w,
  sndbuf_of w sd cur -> 0 <= d -> 0 <= min -> max <= MAX_SNDBUF -> Z.min limit MAX_SNDBUF <= max ->
  max - min + 1 < 2 ^ Z.of_nat fuel -> (cur = d /\ min = d) \/ (cur = min - 1 /\ cur <= limit /\ d <= cur <= MAX_SNDBUF) ->
  sat (limited limit) (maximize_loop fuel sd min max) (fun _ w' => sndbuf_of w' sd (Z.max d (Z.min limit MAX_SNDBUF))) w.
Proof.
  unfold MAX_SNDBUF. induction fuel as [|fuel IH]; intros min max cur w Hs Hd H0 HM HT Hf Hc; cbn [maximize_loop];
    destruct (Z.leb_spec min max) as [Hle|Hlt].
  - change (2 ^ Z.of_nat 0) with 1 in Hf. lia.
  - replace (Z.max _ _) with cur by lia. exact Hs.
  - rewrite decide_True by lia. rewrite Z.quot_div_nonneg by lia. set (avg := (min + max) / 2).
    assert (min <= avg <= max /\ 2 * avg <= min + max < 2 * avg + 2) as [Ha1 Ha2].
    { unfold avg. pose proof (Z.div_mod (min + max) 2 ltac:(lia)). pose proof (Z.mod_pos_bound (min + max) 2 ltac:(lia)). lia. }
    rewrite Nat2Z.inj_succ, Z.pow_succ_r in Hf by lia. intros r w' [Hr Hlim].
    destruct Hs as (f & Hf1 & <-). cbn in Hlim. destruct Hr as [[-> ->]|(-> & _ & ->)].
    + assert (limit < avg) by (destruct (Z.le_gt_cases avg limit) as [Hx|]; [apply Hlim in Hx; lia|done]).
      apply (IH min (avg - 1) (f_sndbuf f)); try lia. by exists f.
    + assert (avg <= limit) by tauto. apply (IH (avg + 1) max avg); try lia.
      exists (set_sndbuf avg f). split; [|done]. unfold upd_file. cbn. by rewrite lookup_alter_eq, Hf1.
  - replace (Z.max _ _) with cur by lia. exact Hs.
Qed.

(** [mc_maximize_sndbuf] on a system that takes sizes up to some limit: when the
    present size can be read, the loop ends after at most 29 calls without overflow
    and leaves the largest size the system takes below 256 MB, and never less than
    the size there was; otherwise the size stays. *)
Lemma maximize_sndbuf_finds limit sd w f
  (Hf : w_fds w !! sd = Some f) (H0 : 0 <= f_sndbuf f) :
  sat (limited limit) (mc_maximize_sndbuf sd) (fun _ w' =>
    sndbuf_of w' sd (f_sndbuf f) \/ sndbuf_of w' sd (Z.max (f_sndbuf f) (Z.min limit MAX_SNDBUF))) w.
Proof.
  intros r w' [[-> Hr] _]. destruct r as [status n]. cbn -[Z.max Z.min maximize_loop] in *.
  destruct Hr as [->|(f' & Hf' & -> & Hn)]; [left; by exists f|]. rewrite Hf in Hf'. injection Hf' as <-. rewrite (Hn eq_refl). clear Hn.
  cbn -[Z.max Z.min maximize_loop]. destruct (Z.ltb_spec (f_sndbuf f) 0); [lia|]. eapply sat_mono.
  - apply (maximize_loop_spec limit sd (f_sndbuf f) 29 _ _ (f_sndbuf f)); [by exists f|done|done|done|lia| |by left].
    change (2 ^ Z.of_nat 29) with 536870912. unfold MAX_SNDBUF. lia.
  - intros ? w2 Hw. by right.
Qed.

Definition ex_world (fds : gmap Z file) : world :=
  World fds ∅ 18 [] false false 1000 1000 1000 (RLimit 1024 4096) (RLimit 0 0) ∅ ∅ ∅ 0 ∅.
Definition ex_file : file := File None 0 false None 16384.

(** ** One descriptor *)

Definition put fd (f : file) w : world := set_w_fds (<[fd := f]> (w_fds w)) w.

Arguments put : simpl never.

Lemma put_put fd f g w : put fd g (put fd f w) = put fd g w.
Proof. unfold put, set_w_fds. cbn. by rewrite insert_insert_eq. Qed.
Lemma upd_put fd f g w : upd_file fd g (put fd f w) = put fd (g f) w.
Proof. unfold upd_file, put, set_w_fds. cbn. f_equal. rewrite alter_insert_eq. done. Qed.
Lemma close_put fd f w : w_fds w !! fd = None -> set_w_fds (delete fd (w_fds (put fd f w))) (put fd f w) = w.
Proof. intros Hn. unfold put, set_w_fds. cbn. rewrite delete_insert_id by done. by destruct w. Qed.
Lemma put_lookup fd f w : w_fds (put fd f w) !! fd = Some f.
Proof. apply lookup_insert_eq. Qed.

Lemma put_ne fd fd' f w : fd <> fd' -> w_fds (put fd f w) !! fd' = w_fds w !! fd'.
Proof. apply lookup_insert_ne. Qed.

Lemma on_file_put fd g r f w w' : on_file fd g r (put fd f w) w' -> (r = -1 /\ w' = put fd f w) \/ (r = 0 /\ w' = put fd (g f) w).
Proof. intros [[-> ->]|(-> & _ & ->)]; [by left|right; by rewrite upd_put]. Qed.

(** A socket nobody has bound yet. *)
Definition fresh_sock (f : file) : Prop := 0 <= f_flags f /\ 0 <= f_sndbuf f.
Definition nonblock (f : file) : Prop := Z.testbit (f_flags f) 11 = true.

Lemma maximize_any sd flags fuel : forall min max f w,
  f_flags f = flags -> 0 <= f_sndbuf f -> 0 <= min -> max <= MAX_SNDBUF -> max - min + 1 < 2 ^ Z.of_nat fuel ->
  sat answers (maximize_loop fuel sd min max) (fun _ w' => exists f', f_flags f' = flags /\ 0 <= f_sndbuf f' /\ w' = put sd f' w) (put sd f w).
Proof.
  unfold MAX_SNDBUF. induction fuel as [|fuel IH]; intros min max f w Hfl Hs H0 HM Hf; cbn [maximize_loop];
    destruct (Z.leb_spec min max) as [Hle|Hlt].
  - change (2 ^ Z.of_nat 0) with 1 in Hf. lia.
  - by exists f.
  - rewrite decide_True by lia. rewrite Z.quot_div_nonneg by lia. set (avg := (min + max) / 2).
    assert (min <= avg <= max /\ 2 * avg <= min + max < 2 * avg + 2) as [Ha1 Ha2].
    { unfold avg. pose proof (Z.div_mod (min + max) 2 ltac:(lia)). pose proof (Z.mod_pos_bound (min + max) 2 ltac:(lia)). lia. }
    rewrite Nat2Z.inj_succ, Z.pow_succ_r in Hf by lia. intros r w' Hr. apply on_file_put in Hr as [[-> ->]|[-> ->]].
    + apply IH; try done; lia.
    + apply (IH (avg + 1) max (set_sndbuf avg f)); try done; [cbn; lia|lia|lia].
  - by exists f.
Qed.

Lemma get_sndbuf_spec sd f w (Q : Z -> world -> Prop) :
  (forall m, m < 0 -> Q m (put sd f w)) -> Q (f_sndbuf f) (put sd f w) -> sat answers (mc_get_sndbuf sd) Q (put sd f w).
Proof.
  intros Hno Hok [status n] w' [-> Hr]. cbn in Hr |- *. destruct Hr as [->|(g & Hg & -> & Hn)]; [by apply Hno|]. cbn.
  rewrite put_lookup in Hg. injection Hg as <-. by rewrite (Hn eq_refl).
Qed.

Lemma maximize_sndbuf_any sd f w : 0 <= f_sndbuf f ->
  sat answers (mc_maximize_sndbuf sd) (fun _ w' => exists f', f_flags f' = f_flags f /\ w' = put sd f' w) (put sd f w).
Proof.
  intros Hs. unfold mc_maximize_sndbuf. apply sat_bind, get_sndbuf_spec.
  - intros m Hm. destruct (Z.ltb_spec m 0); [|lia]. by exists f.
  - destruct (Z.ltb_spec (f_sndbuf f) 0); [lia|].
    assert (MAX_SNDBUF - f_sndbuf f + 1 < 2 ^ Z.of_nat 29) as Hf by (change (2 ^ Z.of_nat 29) with 536870912; unfold MAX_SNDBUF; lia).
    pose proof (maximize_any sd (f_flags f) 29 (f_sndbuf f) MAX_SNDBUF f w eq_refl Hs Hs (Z.le_refl _) Hf) as Hm.
    refine (sat_mono _ _ _ _ _ Hm _). intros ? w' (f' & ? & _ & ->). by exists f'.
Qed.

Lemma set_nonblocking_spec sd f w (Q : Z -> world -> Prop) :
  0 <= f_flags f -> (Q (-1) (put sd f w)) -> Q 0 (put sd (set_flags_ (Z.lor (f_flags f) O_NONBLOCK) f) w) ->
  sat answers (mc_set_nonblocking sd) Q (put sd f w).
Proof.
  intros Hf Hno Hok r w' [[-> ->]|(g & Hg & -> & ->)]; [exact Hno|]. rewrite put_lookup in Hg. injection Hg as <-. cbn.
  destruct (Z.ltb_spec (f_flags f) 0); [lia|]. intros r w' Hr. apply on_file_put in Hr as [[-> ->]|[-> ->]]; [exact Hno|exact Hok].
Qed.

Lemma prepare_socket_spec fam udp sd f w :
  w_fds w !! sd = None -> fresh_sock f ->
  sat answers (prepare_socket fam udp sd) (fun ok w' => if ok : bool then exists f', nonblock f' /\ w' = put sd f' w else w' = w) (put sd f w).
Proof.
  intros Hn [H1 H2]. unfold prepare_socket. apply sat_bind, set_nonblocking_spec; [done| |]; cbn [Z.eqb negb].
  { intros r w' [_ ->]. by apply close_put. }
  set (f1 := set_flags_ _ f). assert (nonblock f1) as Hb by (unfold nonblock, f1; cbn [f_flags set_flags_]; rewrite Z.lor_spec; apply orb_true_r).
  apply sat_bind. apply (sat_mono _ _ (fun r w' => (r = 0 \/ r = -1) /\ w' = put sd f1 w)).
  { case_decide; [|by split; [left|]]. intros r w' Hr. apply on_file_put in Hr as [[-> ->]|[-> ->]]; split; auto. }
  intros e w1 [He ->]. destruct He as [->| ->]; cbn [Z.eqb negb].
  2: { intros r w' [_ ->]. by apply close_put. }
  intros r w2 Hr. assert (w2 = put sd f1 w) as -> by (apply on_file_put in Hr as [[_ ->]|[_ ->]]; done). clear Hr.
  apply sat_bind. destruct udp; [|by exists f1]. eapply sat_mono; [by apply (maximize_sndbuf_any sd f1 w)|].
  intros ? w4 (f' & Hfl & ->). exists f'. split; [|done]. unfold nonblock in *. by rewrite Hfl.
Qed.

(** ** Accounting for descriptors *)

(** From [w] to [w'] descriptors are only added, each owned by a connection unless
    it is [leak]. *)
Record adds (leak : option Z) w w' : Prop := Adds {
  ad_old : forall fd f, w_fds w !! fd = Some f -> w_fds w' !! fd = Some f;
  ad_new : forall fd, is_open w' fd -> is_open w fd \/ (exists c, w_conns w' !! c = Some fd) \/ leak = Some fd;
  ad_conns : w_conns w ⊆ w_conns w';
  ad_events : w_events w ⊆ w_events w';
  ad_umask : w_umask w' = w_umask w
}.

Lemma adds_refl o w : adds o w w.
Proof. split; auto. Qed.
Lemma adds_trans o w1 w2 w3 : adds None w1 w2 -> adds o w2 w3 -> adds o w1 w3.
Proof.
  intros [A1 A2 A3 A4 A5] [B1 B2 B3 B4 B5]. split; [auto| |by trans (w_conns w2)|set_solver|congruence].
  intros fd Ho. destruct (B2 fd Ho) as [Ho2|[?|?]]; [|by right; left|by right; right].
  destruct (A2 fd Ho2) as [?|[[c Hc]|[=]]]; [by left|]. right. left. exists c. by apply (lookup_weaken (w_conns w2)).
Qed.
Lemma adds_put sd f w : w_fds w !! sd = None -> adds (Some sd) w (put sd f w).
Proof.
  intros Hn. split; try done.
  - intros fd g Hg. rewrite put_ne; [done|]. intros ->. congruence.
  - intros fd [g Hg]. destruct (decide (sd = fd)) as [->|Hne]; [by right; right|]. rewrite put_ne in Hg by done. left. by exists g.
Qed.
(** The descriptor gets a connection. *)
Lemma adds_conn o sd c w w1 w2 : o = None \/ o = Some sd -> adds o w w1 -> new_conn sd c w1 w2 -> adds None w w2.
Proof.
  intros Ho [A1 A2 A3 A4 A5] [Hc ->]. split; try done; [|apply insert_subseteq_r; [by apply (lookup_weaken_None _ (w_conns w1))|done]].
  intros fd Hf. destruct (A2 fd Hf) as [?|[[c' Hc']|Hl]]; [by left|right; left..].
  - exists c'. cbn. rewrite lookup_insert_ne; [done|]. intros ->. congruence.
  - exists c. destruct Ho as [->| ->]; [done|]. injection Hl as ->. apply lookup_insert_eq.
Qed.
Lemma adds_events o c w w1 : adds o w w1 -> adds o w (set_w_events ({[c]} ∪ w_events w1) w1).
Proof. intros [A1 A2 A3 A4 A5]. split; try done. cbn. set_solver. Qed.
Lemma adds_addrs o n w w1 : adds o w w1 -> adds o w (set_w_addrs n w1).
Proof. intros [A1 A2 A3 A4 A5]. by split. Qed.

(** The socket waits for clients, and the connection for the socket. *)
Definition listening (c : conf) w (p : Z * Z) : Prop :=
  w_conns w !! p.1 = Some p.2 /\ p.1 ∈ w_events w /\
  exists f, w_fds w !! p.2 = Some f /\ nonblock f /\ f_bound f = true /\ f_backlog f = Some (backlog c).

Lemma listening_adds c o w w' p : adds o w w' -> listening c w p -> listening c w' p.
Proof.
  intros [A1 A2 A3 A4 A5] (H1 & H2 & f & H3 & H4). split; [by apply (lookup_weaken (w_conns w))|]. split; [set_solver|]. exists f. split; [by apply A1|done].
Qed.

(** What is said of the rest when the call goes on or has failed. *)
Definition created (c : conf) (udp : bool) q w (status : option rstatus) q' w' : Prop :=
  exists leak new, adds leak w w' /\ q' = new ++ q /\ Forall (fun p => p.2 ∉ dom (w_fds w)) new /\
    (status <> Some MC_OK) /\ (status = None -> leak = None /\ w_addrs w' = w_addrs w /\ Forall (listening c w') new /\ (udp = true -> new = [])).

Lemma dispatch_workers_spec sd n : forall w0 w, adds (Some sd) w0 w ->
  sat answers (dispatch_workers sd n) (fun st w' => w_addrs w' = w_addrs w /\
    exists leak, adds leak w0 w' /\ (st = MC_OK -> (0 < n)%nat -> leak = None)) w.
Proof.
  assert (forall o c w0 w w', o = None \/ o = Some sd -> adds o w0 w -> new_conn sd c w w' -> w_addrs w' = w_addrs w /\ adds None w0 w') as Hn.
  { intros o c w0 w w' Ho Ha Hc. split; [by destruct Hc as [_ ->]|]. by apply (adds_conn o sd c w0 w w'). }
  assert (forall n w0 w, adds None w0 w -> sat answers (dispatch_workers sd n) (fun st w' => w_addrs w' = w_addrs w /\ exists leak, adds leak w0 w' /\ leak = None) w) as Hmore.
  { clear n. induction n as [|n IH]; intros w0 w Ha; [by split; [|exists None]|].
    intros st w' Hs. destruct st; cbn in Hs; try (subst w'; by split; [|exists None]).
    - destruct Hs as [c Hc]. destruct (Hn None c w0 w w' ltac:(by left) Ha Hc) as [E Ha']. cbn. rewrite <-E. by apply IH.
    - destruct Hs as [c Hc]. destruct (Hn None c w0 w w' ltac:(by left) Ha Hc) as [E Ha']. by split; [|exists None]. }
  destruct n as [|n]; intros w0 w Ha; [split; [done|]; exists (Some sd); split; [done|lia]|].
  intros st w' Hs. destruct st; cbn in Hs; try (subst w'; split; [done|]; by exists (Some sd)).
  - destruct Hs as [c Hc]. destruct (Hn (Some sd) c w0 w w' ltac:(by right) Ha Hc) as [E Ha']. cbn. rewrite <-E.
    eapply sat_mono; [by apply Hmore|]. intros st w2 (E2 & o & Ha2 & ->). split; [done|]. by exists None.
  - destruct Hs as [c Hc]. destruct (Hn (Some sd) c w0 w w' ltac:(by right) Ha Hc) as [E Ha']. split; [done|]. by exists None.
Qed.

Lemma serve_spec c udp sd f q w :
  w_fds w !! sd = None -> nonblock f -> f_bound f = true -> (udp = false -> f_backlog f = Some (backlog c)) -> (udp = true -> 0 < num_workers c) ->
  sat answers (serve_socket c udp sd q) (fun r w' => created c udp q w r.1 r.2 w' /\ (udp = false -> r.1 = None -> r.2 <> q)) (put sd f w).
Proof.
  intros Hn Hf1 Hf2 Hf3 Hw. pose proof (adds_put sd f w Hn) as Ha. assert (sd ∉ dom (w_fds w)) as Hd by by apply not_elem_of_dom.
  destruct udp; unfold serve_socket.
  - apply sat_bind. eapply sat_mono; [by apply (dispatch_workers_spec sd (Z.to_nat (num_workers c)) w)|]. intros st w' (E & leak & Ha' & Hl). apply sat_ret. cbn [fst snd]. split; [|done].
    exists leak, []. split_and!; [done|done|done| |]; case_decide as Hst; try done; [congruence|]. intros _. split_and!; try done. apply Hl; [done|].
    specialize (Hw eq_refl). lia.
  - intros [conn|] w' Hc; cbn in Hc.
    2: { subst w'. split; [|done]. exists (Some sd), []. by split_and!. }
    assert (adds None w w') as Ha' by (apply (adds_conn (Some sd) sd conn w (put sd f w)); auto).
    intros ok w'' Hw''. change (w'' = if ok then set_w_events ({[conn]} ∪ w_events w') w' else w') in Hw''. destruct Hc as [_ ->].
    destruct ok; subst w''; (split; [|intros _ _ Hq; apply (f_equal length) in Hq; cbn in Hq; lia]); exists None, [(conn, sd)].
    + split; [by apply adds_events|]. split; [done|]. split; [by apply Forall_singleton|]. split; [done|]. intros _. split; [done|]. split; [done|]. split; [|done].
      apply Forall_singleton. split; [apply lookup_insert_eq|]. split; [cbn; set_solver|]. exists f. split; [apply put_lookup|]. by rewrite Hf3.
    + split_and!; [done|done|by apply Forall_singleton|done|done].
Qed.

Lemma created_skip c udp q w : created c udp q w None q w.
Proof. exists None, []. split_and!; try done. apply adds_refl. Qed.

Lemma create_one_spec c udp a q success w : (udp = true -> 0 < num_workers c) ->
  sat answers (create_one c udp a q success) (fun r w' => created c udp q w r.1.1 r.1.2 w' /\
    (r.2 = success \/ (r.2 = success + 1 /\ (udp = false -> r.1.1 = None -> r.1.2 <> q)))) w.
Proof.
  intros Hw. unfold create_one. sys_call. intros sd w1 Hsd. cbn in sd, Hsd. destruct (Z.ltb_spec sd 0) as [Hneg|Hpos].
  { destruct Hsd as [[-> ->]|[[? _] _]]; [|lia]. split; [apply created_skip|by left]. }
  destruct Hsd as [[-> _]|[(_ & Hn & _) (n & H0 & ->)]]; [lia|]. change (set_w_fds _ w) with (put sd (File None 0 false None n) w).
  apply sat_bind. eapply sat_mono; [by apply prepare_socket_spec|]. intros [|] w1 Hw1; cbn [negb].
  2: { subst w1. split; [apply created_skip|by left]. }
  destruct Hw1 as (f & Hf & ->). sys_call. intros [r inuse] w1 Hr. change (on_file sd set_bound r (put sd f w) w1) in Hr. cbn [fst snd]. apply on_file_put in Hr as [[-> ->]|[-> ->]]; cbn [Z.eqb negb].
  - destruct inuse; cbn [negb]; sys_call; intros r w1 [_ ->]; rewrite close_put by done.
    + split; [apply created_skip|by left].
    + sys_call. intros ? w1 ->. split; [|by left]. exists None, []. split_and!; try done. apply adds_addrs, adds_refl.
  - apply sat_bind. apply (sat_mono _ _ (fun b w' => if b : bool then w' = put sd (set_bound f) w else
      exists f', nonblock f' /\ f_bound f' = true /\ (udp = false -> f_backlog f' = Some (backlog c)) /\ w' = put sd f' w)).
    { destruct udp; [by exists (set_bound f)|]. sys_call. intros r w1 Hr. apply on_file_put in Hr as [[-> ->]|[-> ->]]; cbn [Z.eqb]; [done|]. by exists (set_backlog_ (backlog c) (set_bound f)). }
    intros [|] w1 Hw1.
    + subst w1. sys_call. intros r w1 [_ ->]. rewrite close_put by done. sys_call. intros ? w1 ->. split; [|by right]. exists None, []. split_and!; try done. apply adds_addrs, adds_refl.
    + destruct Hw1 as (f' & F1 & F2 & F3 & ->). apply sat_bind. eapply sat_mono; [by apply (serve_spec c udp sd f' q w Hn F1 F2 F3 Hw)|].
      intros [r q'] w' [Hc Hq]. cbn [fst snd] in *. split; [done|]. by right.
Qed.

(** What the creation of sockets promises: [one] says that one of them listens. *)
Definition opened (c : conf) (one : Prop) q w (r : rstatus * lconns) w' : Prop :=
  exists leak new, adds leak w w' /\ r.2 = new ++ q /\ Forall (fun p => p.2 ∉ dom (w_fds w)) new /\
    (r.1 = MC_OK -> leak = None /\ w_addrs w' = w_addrs w /\ Forall (listening c w') new /\ (one -> new <> [])).

Lemma new_sds_adds o w w' (new : lconns) : adds o w w' -> Forall (fun p => p.2 ∉ dom (w_fds w')) new -> Forall (fun p => p.2 ∉ dom (w_fds w)) new.
Proof.
  intros A Hf. eapply Forall_impl; [exact Hf|]. intros p Hp Hin. apply Hp. apply elem_of_dom in Hin as [f Hx]. apply elem_of_dom. exists f. by apply (ad_old _ _ _ A).
Qed.

Lemma create_loop_spec c udp ai q0 w0 : (udp = true -> 0 < num_workers c) -> forall new success w,
  adds None w0 w -> Forall (fun p => p.2 ∉ dom (w_fds w0)) new -> Forall (listening c w) new -> w_addrs w = w_addrs w0 + 1 ->
  0 <= success -> (udp = false -> success <> 0 -> new <> []) ->
  sat answers (create_loop c udp ai (new ++ q0) success) (opened c (udp = false) q0 w0) w.
Proof.
  intros Hw. induction ai as [|a ai IH]; intros new success w Ha Hd Hl Hn H0 Hs; cbn [create_loop].
  - sys_call. intros ? w' ->. apply sat_ret. exists None, new. split; [by apply adds_addrs|]. split; [done|]. split; [done|]. cbn [fst].
    destruct (Z.eqb_spec success 0) as [|Hne]; cbn [negb]; [done|]. intros _. split; [done|]. split; [cbn; lia|]. split; [|by auto].
    eapply Forall_impl; [exact Hl|]. intros p. by apply (listening_adds c None), adds_addrs, adds_refl.
  - apply sat_bind. eapply sat_mono; [by apply (create_one_spec c udp a (new ++ q0) success w)|]. intros [[r q'] s'] w' [(leak & new' & A & Eq & Hd' & Hr & Hok) Hs'].
    cbn [fst snd] in *. subst q'. pose proof (adds_trans leak w0 w w' Ha A) as A'. pose proof (new_sds_adds _ _ _ _ Ha Hd') as Hd2. rewrite app_assoc.
    destruct r as [status|].
    + apply sat_ret. exists leak, (new' ++ new). split; [done|]. split; [done|]. split; [by apply Forall_app|]. cbn. intros ->. by destruct Hr.
    + destruct (Hok eq_refl) as (-> & Ea & Hl' & _). apply IH; [done|by apply Forall_app| |lia|lia|].
      * apply Forall_app. split; [done|]. eapply Forall_impl; [exact Hl|]. intros p. by apply (listening_adds c None).
      * intros Hu Hnz Hnil. apply app_nil in Hnil as [-> ->]. destruct Hs' as [->|[-> Hs']]; [by apply Hs|]. by apply Hs'.
Qed.

Lemma create_inet_spec c port udp q w : (udp = true -> 0 < num_workers c) ->
  sat answers (core_create_inet_socket c port udp q) (opened c (udp = false) q w) w.
Proof.
  intros Hw. unfold core_create_inet_socket. sys_call. intros [e l] w' Hr. cbn in Hr |- *. destruct (Z.eqb_spec e 0) as [->|He]; cbn [negb].
  - destruct Hr as [[? _]|(_ & _ & ->)]; [done|]. apply (create_loop_spec c udp l q w Hw []); try done. apply adds_addrs, adds_refl.
  - destruct Hr as [[_ ->]|[? _]]; [|done]. exists None, []. split_and!; try done. apply adds_refl.
Qed.

(** ** The local socket *)

Lemma adds_umask o m w w1 : adds o w w1 -> adds o (set_w_umask m w) (set_w_umask m w1).
Proof. intros [A1 A2 A3 A4 A5]. by split. Qed.

Lemma listen_unix_spec c sd f q w : w_fds w !! sd = None -> nonblock f -> f_bound f = true ->
  sat answers (listen_unix c sd q) (opened c True q w) (put sd f w).
Proof.
  intros Hn Hf1 Hf2. pose proof (adds_put sd f w Hn) as Ha. assert (sd ∉ dom (w_fds w)) as Hd by by apply not_elem_of_dom.
  unfold listen_unix. sys_call. intros r w' Hr. apply on_file_put in Hr as [[-> ->]|[-> ->]]; cbn [Z.eqb negb].
  { sys_call. intros r w' [_ ->]. rewrite close_put by done. exists None, []. split_and!; try done. apply adds_refl. }
  set (f' := set_backlog_ (backlog c) f). clear Ha. pose proof (adds_put sd f' w Hn) as Ha.
  sys_call. intros [conn|] w' Hc; cbn in Hc.
  2: { subst w'. exists (Some sd), []. by split_and!. }
  assert (adds None w w') as Ha' by (apply (adds_conn (Some sd) sd conn w (put sd f' w)); auto).
  sys_call. intros ok w'' Hw''. change (w'' = if ok then set_w_events ({[conn]} ∪ w_events w') w' else w') in Hw''. destruct Hc as [Hcn ->].
  destruct ok; subst w''.
  - exists None, [(conn, sd)]. split; [by apply adds_events|]. split; [done|]. split; [by apply Forall_singleton|]. intros _. split; [done|]. split; [done|]. split; [|done].
    apply Forall_singleton. split; [apply lookup_insert_eq|]. split; [cbn; set_solver|]. exists f'. split; [apply put_lookup|done].
  - sys_call. intros ? w' ->. exists (Some sd), []. split_and!; try done. replace (set_w_conns _ _) with (put sd f' w); [done|].
    unfold set_w_conns. cbn. rewrite delete_insert_id by done. done.
Qed.

(** Calls that do not touch descriptors or connections. *)
Lemma opened_from c one q w w1 r w' : w_fds w1 = w_fds w -> w_conns w1 = w_conns w -> w_events w1 = w_events w -> w_addrs w1 = w_addrs w ->
  w_umask w1 = w_umask w -> opened c one q w1 r w' -> opened c one q w r w'.
Proof.
  intros E1 E2 E3 E4 E5 (leak & new & A & Hq & Hd & Hok). exists leak, new. rewrite E1 in Hd. rewrite E4 in Hok. split; [|done].
  destruct A as [A1 A2 A3 A4 A5]. unfold is_open in *. rewrite E1 in A1, A2. rewrite E2 in A3. rewrite E3 in A4. split; try done. congruence.
Qed.

Lemma opened_failed c one q w w' : w_fds w' = w_fds w -> w_conns w' = w_conns w -> w_events w' = w_events w -> w_umask w' = w_umask w ->
  opened c one q w (MC_ERROR, q) w'.
Proof.
  intros E1 E2 E3 E4. exists None, []. split; [|by split_and!]. split; [by rewrite E1| |by rewrite E2|by rewrite E3|done].
  intros fd [f Hf]. rewrite E1 in Hf. left. by exists f.
Qed.

Lemma create_unix_spec c path mask q w : 0 <= w_umask w < 512 ->
  sat answers (core_create_unix_socket c path mask q) (opened c True q w) w.
Proof.
  intros Hm. assert (Z.land (w_umask w) 511 = w_umask w) as Hold.
  { change 511 with (Z.ones 9). rewrite Z.land_ones by lia. apply Z.mod_small. done. }
  unfold core_create_unix_socket. sys_call. intros sd w1 Hsd. cbn in sd, Hsd. destruct (Z.ltb_spec sd 0) as [Hneg|Hpos].
  { destruct Hsd as [[-> ->]|[[? _] _]]; [|lia]. by apply opened_failed. }
  destruct Hsd as [[-> _]|[(_ & Hn & _) (n & H0 & ->)]]; [lia|]. change (set_w_fds _ w) with (put sd (File None 0 false None n) w).
  apply sat_bind, set_nonblocking_spec; [done| |]; cbn [Z.eqb negb].
  { sys_call. intros r w1 [_ ->]. rewrite close_put by done. by apply opened_failed. }
  set (f := set_flags_ _ _). assert (nonblock f) as Hf by (unfold nonblock, f; cbn [f_flags set_flags_]; rewrite Z.lor_spec; apply orb_true_r).
  sys_call. intros r w1 Hr. assert (exists m, w1 = put sd f (set_w_files m w)) as [m ->].
  { destruct Hr as [[_ ->]|[_ ->]]; eexists; [|reflexivity]. instantiate (1 := w_files w). by destruct w. }
  clear r Hr. set (w1 := set_w_files m w). unfold mc_set_reuseaddr, mc_set_keepalive, mc_unset_linger.
  do 3 (sys_call; intros r w2 Hr; assert (w2 = put sd f w1) as -> by (apply on_file_put in Hr as [[_ ->]|[_ ->]]; done); clear r Hr).
  sys_call. intros old w2 [-> ->]. set (w2 := set_w_umask (Z.land (Z.lnot (Z.land mask 511)) 511) w1). change (set_w_umask _ (put sd f w1)) with (put sd f w2).
  change (w_umask (put sd f w1)) with (w_umask w). sys_call. intros [r inuse] w3 Hr. change (on_file sd set_bound r (put sd f w2) w3) in Hr. cbn [fst snd].
  apply on_file_put in Hr as [[-> ->]|[-> ->]]; cbn [Z.eqb negb].
  - sys_call. intros r w3 [_ ->]. rewrite close_put by done. sys_call. intros r3 w3 [_ ->]. by apply opened_failed.
  - sys_call. intros r w3 [_ ->]. rewrite Hold. change (set_w_umask _ (put sd (set_bound f) w2)) with (put sd (set_bound f) (set_w_umask (w_umask w) w2)).
    eapply sat_mono; [by apply (listen_unix_spec c sd (set_bound f) q (set_w_umask (w_umask w) w2))|]. intros [st q'] w' Ho. by apply (opened_from c True q w (set_w_umask (w_umask w) w2)).
Qed.

(** C31: the sockets of the server, as [core_create_socket] opens them, however the
    system answers.  No descriptor that was open before is touched, the file mode
    mask is as it was, and every descriptor opened on the way is closed again or
    belongs to a connection, but for one when the answer is an error (the
    connection could not be had).  When the answer is OK there is none such, the
    lists of addresses are freed, every connection added to the queue listens on a
    socket that is bound and does not block and is watched by libevent, and there
    is one unless the server was configured without a port. *)
Theorem listening_sockets c q w
  (Hm : 0 <= w_umask w < 512) (Hw : 0 < num_workers c) :
  sat answers (core_create_socket c q) (opened c (socketpath c <> None \/ port c <> 0) q w) w.
Proof.
  unfold core_create_socket. destruct (socketpath c) as [path|].
  { eapply sat_mono; [by apply (create_unix_spec c path)|]. intros r w' (leak & new & A & Hq & Hd & Hok). exists leak, new. split_and!; try done.
    intros Hst. destruct (Hok Hst) as (H1 & H2 & H3 & H4). split_and!; [done..|]. intros _. by apply H4. }
  apply sat_bind. apply (sat_mono _ _ (opened c (port c <> 0) q w)).
  { destruct (Z.eqb_spec (port c) 0) as [E|E]; cbn [negb].
    - apply sat_ret. exists None, []. split_and!; try done. apply adds_refl.
    - eapply sat_mono; [by apply create_inet_spec|]. intros r w' (leak & new & A & Hq & Hd & Hok). exists leak, new. split_and!; try done.
      intros Hst. destruct (Hok Hst) as (H1 & H2 & H3 & H4). split_and!; [done..|]. intros _. by apply H4. }
  intros [st q1] w1 Ho. assert (opened c (@None (list Z) <> None \/ port c <> 0) q w (st, q1) w1) as Hd1.
  { destruct Ho as (leak & new & A & Hq & Hd & Hok). exists leak, new. split_and!; try done. intros Hst. destruct (Hok Hst) as (H1 & H2 & H3 & H4). split_and!; [done..|].
    intros [?|?]; [done|auto]. }
  clear Ho. case_decide as Hst; [|by apply sat_ret]. destruct (Z.eqb_spec (udpport c) 0) as [E|E]; cbn [negb]; [by apply sat_ret; rewrite <-Hst|].
  destruct Hd1 as (leak & new & A & Hq & Hd & Hok). destruct (Hok Hst) as (-> & Ha & Hl & Hone). cbn in Hq. subst q1.
  eapply sat_mono; [by apply create_inet_spec|]. intros [st2 q2] w2 (leak & new2 & A2 & Hq2 & Hd2 & Hok2). cbn in Hq2. subst q2.
  exists leak, (new2 ++ new). split; [by apply (adds_trans leak w w1)|]. split; [by rewrite <-app_assoc|]. split.
  { apply Forall_app. split; [by apply (new_sds_adds None w w1)|done]. }
  intros Hst2. destruct (Hok2 Hst2) as (-> & Ha2 & Hl2 & _). split; [done|]. split; [congruence|]. split.
  - apply Forall_app. split; [done|]. eapply Forall_impl; [exact Hl|]. intros p. by apply (listening_adds c None).
  - intros Hx Hnil. apply app_nil in Hnil as [_ ->]. by apply Hone.
Qed.

(** A system that refuses nothing, on a host with one address. *)
Definition obliging (c : call) (w : world) : option (answer c * world) :=
  match c return option (answer c * world) with
  | Getaddrinfo _ _ t => Some ((0, [AddrInfo AF_INET6 t 6 []]), set_w_addrs (w_addrs w + 1) w)
  | Freeaddrinfo => Some (tt, set_w_addrs (w_addrs w - 1) w)
  | Socket _ _ _ => fd ← free_fd w; Some (fd, set_w_fds (<[fd := File None 0 false None 212992]> (w_fds w)) w)
  | Getfl fd => f ← w_fds w !! fd; Some (f_flags f, w)
  | Setfl fd flags => f ← w_fds w !! fd; Some (0, upd_file fd (set_flags_ flags) w)
  | Setsockopt fd IPV6_V6ONLY _ | Setsockopt fd SO_REUSEADDR _ => f ← w_fds w !! fd; Some (0, upd_file fd id w)
  | Bind fd _ => f ← w_fds w !! fd; Some ((0, false), upd_file fd set_bound w)
  | Listen fd n => f ← w_fds w !! fd; Some (0, upd_file fd (set_backlog_ n) w)
  | Conn_get sd _ => Some (Some (fresh (dom (w_conns w))), set_w_conns (<[fresh (dom (w_conns w)) := sd]> (w_conns w)) w)
  | Conn_set_event c => Some (true, set_w_events ({[c]} ∪ w_events w) w)
  | _ => None
  end.

Lemma obliging_answers c w r w' : obliging c w = Some (r, w') -> answers c w r w'.
Proof.
  destruct c; try match goal with o : sockopt |- _ => destruct o end; try discriminate 1; intros E; cbn in E;
    try (apply bind_Some in E; destruct E as (x & Hx & E)).
  all: injection E; clear E; intros Ew Er; subst r w'; cbn.
  all: try done.
  all: try (right; split; [done|]; split; [by exists x|done]).
  - right. split; [by apply free_fd_lowest|]. by exists 212992.
  - right. by exists x.
  - right. split; [done|]. by split; [apply Forall_singleton|].
  - split; [apply not_elem_of_dom, is_fresh|done].
Qed.

Definition ex_conf : conf := set_udpport 0 mc_set_default_options.

(** The theorem at the default options without a datagram port, and a run in
    which all goes well. *)
Lemma listening_sockets_witness :
  sat answers (core_create_socket ex_conf []) (opened ex_conf (socketpath ex_conf <> None \/ port ex_conf <> 0) [] (ex_world {[2 := ex_file]})) (ex_world {[2 := ex_file]}) /\
  match exec obliging (core_create_socket ex_conf []) (ex_world {[2 := ex_file]}) with
  | Returned (MC_OK, [(conn, 0)]) w' => listening ex_conf w' (conn, 0)
  | _ => False
  end.
Proof.
  split; [apply (listening_sockets ex_conf [] (ex_world {[2 := ex_file]})); done|].
  assert (sat answers (core_create_socket ex_conf []) (opened ex_conf (socketpath ex_conf <> None \/ port ex_conf <> 0) [] (ex_world {[2 := ex_file]})) (ex_world {[2 := ex_file]})) as Hs
    by (apply (listening_sockets ex_conf [] (ex_world {[2 := ex_file]})); done).
  apply (sat_exec answers obliging _ _ obliging_answers) in Hs. revert Hs.
  destruct (exec obliging _ _) as [[st q] w'| |] eqn:E; vm_compute in E; try discriminate E.
  injection E; clear E; intros Ew Eq Est; subst q st. intros (leak & new & _ & Hq & _ & Hok). cbn in Hq. rewrite app_nil_r in Hq. subst new. subst w'.
  destruct (Hok eq_refl) as (_ & _ & Hl & _). apply Forall_cons in Hl as [Hl _].
  exact Hl.
Defined.
