(* ===== verification/LogOk.v ===== *)
(** * Correctness of the log

    Lines of the log and dumps are cut to their buffers and never written outside
    of them; the logger keeps its level in range and one descriptor whatever
    signals arrive. *)

From stdpp Require Import gmap list strings.
From S2P Require Import Prelude Util Slabs Sys Log.
Open Scope Z_scope.

(** ** Text in a buffer *)

(** The buffer holds what fits of the text. *)
Definition holds (size : Z) (t : list Z) (st : list Z * Z) : Prop :=
  Z.of_nat (length st.1) = size /\ st.2 = Z.min (size - 1) (Z.of_nat (length t)) /\
  take (Z.to_nat st.2) st.1 = take (Z.to_nat (size - 1)) t.

Lemma holds_fresh size : 0 < size -> holds size [] (fresh_buf size).
Proof. intros Hs. unfold holds, fresh_buf. cbn. rewrite length_replicate, take_nil. split_and!; [lia|lia|done]. Qed.

Lemma vscnprintf_min n size : 0 <= n -> 0 < size < 2 ^ 31 -> _vscnprintf n size = Z.min n (size - 1).
Proof.
  intros Hn Hs. unfold _vscnprintf. destruct (Z.leb_spec n 0); [lia|]. destruct (Z.ltb_spec n size); [lia|].
  rewrite u64_small by lia. rewrite s32_small by lia. lia.
Qed.

Lemma emit_holds size t text st : 0 < size < 2 ^ 31 -> Z.of_nat (length text) <= INT_MAX -> holds size t st ->
  exists st', emit size text st = Some st' /\ holds size (t ++ text) st'.
Proof.
  destruct st as [buf len]. intros Hs Ht (Hb & Hl & Htk). cbn in Hb, Hl, Htk. unfold emit, _scnprintf, vsnprintf.
  destruct (Z.eqb_spec (size - len) 0); [lia|]. set (bs := take (Z.to_nat (size - len - 1)) text).
  assert (length bs = Nat.min (Z.to_nat (size - len - 1)) (length text)) as Hbs by apply length_take.
  unfold put_bytes. rewrite decide_True by (rewrite length_app, Hbs; cbn; lia). cbn -[_vscnprintf INT_MAX].
  destruct (Z.leb_spec (Z.of_nat (length text)) INT_MAX); [|lia]. rewrite vscnprintf_min by lia. eexists. split; [reflexivity|].
  unfold holds. cbn [fst snd]. rewrite !length_app, length_take, length_drop, Hbs. cbn [length]. split; [lia|]. split; [lia|].
  rewrite take_app_ge by (rewrite length_take; lia). rewrite length_take. rewrite Htk, (take_app t text).
  replace (Nat.min (Z.to_nat len) (length buf)) with (Z.to_nat len) by lia. f_equal.
  rewrite take_app_le by (rewrite length_app, Hbs; cbn; lia). rewrite take_app_le by (rewrite Hbs; lia).
  unfold bs. rewrite take_take. destruct (decide (Z.of_nat (length text) <= size - len - 1)).
  - rewrite !(take_ge text) by lia. done.
  - f_equal. lia.
Qed.

Lemma finish_holds size t st : 0 < size -> holds size t st -> finish_line st = Some (take (Z.to_nat (size - 1)) t ++ [10]).
Proof.
  destruct st as [buf len]. intros Hs (Hb & Hl & Htk). cbn in Hb, Hl, Htk. unfold finish_line, put_bytes. rewrite decide_True by (cbn; lia). cbn.
  f_equal. rewrite <-Htk. rewrite take_app_ge by (rewrite length_take; lia). rewrite length_take. f_equal.
  replace (Z.to_nat (len + 1) - Nat.min (Z.to_nat len) (length buf))%nat with 1%nat by lia. done.
Qed.

Ltac emits H st' :=
  match type of H with holds ?size ?t ?st =>
    match goal with |- context [emit size ?text st] =>
      let H' := fresh "H" in let E := fresh "E" in
      assert (exists st', emit size text st = Some st' /\ holds size (t ++ text) st') as (st' & E & H');
      [apply emit_holds; [done| |exact H]|rewrite E; clear H E; rename H' into H; cbn [mbind option_bind]]
    end
  end.

Lemma log_lines_exact timestr file line msg :
  Z.of_nat (length (log_head timestr file line)) <= INT_MAX -> Z.of_nat (length msg) <= INT_MAX ->
  log_line timestr file line msg = Some (take 255 (log_head timestr file line ++ msg) ++ [10]) /\
  log_stderr_line msg = Some (take 1023 msg ++ [10]).
Proof.
  intros Hh Hm. split.
  - unfold log_line. pose proof (holds_fresh LOG_MAX_LEN ltac:(done)) as H. emits H st; [done|]. emits H st'; [done|]. by apply (finish_holds LOG_MAX_LEN).
  - unfold log_stderr_line. pose proof (holds_fresh (4 * LOG_MAX_LEN) ltac:(done)) as H. emits H st; [done|]. by apply (finish_holds (4 * LOG_MAX_LEN)).
Qed.

(** ** The dump *)

(** A row of the dump: sixteen places for bytes, then the bytes themselves. *)
Fixpoint cells (n : nat) (i : Z) (data : list Z) : list Z :=
  match n, data with
  | O, _ => []
  | S n', c :: data' => (print_hex 2 c ++ sep i) ++ cells n' (i + 1) data'
  | S n', [] => (bytes "  " ++ sep i) ++ cells n' (i + 1) []
  end.
Definition shown (c : Z) : Z := if isprint c then c else 46.
Definition canonical_row (off : Z) (data : list Z) : list Z :=
  (print_hex 8 off ++ bytes "  ") ++ cells 16 0 data ++ bytes "  |" ++ (shown <$> take 16 data) ++ bytes "|" ++ [10].
Fixpoint canonical_rows (n : nat) (off : Z) (data : list Z) : list Z :=
  match n with
  | O => []
  | S n' => if decide (data = []) then [] else canonical_row off data ++ canonical_rows n' (off + 16) (drop 16 data)
  end.
(** [hexdump -C] without its last line. *)
Definition canonical (data : list Z) : list Z := canonical_rows (length data) 0 data.

Lemma holds_full size t u st : size - 1 <= Z.of_nat (length t) -> holds size t st -> holds size (t ++ u) st.
Proof.
  intros Hf (H1 & H2 & H3). split; [done|]. split; [rewrite length_app; lia|]. rewrite H3. symmetry. apply take_app_le. lia.
Qed.

Lemma hex_pad_holds n : forall data i st t, i + Z.of_nat n = 16 -> holds DUMP_LEN t st ->
  exists i' st1 st2, hex_loop data i st = Some (i', st1) /\ pad_loop (Z.to_nat (16 - i')) i' st1 = Some st2 /\ holds DUMP_LEN (t ++ cells n i data) st2.
Proof.
  induction n as [|n IH]; intros data i st t Hi H.
  - exists i, st, st. replace i with 16 by lia. cbn [cells]. rewrite app_nil_r. split; [by destruct data|done].
  - destruct data as [|c data]; cbn [hex_loop cells].
    + exists i, st. assert (exists st', emit DUMP_LEN (bytes "  " ++ sep i) st = Some st' /\ holds DUMP_LEN (t ++ bytes "  " ++ sep i) st') as (st' & E & H').
      { apply emit_holds; [done| |done]. unfold sep. by destruct (i =? 7). }
      destruct (IH [] (i + 1) st' _ ltac:(lia) H') as (i' & st1 & st2 & E1 & E2 & H2). injection E1 as <- <-. exists st2. split; [done|].
      replace (Z.to_nat (16 - i)) with (S (Z.to_nat (16 - (i + 1)))) by lia. cbn [pad_loop]. rewrite E. cbn [mbind option_bind]. rewrite E2. split; [done|].
      by rewrite app_assoc.
    + destruct (Z.ltb_spec i 16); [|lia]. emits H st'. { unfold sep. by destruct (i =? 7). }
      destruct (IH data (i + 1) st' _ ltac:(lia) H) as (i' & st1 & st2 & E1 & E2 & H2). exists i', st1, st2. split; [done|]. split; [done|]. by rewrite app_assoc.
Qed.

Lemma chars_holds n : forall data i st t, i + Z.of_nat n = 16 -> holds DUMP_LEN t st ->
  exists st', chars_loop data i st = Some (drop n data, st') /\ holds DUMP_LEN (t ++ (shown <$> take n data)) st'.
Proof.
  induction n as [|n IH]; intros data i st t Hi H.
  - exists st. replace i with 16 by lia. rewrite app_nil_r. split; [by destruct data|done].
  - destruct data as [|c data]; cbn [chars_loop]; [exists st; by rewrite app_nil_r|].
    destruct (Z.ltb_spec i 16); [|lia]. emits H st'; [done|]. destruct (IH data (i + 1) st' _ ltac:(lia) H) as (st2 & E & H2). exists st2.
    split; [done|]. cbn. by rewrite <-app_assoc in H2.
Qed.

Lemma dump_row_holds data off st t : holds DUMP_LEN t st ->
  exists st', dump_row data off st = Some (drop 16 data, st') /\ holds DUMP_LEN (t ++ canonical_row off data) st'.
Proof.
  intros H. unfold dump_row. emits H st1. { rewrite length_app. unfold print_hex. by rewrite length_reverse. }
  destruct (hex_pad_holds 16 data 0 st1 _ eq_refl H) as (i & st2 & st3 & E1 & E2 & H3). rewrite E1. cbn [mbind option_bind]. rewrite E2. cbn [mbind option_bind].
  clear H. emits H3 st4; [done|]. destruct (chars_holds 16 data 0 st4 _ eq_refl H3) as (st5 & E & H5). rewrite E. cbn [mbind option_bind]. clear H3.
  emits H5 st6; [done|]. exists st6. split; [done|]. unfold canonical_row. by rewrite <-!app_assoc in *.
Qed.

Lemma rows_loop_holds fuel : forall data off st t, (length data <= fuel)%nat -> holds DUMP_LEN t st ->
  exists st', rows_loop fuel data off st = Some st' /\ holds DUMP_LEN (t ++ canonical_rows fuel off data) st'.
Proof.
  induction fuel as [|fuel IH]; intros data off st t Hf H; cbn [rows_loop canonical_rows].
  { destruct data; [|cbn in Hf; lia]. exists st. by rewrite app_nil_r. }
  case_decide as Hd.
  { rewrite bool_decide_eq_false_2 by (intros Hx; by apply Hx). exists st. by rewrite app_nil_r. }
  rewrite bool_decide_eq_true_2 by done. cbn [andb]. destruct (Z.ltb_spec st.2 (DUMP_LEN - 1)) as [Hlt|Hge].
  - destruct (dump_row_holds data off st t H) as (st' & E & H'). rewrite E. cbn [mbind option_bind]. rewrite app_assoc. apply IH; [|done].
    rewrite length_drop. destruct data; [done|]. cbn in *. lia.
  - exists st. split; [done|]. apply holds_full; [|done]. destruct H as (_ & H & _). lia.
Qed.

Lemma hexdump_canonical (data : list Z) : hexdump data = Some (take 2047 (canonical data)).
Proof.
  unfold hexdump, canonical. destruct (rows_loop_holds (length data) data 0 (fresh_buf DUMP_LEN) [] ltac:(done) (holds_fresh DUMP_LEN ltac:(done))) as ([buf len] & E & H1 & H2 & H3).
  rewrite E. cbn [mbind option_bind]. cbn [fst snd app] in H3. by rewrite H3.
Qed.

(** C36: what the log writes.  [_log] makes a line of the time, the place and the
    message: all of it up to 255 bytes, and the end of line; [_log_stderr] likewise
    up to 1023 bytes; [_log_hexdump] writes the canonical dump of the data, as much
    of it as fits in 2047 bytes.  The loops end and no byte is stored outside of the
    buffers, whatever the message and the data. *)
Theorem log_output_exact timestr file line msg data
  (Hh : Z.of_nat (length (log_head timestr file line)) <= INT_MAX) (Hm : Z.of_nat (length msg) <= INT_MAX) :
  log_line timestr file line msg = Some (take 255 (log_head timestr file line ++ msg) ++ [10]) /\
  log_stderr_line msg = Some (take 1023 msg ++ [10]) /\
  hexdump data = Some (take 2047 (canonical data)).
Proof. destruct (log_lines_exact timestr file line msg Hh Hm) as [H1 H2]. split; [exact H1|]. split; [exact H2|]. apply hexdump_canonical. Qed.

Lemma log_output_exact_witness :
  log_line (bytes "Thu Jan  1 00:00:00 1970" ++ [10]) (bytes "mc.c") 7 (bytes "up") = Some (bytes "[Thu Jan  1 00:00:00 1970] mc.c:7 up" ++ [10]) /\
  log_stderr_line (bytes "up") = Some (bytes "up" ++ [10]) /\
  hexdump (bytes "get k" ++ [13; 10]) = Some (bytes "00000000  67 65 74 20 6b 0d 0a                               |get k..|" ++ [10]).
Proof.
  destruct (log_output_exact (bytes "Thu Jan  1 00:00:00 1970" ++ [10]) (bytes "mc.c") 7 (bytes "up") (bytes "get k" ++ [13; 10])) as (E1 & E2 & E3); [by vm_compute..|].
  rewrite E1, E2, E3. split; [vm_compute; reflexivity|]. split; vm_compute; reflexivity.
Defined.

(** ** The logger over time *)

(** Texts of any length that occurs. *)
Definition short (s : list Z) : Prop := Z.of_nat (length s) <= 2 ^ 20.

(** What writing to the log leaves alone. *)
Definition wrote (l : logger) (w : world) (l' : logger) (w' : world) : Prop :=
  l_name l' = l_name l /\ l_level l' = l_level l /\ l_fd l' = l_fd l /\ exists m, w' = set_w_files m w.

Lemma wrote_refl l w : wrote l w l w.
Proof. split_and!; [done..|]. exists (w_files w). by destruct w. Qed.
Lemma wrote_trans l w l1 w1 l2 w2 : wrote l w l1 w1 -> wrote l1 w1 l2 w2 -> wrote l w l2 w2.
Proof. intros (?&?&?&m1&->) (?&?&?&m2&->). split_and!; [congruence..|]. by exists m2. Qed.

Lemma write_log_spec fd bs l w : sat answers (write_log fd bs l) (wrote l w) w.
Proof.
  unfold write_log. sys_call. intros n w' Hn. apply sat_ret. assert (exists m, w' = set_w_files m w) as Hm.
  { assert (w = set_w_files (w_files w) w) as E by by destruct w. destruct Hn as [[_ ->]|(_ & _ & ->)]; [by eexists|]. unfold written. by case_match; eexists. }
  case_match; by split_and!.
Qed.

Lemma log_spec file line msg l w : short file -> Z.of_nat (length msg) <= INT_MAX -> sat answers (_log file line false msg l) (wrote l w) w.
Proof.
  intros Hf Hm. unfold _log. destruct (Z.ltb_spec (l_fd l) 0); [by apply sat_ret, wrote_refl|]. sys_call. intros timestr w1 [Ht ->].
  destruct (log_lines_exact timestr file line msg) as [-> _]; [|done|].
  - unfold log_head, short in *. rewrite !length_app, length_take. pose proof (print_int_length line). unfold INT_MAX. cbn [bytes length String.list_ascii_of_string fmap list_fmap]. lia.
  - apply sat_bind, sat_ret, sat_bind. eapply sat_mono; [apply write_log_spec|]. done.
Qed.

Lemma log_stderr_spec msg l w : Z.of_nat (length msg) <= INT_MAX -> sat answers (_log_stderr msg l) (wrote l w) w.
Proof.
  intros Hm. unfold _log_stderr. destruct (log_lines_exact [] [] 0 msg) as [_ ->]; [by vm_compute|done|]. apply write_log_spec.
Qed.

Lemma log_error_spec file line msg l w : short file -> Z.of_nat (length msg) <= INT_MAX -> sat answers (log_error file line msg l) (wrote l w) w.
Proof. intros Hf Hm. unfold log_error. case_match; [by apply log_spec|]. apply sat_ret, wrote_refl. Qed.

(** The logger beside what the process had open in [w0]: one descriptor more, on
    the file of the log, unless it writes to the standard error or the file could
    not be opened. *)
Record kept (w0 : world) (l : logger) (w : world) : Prop := Kept {
  kp_level : LOG_EMERG <= l_level l <= LOG_PVERB;
  kp_others : forall fd, fd <> l_fd l -> w_fds w !! fd = w_fds w0 !! fd;
  kp_own : l_fd l <> STDERR_FILENO -> w_fds w0 !! l_fd l = None /\ exists path, l_name l = Some path /\ short path /\
    if 0 <=? l_fd l then exists f, w_fds w !! l_fd l = Some f /\ f_path f = Some path else w_fds w !! l_fd l = None
}.

Lemma kept_wrote w0 l w l' w' : kept w0 l w -> wrote l w l' w' -> kept w0 l' w'.
Proof.
  intros [K1 K2 K3] (E1 & E2 & E3 & m & ->). split; [by rewrite E2| |]; rewrite E3; [done|]. by rewrite E1.
Qed.
Lemma kept_level w0 l w n : kept w0 l w -> LOG_EMERG <= n <= LOG_PVERB -> kept w0 (set_level n l) w.
Proof. intros [K1 K2 K3] Hn. by split. Qed.

(** The file is opened, nothing else being open than before. *)
Lemma kept_open w0 w l path fd w' : LOG_EMERG <= l_level l <= LOG_PVERB -> l_name l = Some path -> short path ->
  w_fds w = w_fds w0 -> w_fds w0 !! (-1) = None -> answers (Open path AppendCreate) w fd w' -> kept w0 (set_fd fd l) w'.
Proof.
  intros Hl Hn Hs Hw H1 [[-> ->]|[(H0 & Hf & _) ->]].
  - split; cbn; [done|by rewrite Hw|]. intros _. split; [done|]. exists path. by rewrite Hw.
  - split; cbn; [done| |].
    + intros fd' Hne. rewrite lookup_insert_ne by done. by rewrite Hw.
    + intros _. split; [by rewrite <-Hw|]. exists path. split; [done|]. split; [done|]. destruct (Z.leb_spec 0 fd); [|lia].
      eexists. split; [apply lookup_insert_eq|done].
Qed.

Section session.
Context (strerror : list Z) (symbols : option (list (list Z))).
Context (Hstr : short strerror) (Hsym : Forall short (default [] symbols)).

Lemma log_init_spec level name l w : short (default [] name) -> w_fds w !! (-1) = None ->
  sat answers (log_init strerror level name l) (fun r w' => kept w r.2 w') w.
Proof.
  intros Hn H1. assert (forall n, LOG_EMERG <= clamp_level n <= LOG_PVERB) as Hc by (intros n; unfold clamp_level, LOG_EMERG, LOG_PVERB; lia).
  unfold log_init. destruct name as [[|c path]|]; [by apply sat_ret; split; cbn| |by apply sat_ret; split; cbn].
  sys_call. intros fd w1 Ho. set (l0 := Logger _ _ _ _). apply (kept_open w w l0 (c :: path)) in Ho; [|apply Hc|done..].
  destruct (Z.ltb_spec fd 0); [|by apply sat_ret]. apply sat_bind. eapply sat_mono; [apply log_stderr_spec|].
  - unfold short, INT_MAX in *. rewrite !length_app. cbn -[Z.of_nat Z.pow] in *. lia.
  - intros l' w' Hw. apply sat_ret. by apply (kept_wrote w (set_fd fd l0) w1 l' w').
Qed.

Lemma log_reopen_spec w0 l w : w_fds w0 !! (-1) = None -> kept w0 l w ->
  sat answers (log_reopen strerror l) (fun l' w' => kept w0 l' w' /\ w_handlers w' = w_handlers w) w.
Proof.
  intros H1 K. unfold log_reopen. destruct (Z.eqb_spec (l_fd l) STDERR_FILENO) as [E|Hne]; cbn [negb]; [by apply sat_ret|].
  destruct (kp_own _ _ _ K Hne) as (Hfree & path & Hn & Hs & _). sys_call. intros r w1 [_ ->]. rewrite Hn.
  set (w1 := set_w_fds _ w). assert (w_fds w1 = w_fds w0) as E1.
  { apply map_eq. intros fd. cbn. destruct (decide (fd = l_fd l)) as [->|Hd]; [by rewrite lookup_delete_eq, Hfree|]. rewrite lookup_delete_ne by done. by apply (kp_others _ _ _ K). }
  sys_call. intros fd w2 Ho. assert (w_handlers w2 = w_handlers w) as Eh by (destruct Ho as [[_ ->]|[_ ->]]; done).
  apply (kept_open w0 w1 l path) in Ho; [|apply (kp_level _ _ _ K)|done..]. destruct (Z.ltb_spec fd 0); [|by apply sat_ret].
  eapply sat_mono; [apply log_stderr_spec|].
  - unfold short, INT_MAX in *. rewrite !length_app. cbn -[Z.of_nat Z.pow] in *. lia.
  - intros l' w' Hw. split; [by apply (kept_wrote w0 (set_fd fd l) w2 l' w')|]. by destruct Hw as (_ & _ & _ & m & ->).
Qed.

Definition kept_on (w0 w : world) (l' : logger) (w' : world) : Prop := kept w0 l' w' /\ w_handlers w' = w_handlers w.

Lemma kept_on_wrote w0 l w p : kept w0 l w -> sat answers p (wrote l w) w -> sat answers p (kept_on w0 w) w.
Proof. intros K Hp. eapply sat_mono; [exact Hp|]. intros l' w' Hw. split; [by apply (kept_wrote w0 l w)|]. by destruct Hw as (_ & _ & _ & m & ->). Qed.

Lemma stack_loop_spec syms : forall j l w, Forall (fun s => Z.of_nat (length s) <= 2 ^ 20) syms -> sat answers (stack_loop syms j l) (wrote l w) w.
Proof.
  induction syms as [|s syms IH]; intros j l w Hs; [by apply sat_ret, wrote_refl|]. apply Forall_cons in Hs as [Hs Hss]. cbn [stack_loop].
  apply sat_bind. eapply sat_mono; [apply log_spec|].
  - done.
  - unfold INT_MAX in *. rewrite !length_app. pose proof (print_int_length j). cbn -[Z.of_nat Z.pow] in *. lia.
  - intros l1 w1 H1. eapply sat_mono; [by apply IH|]. intros l2 w2 H2. by apply (wrote_trans l w l1 w1).
Qed.

Lemma level_spec w0 l w n line msg : kept w0 l w -> LOG_EMERG <= n <= LOG_PVERB -> (length msg <= 20)%nat ->
  sat answers (_log mc_log_c line false (msg ++ print_int (l_level (set_level n l))) (set_level n l)) (kept_on w0 w) w.
Proof.
  intros K Hn Hm. apply (kept_on_wrote w0 (set_level n l)); [by apply kept_level|]. apply log_spec; [done|].
  rewrite length_app. pose proof (print_int_length (l_level (set_level n l))). unfold INT_MAX. lia.
Qed.

Lemma deliver_spec w0 l w sig : w_fds w0 !! (-1) = None -> kept w0 l w -> sig ∈ signals ->
  sat answers (deliver strerror symbols sig l) (kept_on w0 w) w.
Proof.
  intros H1 K Hin. assert (sat answers (mret l : io logger) (kept_on w0 w) w) as Hret by by split.
  pose proof (kp_level _ _ _ K) as Hl. unfold signals in Hin.
  repeat (apply elem_of_cons in Hin as [->|Hin]); [..|by apply elem_of_nil in Hin]; unfold deliver; cbn -[log_level_up log_level_down log_reopen mc_stacktrace]; try exact Hret.
  - unfold log_level_up. destruct (Z.ltb_spec (l_level l) LOG_PVERB); [|exact Hret]. apply (level_spec w0 l w (l_level l + 1) 94 (bytes "up log level to ")); [done|lia|by vm_compute; lia].
  - unfold log_level_down. destruct (Z.ltb_spec LOG_EMERG (l_level l)); [|exact Hret]. apply (level_spec w0 l w (l_level l - 1) 105 (bytes "down log level to ")); [done|lia|by vm_compute; lia].
  - by apply log_reopen_spec.
  - intros [].
  - apply sat_bind. apply (sat_mono _ _ (kept_on w0 w)).
    + apply (kept_on_wrote w0 l); [done|]. unfold mc_stacktrace. destruct symbols as [syms|]; [|by apply sat_ret, wrote_refl]. by apply stack_loop_spec, Forall_drop.
    + intros l' w' K'. intros r w2 [_ ->]. exact K'.
Qed.

Lemma deliver_all_spec w0 sigs : forall l w, w_fds w0 !! (-1) = None -> kept w0 l w -> Forall (fun sig => sig ∈ signals) sigs ->
  sat answers (deliver_all strerror symbols sigs l) (kept_on w0 w) w.
Proof.
  induction sigs as [|sig sigs IH]; intros l w H1 K Hs; [by split|]. apply Forall_cons in Hs as [Hs Hss]. cbn [deliver_all].
  apply sat_bind. eapply sat_mono; [by apply (deliver_spec w0 l w sig)|]. intros l1 w1 [K1 E1]. eapply sat_mono; [by apply IH|].
  intros l2 w2 [K2 E2]. split; [done|congruence].
Qed.

(** The handlers of a table with different signals are all installed. *)
Lemma signal_loop_spec w0 sigs : forall l w, NoDup (signo <$> sigs) -> Forall (fun sig => (length (signame sig) <= 20)%nat) sigs -> kept w0 l w ->
  sat answers (signal_loop strerror sigs l) (fun r w' => kept w0 r.2 w' /\ (r.1 = MC_OK ->
    (forall sig, sig ∈ sigs -> w_handlers w' !! signo sig = Some (sig_handler sig)) /\
    forall n, n ∉ signo <$> sigs -> w_handlers w' !! n = w_handlers w !! n)) w.
Proof.
  induction sigs as [|sig sigs IH]; intros l w Hnd Hs K; cbn [signal_loop].
  { split; [done|]. intros _. split; [|done]. intros sig Hin. by apply elem_of_nil in Hin. }
  apply Forall_cons in Hs as [Hs Hss]. apply NoDup_cons in Hnd as [Hni Hnd]. sys_call. intros r w1 Hr. destruct Hr as [[-> ->]|[-> ->]]; cbn [Z.ltb Z.compare].
  - apply sat_bind. eapply sat_mono; [apply log_error_spec|]; [done| |].
    + unfold INT_MAX, short in *. rewrite !length_app. cbn -[Z.of_nat Z.pow] in *. lia.
    + intros l' w' Hw. apply sat_ret. split; [by apply (kept_wrote w0 l w)|done].
  - set (w1 := set_w_handlers _ w). assert (kept w0 l w1) as K1 by (by destruct K). eapply sat_mono; [by apply (IH l w1)|].
    intros [st l'] w' [K' Hok]. split; [done|]. intros Hst. destruct (Hok Hst) as [Ha Hb]. split.
    + intros sg Hin. apply elem_of_cons in Hin as [->|Hin]; [|by apply Ha]. rewrite Hb by done. apply lookup_insert_eq.
    + intros n Hn. apply not_elem_of_cons in Hn as [Hne Hn]. rewrite Hb by done. by apply lookup_insert_ne.
Qed.
End session.

(** The log is opened, the handlers are installed, and signals arrive. *)
Definition log_session (strerror : list Z) (symbols : option (list (list Z))) (level : Z) (name : option (list Z)) (sigs : list signal) (l : logger) : io (rstatus * logger) :=
  '(r, l) ← log_init strerror level name l;
  if negb (r =? 0) then mret (MC_ERROR, l)
  else
    '(status, l) ← signal_init strerror l;
    if decide (status = MC_OK) then l ← deliver_all strerror symbols sigs l; mret (MC_OK, l) else mret (status, l).

(** C32: the logger from the start and over any sequence of signals, however the
    system answers.  The level stays between 0 and 11; every descriptor that was
    open before is as it was and at most one more is open, that of the log, on its
    file; once [signal_init] has answered OK the handlers of the table are
    installed, and the handler never meets a signal it does not know. *)
Theorem logger_session strerror symbols level name sigs l w
  (Hstr : short strerror) (Hsym : Forall short (default [] symbols)) (Hname : short (default [] name))
  (Hfd : w_fds w !! (-1) = None) (Hsigs : Forall (fun sig => sig ∈ signals) sigs) :
  sat answers (log_session strerror symbols level name sigs l) (fun r w' => kept w r.2 w' /\
    (r.1 = MC_OK -> forall sig, sig ∈ signals -> w_handlers w' !! signo sig = Some (sig_handler sig))) w.
Proof.
  unfold log_session. apply sat_bind. eapply sat_mono; [by apply log_init_spec|]. intros [r l1] w1 K1. cbn [snd] in K1. destruct (r =? 0); cbn [negb]; [|by apply sat_ret].
  apply sat_bind. eapply sat_mono; [apply (signal_loop_spec strerror Hstr w signals l1 w1)|]; [|by repeat constructor; cbn; lia|done|].
  - apply (bool_decide_eq_true_1 (NoDup (signo <$> signals))). by vm_compute.
  - intros [st l2] w2 [K2 Hh]. cbn [fst snd] in *. case_decide as Hst; [|by apply sat_ret]. apply sat_bind. eapply sat_mono; [by apply (deliver_all_spec strerror symbols Hstr Hsym w)|].
    intros l3 w3 [K3 E3]. apply sat_ret. split; [done|]. intros _ sig Hin. cbn in E3 |- *. rewrite E3. by apply Hh.
Qed.

Lemma logger_session_witness :
  sat answers (log_session (bytes "error") None 20 (Some (bytes "log")) signals (Logger None 0 0 0)) (fun r w' =>
    LOG_EMERG <= l_level r.2 <= LOG_PVERB /\ (r.1 = MC_OK -> w_handlers w' !! SIGHUP = Some signal_handler_)) (World {[2 := File None 0 false None 0]} ∅ 18 [] false false 0 0 0 (RLimit 0 0) (RLimit 0 0) ∅ ∅ ∅ 0 ∅).
Proof.
  eapply sat_mono; [apply (logger_session (bytes "error") None 20 (Some (bytes "log")) signals (Logger None 0 0 0))|]; [done|by apply Forall_nil|done|done|by apply Forall_forall|].
  intros [st l] w' [K Hh]. split; [apply (kp_level _ _ _ K)|]. intros Hst. apply (Hh Hst (Signal SIGHUP (bytes "SIGHUP") 0 signal_handler_)).
  unfold signals. do 4 (apply elem_of_cons; right). apply elem_of_cons. by left.
Defined.

(** ** Names of peers *)

Definition peer_name (p : option peer) (size : Z) : list Z :=
  match p with
  | Some (PeerInet text port) => if (Z.of_nat (length text) <? size) && negb (port =? 0) then text ++ bytes ":" ++ print_int port else bytes "-"
  | Some (PeerUnix path) => path
  | None => bytes "-"
  end.

Lemma vsnprintf_at buf off size text : 0 <= off -> 0 < size -> off + size <= Z.of_nat (length buf) ->
  exists rest, fst <$> vsnprintf buf off size text = Some (take (Z.to_nat off) buf ++ take (Z.to_nat (size - 1)) text ++ 0 :: rest).
Proof.
  intros H0 Hs Hb. unfold vsnprintf, put_bytes. destruct (Z.eqb_spec size 0); [lia|]. rewrite decide_True by (rewrite length_app, length_take; cbn; lia).
  cbn. eexists. f_equal. f_equal. rewrite <-app_assoc. reflexivity.
Qed.

(** The name of a peer is a string within its buffer, cut when it is too long. *)
Lemma resolve_peer_exact p buf size : 0 < size <= Z.of_nat (length buf) ->
  exists rest, mc_resolve_peer p buf size = Some (take (Z.to_nat (size - 1)) (peer_name p size) ++ 0 :: rest).
Proof.
  intros Hs. assert (forall b t, length b = length buf -> exists rest, fst <$> vsnprintf b 0 size t = Some (take (Z.to_nat (size - 1)) t ++ 0 :: rest)) as Hat.
  { intros b t Hb. destruct (vsnprintf_at b 0 size t) as [rest ->]; [lia..|]. by exists rest. }
  destruct p as [[text port|path]|]; cbn [mc_resolve_peer peer_name]; [|by apply Hat..]. unfold inet_ntop.
  destruct (Z.ltb_spec (Z.of_nat (length text)) size) as [Hlt|Hge]; cbn [andb negb mbind option_bind]; [|by apply Hat].
  unfold put_bytes. rewrite decide_True by (rewrite length_app; cbn; lia). cbn [mbind option_bind negb]. set (b := _ ++ (text ++ [0]) ++ _).
  assert (length b = length buf) as Hb by (unfold b; rewrite !length_app, length_take, length_drop; cbn; lia).
  destruct (port =? 0); cbn [negb]; [by apply Hat|]. destruct (vsnprintf_at b (Z.of_nat (length text)) (size - Z.of_nat (length text)) (bytes ":" ++ print_int port)) as [rest ->]; [lia..|].
  exists rest. f_equal. rewrite (take_app text), (take_ge text) by lia. rewrite <-app_assoc.
  assert (take (Z.to_nat (Z.of_nat (length text))) b = text) as ->.
  { change b with ((text ++ [0]) ++ drop (length (text ++ [0])) buf). rewrite Nat2Z.id, take_app_le by (rewrite length_app; cbn; lia). apply take_app_length. }
  f_equal. f_equal. f_equal. lia.
Qed.
