(* ===== verification/BootOk.v ===== *)
(** * Correctness of the start

    When [main] goes on to set up the server, the process runs as a user that is
    not the super-user, in the background with nothing open that was not, within
    the limits it asked for and with its pid in the file it was told. *)

From stdpp Require Import gmap list strings.
From S2P Require Import Prelude Util Slabs Startup Sys Log LogOk Boot.
Open Scope Z_scope.
Implicit Types (w : world) (l : logger).

(** What holds when a step answers OK; otherwise [main] exits. *)
Definition ok_then (P : logger -> world -> Prop) (r : rstatus * logger) w : Prop := r.1 = MC_OK -> P r.2 w.

(** A system with fewer answers. *)
Lemma sat_sub (R R' : forall c, world -> answer c -> world -> Prop) {A} (p : io A) (Q : A -> world -> Prop) :
  (forall c w r w', R' c w r w' -> R c w r w') -> forall w, sat R p Q w -> sat R' p Q w.
Proof. intros HR. induction p as [a|c k IH|]; intros w Hs; [exact Hs| |done]. intros r w' Ha. by apply IH, Hs, HR. Qed.

Lemma sat_and (R : forall c, world -> answer c -> world -> Prop) {A} (p : io A) (P Q : A -> world -> Prop) :
  forall w, sat R p P w -> sat R p Q w -> sat R p (fun a w' => P a w' /\ Q a w') w.
Proof. induction p as [a|c k IH|]; intros w HP HQ; [by split| |done]. intros r w' Ha. apply IH; [by apply HP|by apply HQ]. Qed.

(** The system writes what it is given, or fails. *)
Definition writes_whole (c : call) (w : world) (r : answer c) (w' : world) : Prop :=
  answers c w r w' /\
  match c return answer c -> Prop with Write _ bs => fun r => r < 0 \/ r = Z.of_nat (length bs) | _ => fun _ => True end r.

Lemma exit_spec {A} code (Q : A -> world -> Prop) w : sat answers (exit_ code) Q w.
Proof. intros []. Qed.

Lemma checked_spec p P w : sat answers p (ok_then P) w -> sat answers (checked p) P w.
Proof.
  intros Hp. apply sat_bind. eapply sat_mono; [exact Hp|]. intros [st l] w' Hok. case_decide as Hst; [by apply sat_ret, Hok|apply exit_spec].
Qed.

Lemma fail_log_spec line msg l P w : Z.of_nat (length msg) <= INT_MAX -> sat answers (fail_log line msg l) (ok_then P) w.
Proof. intros Hm. apply sat_bind. eapply sat_mono; [by apply log_error_spec|]. intros l' w' _. by apply sat_ret. Qed.
Lemma fail_stderr_spec msg l P w : Z.of_nat (length msg) <= INT_MAX -> sat answers (fail_stderr msg l) (ok_then P) w.
Proof. intros Hm. apply sat_bind. eapply sat_mono; [by apply log_stderr_spec|]. intros l' w' _. by apply sat_ret. Qed.

(** Lengths of messages. *)
Ltac shortly := repeat match goal with |- context [print_int ?n] => lazymatch goal with H : (length (print_int n) <= 21)%nat |- _ => fail | _ => pose proof (print_int_length n) end end;
  repeat match goal with |- context [print_u64 ?n] => lazymatch goal with H : (length (print_u64 n) <= 20)%nat |- _ => fail | _ => pose proof (print_u64_length n) end end;
  unfold short, INT_MAX in *; rewrite ?length_app; cbn [bytes length String.list_ascii_of_string fmap list_fmap dev_null] in *; lia.

Section boot.
Context (strerror : list Z) (Hstr : short strerror).

(** ** Limits *)

Lemma maximize_core_spec l w : sat answers (mc_maximize_core strerror l) (ok_then (fun l' w' =>
  l' = l /\ exists x, w' = set_w_core x w /\ (x = RLimit RLIM_INFINITY RLIM_INFINITY \/ x = RLimit (rlim_max (w_core w)) (rlim_max (w_core w))))) w.
Proof.
  unfold mc_maximize_core. sys_call. intros [st rlim] w1 [-> Hr]. cbn [fst] in Hr. destruct (Z.ltb_spec st 0); [apply fail_stderr_spec; shortly|].
  destruct Hr as [->|Hr]; [lia|]. injection Hr as -> ->. sys_call. intros r w1 [[-> ->]|(-> & _ & ->)]; cbn [Z.ltb Z.compare].
  - sys_call. intros r w1 [[-> ->]|(-> & _ & ->)]; cbn [Z.eqb]; [apply fail_stderr_spec; shortly|]. intros _. split; [done|]. eexists. by split; [|right].
  - intros _. split; [done|]. eexists. by split; [|left].
Qed.

Lemma set_maxconns_spec n l w : sat answers (mc_set_maxconns strerror n l) (ok_then (fun l' w' =>
  let cur := Z.max (rlim_cur (w_nofile w)) (u64 n) in l' = l /\ w' = set_w_nofile (RLimit cur (Z.max (rlim_max (w_nofile w)) cur)) w)) w.
Proof.
  unfold mc_set_maxconns. sys_call. intros [st rlim] w1 [-> Hr]. cbn [fst] in Hr. destruct (Z.eqb_spec st 0) as [->|]; cbn [negb]; [|apply fail_stderr_spec; shortly].
  destruct Hr as [|Hr]; [done|]. injection Hr as ->. sys_call. intros r w1 [[-> ->]|(-> & _ & ->)]; cbn [Z.eqb negb].
  - apply sat_bind. eapply sat_mono; [apply log_stderr_spec; shortly|]. intros l' w' _. apply fail_stderr_spec; shortly.
  - intros _. by split.
Qed.

(** ** The user *)

Lemma change_user_spec name id gid l w : short name -> sat answers (change_user strerror name id gid l) (ok_then (fun l' w' =>
  exists m uid' gid', (w_euid w = 0 -> uid' = id) /\ (gid' = gid \/ gid' = w_gid w) /\ w' = set_w_euid id (set_w_uid uid' (set_w_gid gid' (set_w_files m w))))) w.
Proof.
  intros Hn. unfold change_user. sys_call. intros r w1 Hr. assert (exists gid', (gid' = gid \/ gid' = w_gid w) /\ w1 = set_w_gid gid' w) as (gid' & Hg & E1).
  { destruct Hr as [[_ ->]|[_ ->]]; [exists (w_gid w)|exists gid]; split; auto. by destruct w. }
  subst w1. apply sat_bind. apply (sat_mono _ _ (fun l' w' => exists m, w' = set_w_files m (set_w_gid gid' w))).
  { case_match; [|apply sat_ret; exists (w_files w); by destruct w]. eapply sat_mono; [apply log_stderr_spec; shortly|]. intros l' w' (_ & _ & _ & Hm). exact Hm. }
  intros l' w1 [m ->]. sys_call. intros r2 w1 [[-> ->]|[-> ->]]; cbn [Z.ltb Z.compare]; [apply fail_stderr_spec; shortly|]. intros _.
  exists m. cbn [w_euid set_w_files set_w_gid]. destruct (Z.eqb_spec (w_euid w) 0) as [E|E]; [exists id|exists (w_uid w)]; exists gid'; split_and!; auto; done.
Qed.

Lemma set_user_spec u l w : short (default [] u) -> sat answers (mc_set_user strerror u l) (ok_then (fun l' w' =>
  (u = None /\ w_uid w <> 0 /\ w_euid w <> 0 /\ w' = w) \/
  exists name id gid m uid' gid', u = Some name /\ w_passwd w !! name = Some (id, gid) /\ (w_euid w = 0 -> uid' = id) /\ (gid' = gid \/ gid' = w_gid w) /\
    w' = set_w_euid id (set_w_uid uid' (set_w_gid gid' (set_w_files m w))))) w.
Proof.
  intros Hu. unfold mc_set_user. sys_call. intros uid w1 [-> ->]. sys_call. intros euid w1 [-> ->].
  destruct (Z.eqb_spec (w_uid w) 0) as [E1|E1], (Z.eqb_spec (w_euid w) 0) as [E2|E2]; cbn [negb andb].
  4: { destruct u; [apply fail_stderr_spec; shortly|]. intros _. by left. }
  all: destruct u as [name|]; [|apply fail_stderr_spec; shortly]; cbn [default from_option id] in Hu; sys_call; intros pw w1 [Hpw ->]; destruct pw as [[id gid]|]; [|apply fail_stderr_spec; shortly].
  all: destruct Hpw as [|Hpw]; [done|]; eapply sat_mono; [by apply change_user_spec|].
  all: intros [st l'] w' Hok Hst; specialize (Hok Hst); destruct Hok as (m & uid' & gid' & H1 & H2 & ->); right; exists name, id, gid, m, uid', gid'; by split_and!.
Qed.

(** ** The background *)

Lemma detach_spec line l w : sat answers (detach strerror line l) (ok_then (fun l' w' => w' = set_w_leader false w)) w.
Proof.
  unfold detach. sys_call. intros pid w1 [[-> ->]|[[-> ->]|[Hp ->]]]; cbn [Z.eqb]; [apply fail_log_spec; shortly|by apply sat_ret|].
  destruct (Z.eqb_spec pid (-1)); [lia|]. destruct (Z.eqb_spec pid 0); [lia|]. apply exit_spec.
Qed.

Lemma redirect_spec fd f targets : forall l w, w_fds w !! fd = Some f -> Forall (fun t => short t.1.2) targets ->
  sat answers (redirect strerror fd targets l) (ok_then (fun l' w' => w' = set_w_fds (foldl (fun m t => <[t.1.1 := f]> m) (w_fds w) targets) w)) w.
Proof.
  induction targets as [|[[t name] line] targets IH]; intros l w Hf Hs; cbn [redirect foldl]; [intros _; by destruct w|]. apply Forall_cons in Hs as [Hs Hss]. cbn in Hs.
  sys_call. intros r w1 [[-> ->]|(g & Hg & H0 & -> & ->)].
  - cbn [Z.ltb Z.compare]. apply sat_bind. eapply sat_mono; [apply log_error_spec; [done|shortly]|]. intros l' w' _. sys_call. intros r w2 _. by apply sat_ret.
  - rewrite Hf in Hg. injection Hg as <-. destruct (Z.ltb_spec t 0); [lia|]. eapply sat_mono; [apply IH|]; [|done|].
    + cbn. destruct (decide (t = fd)) as [->|Hne]; [apply lookup_insert_eq|]. by rewrite lookup_insert_ne.
    + intros [st l'] w' Hok Hst. exact (Hok Hst).
Qed.

(** Only the standard descriptors change, and they are on [/dev/null]. *)
Definition nulled (fds fds' : gmap Z file) : Prop :=
  forall fd, if decide (fd ∈ [STDIN_FILENO; STDOUT_FILENO; STDERR_FILENO]) then exists f, fds' !! fd = Some f /\ f_path f = Some dev_null
             else fds' !! fd = fds !! fd.

Lemma redirect_all_spec l w : sat answers (redirect_all strerror l) (ok_then (fun l' w' =>
  exists fds files, w' = set_w_fds fds (set_w_files files w) /\ nulled (w_fds w) fds)) w.
Proof.
  unfold redirect_all. sys_call. intros fd w1 Hfd. destruct (Z.ltb_spec fd 0); [apply fail_log_spec; shortly|].
  destruct Hfd as [[-> _]|[(_ & Hn & _) ->]]; [lia|]. set (f := File (Some dev_null) 0 false None 0).
  apply sat_bind. eapply sat_mono; [apply (redirect_spec fd f)|].
  - apply lookup_insert_eq.
  - by repeat constructor.
  - intros [st l'] w' Hok. case_decide as Hst; [|by intros ?]. specialize (Hok Hst). cbn [foldl fst] in Hok. subst w'.
    assert (forall m : gmap Z file, (forall x, x ∉ [STDIN_FILENO; STDOUT_FILENO; STDERR_FILENO] -> m !! x = w_fds w !! x) ->
      nulled (w_fds w) (<[STDERR_FILENO:=f]> (<[STDOUT_FILENO:=f]> (<[STDIN_FILENO:=f]> m)))) as Hnull.
    { intros m Hm x. case_decide as Hx.
      - exists f. split; [|done]. rewrite !elem_of_cons, elem_of_nil in Hx. destruct Hx as [->|[->|[->|[]]]]; [rewrite 2!lookup_insert_ne by done|rewrite lookup_insert_ne by done|]; apply lookup_insert_eq.
      - rewrite !lookup_insert_ne by set_solver. by apply Hm. }
    destruct (Z.ltb_spec STDERR_FILENO fd) as [Hgt|Hle].
    + sys_call. intros r w1 [Hr ->]. destruct (Z.ltb_spec r 0); [apply fail_log_spec; shortly|]. intros _. eexists _, _. split; [reflexivity|].
      cbn. unfold STDERR_FILENO, STDOUT_FILENO, STDIN_FILENO in *. rewrite !delete_insert_ne by lia. apply Hnull. intros x _. destruct (decide (x = fd)) as [->|Hne]; [by rewrite lookup_delete_eq|].
      by rewrite lookup_delete_ne, lookup_insert_ne.
    + intros _. eexists _, _. split; [reflexivity|]. apply Hnull. intros x Hx. cbn. apply lookup_insert_ne. intros ->.
      apply Hx. unfold STDERR_FILENO, STDOUT_FILENO, STDIN_FILENO in *. assert (x = 0 \/ x = 1 \/ x = 2) as [->|[->| ->]] by lia; set_solver.
Qed.

Lemma daemonize_spec dump l w : sat answers (mc_daemonize strerror dump l) (ok_then (fun l' w' =>
  exists fds files h, w' = set_w_fds fds (set_w_files files (set_w_umask 0 (set_w_cwd (if dump then w_cwd w else bytes "/") (set_w_leader false (set_w_tty false (set_w_handlers h w)))))) /\
    nulled (w_fds w) fds)) w.
Proof.
  unfold mc_daemonize. apply sat_bind. eapply sat_mono; [apply detach_spec|]. intros [st l1] w1 Hok. case_decide as Hst; [|by intros ?]. specialize (Hok Hst). cbn in Hok. subst w1. clear st Hst.
  sys_call. intros sid w1 [[-> ->]|[Hs ->]]; [by intros ?|]. destruct (Z.ltb_spec sid 0); [lia|].
  sys_call. intros r w1 [[-> ->]|[-> ->]]; cbn [Z.eqb]; [apply fail_log_spec; shortly|].
  apply sat_bind. eapply sat_mono; [apply detach_spec|]. intros [st l2] w1 Hok. case_decide as Hst; [|by intros ?]. specialize (Hok Hst). cbn in Hok. subst w1. clear st Hst.
  apply sat_bind. set (w2 := set_w_leader false _). apply (sat_mono _ _ (fun r w' => r < 0 \/ w' = set_w_cwd (if dump then w_cwd w else bytes "/") w2)).
  - destruct dump; cbn [negb]; [by apply sat_ret; right|]. intros r w1 [[-> ->]|[-> ->]]; [left; lia|by right].
  - intros r w1 Hr. destruct (Z.ltb_spec r 0); [apply fail_log_spec; shortly|]. destruct Hr as [| ->]; [lia|]. sys_call. intros ? w1 [_ ->].
    eapply sat_mono; [apply redirect_all_spec|]. intros [st l3] w' Hok Hst. destruct (Hok Hst) as (fds & files & -> & Hn). exists fds, files. eexists. split; [reflexivity|exact Hn].
Qed.

(** ** The pid file *)

Lemma create_pidfile_spec name pid l w : short name -> sat answers (mc_create_pidfile strerror name pid l) (fun r w' => r.2.1 = MC_OK ->
  r.1 = true /\ exists files k, w' = set_w_files files w /\ files !! name = Some (take k (print_int pid))) w.
Proof.
  intros Hn. unfold mc_create_pidfile. sys_call. intros fd w1 Hfd.
  assert (forall b line msg w2, Z.of_nat (length msg) <= INT_MAX -> sat answers (r ← fail_log line msg l; mret (b, r)) (fun r w' => r.2.1 = MC_OK ->
    r.1 = true /\ exists files k, w' = set_w_files files w /\ files !! name = Some (take k (print_int pid))) w2) as Hfail.
  { intros b line msg w2 Hm. apply sat_bind. eapply sat_mono; [by apply (fail_log_spec line msg l (fun _ _ => False))|]. intros [st l'] w' Hok. apply sat_ret. intros Hst. by destruct Hok. }
  destruct (Z.ltb_spec fd 0); [apply Hfail; shortly|]. destruct Hfd as [[-> _]|[(_ & Hfree & _) ->]]; [lia|].
  sys_call. intros n w1 [[-> ->]|(_ & Hr & ->)]; cbn [Z.ltb Z.compare]; [apply Hfail; shortly|]. destruct (Z.ltb_spec n 0); [lia|].
  sys_call. intros st w1 [_ ->]. destruct (Z.ltb_spec st 0); [apply Hfail; shortly|]. intros _. split; [done|].
  assert (written fd (take (Z.to_nat n) (print_int pid)) (open_file name CreateTrunc fd w) =
    set_w_files (<[name := take (Z.to_nat n) (print_int pid)]> (<[name := []]> (w_files w))) (open_file name CreateTrunc fd w)) as ->.
  { unfold written. replace (w_fds (open_file name CreateTrunc fd w) !! fd) with (Some (File (Some name) 0 false None 0)) by (symmetry; apply lookup_insert_eq).
    cbn [mbind option_bind f_path]. f_equal. cbn. by rewrite lookup_insert_eq. }
  cbn. rewrite delete_insert_id by done.
  exists (<[name := take (Z.to_nat n) (print_int pid)]> (<[name := []]> (w_files w))), (Z.to_nat n). split; [by destruct w|apply lookup_insert_eq].
Qed.

(** On a system that writes all or nothing the file holds the whole pid. *)
Lemma create_pidfile_whole name pid l w : short name -> sat writes_whole (mc_create_pidfile strerror name pid l) (fun r w' => r.2.1 = MC_OK ->
  w_files w' !! name = Some (print_int pid)) w.
Proof.
  intros Hn. unfold mc_create_pidfile. sys_call. intros fd w1 [Hfd _].
  assert (forall b line msg w2, Z.of_nat (length msg) <= INT_MAX -> sat writes_whole (r ← fail_log line msg l; mret (b, r)) (fun (r : bool * (rstatus * logger)) w' => r.2.1 = MC_OK ->
    w_files w' !! name = Some (print_int pid)) w2) as Hfail.
  { intros b line msg w2 Hm. apply sat_bind, (sat_sub answers); [by intros ???? []|]. eapply sat_mono; [by apply (fail_log_spec line msg l (fun _ _ => False))|].
    intros [st l'] w' Hok. apply sat_ret. intros Hst. by destruct Hok. }
  destruct (Z.ltb_spec fd 0); [apply Hfail; shortly|]. destruct Hfd as [[-> _]|[(_ & Hfree & _) ->]]; [lia|].
  sys_call. intros n w1 [[[-> ->]|(_ & Hr & ->)] Hwhole]; cbn [Z.ltb Z.compare]; [apply Hfail; shortly|]. destruct (Z.ltb_spec n 0); [lia|].
  destruct Hwhole as [Hwhole|Hwhole]; [lia|]. sys_call. intros st w1 [[_ ->] _]. destruct (Z.ltb_spec st 0); [apply Hfail; shortly|]. intros _. cbn.
  unfold written. replace (w_fds (open_file name CreateTrunc fd w) !! fd) with (Some (File (Some name) 0 false None 0)) by (symmetry; apply lookup_insert_eq).
  cbn [mbind option_bind f_path]. cbn. rewrite lookup_insert_eq. cbn. by rewrite lookup_insert_eq, Hwhole, Nat2Z.id, firstn_all.
Qed.

Lemma lock_page_spec b l w : sat answers (mc_lock_page strerror b l) (ok_then (fun l' w' => l' = l /\ w' = w)) w.
Proof.
  unfold mc_lock_page. destruct b; [|apply fail_stderr_spec; shortly]. sys_call. intros r w1 [_ ->]. case_match; [apply fail_stderr_spec; shortly|by intros _].
Qed.
End boot.

(** ** What the server starts with *)

Record prepared (c : conf) (w : world) (r : Z * bool * logger) (w' : world) : Prop := Prepared {
  pr_user : (username c = None /\ w_uid w <> 0 /\ w_euid w <> 0 /\ (w_uid w', w_euid w', w_gid w') = (w_uid w, w_euid w, w_gid w)) \/
    (exists name id gid, username c = Some name /\ w_passwd w !! name = Some (id, gid) /\ w_euid w' = id /\ (w_euid w = 0 -> w_uid w' = id) /\ (w_gid w' = gid \/ w_gid w' = w_gid w));
  pr_nofile : u64 (maxconns c) <= rlim_cur (w_nofile w') /\ rlim_cur (w_nofile w) <= rlim_cur (w_nofile w') /\ rlim_max (w_nofile w) <= rlim_max (w_nofile w');
  pr_core : if max_corefile c then rlim_cur (w_core w') = rlim_max (w_core w') /\ (rlim_max (w_core w') = RLIM_INFINITY \/ rlim_max (w_core w') = rlim_max (w_core w)) else w_core w' = w_core w;
  pr_place : if daemonize c then w_tty w' = false /\ w_leader w' = false /\ w_umask w' = 0 /\ w_cwd w' = (if max_corefile c then w_cwd w else bytes "/")
             else (w_tty w', w_leader w', w_umask w', w_cwd w') = (w_tty w, w_leader w, w_umask w, w_cwd w);
  pr_fds : if daemonize c then nulled (w_fds w) (w_fds w') else w_fds w' = w_fds w;
  pr_pid : if pid_filename c is Some name then r.1.2 = true /\ exists k, w_files w' !! name = Some (take k (print_int r.1.1)) else r.1.2 = false
}.

Lemma sat_when {A} (b : bool) (p : io A) a (Q : A -> world -> Prop) w : (b = true -> sat answers p Q w) -> (b = false -> Q a w) -> sat answers (if b then p else mret a) Q w.
Proof. destruct b; intros Ht Hf; [by apply Ht|by apply Hf]. Qed.

Lemma prepare_spec strerror mlockall_ c l w :
  short strerror -> short (default [] (username c)) -> short (default [] (pid_filename c)) ->
  sat answers (prepare strerror mlockall_ c l) (prepared c w) w.
Proof.
  intros Hstr Hu Hp. unfold prepare.
  apply sat_bind. apply (sat_mono _ _ (fun l1 w1 => exists core, w1 = set_w_core core w /\
    if max_corefile c then rlim_cur core = rlim_max core /\ (rlim_max core = RLIM_INFINITY \/ rlim_max core = rlim_max (w_core w)) else core = w_core w)).
  { apply sat_when; intros ->; [|exists (w_core w); by destruct w]. apply checked_spec. eapply sat_mono; [by apply maximize_core_spec|].
    intros [st l'] w' Hok Hst. destruct (Hok Hst) as (_ & x & -> & Hx). exists x. split; [done|]. destruct Hx as [->| ->]; auto. }
  intros l1 w1 (core & -> & Hcore). apply sat_bind, checked_spec. eapply sat_mono; [by apply set_maxconns_spec|].
  intros [st l2] w2 Hok Hst. destruct (Hok Hst) as [_ ->]. clear Hok Hst. set (nofile := RLimit _ _).
  apply sat_bind, checked_spec. eapply sat_mono; [by apply set_user_spec|]. intros [st2 l3] w3 Hok Hst. specialize (Hok Hst). clear Hst.
  assert (exists m uid euid gid, w3 = set_w_euid euid (set_w_uid uid (set_w_gid gid (set_w_files m (set_w_nofile nofile (set_w_core core w))))) /\
    ((username c = None /\ w_uid w <> 0 /\ w_euid w <> 0 /\ (uid, euid, gid) = (w_uid w, w_euid w, w_gid w)) \/
     exists name id g, username c = Some name /\ w_passwd w !! name = Some (id, g) /\ euid = id /\ (w_euid w = 0 -> uid = id) /\ (gid = g \/ gid = w_gid w))) as (m & uid & euid & gid & -> & Huser).
  { destruct Hok as [(H1 & H2 & H3 & E)|(name & id & g & m & uid & gid & H1 & H2 & H3 & H4 & E)]; cbn in E; subst w3.
    - exists (w_files w), (w_uid w), (w_euid w), (w_gid w). split; [by destruct w|]. left. by split_and!.
    - exists m, uid, id, gid. split; [done|]. right. exists name, id, g. by split_and!. }
  clear Hok. set (w3 := set_w_euid _ _). apply sat_bind.
  apply (sat_mono _ _ (fun l4 w4 => exists fds files mask cwd leader tty h, w4 = set_w_fds fds (set_w_files files (set_w_umask mask (set_w_cwd cwd (set_w_leader leader (set_w_tty tty (set_w_handlers h w3)))))) /\
    if daemonize c then nulled (w_fds w) fds /\ tty = false /\ leader = false /\ mask = 0 /\ cwd = (if max_corefile c then w_cwd w else bytes "/")
    else (fds, mask, cwd, leader, tty) = (w_fds w, w_umask w, w_cwd w, w_leader w, w_tty w))).
  { apply sat_when; intros ->.
    - apply checked_spec. eapply sat_mono; [by apply daemonize_spec|]. intros [st4 l4] w4 Hok Hst. destruct (Hok Hst) as (fds & files & h & -> & Hn).
      exists fds, files, 0, (if max_corefile c then w_cwd w else bytes "/"), false, false, h. split; [done|]. by split_and!.
    - exists (w_fds w), m, (w_umask w), (w_cwd w), (w_leader w), (w_tty w), (w_handlers w). split; [by destruct w|done]. }
  intros l4 w4 (fds & files & mask & cwd & leader & tty & h & -> & Hd). sys_call. intros pid w5 [_ ->]. set (w5 := set_w_fds fds _).
  apply sat_bind. apply (sat_mono _ _ (fun r w6 => exists files', w6 = set_w_files files' w5 /\
    if pid_filename c is Some name then r.1 = true /\ exists k, files' !! name = Some (take k (print_int pid)) else r.1 = false)).
  { destruct (pid_filename c) as [name|]; [|apply sat_ret; by exists files]. apply sat_bind. eapply sat_mono; [by apply create_pidfile_spec|].
    intros [pf [st6 l6]] w6 Hok. apply sat_bind, checked_spec. intros Hst. destruct (Hok Hst) as (H1 & files' & k & E & Hk). apply sat_ret. exists files'. split; [done|]. split; [done|]. by exists k. }
  intros [pf l6] w6 (files' & -> & Hpid). apply sat_bind. apply (sat_mono _ _ (fun _ w7 => w7 = set_w_files files' w5)).
  { apply sat_when; intros _; [|done]. apply checked_spec. eapply sat_mono; [by apply lock_page_spec|]. intros [st7 l7] w7 Hok Hst. by destruct (Hok Hst) as [_ ->]. }
  intros l7 w7 ->. apply sat_ret. split; cbn; [exact Huser|lia|exact Hcore| | |exact Hpid]; destruct (daemonize c); try tauto; congruence.
Qed.

Lemma forget {A} (p : io A) (P : A -> world -> Prop) w (R : A -> world -> Prop) :
  sat answers p P w -> (forall a w', P a w' -> R a w') -> sat writes_whole p R w.
Proof. intros Hp HR. apply (sat_sub answers); [by intros ???? []|]. by eapply sat_mono. Qed.

Lemma prepare_whole strerror mlockall_ c l w name :
  short strerror -> short (default [] (username c)) -> pid_filename c = Some name -> short name ->
  sat writes_whole (prepare strerror mlockall_ c l) (fun r w' => w_files w' !! name = Some (print_int r.1.1)) w.
Proof.
  intros Hstr Hu Hn Hp. unfold prepare. apply sat_bind. eapply (forget _ (fun _ _ => True)).
  { apply sat_when; intros _; [|done]. apply checked_spec. eapply sat_mono; [by apply maximize_core_spec|]. done. }
  intros l1 w1 _. apply sat_bind. eapply (forget _ (fun _ _ => True)); [apply checked_spec; eapply sat_mono; [by apply set_maxconns_spec|done]|].
  intros l2 w2 _. apply sat_bind. eapply (forget _ (fun _ _ => True)); [apply checked_spec; eapply sat_mono; [by apply set_user_spec|done]|].
  intros l3 w3 _. apply sat_bind. eapply (forget _ (fun _ _ => True)).
  { apply sat_when; intros _; [|done]. apply checked_spec. eapply sat_mono; [by apply daemonize_spec|]. done. }
  intros l4 w4 _. sys_call. intros pid w5 _. apply sat_bind. rewrite Hn.
  apply (sat_mono _ _ (fun _ w6 => w_files w6 !! name = Some (print_int pid))).
  { apply sat_bind. eapply sat_mono; [by apply create_pidfile_whole|]. intros [pf [st6 l6]] w6 Hok. apply sat_bind.
    eapply (forget _ (fun _ w7 => w_files w7 !! name = Some (print_int pid))); [|intros l7 w7 Hw7; by apply sat_ret]. apply checked_spec. by intros Hst; apply Hok. }
  intros [pf l6] w6 Hw6. apply sat_bind. eapply (forget _ (fun _ w7 => w7 = w6)); [|intros l7 w7 ->; by apply sat_ret].
  apply sat_when; intros _; [|done]. apply checked_spec. eapply sat_mono; [by apply lock_page_spec|]. intros [st7 l7] w7 Hok Hst. by destruct (Hok Hst).
Qed.

(** C30: what [main] has done when it goes on to set up the server, however the
    system answered its calls (it exits when one it needs fails).  It runs as the
    user it was told, and without one only when it was not the super-user; the
    limit of open files allows the connections asked for and no limit is lowered;
    in the background it has no terminal, cannot get one, and its three standard
    descriptors are on [/dev/null]; no other descriptor was opened or closed; the
    pid file holds the beginning of the pid, as much as the system wrote, and on a
    system that writes all or nothing it holds exactly the pid. *)
Theorem main_prepared strerror mlockall_ c l w
  (Hstr : short strerror) (Hu : short (default [] (username c))) (Hp : short (default [] (pid_filename c))) :
  sat answers (prepare strerror mlockall_ c l) (prepared c w) w /\
  sat writes_whole (prepare strerror mlockall_ c l) (fun r w' => prepared c w r w' /\
    forall name, pid_filename c = Some name -> w_files w' !! name = Some (print_int r.1.1)) w.
Proof.
  pose proof (prepare_spec strerror mlockall_ c l w Hstr Hu Hp) as Hs. split; [done|].
  apply sat_and; [by apply (forget _ _ _ _ Hs)|]. destruct (pid_filename c) as [name|] eqn:Hn.
  - eapply sat_mono; [by apply (prepare_whole strerror mlockall_ c l w name)|]. by intros r w' Hw n [= <-].
  - by apply (forget _ _ _ _ Hs).
Qed.

(** The super-user is given up.  If the user of the options is not the
    super-user, the process that goes on is not either, and when it was started by
    the super-user it cannot become it again. *)
Lemma super_user_given_up strerror mlockall_ c l w
  (Hstr : short strerror) (Hu : short (default [] (username c))) (Hp : short (default [] (pid_filename c)))
  (Hpw : forall name id gid, username c = Some name -> w_passwd w !! name = Some (id, gid) -> id <> 0) :
  sat answers (prepare strerror mlockall_ c l) (fun _ w' => w_euid w' <> 0 /\ (w_euid w = 0 -> w_uid w' <> 0)) w.
Proof.
  eapply sat_mono; [by apply prepare_spec|]. intros r w' [Huser _ _ _ _ _].
  destruct Huser as [(_ & H1 & H2 & E)|(name & id & gid & H1 & H2 & H3 & H4 & _)].
  - injection E as -> -> _. by split.
  - assert (id <> 0) by by apply (Hpw name id gid). split; [by rewrite H3|]. intros H0. by rewrite H4.
Qed.

(** A system that grants everything. *)
Definition granting (c : call) (w : world) : option (answer c * world) :=
  match c return option (answer c * world) with
  | Open path mode => fd ← free_fd w; Some (fd, open_file path mode fd w)
  | Close fd => Some (0, set_w_fds (delete fd (w_fds w)) w)
  | Write fd bs => _ ← w_fds w !! fd; Some (Z.of_nat (length bs), written fd (take (Z.to_nat (Z.of_nat (length bs))) bs) w)
  | Dup2 old new => f ← w_fds w !! old; if 0 <=? new then Some (new, set_w_fds (<[new := f]> (w_fds w)) w) else None
  | Umask m => Some (w_umask w, set_w_umask (Z.land m 511) w)
  | Chdir path => Some (0, set_w_cwd path w)
  | Fork => Some (0, set_w_leader false w)
  | Setsid => Some (77, set_w_tty false (set_w_leader true w))
  | Getpid => Some (77, w)
  | Getrlimit res => Some ((0, get_rlimit res w), w)
  | Setrlimit res lim => if rlim_cur lim <=? rlim_max lim then Some (0, set_rlimit res lim w) else None
  | Getuid => Some (w_uid w, w)
  | Geteuid => Some (w_euid w, w)
  | Getpwnam name => Some (w_passwd w !! name, w)
  | Setgid g => Some (0, set_w_gid g w)
  | Setuid u => Some (0, set_w_euid u (if w_euid w =? 0 then set_w_uid u w else w))
  | Sigaction n h _ => Some (0, set_w_handlers (<[n := h]> (w_handlers w)) w)
  | _ => None
  end.

Lemma granting_answers c w r w' : granting c w = Some (r, w') -> answers c w r w'.
Proof.
  destruct c; try discriminate 1; intros E; cbn in E; try (apply bind_Some in E as (x & Hx & E)); try (case_match eqn:Hc; [|discriminate E]).
  all: injection E; clear E; intros Ew Er; subst r w'; cbn; auto 6.
  - right. split; [by apply free_fd_lowest|done].
  - right. split; [by exists x|]. split; [lia|done].
  - right. exists x. split; [done|]. split; [by apply Z.leb_le|done].
  - right. split; [lia|done].
  - split; [lia|done].
  - right. split; [done|]. split; [by apply Z.leb_le|done].
Qed.

(** The super-user starts the server as [nobody], in the background. *)
Definition root_world : world :=
  World {[0 := File None 0 false None 0; 1 := File None 0 false None 0; 2 := File None 0 false None 0]} ∅ 18 (bytes "/root") true true 0 0 0
    (RLimit 1024 1024) (RLimit 0 0) ∅ ∅ ∅ 0 {[bytes "nobody" := (65534, 65533)]}.
Definition nobody_conf : conf := set_pid_filename (Some (bytes "pid")) (set_maxconns 4096 (set_daemonize true (set_username (Some (bytes "nobody")) mc_set_default_options))).
Definition boot_logger : logger := Logger None 0 0 0.

Lemma granting_whole c w r w' : granting c w = Some (r, w') -> writes_whole c w r w'.
Proof.
  intros Hg. split; [by apply granting_answers|]. destruct c; try done. cbn in Hg. apply bind_Some in Hg as (x & _ & Hg). injection Hg as <- _. by right.
Qed.

Lemma main_prepared_witness :
  match exec granting (prepare [] true nobody_conf boot_logger) root_world with
  | Returned (77, true, _) w' => nulled (w_fds root_world) (w_fds w') /\ 4096 <= rlim_cur (w_nofile w') /\ w_tty w' = false /\
      w_files w' !! bytes "pid" = Some (bytes "77")
  | _ => False
  end.
Proof.
  assert (short []) as S1 by done.
  pose proof (proj2 (main_prepared [] true nobody_conf boot_logger root_world S1 ltac:(done) ltac:(done))) as Hs.
  apply (sat_exec writes_whole granting _ _ granting_whole) in Hs. revert Hs.
  destruct (exec granting _ _) as [[[pid pf] l] w'| |] eqn:E; vm_compute in E; try discriminate E. injection E; clear E; intros Ew El Ef Ep. intros [[_ H1 _ H2 H3 _] H4].
  subst pid pf. cbn in H1, H2, H3. split; [exact H3|]. split; [apply H1|]. split; [apply H2|]. exact (H4 (bytes "pid") eq_refl).
Defined.
