(* ===== verification/IQOk.v ===== *)
(** * Correctness of the IQ leases

    The lease of a key decides who may fill it: [iqset] stores only with the
    token of the I lease that is linked, and consumes it; a lease is released
    only by its token; a reader that meets a lease is told to back off. *)

From stdpp Require Import functions.
From S2P Require Import Prelude Util Hash Time Lease Keylist Assoc Item State Slabs Items IQ Inv SlabsOk ItemsOk StoreOk RoomOk.
Open Scope Z_scope.
Implicit Types (a b l : addr) (n : nat) (it lit : item) (s : st) (k : list Z).

(** ** Tokens *)

(** What [_item_lease_value] reads from a lease item. *)
Definition token_of it : Z :=
  match item_value it with
  | Some v => match mc_strtoull_len v with (true, Some x) => x | _ => UINT64_MAX end
  | None => UINT64_MAX
  end.

Lemma lease_value_spec s l lit (R : Z -> st -> Prop) :
  heap s !! l = Some lit -> is_Some (item_value lit) -> R (token_of lit) s -> wp (_item_lease_value (Some l)) R s.
Proof.
  intros Hl [v Hv] HR. unfold _item_lease_value. wp_go. eapply wp_lift; [exact Hv|].
  unfold token_of in HR. rewrite Hv in HR. destruct (mc_strtoull_len v) as [[] [x|]]; by wp_go.
Qed.

(** A linked lease has its value written. *)
Lemma inv_lease_value H s l lit : inv H s -> heap s !! l = Some lit -> item_is_linked lit = true ->
  item_is_lease_holder lit = true -> is_Some (item_value lit).
Proof. intros HI Hl Hk. by apply (v_data _ _ _ _ _ _ _ _ _ _ HI l lit Hl Hk). Qed.

Lemma i_lease_holder it : item_has_i_lease it = true -> item_is_lease_holder it = true.
Proof. unfold item_has_i_lease, item_is_lease_holder. by intros ->. Qed.

Lemma q_lease_holder it : item_has_q_lease it = true -> item_is_lease_holder it = true.
Proof.
  unfold item_has_q_lease, item_is_lease_holder. intros Hq. rewrite <-!orb_assoc in *. rewrite Hq. by rewrite orb_true_r.
Qed.

(** The lease of [k] is an I lease that carries the token. *)
Definition granted s k (token : Z) : Prop :=
  exists l lit, bound s (mc_get_lease_key k) l lit /\ visible s lit = true /\
    item_has_i_lease lit = true /\ token_of lit = token.

(** ** Keys of a key *)

Lemma lease_key_ne k : mc_get_lease_key k <> k.
Proof. intros Hk. apply (f_equal length) in Hk. simpl in Hk. lia. Qed.
Lemma pending_key_ne k : mc_get_pending_key k <> k.
Proof. intros Hk. apply (f_equal length) in Hk. simpl in Hk. lia. Qed.
Lemma lease_pending_ne k : mc_get_lease_key k <> mc_get_pending_key k.
Proof. done. Qed.

(** ** Steps that may also write to one unlinked item *)

Record steps_but a (T K : list Z -> Prop) s s' : Prop := StepsBut {
  sb_frame : frame s s';
  sb_serves : forall k e, serves s' k e <-> ~ K k /\ serves s k e;
  sb_bound : forall k b x, bound s' k b x -> ~ K k /\ exists y, bound s k b y;
  sb_reads : forall b, reads s s' b;
  sb_rest : forall b x, b <> a -> heap s !! b = Some x -> (item_is_linked x = true -> ~ T (i_key x)) ->
    heap s' !! b = Some x
}.

Lemma steps_but_of a T K s s' : steps T K s s' -> steps_but a T K s s'.
Proof. intros [F S B R U]. by split; auto. Qed.

Lemma steps_but_trans a (T1 T2 T3 K1 K2 K3 : list Z -> Prop) s1 s2 s3 :
  (forall k, T1 k \/ T2 k -> T3 k) -> (forall k, K3 k <-> K1 k \/ K2 k) ->
  steps_but a T1 K1 s1 s2 -> steps_but a T2 K2 s2 s3 -> steps_but a T3 K3 s1 s3.
Proof.
  intros HT HK [F1 S1 B1 R1 U1] [F2 S2 B2 R2 U2]. split; [by transitivity s2|..].
  - intros k e. rewrite S2, S1, HK. naive_solver.
  - intros k b x Hx. destruct (B2 k b x Hx) as [? [y Hy]]. destruct (B1 k b y Hy) as [? ?]. rewrite HK. naive_solver.
  - intros b. by apply (reads_trans s1 s2).
  - intros b x Hne Hb Hx. apply U2; [done|apply U1; [done|done|]|]; intros Hl Hk; apply (Hx Hl); auto.
Qed.

Lemma only_but H a it it' s s' :
  inv H s -> heap s !! a = Some it -> item_is_linked it = false -> only a it' s s' -> item_is_linked it' = false ->
  i_key it' = i_key it -> i_nbyte it' = i_nbyte it -> entry_of it' = entry_of it ->
  steps_but a nokey nokey s s'.
Proof.
  intros HI Ha Hl O Hl' E1 E2 E3. split.
  - apply O.
  - intros k e. rewrite (only_gone H s s' a it it' k e HI Ha O Hl'), Hl. unfold nokey. naive_solver.
  - intros k b x Hb. split; [by intros []|]. apply (only_bound _ _ _ _ _ _ _ O) in Hb as [(_ & _ & ? & _)|[_ ?]]; [congruence|eauto].
  - intros b. by apply (only_reads a it it' s s' b Ha O).
  - intros b x Hne Hb _. by rewrite (only_lookup a it' s s' b O Hne).
Qed.

(** Writing a field nothing depends on to an unlinked item. *)
Lemma write_field_spec H s a it f :
  inv H s -> heap s !! a = Some it -> item_is_linked it = false -> inert (cfg s) it (f it) ->
  wp (upd_item a f) (fun _ s' => inv H s' /\ only a (f it) s s') s.
Proof.
  intros HI Ha Hl Hin. wp_go. split; [|split; [auto with mc|done]].
  by apply (INV_inert None H _ _ _ _ _ _ _ _ a it).
Qed.

Lemma inert_unlinked c it it' : item_is_linked it = false -> i_offset it' = i_offset it -> i_id it' = i_id it ->
  i_refcount it' = i_refcount it -> item_is_linked it' = false -> item_is_slabbed it' = item_is_slabbed it ->
  inert c it it'.
Proof. intros Hl ? ? ? Hl' ?. split; try done; rewrite Hl; [done|]. by intros. Qed.

Lemma linkable_set_p H s s' a it x :
  linkable H s a it -> frame s s' -> heap s' !! a = Some (set_p x it) -> linkable H s' a (set_p x it).
Proof.
  intros [L1 L2 L3 L4 L5 L6 L7 L8] F Ha. pose proof (k_cfg _ _ F) as Hc. split; try done.
  - by apply (homed_frame s s' a it).
  - by rewrite Hc.
  - by rewrite Hc.
Qed.

(** ** [iqset] *)

Definition iqset_keys k k' : Prop := k' = mc_get_lease_key k \/ k' = mc_get_pending_key k.

(** The pending item of the key is dropped and remembered in the new item. *)
Lemma iqset_pending_spec H s a it :
  inv H s -> Z.of_nat (length H) + 1 <= MAX_HELD -> slab_lock s = false -> linkable H s a it ->
  wp (p ← _item_get_pending (i_key it);
      match p with
      | Some p => upd_item a (set_p 1);; _item_unlink p;; _item_remove p
      | None => mret tt
      end) (fun _ s' => inv H s' /\ exists x, linkable H s' a (set_p x it) /\
        steps_but a (iqset_keys (i_key it)) (fun k => k = mc_get_pending_key (i_key it)) s s') s.
Proof.
  intros HI HH Hlk Hla. pose proof (lk_item _ _ _ _ Hla) as Ha. pose proof (lk_new _ _ _ _ Hla) as Hnew.
  set (pk := mc_get_pending_key (i_key it)).
  apply wp_bind. eapply wp_mono; [apply (get_spec H s pk); [done|lia|done]|].
  intros o s1 G. pose proof (got_steps H s pk o s1 HI G) as S1. pose proof (st_frame _ _ _ _ S1) as F1.
  destruct (got_under H s pk o s1 HI G) as (HI1 & Hu & Hun). destruct (Hun a it Ha Hnew) as [Ha1 Hne].
  assert (steps_but a (fun k => k = pk) nokey s s1) as B1 by by apply steps_but_of.
  destruct o as [p|].
  - destruct Hu as (x & Hb). simpl in HI1. apply wp_bind.
    eapply wp_mono; [apply (write_field_spec (p :: H) s1 a it (set_p 1) HI1 Ha1 Hnew); by apply inert_unlinked|].
    intros _ s2 [HI2 O2]. assert (p <> a) as Hpa by congruence.
    assert (bound s2 pk p x) as Hb2.
    { destruct Hb as (Hp & ? & ?). split_and!; [|done|done]. by rewrite (only_lookup a _ s1 s2 p O2). }
    eapply wp_mono; [apply (discard_spec H s2 p x pk HI2); [done| |done]|].
    { by rewrite (k_slab_lock _ _ (proj1 O2)), (k_slab_lock _ _ F1). }
    intros _ s3 (HI3 & y & O3 & Hly & Y1 & Y2 & Y3). split; [done|]. exists 1.
    assert (frame s s3) as F3 by (transitivity s1; [done|]; transitivity s2; [apply O2|apply O3]). split.
    + apply (linkable_set_p H s s3); [done|done|]. rewrite (only_lookup p y s2 s3 a O3) by done.
      by apply (only_eq a _ s1).
    + assert (steps_but a nokey nokey s1 s2) as B2 by by apply (only_but (p :: H) a it (set_p 1 it) s1 s2).
      assert (steps_but a (fun k => k = pk) (fun k => k = pk) s2 s3) as B3.
      { apply steps_but_of. by apply (gone_steps (p :: H) s2 s3 pk p x y). }
      refine (steps_but_trans a _ _ _ _ _ _ s s1 s3 _ _ B1 (steps_but_trans a _ _ (fun k => k = pk) _ _ (fun k => k = pk)
        s1 s2 s3 _ _ B2 B3)); unfold iqset_keys, nokey; naive_solver.
  - apply wp_ret. split; [done|]. exists (i_p it).
    replace (set_p (i_p it) it) with it by by destruct it. split.
    + apply (linkable_frame H s s1); [done|congruence|done].
    + destruct B1 as [F S B R U]. split; try done.
      * intros k' e. rewrite S. unfold nokey. split; [|naive_solver]. intros [_ He]. split; [|done]. intros ->.
        destruct (get_serves H s pk None s1 HI G) as (_ & _ & _ & Hno). by apply (Hno e).
      * intros k' b x Hb. split; [|by apply (B k' b x)]. intros ->. by apply (Hu b x).
      * intros b x Hb Hx Hy. apply U; [done|done|]. intros Hlx Hk. apply (Hy Hlx). by right.
Qed.

(** The lookup of the lease decides whether the token is granted. *)
Lemma got_granted H s k o s' token :
  inv H s -> got_item H s (mc_get_lease_key k) o s' ->
  granted s k token <-> exists l lit, o = Some l /\ bound s (mc_get_lease_key k) l lit /\
    item_has_i_lease lit = true /\ token_of lit = token.
Proof.
  intros HI G. split.
  - intros (l & lit & Hb & Hv & Hi & Ht). destruct o as [b|].
    + destruct G as (x & Hx & _). destruct (bound_inj H s _ b l x lit HI Hx Hb) as [-> ->]. by exists l, lit.
    + destruct G as [_ [(_ & _ & Hn)|(b & x & Hx & Hvx & _)]]; [by destruct (Hn l lit)|].
      destruct (bound_inj H s _ b l x lit HI Hx Hb) as [-> ->]. congruence.
  - intros (l & lit & -> & Hb & Hi & Ht). destruct G as (x & Hx & Hv & _).
    destruct (bound_inj H s _ l l x lit HI Hx Hb) as [_ ->]. by exists l, lit.
Qed.

(** The item found by a lookup, still linked. *)
Lemma got_old_ok H s k o s' : inv H s -> got_item H s k o s' -> old_ok s' o.
Proof.
  intros HI G. destruct o as [b|]; [|done]. destruct G as (x & (Hb & Hl & _) & _ & _ & O).
  exists (set_refcount (i_refcount x + 1) x). split_and!; [by apply (only_eq b _ s)| |].
  - by apply (inv_droppable H s s' b x HI Hb), (k_cfg _ _ (proj1 O)).
  - intros Hx. change (item_is_linked x = false) in Hx. congruence.
Qed.

Definition iqset_post H s a it (token : Z) (r : bool * option addr) s' : Prop :=
  let '(store, o) := r in
  inv (option_list o ++ H) s' /\ old_ok s' o /\
  (forall l, o = Some l -> exists lit, bound s (mc_get_lease_key (i_key it)) l lit) /\
  if store then granted s (i_key it) token /\ (exists x, linkable (option_list o ++ H) s' a (set_p x it)) /\
      steps_but a (iqset_keys (i_key it)) (iqset_keys (i_key it)) s s'
  else ~ granted s (i_key it) token /\ steps (fun k => k = mc_get_lease_key (i_key it)) nokey s s'.

Lemma old_ok_events s o es : old_ok s o -> old_ok (set_events es s) o.
Proof. destruct o; done. Qed.

(** The token matches: the lease is consumed. *)
Lemma iqset_match_spec H s a it l lit :
  inv (l :: H) s -> Z.of_nat (length H) + 2 <= MAX_HELD -> slab_lock s = false -> linkable (l :: H) s a it ->
  i_nbyte it <> 0 -> bound s (mc_get_lease_key (i_key it)) l lit ->
  wp (_item_unlink l;;
      if i_nbyte it =? 0 then mret (false, Some l)
      else
        pending_it ← _item_get_pending (i_key it);
        (match pending_it with
         | Some p => upd_item a (set_p 1);; _item_unlink p;; _item_remove p
         | None => mret tt
         end);;
        record (SlabIncr (i_id it) "set_success");;
        record (ThreadIncr "released_i_lease");;
        mret (true, Some l))
    (fun r s' => r = (true, Some l) /\ inv (l :: H) s' /\ old_ok s' (Some l) /\
      (exists x, linkable (l :: H) s' a (set_p x it)) /\
      steps_but a (iqset_keys (i_key it)) (iqset_keys (i_key it)) s s') s.
Proof.
  intros HI HH Hlk Hla Hn Hb. pose proof (lk_item _ _ _ _ Hla) as Ha. pose proof (lk_new _ _ _ _ Hla) as Hnew.
  assert (l <> a) as Hla' by (intros ->; destruct Hb as (Hb & Hl & _); congruence).
  assert (Z.of_nat (length (l :: H)) <= MAX_HELD) as HH1 by (simpl; lia).
  destruct (gone_flags lit) as [Gl Gk]. destruct (gone_entry lit) as (G1 & G2 & G3).
  wp_go. eapply wp_mono; [by apply (unlink_spec (l :: H) s l lit); try apply Hb|]. intros _ s1 [HI1 O1].
  rewrite (proj2 (Z.eqb_neq _ _)) by done. apply wp_bind.
  assert (linkable (l :: H) s1 a it) as Hla1.
  { apply (linkable_frame _ s); [apply O1|by apply (only_lookup l (gone lit))|done]. }
  assert (steps_but a (fun k => k = mc_get_lease_key (i_key it)) (fun k => k = mc_get_lease_key (i_key it)) s s1) as B1.
  { apply steps_but_of. by apply (gone_steps (l :: H) s s1 _ l lit (gone lit)). }
  pose proof (iqset_pending_spec (l :: H) s1 a it HI1) as Hp. apply wp_bind_inv in Hp.
  2: { simpl. lia. }
  2: { by rewrite (k_slab_lock _ _ (proj1 O1)). }
  2: done.
  eapply wp_mono; [exact Hp|]. clear Hp. intros o s2 Hp. apply wp_bind. eapply wp_mono; [exact Hp|].
  clear Hp. intros _ s3 (HI3 & x & Hla3 & B3). wp_go.
  assert (heap s3 !! l = Some (gone lit)) as Hl3.
  { apply (sb_rest _ _ _ _ _ B3); [done|by apply (only_eq l _ s)|]. by rewrite Gl. }
  split; [done|]. split; [exact HI3|]. split; [|split].
  - exists (gone lit). split; [exact Hl3|]. split; [intros Hx; congruence|]. intros _.
    change (homed s3 l (gone lit)). apply (homed_frame s s3 l lit); [|apply gone_respool|].
    + transitivity s1; [apply O1|apply B3].
    + by apply (inv_homed (l :: H) s l lit HI (proj1 Hb)), Hb.
  - exists x. destruct Hla3. by split.
  - assert (steps_but a (iqset_keys (i_key it)) (iqset_keys (i_key it)) s s3) as [F S B R U].
    { refine (steps_but_trans a _ _ _ _ _ _ s s1 s3 _ _ B1 B3); unfold iqset_keys; naive_solver. }
    split; [|exact S|exact B|exact R|exact U]. transitivity s3; [exact F|auto with mc].
Qed.

Lemma iqset_spec H s a it c :
  inv H s -> Z.of_nat (length H) + 2 <= MAX_HELD -> slab_lock s = false -> linkable H s a it -> i_nbyte it <> 0 ->
  wp (item_store_iqset a c) (iqset_post H s a it (c_lease_token c)) s.
Proof.
  intros HI HH Hlk Hla Hn. pose proof (lk_item _ _ _ _ Hla) as Ha. pose proof (lk_new _ _ _ _ Hla) as Hnew.
  unfold item_store_iqset. wp_go. set (s0 := set_events _ s).
  assert (linkable H s0 a it) as Hla0 by (destruct Hla; by split).
  set (lk := mc_get_lease_key (i_key it)).
  eapply wp_mono; [apply (get_spec H s0 lk); [exact HI|lia|done]|]. intros o s1 G.
  pose proof (got_steps H s0 lk o s1 HI G) as S1. pose proof (got_old_ok H s0 lk o s1 HI G) as Hold.
  pose proof (got_granted H s0 (i_key it) o s1 (c_lease_token c) HI G) as Hgr.
  pose proof (got_linkable H s0 lk o s1 a it HI G (st_frame _ _ _ _ S1) Hla0) as Hla1.
  destruct (got_under H s0 lk o s1 HI G) as (HI1 & Hu & Hun).
  assert (forall es, ~ granted s (i_key it) (c_lease_token c) -> iqset_post H s a it (c_lease_token c) (false, o) (set_events es s1)) as Hno.
  { intros es Hng. split; [exact HI1|]. split; [by apply old_ok_events|]. split.
    { intros l ->. destruct G as (x & Hx & _). by exists x. }
    split; [done|].
    destruct S1 as [F S B R U]. split; [|exact S|exact B|exact R|exact U]. destruct F. by split. }
  destruct o as [l|].
  2: { wp_go. apply Hno. intros Hg. apply Hgr in Hg as (l & lit & ? & _). done. }
  destruct Hu as (lit & Hb). destruct G as (x & Hx & Hv & _ & O). set (x1 := set_refcount (i_refcount x + 1) x) in *.
  assert (lit = x1) as ->.
  { destruct Hb as (Hb & _). rewrite (only_eq l x1 s0 s1 O) in Hb. by injection Hb. }
  destruct Hb as (Hl1 & Hlk1 & Hk1). wp_go. change (item_has_i_lease x1) with (item_has_i_lease x).
  destruct (item_has_i_lease x) eqn:Ei.
  2: { wp_go. apply Hno. intros Hg. apply Hgr in Hg as (l' & y & [= <-] & Hy & Hyi & _).
       destruct (bound_inj H s0 lk l l x y HI Hx Hy) as [_ ->]. congruence. }
  wp_go. apply (lease_value_spec s1 l x1); [done|apply (inv_lease_value (l :: H) s1 l x1 HI1 Hl1 Hlk1); by apply i_lease_holder|].
  change (token_of x1) with (token_of x).
  destruct (Z.eqb_spec (c_lease_token c) (token_of x)) as [Et|Et]; cbn [negb]; wp_go.
  2: { apply Hno. intros Hg. apply Hgr in Hg as (l' & y & [= <-] & Hy & _ & Ht).
       destruct (bound_inj H s0 lk l l x y HI Hx Hy) as [_ ->]. congruence. }
  apply wp_bind_inv. eapply wp_mono; [apply (iqset_match_spec H s1 a it l x1); try done|].
  { by rewrite (k_slab_lock _ _ (st_frame _ _ _ _ S1)). }
  intros r s2 (-> & HI2 & O2 & Hla2 & B2). split; [exact HI2|]. split; [exact O2|].
  split; [intros l' [= <-]; by exists x|]. split; [|split; [exact Hla2|]].
  - exists l, x. destruct Hx as (? & ? & ?). done.
  - assert (steps_but a (fun k => k = lk) nokey s s1) as B1.
    { destruct S1 as [F S B R U]. split; [|exact S|exact B|exact R|]; [destruct F; by split|]. intros b y _. apply U. }
    refine (steps_but_trans a _ _ _ _ _ _ s s1 s2 _ _ B1 B2); unfold iqset_keys, nokey, lk; naive_solver.
Qed.

Lemma old_ok_frame s s' o :
  frame s s' -> (forall b, o = Some b -> heap s' !! b = heap s !! b) -> old_ok s o -> old_ok s' o.
Proof.
  intros F Hh. destruct o as [b|]; [|done]. intros (x & Hx & Hd & Hm). exists x. rewrite Hh by done.
  split; [done|]. split.
  - intros Hl Hr. rewrite (k_cfg _ _ F). by apply Hd.
  - intros Hl. by apply (homed_frame s s' b x x F); [|apply Hm].
Qed.

(** What a successful [iqset] does. *)
Definition iqset_done s a it s' : Prop :=
  frame s s' /\ (forall b, b <> a -> reads s s' b) /\
  exists cas x, let it' := linked_item cas (time_now (clk s)) (set_p x it) in
    heap s' !! a = Some it' /\
    forall k e, serves s' k e <->
      (k <> i_key it /\ ~ iqset_keys (i_key it) k /\ serves s k e) \/
      (k = i_key it /\ visible s it' = true /\ entry_of it' = e).

(** The end of the store: the item found and the lease are given up. *)
Lemma drop_both_spec H s o1 o2 (R : unit -> st -> Prop) :
  inv (option_list o2 ++ option_list o1 ++ H) s -> Z.of_nat (length H) + 2 <= MAX_HELD -> slab_lock s = false ->
  old_ok s o1 -> old_ok s o2 -> (forall b, o1 = Some b -> o2 = Some b -> False) ->
  (forall s', inv H s' -> frame s s' -> (forall k e, serves s' k e <-> serves s k e) -> (forall b, reads s s' b) ->
    (forall b, o1 <> Some b -> o2 <> Some b -> heap s' !! b = heap s !! b) -> R tt s') ->
  wp (match o1 with Some b => _item_remove2 b true | None => mret tt end)
    (fun _ s1 => wp (opt_remove o2) R s1) s.
Proof.
  intros HI HH Hlk Ho1 Ho2 Hne HR.
  assert (inv (option_list o1 ++ option_list o2 ++ H) s) as HI'.
  { rewrite app_assoc, (Permutation_app_comm (option_list o1)), <-app_assoc. exact HI. }
  eapply wp_mono; [apply (drop_old_spec (option_list o2 ++ H) s o1); [done| |done|done]|].
  { rewrite length_app. destruct o2; simpl; lia. }
  intros _ s1 (HI1 & F1 & S1 & R1 & U1 & _).
  assert (old_ok s1 o2) as Ho2'.
  { apply (old_ok_frame s s1); [done| |done]. intros b Hb. apply U1. intros Hx. by apply (Hne b). }
  change (opt_remove o2) with (match o2 with Some b => _item_remove2 b true | None => mret tt end).
  eapply wp_mono; [apply (drop_old_spec H s1 o2); [done|lia|by rewrite (k_slab_lock _ _ F1)|done]|].
  intros [] s2 (HI2 & F2 & S2 & R2 & U2 & _). apply HR; [done|by transitivity s1| | |].
  - intros k e. by rewrite S2.
  - intros b. by apply (reads_trans s s1).
  - intros b H1 H2. by rewrite U2, U1.
Qed.

Lemma granted_steps T K s s' k token :
  steps T K s s' -> ~ T (mc_get_lease_key k) -> granted s' k token <-> granted s k token.
Proof.
  intros [F S B R U] HT. split.
  - intros (l & lit & Hb & Hv & Hi & Ht). destruct (B _ l lit Hb) as (_ & y & Hy). exists l, lit.
    rewrite (visible_frame s s') in Hv by done. split_and!; try done.
    assert (heap s' !! l = Some y) as Hy' by (apply U; [apply Hy|]; destruct Hy as (_ & _ & ->); done).
    destruct Hb as (Hb & _). assert (lit = y) as -> by congruence. done.
  - intros (l & lit & Hb & Hv & Hi & Ht). exists l, lit. rewrite (visible_frame s s') by done. split_and!; try done.
    destruct Hb as (Hb & Hl & Hk). split_and!; [|done|done]. apply U; [done|]. by rewrite Hk.
Qed.

Lemma bound_rest T K s s' k b x : steps T K s s' -> ~ T k -> bound s k b x -> bound s' k b x.
Proof.
  intros [_ _ _ _ U] HT (Hb & Hl & Hk). split_and!; [|done|done]. apply U; [done|]. by rewrite Hk.
Qed.

Lemma under_but a T K s s' k o x : steps_but a T K s s' -> ~ T k -> heap s !! a = Some x -> item_is_linked x = false ->
  under s k o -> under s' k o.
Proof.
  intros [_ _ B _ U] HT Ha Hx Hu. destruct o as [b|].
  - destruct Hu as (y & Hb & Hl & Hk). exists y. split_and!; [|done|done].
    apply U; [intros ->; congruence|done|by rewrite Hk].
  - intros b y Hb. destruct (B k b y Hb) as (_ & z & Hz). by apply (Hu b z).
Qed.

(** The lease and the item found under the key are not the item given. *)
Lemma distinct H s k a it o1 o2 : inv H s -> heap s !! a = Some it -> item_is_linked it = false ->
  under s k o1 -> (forall l, o2 = Some l -> exists lit, bound s (mc_get_lease_key k) l lit) ->
  forall l, o2 = Some l -> l <> a /\ o1 <> Some l.
Proof.
  intros HI Ha Hl Hu H2 l Hl2. destruct (H2 l Hl2) as (lit & Hb & Hlb & Hkb). split.
  - intros ->. congruence.
  - intros ->. destruct Hu as (x & Hx & _ & Hkx). apply (lease_key_ne k). congruence.
Qed.

(** The body of the store, after the lookup of the key. *)
Lemma iqset_store_spec H s a it c o s1 :
  inv H s -> Z.of_nat (length H) + 3 <= MAX_HELD -> slab_lock s = false -> linkable H s a it -> i_nbyte it <> 0 ->
  got_item H s (i_key it) o s1 ->
  wp (item_store_iqset a c) (fun r s2 =>
    wp (if (r.1 : bool) then
          (match o with Some oa => _item_replace oa a | None => _item_link a end);; mret STORED
        else mret NOT_STORED) (fun result s3 =>
    wp (match o with Some oa => _item_remove2 oa true | None => mret tt end) (fun _ s4 =>
    wp (opt_remove r.2) (fun _ s' => inv H s' /\
      ((result = STORED /\ granted s (i_key it) (c_lease_token c) /\ iqset_done s a it s') \/
       (result = NOT_STORED /\ ~ granted s (i_key it) (c_lease_token c) /\ not_stored s a it s'))) s4) s3) s2) s1.
Proof.
  intros HI HH Hlk Hla Hn G. set (k := i_key it) in *. set (lk := mc_get_lease_key k).
  pose proof (got_steps H s k o s1 HI G) as S1. pose proof (st_frame _ _ _ _ S1) as F1.
  pose proof (got_old_ok H s k o s1 HI G) as Ho1.
  pose proof (got_linkable H s k o s1 a it HI G F1 Hla) as Hla1.
  destruct (got_under H s k o s1 HI G) as (HI1 & Hu1 & _).
  assert (Z.of_nat (length (option_list o ++ H)) + 2 <= MAX_HELD) as HH1 by (rewrite length_app; destruct o; simpl; lia).
  assert (slab_lock s1 = false) as Hlk1 by by rewrite (k_slab_lock _ _ F1).
  pose proof (lk_item _ _ _ _ Hla1) as Ha1. pose proof (lk_new _ _ _ _ Hla1) as Hnew.
  assert (granted s1 k (c_lease_token c) <-> granted s k (c_lease_token c)) as Hgr.
  { apply (granted_steps _ _ _ _ _ _ S1). apply lease_key_ne. }
  eapply wp_mono; [by apply (iqset_spec (option_list o ++ H) s1 a it c)|].
  intros [store lo] s2 (HI2 & Ho2 & Hlo & D). cbn [fst snd].
  pose proof (distinct _ s1 k a it o lo HI1 Ha1 Hnew Hu1 Hlo) as Hdist.
  destruct store; wp_go.
  - destruct D as (Hg & (x & Hla2) & B2).
    assert (under s2 k o) as Hu2.
    { apply (under_but _ _ _ _ _ _ _ it B2); try done.
      intros [Hk|Hk]; [by apply (lease_key_ne k)|by apply (pending_key_ne k)]. }
    eapply wp_mono; [apply (put_item_spec (option_list lo ++ option_list o ++ H) s2 a (set_p x it) o); try done|].
    { rewrite length_app. destruct lo; simpl; lia. }
    { by rewrite (k_slab_lock _ _ (sb_frame _ _ _ _ _ B2)). }
    intros _ s3 (HI3 & S3 & Ho3 & U3). wp_go. pose proof (proj1 S3) as F3.
    apply (drop_both_spec H s3 o lo); [done|lia| |done| |by intros b -> Hb; destruct (Hdist b Hb)|].
    { rewrite (k_slab_lock _ _ F3). by rewrite (k_slab_lock _ _ (sb_frame _ _ _ _ _ B2)). }
    { apply (old_ok_frame s2); [done| |done]. intros l Hl. destruct (Hdist l Hl). by apply U3. }
    intros s4 HI4 F4 Hs4 Hr4 U4. split; [done|]. left. split; [done|]. split; [by apply Hgr|].
    destruct S3 as (_ & [R3 _] & cas & Ha3 & Hsv3).
    assert (clk s2 = clk s) as Hck2 by (rewrite (k_clk _ _ (sb_frame _ _ _ _ _ B2)); apply (k_clk _ _ F1)).
    assert (frame s s4) as F by (transitivity s1; [done|]; transitivity s2; [apply B2|]; by transitivity s3).
    split; [done|]. split.
    + intros b Hb. apply (reads_trans s s1); [apply S1|]. apply (reads_trans s1 s2); [apply B2|].
      apply (reads_trans s2 s3); auto.
    + exists cas, x. rewrite Hck2 in *. split.
      * rewrite U4; [done| |]; [|intros Hl; by destruct (Hdist a Hl)]. intros ->.
        destruct Hu1 as (y & Hy & Hly & _). congruence.
      * intros k' e. rewrite Hs4, Hsv3. rewrite (sb_serves _ _ _ _ _ B2), (st_serves _ _ _ _ S1).
        rewrite (visible_frame s s2); [|transitivity s1; [done|apply B2]]. unfold nokey. simpl i_key. naive_solver.
  - destruct D as (Hg & S2). pose proof (st_frame _ _ _ _ S2) as F2.
    apply (drop_both_spec H s2 o lo); [done|lia|by rewrite (k_slab_lock _ _ F2)| |done|by intros b -> Hb; destruct (Hdist b Hb)|].
    { apply (old_ok_frame s1); [done| |done]. intros b ->. destruct Hu1 as (y & Hy). rewrite (proj1 Hy).
      apply (bound_rest _ _ _ _ _ _ _ S2) in Hy; [apply Hy|]. intros Hk. by apply (lease_key_ne k). }
    intros s3 HI3 F3 Hs3 Hr3 U3. split; [done|]. right. split; [done|]. split; [by rewrite <-Hgr|].
    split; [transitivity s1; [done|]; by transitivity s2|]. split.
    + rewrite U3; [| |intros Hl; by destruct (Hdist a Hl)].
      * apply (st_rest _ _ _ _ S2); [done|]. congruence.
      * intros ->. destruct Hu1 as (y & Hy & Hly & _). congruence.
    + intros k' e. rewrite Hs3, (st_serves _ _ _ _ S2), (st_serves _ _ _ _ S1). unfold nokey. naive_solver.
Qed.

Lemma store_iqset_spec H s a it c :
  inv H s -> Z.of_nat (length H) + 3 <= MAX_HELD -> slab_lock s = false -> linkable H s a it -> i_nbyte it <> 0 ->
  wp (_item_store a REQ_IQSET c true) (fun r s' => inv H s' /\
    ((r = STORED /\ granted s (i_key it) (c_lease_token c) /\ iqset_done s a it s') \/
     (r = NOT_STORED /\ ~ granted s (i_key it) (c_lease_token c) /\ not_stored s a it s'))) s.
Proof.
  intros HI HH Hlk Hla Hn. pose proof (lk_item _ _ _ _ Hla) as Ha. pose proof (lk_new _ _ _ _ Hla) as Hnew.
  unfold _item_store. wp_go. rewrite (proj2 (Z.eqb_neq _ _)) by done. cbn [andb]. apply wp_bind.
  eapply wp_mono; [apply (get_spec H s (i_key it)); [done|lia|done]|]. intros o s1 G.
  pose proof (iqset_store_spec H s a it c o s1 HI HH Hlk Hla Hn G) as Hw.
  destruct (got_under H s _ o s1 HI G) as (_ & Hu & Hun). destruct (Hun a it Ha Hnew) as [Ha1 _].
  assert (forall Q, wp (item_store_iqset a c) (fun r s2 => Q (Decision_ NOT_STORED r.1 a None r.2) s2) s1 ->
    wp (match o with None => item_store_absent a REQ_IQSET c | Some oa => item_store_present a oa REQ_IQSET c end) Q s1) as Hd.
  { intros Q HQ. destruct o as [oa|]; unfold item_store_present, item_store_absent; [destruct Hu as (x & Hx & _)|];
      wp_go; (eapply wp_mono; [exact HQ|]); intros [store lo] s2 HQ2; by wp_go. }
  apply wp_bind, Hd. eapply wp_mono; [exact Hw|]. clear Hd Hw. intros [store lo] s2 Hw. cbn [fst snd] in *.
  apply wp_bind. rewrite bool_decide_true by done. cbn [andb d_store d_it d_result d_nit d_lease].
  eapply wp_mono; [exact Hw|]. clear Hw. intros r s3 Hw. apply wp_bind. eapply wp_mono; [exact Hw|].
  clear Hw. intros u s4 Hw. wp_go. apply wp_ret. wp_go. exact Hw.
Qed.

(** C1: an [iqset] stores its item exactly when the lease linked under the lease
    key of its key is an I lease carrying the token of the connection.  Then the
    key serves the new item, the lease is consumed (a second [iqset] with the
    token fails) and a pending item of the key is dropped; otherwise it answers
    NOT_STORED and no key changes. *)
Theorem iqset_needs_token H s a it c
  (HI : inv H s) (HH : Z.of_nat (length H) + 3 <= MAX_HELD) (Hs : slab_lock s = false) (Hc : cache_lock s = false)
  (Hla : linkable H s a it) (Hn : i_nbyte it <> 0) :
  wp (item_store a REQ_IQSET c) (fun r s' => inv H s' /\
    ((r = STORED /\ granted s (i_key it) (c_lease_token c) /\ iqset_done s a it s' /\
      forall token, ~ granted s' (i_key it) token) \/
     (r = NOT_STORED /\ ~ granted s (i_key it) (c_lease_token c) /\ not_stored s a it s'))) s.
Proof.
  apply wp_cache_locked; [done|].
  assert (linkable H (set_cache_lock true s) a it) as Hla' by (destruct Hla; by split).
  eapply wp_mono; [by apply (store_iqset_spec H (set_cache_lock true s) a it c)|].
  intros r s' (HI' & [(Hr & Hg & F & D)|(Hr & Hg & F & D)]).
  - split; [by rewrite (k_cache_lock _ _ F)|]. split; [exact HI'|]. left.
    split; [exact Hr|]. split; [exact Hg|]. split; [split; [by apply frame_locked|exact D]|].
    intros token (l & lit & Hb & Hv & _). destruct D as (_ & cas & x & _ & Hsv).
    assert (serves s' (mc_get_lease_key (i_key it)) (entry_of lit)) as Hx by by exists l, lit.
    apply Hsv in Hx as [(_ & Hx & _)|(Hx & _)]; [apply Hx; by left|by apply (lease_key_ne (i_key it))].
  - split; [by rewrite (k_cache_lock _ _ F)|]. split; [exact HI'|]. right.
    split; [exact Hr|]. split; [exact Hg|]. split; [by apply frame_locked|exact D].
Qed.

Lemma iqset_needs_token_witness :
  wp (item_store ex_a REQ_IQSET (Conn REQ_IQSET 5 [])) (fun r s' => r = NOT_STORED /\ inv [ex_a] s') ex_filled.
Proof.
  destruct ex_filled_inv as (HI & _ & Hl).
  assert (Z.of_nat (length [ex_a]) + 3 <= MAX_HELD) as HH by by vm_compute.
  assert (cache_lock ex_filled = false) as Hc by (vm_compute; reflexivity).
  assert (i_nbyte ex_it <> 0) as Hn by (vm_compute; discriminate).
  refine (wp_mono _ _ _ _ (iqset_needs_token [ex_a] ex_filled ex_a ex_it (Conn REQ_IQSET 5 []) HI HH Hl Hc ex_linkable Hn) _).
  intros r s' (HI' & [(_ & (l & lit & (Hb & Hx & _) & _) & _)|(-> & _)]); [|exact (conj eq_refl HI')].
  rewrite (ex_unlinked l lit Hb) in Hx. discriminate Hx.
Defined.

(** ** Creating a lease *)

(** Some class has room for an item of this size. *)
Definition fits (c : settings) (nkey nbyte : Z) : Prop :=
  exists id, id_ok c id /\ item_ntotal nkey nbyte (use_cas c) <= psize c id.

(** The smallest class with room for [sz] bytes. *)
Definition class_for (c : settings) (sz id : Z) : Prop :=
  id_ok c id /\ sz <= psize c id /\ forall j, 1 <= j < id -> psize c j < sz.

Lemma slabid_class H s nkey nbyte :
  inv H s -> 0 <= nkey < 256 -> 0 <= nbyte < 2 ^ 32 -> fits (cfg s) nkey nbyte ->
  wp (item_slabid nkey nbyte) (fun id s' => s' = s /\
    class_for (cfg s) (item_ntotal nkey nbyte (use_cas (cfg s))) id) s.
Proof.
  intros HI Hk Hb (j & Hj & Hf). unfold item_slabid, slab_id. wp_go.
  rewrite u8_small, u32_small by lia.
  destruct (slab_id_spec (cfg s) (classes s) (inv_cfg H s HI) (v_cls _ _ _ _ _ _ _ _ _ _ HI) false
    (item_ntotal nkey nbyte (use_cas (cfg s)))) as (id & Hid & Hc).
  eapply wp_lift; [exact Hid|]. split; [done|]. destruct Hc as [Hc|[_ Hx]]; [done|].
  specialize (Hx j Hj). lia.
Qed.

Lemma slabid_spec H s nkey nbyte :
  inv H s -> 0 <= nkey < 256 -> 0 <= nbyte < 2 ^ 32 -> fits (cfg s) nkey nbyte ->
  wp (item_slabid nkey nbyte) (fun id s' => s' = s /\ id_ok (cfg s) id /\
    item_ntotal nkey nbyte (use_cas (cfg s)) <= psize (cfg s) id) s.
Proof.
  intros HI Hk Hb Hf. eapply wp_mono; [by apply (slabid_class H s)|]. by intros id s' (-> & Hid & Hfit & _).
Qed.

(** A lease item just created: pinned, with its token, in the pool of leases. *)
Record new_lease s l key (exptime token : Z) it : Prop := NewLease {
  nl_item : heap s !! l = Some it;
  nl_key : i_key it = key;
  nl_ref : i_refcount it = 2;
  nl_flags : i_flags it = if use_cas (cfg s) then ITEM_CAS else 0;
  nl_coflags : i_coflags it = 0;
  nl_exptime : i_exptime it = exptime;
  nl_value : item_value it = Some (print_u64 token);
  nl_nbyte : i_nbyte it <> 0;
  nl_layout : layout (cfg s) it;
  nl_home : l.1 ∈ slab_table (info s true)
}.

Lemma blank_layout c a id key df ex nb conf t :
  0 <= nb -> item_ntotal (Z.of_nat (length key)) nb (use_cas c) <= psize c id ->
  layout c (blank c a id key df ex nb conf t).
Proof.
  intros Hb Hf. destruct (blank_flags c a id key df ex nb conf t) as (_ & _ & _ & Hcas & _).
  unfold layout. rewrite Hcas. unfold blank. cbn [i_nkey i_key i_nbyte i_payload i_id].
  rewrite length_replicate. unfold item_ntotal, payload_size, CRLF_LEN in *. destruct (use_cas c); lia.
Qed.

Lemma write_value_spec H s a it bs :
  inv H s -> heap s !! a = Some it -> item_is_linked it = false -> item_is_raligned it = false -> layout (cfg s) it ->
  i_nbyte it = Z.of_nat (length bs) ->
  wp (write_data a 0 (init bs)) (fun _ s' => exists p, inv H s' /\ only a (set_payload p it) s s' /\
    item_value (set_payload p it) = Some bs /\ layout (cfg s) (set_payload p it)) s.
Proof.
  intros HI Ha Hl Hr (L1 & L2 & L3 & L4) Hb. unfold CRLF_LEN in L4.
  assert (exists p, mem_write (i_payload it) (data_pos it + 0) (init bs) = Some p) as [p Hp].
  { unfold data_pos. rewrite Hr. unfold mem_write. rewrite decide_True; [eauto|]. rewrite length_init. lia. }
  assert (item_write it 0 (init bs) = Some (set_payload p it)) as Hw by (unfold item_write; by rewrite Hp).
  eapply wp_mono; [by apply (write_spec H s a it (set_payload p it) 0 (init bs)); rewrite ?Hl|].
  intros _ s' [HI' O]. exists p. split_and!; [done|done| |].
  - by apply (item_write_value it).
  - apply mem_write_length in Hp. unfold layout. cbn [i_nkey i_key i_nbyte i_payload i_id set_payload].
    rewrite Hp. done.
Qed.

Lemma keeps_only s s1 s2 a x :
  keeps s s1 -> only a x s1 s2 -> (forall y, heap s !! a = Some y -> i_refcount y = 0) ->
  item_is_linked x = false -> keeps s s2.
Proof.
  intros [F K1 K2] [F2 Hh] Hz Hx. split; [by transitivity s1|..].
  - intros b y Hb Hy. rewrite Hh, lookup_insert_ne; [by apply K1|]. intros ->. specialize (Hz y Hb). lia.
  - intros b y Hb Hy. rewrite Hh in Hb. apply upd_lookup in Hb as [[<- ->]|[_ Hb]]; [congruence|by apply K2].
Qed.

Lemma create_token_spec H s key token :
  inv H s -> Z.of_nat (length H) + 1 <= MAX_HELD -> alloc_ok s true -> Z.of_nat (length key) < 256 ->
  fits (cfg s) (Z.of_nat (length key)) (Z.of_nat (length (print_u64 token))) ->
  wp (create_token_item key token) (fun o s' => keeps s s' /\
    match o with
    | None => inv H s'
    | Some l => inv (l :: H) s' /\ l ∉ H /\ (forall y, heap s !! l = Some y -> i_refcount y = 0) /\
        exists it, new_lease s' l key (time_reltime (clk s) (lease_exptime (cfg s))) token it
    end) s.
Proof.
  intros HI HH Hal Hk Hf. unfold create_token_item, lease_reltime. set (buf := print_u64 token) in *.
  assert (0 < Z.of_nat (length buf) <= 20) as Hbuf.
  { pose proof (print_u64_length token). destruct (print_u64_cons token) as (x & r & Hx). unfold buf in *. rewrite Hx in *. simpl in *. lia. }
  wp_go. eapply wp_mono; [apply (slabid_spec H s); [done|lia|lia|done]|]. intros id s0 (-> & Hid & Hfit). wp_go.
  set (e := time_reltime _ _). unfold _item_alloc.
  eapply wp_mono; [apply (alloc_spec H s true id key 0 e (Z.of_nat (length buf)) (-1)); try done; try lia|].
  { unfold item_ntotal, payload_size, CRLF_LEN in *. destruct (use_cas (cfg s)); lia. }
  intros [l|] s1 [K1 Ho]; [|by apply wp_ret]. destruct Ho as (HI1 & Hni & Hin & Hold & t & Hit).
  destruct (blank_flags (cfg s) l id key 0 e (Z.of_nat (length buf)) (-1) t) as (B1 & B2 & B3 & B4 & B5 & _).
  pose proof (blank_layout (cfg s) l id key 0 e (Z.of_nat (length buf)) (-1) t ltac:(lia) Hfit) as Hlay.
  set (it0 := blank _ _ _ _ _ _ _ _ _) in *. rewrite <-(k_cfg _ _ K1) in Hlay. apply wp_bind.
  eapply wp_mono; [by apply (write_value_spec (l :: H) s1 l it0 buf HI1 Hit B1 B3 Hlay)|].
  intros _ s2 (p & HI2 & O2 & Hval & Hlay2). set (it1 := set_payload p it0) in *. apply wp_bind.
  pose proof (only_eq l it1 s1 s2 O2) as Hit2.
  eapply wp_mono; [apply (pin_spec (l :: H) s2 HI2 ltac:(simpl; lia) l it1 Hit2)|].
  { rewrite held_cons_eq. assert (held l H = 0) as ->; [|done].
    pose proof (held_nonneg l H). destruct (decide (0 < held l H)) as [Hx|]; [|lia]. by apply held_elem in Hx. }
  { apply (inv_taken (l :: H) s2 HI2 l it1 Hit2). right. done. }
  intros _ s3 (HI3 & x & Hx & ->). wp_go. set (it2 := set_refcount (i_refcount it1 + 1) it1).
  assert (only l it2 s2 (add_refs 1 l it1 x s2)) as O3 by (split; [by apply frame_same|done]).
  pose proof (keeps_only _ _ _ _ _ K1 O2 Hold B1) as K2. pose proof (keeps_only _ _ _ _ _ K2 O3 Hold B1) as K3.
  split; [exact K3|]. split; [done|]. split; [done|]. split; [done|]. exists it2. split; try done.
  - apply lookup_insert_eq.
  - change (i_flags it0 = if use_cas (cfg s2) then ITEM_CAS else 0). by rewrite (k_cfg _ _ K2).
  - change (Z.of_nat (length buf) <> 0). lia.
  - change (layout (cfg s2) it2). rewrite (k_cfg _ _ (proj1 O2)). exact Hlay2.
  - apply (k_grows _ _ (proj1 O3)), (k_grows _ _ (proj1 O2)). exact Hin.
Qed.

(** There is no lease with this token when the pool of leases is out of chunks. *)
Definition no_lease_room s (key : list Z) (token : Z) : Prop :=
  exists id, class_for (cfg s) (item_ntotal (Z.of_nat (length key)) (Z.of_nat (length (print_u64 token))) (use_cas (cfg s))) id /\
    exhausted s true id.

Lemma create_token_none H s (key : list Z) token :
  inv H s -> alloc_ok s true -> Z.of_nat (length key) < 256 ->
  fits (cfg s) (Z.of_nat (length key)) (Z.of_nat (length (print_u64 token))) ->
  wlp (create_token_item key token) (fun o s' => o = None -> cfg s' = cfg s -> no_lease_room s' key token) s.
Proof.
  intros HI Hal Hk Hf. unfold create_token_item, lease_reltime, no_lease_room. wlp_go. set (buf := print_u64 token) in *.
  pose proof (print_u64_length token) as Hl. fold buf in Hl.
  pose proof (slabid_class H s (Z.of_nat (length key)) (Z.of_nat (length buf)) HI ltac:(lia) ltac:(lia) Hf) as Hw.
  apply wlp_wp. eapply wp_mono; [exact Hw|]. intros id s1 [-> Hcl]. wlp_go. unfold _item_alloc.
  eapply wlp_mono; [apply (alloc_none s true); apply Hal|]. cbv beta. intros [a|] s2 Ho; wlp_go.
  - by eapply wlp_mono; [apply wlp_true|]; intros; wlp_go; eapply wlp_mono; [apply wlp_true|]; intros; wlp_go.
  - intros _ Hc. rewrite Hc. exists id. split; [done|]. by apply Ho.
Qed.

(** ** Linking a lease *)

Definition lease_flag (F : Z) : Prop :=
  F = ITEM_I_LEASE \/ F = ITEM_Q_INV_LEASE \/ F = ITEM_Q_REF_LEASE \/ F = ITEM_Q_INC_LEASE.

Definition with_flag (F : Z) it : item := set_flags (set_bit (i_flags it) F) it.

Lemma with_flag_kind F it (b : bool) : lease_flag F -> i_flags it = (if b then ITEM_CAS else 0) -> i_coflags it = 0 ->
  item_is_linked (with_flag F it) = false /\ item_is_slabbed (with_flag F it) = false /\
  item_is_lease_holder (with_flag F it) = true /\ item_has_cas (with_flag F it) = item_has_cas it /\
  item_is_raligned (with_flag F it) = false /\ item_is_linked it = false /\ item_is_slabbed it = false /\
  item_is_raligned it = false.
Proof.
  intros HF Hf Hc. unfold with_flag. flags_unfold. rewrite Hf.
  destruct HF as [-> | [-> | [-> | ->]]]; destruct b; by vm_compute.
Qed.

Lemma flag_lease_spec H s l key e token it F :
  inv (l :: H) s -> l ∉ H -> new_lease s l key e token it -> lease_flag F -> slab_has_reserved_slabs (cfg s) = true ->
  wp (upd_item l (with_flag F)) (fun _ s' => inv (l :: H) s' /\ only l (with_flag F it) s s' /\
    linkable (l :: H) s' l (with_flag F it) /\ item_value (with_flag F it) = Some (print_u64 token)) s.
Proof.
  intros HI Hni [N1 N2 N3 N4 N5 N6 N7 N8 N9 N10] HF Hres.
  destruct (with_flag_kind F it (use_cas (cfg s)) HF N4 N5) as (W1 & W2 & W3 & W4 & W5 & W6 & W7 & W8).
  eapply wp_mono; [apply (write_field_spec (l :: H) s l it (with_flag F) HI N1 W6); apply inert_unlinked; try done; by rewrite W2, W7|].
  intros _ s' [HI' O]. pose proof (k_cfg _ _ (proj1 O)) as Hc.
  assert (respool (cfg s) (with_flag F it) = true) as Hrp by (unfold respool; by rewrite Hres, W3).
  assert (item_value (with_flag F it) = Some (print_u64 token)) as Hval.
  { rewrite <-N7. unfold item_value, data_pos. rewrite W5, W8. done. }
  split; [done|]. split; [done|]. split; [|done]. split.
  - by apply (only_eq l _ s).
  - change (0 < i_refcount it). lia.
  - done.
  - intros _. change (i_refcount it = held l (l :: H) + 1). rewrite held_cons_eq, N3.
    assert (held l H = 0) as ->; [|done]. pose proof (held_nonneg l H).
    destruct (decide (0 < held l H)) as [Hx|]; [|lia]. by apply held_elem in Hx.
  - unfold homed. rewrite Hc, Hrp. by apply (k_grows _ _ (proj1 O)).
  - right. by rewrite Hc, Hrp, W3.
  - rewrite Hc. destruct N9 as (L1 & L2 & L3 & L4). unfold layout. rewrite W4. done.
  - intros _. rewrite Hval. eauto.
Qed.

Lemma found_ex H s k : inv H s -> exists old, found_under s k old.
Proof.
  intros HI. destruct (wp_elim _ _ _ (find_spec H s k HI)) as (o & s' & _ & _ & Ho). destruct o as [a|].
  - destruct Ho as (it & Hb). destruct (visible s it) eqn:Ev; [by exists (Some it), a|]. exists None.
    intros b x Hx. by destruct (bound_inj H s k a b it x HI Hb Hx) as [_ ->].
  - exists None. intros b x Hx. by destruct (Ho b x).
Qed.

Lemma store_set_spec H s a it c :
  inv H s -> Z.of_nat (length H) + 1 <= MAX_HELD -> slab_lock s = false -> linkable H s a it -> i_nbyte it <> 0 ->
  wp (_item_store a REQ_SET c true) (fun r s' => r = STORED /\ inv H s' /\ stored s a it s') s.
Proof.
  intros HI HH Hlk Hla Hn. destruct (found_ex H s (i_key it) HI) as [old Hf].
  eapply wp_mono; [apply (store_spec H s a it REQ_SET c old); try done; by left|]. intros r s' (-> & HI' & Hd). done.
Qed.

(** ** Looking without keeping *)

(** Releasing what a lookup found undoes the lookup. *)
Lemma got_drop_spec H s k o s1 :
  inv H s -> Z.of_nat (length H) + 1 <= MAX_HELD -> slab_lock s = false -> got_item H s k o s1 ->
  wp (opt_remove o) (fun _ s' => inv H s' /\ steps (fun k' => k' = k) nokey s s') s1.
Proof.
  intros HI HH Hlk G.
  pose proof (got_steps H s k o s1 HI G) as S1. pose proof (st_frame _ _ _ _ S1) as F1.
  pose proof (got_old_ok H s k o s1 HI G) as Ho. destruct (got_under H s k o s1 HI G) as (HI1 & Hu & _).
  change (opt_remove o) with (match o with Some b => _item_remove2 b true | None => mret tt end).
  eapply wp_mono; [apply (drop_old_spec H s1 o); [done|lia|by rewrite (k_slab_lock _ _ F1)|done]|].
  intros _ s2 (HI2 & F2 & Hs2 & Hr2 & U2 & B2 & _). split; [done|]. destruct S1 as [_ S B Rd U]. split.
  - by transitivity s1.
  - intros k' e. by rewrite Hs2, S.
  - intros k' b x Hb. destruct (B2 k' b x Hb) as [y Hy]. by apply (B k' b y).
  - intros b. by apply (reads_trans s s1).
  - intros b x Hb Hx. rewrite U2; [by apply U|]. intros ->. destruct Hu as (y & Hy & Hly & Hky).
    assert (heap s1 !! b = Some x) as Hx1 by by apply U. assert (x = y) as -> by congruence. by apply (Hx Hly).
Qed.

Lemma get_drop_spec H s k (R : option addr -> st -> Prop) :
  inv H s -> Z.of_nat (length H) + 1 <= MAX_HELD -> slab_lock s = false ->
  (forall o s', inv H s' -> steps (fun k' => k' = k) nokey s s' -> slab_lock s' = false -> R o s') ->
  wp (_item_get k) (fun o s1 => wp (opt_remove o) (fun _ => R o) s1) s.
Proof.
  intros HI HH Hlk HR. eapply wp_mono; [apply (get_spec H s k); [done|lia|done]|]. intros o s1 G.
  eapply wp_mono; [by apply (got_drop_spec H s k o s1)|]. intros _ s2 [HI2 S]. apply HR; [done|done|].
  by rewrite (k_slab_lock _ _ (st_frame _ _ _ _ S)).
Qed.

Lemma pending_of_spec H s k (R : Z -> st -> Prop) :
  inv H s -> Z.of_nat (length H) + 1 <= MAX_HELD -> slab_lock s = false ->
  (forall p s', inv H s' -> steps (fun k' => k' = mc_get_pending_key k) nokey s s' -> slab_lock s' = false -> R p s') ->
  wp (pending_of k) R s.
Proof.
  intros HI HH Hlk HR. unfold pending_of. apply wp_bind.
  eapply wp_mono; [apply (get_drop_spec H s (mc_get_pending_key k) (fun o s' =>
    R (match o with Some _ => 1 | None => 0 end) s')); [done|done|done|intros o s'; apply HR]|].
  intros [p|] s1 Hw; [|exact Hw]. apply wp_bind. exact Hw.
Qed.

(** ** A reader takes a lease *)

(** The lease will be visible when it is linked. *)
Definition lease_lasts s : Prop :=
  let e := time_reltime (clk s) (lease_exptime (cfg s)) in
  (e = 0 \/ time_now (clk s) < e) /\ (oldest_live (cfg s) = 0 \/ oldest_live (cfg s) <> time_now (clk s)).

(** What a lease costs: nothing but entries that are evicted. *)
Definition leased s k (token : Z) l s' : Prop :=
  cfg s' = cfg s /\ clk s' = clk s /\ cache_lock s' = cache_lock s /\ slab_lock s' = slab_lock s /\
  lease_token s' = u64 (lease_token s + 1) /\
  granted s' k token /\ (exists lit, bound s' (mc_get_lease_key k) l lit) /\
  forall k' e, k' <> mc_get_lease_key k -> serves s' k' e -> serves s k' e.

Lemma visible_cfg s s' it : cfg s' = cfg s -> clk s' = clk s -> visible s' it = visible s it.
Proof. intros Hc Hk. unfold visible, expired, flushed. by rewrite Hc, Hk. Qed.

(** The pending field of an item is nobody's concern. *)
Lemma mark_inv H s l lit p :
  inv H s -> heap s !! l = Some lit ->
  inv H (set_heap (<[l := set_p p lit]> (heap s)) s) /\ only l (set_p p lit) s (set_heap (<[l := set_p p lit]> (heap s)) s).
Proof.
  intros HI Hl. split; [|split; [auto with mc|done]].
  apply (INV_inert None H _ _ _ _ _ _ _ _ l lit); [done|done|]. split; try done.
  intros Hk. by apply (v_data _ _ _ _ _ _ _ _ _ _ HI l lit) in Hk as [? ?].
Qed.

Lemma token_of_print it token : 0 <= token <= UINT64_MAX - 6 -> item_value it = Some (print_u64 token) ->
  token_of it = token.
Proof. intros Ht Hv. unfold token_of. by rewrite Hv, mc_strtoull_len_print. Qed.

(** A lease linked now lasts. *)
Lemma lease_visible s cas it :
  lease_lasts s -> i_exptime it = time_reltime (clk s) (lease_exptime (cfg s)) ->
  visible s (linked_item cas (time_now (clk s)) it) = true.
Proof.
  intros [He Ho] Hx. pose proof (linked_item_fields cas (time_now (clk s)) it) as (_ & _ & _ & _ & _ & _ & _ & _ & _ & E & _).
  unfold visible, expired, flushed. rewrite E, Hx. apply andb_true_iff; split; apply negb_true_iff, not_true_iff_false.
  - intros [H1 H2]%andb_true_iff. apply negb_true_iff, Z.eqb_neq in H1. apply Z.leb_le in H2. destruct He; lia.
  - intros [[H1 H2]%andb_true_iff H3]%andb_true_iff. apply negb_true_iff, Z.eqb_neq in H1. apply Z.leb_le in H2, H3.
    change (time_now (clk s) <= oldest_live (cfg s)) in H3. destruct Ho; lia.
Qed.

Lemma i_flag_set it : with_flag ITEM_I_LEASE it = item_set_i_lease it.
Proof. done. Qed.

Lemma linked_i_lease cas t it : item_has_i_lease (linked_item cas t (item_set_i_lease it)) = true.
Proof.
  destruct (linked_item_fields cas t (item_set_i_lease it)) as (_ & _ & _ & _ & _ & _ & _ & _ & Hf & _).
  unfold item_has_i_lease. rewrite Hf. unfold item_set_i_lease. cbn [i_flags set_flags].
  rewrite (has_set_bit _ 0 4) by lia. cbn [Z.eqb orb]. by rewrite (has_set_bit _ 4 4) by lia.
Qed.

Lemma iqget_lease_spec H s c k pending :
  inv H s -> Z.of_nat (length H) + 2 <= MAX_HELD -> alloc_ok s true -> Z.of_nat (length k) + 3 < 256 ->
  fits (cfg s) (Z.of_nat (length k) + 3) 20 -> lease_lasts s -> 0 <= lease_token s <= UINT64_MAX - 6 ->
  wp (iqget_lease c k pending None) (fun r s' =>
    match ig_item r with
    | Some l => ig_lease r = Some l /\ ig_status r = IQ_LEASE /\ ig_token r = Some (lease_token s) /\
        inv (l :: H) s' /\ leased s k (lease_token s) l s'
    | None => ig_lease r = None /\ ig_status r = IQ_SERVER_ERROR /\ inv H s' /\ cache_lock s' = cache_lock s /\
        slab_lock s' = slab_lock s /\ (forall k' e, serves s' k' e -> serves s k' e) /\
        no_lease_room s' (mc_get_lease_key k) (lease_token s)
    end) s.
Proof.
  intros HI HH Hal Hk Hf Hl Ht. unfold iqget_lease, _item_create_lease, lease_next_token_. wp_go. cbn [fst snd lease_next_token].
  set (s0 := set_lease_token (u64 (lease_token s + 1)) s). set (lk := mc_get_lease_key k).
  assert (Z.of_nat (length lk) = Z.of_nat (length k) + 3) as Hlen by (unfold lk; simpl; lia).
  pose proof (print_u64_length (lease_token s)) as Hpl.
  assert (fits (cfg s0) (Z.of_nat (length lk)) (Z.of_nat (length (print_u64 (lease_token s))))) as Hf0.
  { rewrite Hlen. destruct Hf as (id & Hid & Hf). exists id. split; [done|]. change (cfg s0) with (cfg s).
    unfold item_ntotal in *. destruct (use_cas (cfg s)); lia. }
  assert (alloc_ok s0 true) as Hal0 by by destruct Hal; split.
  eapply wp_mono; [apply wp_wlp; [apply (create_token_spec H s0 lk (lease_token s)); [exact HI|lia|done|lia|done]|
    apply (create_token_none H s0 lk (lease_token s)); [exact HI|done|lia|done]]|].
  cbv beta. intros [l|] s1 [[K1 Ho] Hnone]; wp_go.
  2: { split; [done|]. split; [done|]. split; [done|]. split; [apply (k_cache_lock _ _ K1)|].
       split; [apply (k_slab_lock _ _ K1)|]. split; [|by apply Hnone; [|apply (k_cfg _ _ K1)]].
       intros k' e He. by apply (keeps_serves s0 s1) in He. }
  destruct Ho as (HI1 & Hni & Hold & it & N). pose proof (k_cfg _ _ K1) as Hc1.
  assert (slab_has_reserved_slabs (cfg s1) = true) as Hres by (rewrite Hc1; by apply Hal).
  eapply wp_mono; [by apply (flag_lease_spec H s1 l lk _ (lease_token s) it ITEM_I_LEASE HI1 Hni N); [left|]|].
  intros _ s2 (HI2 & O2 & Hla2 & Hval). wp_go. set (it1 := with_flag ITEM_I_LEASE it) in *.
  destruct (with_flag_kind ITEM_I_LEASE it (use_cas (cfg s1)) ltac:(by left) (nl_flags _ _ _ _ _ _ N) (nl_coflags _ _ _ _ _ _ N))
    as (W1 & _ & W3 & _).
  pose proof (keeps_only _ _ _ _ _ K1 O2 Hold W1) as K2.
  assert (slab_lock s2 = false) as Hlk2 by (rewrite (k_slab_lock _ _ K2); apply Hal).
  eapply wp_mono; [apply (store_set_spec (l :: H) s2 l it1 c HI2); [simpl; lia|done|done|apply N]|].
  intros r s3 (-> & HI3 & S3). destruct S3 as (F3 & _ & cas & Ha3 & Hsv3). wp_go.
  set (lit := linked_item cas (time_now (clk s2)) it1) in *. set (s3' := set_events _ s3).
  destruct (mark_inv (l :: H) s3' l lit pending HI3 Ha3) as [HI4 O4].
  match goal with |- context [leased _ _ _ _ ?x] => set (s4 := x) end.
  split; [done|]. split; [done|]. split; [done|]. split; [exact HI4|].
  assert (same_entry s3' lit (set_p pending lit)) as Hse by done.
  pose proof (fun k' e => only_same s3' _ l lit (set_p pending lit) k' e Ha3 O4 Hse) as Hsv4.
  assert (frame s0 s4) as F4.
  { transitivity s2; [apply K2|]. transitivity s3; [done|]. destruct (proj1 O4). by split. }
  assert (clk s2 = clk s) as Hck by apply (k_clk _ _ K2).
  destruct (linked_item_flags cas (time_now (clk s2)) it1) as (L1 & _ & _ & _ & _ & _ & _ & Lv).
  destruct (linked_item_fields cas (time_now (clk s2)) it1) as (_ & _ & _ & Lk & _).
  assert (bound s4 lk l (set_p pending lit)) as Hb.
  { split; [by apply (only_eq l _ s3')|]. split; [exact L1|]. unfold lit. etransitivity; [exact Lk|]. apply (nl_key _ _ _ _ _ _ N). }
  split; [apply (k_cfg _ _ F4)|]. split; [apply (k_clk _ _ F4)|]. split; [apply (k_cache_lock _ _ F4)|].
  split; [apply (k_slab_lock _ _ F4)|]. split; [apply (k_lease _ _ F4)|]. split; [|split].
  - exists l, (set_p pending lit). split; [exact Hb|]. split; [|split].
    + rewrite (visible_cfg s s4); [|apply (k_cfg _ _ F4)|apply (k_clk _ _ F4)].
      change (visible s lit = true). unfold lit. rewrite Hck. apply lease_visible; [done|]. apply (nl_exptime _ _ _ _ _ _ N).
    + apply linked_i_lease.
    + apply token_of_print; [done|]. change (item_value lit = Some (print_u64 (lease_token s))). unfold lit. by rewrite Lv.
  - by exists (set_p pending lit).
  - intros k' e Hne He. apply Hsv4, Hsv3 in He as [[_ He]|[Hk' _]].
    + by apply (keeps_serves s0 s2) in He.
    + exfalso. apply Hne. rewrite Hk'. apply (nl_key _ _ _ _ _ _ N).
Qed.

(** ** A reader misses *)

(** Taking and giving back a reference to an item in use changes nothing. *)
Lemma hand_out_spec H s l lit (R : unit -> st -> Prop) :
  inv (l :: H) s -> Z.of_nat (length H) + 2 <= MAX_HELD -> slab_lock s = false -> heap s !! l = Some lit ->
  item_is_linked lit = true ->
  (forall s', inv (l :: H) s' -> frame s s' -> heap s' = heap s -> R tt s') ->
  wp (item_acquire_refcount l) (fun _ s1 => wp (opt_remove (Some l)) R s1) s.
Proof.
  intros HI HH Hlk Hl Hk HR. assert (Z.of_nat (length (l :: H)) <= MAX_HELD) as HH1 by (simpl; lia).
  eapply wp_mono; [apply (acquire_spec (l :: H) s HI HH1 l lit Hl)|].
  { apply (inv_taken (l :: H) s HI l lit Hl). by left. }
  intros _ s1 (HI1 & x & Hx & ->). set (s1 := add_refs 1 l lit x s) in *. set (lit1 := set_refcount (i_refcount lit + 1) lit).
  assert (frame s s1) as F1 by by apply frame_same.
  change (opt_remove (Some l)) with (_item_remove l).
  eapply wp_mono; [apply (remove_spec (l :: l :: H) (l :: H) s1 l lit1); try done|].
  - simpl. lia.
  - apply lookup_insert_eq.
  - by apply (inv_droppable (l :: H) s s1 l lit HI Hl).
  - intros Hx1. change (item_is_linked lit = false) in Hx1. congruence.
  - intros [] s2 [HI2 O2]. apply HR; [done|transitivity s1; [done|apply O2]|].
    destruct O2 as [_ ->]. unfold dropped. change (item_is_linked (set_refcount _ lit1)) with (item_is_linked lit).
    rewrite Hk, andb_false_r. change (heap s1) with (<[l := lit1]> (heap s)). rewrite insert_insert_eq.
    replace (set_refcount _ lit1) with lit; [by apply insert_id|]. unfold lit1. destruct lit; unfold set_refcount; simpl. f_equal. lia.
Qed.

Lemma leased_heap s k token l s1 s2 : leased s k token l s1 -> frame s1 s2 -> heap s2 = heap s1 -> leased s k token l s2.
Proof.
  intros (L1 & L2 & L3 & L4 & L5 & L6 & L7 & L8) F Hh. destruct F as [F1 F2 F3 F4 F5 F6 F7].
  assert (forall it, visible s2 it = visible s1 it) as Hv by (intros; by apply visible_cfg).
  split_and!; try congruence.
  - destruct L6 as (a & lit & Hb & Hvv & ?). exists a, lit. rewrite Hv. unfold bound in *. by rewrite Hh.
  - unfold bound in *. by rewrite Hh.
  - intros k' e Hk (a & it & Hb & Hvv & He). apply L8; [done|]. exists a, it. rewrite Hv in Hvv. unfold bound in *. by rewrite Hh in Hb.
Qed.

(** Items under the lease key of a key are leases. *)
Definition lease_space s k : Prop :=
  forall l lit, bound s (mc_get_lease_key k) l lit -> item_is_lease_holder lit = true.

(** The answer to a reader that meets the lease [lit]. *)
Definition back_off lit (lease_token : Z) : item_iq_result * option Z :=
  if token_of lit =? lease_token then (IQ_NO_VALUE, None) else (IQ_MISS, Some (lease_type_val LEASE_HOTMISS)).

Lemma iqget_leased_spec H s l lit k lease_token pending :
  inv H s -> bound s k l lit -> item_is_lease_holder lit = true ->
  wp (iqget_leased l lease_token pending) (fun r s' =>
    ig_item r = Some l /\ ig_lease r = Some l /\ (ig_status r, ig_token r) = back_off lit lease_token /\
    inv H s' /\ frame s s' /\ heap s' !! l = Some (set_p pending lit) /\ forall k' e, serves s' k' e <-> serves s k' e) s.
Proof.
  intros HI (Hl & Hk & _) Hh. unfold iqget_leased, back_off. wp_go.
  destruct (mark_inv H s l lit pending HI Hl) as [HI1 O1]. set (s1 := set_heap _ s) in *.
  assert (heap s1 !! l = Some (set_p pending lit)) as Hl1 by apply lookup_insert_eq.
  assert (same_entry s lit (set_p pending lit)) as Hse by done.
  pose proof (fun k' e => only_same s s1 l lit (set_p pending lit) k' e Hl O1 Hse) as Hsv.
  apply (lease_value_spec s1 l (set_p pending lit) _ Hl1); [by apply (inv_lease_value H s1 l (set_p pending lit))|].
  change (token_of (set_p pending lit)) with (token_of lit).
  destruct (token_of lit =? lease_token); wp_go; (split_and!; [done|done|done|exact HI1| |exact Hl1|exact Hsv]); [apply O1|].
  transitivity s1; [apply O1|auto with mc].
Qed.

(** What a reader that misses gets. *)
Definition missed H s k (lease_token' : Z) (r : iqget) s' : Prop :=
  match ig_item r with
  | Some l => inv (l :: H) s' /\
      ((exists lit, bound s (mc_get_lease_key k) l lit /\ visible s lit = true /\
          (ig_status r, ig_token r) = back_off lit lease_token' /\ frame s s' /\
          forall k' e, serves s' k' e <-> serves s k' e) \/
       ((forall e, ~ serves s (mc_get_lease_key k) e) /\ ig_status r = IQ_LEASE /\
          ig_token r = Some (lease_token s) /\ leased s k (lease_token s) l s'))
  | None => ig_status r = IQ_SERVER_ERROR /\ inv H s' /\ (forall e, ~ serves s (mc_get_lease_key k) e) /\
      (forall k' e, serves s' k' e -> serves s k' e) /\ no_lease_room s' (mc_get_lease_key k) (lease_token s)
  end.

(** A reader may take a lease on [k]. *)
Record leasable s k : Prop := Leasable {
  ls_alloc : alloc_ok s true;
  ls_key : Z.of_nat (length k) + 3 < 256;
  ls_fits : fits (cfg s) (Z.of_nat (length k) + 3) 20;
  ls_lasts : lease_lasts s;
  ls_token : 0 <= lease_token s <= UINT64_MAX - 6
}.

Lemma leasable_frame H H' s s' k : inv H s -> inv H' s' -> frame s s' -> leasable s k -> leasable s' k.
Proof.
  intros HI HI' F [L1 L2 L3 L4 L5]. unfold lease_lasts in L4. rewrite <-(k_cfg _ _ F), <-?(k_clk _ _ F) in *.
  split; try done; [by apply (alloc_ok_frame H H' s)|by rewrite (k_lease _ _ F)].
Qed.

Lemma missed_tail H s s0 k lt r s1 :
  Z.of_nat (length H) + 2 <= MAX_HELD -> slab_lock s1 = false -> frame s s0 -> (forall k' e, serves s0 k' e <-> serves s k' e) ->
  (forall l lit, bound s0 (mc_get_lease_key k) l lit -> bound s (mc_get_lease_key k) l lit) ->
  (ig_item r = None -> ig_lease r = None) -> (forall l, ig_item r = Some l -> ig_lease r = Some l /\
     exists lit, heap s1 !! l = Some lit /\ item_is_linked lit = true) ->
  missed H s0 k lt r s1 ->
  wp (match ig_item r with Some a => item_acquire_refcount a | None => mret tt end) (fun _ s2 =>
    wp (opt_remove (ig_lease r)) (fun _ s' => missed H s k lt r s' /\ cache_lock s' = cache_lock s1) s2) s1.
Proof.
  intros HH Hlk F0 S0 B0 Hn Hs. unfold missed. destruct (ig_item r) as [l|].
  - intros [HI HM]. destruct (Hs l eq_refl) as (-> & lit & Hl & Hk).
    apply (hand_out_spec H s1 l lit); [done|done|done|done|done|]. intros s2 HI2 F2 Hh.
    split; [|apply (k_cache_lock _ _ F2)]. split; [done|].
    destruct HM as [(lit' & Hb & Hv & E & F1 & Hsv)|(Hno & E1 & E2 & HL)].
    + left. exists lit'. split; [auto|]. rewrite (visible_frame s s0) in Hv by done. split; [done|]. split; [done|].
      split; [transitivity s0; [done|]; by transitivity s1|]. intros k' e. by rewrite (serves_heap s1 s2 F2 Hh), Hsv.
    + right. apply (leased_heap _ _ _ _ s1 s2) in HL; [|done|done]. rewrite <-(k_lease _ _ F0).
      split; [intros e; rewrite <-S0; auto|]. split; [done|]. split; [done|].
      destruct HL as (L1 & L2 & L3 & L4 & L5 & L6 & L7 & L8). destruct F0. split_and!; try congruence.
      intros k' e Hk' He. apply S0. by apply L8.
  - intros (E & HI & Hno & Hsv & Hroom). rewrite Hn by done. simpl. wp_go. rewrite <-(k_lease _ _ F0). split; [|done].
    split; [done|]. split; [done|]. split; [|split; [|done]].
    + intros e. rewrite <-S0. auto.
    + intros k' e He. apply S0. auto.
Qed.

Lemma iqget_other_spec H s c k lt pending override foreground :
  inv H s -> Z.of_nat (length H) + 2 <= MAX_HELD -> leasable s k -> lease_space s k ->
  wp (iqget_other c k lt None pending override foreground) (fun r s' => missed H s k lt r s' /\
    slab_lock s' = false /\ cache_lock s' = cache_lock s /\
    (ig_item r = None -> ig_lease r = None) /\
    (forall l, ig_item r = Some l -> ig_lease r = Some l /\ exists lit, heap s' !! l = Some lit /\ item_is_linked lit = true)) s.
Proof.
  intros HI HH HL Hsp. unfold iqget_other. wp_go. set (s0 := set_events _ s). set (lk := mc_get_lease_key k).
  pose proof (al_lock _ _ (ls_alloc _ _ HL)) as Hlk.
  eapply wp_mono; [apply (get_spec H s0 lk); [exact HI|lia|exact Hlk]|]. intros o s1 G.
  destruct (get_serves H s0 lk o s1 HI G) as (F1 & S1 & _ & Ho).
  assert (frame s s1) as F by (transitivity s0; [auto with mc|done]). destruct o as [l|].
  - destruct G as (x & Hx & Hv & HI1 & O). set (x1 := set_refcount (i_refcount x + 1) x) in *.
    eapply wp_mono; [apply (iqget_leased_spec (l :: H) s1 l x1 lk lt pending HI1)|].
    { destruct Hx as (_ & ? & ?). split; [by apply (only_eq l _ s0)|done]. }
    { by apply (Hsp l x). }
    intros r s2 (E1 & E2 & E3 & HI2 & F2 & Hl2 & S2). rewrite E1, E2.
    rewrite (k_slab_lock _ _ F2), (k_slab_lock _ _ F), (k_cache_lock _ _ F2), (k_cache_lock _ _ F).
    split; [|split; [done|]; split; [done|]; split; [done|]].
    + unfold missed. rewrite E1. split; [done|]. left. exists x. split; [exact Hx|]. split; [exact Hv|]. split; [exact E3|].
      split; [by transitivity s1|]. intros k' e. by rewrite S2, S1.
    + intros l' [= <-]. split; [done|]. exists (set_p pending x1). split; [done|]. apply Hx.
  - destruct G as [HI1 _]. destruct (leasable_frame H H s s1 k HI HI1 F HL) as [L1 L2 L3 L4 L5].
    eapply wp_mono; [apply (iqget_lease_spec H s1 c k pending HI1 HH L1 L2 L3 L4 L5)|]. cbv beta. intros r s2 Hr.
    destruct (ig_item r) as [l|] eqn:Er; unfold missed; rewrite Er.
    + destruct Hr as (E1 & E2 & E3 & HI2 & HLd). rewrite E1.
      destruct HLd as (M1 & M2 & M3 & M4 & M5 & M6 & M7 & M8). rewrite M3, M4, (k_slab_lock _ _ F), (k_cache_lock _ _ F).
      split; [|split; [done|]; split; [done|]; split; [done|]].
      * split; [done|]. right. rewrite (k_lease _ _ F) in *. split; [exact Ho|]. split; [done|]. split; [done|].
        destruct F. split_and!; try congruence.
        intros k' e Hk He. apply (S1 k' e). by apply M8.
      * intros l' [= <-]. split; [done|]. destruct M7 as (lit & Hl & Hk & _). by exists lit.
    + destruct Hr as (E1 & E2 & HI2 & C2 & K2 & Hs2 & Hroom). rewrite C2, K2, (k_slab_lock _ _ F), (k_cache_lock _ _ F).
      rewrite (k_lease _ _ F) in Hroom. split; [|done]. split; [done|]. split; [done|]. split; [exact Ho|]. split; [|done].
      intros k' e He. apply (S1 k' e). by apply Hs2.
Qed.

(** Steps that leave a key alone keep its binding. *)
Lemma steps_bound T K s s' k b x : steps T K s s' -> ~ T k -> bound s' k b x -> bound s k b x.
Proof.
  intros S HT Hb. destruct (st_bound _ _ _ _ S k b x Hb) as (_ & y & Hy).
  pose proof (bound_rest _ _ _ _ _ _ _ S HT Hy) as Hy'. destruct Hb as (Hb & _), Hy' as (Hy' & _).
  assert (x = y) as -> by congruence. done.
Qed.

Lemma missed_locked H s es k lt r s' :
  cache_lock s = false -> missed H (set_events es (set_cache_lock true s)) k lt r s' ->
  missed H s k lt r (set_cache_lock false s').
Proof.
  intros Hc. unfold missed. destruct (ig_item r) as [l|]; [|done]. intros [HI HM]. split; [done|].
  destruct HM as [(lit & Hb & Hv & E & F & Hsv)|(Hno & E1 & E2 & (L1 & L2 & L3 & L4 & L5 & L6 & L7 & L8))]; [left|right; done].
  exists lit. split; [exact Hb|]. split; [exact Hv|]. split; [done|]. split; [|exact Hsv].
  apply (frame_locked s s' Hc). transitivity (set_events es (set_cache_lock true s)); [auto with mc|done].
Qed.

(** C2: a reader that misses a key without an id of a transaction takes the I
    lease of the key if nobody has it: it gets a fresh token, which is from then
    on the token granted for the key, and other keys lose no entry except by
    eviction.  When the key is leased the holder of the token is told that there
    is no value and every other reader to back off (HOTMISS), and no entry
    changes.  The answer is a server error only when the key is not leased and
    the pool of leases is out of memory: the class of the lease has no chunk left
    in its free queue or its current slab, and no slab can be added because the
    pool is full or because the system has just refused one. *)
Theorem iqget_miss_leases H s c k lease_token override foreground
  (HI : inv H s) (HH : Z.of_nat (length H) + 2 <= MAX_HELD) (Hc : cache_lock s = false)
  (HL : leasable s k) (Hsp : lease_space s k) (Hmiss : forall e, ~ serves s k e) :
  wp (item_iqget c k lease_token [] override foreground) (fun r s' =>
    missed H s k lease_token r s' /\ cache_lock s' = false) s.
Proof.
  unfold item_iqget. change (0 <? Z.of_nat (length [])) with false. cbv iota. pose proof (al_lock _ _ (ls_alloc _ _ HL)) as Hlk.
  apply wp_bind, wp_lock_cache; [done|].
  assert (exists es, forall (R : unit -> st -> Prop), R tt (set_events es (set_cache_lock true s)) ->
    wp (when foreground (record (ThreadIncr "iqget"))) R (set_cache_lock true s)) as [es Hrec].
  { destruct foreground; eexists; intros R HR; simpl; wp_go; [exact HR|]. by destruct s. }
  apply wp_bind, Hrec. clear Hrec. set (s1 := set_events es (set_cache_lock true s)). wp_go.
  eapply wp_mono; [apply (get_spec H s1 k); [exact HI|lia|exact Hlk]|]. intros o s2 G.
  pose proof (got_steps H s1 k o s2 HI G) as S2. destruct (get_serves H s1 k o s2 HI G) as (F2 & _ & _ & Ho).
  destruct o as [a|]; [by destruct Ho as [e He]; apply Hmiss in He|]. destruct G as [HI2 _]. wp_go.
  pose proof (k_slab_lock _ _ F2) as Hlk2.
  apply (pending_of_spec H s2 k); [exact HI2|lia|by rewrite Hlk2|]. intros p s3 HI3 S3 Hlk3. wp_go.
  pose proof (st_frame _ _ _ _ S3) as F3.
  assert (steps (fun k' => k' = k \/ k' = mc_get_pending_key k) nokey s1 s3) as S.
  { refine (steps_trans _ _ _ _ _ _ s1 s2 s3 _ _ S2 S3); unfold nokey; naive_solver. }
  pose proof (st_frame _ _ _ _ S) as F.
  assert (~ (mc_get_lease_key k = k \/ mc_get_lease_key k = mc_get_pending_key k)) as HT.
  { intros [E|E]; [by apply (lease_key_ne k)|by apply (lease_pending_ne k)]. }
  assert (forall l lit, bound s3 (mc_get_lease_key k) l lit -> bound s1 (mc_get_lease_key k) l lit) as B3.
  { intros l lit. by apply (steps_bound _ _ _ _ _ _ _ S HT). }
  assert (leasable s1 k) as HL1.
  { destruct HL as [[A1 A2 A3] ? ? ? ?]. by split; [split| | | |]. }
  eapply wp_mono; [apply (iqget_other_spec H s3 c k lease_token p override foreground HI3 HH)|].
  { by apply (leasable_frame H H s1). }
  { intros l lit Hb. by apply (Hsp l lit), B3. }
  intros r s4 (HM & Hlk4 & Hc4 & Hn & Hs). wp_go.
  eapply wp_mono; [apply (missed_tail H s1 s3 k lease_token r s4); try done|].
  { intros k' e. rewrite (st_serves _ _ _ _ S). unfold nokey. naive_solver. }
  intros u s5 Hd. do 2 (apply wp_bind, wp_ret). apply wp_bind. eapply wp_mono; [exact Hd|]. intros u2 s6 [HM6 Hc6]. apply wp_bind.
  apply wp_unlock_cache; [by rewrite Hc6, Hc4, (k_cache_lock _ _ F)|]. wp_go.
  split; [by apply (missed_locked H s es)|done].
Qed.

Lemma ex_leasable : leasable ex_init ex_key.
Proof.
  split.
  - split; [done|right; right; by vm_compute|by vm_compute].
  - by vm_compute.
  - exists 2. by vm_compute.
  - split; [right|left]; by vm_compute.
  - by vm_compute.
Qed.

Lemma ex_empty k l lit : ~ bound ex_init k l lit.
Proof. intros (Hl & _). assert (heap ex_init = ∅) as Hh by (vm_compute; reflexivity). rewrite Hh in Hl. done. Qed.

Lemma ex_iqget_status :
  (fun x => ig_status x.1) <$> item_iqget ex_conn ex_key 0 [] false true ex_init = Some IQ_LEASE.
Proof. vm_compute. reflexivity. Qed.

Lemma missed_granted k token r s' : missed [] ex_init k token r s' -> ig_status r = IQ_LEASE ->
  ig_token r = Some (lease_token ex_init) /\ granted s' k (lease_token ex_init).
Proof.
  unfold missed. destruct (ig_item r) as [l|]; [|intros [E _]; congruence].
  intros [_ [(lit & Hb & _)|(_ & _ & Ht & HL)]] _; [by apply ex_empty in Hb|]. split; [done|apply HL].
Qed.

(** On an empty cache the reader gets the lease. *)
Lemma iqget_miss_leases_witness :
  exists r s', item_iqget ex_conn ex_key 0 [] false true ex_init = Some (r, s') /\ ig_status r = IQ_LEASE /\
    ig_token r = Some (lease_token ex_init) /\ granted s' ex_key (lease_token ex_init) /\ cache_lock s' = false.
Proof.
  assert (Z.of_nat (length (@nil addr)) + 2 <= MAX_HELD) as HH by by vm_compute.
  assert (cache_lock ex_init = false) as Hc by (vm_compute; reflexivity).
  assert (lease_space ex_init ex_key) as Hs by (intros l lit Hb; destruct (ex_empty _ _ _ Hb)).
  assert (forall e, ~ serves ex_init ex_key e) as Hm by (intros e (a & it & Hb & _); exact (ex_empty _ _ _ Hb)).
  destruct (wp_elim _ _ _ (iqget_miss_leases [] ex_init ex_conn ex_key 0 false true ex_init_inv HH Hc ex_leasable Hs Hm))
    as (r & s' & He & HM & Hc').
  pose proof ex_iqget_status as Hst. rewrite He in Hst. injection Hst as Hst.
  exists r, s'. split; [exact He|]. split; [exact Hst|]. destruct (missed_granted _ _ _ _ HM Hst) as [Ht Hg].
  split; [exact Ht|]. split; [exact Hg|exact Hc'].
Defined.

(** ** Releasing a lease *)

Lemma wp_field {A} (f : item -> A) a it (R : A -> st -> Prop) s :
  heap s !! a = Some it -> R (f it) s -> wp (field f a) R s.
Proof. intros Ha HR. unfold field. by wp_go. Qed.

(** The lease of [k], of whatever kind, carries the token. *)
Definition holds_token s k (token : Z) : Prop :=
  exists l lit, bound s (mc_get_lease_key k) l lit /\ visible s lit = true /\ token_of lit = token.

Lemma unlease_spec H s k token :
  inv H s -> Z.of_nat (length H) + 1 <= MAX_HELD -> slab_lock s = false -> lease_space s k ->
  wp (lease_it ← _item_get_lease k;
      match lease_it with
      | Some l =>
          v ← _item_lease_value lease_it;
          if v =? token then
            _item_unlink l;; _item_remove l;; record (ThreadIncr "unlease");;
            i ← field item_has_i_lease l;
            when i (record (ThreadIncr "released_i_lease"))
          else _item_remove l
      | None => mret tt
      end) (fun _ s' => inv H s' /\ exists K, steps (fun k' => k' = mc_get_lease_key k) K s s' /\
        ((holds_token s k token /\ K = (fun k' => k' = mc_get_lease_key k)) \/ (~ holds_token s k token /\ K = nokey))) s.
Proof.
  intros HI HH Hlk Hsp. apply wp_bind. set (lk := mc_get_lease_key k) in *.
  eapply wp_mono; [apply (get_spec H s lk); [done|lia|done]|]. intros o s1 G.
  pose proof (got_drop_spec H s lk o s1 HI HH Hlk G) as Hdrop. pose proof (discard_found_spec H s lk o s1 HI HH Hlk G) as Hdisc.
  destruct o as [l|].
  2: { apply wp_ret. destruct (get_serves H s lk None s1 HI G) as (_ & _ & _ & Hn). split; [apply G|]. exists nokey.
       split; [by apply (got_steps H s lk None)|]. right. split; [|done]. intros (l & lit & Hb & Hv & _).
       apply (Hn (entry_of lit)). by exists l, lit. }
  destruct G as (x & Hx & Hv & HI1 & O). set (x1 := set_refcount (i_refcount x + 1) x) in *.
  pose proof (only_eq l x1 s s1 O) as Hl1. destruct Hx as (Hl & Hk & Hkey). apply wp_bind.
  apply (lease_value_spec s1 l x1 _ Hl1); [by apply (inv_lease_value (l :: H) s1 l x1 HI1 Hl1 Hk), (Hsp l x)|].
  change (token_of x1) with (token_of x). destruct (Z.eqb_spec (token_of x) token) as [Et|Et].
  - apply (wp_assoc _ (fun _ => _item_remove l)), wp_bind. eapply wp_mono; [exact Hdisc|]. cbv beta. intros _ s2 [HI2 S2].
    destruct (st_reads _ _ _ _ S2 l x Hl) as (y & Hy & _).
    wp_go. apply (wp_field _ l y); [exact Hy|].
    assert (holds_token s k token) as Hh by by exists l, x.
    destruct (item_has_i_lease y); cbn [when]; wp_go; (split; [exact HI2|]); exists (fun k' => k' = lk);
      (split; [|by left]); by repeat apply steps_events.
  - eapply wp_mono; [exact Hdrop|]. cbv beta. intros _ s2 [HI2 S2]. split; [done|]. exists nokey. split; [done|]. right. split; [|done].
    intros (l' & x' & Hb' & _ & Ht). destruct (bound_inj H s lk l l' x x' HI) as [_ ->]; [done|done|]. done.
Qed.

(** The lease that the token releases is not one of the two kinds that the
    assertions of [item_get_and_unlease] exclude. *)
Definition assert_no_q s k (token : Z) : Prop :=
  forall l lit, bound s (mc_get_lease_key k) l lit -> visible s lit = true -> token_of lit = token ->
    item_has_q_inv_lease lit = false /\ item_has_q_incr_lease lit = false.

(** C14: where its assertions hold, that is when the lease of the key is no Q lease
    for an invalidation or an increment, [item_get_and_unlease] releases a lease
    only with its token.  When the lease of the key carries the token it is unlinked,
    so that the next reader can lease the key again; otherwise nothing changes.  No
    other key is touched and no reader is disturbed. *)
Theorem unlease_needs_token H s k token
  (HI : inv H s) (HH : Z.of_nat (length H) + 1 <= MAX_HELD) (Hs : slab_lock s = false) (Hc : cache_lock s = false)
  (Hsp : lease_space s k) (Hassert : assert_no_q s k token) :
  wp (item_get_and_unlease k token) (fun r s' => r = MC_OK /\ inv H s' /\ cache_lock s' = false /\
    ((holds_token s k token /\ steps (fun k' => k' = mc_get_lease_key k) (fun k' => k' = mc_get_lease_key k) s s') \/
     (~ holds_token s k token /\ steps (fun k' => k' = mc_get_lease_key k) nokey s s'))) s.
Proof.
  unfold item_get_and_unlease. apply wp_bind, wp_lock_cache; [done|]. apply wp_assoc, wp_bind.
  eapply wp_mono; [by apply (unlease_spec H (set_cache_lock true s) k token)|]. cbv beta.
  intros _ s1 (HI1 & K & S1 & HK). apply wp_bind. pose proof (k_cache_lock _ _ (st_frame _ _ _ _ S1)) as Hc1.
  apply wp_unlock_cache; [exact Hc1|]. apply wp_ret. split; [done|]. split; [exact HI1|]. split; [done|].
  apply (steps_locked _ _ _ _ Hc) in S1. destruct HK as [[Hh ->]|[Hh ->]]; [left|right]; done.
Qed.

(** A reader has missed the key and holds its I lease. *)
Definition ex_leased : st := run (iqget_lease ex_conn ex_key 0 None) ex_init.
Lemma ex_leased_ok : inv [(0%nat, 32)] ex_leased /\ leased ex_init ex_key 5 (0%nat, 32) ex_leased.
Proof.
  destruct ex_leasable as [L1 L2 L3 L4 L5].
  pose proof (iqget_lease_spec [] ex_init ex_conn ex_key 0 ex_init_inv ltac:(by vm_compute) L1 L2 L3 L4 L5) as Hw.
  assert (fst <$> iqget_lease ex_conn ex_key 0 None ex_init = Some (IqGet IQ_LEASE (Some (0%nat, 32)) (Some 5) (Some (0%nat, 32)))) as He by (vm_compute; reflexivity).
  apply run_result in He. apply (wp_result _ _ _ _ _ Hw) in He. destruct He as (_ & _ & _ & HI & HL).
  assert (lease_token ex_init = 5) as Ht by (vm_compute; reflexivity). rewrite Ht in HL. exact (conj HI HL).
Qed.

Lemma ex_leased_flags : (fun it => (item_is_lease_holder it, item_has_q_inv_lease it, item_has_q_incr_lease it)) <$>
  (heap ex_leased !! (0%nat, 32)) = Some (true, false, false).
Proof. vm_compute. reflexivity. Qed.

Lemma ex_leased_kind : lease_space ex_leased ex_key /\ assert_no_q ex_leased ex_key 5 /\ holds_token ex_leased ex_key 5.
Proof.
  destruct ex_leased_ok as (HI & _ & _ & _ & _ & _ & (l & lit & Hb & Hv & _ & Ht) & (lit' & Hb') & _).
  destruct (bound_inj _ _ _ _ _ _ _ HI Hb Hb') as [-> <-]. pose proof ex_leased_flags as Hf.
  destruct Hb as (Hl & Hb). unfold addr in *. rewrite Hl in Hf. injection Hf as F1 F2 F3.
  assert (forall b x, bound ex_leased (mc_get_lease_key ex_key) b x -> x = lit) as Hu.
  { intros b x Hx. by destruct (bound_inj _ _ _ _ _ _ _ HI Hx Hb') as [_ ->]. }
  split; [|split].
  - intros b x Hx. rewrite (Hu b x Hx). exact F1.
  - intros b x Hx _ _. rewrite (Hu b x Hx). exact (conj F2 F3).
  - exists (0%nat, 32), lit. exact (conj Hb' (conj Hv Ht)).
Qed.

(** A lease that was unlinked grants nothing. *)
Lemma unlinked_granted T K s s' k token : steps T K s s' -> K (mc_get_lease_key k) -> ~ granted s' k token.
Proof. intros S HK (l & lit & Hb & _). by apply (st_bound _ _ _ _ S) in Hb as [Hn _]. Qed.

(** The reader gives its lease back. *)
Lemma unlease_needs_token_witness :
  granted ex_leased ex_key 5 /\
  wp (item_get_and_unlease ex_key 5) (fun r s' => r = MC_OK /\ inv [(0%nat, 32)] s' /\
    forall token, ~ granted s' ex_key token) ex_leased.
Proof.
  destruct ex_leased_ok as (HI & HL). destruct HL as (_ & _ & _ & _ & _ & Hg & _). split; [exact Hg|].
  assert (Z.of_nat (length [(0%nat, 32)]) + 1 <= MAX_HELD) as HH by by vm_compute.
  assert (slab_lock ex_leased = false) as Hl by (vm_compute; reflexivity).
  assert (cache_lock ex_leased = false) as Hc by (vm_compute; reflexivity).
  destruct ex_leased_kind as (Hsp & Ha & Hh).
  refine (wp_mono _ _ _ _ (unlease_needs_token [(0%nat, 32)] ex_leased ex_key 5 HI HH Hl Hc Hsp Ha) _).
  intros r s' (Hr & HI' & _ & [[_ S]|[Hn _]]); [|destruct (Hn Hh)].
  split; [exact Hr|]. split; [exact HI'|]. intros token. exact (unlinked_granted _ _ _ _ _ token S eq_refl).
Defined.
