(* ===== verification/QuarantineOk.v ===== *)
(** * A quarantined key accepts no value of an earlier reader

    [item_quarantine_and_register], which a transaction calls for a key before it
    invalidates it: the I lease of the key is voided, so that no reader that missed
    before can store what it has read from the database. *)

From stdpp Require Import gmap list.
From S2P Require Import Prelude Util Time Lease Keylist Assoc Item State Slabs Items IQ Inv SlabsOk ItemsOk StoreOk IQOk.
Open Scope Z_scope.

(** ** Calls that may fail

    An allocation that fails is followed as a NULL pointer: a call returns with
    [Q], or does not return and [E] holds. *)

Definition wpe {S A} (E : Prop) (m : M S A) (Q : A -> S -> Prop) (s : S) : Prop :=
  match m s with Some (a, s') => Q a s' | None => E end.

Section wpe.
Context {S : Type} (E : Prop).
Lemma wpe_wp {A} (m : M S A) Q (s : S) : wp m Q s -> wpe E m Q s.
Proof. unfold wp, wpe. by destruct (m s) as [[]|]. Qed.
Lemma wpe_mono {A} (E' : Prop) (m : M S A) (P Q : A -> S -> Prop) (s : S) :
  wpe E m P s -> (E -> E') -> (forall a s', m s = Some (a, s') -> P a s' -> Q a s') -> wpe E' m Q s.
Proof. unfold wpe. destruct (m s) as [[]|]; auto. Qed.
Lemma wpe_bind {A B} (m : M S A) (f : A -> M S B) Q (s : S) : wpe E m (fun a s' => wpe E (f a) Q s') s -> wpe E (m ≫= f) Q s.
Proof. unfold wpe, mbind, M_bind. by destruct (m s) as [[]|]. Qed.
Lemma wpe_lift {A} (o : option A) Q (s : S) : (o = None -> E) -> (forall a, o = Some a -> Q a s) -> wpe E (lift o) Q s.
Proof. intros HE Ho. unfold wpe, lift. destruct o; simpl; auto. Qed.
Lemma wpe_seq {A B} (m : M S A) (f : A -> M S B) Q P (s : S) :
  wp m P s -> (forall a s', m s = Some (a, s') -> P a s' -> wpe E (f a) Q s') -> wpe E (m ≫= f) Q s.
Proof. intros Hm Hf. apply wpe_bind, (wpe_mono E m P); [by apply wpe_wp|done|done]. Qed.
Lemma wpe_ret {A B} (x : A) (f : A -> M S B) Q (s : S) : wpe E (f x) Q s -> wpe E (mret x ≫= f) Q s.
Proof. done. Qed.
End wpe.

Implicit Types (s : st) (a l : addr) (it : item) (H : list addr) (k key tid : list Z) (c : conn).

(** ** Key lists of one entry *)

Definition one_entry (entry : list Z) : list Z := Z.of_nat (length entry) :: entry.

Lemma addkey_fresh dest entry : Z.of_nat (length entry) < 256 -> length dest = S (length entry) ->
  trig_keylist_addkey false dest 0 None 0 entry (klen8 entry) = Some (TRIG_OK, init (one_entry entry), 0 + klen8 entry + 1).
Proof.
  intros Hl Hd. unfold trig_keylist_addkey, klen8. rewrite u8_small by lia.
  destruct dest as [|d dest]; [done|]. simpl in Hd. injection Hd as Hd.
  pose proof (mem_write_app [] [d] dest [Some (Z.of_nat (length entry))] eq_refl) as E1. cbn [app length] in E1. change (Z.of_nat 0) with 0 in E1. rewrite E1. cbn [mbind option_bind].
  rewrite <-(length_init entry) at 1. rewrite mem_slice_all. cbn [mbind option_bind].
  pose proof (mem_write_app [Some (Z.of_nat (length entry))] dest [] (init entry)) as E2. rewrite app_nil_r in E2. cbn [app length] in E2. change (Z.of_nat 1) with (0 + 1) in E2.
  rewrite E2 by (by rewrite length_init). cbn [mbind option_bind]. by rewrite app_nil_r.
Qed.

(** ** A new list *)

(** An item just created in the pool of leases, pinned and not yet filled. *)
Record new_item s l key (nbyte exptime : Z) it : Prop := NewItem {
  ni_item : heap s !! l = Some it;
  ni_key : i_key it = key;
  ni_ref : i_refcount it = 2;
  ni_flags : i_flags it = if use_cas (cfg s) then ITEM_CAS else 0;
  ni_coflags : i_coflags it = 0;
  ni_exptime : i_exptime it = exptime;
  ni_nbyte : i_nbyte it = nbyte;
  ni_layout : layout (cfg s) it;
  ni_home : l.1 ∈ slab_table (info s true)
}.

Lemma create_reserved_spec H s key n :
  inv H s -> Z.of_nat (length H) + 1 <= MAX_HELD -> alloc_ok s true -> Z.of_nat (length key) < 256 -> 0 <= n < 2 ^ 32 ->
  fits (cfg s) (Z.of_nat (length key)) n ->
  wp (_item_create_reserved_item key n true) (fun o s' => keeps s s' /\
    match o with
    | None => inv H s'
    | Some l => inv (l :: H) s' /\ l ∉ H /\ (forall y, heap s !! l = Some y -> i_refcount y = 0) /\
        exists it, new_item s' l key n (time_reltime (clk s) (lease_exptime (cfg s))) it
    end) s.
Proof.
  intros HI HH Hal Hk Hn Hf. unfold _item_create_reserved_item, lease_reltime.
  wp_go. eapply wp_mono; [apply (slabid_spec H s); [done|lia|lia|done]|]. intros id s0 (-> & Hid & Hfit). wp_go.
  set (e := time_reltime _ _). unfold _item_alloc.
  eapply wp_mono; [apply (alloc_spec H s true id key 0 e n (-1)); try done; try lia|].
  { unfold item_ntotal, payload_size, CRLF_LEN in *. destruct (use_cas (cfg s)); lia. }
  intros [l|] s1 [K1 Ho]; [|by apply wp_ret]. destruct Ho as (HI1 & Hni & Hin & Hold & t & Hit).
  destruct (blank_flags (cfg s) l id key 0 e n (-1) t) as (B1 & B2 & B3 & B4 & B5 & _).
  pose proof (blank_layout (cfg s) l id key 0 e n (-1) t ltac:(lia) Hfit) as Hlay.
  set (it0 := blank _ _ _ _ _ _ _ _ _) in *. rewrite <-(k_cfg _ _ K1) in Hlay. apply wp_bind.
  eapply wp_mono; [apply (pin_spec (l :: H) s1 HI1 ltac:(simpl; lia) l it0 Hit)|].
  { rewrite held_cons_eq. assert (held l H = 0) as ->; [|done].
    pose proof (held_nonneg l H). destruct (decide (0 < held l H)) as [Hx|]; [|lia]. by apply held_elem in Hx. }
  { apply (inv_taken (l :: H) s1 HI1 l it0 Hit). right. done. }
  intros _ s3 (HI3 & x & Hx & ->). wp_go. set (it2 := set_refcount (i_refcount it0 + 1) it0).
  assert (only l it2 s1 (add_refs 1 l it0 x s1)) as O3 by (split; [by apply frame_same|done]).
  pose proof (keeps_only _ _ _ _ _ K1 O3 Hold B1) as K3.
  split; [exact K3|]. split; [done|]. split; [done|]. split; [done|]. exists it2. split; try done.
  - apply lookup_insert_eq.
  - change (i_flags it0 = if use_cas (cfg s1) then ITEM_CAS else 0). by rewrite (k_cfg _ _ K1).
Qed.

(** What makes an item a lease to invalidate, or the list of a transaction. *)
Inductive list_kind : (item -> item) -> (item -> bool) -> Prop :=
  | kind_q_inv : list_kind item_set_q_inv_lease item_has_q_inv_lease
  | kind_sess : list_kind item_set_sess item_is_sess.

Lemma list_kind_has f P it (b : bool) x : list_kind f P -> i_flags it = (if b then ITEM_CAS else 0) -> i_coflags it = 0 ->
  i_flags x = set_bit (i_flags (f it)) ITEM_LINKED -> i_coflags x = i_coflags (f it) -> P x = true /\ item_has_i_lease x = false /\
  (item_is_sess x = true -> item_is_pinned_kind x = false).
Proof. intros Hf H1 H2 Hx Hc. unfold item_is_pinned_kind, item_is_co_lease_holder, item_is_ptrans, item_is_hotkeys. destruct Hf; flags_unfold; rewrite Hx, ?Hc; cbn; rewrite H1, ?H2; destruct b; split_and!; vm_compute; first [done|by intros [=]|by intros _]. Qed.

Lemma list_kind_flags f P it (b : bool) : list_kind f P -> i_flags it = (if b then ITEM_CAS else 0) -> i_coflags it = 0 ->
  item_is_linked (f it) = false /\ item_is_slabbed (f it) = false /\ item_is_linked it = false /\ item_is_slabbed it = false /\
  item_is_raligned (f it) = false /\ item_has_cas (f it) = item_has_cas it /\ item_has_i_lease (f it) = false /\
  (forall cf, respool cf (f it) = slab_has_reserved_slabs cf) /\ (item_is_lease_holder (f it) = true \/ item_is_pinned_kind (f it) = false).
Proof.
  intros Hf H1 H2. unfold respool, item_is_pinned_kind. destruct Hf; flags_unfold; rewrite H1, ?H2; destruct b; split_and!; try (by vm_compute);
    first [intros cf; match goal with |- ?x && ?y = _ => change y with true end; apply andb_true_r | left; by vm_compute | right; by vm_compute].
Qed.

Lemma data_room it cf : layout cf it -> item_is_raligned it = false -> exists d, item_data_raw it = Some d /\ Z.of_nat (length d) = i_nbyte it.
Proof.
  intros (L1 & L2 & L3 & L4) Hr. unfold item_data_raw, data_pos, mem_slice. rewrite Hr. unfold CRLF_LEN in L4.
  rewrite decide_True by lia. eexists. split; [done|]. rewrite length_take, length_drop. lia.
Qed.

Lemma fill_list_spec H s l key e it f P entry :
  inv (l :: H) s -> l ∉ H -> new_item s l key (Z.of_nat (length entry) + 1) e it -> list_kind f P ->
  slab_has_reserved_slabs (cfg s) = true -> lra_off (cfg s) = true -> Z.of_nat (length entry) < 256 ->
  wp (upd_item l f;; list_add l None entry) (fun _ s' => inv (l :: H) s' /\ exists it', only l it' s s' /\ linkable (l :: H) s' l it' /\
    i_key it' = key /\ i_nbyte it' <> 0 /\ item_value it' = Some (one_entry entry) /\ item_has_i_lease it' = false /\ i_exptime it' = e /\
    i_refcount it' = 2 /\ i_flags it' = i_flags (f it) /\ i_coflags it' = i_coflags (f it)) s.
Proof.
  intros HI Hni [N1 N2 N3 N4 N5 N6 N7 N8 N9] Hf Hres Hlra Hl.
  destruct (list_kind_flags f P it (use_cas (cfg s)) Hf N4 N5) as (W1 & W2 & W3 & W4 & W5 & W6 & W7 & W8 & W9).
  assert (i_offset (f it) = i_offset it /\ i_id (f it) = i_id it /\ i_refcount (f it) = i_refcount it /\ i_key (f it) = i_key it /\ i_nbyte (f it) = i_nbyte it /\
    i_exptime (f it) = i_exptime it /\ i_nkey (f it) = i_nkey it /\ i_payload (f it) = i_payload it) as (Z1 & Z2 & Z3 & Z4 & Z5 & Z6 & Z7 & Z8) by by destruct Hf.
  apply wp_bind. eapply wp_mono; [apply (write_field_spec (l :: H) s l it f HI N1 W3); by apply inert_unlinked; rewrite ?W4|].
  intros _ s1 [HI1 O1]. pose proof (only_eq l _ s s1 O1) as Hl1. pose proof (k_cfg _ _ (proj1 O1)) as Hc1.
  assert (layout (cfg s1) (f it)) as Hlay1. { rewrite Hc1. unfold layout in *. by rewrite W6, Z2, Z4, Z5, Z7, Z8. }
  destruct (data_room (f it) (cfg s1) Hlay1 W5) as (d & Hd & Hdl). unfold list_add, list_data. wp_go. eapply wp_lift; [exact Hd|].
  wp_go. eapply wp_lift; [apply addkey_fresh; [done|rewrite Z5, N7 in Hdl; lia]|]. cbv beta iota.
  eapply wp_mono; [apply (write_value_spec (l :: H) s1 l (f it) (one_entry entry) HI1 Hl1 W1 W5 Hlay1); simpl; rewrite Z5, N7; lia|].
  intros _ s2 (p & HI2 & O2 & Hval & Hlay2). split; [done|]. exists (set_payload p (f it)).
  pose proof (only_trans l _ _ s s1 s2 O1 O2) as O. pose proof (k_cfg _ _ (proj1 O)) as Hc2.
  split; [done|]. split; [|split_and!; [by rewrite <-N2, <-Z4|change (i_nbyte (f it) <> 0); rewrite Z5, N7; lia|done|done|by rewrite <-N6, <-Z6|by rewrite <-N3, <-Z3|done|done]].
  split.
  - by apply (only_eq l _ s).
  - change (0 < i_refcount (f it)). lia.
  - done.
  - intros _. change (i_refcount (f it) = held l (l :: H) + 1). rewrite held_cons_eq, Z3, N3.
    assert (held l H = 0) as ->; [|done]. pose proof (held_nonneg l H).
    destruct (decide (0 < held l H)) as [Hx|]; [|lia]. by apply held_elem in Hx.
  - unfold homed. change (respool (cfg s2) (set_payload p (f it))) with (respool (cfg s2) (f it)). rewrite W8, Hc2, Hres. by apply (k_grows _ _ (proj1 O)).
  - left. by rewrite Hc2.
  - by rewrite Hc2, <-Hc1.
  - intros _. rewrite Hval. eauto.
Qed.

(** ** Linking it *)

Definition unbound s k : Prop := forall b x, ~ bound s k b x.

(** What is bound under [k] afterwards was so before. *)
Definition back k s s' : Prop := forall b x, bound s' k b x -> bound s k b x.

Lemma back_trans k s1 s2 s3 : back k s1 s2 -> back k s2 s3 -> back k s1 s3.
Proof. intros B1 B2 b x Hb. by apply B1, B2. Qed.
Lemma back_unbound k s s' : back k s s' -> unbound s k -> unbound s' k.
Proof. intros B U b x Hb. by apply (U b x), B. Qed.
Lemma back_keeps k s s' : keeps s s' -> back k s s'.
Proof. intros [_ _ K] b x (Hb & Hl & Hk). split_and!; [|done|done]. by apply K. Qed.
Lemma back_only k s s' a it' : only a it' s s' -> item_is_linked it' = false \/ i_key it' <> k -> back k s s'.
Proof. intros O Hn b x Hb. apply (only_bound _ _ _ _ _ _ _ O) in Hb as [(-> & -> & Hl & Hk)|[_ Hb]]; [|done]. destruct Hn; congruence. Qed.
Lemma back_steps T K k s s' : steps T K s s' -> ~ T k -> back k s s'.
Proof.
  intros [F S B R U] HT b x Hb. destruct (B k b x Hb) as (_ & y & Hy). assert (heap s' !! b = Some y) as Hy' by (apply U; [apply Hy|destruct Hy as (_ & _ & ->); done]).
  destruct Hb as (Hb & _). assert (x = y) as -> by congruence. done.
Qed.

(** Storing under a key nothing is bound to. *)
Lemma store_new_spec H s a it c :
  inv H s -> Z.of_nat (length H) + 1 <= MAX_HELD -> slab_lock s = false -> linkable H s a it -> i_nbyte it <> 0 -> unbound s (i_key it) ->
  wp (_item_store a REQ_SET c true) (fun _ s' => inv H s' /\ frame s s' /\ (exists cas, heap s' !! a = Some (linked_item cas (time_now (clk s)) it)) /\
    forall b, b <> a -> heap s' !! b = heap s !! b) s.
Proof.
  intros HI HH Hlk Hla Hn Hu. pose proof (lk_item _ _ _ _ Hla) as Ha. unfold _item_store. wp_go. rewrite (proj2 (Z.eqb_neq _ _)) by done. cbn [andb].
  apply wp_bind. eapply wp_mono; [apply (get_spec H s (i_key it)); [done|lia|done]|]. intros o s1 G.
  destruct o as [b|]; [destruct G as (x & Hb & _); by apply Hu in Hb|].
  destruct G as [HI1 [(F1 & Hh1 & _)|(b & x & Hb & _)]]; [|by apply Hu in Hb].
  assert (linkable H s1 a it) as Hla1.
  { destruct Hla as [L1 L2 L3 L4 L5 L6 L7 L8]. pose proof (k_cfg _ _ F1) as Hc. split; rewrite ?Hh1, ?Hc; try done. by apply (homed_frame s s1 a it). }
  apply wp_bind. eapply wp_mono; [apply (absent_spec s1 a it REQ_SET c); [by rewrite Hh1|by left]|]. intros d s2 [[es ->] (D1 & D2 & D3 & D4 & D5)].
  apply wp_bind. rewrite D4, D5, bool_decide_true by done. cbn [andb]. rewrite D1. apply wp_bind.
  eapply wp_mono; [apply (put_new_spec H (set_events es s1) a it HI1)|].
  - change (slab_lock s1 = false). by rewrite (k_slab_lock _ _ F1).
  - by destruct Hla1.
  - intros b x Hb. unfold bound in Hb. simpl in Hb. rewrite Hh1 in Hb. by apply (Hu b x).
  - intros _ s3 (HI3 & (F3 & _ & cas & Ha3 & _) & Hr). unfold opt_remove. rewrite D2, D3. wp_go. split; [done|].
    split; [transitivity s1; [done|]; transitivity (set_events es s1); [auto with mc|done]|].
    split; [exists cas; simpl in Ha3; by rewrite (k_clk _ _ F1) in Ha3|]. intros b Hb. rewrite Hr by done. simpl. by rewrite Hh1.
Qed.

(** The pin is left. *)
Lemma drop_pinned_spec H s l it : inv (l :: H) s -> Z.of_nat (length H) + 1 <= MAX_HELD -> slab_lock s = false -> heap s !! l = Some it ->
  item_is_linked it = true -> i_refcount it = 2 -> wp (_item_remove l) (fun _ s' => inv H s' /\ only l (set_refcount 1 it) s s') s.
Proof.
  intros HI HH Hlk Hl Hk Hr. eapply wp_mono; [apply (remove_spec (l :: H) H s l it HI); try done; [simpl; lia|intros _ ?; lia|congruence]|].
  intros _ s' [HI' O]. split; [done|]. unfold dropped in O. rewrite Hr in O. exact O.
Qed.

(** The list of [entry] alone is what is linked under [k]. *)
Record listed s k (P : item -> bool) entry (r : Z) l it : Prop := Listed {
  li_bound : bound s k l it;
  li_ref : i_refcount it = r;
  li_value : item_value it = Some (one_entry entry);
  li_kind : P it = true;
  li_no_i : item_has_i_lease it = false;
  li_visible : visible s it = true;
  li_pin : item_is_sess it = true -> item_is_pinned_kind it = false
}.

(** Nothing is linked anew but under [k], and what is in use stays. *)
Record adds k s s' : Prop := Adds {
  ad_frame : frame s s';
  ad_back : forall k', k' <> k -> back k' s s';
  ad_ref : forall b x, heap s !! b = Some x -> 0 < i_refcount x -> heap s' !! b = Some x
}.


Lemma listed_frame s s' k P entry r l it : frame s s' -> heap s' !! l = Some it -> listed s k P entry r l it -> listed s' k P entry r l it.
Proof. intros F Hl [(_ & B2 & B3) ? ? ? ? Hv ?]. split; try done. by rewrite (visible_frame s s' it F). Qed.

Lemma listed_adds s s' k k' P entry l it : adds k' s s' -> listed s k P entry 1 l it -> listed s' k P entry 1 l it.
Proof. intros [F _ R] L. apply (listed_frame s s'); [done| |done]. apply R; [apply L|]. rewrite (li_ref _ _ _ _ _ _ _ L). lia. Qed.

Lemma listed_ref s s' k P entry r d l it : (forall x, P (set_refcount d x) = P x) -> frame s s' -> heap s' !! l = Some (set_refcount d it) ->
  listed s k P entry r l it -> listed s' k P entry d l (set_refcount d it).
Proof.
  intros HP F Hl [(_ & B2 & B3) _ L3 L4 L5 L6 L7]. split; try done.
  - by rewrite HP.
  - by rewrite (visible_frame s s' _ F).
Qed.

(** Filled and stored, with its pin and the reference of the caller. *)
Lemma put_list_spec H s l key it f P entry c :
  inv (l :: H) s -> Z.of_nat (length H) + 2 <= MAX_HELD -> l ∉ H -> slab_lock s = false -> lease_lasts s ->
  new_item s l key (Z.of_nat (length entry) + 1) (time_reltime (clk s) (lease_exptime (cfg s))) it -> list_kind f P ->
  slab_has_reserved_slabs (cfg s) = true -> lra_off (cfg s) = true -> Z.of_nat (length entry) < 256 -> unbound s key ->
  wp (upd_item l f;; list_add l None entry) (fun _ s1 => inv (l :: H) s1 /\ frame s s1 /\ forall es,
    wp (_item_store l REQ_SET c true) (fun _ s' => inv (l :: H) s' /\ frame s s' /\ (forall b, b <> l -> heap s' !! b = heap s !! b) /\
      exists lit, listed s' key P entry 2 l lit) (set_events es s1)) s.
Proof.
  intros HI HH Hni Hlk Hla N Hf Hres Hlra Hl Hu.
  eapply wp_mono; [by apply (fill_list_spec H s l key _ it f P entry HI Hni N Hf)|].
  intros _ s1 (HI1 & it' & O1 & Hln & Hk & Hn & Hv & Hi & He & Hr & Hfl & Hco). pose proof (proj1 O1) as F1.
  split; [done|]. split; [done|]. intros es. set (s2 := set_events es s1).
  assert (frame s s2) as F2 by (transitivity s1; [done|auto with mc]).
  eapply wp_mono; [apply (store_new_spec (l :: H) s2 l it' c HI1)|].
  - simpl. lia.
  - by rewrite (k_slab_lock _ _ F2).
  - by destruct Hln.
  - done.
  - rewrite Hk. apply (back_unbound key s s1); [|done]. apply (back_only key s s1 l it' O1). left. apply Hln.
  - intros _ s3 (HI3 & F3 & (cas & Hl3) & Hr3). assert (frame s s3) as F by by transitivity s2. split; [done|]. split; [done|]. split.
    { intros b Hb. rewrite Hr3 by done. apply (only_lookup l it' s s1 b O1 Hb). }
    set (t := time_now (clk s2)) in *. exists (linked_item cas t it').
    destruct (linked_item_fields cas t it') as (_ & _ & E3 & E4 & _ & _ & _ & E8 & E9 & _).
    destruct (linked_item_flags cas t it') as (L1 & _ & _ & _ & _ & _ & _ & L8).
    destruct (list_kind_has f P it (use_cas (cfg s)) (linked_item cas t it') Hf (ni_flags _ _ _ _ _ _ N) (ni_coflags _ _ _ _ _ _ N)) as (HP & Hil & Hpin);
      [by rewrite E9, Hfl|by rewrite E8|].
    split; [|congruence|by rewrite L8|done|done| |done].
    + split; [done|]. split; [done|congruence].
    + rewrite (visible_frame s s3) by done. unfold t. rewrite (k_clk _ _ F2). by apply lease_visible.
Qed.

(** ** Registering the key and the transaction *)

(** No item for a list of [entry] under [k] can be had. *)
Definition exhausted k entry s : Prop :=
  exists s', _item_create_reserved_item k (u32 (0 + trig_new_keylist_size (klen8 entry))) true s = Some (None, s').

Lemma set_events_id s : set_events (events s) s = s.
Proof. by destruct s. Qed.

Section new_list.
Variables (c : conn) (f : item -> item) (P : item -> bool) (rest : addr -> M st unit).
Hypothesis kind : list_kind f P.
(** What follows stores the item, counts, and drops it. *)
Hypothesis rest_spec : forall l s (R : unit -> st -> Prop),
  (forall es, wp (_item_store l REQ_SET c true) (fun _ s1 => forall es', wp (_item_remove l) R (set_events es' s1)) (set_events es s)) ->
  wp (rest l) R s.

Lemma new_list_spec H s k entry :
  inv H s -> Z.of_nat (length H) + 2 <= MAX_HELD -> alloc_ok s true -> lease_lasts s -> lra_off (cfg s) = true ->
  Z.of_nat (length k) < 256 -> Z.of_nat (length entry) < 256 -> fits (cfg s) (Z.of_nat (length k)) (Z.of_nat (length entry) + 1) -> unbound s k ->
  wpe (exhausted k entry s) (o ← _item_create_reserved_item k (u32 (0 + trig_new_keylist_size (klen8 entry))) true;
       na ← lift o; upd_item na f;; list_add na None entry;; rest na)
    (fun _ s' => inv H s' /\ adds k s s' /\ exists l it, l ∉ H /\ listed s' k P entry 1 l it) s.
Proof.
  intros HI HH Hal Hla Hlra Hk He Hf Hu. unfold exhausted, trig_new_keylist_size, klen8. rewrite u8_small, Z.add_0_l, u32_small by lia.
  eapply wpe_seq; [apply (create_reserved_spec H s k (Z.of_nat (length entry) + 1)); try done; lia|]. intros o s1 Hrun [K1 Ho].
  apply wpe_bind, wpe_lift; [intros ->; by exists s1|]. intros l ->. clear Hrun. destruct Ho as (HI1 & Hni & Hold & it & N). pose proof (k_frame _ _ K1) as F1.
  apply wpe_wp, wp_assoc, wp_bind. pose proof (al_lock _ _ Hal) as Hlk. rewrite <-(k_slab_lock _ _ F1) in Hlk.
  pose proof (al_pool _ _ Hal eq_refl) as Hp. unfold lease_lasts in Hla. rewrite <-(k_clk _ _ F1), <-(k_cfg _ _ F1) in *.
  eapply wp_mono; [apply (put_list_spec H s1 l k it f P entry c HI1 HH Hni Hlk Hla N kind Hp Hlra He); by apply (back_unbound k s s1), Hu; apply back_keeps|].
  intros _ s2 (HI2 & F2 & Hst). apply rest_spec. intros es. eapply wp_mono; [apply Hst|].
  intros _ s3 (HI3 & F3 & Hr3 & lit & Hli) es'. destruct Hli as [(B1 & B2 & B3) L2 L3 L4 L5 L6 L7].
  eapply wp_mono; [apply (drop_pinned_spec H (set_events es' s3) l lit HI3); try done; [lia|by change (slab_lock s3 = false); rewrite (k_slab_lock _ _ F3)]|].
  intros _ s4 [HI4 O4]. assert (frame s1 s4) as F4 by (transitivity s3; [done|]; transitivity (set_events es' s3); [auto with mc|apply O4]).
  assert (forall b, b <> l -> heap s4 !! b = heap s1 !! b) as Hr4.
  { intros b Hb. rewrite (only_lookup l _ _ s4 b O4 Hb). by apply Hr3. }
  split; [done|]. split.
  - split; [by transitivity s1|..].
    + intros k' Hk'. apply (back_trans k' s s1); [by apply back_keeps|]. intros b x (X1 & X2 & X3). destruct (decide (b = l)) as [->|Hb]; [|split; [by rewrite <-Hr4|done]].
      rewrite (only_eq l _ _ s4 O4) in X1. injection X1 as <-. change (i_key lit = k') in X3. congruence.
    + intros b x Hb Hx. rewrite Hr4; [by apply (k_ref _ _ K1)|]. intros ->. specialize (Hold x Hb). lia.
  - exists l, (set_refcount 1 lit). split; [done|]. apply (listed_ref (set_events es' s3) s4 k P entry 2); [|apply O4|by apply (only_eq l _ _ s4 O4)|by split]. intros x. by destruct kind.
Qed.
End new_list.

Lemma assoc_lease_spec H s c key tid :
  inv H s -> Z.of_nat (length H) + 2 <= MAX_HELD -> alloc_ok s true -> lease_lasts s -> lra_off (cfg s) = true ->
  Z.of_nat (length key) + 3 < 256 -> Z.of_nat (length tid) < 256 ->
  fits (cfg s) (Z.of_nat (length key) + 3) (Z.of_nat (length tid) + 1) -> unbound s (mc_get_lease_key key) ->
  wpe (exhausted (mc_get_lease_key key) tid s) (_item_assoc_tid_lease c None key tid) (fun _ s' => inv H s' /\ adds (mc_get_lease_key key) s s' /\
    exists l it, l ∉ H /\ listed s' (mc_get_lease_key key) item_has_q_inv_lease tid 1 l it) s.
Proof.
  intros HI HH Hal Hla Hlra Hk Ht Hf Hu. assert (Z.of_nat (length (mc_get_lease_key key)) = Z.of_nat (length key) + 3) as Hl by (simpl; lia).
  unfold _item_assoc_tid_lease. cbn [list_lacks list_len]. do 2 (apply wpe_ret; cbn [when]).
  eapply (new_list_spec c item_set_q_inv_lease item_has_q_inv_lease (fun na => _item_store na REQ_SET c true;; record (ThreadIncr "active_q_lease");;
    record (ThreadIncr "total_q_lease");; record (ThreadIncr "total_lease");; _item_remove na) kind_q_inv); try done; [|lia|by rewrite Hl].
  intros l s1 R Hw. apply wp_bind. specialize (Hw (events s1)). rewrite set_events_id in Hw. eapply wp_mono; [exact Hw|]. intros ? s2 Hd. wp_go. apply Hd.
Qed.

Lemma assoc_trans_spec H s c key tid :
  inv H s -> Z.of_nat (length H) + 2 <= MAX_HELD -> alloc_ok s true -> lease_lasts s -> lra_off (cfg s) = true ->
  Z.of_nat (length key) < 256 -> Z.of_nat (length tid) < 256 ->
  fits (cfg s) (Z.of_nat (length tid)) (Z.of_nat (length key) + 1) -> unbound s tid ->
  wpe (exhausted tid key s) (_item_assoc_key_tid c None key tid) (fun _ s' => inv H s' /\ adds tid s s' /\
    exists t it, t ∉ H /\ listed s' tid item_is_sess key 1 t it) s.
Proof.
  intros HI HH Hal Hla Hlra Hk Ht Hf Hu. unfold _item_assoc_key_tid. cbn [list_lacks list_len].
  do 2 (apply wpe_ret; cbn [when]).
  eapply (new_list_spec c item_set_sess item_is_sess (fun na => record (ThreadIncr "total_trans");; _item_store na REQ_SET c true;; _item_remove na) kind_sess); try done.
  intros l s1 R Hw. wp_go. eapply wp_mono; [apply Hw|]. intros ? s2 Hd. rewrite <-(set_events_id s2). apply Hd.
Qed.

(** ** The item of the key expires with the lease *)

Lemma expire_spec H H' s a x e :
  inv H s -> H ≡ₚ a :: H' -> Z.of_nat (length H) <= MAX_HELD -> slab_lock s = false -> heap s !! a = Some x ->
  item_is_linked x = true -> droppable s x ->
  wp (upd_item a (set_exptime e)) (fun _ s1 => wp (_item_remove a) (fun _ s' => inv H' s' /\ exists y, only a y s s') s1) s.
Proof.
  intros HI HP HH Hlk Ha Hl Hd. wp_go. set (s1 := set_heap _ s).
  assert (inv H s1) as HI1.
  { apply (INV_inert None H _ _ _ _ _ _ _ _ a x); [done|done|]. split; try done. intros _. by apply (v_data _ _ _ _ _ _ _ _ _ _ HI a x) in Hl as [? ?]. }
  assert (heap s1 !! a = Some (set_exptime e x)) as Ha1 by apply lookup_insert_eq.
  eapply wp_mono; [apply (remove_spec H H' s1 a (set_exptime e x) HI1 HH HP Ha1); [exact Hd| |exact Hlk]|].
  { intros Hx. change (item_is_linked x = false) in Hx. congruence. }
  intros _ s' [HI' O]. split; [done|]. eexists. apply (only_trans a (set_exptime e x) _ s s1 s'); [|exact O]. split; [auto with mc|done].
Qed.

(** A list that is linked is not touched under other keys. *)
Lemma listed_steps s s' T K k P entry l it : steps T K s s' -> ~ T k -> listed s k P entry 1 l it -> listed s' k P entry 1 l it.
Proof.
  intros S HT L. destruct (li_bound _ _ _ _ _ _ _ L) as (B1 & B2 & B3). apply (listed_frame s s'); [apply S| |done].
  apply (st_rest _ _ _ _ S); [done|]. by rewrite B3.
Qed.

Lemma listed_ne s k1 k2 P1 P2 e1 e2 r1 r2 a b x y : k1 <> k2 -> listed s k1 P1 e1 r1 a x -> listed s k2 P2 e2 r2 b y -> a <> b.
Proof. intros Hk [(A1 & _ & A3) _ _ _ _ _ _] [(B1 & _ & B3) _ _ _ _ _ _] ->. congruence. Qed.

(** The key is quarantined by the transaction alone. *)
Definition quarantined H s key tid : Prop :=
  (exists l lit, l ∉ H /\ listed s (mc_get_lease_key key) item_has_q_inv_lease tid 1 l lit) /\
  exists t tit, t ∉ H /\ listed s tid item_is_sess key 1 t tit.

(** The lease found is left again. *)
Lemma drop_lease_spec H s key tid l lit t tit :
  inv (l :: H) s -> Z.of_nat (length H) + 1 <= MAX_HELD -> slab_lock s = false -> tid <> mc_get_lease_key key -> l ∉ H -> t ∉ H ->
  listed s (mc_get_lease_key key) item_has_q_inv_lease tid 2 l lit -> listed s tid item_is_sess key 1 t tit ->
  wp (opt_remove (Some l)) (fun _ s' => inv H s' /\ frame s s' /\ quarantined H s' key tid) s.
Proof.
  intros HI HH Hlk Hne Nl Nt Ll Lt. destruct (li_bound _ _ _ _ _ _ _ Ll) as (B1 & B2 & _).
  eapply wp_mono; [apply (drop_pinned_spec H s l lit HI HH Hlk B1 B2), (li_ref _ _ _ _ _ _ _ Ll)|]. intros _ s' [HI' O].
  split; [done|]. split; [apply O|]. split.
  - exists l, (set_refcount 1 lit). split; [done|]. apply (listed_ref s s' _ _ _ 2); [done|apply O|by apply (only_eq l _ s)|done].
  - exists t, tit. split; [done|]. apply (listed_frame s s'); [apply O| |done]. rewrite (only_lookup l _ s s' t O); [apply Lt|].
    by apply (listed_ne s _ _ _ _ _ _ _ _ _ _ _ _ Hne Lt Ll).
Qed.

Lemma expire_found_spec H s key tid l lit t tit :
  inv H s -> Z.of_nat (length H) + 3 <= MAX_HELD -> slab_lock s = false -> tid <> key -> tid <> mc_get_lease_key key -> l ∉ H -> t ∉ H ->
  listed s (mc_get_lease_key key) item_has_q_inv_lease tid 1 l lit -> listed s tid item_is_sess key 1 t tit ->
  wp (it ← _item_get key;
      lease_it ← _item_get_lease key;
      (match it with
       | Some a =>
           (match lease_it with
            | Some l => e ← field i_exptime l; upd_item a (set_exptime e)
            | None => mret tt
            end);;
           _item_remove a
       | None => mret tt
       end);;
      opt_remove lease_it) (fun _ s' => inv H s' /\ frame s s' /\ quarantined H s' key tid) s.
Proof.
  intros HI HH Hlk Hk1 Hk2 Nl Nt Ll Lt. set (lk := mc_get_lease_key key) in *. apply wp_bind.
  eapply wp_mono; [apply (get_spec H s key HI); [lia|done]|]. intros o s1 G. pose proof (got_steps H s key o s1 HI G) as S1.
  pose proof (st_frame _ _ _ _ S1) as F1. destruct (got_under H s key o s1 HI G) as (HI1 & Hu & _). pose proof (got_old_ok H s key o s1 HI G) as Ho.
  apply (listed_steps s s1 _ _ _ _ _ _ _ S1) in Ll; [|apply lease_key_ne]. apply (listed_steps s s1 _ _ _ _ _ _ _ S1) in Lt; [|done].
  pose proof (listed_ne s1 _ _ _ _ _ _ _ _ _ _ _ _ Hk2 Lt Ll) as Htl. apply wp_bind.
  assert (Z.of_nat (length (option_list o ++ H)) <= Z.of_nat (length H) + 1) as HH1 by (destruct o; simpl; lia).
  eapply wp_mono; [apply (get_spec (option_list o ++ H) s1 lk HI1); [lia|by rewrite (k_slab_lock _ _ F1)]|]. intros o2 s2 G2.
  pose proof (got_steps _ s1 lk o2 s2 HI1 G2) as S2. apply (listed_steps s1 s2 _ _ _ _ _ _ _ S2) in Lt; [|done].
  destruct o2 as [b|].
  2: { exfalso. pose proof (li_bound _ _ _ _ _ _ _ Ll) as B. destruct G2 as [_ [(_ & _ & Hn)|(b & x & Hb & Hv & _)]]; [by apply Hn in B|].
       destruct (bound_inj _ s1 lk b l x lit HI1 Hb B) as [-> ->]. pose proof (li_visible _ _ _ _ _ _ _ Ll). congruence. }
  destruct G2 as (x & Hb & _ & HI2 & O2). destruct (bound_inj _ s1 lk b l x lit HI1 Hb (li_bound _ _ _ _ _ _ _ Ll)) as [-> ->]. clear Hb.
  rewrite (li_ref _ _ _ _ _ _ _ Ll) in O2. set (lit2 := set_refcount (1 + 1) lit) in *. pose proof (only_eq l lit2 s1 s2 O2) as Hl2.
  assert (frame s s2) as F2 by (transitivity s1; [done|apply O2]). apply wp_bind.
  assert (forall s3, inv (l :: H) s3 -> frame s2 s3 -> heap s3 !! l = Some lit2 -> heap s3 !! t = Some tit ->
    wp (opt_remove (Some l)) (fun _ s' => inv H s' /\ frame s s' /\ quarantined H s' key tid) s3) as Hend.
  { intros s3 HI3 F3 Hl3 Ht3. eapply wp_mono; [apply (drop_lease_spec H s3 key tid l lit2 t tit HI3); [lia|by rewrite (k_slab_lock _ _ F3), (k_slab_lock _ _ F2)|done|done|done|..]|].
    - apply (listed_ref s1 s3 _ _ _ 1); [done|by transitivity s2; [apply O2|]|done|done].
    - by apply (listed_frame s2 s3).
    - intros _ s4 (HI4 & F4 & Hq). split; [done|]. split; [|done]. transitivity s2; [done|]. by transitivity s3. }
  destruct o as [a|]; simpl in HI2; [|apply wp_ret, Hend; try done; apply Lt].
  destruct Hu as (x & B1 & B2 & B3). destruct Ho as (x' & X1 & X2 & _). assert (x' = x) as -> by congruence.
  assert (a <> l) as Hal by (intros ->; destruct (li_bound _ _ _ _ _ _ _ Ll) as (C1 & _ & C3); apply (lease_key_ne key); fold lk; congruence).
  assert (heap s2 !! a = Some x) as Ha2 by by rewrite (only_lookup l lit2 s1 s2 a O2 Hal).
  assert (t <> a) as Hta by (intros ->; destruct (li_bound _ _ _ _ _ _ _ Lt) as (C1 & _ & C3); congruence).
  apply wp_bind, wp_bind, (wp_field _ l lit2 _ s2 Hl2).
  eapply wp_mono; [apply (expire_spec (l :: a :: H) (l :: H) s2 a x (i_exptime lit2) HI2); try done|].
  - apply Permutation_swap.
  - simpl. lia.
  - by rewrite (k_slab_lock _ _ F2).
  - unfold droppable in *. by rewrite (k_cfg _ _ (proj1 O2)).
  - intros ? s3 Hw. eapply wp_mono; [exact Hw|]. intros ? s4 (HI4 & y & O4). apply Hend; [done|apply O4|..].
    + by rewrite (only_lookup a y s2 s4 l O4).
    + rewrite (only_lookup a y s2 s4 t O4 Hta). apply Lt.
Qed.

(** ** [item_quarantine_and_register] *)

(** A new transaction, and a key that only readers have leased. *)
Record quarantinable s key tid : Prop := Quarantinable {
  qn_alloc : alloc_ok s true;
  qn_lasts : lease_lasts s;
  qn_lra : lra_off (cfg s) = true;
  qn_key : Z.of_nat (length key) + 3 < 256;
  qn_tid : Z.of_nat (length tid) < 256;
  qn_ne : tid <> key /\ tid <> mc_get_lease_key key;
  qn_lease : fits (cfg s) (Z.of_nat (length key) + 3) (Z.of_nat (length tid) + 1);
  qn_trans : fits (cfg s) (Z.of_nat (length tid)) (Z.of_nat (length key) + 1);
  qn_new : forall e, ~ serves s tid e;
  qn_readers : forall l lit, bound s (mc_get_lease_key key) l lit -> visible s lit = true -> item_has_i_lease lit = true
}.

(** Up to where the first list is made. *)
Definition quarantine_begin (tid key : list Z) : M st (option addr * option addr) :=
  lock_cache;;
  trans_it ← _item_get tid;
  lease_it ← _item_get_lease key;
  i ← test item_has_i_lease lease_it;
  lease_it ← (match lease_it, i with
              | Some l, true => _item_unlink l;; _item_remove l;; mret None
              | _, _ => mret lease_it
              end);
  mret (trans_it, lease_it).

(** The pool of the leases has nothing left for the list of the lease or, the
    lease registered, for the list of the transaction. *)
Definition out_of_leases c tid key s : Prop :=
  exists r s1, quarantine_begin tid key s = Some (r, s1) /\ (exhausted (mc_get_lease_key key) tid s1 \/
    exists s2, _item_assoc_tid_lease c None key tid s1 = Some (tt, s2) /\ exhausted tid key s2).

Lemma steps_unbound T (K : list Z -> Prop) s s' k : steps T K s s' -> K k -> unbound s' k.
Proof. intros S HK b x Hb. by destruct (st_bound _ _ _ _ S k b x Hb). Qed.

Lemma quarantine_begin_spec H s key tid :
  inv H s -> Z.of_nat (length H) + 3 <= MAX_HELD -> cache_lock s = false -> quarantinable s key tid ->
  wp (quarantine_begin tid key) (fun r s' => r = (None, None) /\ inv H s' /\ frame (set_cache_lock true s) s' /\
    unbound s' tid /\ unbound s' (mc_get_lease_key key)) s.
Proof.
  intros HI HH Hc [Hal _ _ _ _ [Ne1 Ne2] _ _ Hnew Hrd]. set (lk := mc_get_lease_key key) in *.
  pose proof (al_lock _ _ Hal) as Hlk. unfold quarantine_begin. apply wp_bind, wp_lock_cache; [done|]. set (s0 := set_cache_lock true s). apply wp_bind.
  eapply wp_mono; [apply (get_spec H s0 tid HI); [lia|done]|]. intros o s1 G. pose proof (got_steps H s0 tid o s1 HI G) as S1.
  destruct (get_serves H s0 tid o s1 HI G) as (F1 & _ & _ & Ho). destruct (got_under H s0 tid o s1 HI G) as (HI1 & Hu & _).
  destruct o as [t|]; [exfalso; destruct Ho as [e He]; by apply (Hnew e)|]. simpl in HI1. apply wp_bind.
  pose proof (k_slab_lock _ _ F1) as Hlk1. change (slab_lock s0) with (slab_lock s) in Hlk1. rewrite Hlk in Hlk1.
  eapply wp_mono; [apply (get_spec H s1 lk HI1); [lia|done]|]. intros o s2 G2. pose proof (got_steps H s1 lk o s2 HI1 G2) as S2.
  pose proof (discard_found_spec H s1 lk o s2 HI1 ltac:(lia) Hlk1 G2) as Hd. destruct (got_under H s1 lk o s2 HI1 G2) as (HI2 & Hu2 & _).
  destruct o as [l|]; simpl in Hd, Hu2, HI2.
  - destruct G2 as (x & Hb & Hv & _ & O). apply wp_bind, (wp_field _ l _ _ s2 (only_eq l _ s1 s2 O)).
    assert (item_has_i_lease x = true) as Hi.
    { apply (Hrd l x); [|change (visible s0 x = true); by rewrite <-(visible_frame s0 s1 x F1)]. apply (steps_bound _ _ s0 s1 lk l x S1); [|done]. simpl. congruence. }
    change (item_has_i_lease (set_refcount (i_refcount x + 1) x)) with (item_has_i_lease x). rewrite Hi. apply wp_bind, wp_assoc, wp_bind.
    eapply wp_mono; [exact Hd|]. intros _ s3 [HI3 S3]. wp_go. split; [done|]. split; [done|]. split; [transitivity s1; [done|apply S3]|]. split.
    + by apply (back_unbound tid s1 s3), Hu; apply (back_steps _ _ tid s1 s3 S3).
    + by apply (steps_unbound _ _ s1 s3 lk S3).
  - wp_go. split; [done|]. split; [done|]. split; [transitivity s1; [done|apply S2]|]. split; [|done].
    by apply (back_unbound tid s1 s2), Hu; apply (back_steps _ _ tid s1 s2 S2).
Qed.

Lemma quarantined_unlock H s key tid b : quarantined H s key tid -> quarantined H (set_cache_lock b s) key tid.
Proof. intros [(l & lit & ? & []) (t & tit & ? & [])]. split; [exists l, lit|exists t, tit]; (split; [done|by split]). Qed.

Lemma quarantined_granted H s key tid token : inv H s -> quarantined H s key tid -> ~ granted s key token.
Proof.
  intros HI [(l & lit & _ & L) _] (b & x & Hb & _ & Hi & _).
  destruct (bound_inj H s _ l b lit x HI (li_bound _ _ _ _ _ _ _ L) Hb) as [_ ->]. pose proof (li_no_i _ _ _ _ _ _ _ L). congruence.
Qed.

Definition quarantine_rest c tid key (r : option addr * option addr) : M st (rstatus * Z) :=
  _item_assoc_tid_lease c (snd r) key tid;;
  _item_assoc_key_tid c (fst r) key tid;;
  (match snd r with
   | Some l => _item_remove l;; record (ThreadIncr "qlease_voids")
   | None => mret tt
   end);;
  (it ← _item_get key;
   lease_it ← _item_get_lease key;
   (match it with
    | Some a =>
        (match lease_it with
         | Some l => e ← field i_exptime l; upd_item a (set_exptime e)
         | None => mret tt
         end);;
        _item_remove a
    | None => mret tt
    end);;
   opt_remove lease_it);;
  opt_remove (fst r);;
  unlock_cache;;
  mret (MC_OK, 1).

Lemma bind_run {A B} (m : M st A) (f g : A -> M st B) s : (forall z s', f z s' = g z s') -> (m ≫= f) s = (m ≫= g) s.
Proof. unfold mbind, M_bind. intros Hf. destruct (m s) as [[]|]; auto. Qed.
Lemma bind_assoc_run {A B C} (m : M st A) (f : A -> M st B) (g : B -> M st C) s : ((m ≫= f) ≫= g) s = (m ≫= fun z => f z ≫= g) s.
Proof. unfold mbind, M_bind. by destruct (m s) as [[]|]. Qed.

Lemma ret_run {A B} (x : A) (f : A -> M st B) s : (mret x ≫= f) s = f x s.
Proof. done. Qed.

Lemma quarantine_split c tid key s :
  item_quarantine_and_register c tid key s = (quarantine_begin tid key ≫= quarantine_rest c tid key) s.
Proof.
  unfold item_quarantine_and_register, quarantine_begin. symmetry.
  do 5 (rewrite bind_assoc_run; apply bind_run; clear s; intros ? s).
  rewrite ret_run. unfold quarantine_rest. cbn [fst snd]. do 3 (apply bind_run; clear s; intros ? s).
  do 3 (rewrite bind_assoc_run; apply bind_run; clear s; intros ? s). done.
Qed.

(** What the call does, or why it does not return. *)
Definition quarantine_outcome H s c key tid : Prop :=
  match item_quarantine_and_register c tid key s with
  | Some (r, s') => r = (MC_OK, 1) /\ inv H s' /\ cache_lock s' = false /\ slab_lock s' = false /\
      quarantined H s' key tid /\ forall token, ~ granted s' key token
  | None => out_of_leases c tid key s
  end.

Lemma quarantine_spec H s c key tid :
  inv H s -> Z.of_nat (length H) + 3 <= MAX_HELD -> cache_lock s = false -> quarantinable s key tid -> quarantine_outcome H s c key tid.
Proof.
  intros HI HH Hc Hq. unfold quarantine_outcome.
  pose proof (quarantine_begin_spec H s key tid HI HH Hc Hq) as Hb. destruct Hq as [Hal Hla Hlra Hk Ht [Ne1 Ne2] Hf1 Hf2 _ _].
  rewrite (quarantine_split c tid key s). change (wpe (out_of_leases c tid key s) (quarantine_begin tid key ≫= fun r => quarantine_rest c tid key r) (fun r s' =>
    r = (MC_OK, 1) /\ inv H s' /\ cache_lock s' = false /\ slab_lock s' = false /\ quarantined H s' key tid /\ forall token, ~ granted s' key token) s).
  eapply wpe_seq; [exact Hb|]. clear Hb. intros r s1 Hrun (-> & HI1 & F1 & Hu1 & Hu2). unfold quarantine_rest.
  set (s0 := set_cache_lock true s) in *.
  assert (forall s', frame s0 s' -> inv H s' -> alloc_ok s' true /\ lease_lasts s' /\ cfg s' = cfg s) as Hfr.
  { intros s' F HI'. split; [by apply (alloc_ok_frame H H s0); [..|destruct Hal; split]|]. unfold lease_lasts. rewrite (k_cfg _ _ F), (k_clk _ _ F). done. }
  destruct (Hfr s1 F1 HI1) as (Hal1 & Hla1 & Hc1). apply wpe_bind.
  eapply wpe_mono; [apply (assoc_lease_spec H s1 c key tid HI1); try done; [lia|rewrite Hc1; done|rewrite Hc1; done]|intros He; exists (None, None), s1; auto|].
  intros [] s2 Hrun2 (HI2 & A2 & l & lit & Nl & Ll). assert (frame s0 s2) as F2 by (transitivity s1; [done|apply A2]).
  destruct (Hfr s2 F2 HI2) as (Hal2 & Hla2 & Hc2). apply wpe_bind.
  eapply wpe_mono; [apply (assoc_trans_spec H s2 c key tid HI2); try done; [lia|rewrite Hc2; done|lia|rewrite Hc2; done|]|intros He; exists (None, None), s1; eauto|].
  { apply (back_unbound tid s1 s2); [by apply (ad_back _ _ _ A2)|done]. }
  intros [] s3 _ (HI3 & A3 & t & tit & Nt & Lt). assert (frame s0 s3) as F3 by (transitivity s2; [done|apply A3]).
  apply (listed_adds s2 s3 _ _ _ _ _ _ A3) in Ll. apply wpe_wp, wp_bind, wp_ret, wp_bind.
  eapply wp_mono; [apply (expire_found_spec H s3 key tid l lit t tit HI3); try done; rewrite (k_slab_lock _ _ F3); apply Hal|].
  intros [] s4 (HI4 & F4 & Hq). assert (frame s0 s4) as F by by transitivity s3. apply wp_bind, wp_ret, wp_bind, wp_unlock_cache; [by rewrite (k_cache_lock _ _ F)|]. apply wp_ret.
  split; [done|]. split; [exact HI4|]. split; [done|]. split; [change (slab_lock s4 = false); rewrite (k_slab_lock _ _ F); apply Hal|].
  assert (quarantined H (set_cache_lock false s4) key tid) as Hq' by by apply quarantined_unlock. split; [done|]. intros token. by apply (quarantined_granted H _ key tid).
Qed.

(** C3: the first key a transaction quarantines, before it invalidates it: the
    readers that missed the key before are voided.  When only readers have leased
    the key, the transaction is new, and slabs are not evicted by age, the call registers the transaction with the key and the
    key with the transaction: the lease of the key becomes the Q lease of this
    transaction, so no token of an earlier I lease is granted any more and the
    stale value of the reader will not be stored.  The store keeps its invariant
    and the lock is given back.  The call fails to return only when the pool of the
    leases is exhausted, since the NULL of the allocation is followed. *)
Theorem quarantine_voids_readers H s c key tid
  (HI : inv H s) (HH : Z.of_nat (length H) + 3 <= MAX_HELD) (Hc : cache_lock s = false) (Hq : quarantinable s key tid) :
  match item_quarantine_and_register c tid key s with
  | Some (r, s') => r = (MC_OK, 1) /\ inv H s' /\ cache_lock s' = false /\ slab_lock s' = false /\
      quarantined H s' key tid /\ forall token, ~ granted s' key token
  | None => out_of_leases c tid key s
  end.
Proof. by apply quarantine_spec. Qed.

Definition ex_tid : list Z := [84; 49].

Lemma ex_quarantinable : quarantinable ex_leased ex_key ex_tid.
Proof.
  destruct ex_leased_ok as (HI & _ & _ & _ & _ & _ & (l & lit & Hb & _ & Hi & _) & _ & Hs). split.
  - split; [by vm_compute|right; right; by vm_compute|by vm_compute].
  - split; [right|left]; by vm_compute.
  - by vm_compute.
  - by vm_compute.
  - by vm_compute.
  - done.
  - exists 2. by vm_compute.
  - exists 2. by vm_compute.
  - intros e He. apply Hs in He as (a & it & He & _); [by apply ex_empty in He|done].
  - intros b x Hx _. by destruct (bound_inj _ ex_leased _ b l x lit HI Hx Hb) as [_ ->].
Qed.

Lemma ex_quarantine_returns : match item_quarantine_and_register ex_conn ex_tid ex_key ex_leased with Some _ => true | None => false end = true.
Proof. vm_compute. reflexivity. Qed.

Lemma quarantine_voids_readers_witness :
  granted ex_leased ex_key 5 /\ exists r s', item_quarantine_and_register ex_conn ex_tid ex_key ex_leased = Some (r, s') /\
    quarantined [(0%nat, 32)] s' ex_key ex_tid /\ ~ granted s' ex_key 5.
Proof.
  destruct ex_leased_ok as (HI & HL). split; [apply HL|].
  assert (Z.of_nat (length [(0%nat, 32)]) + 3 <= MAX_HELD) as HH by by vm_compute.
  assert (cache_lock ex_leased = false) as Hc by (vm_compute; reflexivity).
  pose proof (quarantine_voids_readers _ ex_leased ex_conn ex_key ex_tid HI HH Hc ex_quarantinable) as Hw.
  pose proof ex_quarantine_returns as Hr.
  destruct (item_quarantine_and_register ex_conn ex_tid ex_key ex_leased) as [[r s']|] eqn:He; [|discriminate Hr]. exists r, s'. destruct Hw as (_ & _ & _ & _ & Hq & Hn). split; [reflexivity|]. split; [exact Hq|exact (Hn 5)].
Defined.
