(* ===== verification/ReleaseOk.v ===== *)
(** * A transaction that invalidates its keys ends cleanly

    [item_delete_and_release]: every key the transaction registered loses its value
    and its lease, and the transaction is forgotten. *)

From stdpp Require Import gmap list.
From S2P Require Import Prelude Util Time Lease Keylist Assoc Item State Slabs Items IQ Inv SlabsOk ItemsOk StoreOk IQOk QuarantineOk.
Open Scope Z_scope.
Implicit Types (s : st) (a l t : addr) (it : item) (H : list addr) (k key tid : list Z) (ks : list (list Z)) (c : conn).

(** ** Walking a list kept in an item *)

Lemma mapM_inv (m : mem) : forall bs, mapM (fun b : option Z => b) m = Some bs -> m = init bs.
Proof.
  induction m as [|[b|] m IH]; intros bs; simpl; [by intros [= <-]| |done].
  destruct (mapM _ m) as [r|] eqn:E; simpl; [|done]. intros [= <-]. by rewrite (IH r).
Qed.

Lemma mem_read_slice (m : mem) o n bs : mem_read m o n = Some bs -> mem_slice m o n = Some (init bs) /\ n = Z.of_nat (length bs).
Proof.
  unfold mem_read, mem_slice. destruct (decide _) as [Hd|]; simpl; [|done]. intros Hm%mapM_inv. split; [by rewrite Hm|].
  apply (f_equal length) in Hm. rewrite length_init, length_take, length_drop in Hm. lia.
Qed.

Lemma value_list it bs : item_value it = Some bs -> item_data_raw it = Some (init bs) /\ i_nbyte it = Z.of_nat (length bs).
Proof. apply mem_read_slice. Qed.

(** The step of the loop at [k]. *)
Definition cursor_at (done : list (list Z)) : option Z :=
  match rev done with [] => None | x :: r => Some (Z.of_nat (length (enc (rev r)))) end.

Lemma cursor_at_snoc done x : cursor_at (done ++ [x]) = Some (Z.of_nat (length (enc done))).
Proof. unfold cursor_at. rewrite rev_app_distr. simpl. by rewrite rev_involutive. Qed.

Lemma next_at done todo :
  trig_keylist_next (init (enc (done ++ todo))) (Z.of_nat (length (enc (done ++ todo)))) (cursor_at done) =
  match todo with
  | [] => Some (TRIG_NOTFOUND, match done with [] => None | _ => Some (Z.of_nat (length (enc done))) end, None)
  | k :: _ => Some (TRIG_OK, cursor_at (done ++ [k]), Some (Z.of_nat (length (enc done)) + 1, klen k))
  end.
Proof.
  rewrite <-(app_nil_r (init (enc (done ++ todo)))). destruct done as [|x d _] using rev_ind.
  - destruct todo as [|k todo]; [done|]. rewrite cursor_at_snoc. apply next_first.
  - rewrite !cursor_at_snoc, <-app_assoc. cbn [app]. destruct todo as [|k todo].
    + rewrite next_last. by destruct d.
    + rewrite cursor_at_snoc. apply next_step.
Qed.

Section walk.
Variables (t : addr) (ks : list (list Z)) (body : list Z -> M st unit) (I : list (list Z) -> st -> Prop).
Hypothesis I_list : forall todo s, I todo s -> exists it, heap s !! t = Some it /\ item_value it = Some (enc ks).
Hypothesis I_step : forall done k todo s, ks = done ++ k :: todo -> I (k :: todo) s -> wp (body k) (fun _ s' => I todo s') s.

Lemma list_fold_spec todo : forall done f s, ks = done ++ todo -> (length todo < f)%nat -> I todo s ->
  wp (list_fold f t (cursor_at done) (fun _ key _ => body key) tt) (fun _ s' => I [] s') s.
Proof using I_list I_step.
  induction todo as [|k todo IH]; intros done [|f] s Hks Hf HI; simpl in Hf; try lia; cbn [list_fold]; unfold list_data;
    destruct (I_list _ _ HI) as (it & Ht & Hv); destruct (value_list it _ Hv) as [Hd Hn]; wp_go; (eapply wp_lift; [exact Hd|]); wp_go;
    rewrite Hn, Hks.
  - eapply wp_lift; [apply (next_at done [])|]. by apply wp_ret.
  - eapply wp_lift; [apply (next_at done (k :: todo))|]. cbv beta iota. apply wp_bind. eapply wp_lift; [rewrite <-(app_nil_r (init _)); apply read_key_at|]. apply wp_bind.
    eapply wp_mono; [by apply (I_step done k todo)|]. intros [] s1 HI1. apply (IH (done ++ [k])); [by rewrite <-app_assoc|lia|done].
Qed.

Lemma foreach_key_spec s : I ks s -> wp (foreach_key t body) (fun _ s' => I [] s') s.
Proof using I_list I_step.
  intros HI. unfold foreach_key, fold_keys, list_len. destruct (I_list _ _ HI) as (it & Ht & Hv). destruct (value_list it _ Hv) as [_ Hn]. wp_go.
  rewrite Hn, Nat2Z.id. apply (list_fold_spec ks []); [done| |done]. pose proof (enc_length_le ks). lia.
Qed.
End walk.

(** ** One key *)

(** The lease to invalidate [k], if it has one, is the transaction's alone. *)
Definition sole s k tid : Prop :=
  forall l lit, bound s (mc_get_lease_key k) l lit -> item_has_q_inv_lease lit = true -> item_value lit = Some (one_entry tid).

Lemma lacks_alone s l lit tid (R : bool -> st -> Prop) :
  heap s !! l = Some lit -> item_value lit = Some (one_entry tid) -> Z.of_nat (length tid) < 256 -> R false s ->
  wp (list_lacks (Some l) tid) R s.
Proof.
  intros Hl Hv Ht HR. assert (one_entry tid = enc [tid]) as E by (unfold enc; cbn; by rewrite app_nil_r).
  destruct (value_list lit _ Hv) as [Hd Hn]. unfold list_lacks, list_data. wp_go. eapply wp_lift; [exact Hd|]. wp_go.
  rewrite Hn, E. unfold klen8. rewrite u8_small by lia.
  eapply wp_lift; [apply (trig_check_keylist_repr _ _ {[tid]})|].
  - exists [tid], []. rewrite app_nil_r. split_and!; [done|done|apply Forall_singleton; unfold key_ok; lia|by repeat constructor|set_solver].
  - rewrite decide_True by set_solver. apply wp_ret. done.
Qed.

Lemma record_released_spec it (R : unit -> st -> Prop) s : (forall es, R tt (set_events es s)) -> wp (record_released it) R s.
Proof.
  intros HR. unfold record_released. destruct (item_has_c_lease it); [wp_go; apply HR|]. destruct (item_has_o_lease it); [wp_go; apply HR|].
  destruct (item_has_q_lease it); cbn [when]; wp_go; [apply HR|]. rewrite <-(set_events_id s). apply HR.
Qed.

Definition key_and_lease k k' : Prop := k' = k \/ k' = mc_get_lease_key k.

Lemma dar_key_spec H s c tid k :
  inv H s -> Z.of_nat (length H) + 1 <= MAX_HELD -> slab_lock s = false -> sole s k tid -> Z.of_nat (length tid) < 256 ->
  wp (dar_key c tid k) (fun _ s' => inv H s' /\ steps (key_and_lease k) (key_and_lease k) s s') s.
Proof.
  intros HI HH Hlk Hso Ht. unfold dar_key. apply wp_bind. eapply wp_mono; [apply (get_spec H s k HI); [lia|done]|]. intros o s1 G1. apply wp_bind.
  eapply wp_mono; [by apply (discard_found_spec H s k o s1)|]. intros _ s2 [HI2 S2]. clear G1.
  pose proof (k_slab_lock _ _ (st_frame _ _ _ _ S2)) as Hlk2. rewrite Hlk in Hlk2. set (lk := mc_get_lease_key k).
  apply wp_bind. eapply wp_mono; [apply (get_spec H s2 lk HI2); [lia|done]|]. intros o2 s3 G3.
  assert (forall es s', inv H s' /\ steps (fun k' => k' = lk) (fun k' => k' = lk) s2 s' ->
    inv H (set_events es s') /\ steps (key_and_lease k) (key_and_lease k) s (set_events es s')) as Hend.
  { intros es s' [HI' S']. split; [exact HI'|]. apply steps_events.
    refine (steps_trans _ _ _ _ _ _ s s2 s' _ _ S2 S'); unfold key_and_lease; naive_solver. }
  pose proof (fun es => discard_found_spec H s2 lk o2 _ HI2 HH Hlk2 (got_item_events H s2 lk o2 s3 es G3)) as Hd.
  destruct o2 as [l|].
  2: { apply wp_ret. specialize (Hd (events s3)). rewrite set_events_id in Hd. apply (Hend (events s3)) in Hd. by rewrite set_events_id in Hd. }
  destruct G3 as (x & Hb & Hv & HI3 & O3). set (x1 := set_refcount (i_refcount x + 1) x) in *. pose proof (only_eq l x1 s2 s3 O3) as Hl3.
  apply wp_bind, (wp_field _ l x1 _ s3 Hl3). change (item_has_q_inv_lease x1) with (item_has_q_inv_lease x).
  assert (forall s', inv H s' /\ steps (fun k' => k' = lk) (fun k' => k' = lk) s2 s' -> inv H s' /\ steps (key_and_lease k) (key_and_lease k) s s') as Hend'.
  { intros s' HS. apply (Hend (events s')) in HS. by rewrite set_events_id in HS. }
  destruct (item_has_q_inv_lease x) eqn:Eq.
  - assert (item_value x1 = Some (one_entry tid)) as Hval.
    { change (item_value x = Some (one_entry tid)). apply (Hso l x); [|done]. apply (steps_bound _ _ s s2 lk l x S2); [|done]. apply lease_key_ne. }
    unfold _item_remove_tid_lease, _item_remove_entry_from_list. apply wp_bind, wp_bind, (lacks_alone s3 l x1); [done|done|done|].
    apply wp_bind, (wp_get_item l x1); [done|]. destruct (value_list x1 _ Hval) as [_ Hn]. unfold klen8. rewrite Hn, u8_small by lia.
    rewrite (proj2 (Z.eqb_eq _ _)) by (simpl; lia). apply wp_bind, record_released_spec. intros es. apply wp_bind_inv.
    eapply wp_mono; [apply (Hd es)|]. intros ? s4 HS. by apply Hend'.
  - apply (wp_assoc _ (fun _ => _item_remove l)), wp_bind. specialize (Hd (events s3)). rewrite set_events_id in Hd. eapply wp_mono; [exact Hd|].
    intros ? s4 HS. wp_go. by apply Hend.
Qed.

(** ** The transaction *)

(** The transaction [tid] has registered the keys [ks]; besides the pin nobody
    holds its item. *)
Record registered H s tid ks t it : Prop := Registered {
  rg_bound : bound s tid t it;
  rg_free : t ∉ H;
  rg_ref : i_refcount it = 1;
  rg_value : item_value it = Some (enc ks);
  rg_kind : item_is_pinned_kind it = false;
  rg_visible : visible s it = true
}.

(** The item of the transaction is unlinked, unpinned and released. *)
Lemma forget_spec H s tid t it :
  inv (t :: H) s -> Z.of_nat (length H) + 1 <= MAX_HELD -> slab_lock s = false -> t ∉ H -> bound s tid t it ->
  i_refcount it = 2 -> item_is_pinned_kind it = false ->
  wp (_item_unlink t;; item_unset_pinned t;; _item_remove t) (fun _ s' => inv H s' /\ steps (fun k => k = tid) (fun k => k = tid) s s') s.
Proof.
  intros HI HH Hlk Hni Hb Hr Hp. assert (Z.of_nat (length (t :: H)) <= MAX_HELD) as HH' by (simpl; lia).
  apply wp_bind. eapply wp_mono; [by apply (unlink_spec (t :: H) s t it); try apply Hb|]. intros _ s1 [HI1 O1].
  destruct (gone_flags it) as [Gl Gk]. destruct (gone_entry it) as (E1 & E2 & E3).
  assert (i_refcount (gone it) = 2) as Hg.
  { unfold gone, pin. rewrite Hp, Hr. done. }
  pose proof (only_eq t (gone it) s s1 O1) as Ht1. assert (held t H = 0) as Hh.
  { pose proof (held_nonneg t H). destruct (decide (0 < held t H)) as [Hx|]; [|lia]. by apply held_elem in Hx. }
  apply wp_bind. eapply wp_mono; [apply (unpin_spec (t :: H) s1 HI1 HH' t (gone it) Ht1); [rewrite held_cons_eq; lia|by left]|].
  intros _ s2 (HI2 & x & Hx & ->). set (it2 := set_refcount (i_refcount (gone it) + -1) (gone it)). set (s2 := add_refs (-1) t (gone it) x s1) in *.
  assert (only t it2 s1 s2) as O2 by (split; [by apply frame_same|done]). pose proof (only_eq t it2 s1 s2 O2) as Ht2.
  pose proof (only_trans t _ _ s s1 s2 O1 O2) as O12.
  destruct (dropped_fields it2) as (D1 & _). destruct (dropped_entry it2) as (E4 & E5 & E6).
  eapply wp_mono; [apply (remove_spec (t :: H) H s2 t it2 HI2 HH'); try done|].
  - intros Hx1. change (item_is_linked (gone it) = true) in Hx1. congruence.
  - intros _ _. apply (homed_frame s s2 t it); [apply O12|exact (gone_respool (cfg s) it)|by apply (inv_homed (t :: H) s t it HI); apply Hb].
  - by rewrite (k_slab_lock _ _ (proj1 O12)).
  - intros _ s3 [HI3 O3]. split; [done|]. apply (gone_steps (t :: H) s s3 tid t it (dropped it2) HI Hb); [by apply (only_trans t _ _ s s2 s3 O12)|..].
    + rewrite D1. exact Gl.
    + rewrite E5. exact Gk.
    + rewrite E6. exact E3.
    + rewrite E4. exact E1.
Qed.

Lemma wp_assoc3 (m1 m2 m3 : M st unit) {A} (m : M st A) Q s : wp ((m1;; m2;; m3);; m) Q s -> wp (m1;; m2;; m3;; m) Q s.
Proof. unfold wp, mbind, M_bind. destruct (m1 s) as [[? s1]|]; [|done]. by destruct (m2 s1) as [[? s2]|]. Qed.

(** The keys [ks], their leases, and the transaction. *)
Definition ended ks k' : Prop := exists k, k ∈ ks /\ key_and_lease k k'.
Definition ended_trans tid ks k' : Prop := k' = tid \/ ended ks k'.

(** What the names of keys, leases and transactions must not do. *)
Record apart tid ks : Prop := Apart {
  ap_nodup : NoDup ks;
  ap_keys : forall k k', k ∈ ks -> k' ∈ ks -> k <> mc_get_lease_key k';
  ap_tid : ~ ended ks tid;
  ap_len : Z.of_nat (length tid) < 256
}.

Lemma lease_key_inj k k' : mc_get_lease_key k = mc_get_lease_key k' -> k = k'.
Proof. unfold mc_get_lease_key. intros E. by apply app_inv_head in E. Qed.

Lemma apart_next tid done k todo : apart tid (done ++ k :: todo) -> ~ ended done (mc_get_lease_key k).
Proof.
  intros [Nd Ak _ _] (k' & Hk' & [E|E]).
  - apply (Ak k' k); [set_solver|set_solver|done].
  - apply lease_key_inj in E as <-. apply NoDup_app in Nd as (_ & Hd & _). apply (Hd k Hk'). set_solver.
Qed.

Lemma ended_snoc done k k' : ended (done ++ [k]) k' <-> ended done k' \/ key_and_lease k k'.
Proof. unfold ended. setoid_rewrite elem_of_app. setoid_rewrite list_elem_of_singleton. naive_solver. Qed.

Lemma dar_loop_spec H s c tid ks t it :
  inv (t :: H) s -> Z.of_nat (length H) + 2 <= MAX_HELD -> slab_lock s = false -> apart tid ks ->
  bound s tid t it -> item_value it = Some (enc ks) -> (forall k, k ∈ ks -> sole s k tid) ->
  wp (foreach_key t (dar_key c tid)) (fun _ s' => inv (t :: H) s' /\ steps (ended ks) (ended ks) s s') s.
Proof.
  intros HI HH Hlk Hap (Ht & Hl & Hk) Hv Hso.
  set (I := fun todo s' => inv (t :: H) s' /\ exists done, ks = done ++ todo /\ steps (ended done) (ended done) s s').
  eapply wp_mono; [apply (foreach_key_spec t ks (dar_key c tid) I)|].
  - intros todo s' (_ & done & -> & S). exists it. split; [|done]. apply (st_rest _ _ _ _ S); [done|]. intros _ (k & Hin & Hx).
    apply (ap_tid _ _ Hap). exists k. split; [set_solver|]. by rewrite <-Hk.
  - intros d0 k todo s' _ (HI' & done & Hks & S). clear d0. rewrite Hks in Hap, Hso.
    eapply wp_mono; [apply (dar_key_spec (t :: H) s' c tid k HI'); [simpl; lia| | |apply Hap]|].
    + by rewrite (k_slab_lock _ _ (st_frame _ _ _ _ S)).
    + intros l x Hb. apply (Hso k ltac:(set_solver) l x). apply (steps_bound _ _ s s' _ l x S); [by apply (apart_next tid done k todo)|done].
    + intros _ s2 [HI2 S2]. split; [done|]. exists (done ++ [k]). split; [by rewrite <-app_assoc|].
      refine (steps_trans _ _ _ _ _ _ s s' s2 _ _ S S2); intros k'; rewrite ended_snoc; tauto.
  - split; [done|]. exists []. split; [done|]. apply steps_refl. intros k' (k & Hin & _). set_solver.
  - intros _ s' (HI' & done & Hks & S). rewrite app_nil_r in Hks. by subst done.
Qed.

(** C4: [dar], which ends a transaction that invalidates.  When the transaction has
    registered the keys [ks] and shares none of their Q leases, all of them are
    processed and the answer is OK: afterwards no key of the transaction has a
    value, none is leased, so the next reader can lease it, and the transaction is
    not known any more; every other key serves what it did and no reader of an
    item is disturbed.  The references of the transaction are given back. *)
Theorem delete_and_release_ends H s c tid ks t it
  (HI : inv H s) (HH : Z.of_nat (length H) + 2 <= MAX_HELD) (Hc : cache_lock s = false) (Hlk : slab_lock s = false)
  (HR : registered H s tid ks t it) (Hap : apart tid ks) (Hso : forall k, k ∈ ks -> sole s k tid) :
  wp (item_delete_and_release c tid) (fun r s' => r = MC_OK /\ inv H s' /\ cache_lock s' = false /\
    steps (ended_trans tid ks) (ended_trans tid ks) s s') s.
Proof.
  destruct HR as [Hb Hni Hr Hv Hp Hvis]. unfold item_delete_and_release. apply wp_bind, wp_lock_cache; [done|].
  set (s0 := set_cache_lock true s). apply wp_bind. eapply wp_mono; [apply (get_spec H s0 tid HI); [lia|done]|].
  intros o s1 G. pose proof (got_steps H s0 tid o s1 HI G) as S1. pose proof (st_frame _ _ _ _ S1) as F1.
  destruct o as [b|].
  2: { exfalso. destruct G as [_ [(_ & _ & Hn)|(b & x & Hx & Hvx & _)]]; [by apply (Hn t it)|].
       destruct (bound_inj H s0 tid b t x it HI Hx Hb) as [-> ->]. change (visible s0 it) with (visible s it) in Hvx. congruence. }
  destruct G as (x & Hx & _ & HI1 & O). destruct (bound_inj H s0 tid b t x it HI Hx Hb) as [-> ->]. clear Hx. rewrite Hr in O.
  set (it1 := set_refcount (1 + 1) it) in *. pose proof (only_eq t it1 s0 s1 O) as Ht1. destruct Hb as (Ht & Hl & Hk).
  apply wp_bind. eapply wp_mono; [apply (dar_loop_spec H s1 c tid ks t it1 HI1 HH); try done|].
  - by rewrite (k_slab_lock _ _ F1).
  - intros k Hin l y Hy. apply (Hso k Hin l y). apply (steps_bound _ _ s0 s1 _ l y S1); [|done]. intros E. apply (ap_tid _ _ Hap). exists k. split; [done|by right].
  - intros _ s2 [HI2 S2]. pose proof (st_frame _ _ _ _ S2) as F2.
    assert (bound s2 tid t it1) as Hb2.
    { split; [|done]. apply (st_rest _ _ _ _ S2); [done|]. intros _. change (i_key it1) with (i_key it). rewrite Hk. apply Hap. }
    apply wp_assoc3, wp_bind.
    eapply wp_mono; [apply (forget_spec H s2 tid t it1 HI2); try done; [lia|by rewrite (k_slab_lock _ _ F2), (k_slab_lock _ _ F1)]|].
    intros _ s3 [HI3 S3]. wp_go. apply wp_unlock_cache.
    { change (cache_lock s3 = true). by rewrite (k_cache_lock _ _ (st_frame _ _ _ _ S3)), (k_cache_lock _ _ F2), (k_cache_lock _ _ F1). }
    wp_go. split; [done|]. split; [exact HI3|]. split; [done|]. apply (steps_locked _ _ _ _ Hc), steps_events.
    refine (steps_trans _ _ _ _ _ _ s0 s1 s3 _ _ S1 (steps_trans _ _ (ended_trans tid ks) _ _ (ended_trans tid ks) s1 s2 s3 _ _ S2 S3));
      unfold ended_trans, nokey; intros k'; tauto.
Qed.

(** A transaction that has quarantined one key can end. *)
Lemma quarantined_registered H s key tid : quarantined H s key tid -> exists t it, registered H s tid [key] t it.
Proof.
  intros [_ (t & it & Nt & [B R V K _ Vi P])]. exists t, it. split; try done; [|by apply P].
  rewrite V. unfold one_entry, enc. cbn. by rewrite app_nil_r.
Qed.

Lemma quarantined_sole H s key tid : inv H s -> quarantined H s key tid -> sole s key tid.
Proof.
  intros HI [(l & lit & _ & L) _] b x Hb _. destruct (bound_inj H s _ b l x lit HI Hb (li_bound _ _ _ _ _ _ _ L)) as [_ ->]. apply L.
Qed.

Lemma outcome_run H s c key tid : quarantine_outcome H s c key tid ->
  match item_quarantine_and_register c tid key s with Some _ => true | None => false end = true ->
  let s' := run (item_quarantine_and_register c tid key) s in
  inv H s' /\ cache_lock s' = false /\ slab_lock s' = false /\ quarantined H s' key tid.
Proof.
  unfold quarantine_outcome, run. destruct (item_quarantine_and_register c tid key s) as [[r s']|]; [|done].
  by intros (_ & H1 & H2 & H3 & H4 & _) _.
Qed.

Definition ex_quarantined : st := run (item_quarantine_and_register ex_conn ex_tid ex_key) ex_leased.

Lemma ex_quarantined_ok : inv [(0%nat, 32)] ex_quarantined /\ cache_lock ex_quarantined = false /\ slab_lock ex_quarantined = false /\
  quarantined [(0%nat, 32)] ex_quarantined ex_key ex_tid.
Proof.
  destruct ex_leased_ok as [HI _].
  pose proof (quarantine_spec _ ex_leased ex_conn ex_key ex_tid HI ltac:(by vm_compute) ltac:(by vm_compute) ex_quarantinable) as Hq.
  exact (outcome_run _ _ _ _ _ Hq ex_quarantine_returns).
Qed.

Lemma ex_apart : apart ex_tid [ex_key].
Proof.
  split.
  - apply NoDup_singleton.
  - intros k k' ->%list_elem_of_singleton ->%list_elem_of_singleton. done.
  - intros (k & ->%list_elem_of_singleton & [E|E]); done.
  - by vm_compute.
Qed.

Lemma delete_and_release_ends_witness :
  wp (item_delete_and_release ex_conn ex_tid) (fun r s' => r = MC_OK /\ inv [(0%nat, 32)] s' /\ cache_lock s' = false /\
    steps (ended_trans ex_tid [ex_key]) (ended_trans ex_tid [ex_key]) ex_quarantined s') ex_quarantined.
Proof.
  destruct ex_quarantined_ok as (HI & Hc & Hl & Hq). destruct (quarantined_registered _ _ _ _ Hq) as (t & it & HR).
  assert (Z.of_nat (length [(0%nat, 32)]) + 2 <= MAX_HELD) as HH by by vm_compute.
  assert (forall k, k ∈ [ex_key] -> sole ex_quarantined k ex_tid) as Hs.
  { intros k ->%list_elem_of_singleton. exact (quarantined_sole _ _ _ _ HI Hq). }
  exact (delete_and_release_ends _ ex_quarantined ex_conn ex_tid [ex_key] t it HI HH Hc Hl HR ex_apart Hs).
Defined.
