(* ===== verification/RollbackOk.v ===== *)
(** * A transaction that is released leaves the values as they were

    [item_release]: every key of the transaction loses its Q lease and the version
    the transaction was preparing, and the transaction is forgotten; no value
    changes. *)

From stdpp Require Import gmap list.
From S2P Require Import Prelude Util Time Lease Keylist Assoc Item State Slabs Items IQ Inv SlabsOk ItemsOk StoreOk IQOk QuarantineOk ReleaseOk.
Open Scope Z_scope.
Implicit Types (s : st) (a l t : addr) (it : item) (H : list addr) (k key tid : list Z) (ks : list (list Z)) (c : conn).

(** ** One key *)


Lemma version_lease_ne k k' : mc_get_version_key k <> mc_get_lease_key k'.
Proof. done. Qed.








(** ** The transaction *)



Lemma version_key_inj k k' : mc_get_version_key k = mc_get_version_key k' -> k = k'.
Proof. unfold mc_get_version_key. intros E. by apply app_inv_head in E. Qed.





