(* ===== verification/SwapOk.v ===== *)
(** * Swapping a value in needs the lease

    [item_swap_and_release], with which a transaction that has read a key under a Q
    lease writes the new value: only the holder of the token of the lease gets to
    store, and the lease is consumed. *)

From S2P Require Import Prelude Util Time Lease Assoc Item State Slabs Items IQ Inv SlabsOk ItemsOk StoreOk IQOk.
Open Scope Z_scope.
Implicit Types (s : st) (a l : addr) (it : item) (H : list addr) (k : list Z) (c : conn).

(** The item replaces what is there, or is linked. *)
Lemma swap_in_spec H s a it c :
  inv H s -> Z.of_nat (length H) + 2 <= MAX_HELD -> slab_lock s = false -> linkable H s a it -> i_nbyte it <> 0 ->
  wp (oit ← _item_get (i_key it);
      (match oit with
       | None => _item_store a REQ_SET c true;; mret tt
       | Some oa => _item_replace oa a
       end);;
      opt_remove oit) (fun _ s' => inv H s' /\ stored s a it s') s.
Proof.
  intros HI HH Hlk Hla Hn. apply wp_bind. eapply wp_mono; [apply (get_spec H s (i_key it) HI); [lia|done]|]. intros o s1 G.
  destruct (get_serves H s _ o s1 HI G) as (F1 & Hs1 & Hr1 & _). destruct (got_under H s _ o s1 HI G) as (HI1 & Hu & _).
  pose proof (got_linkable H s _ o s1 a it HI G F1 Hla) as Hla1. pose proof (got_unaged H s _ o s1 a G) as Hag.
  pose proof (k_slab_lock _ _ F1) as Hlk1. rewrite Hlk in Hlk1. apply wp_bind. destruct o as [b|]; simpl in HI1, Hla1.
  - destruct Hu as (oit & Hb). eapply wp_mono; [apply (put_over_spec (b :: H) s1 a it b oit); try done; simpl; lia|].
    intros _ s2 (HI2 & S2 & O2 & _). apply (stored_from s s1 a it s2 F1 Hs1) in S2; [|by auto|done]. pose proof (proj1 S2) as F2.
    change (opt_remove (Some b)) with (match Some b with Some b => _item_remove2 b true | None => mret tt end).
    eapply wp_mono; [apply (drop_old_spec H s2 (Some b) HI2); [lia|by rewrite (k_slab_lock _ _ F2)|done]|].
    intros _ s3 (HI3 & F3 & Hs3 & Hr3 & Hh3 & _ & Hu3). split; [done|]. apply (stored_trans s s2); try done.
    apply Hh3. intros [= ->]. destruct Hb as (Hb & Hl & _). pose proof (lk_item _ _ _ _ Hla1). pose proof (lk_new _ _ _ _ Hla1). congruence.
  - apply wp_bind. eapply wp_mono; [apply (store_set_spec H s1 a it c HI1); try done; lia|]. intros r s2 (_ & HI2 & S2). wp_go.
    split; [done|]. by apply (stored_from s s1 a it s2 F1 Hs1).
Qed.

Lemma wp_assoc_tail {A B} (m : M st A) (f g : A -> M st unit) (rest : M st B) Q s :
  wp ((m ≫= fun o => f o;; g o);; rest) Q s -> wp (m ≫= fun o => f o;; g o;; rest) Q s.
Proof. unfold wp, mbind, M_bind. destruct (m s) as [[o s1]|]; [|done]. by destruct (f o s1) as [[[] s2]|]. Qed.

(** What a swap that stores does. *)
Definition swapped s a it s' : Prop :=
  frame s s' /\ (forall b, b <> a -> reads s s' b) /\
  exists cas, let it' := linked_item cas (time_now (clk s)) it in
    heap s' !! a = Some it' /\
    forall k e, serves s' k e <->
      (k <> i_key it /\ k <> mc_get_lease_key (i_key it) /\ serves s k e) \/
      (k = i_key it /\ visible s it' = true /\ entry_of it' = e).

Definition lease_of it k : Prop := k = mc_get_lease_key (i_key it).

Lemma swapped_from s s1 a it s' : steps (lease_of it) (lease_of it) s s1 -> stored s1 a it s' -> swapped s a it s'.
Proof.
  intros [F S B R _] (F1 & [R1 _] & cas & Ha & Hs). split; [by transitivity s1|]. split.
  - intros b Hb. apply (reads_trans s s1); auto.
  - exists cas. rewrite (k_clk _ _ F) in *. split; [done|]. intros k e. rewrite Hs, S, (visible_frame s s1) by done.
    unfold lease_of. pose proof (lease_key_ne (i_key it)). naive_solver.
Qed.

Lemma swapped_locked s a it s' : cache_lock s = false -> swapped (set_cache_lock true s) a it s' -> swapped s a it (set_cache_lock false s').
Proof. intros Hc (F & R & D). split; [by apply frame_locked|exact (conj R D)]. Qed.

(** What the token decides. *)
Lemma token_matches_spec H s k o s1 c (R : bool -> st -> Prop) :
  inv H s -> got_item H s (mc_get_lease_key k) o s1 -> lease_space s k ->
  (holds_token s k (c_lease_token c) -> is_Some o -> R true s1) -> (~ holds_token s k (c_lease_token c) -> R false s1) ->
  wp (token_matches c o) R s1.
Proof.
  intros HI G Hsp HT HF. set (lk := mc_get_lease_key k) in *. unfold token_matches. destruct o as [l|].
  - destruct G as (x & Hb & Hv & HI1 & O). set (x1 := set_refcount (i_refcount x + 1) x) in *. pose proof (only_eq l x1 s s1 O) as Hl1.
    apply wp_bind, (lease_value_spec s1 l x1 _ Hl1).
    { destruct Hb as (? & ? & ?). apply (inv_lease_value (l :: H) s1 l x1 HI1 Hl1); [done|]. by apply (Hsp l x). }
    apply wp_ret. change (token_of x1) with (token_of x). destruct (Z.eqb_spec (token_of x) (c_lease_token c)) as [E|E].
    + apply HT; [by exists l, x|eauto].
    + apply HF. intros (l' & y & Hy & _ & Ht). destruct (bound_inj H s lk l l' x y HI Hb Hy) as [_ ->]. congruence.
  - apply wp_ret, HF. intros (l & x & Hb & Hv & _). destruct G as [_ [(_ & _ & Hn)|(l' & y & Hy & Hvy & _)]]; [by apply (Hn l x)|].
    destruct (bound_inj H s lk l l' x y HI Hb Hy) as [_ ->]. congruence.
Qed.

(** C6: [sar] stores exactly when the lease linked under the lease key carries the
    token of the connection.  Then the lease is consumed and the key serves the new
    item, whatever it served before; with an item without bytes the lease is
    consumed as well and nothing is stored.  Without the token the answer is
    NOT_FOUND and no key changes.  Other keys and readers are not touched. *)
Theorem swap_needs_token H s a it c
  (HI : inv H s) (HH : Z.of_nat (length H) + 2 <= MAX_HELD) (Hs : slab_lock s = false) (Hc : cache_lock s = false)
  (Hla : linkable H s a it) (Hsp : lease_space s (i_key it)) :
  wp (item_swap_and_release a c) (fun r s' => inv H s' /\ cache_lock s' = false /\
    ((r = STORED /\ i_nbyte it <> 0 /\ holds_token s (i_key it) (c_lease_token c) /\ swapped s a it s') \/
     (r = STORE_ERROR /\ i_nbyte it = 0 /\ holds_token s (i_key it) (c_lease_token c) /\ steps (lease_of it) (lease_of it) s s') \/
     (r = NOT_FOUND /\ ~ holds_token s (i_key it) (c_lease_token c) /\ steps (lease_of it) nokey s s'))) s.
Proof.
  pose proof (lk_item _ _ _ _ Hla) as Ha. unfold item_swap_and_release. apply wp_bind, wp_lock_cache; [done|]. set (s0 := set_cache_lock true s).
  apply wp_bind, (wp_get_item a it); [done|]. set (lk := mc_get_lease_key (i_key it)). apply wp_bind.
  eapply wp_mono; [apply (get_spec H s0 lk HI); [lia|done]|]. intros o s1 G.
  pose proof (got_drop_spec H s0 lk o s1 HI ltac:(lia) Hs G) as Hdrop. pose proof (discard_found_spec H s0 lk o s1 HI ltac:(lia) Hs G) as Hd.
  apply wp_bind, (token_matches_spec H s0 (i_key it) o s1 c _ HI G Hsp).
  - intros Ht [l ->]. apply (wp_assoc _ (fun _ => _item_remove l)), wp_bind. eapply wp_mono; [exact Hd|]. clear Hd Hdrop G s1. intros _ s1 [HI1 S1].
    pose proof (st_frame _ _ _ _ S1) as F1. wp_go. set (s2 := set_events _ s1).
    assert (steps (lease_of it) (lease_of it) s0 s2) as S2 by by apply steps_events.
    destruct (Z.eqb_spec (i_nbyte it) 0) as [Hn|Hn].
    + wp_go. apply wp_unlock_cache; [change (cache_lock s1 = true); by rewrite (k_cache_lock _ _ F1)|]. wp_go.
      split; [exact HI1|]. split; [done|]. right. left. split_and!; [done|done|exact Ht|]. by apply steps_locked.
    + pose proof (lk_new _ _ _ _ Hla) as Hnew.
      assert (linkable H s2 a it) as Hla2.
      { apply (linkable_frame H s0); [apply S2| |by destruct Hla]. rewrite (st_rest _ _ _ _ S2 a it Ha) by congruence. done. }
      apply wp_assoc_tail, wp_bind. eapply wp_mono; [apply (swap_in_spec H s2 a it c HI1 HH)|].
      { change (slab_lock s1 = false). by rewrite (k_slab_lock _ _ F1). }
      { done. } { done. }
      intros _ s3 [HI3 S3]. apply (swapped_from s0 s2 a it s3 S2) in S3. apply wp_bind, wp_unlock_cache; [by rewrite (k_cache_lock _ _ (proj1 S3))|]. apply wp_ret.
      split; [exact HI3|]. split; [done|]. left. split_and!; [done|done|exact Ht|]. by apply swapped_locked.
  - intros Ht. assert (wp (opt_remove o;; unlock_cache;; mret NOT_FOUND) (fun r s' => inv H s' /\ cache_lock s' = false /\
      r = NOT_FOUND /\ steps (lease_of it) nokey s s') s1) as Hw.
    { apply wp_bind. eapply wp_mono; [exact Hdrop|]. intros _ s2 [HI2 S2]. apply wp_bind, wp_unlock_cache; [by rewrite (k_cache_lock _ _ (st_frame _ _ _ _ S2))|].
      apply wp_ret. split; [exact HI2|]. split; [done|]. split; [done|]. by apply steps_locked. }
    destruct o as [l|]; (eapply wp_mono; [exact Hw|]); intros r s2 (HI2 & Hc2 & -> & S2); (split; [done|]; split; [done|]); right; right; done.
Qed.

(** The item of [ex_filled] is ready and the key is leased. *)
Definition ex_lease : addr := (1%nat, 32).
Definition ex_swap : st := run (iqget_lease ex_conn ex_key 0 None) ex_filled.
Definition ex_holder : conn := Conn REQ_SET 5 [].

Lemma ex_swap_ok : inv [ex_lease; ex_a] ex_swap /\ leased ex_filled ex_key 5 ex_lease ex_swap.
Proof.
  destruct ex_filled_inv as (HI & _). assert (leasable ex_filled ex_key) as [L1 L2 L3 L4 L5].
  { split; [split; [by vm_compute|right; right; by vm_compute|by vm_compute]|by vm_compute|exists 2; by vm_compute|split; [right|left]; by vm_compute|by vm_compute]. }
  pose proof (iqget_lease_spec [ex_a] ex_filled ex_conn ex_key 0 HI ltac:(by vm_compute) L1 L2 L3 L4 L5) as Hw.
  assert (fst <$> iqget_lease ex_conn ex_key 0 None ex_filled = Some (IqGet IQ_LEASE (Some ex_lease) (Some 5) (Some ex_lease))) as He by (vm_compute; reflexivity).
  apply run_result in He. apply (wp_result _ _ _ _ _ Hw) in He. destruct He as (_ & _ & _ & HI' & HL).
  assert (lease_token ex_filled = 5) as Ht by (vm_compute; reflexivity). rewrite Ht in HL. exact (conj HI' HL).
Qed.

Lemma ex_swap_linkable : linkable [ex_lease; ex_a] ex_swap ex_a ex_it.
Proof.
  split; try by vm_compute.
  - unfold homed. apply (bool_decide_unpack _). vm_compute. exact I.
  - right. by vm_compute.
Qed.

Lemma swap_needs_token_witness :
  wp (item_swap_and_release ex_a ex_holder) (fun r s' => r = STORED /\ inv [ex_lease; ex_a] s' /\ swapped ex_swap ex_a ex_it s') ex_swap.
Proof.
  destruct ex_swap_ok as (HI & _ & _ & _ & _ & _ & (l & lit & Hb & Hv & Hi & Ht) & _).
  assert (Z.of_nat (length [ex_lease; ex_a]) + 2 <= MAX_HELD) as HH by by vm_compute.
  assert (slab_lock ex_swap = false) as Hs by (vm_compute; reflexivity). assert (cache_lock ex_swap = false) as Hc by (vm_compute; reflexivity).
  assert (i_key ex_it = ex_key) as Hk by (vm_compute; reflexivity).
  assert (lease_space ex_swap (i_key ex_it)) as Hsp.
  { rewrite Hk. intros b x Hx. destruct (bound_inj _ ex_swap _ b l x lit HI Hx Hb) as [_ ->]. exact (i_lease_holder lit Hi). }
  assert (i_nbyte ex_it <> 0) as Hn by (vm_compute; discriminate).
  refine (wp_mono _ _ _ _ (swap_needs_token _ ex_swap ex_a ex_it ex_holder HI HH Hs Hc ex_swap_linkable Hsp) _).
  intros r s' (HI' & _ & [(Hr & _ & _ & Hw)|[(_ & H0 & _)|(_ & Hno & _)]]).
  - exact (conj Hr (conj HI' Hw)).
  - destruct (Hn H0).
  - destruct Hno. rewrite Hk. exists l, lit. split; [exact Hb|]. split; [exact Hv|exact Ht].
Defined.
