(* ===== verification/COOk.v ===== *)
(** * Correctness of the sessions

    A session that a conflicting writer has aborted is told so by its next
    command, whatever it is, and its item is removed; a session that does not
    exist cannot commit. *)

From stdpp Require Import functions.
From S2P Require Import Prelude Util Hash Time Lease Keylist Assoc Item State Slabs Items IQ CO Inv SlabsOk ItemsOk StoreOk IQOk.
Open Scope Z_scope.
Implicit Types (a b l : addr) (n : nat) (it lit : item) (s : st) (k : list Z).

(** The item of a session: linked under its id and pinned by its creation. *)
Record session H s sid a it : Prop := Session {
  ss_bound : bound s sid a it;
  ss_visible : visible s it = true;
  ss_kind : item_is_pinned_kind it = false;
  ss_pinned : i_refcount it = held a H + 1
}.

(** ** Removing a session *)

Lemma gone_session it : item_is_pinned_kind it = false -> 0 < i_refcount it -> gone it = unlinked it.
Proof.
  intros Hk Hr. unfold gone, pin. rewrite Hk, Z.sub_0_r. replace (set_refcount (i_refcount it) it) with it by by destruct it.
  change (i_refcount (unlinked it)) with (i_refcount it). by rewrite (proj2 (Z.eqb_neq _ _)) by lia.
Qed.

Lemma remove_session_spec H s sid a it :
  inv (a :: H) s -> Z.of_nat (length H) + 1 <= MAX_HELD -> slab_lock s = false ->
  bound s sid a it -> item_is_pinned_kind it = false -> i_refcount it = held a (a :: H) + 1 ->
  wp (remove_session a) (fun _ s' => inv H s' /\ steps (fun k => k = sid) (fun k => k = sid) s s') s.
Proof.
  intros HI HH Hlk Hb Hk Hr. unfold remove_session. destruct Hb as (Ha & Hl & Hkey).
  assert (Z.of_nat (length (a :: H)) <= MAX_HELD) as HH1 by (simpl; lia).
  rewrite held_cons_eq in Hr. pose proof (held_nonneg a H) as Hnn.
  apply wp_bind. eapply wp_mono; [by apply (unlink_spec (a :: H) s a it)|]. intros _ s1 [HI1 O1].
  rewrite (gone_session it) in O1 by (try done; lia). destruct (unlinked_flags it) as (U1 & U2 & U3 & U4).
  pose proof (only_eq a _ s s1 O1) as Ha1. apply wp_bind.
  eapply wp_mono; [apply (unpin_spec (a :: H) s1 HI1 HH1 a (unlinked it) Ha1); [rewrite held_cons_eq; exact Hr|by left]|].
  intros _ s2 (HI2 & x & Hx & ->). set (it2 := set_refcount (i_refcount (unlinked it) + -1) (unlinked it)).
  assert (only a it2 s1 (add_refs (-1) a (unlinked it) x s1)) as O2 by (split; [by apply frame_same|done]).
  eapply wp_mono; [apply (remove_spec (a :: H) H _ a it2 HI2 HH1)|]; try done.
  - apply lookup_insert_eq.
  - intros Hx2. change (item_is_linked (unlinked it) = true) in Hx2. congruence.
  - intros _ _. apply (homed_frame s _ a it); [transitivity s1; [apply O1|apply O2]| |by apply (inv_homed (a :: H) s)].
    apply (unlinked_respool (cfg s) it (i_refcount it + -1)).
  - change (slab_lock s1 = false). by rewrite (k_slab_lock _ _ (proj1 O1)).
  - intros _ s3 [HI3 O3]. split; [done|]. destruct (dropped_fields it2) as (D1 & _). destruct (dropped_entry it2) as (E1 & E2 & E3).
    assert (only a (dropped it2) s s3) as O by (eapply only_trans; [exact O1|]; eapply only_trans; [exact O2|exact O3]).
    apply (gone_steps (a :: H) s s3 sid a it (dropped it2)); try done; [by rewrite D1|].
    rewrite E1. change (entry_of (unlinked it) = entry_of it). unfold entry_of, item_data_raw, data_pos, item_cas, unlinked. by flags.
Qed.

(** ** Commands of an aborted session *)

(** The commands a session can send; a value comes as an item.  [SessOqincr] is
    oqincr and oqdecr, [SessOqappend] oqappend and oqprepend, by the type of the
    request. *)
Inductive sess_cmd :=
  | SessCiget (key : list Z) (token : Z) | SessOqread (key : list Z) | SessOqreg (key : list Z)
  | SessOqswap (a : addr) | SessOqwrite (a : addr) | SessOqincr (key : list Z) (delta : Z) | SessOqappend (a : addr)
  | SessDcommit | SessValidate | SessUnlease.

Definition sess_do (c : conn) (sid : list Z) (cmd : sess_cmd) : M st item_co_result :=
  match cmd with
  | SessCiget key token => r ← item_ciget c sid key token; mret (cg_status r)
  | SessOqread key => r ← item_oqread c sid key; mret r.1
  | SessOqreg key => item_oqreg c sid key
  | SessOqswap a => item_oqswap c sid a
  | SessOqwrite a => item_oqwrite c sid a
  | SessOqincr key delta => r ← item_oqincr_oqdecr c key delta sid; mret r.1
  | SessOqappend a => item_oqappend_oqprepend c a
  | SessDcommit => item_dcommit c sid
  | SessValidate => item_validate c sid
  | SessUnlease => item_co_unlease c sid
  end.

(** The item that comes with the command exists; an append finds its session in
    the connection. *)
Definition sess_arg s (c : conn) (sid : list Z) cmd : Prop :=
  match cmd with
  | SessOqswap a | SessOqwrite a => is_Some (heap s !! a)
  | SessOqappend a => is_Some (heap s !! a) /\ c_tid c = sid
  | _ => True
  end.

(** The keys the command looks up: an increment reads back the pending version. *)
Definition sess_looks (sid : list Z) cmd (k : list Z) : Prop :=
  k = sid \/ match cmd with SessOqincr key _ => k = mc_get_version_key key | _ => False end.

Lemma get_session_spec H s sid a it :
  inv H s -> Z.of_nat (length H) <= MAX_HELD -> slab_lock s = false -> session H s sid a it ->
  wp (_item_get sid) (fun o s1 => o = Some a /\ inv (a :: H) s1 /\ steps (fun k => k = sid) nokey s s1 /\
    bound s1 sid a (set_refcount (i_refcount it + 1) it)) s.
Proof.
  intros HI HH Hlk [Hb Hv Hk Hr]. eapply wp_mono; [by apply (get_spec H s sid)|]. intros o s1 G.
  pose proof (got_steps H s sid o s1 HI G) as S1. destruct o as [b|].
  - destruct G as (x & Hx & _ & HI1 & O). destruct (bound_inj H s sid b a x it HI Hx Hb) as [-> ->].
    split; [done|]. split; [done|]. split; [done|]. destruct Hb as (_ & Hl & Hkey). split; [by apply (only_eq a _ s)|done].
  - exfalso. destruct (get_serves H s sid None s1 HI G) as (_ & _ & _ & Hn). apply (Hn (entry_of it)). by exists a, it.
Qed.

(** The session is looked up, found aborted and removed. *)
Lemma drop_session_spec H s sid a it (R : option addr -> bool -> st -> Prop) :
  inv H s -> Z.of_nat (length H) + 1 <= MAX_HELD -> slab_lock s = false -> session H s sid a it ->
  i_sess_status it = ABORT ->
  (forall s1, wp (remove_session a) (fun _ s' => inv H s' /\ steps (fun k => k = sid) (fun k => k = sid) s s') s1 ->
     R (Some a) true s1) ->
  wp (_item_get sid) (fun o s1 => wp (sess_aborted o) (R o) s1) s.
Proof.
  intros HI HH Hlk HS Hab HR. eapply wp_mono; [apply (get_session_spec H s sid a it); try done; lia|].
  intros o s1 (-> & HI1 & S1 & Hb). destruct HS as [_ _ Hk Hr].
  unfold sess_aborted, test. eapply wp_field; [apply Hb|]. cbn [i_sess_status set_refcount]. rewrite Hab, Z.eqb_refl.
  apply HR. eapply wp_mono; [apply (remove_session_spec H s1 sid a (set_refcount (i_refcount it + 1) it) HI1 HH)|]; try done.
  - by rewrite (k_slab_lock _ _ (st_frame _ _ _ _ S1)).
  - rewrite held_cons_eq. change (i_refcount it + 1 = held a H + 1 + 1). lia.
  - intros _ s2 [HI2 S2]. split; [done|].
    refine (steps_trans _ _ _ _ _ _ s s1 s2 _ _ S1 S2); unfold nokey; naive_solver.
Qed.

Definition removed H s sid s' : Prop := inv H s' /\ steps (fun k => k = sid) (fun k => k = sid) s s'.

Lemma live_session_spec H s sid a it count :
  inv H s -> Z.of_nat (length H) + 1 <= MAX_HELD -> slab_lock s = false -> session H s sid a it ->
  i_sess_status it = ABORT ->
  wp (live_session sid count) (fun live s' => live = false /\ removed H s sid s') s.
Proof.
  intros HI HH Hlk HS Hab. unfold live_session. wp_go.
  eapply wp_mono; [apply (drop_session_spec H s sid a it (fun o ab s1 => o = Some a /\ ab = true /\
    wp (remove_session a) (fun _ s' => removed H s sid s') s1) HI HH Hlk HS Hab); done|].
  cbv beta. intros o s1 Hw. wp_go. eapply wp_mono; [exact Hw|]. cbv beta. intros ab s2 (-> & -> & Hrm). wp_go.
  eapply wp_mono; [exact Hrm|]. intros _ s3 [HI3 S3]. destruct count; cbn [when]; wp_go; (split; [done|]);
    (split; [exact HI3|]); [by apply steps_events|done].
Qed.

(** What the commands that look the session up themselves do. *)
Lemma end_session_spec H s sid a it (r : item_co_result) (m : addr -> M st item_co_result)
    (R : item_co_result -> st -> Prop) :
  inv H s -> Z.of_nat (length H) + 1 <= MAX_HELD -> slab_lock s = false -> session H s sid a it ->
  i_sess_status it = ABORT -> (forall s', removed H s sid s' -> R CO_ABORT s') ->
  wp (_item_get sid) (fun o s1 => wp (sess_aborted o) (fun ab s2 =>
    wp (match o with
        | None => mret r
        | Some b => if (ab : bool) then remove_session b;; record (ThreadIncr "sess_abort");; mret CO_ABORT else m b
        end) R s2) s1) s.
Proof.
  intros HI HH Hlk HS Hab HR. apply (drop_session_spec H s sid a it _ HI HH Hlk HS Hab). intros s1 Hw. apply wp_bind.
  eapply wp_mono; [exact Hw|]. intros _ s2 [HI2 S2]. wp_go. apply HR. split; [exact HI2|by apply steps_events].
Qed.

(** What the lock adds around a command that ends with the removal. *)
Lemma removed_unlock {A} H s sid s' (v : A) (R : A -> st -> Prop) :
  cache_lock s = false -> removed H (set_cache_lock true s) sid s' ->
  (forall s2, removed H s sid s2 -> cache_lock s2 = false -> R v s2) ->
  wp (unlock_cache;; mret v) R s'.
Proof.
  intros Hc [HI S] HR. apply wp_bind, wp_unlock_cache; [apply (k_cache_lock _ _ (st_frame _ _ _ _ S))|].
  apply wp_ret, HR; [|done]. split; [exact HI|by apply steps_locked].
Qed.

Lemma session_events H s es lk sid a it : session H s sid a it -> session H (set_events es (set_cache_lock lk s)) sid a it.
Proof. by intros []. Qed.

Section aborted.
Context (H : list addr) (s : st) (sid : list Z) (a : addr) (it : item).
Context (HI : inv H s) (HH : Z.of_nat (length H) + 1 <= MAX_HELD) (Hs : slab_lock s = false) (Hc : cache_lock s = false).
Context (HS : session H s sid a it) (Hab : i_sess_status it = ABORT).

(** [live_session], with the lock taken and perhaps a counter incremented. *)
Lemma refused_spec count es :
  wp (live_session sid count) (fun live s1 => live = false /\ removed H (set_cache_lock true s) sid s1)
    (set_events es (set_cache_lock true s)).
Proof using HI HH Hs HS Hab.
  set (s0 := set_events es (set_cache_lock true s)).
  eapply wp_mono; [apply (live_session_spec H s0 sid a it count HI HH Hs (session_events _ _ _ _ _ _ _ HS) Hab)|].
  intros live s1 (-> & HI1 & S1). split; [done|]. split; [exact HI1|].
  destruct S1 as [[] S B Rd U]. split; [by split|exact S|exact B|exact Rd|exact U].
Qed.

(** A command that looks the session up itself. *)
Lemma ended_spec (r : item_co_result) (m : addr -> M st item_co_result) (R : item_co_result -> st -> Prop) :
  (forall s2, removed H s sid s2 -> cache_lock s2 = false -> R CO_ABORT s2) ->
  wp (lock_cache;;
      o ← _item_get sid;
      ab ← sess_aborted o;
      r ← (match o with
           | None => mret r
           | Some b => if (ab : bool) then remove_session b;; record (ThreadIncr "sess_abort");; mret CO_ABORT else m b
           end);
      unlock_cache;; mret r) R s.
Proof using HI HH Hs Hc HS Hab.
  intros HR. apply wp_bind, wp_lock_cache; [done|]. apply wp_bind.
  eapply wp_mono; [apply (end_session_spec H (set_cache_lock true s) sid a it r m
    (fun v s1 => v = CO_ABORT /\ removed H (set_cache_lock true s) sid s1) HI HH Hs (session_events _ _ (events s) _ _ _ _ HS) Hab); done|].
  intros o s1 Hw. apply wp_bind. eapply wp_mono; [exact Hw|]. intros ab s2 Hw2. apply wp_bind. eapply wp_mono; [exact Hw2|].
  intros v s3 [-> Hr]. by apply (removed_unlock H s sid s3).
Qed.
End aborted.

Lemma steps_weaken (T T' K : list Z -> Prop) s s' : (forall k, T k -> T' k) -> steps T K s s' -> steps T' K s s'.
Proof. intros HT [F S B R U]. split; try done. intros b x Hb Hx. apply U; [done|]. intros Hl HT1. apply (Hx Hl). auto. Qed.

(** Entering an update is refused, whatever is counted first. *)
Lemma oq_update_refused H s sid a it key apply es
  (HI : inv H s) (HH : Z.of_nat (length H) + 1 <= MAX_HELD) (Hs : slab_lock s = false)
  (HS : session H s sid a it) (Hab : i_sess_status it = ABORT) c :
  wp (oq_update c sid key apply) (fun r s1 => r = CO_ABORT /\ removed H (set_cache_lock true s) sid s1)
    (set_events es (set_cache_lock true s)).
Proof.
  unfold oq_update, oq_enter. do 2 apply wp_bind. eapply wp_mono; [by apply (refused_spec H s sid a it)|].
  intros live s1 (-> & Hrm). cbn [negb]. do 2 apply wp_ret. done.
Qed.

Lemma count_update (type : req_type) (n1 n2 : string) (t1 t2 : req_type) s (R : unit -> st -> Prop) :
  (forall es, R tt (set_events es s)) ->
  wp (if bool_decide (type = t1) then record (ThreadIncr n1) else if bool_decide (type = t2) then record (ThreadIncr n2) else mret tt) R s.
Proof.
  intros HR. pose proof (HR (events s)) as H0. assert (set_events (events s) s = s) as E by by destruct s.
  rewrite E in H0. do 2 (case_bool_decide; [apply HR|]). by apply wp_ret.
Qed.

(** The increment looks at the pending version once more. *)
Lemma oqincr_aborted H s sid a it c key delta (R : item_co_result * option Z -> st -> Prop)
  (HI : inv H s) (HH : Z.of_nat (length H) + 1 <= MAX_HELD) (Hs : slab_lock s = false) (Hc : cache_lock s = false)
  (HS : session H s sid a it) (Hab : i_sess_status it = ABORT)
  (HR : forall s', inv H s' -> cache_lock s' = false ->
    steps (sess_looks sid (SessOqincr key delta)) (fun k => k = sid) s s' -> R (CO_ABORT, None) s') :
  wp (item_oqincr_oqdecr c key delta sid) R s.
Proof.
  unfold item_oqincr_oqdecr. apply wp_bind, wp_lock_cache; [done|]. apply wp_bind. unfold _item_oqincr_oqdecr. apply wp_bind.
  assert (forall R : unit -> st -> Prop, (forall es, R tt (set_events es (set_cache_lock true s))) ->
    wp (match c_req_type c with
        | REQ_OQINCR => record (ThreadIncr "oqincr")
        | REQ_OQDECR => record (ThreadIncr "oqdecr")
        | _ => mret tt
        end) R (set_cache_lock true s)) as Hst.
  { intros R' HR'. pose proof (count_update (c_req_type c) "oqincr" "oqdecr" REQ_OQINCR REQ_OQDECR _ R' HR') as Hw. by destruct (c_req_type c). }
  apply Hst. intros es. eapply wp_mono; [by apply (oq_update_refused H s sid a it)|]. intros r s1 (-> & HI1 & S1).
  pose proof (st_frame _ _ _ _ S1) as F1. unfold _item_get_pending_version. apply wp_bind.
  eapply wp_mono; [apply (get_drop_spec H s1 (mc_get_version_key key) (fun _ s2 => wp (unlock_cache;; mret (CO_ABORT, None)) R s2) HI1 HH)|].
  - by rewrite (k_slab_lock _ _ F1).
  - intros _ s2 HI2 S2 _. apply wp_bind, wp_unlock_cache; [by rewrite (k_cache_lock _ _ (st_frame _ _ _ _ S2)), (k_cache_lock _ _ F1)|].
    apply wp_ret, HR; [exact HI2|done|]. apply steps_locked; [done|].
    refine (steps_trans _ _ _ _ _ _ _ s1 s2 _ _ S1 S2); unfold sess_looks, nokey; naive_solver.
  - intros pv s2 Hw. apply wp_bind. rewrite bool_decide_false by done.
    destruct pv; apply wp_ret, wp_bind; exact Hw.
Qed.

(** C15: the next command of a session that a conflicting writer has aborted, of
    whatever kind, answers ABORT and does nothing else than remove the session:
    nothing it wrote is committed, no other key changes and no reader is
    disturbed. *)
Theorem aborted_session_told H s sid a it c cmd
  (HI : inv H s) (HH : Z.of_nat (length H) + 1 <= MAX_HELD) (Hs : slab_lock s = false) (Hc : cache_lock s = false)
  (HS : session H s sid a it) (Hab : i_sess_status it = ABORT) (Harg : sess_arg s c sid cmd) :
  wp (sess_do c sid cmd) (fun r s' => r = CO_ABORT /\ inv H s' /\ cache_lock s' = false /\
    steps (sess_looks sid cmd) (fun k => k = sid) s s') s.
Proof.
  set (Q := fun r s' => r = CO_ABORT /\ inv H s' /\ cache_lock s' = false /\ steps (sess_looks sid cmd) (fun k => k = sid) s s').
  assert (forall s2, removed H s sid s2 -> cache_lock s2 = false -> Q CO_ABORT s2) as HQ.
  { intros s2 [HI2 S2] Hc2. split_and!; [done|done|done|]. apply (steps_weaken (fun k => k = sid)); [intros k ->; by left|done]. }
  pose proof (fun es count => refused_spec H s sid a it HI HH Hs HS Hab count es) as Hr.
  assert (set_events (events s) (set_cache_lock true s) = set_cache_lock true s) as Hes by by destruct s.
  assert (forall b s1 (R : list Z -> st -> Prop), is_Some (heap s !! b) -> removed H (set_cache_lock true s) sid s1 ->
    (forall k, R k s1) -> wp (field i_key b) R s1) as Hf.
  { intros b s1 R [x Hx] [_ S] HR. destruct (st_reads _ _ _ _ S b x Hx) as (y & Hy & _). by apply (wp_field _ b y). }
  destruct cmd; unfold sess_do.
  - unfold item_ciget. do 2 apply wp_bind. apply wp_lock_cache; [done|]. wp_go. eapply wp_mono; [apply Hr|].
    intros live s1 (-> & Hrm). apply wp_bind, wp_ret. by apply (removed_unlock H s sid s1).
  - unfold item_oqread. do 2 apply wp_bind. apply wp_lock_cache; [done|]. rewrite <-Hes. apply wp_bind.
    eapply wp_mono; [apply Hr|]. intros live s1 (-> & Hrm). apply wp_bind, wp_ret. by apply (removed_unlock H s sid s1).
  - unfold item_oqreg. apply wp_bind, wp_lock_cache; [done|]. rewrite <-Hes. apply wp_bind. eapply wp_mono; [apply Hr|].
    intros live s1 (-> & Hrm). apply wp_bind, wp_ret. by apply (removed_unlock H s sid s1).
  - unfold item_oqswap. apply wp_bind, wp_lock_cache; [done|]. rewrite <-Hes. apply wp_bind. eapply wp_mono; [apply Hr|].
    intros live s1 (-> & Hrm). apply wp_bind, Hf; [done|done|]. intros k. apply wp_bind, wp_ret.
    by apply (removed_unlock H s sid s1).
  - unfold item_oqwrite. apply wp_bind, wp_lock_cache; [done|]. rewrite <-Hes. apply wp_bind. eapply wp_mono; [apply Hr|].
    intros live s1 (-> & Hrm). apply wp_bind, Hf; [done|done|]. intros k. apply wp_bind, wp_ret.
    by apply (removed_unlock H s sid s1).
  - apply wp_bind, (oqincr_aborted H s sid a it); try done.
  - destruct Harg as [[x Hx] Hsid]. unfold item_oqappend_oqprepend. apply wp_bind, wp_lock_cache; [done|]. apply wp_bind.
    assert (forall R : unit -> st -> Prop, (forall es, R tt (set_events es (set_cache_lock true s))) ->
      wp (match c_req_type c with
          | REQ_OQAPPEND => record (ThreadIncr "oqappend")
          | REQ_OQPREPEND => record (ThreadIncr "oqprepend")
          | _ => mret tt
          end) R (set_cache_lock true s)) as Hst.
    { intros R' HR'. pose proof (count_update (c_req_type c) "oqappend" "oqprepend" REQ_OQAPPEND REQ_OQPREPEND _ R' HR') as Hw. by destruct (c_req_type c). }
    apply Hst. intros es. apply wp_bind, (wp_field _ _ x); [exact Hx|]. apply wp_bind. rewrite Hsid.
    eapply wp_mono; [by apply (oq_update_refused H s sid a it)|]. intros r s1 (-> & Hrm). by apply (removed_unlock H s sid s1).
  - by apply (ended_spec H s sid a it).
  - by apply (ended_spec H s sid a it).
  - by apply (ended_spec H s sid a it).
Qed.

(** ** A concrete session *)

Definition ex_sid : list Z := [115; 49].
Definition ex_aborted (it : item) : item := item_set_sess (set_sess_status ABORT it).

(** A session that was aborted, built step by step. *)
Definition ex_sess1 : st := run (_item_alloc 1 ex_sid 0 0 4 true true) ex_init.
Definition ex_sess2 : st := run (item_set_pinned ex_a) ex_sess1.
Definition ex_sess3 : st := run (upd_item ex_a ex_aborted) ex_sess2.
Definition ex_sess : st := run (_item_store ex_a REQ_SET ex_conn true) ex_sess3.

Definition ex_item_in s : item := default ex_item (heap s !! ex_a).

Lemma ex_sess1_inv : inv [ex_a] ex_sess1.
Proof.
  assert (wp (_item_alloc 1 ex_sid 0 0 4 true true) (alloced [] ex_init true 1 ex_sid 0 0 4 (-1)) ex_init) as Hw.
  { apply alloc_spec; [exact ex_init_inv|by vm_compute|by vm_compute|exact (ls_alloc _ _ ex_leasable)|by vm_compute..]. }
  assert (fst <$> _item_alloc 1 ex_sid 0 0 4 true true ex_init = Some (Some ex_a)) as He by (vm_compute; reflexivity).
  assert (alloced [] ex_init true 1 ex_sid 0 0 4 (-1) (Some ex_a) ex_sess1) as (_ & HI & _) by exact (wp_run _ _ _ _ Hw He). exact HI.
Qed.

Lemma ex_sess2_inv : inv [ex_a] ex_sess2.
Proof.
  set (it := ex_item_in ex_sess1). assert (heap ex_sess1 !! ex_a = Some it) as Ha by (vm_compute; reflexivity).
  assert (Z.of_nat (length [ex_a]) <= MAX_HELD) as HH by by vm_compute.
  assert (0 < i_refcount it) as Hp by by vm_compute. assert (i_refcount it = held ex_a [ex_a]) as Hr by by vm_compute.
  pose proof (pin_spec [ex_a] ex_sess1 ex_sess1_inv HH ex_a it Ha Hr
    (inv_taken [ex_a] ex_sess1 ex_sess1_inv ex_a it Ha (or_intror Hp))) as Hw.
  assert (fst <$> item_set_pinned ex_a ex_sess1 = Some tt) as He by (vm_compute; reflexivity).
  exact (proj1 (wp_run _ _ _ _ Hw He)).
Qed.

Lemma ex_sess3_inv : inv [ex_a] ex_sess3.
Proof.
  set (it := ex_item_in ex_sess2). assert (heap ex_sess2 !! ex_a = Some it) as Ha by (vm_compute; reflexivity).
  assert (item_is_linked it = false) as Hl by by vm_compute.
  assert (inert (cfg ex_sess2) it (ex_aborted it)) as Hin by (apply inert_unlinked; by vm_compute).
  pose proof (write_field_spec [ex_a] ex_sess2 ex_a it ex_aborted ex_sess2_inv Ha Hl Hin) as Hw.
  assert (fst <$> upd_item ex_a ex_aborted ex_sess2 = Some tt) as He by (vm_compute; reflexivity).
  exact (proj1 (wp_run _ _ _ _ Hw He)).
Qed.

Lemma ex_sess_inv : inv [ex_a] ex_sess.
Proof.
  assert (linkable [ex_a] ex_sess3 ex_a (ex_item_in ex_sess3)) as Hla.
  { split; try by vm_compute.
    - unfold homed. apply (bool_decide_unpack _). vm_compute. exact I.
    - left. by vm_compute. }
  assert (wp (_item_store ex_a REQ_SET ex_conn true) (fun r s' => r = STORED /\ inv [ex_a] s' /\
    stored ex_sess3 ex_a (ex_item_in ex_sess3) s') ex_sess3) as Hw.
  { apply (store_set_spec [ex_a] ex_sess3 ex_a _ ex_conn ex_sess3_inv); [by vm_compute..|exact Hla|by vm_compute]. }
  assert (fst <$> _item_store ex_a REQ_SET ex_conn true ex_sess3 = Some STORED) as He by (vm_compute; reflexivity).
  exact (proj1 (proj2 (wp_run _ _ _ _ Hw He))).
Qed.

Lemma aborted_session_told_witness :
  wp (sess_do ex_conn ex_sid SessDcommit) (fun r s' => r = CO_ABORT /\ inv [ex_a] s' /\
    forall b x, ~ bound s' ex_sid b x) ex_sess.
Proof.
  assert (session [ex_a] ex_sess ex_sid ex_a (ex_item_in ex_sess)) as HS.
  { split; [split; [|split]| | |]; vm_compute; reflexivity. }
  assert (Z.of_nat (length [ex_a]) + 1 <= MAX_HELD) as HH by by vm_compute.
  assert (slab_lock ex_sess = false) as Hs by (vm_compute; reflexivity).
  assert (cache_lock ex_sess = false) as Hc by (vm_compute; reflexivity).
  assert (i_sess_status (ex_item_in ex_sess) = ABORT) as Hab by (vm_compute; reflexivity).
  refine (wp_mono _ _ _ _ (aborted_session_told [ex_a] ex_sess ex_sid ex_a _ ex_conn SessDcommit ex_sess_inv HH Hs Hc HS Hab I) _).
  intros r s' (Hr & HI & _ & S). split; [exact Hr|]. split; [exact HI|].
  intros b x Hb. exact (proj1 (st_bound _ _ _ _ S _ _ _ Hb) eq_refl).
Defined.
