(* ===== verification/ConnOk.v ===== *)
(** * Correctness of the response vector

    [conn_add_iov] appends exactly the bytes it is given, whatever the splits;
    messages stay within the limits of the system and of a datagram; and
    whatever parts of the messages the socket takes, the bytes sent are those of
    the response, in order. *)

From S2P Require Import Prelude Slabs Conn.
Implicit Types (o : outv) (buf : mem) (ms : list (list mem)) (cur : list mem).

(** ** The messages a vector holds *)

Definition size (bufs : list mem) : nat := length (mjoin bufs).

(** The entry message [i] starts at. *)
Definition start ms (i : nat) : nat := length (mjoin (take i ms)).

Record vector ms o : Prop := Vector {
  vv_used : msg_used o = length ms;
  vv_msg : forall i bufs, ms !! i = Some bufs -> array_get (msg o) i = Some (Msghdr (start ms i) (length bufs));
  vv_msgs : (0 < length (msg o) /\ msg_used o <= length (msg o))%nat;
  vv_iov : forall j buf, mjoin ms !! j = Some buf -> array_get (iov o) j = Some buf;
  vv_iov_used : iov_used o = length (mjoin ms);
  vv_iovs : (0 < length (iov o) /\ iov_used o <= length (iov o))%nat;
  vv_bytes : forall cur, last ms = Some cur -> msg_bytes o = size cur;
  vv_max : forall bufs, bufs ∈ ms -> (length bufs <= IOV_MAX)%nat;
  vv_mtu : forall i bufs, ms !! i = Some bufs -> udp o = true \/ i = 0%nat -> (size bufs <= UDP_MAX_PAYLOAD_SIZE)%nat
}.

(** Each datagram starts with room for its header. *)
Definition headed ms o : Prop :=
  udp o = true -> forall bufs, bufs ∈ ms -> exists hdr rest, bufs = hdr :: rest /\ length hdr = UDP_HEADER_SIZE.

(** The bytes of the response, without the headers. *)
Definition payload o ms : mem := if udp o then mjoin ((fun bufs => mjoin (tail bufs)) <$> ms) else mjoin (mjoin ms).

Lemma payload_last o ms cur : payload o (ms ++ [cur]) = payload o ms ++ (if udp o then mjoin (tail cur) else mjoin cur).
Proof.
  unfold payload. destruct (udp o).
  - rewrite fmap_app, join_app. simpl. by rewrite app_nil_r.
  - rewrite !join_app. simpl. by rewrite app_nil_r.
Qed.

(** ** Arrays *)

Lemma array_get_set {A} (l : list (option A)) i x : (i < length l)%nat ->
  exists l', array_set l i x = Some l' /\ length l' = length l /\
    forall j, array_get l' j = if decide (j = i) then Some x else array_get l j.
Proof.
  intros Hi. unfold array_set. rewrite decide_True by done. eexists; split; [done|]. split; [apply length_insert|].
  intros j. unfold array_get. case_decide as E; [subst; by rewrite list_lookup_insert_eq|]. by rewrite list_lookup_insert_ne.
Qed.

Lemma array_get_app {A} (l : list (option A)) n i x : array_get l i = Some x -> array_get (l ++ replicate n None) i = Some x.
Proof.
  unfold array_get. destruct (l !! i) as [y|] eqn:E; [|done]. intros Hx. by rewrite lookup_app_l, E by (by eapply lookup_lt_Some).
Qed.

Lemma array_get_lt {A} (l : list (option A)) i x : array_get l i = Some x -> (i < length l)%nat.
Proof. unfold array_get. destruct (l !! i) eqn:E; [|done]. intros _. by eapply lookup_lt_Some. Qed.

Lemma array_set_same {A} (l : list (option A)) i x : array_get l i = Some x -> array_set l i x = Some l.
Proof.
  intros Hx. unfold array_set. rewrite decide_True by (by eapply array_get_lt). f_equal. apply list_insert_id.
  unfold array_get in Hx. destruct (l !! i) as [y|]; [|done]. simpl in Hx. by subst.
Qed.

Lemma start_last ms cur : start (ms ++ [cur]) (length ms) = length (mjoin ms).
Proof. unfold start. by rewrite take_app_length. Qed.

Lemma start_app ms cur i : (i <= length ms)%nat -> start (ms ++ [cur]) i = start ms i.
Proof. intros Hi. unfold start. by rewrite take_app_le. Qed.

Lemma start_S ms i bufs : ms !! i = Some bufs -> start ms (S i) = (start ms i + length bufs)%nat.
Proof. intros Hi. unfold start. rewrite (take_S_r _ _ _ Hi), join_app, length_app. simpl. by rewrite app_nil_r. Qed.

Lemma size_last cur buf : size (cur ++ [buf]) = (size cur + length buf)%nat.
Proof. unfold size. rewrite join_app, length_app. simpl. by rewrite app_nil_r. Qed.

Lemma lookup_last_cases {A} (l : list A) x i y : (l ++ [x]) !! i = Some y ->
  l !! i = Some y /\ (i < length l)%nat \/ i = length l /\ y = x.
Proof.
  intros Hi. destruct (decide (i < length l)%nat) as [Hlt|Hge].
  - rewrite lookup_app_l in Hi by done. by left.
  - rewrite lookup_app_r in Hi by lia. right. destruct (i - length l)%nat eqn:E; [|done]. simpl in Hi. split; [lia|congruence].
Qed.

(** ** Symbolic execution *)

Lemma wp_get_msg i m (R : msghdr -> outv -> Prop) o : array_get (msg o) i = Some m -> R m o -> wp (get_msg i) R o.
Proof. intros Hm HR. unfold get_msg. apply wp_bind, wp_gets. eapply wp_lift; [exact Hm|done]. Qed.

Lemma wp_put_msg i m l (R : unit -> outv -> Prop) o : array_set (msg o) i m = Some l -> R tt (set_msg l o) -> wp (put_msg i m) R o.
Proof. intros Hl HR. unfold put_msg. apply wp_bind, wp_gets, wp_bind. eapply wp_lift; [exact Hl|]. by apply wp_modify. Qed.

Lemma wp_put_iov i buf l (R : unit -> outv -> Prop) o : array_set (iov o) i buf = Some l -> R tt (set_iov l o) -> wp (put_iov i buf) R o.
Proof. intros Hl HR. unfold put_iov. apply wp_bind, wp_gets, wp_bind. eapply wp_lift; [exact Hl|]. by apply wp_modify. Qed.

Ltac out_step :=
  lazymatch goal with
  | |- wp (_ ≫= _) _ _ => apply wp_bind
  | |- wp (gets _) _ _ => apply wp_gets
  | |- wp (modify _) _ _ => apply wp_modify
  | |- wp (mret _) _ _ => apply wp_ret
  end.
Ltac out_go := cbv beta delta [id]; repeat (out_step; cbv beta delta [id]).

Lemma vector_last ms cur o : vector (ms ++ [cur]) o ->
  (msg_used o - 1)%nat = length ms /\ array_get (msg o) (length ms) = Some (Msghdr (length (mjoin ms)) (length cur)) /\
  iov_used o = (length (mjoin ms) + length cur)%nat /\ msg_bytes o = size cur /\ (length ms < length (msg o))%nat.
Proof.
  intros [V1 V2 V3 V4 V5 V6 V7 V8 V9]. rewrite length_app in V1. simpl in V1. split; [lia|].
  rewrite <-(start_last ms cur). rewrite join_app, length_app in V5. simpl in V5. rewrite app_nil_r in V5.
  assert ((ms ++ [cur]) !! length ms = Some cur) as Hc by by apply list_lookup_middle.
  split_and!; [by apply V2|by rewrite start_last|apply V7, last_snoc|lia].
Qed.

Lemma push_iov_spec ms cur o buf :
  vector (ms ++ [cur]) o -> (iov_used o < length (iov o))%nat -> (length cur < IOV_MAX)%nat ->
  (udp o = true \/ ms = [] -> (size cur + length buf <= UDP_MAX_PAYLOAD_SIZE)%nat) ->
  wp (push_iov buf) (fun _ o' => vector (ms ++ [cur ++ [buf]]) o' /\ udp o' = udp o) o.
Proof.
  intros V Hroom Hcur Hmtu. destruct (vector_last ms cur o V) as (E1 & E2 & E3 & E4 & E5).
  unfold push_iov. out_go. eapply wp_get_msg; [by rewrite E1|]. cbn [m_iov m_iovlen]. out_go.
  destruct (array_get_set (iov o) (length (mjoin ms) + length cur) buf ltac:(lia)) as (l & Hl & Ll & Gl).
  eapply wp_put_iov; [exact Hl|]. out_go. rewrite E1.
  destruct (array_get_set (msg o) (length ms) (Msghdr (length (mjoin ms)) (S (length cur))) E5) as (l' & Hl' & Ll' & Gl').
  eapply wp_put_msg; [exact Hl'|]. split; [|done]. destruct V as [V1 V2 V3 V4 V5 V6 V7 V8 V9].
  assert (mjoin (ms ++ [cur ++ [buf]]) = mjoin (ms ++ [cur]) ++ [buf]) as Hj.
  { rewrite !join_app. simpl. by rewrite !app_nil_r, app_assoc. }
  split; cbn [msg_used msg iov iov_used msg_bytes udp set_msg set_iov_used set_msg_bytes set_iov].
  - rewrite V1, !length_app. done.
  - intros i bufs [[Hi Hlt]|[-> ->]]%lookup_last_cases; rewrite Gl'.
    + rewrite decide_False by lia. rewrite (start_app ms (cur ++ [buf])) by lia. rewrite <-(start_app ms cur) by lia.
      apply V2. by rewrite lookup_app_l.
    + rewrite decide_True, start_last, length_app by done. simpl. by rewrite Nat.add_1_r.
  - by rewrite Ll'.
  - intros j b. rewrite Hj. intros [[Hj' Hlt]|[-> ->]]%lookup_last_cases; rewrite Gl.
    + rewrite decide_False by lia. by apply V4.
    + by rewrite decide_True by lia.
  - rewrite Hj, length_app, V5. simpl. lia.
  - rewrite Ll. lia.
  - intros c. rewrite last_snoc. intros [= <-]. by rewrite size_last, E4.
  - intros bufs [Hb|Hb%list_elem_of_singleton]%elem_of_app; [apply V8; set_solver|]. subst. rewrite length_app. simpl. lia.
  - intros i bufs [[Hi Hlt]|[-> ->]]%lookup_last_cases Hu.
    + apply (V9 i); [by rewrite lookup_app_l|done].
    + rewrite size_last. apply Hmtu. destruct Hu as [Hu|Hu]; [by left|right; by destruct ms].
Qed.

(** ** Room for an entry *)

Lemma repoint_same ms n i msgs :
  (i + n = length ms)%nat ->
  (forall j bufs, ms !! j = Some bufs -> array_get msgs j = Some (Msghdr (start ms j) (length bufs))) ->
  repoint n i (start ms i) msgs = Some msgs.
Proof.
  intros Hn Hm. revert i Hn. induction n as [|n IH]; intros i Hn; [done|]. simpl.
  destruct (lookup_lt_is_Some_2 ms i) as [bufs Hb]; [lia|]. rewrite (Hm i bufs Hb). simpl.
  rewrite array_set_same by (by apply Hm). simpl. rewrite <-(start_S ms i bufs Hb). apply IH. lia.
Qed.

Lemma ensure_space_spec ms o :
  vector ms o -> wp conn_ensure_iov_space (fun r o' => vector ms o' /\ udp o' = udp o /\
    (r = MC_OK /\ (iov_used o' < length (iov o'))%nat \/ r = MC_ENOMEM)) o.
Proof.
  intros V. unfold conn_ensure_iov_space. out_go. case_decide as Hd.
  - unfold realloc. out_go. destruct (reallocs o (nrealloc o)); cbn [negb]; out_go.
    + pose proof V as [V1 V2 V3 V4 V5 V6 V7 V8 V9].
      eapply wp_lift; [apply (repoint_same ms); [lia|exact V2]|]. out_go.
      split; [|split; [done|left; split; [done|]; cbn; rewrite length_app, length_replicate; lia]].
      split; try done; cbn [iov set_iov set_msg iov_used].
      * intros j b Hb. by apply array_get_app, V4.
      * rewrite length_app, length_replicate. cbn. lia.
    + split; [|split; [done|by right]]. destruct V. by split.
  - out_go. split; [done|]. split; [done|]. left. split; [done|lia].
Qed.

(** ** Starting a message *)

Lemma start_message ms o l :
  vector ms o -> (length (msg o) <= length l)%nat -> (msg_used o < length l)%nat ->
  (forall i m, array_get (msg o) i = Some m -> array_get l i = Some m) ->
  exists l', array_set l (msg_used o) (Msghdr (iov_used o) 0) = Some l' /\
    forall n, vector (ms ++ [[]]) (set_msg_used (S (msg_used o)) (set_msg_bytes 0 (set_msg l' (set_nrealloc n o)))).
Proof.
  intros [V1 V2 V3 V4 V5 V6 V7 V8 V9] Hlen Hlt Hl.
  destruct (array_get_set l (msg_used o) (Msghdr (iov_used o) 0) Hlt) as (l' & Hl' & Ll & Gl).
  exists l'. split; [done|]. intros n.
  assert (mjoin (ms ++ [[]]) = mjoin ms) as Hj by (rewrite join_app; simpl; by rewrite app_nil_r).
  split; cbn [msg_used msg iov iov_used msg_bytes udp set_msg set_msg_used set_msg_bytes set_nrealloc]; rewrite ?Hj; try done.
  - rewrite length_app, V1. simpl. lia.
  - intros i bufs [[Hi Hi']|[-> ->]]%lookup_last_cases; rewrite Gl.
    + rewrite decide_False by lia. rewrite start_app by lia. by apply Hl, V2.
    + by rewrite decide_True, start_last, V5 by done.
  - lia.
  - intros cur. rewrite last_snoc. by intros [= <-].
  - intros bufs [Hb| ->%list_elem_of_singleton]%elem_of_app; [by apply V8|]. simpl. unfold IOV_MAX. lia.
  - intros i bufs [[Hi Hi']|[-> ->]]%lookup_last_cases Hu; [by apply (V9 i)|]. unfold size. simpl. lia.
Qed.

Lemma add_msghdr_spec ms o rec (Q : rstatus -> outv -> Prop) :
  vector ms o -> (forall o', vector ms o' -> udp o' = udp o -> Q MC_ENOMEM o') ->
  (forall o1, vector (ms ++ [[]]) o1 -> udp o1 = udp o ->
     wp (if udp o then rec (replicate UDP_HEADER_SIZE None) else mret MC_OK) Q o1) ->
  wp (conn_add_msghdr_ rec) Q o.
Proof.
  intros V HE HQ. unfold conn_add_msghdr_. out_go. pose proof V as [V1 V2 V3 V4 V5 V6 V7 V8 V9].
  case_decide as Hd.
  - unfold realloc. out_go. destruct (reallocs o (nrealloc o)); cbn [negb]; out_go.
    + rewrite bool_decide_true by done. cbn [negb]. out_go.
      destruct (start_message ms o (msg o ++ replicate (length (msg o)) None) V) as (l' & Hl' & Hv).
      { rewrite length_app. lia. }
      { rewrite length_app, length_replicate. lia. }
      { intros i m. apply array_get_app. }
      eapply wp_put_msg; [exact Hl'|]. out_go. by apply HQ; [apply Hv|].
    + rewrite bool_decide_false by done. cbn [negb]. out_go. apply HE; [by split|done].
  - out_go. rewrite bool_decide_true by done. cbn [negb]. out_go.
    destruct (start_message ms o (msg o) V ltac:(lia) ltac:(lia) ltac:(done)) as (l' & Hl' & Hv).
    eapply wp_put_msg; [exact Hl'|]. out_go. apply HQ; [|done]. specialize (Hv (nrealloc o)). by destruct o.
Qed.

(** Room for the header of a datagram. *)
Lemma header_spec f ms o :
  vector (ms ++ [[]]) o ->
  wp (conn_add_iov_loop (S f) (replicate UDP_HEADER_SIZE None)) (fun r o' => udp o' = udp o /\
    ((r = MC_OK /\ vector (ms ++ [[replicate UDP_HEADER_SIZE None]]) o') \/
     (r = MC_ENOMEM /\ exists ms', vector ms' o'))) o.
Proof.
  intros V. destruct (vector_last ms [] o V) as (E1 & E2 & E3 & E4 & E5). simpl conn_add_iov_loop. out_go.
  eapply wp_get_msg; [by rewrite E1|]. cbn [m_iovlen length]. out_go. rewrite E4.
  change (size []) with 0%nat. change (UDP_MAX_PAYLOAD_SIZE <=? 0)%nat with false. rewrite andb_false_r.
  change (0 =? IOV_MAX)%nat with false. cbn [orb]. out_go. rewrite bool_decide_true by done. cbn [negb]. out_go.
  eapply wp_mono; [by apply (ensure_space_spec (ms ++ [[]]))|]. intros r o1 (V1 & U1 & [[-> Hroom]| ->]).
  2: { rewrite bool_decide_false by done. cbn [negb]. out_go. split; [done|]. right. split; [done|by eexists]. }
  rewrite bool_decide_true by done. cbn [negb]. out_go.
  destruct (vector_last ms [] o1 V1) as (_ & _ & _ & B1 & _). rewrite B1. change (size []) with 0%nat.
  change (UDP_MAX_PAYLOAD_SIZE <? length _ + 0)%nat with false. rewrite andb_false_r. cbn [length replicate Nat.sub take].
  out_go. eapply wp_mono; [apply (push_iov_spec ms [] o1 _ V1 Hroom)|].
  - simpl. unfold IOV_MAX. lia.
  - intros _. unfold size, UDP_MAX_PAYLOAD_SIZE, UDP_HEADER_SIZE. simpl. lia.
  - intros _ o2 [V2 U2]. cbn [Nat.ltb Nat.leb]. out_go. split; [congruence|]. by left.
Qed.

(** ** Appending *)

(** The last message has room. *)
Record open_message (limit : bool) ms cur o : Prop := OpenMessage {
  om_vector : vector (ms ++ [cur]) o;
  om_headed : headed (ms ++ [cur]) o;
  om_iov : (length cur < IOV_MAX)%nat;
  om_mtu : limit = true -> (size cur < UDP_MAX_PAYLOAD_SIZE)%nat;
  om_limit : limit = false -> udp o = false /\ ms <> []
}.

(** A message that is not the last carries bytes, and the entries of the last
    one are not more than its bytes allow: a response never has two empty
    buffers in a row. *)
Definition carries bufs : Prop := (0 < size bufs)%nat.
Definition dense (n : nat) cur : Prop := (length cur <= 2 * size cur + n)%nat.

Lemma full_carries cur : dense 1 cur -> (length cur = IOV_MAX \/ UDP_MAX_PAYLOAD_SIZE <= size cur)%nat -> carries cur.
Proof. unfold dense, carries, IOV_MAX, UDP_MAX_PAYLOAD_SIZE. lia. Qed.

Lemma settle_spec f ms cur o limit :
  (0 < f)%nat -> vector (ms ++ [cur]) o -> headed (ms ++ [cur]) o -> limit = udp o || (msg_used o =? 1)%nat ->
  wp (if (length cur =? IOV_MAX)%nat || (limit && (UDP_MAX_PAYLOAD_SIZE <=? msg_bytes o)%nat)
      then conn_add_msghdr_ (conn_add_iov_loop f) else mret MC_OK)
    (fun r o' => udp o' = udp o /\
      ((r = MC_OK /\ exists ms1 cur1, open_message limit ms1 cur1 o' /\
          payload o (ms1 ++ [cur1]) = payload o (ms ++ [cur]) /\
          (forall n, (n <= 1)%nat -> Forall carries ms -> dense n cur -> Forall carries ms1 /\ dense n cur1)) \/
       (r = MC_ENOMEM /\ exists ms', vector ms' o'))) o.
Proof.
  intros Hf V Hh Hlim. destruct f as [|f]; [lia|]. destruct (vector_last ms cur o V) as (E1 & E2 & E3 & E4 & E5).
  assert (limit = false -> udp o = false /\ ms <> []) as Hl.
  { rewrite Hlim. intros [Hu Hn]%orb_false_iff. split; [done|]. intros ->. rewrite (vv_used _ _ V) in Hn. done. }
  clear Hlim Hf. destruct (_ || _) eqn:Ec.
  - assert (forall n, (n <= 1)%nat -> Forall carries ms -> dense n cur -> Forall carries (ms ++ [cur])) as Hcar.
    { intros n Hn Hms Hd. apply Forall_app. split; [done|]. apply Forall_singleton, full_carries; [unfold dense in *; lia|].
      apply orb_true_iff in Ec as [Ec|[_ Ec]%andb_true_iff]; [left; by apply Nat.eqb_eq|right]. apply Nat.leb_le in Ec. by rewrite <-E4. }
    apply (add_msghdr_spec (ms ++ [cur])); [done| |].
    { intros o' V' U'. split; [done|]. right. split; [done|by eexists]. }
    intros o1 V1 U1. destruct (udp o) eqn:Eu.
    + eapply wp_mono; [by apply (header_spec f (ms ++ [cur]))|]. intros r o2 (U2 & [[-> V2]|[-> HE]]); (split; [congruence|]); [left|by right].
      split; [done|]. exists (ms ++ [cur]), [replicate UDP_HEADER_SIZE None]. split; [split; try done|].
      * intros _ bufs [Hb| ->%list_elem_of_singleton]%elem_of_app; [by apply Hh|]. by eexists _, [].
      * simpl. unfold IOV_MAX. lia.
      * intros _. unfold size, UDP_MAX_PAYLOAD_SIZE, UDP_HEADER_SIZE. simpl. lia.
      * intros Hf. apply Hl in Hf as [? _]. congruence.
      * split; [rewrite payload_last, Eu; simpl; by rewrite app_nil_r|]. intros n Hn Hms Hd. split; [by eapply Hcar|].
        unfold dense, size, UDP_HEADER_SIZE. simpl. lia.
    + apply wp_ret. split; [done|]. left. split; [done|]. exists (ms ++ [cur]), []. split; [split; try done|].
      * intros Hu. congruence.
      * simpl. unfold IOV_MAX. lia.
      * intros _. unfold size, UDP_MAX_PAYLOAD_SIZE. simpl. lia.
      * intros _. split; [congruence|]. by destruct ms.
      * split; [rewrite payload_last, Eu; simpl; by rewrite app_nil_r|]. intros n Hn Hms Hd. split; [by eapply Hcar|].
        unfold dense. simpl. lia.
  - apply orb_false_iff in Ec as [Ec1 Ec2]. apply Nat.eqb_neq in Ec1. apply wp_ret. split; [done|]. left. split; [done|].
    exists ms, cur. split; [|done]. split; try done.
    + pose proof (vv_max _ _ V cur ltac:(set_solver)). lia.
    + intros ->. rewrite E4 in Ec2. cbn [andb] in Ec2. by apply Nat.leb_gt in Ec2.
Qed.

(** One round, once the message has room. *)
Lemma round_spec limit ms cur o buf :
  open_message limit ms cur o -> (iov_used o < length (iov o))%nat ->
  (limit = true -> (size cur + length buf <= UDP_MAX_PAYLOAD_SIZE)%nat) ->
  wp (push_iov buf) (fun _ o' => vector (ms ++ [cur ++ [buf]]) o' /\ headed (ms ++ [cur ++ [buf]]) o' /\ udp o' = udp o /\
    payload o (ms ++ [cur ++ [buf]]) = payload o (ms ++ [cur]) ++ buf) o.
Proof.
  intros [V Hh Hi Hm Hl] Hroom Hb. eapply wp_mono; [apply (push_iov_spec ms cur o buf V Hroom Hi)|].
  - intros Hu. destruct limit; [by apply Hb|]. destruct (Hl eq_refl) as [? ?]. destruct Hu; congruence.
  - intros _ o' [V' U']. split; [done|].
    assert (udp o = true -> exists hdr rest, cur = hdr :: rest /\ length hdr = UDP_HEADER_SIZE) as Hc.
    { intros Hu. apply (Hh Hu). set_solver. }
    split; [|split; [done|]].
    + intros Hu bufs [Hb'| ->%list_elem_of_singleton]%elem_of_app; rewrite U' in Hu; [apply (Hh Hu); set_solver|].
      destruct (Hc Hu) as (hdr & rest & -> & ?). by eexists hdr, (rest ++ [buf]).
    + rewrite !payload_last, <-app_assoc. f_equal. destruct (udp o) eqn:Eu.
      * destruct (Hc eq_refl) as (hdr & rest & -> & _). simpl. rewrite join_app. simpl. by rewrite app_nil_r.
      * rewrite join_app. simpl. by rewrite app_nil_r.
Qed.

Lemma add_iov_loop_spec fuel : forall buf ms cur o,
  (length buf + 1 < fuel)%nat -> vector (ms ++ [cur]) o -> headed (ms ++ [cur]) o ->
  wp (conn_add_iov_loop fuel buf) (fun r o' => udp o' = udp o /\
    ((r = MC_OK /\ exists ms' cur', vector (ms' ++ [cur']) o' /\ headed (ms' ++ [cur']) o' /\
        payload o (ms' ++ [cur']) = payload o (ms ++ [cur]) ++ buf /\
        (forall n, (n <= 1)%nat -> Forall carries ms -> dense n cur ->
           Forall carries ms' /\ (buf = [] -> dense (S n) cur') /\ (buf <> [] -> dense 0 cur' /\ carries cur'))) \/
     (r = MC_ENOMEM /\ exists ms', vector ms' o'))) o.
Proof.
  induction fuel as [|fuel IH]; intros buf ms cur o Hf V Hh; [lia|].
  destruct (vector_last ms cur o V) as (E1 & E2 & _). simpl conn_add_iov_loop. out_go.
  eapply wp_get_msg; [by rewrite E1|]. cbn [m_iovlen]. out_go. set (limit := udp o || (msg_used o =? 1)%nat).
  eapply wp_mono; [apply (settle_spec fuel ms cur o limit ltac:(lia) V Hh eq_refl)|].
  intros r o1 (U1 & [(-> & ms1 & cur1 & HO & HP & HD)|(-> & HE)]).
  2: { rewrite bool_decide_false by done. cbn [negb]. out_go. split; [done|by right]. }
  rewrite bool_decide_true by done. cbn [negb]. out_go.
  eapply wp_mono; [by apply (ensure_space_spec (ms1 ++ [cur1])), HO|]. intros r o2 (V2 & U2 & [[-> Hroom]| ->]).
  2: { rewrite bool_decide_false by done. cbn [negb]. out_go. split; [congruence|right; split; [done|by eexists]]. }
  rewrite bool_decide_true by done. cbn [negb]. out_go. destruct (vector_last ms1 cur1 o2 V2) as (_ & _ & _ & B2 & _). rewrite B2.
  assert (open_message limit ms1 cur1 o2) as HO2.
  { destruct HO as [_ O2 O3 O4 O5]. split; [done| |done|done|by rewrite U2]. intros Hu. apply O2. congruence. }
  assert (forall l, payload o2 l = payload o l) as Hpo by (intros l; unfold payload; by rewrite U2, U1).
  destruct (limit && (UDP_MAX_PAYLOAD_SIZE <? length buf + size cur1)%nat) eqn:Ec.
  - apply andb_true_iff in Ec as [El Ec]. apply Nat.ltb_lt in Ec. pose proof (om_mtu _ _ _ _ HO2 El) as Hm.
    set (len := (length buf - (length buf + size cur1 - UDP_MAX_PAYLOAD_SIZE))%nat).
    assert (len = UDP_MAX_PAYLOAD_SIZE - size cur1)%nat as Hlen by (unfold len; lia).
    eapply wp_mono; [apply (round_spec limit ms1 cur1 o2 (take len buf) HO2 Hroom)|].
    { intros _. rewrite length_take. lia. }
    intros _ o3 (V3 & H3 & U3 & P3). destruct (Nat.ltb_spec 0 (length buf + size cur1 - UDP_MAX_PAYLOAD_SIZE)); [|lia].
    eapply wp_mono; [apply (IH (drop len buf) ms1 (cur1 ++ [take len buf]) o3); [|done|done]|].
    { rewrite length_drop. lia. }
    intros r o4 (U4 & [(-> & ms' & cur' & V4 & H4 & P4 & D4)|(-> & HE)]); (split; [congruence|]); [left|by right].
    split; [done|]. exists ms', cur'. split; [done|]. split; [done|].
    assert (forall l, payload o3 l = payload o l) as Hpo3 by (intros l; unfold payload; by rewrite U3, U2, U1).
    split; [rewrite <-Hpo3, P4, Hpo3; rewrite !Hpo in P3; by rewrite P3, HP, <-app_assoc, take_drop|].
    intros n Hn Hms Hd. destruct (HD n Hn Hms Hd) as [Hms1 Hd1].
    assert (drop len buf <> []) as Hne by (intros E%(f_equal length); rewrite length_drop in E; simpl in E; lia).
    destruct (D4 n Hn Hms1) as (K1 & _ & K3).
    { unfold dense in *. rewrite size_last, length_app, length_take. simpl. lia. }
    split; [done|]. split; [|by intros _; apply K3]. intros ->. by rewrite drop_nil in Hne.
  - rewrite Nat.sub_0_r, take_ge by done.
    eapply wp_mono; [apply (round_spec limit ms1 cur1 o2 buf HO2 Hroom)|].
    { intros El. rewrite El in Ec. cbn [andb] in Ec. apply Nat.ltb_ge in Ec. lia. }
    intros _ o3 (V3 & H3 & U3 & P3). cbn [Nat.ltb Nat.leb]. out_go. split; [congruence|]. left. split; [done|].
    exists ms1, (cur1 ++ [buf]). rewrite !Hpo in P3. rewrite P3, HP. split_and!; [done..|]. intros n Hn Hms Hd.
    destruct (HD n Hn Hms Hd) as [Hms1 Hd1]. split; [done|]. unfold dense, carries in *. rewrite size_last, length_app. simpl.
    split; [intros ->; simpl; lia|]. destruct buf; [done|]. simpl. intros _. lia.
Qed.

(** [conn_add_iov] succeeds or runs out of memory, without undefined
    behaviour and whatever the size of the buffer.  On success the bytes of the
    response are those before followed by the buffer, no message has more entries
    than the system allows, and no datagram and no first TCP message is longer
    than a datagram may be. *)
Theorem conn_add_iov_appends ms cur o buf
  (HV : vector (ms ++ [cur]) o) (HH : headed (ms ++ [cur]) o) :
  wp (conn_add_iov buf) (fun r o' => (r = MC_OK /\ exists ms' cur', vector (ms' ++ [cur']) o' /\
      headed (ms' ++ [cur']) o' /\ payload o' (ms' ++ [cur']) = payload o (ms ++ [cur]) ++ buf) \/
    (r = MC_ENOMEM /\ exists ms', vector ms' o')) o.
Proof.
  eapply wp_mono; [apply (add_iov_loop_spec _ buf ms cur o); [lia|done|done]|].
  intros r o' (U & [(-> & ms' & cur' & V & H & P & _)|(-> & HE)]); [left|by right].
  split; [done|]. exists ms', cur'. split; [done|]. split; [done|]. rewrite <-P. unfold payload. by rewrite U.
Qed.

(** A vector with one empty TCP message. *)
Definition ex_out : outv :=
  OutV false 0 (replicate IOV_SIZE None) 0 (Some (Msghdr 0 0) :: replicate 9 None) 1 0 0 0 (fun _ => true) 0.

Lemma ex_out_vector : vector ([] ++ [[]]) ex_out.
Proof.
  split; try done; simpl; try lia.
  - intros [|i] bufs; [by intros [= <-]|by destruct i].
  - intros cur. by intros [= <-].
  - intros bufs ->%list_elem_of_singleton. simpl. unfold IOV_MAX. lia.
  - intros [|i] bufs; [|by destruct i]. intros [= <-] _. unfold size. simpl. lia.
Qed.

Lemma conn_add_iov_appends_witness :
  exists o' ms' cur', snd <$> conn_add_iov (init [86; 65; 76; 85; 69; 32]) ex_out = Some o' /\
    payload o' (ms' ++ [cur']) = init [86; 65; 76; 85; 69; 32].
Proof.
  assert (headed ([] ++ [[]]) ex_out) as HH by (intros Hu; discriminate Hu).
  destruct (wp_elim _ _ _ (conn_add_iov_appends [] [] ex_out (init [86; 65; 76; 85; 69; 32]) ex_out_vector HH))
    as (r & o' & He & [(Hr & ms' & cur' & _ & _ & HP)|(Hr & _)]).
  - exists o', ms', cur'. rewrite He. split; [reflexivity|exact HP].
  - exfalso. assert (fst <$> conn_add_iov (init [86; 65; 76; 85; 69; 32]) ex_out = Some MC_OK) as Hx by (vm_compute; reflexivity).
    rewrite He in Hx. simpl in Hx. rewrite Hr in Hx. discriminate Hx.
Defined.

(** ** Transmission *)

(** The messages still to be sent, in disjoint runs of the array. *)
Record sending (bss : list (list mem)) o : Prop := Sending {
  sn_used : msg_used o = (msg_curr o + length bss)%nat;
  sn_msg : forall i bufs, bss !! i = Some bufs -> exists st,
    array_get (msg o) (msg_curr o + i) = Some (Msghdr st (length bufs)) /\
    forall k buf, bufs !! k = Some buf -> array_get (iov o) (st + k) = Some buf;
  sn_apart : forall i j mi mj, (i < j)%nat -> (j < length bss)%nat -> array_get (msg o) (msg_curr o + i) = Some mi ->
    array_get (msg o) (msg_curr o + j) = Some mj -> (m_iov mi + m_iovlen mi <= m_iov mj)%nat
}.

Lemma msg_data_spec o st bufs :
  (forall k buf, bufs !! k = Some buf -> array_get (iov o) (st + k) = Some buf) ->
  msg_data o (Msghdr st (length bufs)) = Some (mjoin bufs).
Proof.
  intros Hb. unfold msg_data. cbn [m_iov m_iovlen].
  assert (mapM (array_get (iov o)) (seq st (length bufs)) = Some bufs) as ->; [|done].
  apply mapM_Some. revert st Hb. induction bufs as [|b bufs IH]; intros st Hb; simpl; constructor.
  - rewrite <-(Nat.add_0_r st). by apply Hb.
  - apply IH. intros k buf Hk. rewrite Nat.add_succ_comm. by apply Hb.
Qed.

(** The first entry of the current message was sent, or a part of it. *)
Lemma sending_step bss b bufs o st :
  sending ((b :: bufs) :: bss) o -> array_get (msg o) (msg_curr o) = Some (Msghdr st (S (length bufs))) ->
  (exists l, array_set (msg o) (msg_curr o) (Msghdr (S st) (length bufs)) = Some l /\ sending (bufs :: bss) (set_msg l o)) /\
  (forall b', exists l, array_set (iov o) st b' = Some l /\ sending ((b' :: bufs) :: bss) (set_iov l o)).
Proof.
  intros [S1 S2 S3] Hm. destruct (S2 0%nat (b :: bufs) eq_refl) as (st' & Hst & Hb). rewrite Nat.add_0_r in Hst.
  assert (st' = st) as -> by (rewrite Hm in Hst; by injection Hst). split.
  - destruct (array_get_set (msg o) (msg_curr o) (Msghdr (S st) (length bufs)) (array_get_lt _ _ _ Hm)) as (l & Hl & _ & Gl).
    exists l. split; [done|]. split; cbn [msg_used msg_curr msg iov set_msg]; [done| |].
    + intros [|i] bs Hi; rewrite Gl.
      * injection Hi as <-. rewrite decide_True by lia. exists (S st). split; [done|]. intros k buf Hk.
        rewrite Nat.add_succ_comm. by apply Hb.
      * rewrite decide_False by lia. by apply (S2 (S i)).
    + intros i j mi mj Hij Hj. rewrite !Gl. rewrite (decide_False (P := (msg_curr o + j)%nat = msg_curr o)) by lia.
      case_decide as Ei; intros Hi Hmj.
      * injection Hi as <-. simpl. assert (i = 0%nat) as -> by lia.
        pose proof (S3 0%nat j (Msghdr st (S (length bufs))) mj Hij Hj) as Hap. rewrite Nat.add_0_r in Hap. specialize (Hap Hm Hmj). simpl in Hap. lia.
      * by apply (S3 i j).
  - intros b'. assert (array_get (iov o) st = Some b) as Hb0 by (rewrite <-(Nat.add_0_r st); by apply Hb).
    destruct (array_get_set (iov o) st b' (array_get_lt _ _ _ Hb0)) as (l & Hl & _ & Gl).
    exists l. split; [done|]. split; cbn [msg_used msg_curr msg iov set_iov]; [done| |done].
    intros [|i] bs Hi.
    + injection Hi as <-. exists st. rewrite Nat.add_0_r. split; [done|]. intros [|k] buf Hk; rewrite Gl.
      * injection Hk as <-. by rewrite decide_True by lia.
      * rewrite decide_False by lia. by apply Hb.
    + destruct (S2 (S i) bs Hi) as (st2 & Hst2 & Hb2). exists st2. split; [done|]. intros k buf Hk. rewrite Gl.
      assert (S i < length ((b :: bufs) :: bss))%nat as Hlt by (by eapply lookup_lt_Some).
      pose proof (S3 0%nat (S i) (Msghdr st (S (length bufs))) (Msghdr st2 (length bs)) ltac:(lia) Hlt) as Hap.
      rewrite Nat.add_0_r in Hap. specialize (Hap Hm Hst2). simpl in Hap. rewrite decide_False by lia. by apply Hb2.
Qed.

Lemma consume_spec bss bufs : forall o fuel res,
  sending (bufs :: bss) o -> (res <= size bufs)%nat -> (length bufs < fuel)%nat ->
  wp (consume_iov fuel (msg_curr o) res) (fun _ o' => exists bufs', sending (bufs' :: bss) o' /\
    mjoin bufs = take res (mjoin bufs) ++ mjoin bufs' /\ (bufs' = [] \/ carries bufs')) o.
Proof.
  induction bufs as [|b bufs IH]; intros o [|fuel] res HS Hr Hf; [simpl in Hf; lia| |simpl in Hf; lia|];
    pose proof (sn_msg _ _ HS 0%nat _ eq_refl) as (st & Hm & Hb); rewrite Nat.add_0_r in Hm; simpl consume_iov;
    out_go; (eapply wp_get_msg; [exact Hm|]); cbn [m_iovlen m_iov length]; out_go.
  - rewrite decide_False by lia. unfold size in Hr. simpl in Hr. assert (res = 0%nat) as -> by lia. cbn. exists []. split_and!; [done|done|by left].
  - rewrite decide_True by lia. out_go. eapply wp_lift; [rewrite <-(Nat.add_0_r st); by apply Hb|].
    destruct (sending_step bss b bufs o st HS Hm) as [(l & Hl & HSl) Hpart]. unfold size in Hr. simpl in Hr. rewrite length_app in Hr.
    case_decide as Hd.
    + out_go. eapply wp_put_msg; [replace (S (length bufs) - 1)%nat with (length bufs) by lia; exact Hl|].
      eapply wp_mono; [apply (IH (set_msg l o) fuel (res - length b)%nat HSl); [unfold size; lia|simpl in Hf; lia]|].
      intros _ o' (bufs' & HS' & Hj & Hc). exists bufs'. split; [done|]. split; [|done]. simpl.
      by rewrite take_app_ge, <-app_assoc, <-Hj by lia.
    + destruct (Nat.ltb_spec 0 res) as [Hp|Hp]; cbn [when].
      * destruct (Hpart (drop res b)) as (l2 & Hl2 & HS2). eapply wp_put_iov; [exact Hl2|].
        exists (drop res b :: bufs). split; [done|]. split; [|right; unfold carries, size; simpl; rewrite length_app, length_drop; lia].
        simpl. rewrite take_app_le by lia. by rewrite app_assoc, take_drop.
      * out_go. exists (b :: bufs). split; [done|]. split; [by assert (res = 0%nat) as -> by lia|]. right. unfold carries, size. simpl.
        rewrite length_app. lia.
Qed.

Lemma sending_next bss o : sending ([] :: bss) o -> sending bss (set_msg_curr (S (msg_curr o)) o).
Proof.
  intros [S1 S2 S3]. split; cbn [msg_used msg_curr msg iov set_msg_curr].
  - simpl in S1. lia.
  - intros i bufs Hi. rewrite Nat.add_succ_comm. by apply (S2 (S i)).
  - intros i j mi mj Hij Hj. rewrite !Nat.add_succ_comm. apply S3; simpl; lia.
Qed.

(** The bytes still to be sent. *)
Definition unsent (bss : list (list mem)) : mem := mjoin (mjoin bss).

(** All messages carry bytes, but the current one may have been sent. *)
Definition ready (bss : list (list mem)) : Prop :=
  match bss with [] => True | bufs :: bss' => (bufs = [] \/ carries bufs) /\ Forall carries bss' end.

(** When the result depends on the socket. *)
Definition progress (send : sendmsg_result) (rs : transmit_result * mem) : Prop :=
  match rs.1 with
  | TRANSMIT_COMPLETE => True
  | TRANSMIT_INCOMPLETE => rs.2 <> []
  | TRANSMIT_SOFT_ERROR => send = WouldBlock
  | TRANSMIT_HARD_ERROR => send = SendError \/ send = Sent 0
  end.

(** What one transmission does. *)
Definition transmit_post (bss : list (list mem)) (send : sendmsg_result) (rs : transmit_result * mem) o' : Prop :=
  exists bss', sending bss' o' /\ unsent bss = rs.2 ++ unsent bss' /\ (rs.1 = TRANSMIT_COMPLETE -> bss' = []) /\
    (ready bss -> ready bss' /\ progress send rs /\ (rs.1 <> TRANSMIT_COMPLETE -> unsent bss <> [])).

Definition transmit_current (bss : list (list mem)) (send : sendmsg_result) (rs : transmit_result * mem) o' : Prop :=
  exists bss', sending bss' o' /\ unsent bss = rs.2 ++ unsent bss' /\ (rs.1 = TRANSMIT_COMPLETE -> bss' = []) /\
    (Forall carries bss -> ready bss' /\ progress send rs /\ (rs.1 <> TRANSMIT_COMPLETE -> unsent bss <> [])).

Lemma send_current bss o send :
  sending bss o ->
  wp (o ← gets id;
      if decide (msg_curr o < msg_used o)%nat then
        m ← get_msg (msg_curr o);
        data ← lift (msg_data o m);
        match send with
        | Sent n =>
            let res := Nat.min n (length data) in
            if decide (0 < res)%nat then
              consume_iov (S (m_iovlen m)) (msg_curr o) res;;
              mret (TRANSMIT_INCOMPLETE, take res data)
            else mret (TRANSMIT_HARD_ERROR, [])
        | WouldBlock => mret (TRANSMIT_SOFT_ERROR, [])
        | SendError => mret (TRANSMIT_HARD_ERROR, [])
        end
      else mret (TRANSMIT_COMPLETE, [])) (transmit_current bss send) o.
Proof.
  intros HS. out_go. destruct bss as [|bufs bss].
  - rewrite decide_False by (rewrite (sn_used _ _ HS); simpl; lia). out_go. by exists [].
  - rewrite decide_True by (rewrite (sn_used _ _ HS); simpl; lia).
    destruct (sn_msg _ _ HS 0%nat _ eq_refl) as (st & Hm & Hb). rewrite Nat.add_0_r in Hm.
    out_go. eapply wp_get_msg; [exact Hm|]. out_go. eapply wp_lift; [by apply msg_data_spec|].
    assert (carries bufs -> unsent (bufs :: bss) <> []) as Hne.
    { unfold carries, size, unsent. simpl. rewrite join_app. intros Hc E%(f_equal length). rewrite length_app in E. simpl in E. lia. }
    assert (forall r, r <> TRANSMIT_COMPLETE -> (carries bufs -> progress send (r, [])) -> transmit_current (bufs :: bss) send (r, []) o) as Hsame.
    { intros r Hr Hp. exists (bufs :: bss). split_and!; [done|done|done|]. intros [Hc Hcs]%Forall_cons. split; [by split; [right|]|].
      split; [by apply Hp|]. by intros _; apply Hne. }
    destruct send as [n| |]; [|out_go; apply Hsame; [done|]; intros _; first [done|by left]..].
    cbv zeta. case_decide as Hd; [|out_go; apply Hsame; [done|]; unfold carries, size; right; f_equal; lia].
    out_go. eapply wp_mono.
    + apply (consume_spec bss bufs o); [done|unfold size; lia|cbn [m_iovlen]; lia].
    + intros _ o' (bufs' & HS' & Hj & Hc). out_go. exists (bufs' :: bss). split_and!; [done| |done|].
      * unfold unsent. simpl. rewrite !join_app. cbn [snd]. rewrite app_assoc. by rewrite <-Hj.
      * intros [Hcb Hcs]%Forall_cons. split; [done|]. split; [|by intros _; apply Hne].
        intros E%(f_equal length). simpl in E. rewrite length_take in E. lia.
Qed.

Lemma core_transmit_spec bss o send : sending bss o -> wp (core_transmit send) (transmit_post bss send) o.
Proof.
  intros HS. unfold core_transmit. out_go. destruct bss as [|bufs bss].
  - rewrite decide_False by (rewrite (sn_used _ _ HS); simpl; lia). out_go.
    eapply wp_mono; [by apply send_current|]. intros rs o' (bss' & H1 & H2 & H3 & H4). exists bss'. split_and!; [done..|]. intros _. by apply H4.
  - rewrite decide_True by (rewrite (sn_used _ _ HS); simpl; lia).
    destruct (sn_msg _ _ HS 0%nat _ eq_refl) as (st & Hm & Hb). rewrite Nat.add_0_r in Hm.
    out_go. eapply wp_get_msg; [exact Hm|]. cbn [m_iovlen]. destruct bufs as [|b bufs]; cbn [length Nat.eqb when]; out_go.
    + eapply wp_mono; [apply (send_current bss _ send), (sending_next bss o HS)|]. intros rs o' (bss' & H1 & H2 & H3 & H4).
      exists bss'. split_and!; [done..|]. intros [_ Hc]. by apply H4.
    + eapply wp_mono; [by apply (send_current ((b :: bufs) :: bss) o send)|]. intros rs o' (bss' & H1 & H2 & H3 & H4).
      exists bss'. split_and!; [done..|]. intros [[?|Hc] Hcs]; [done|]. apply H4. by constructor.
Qed.

Lemma vector_sending ms o : vector ms o -> msg_curr o = 0%nat -> sending ms o.
Proof.
  intros V Hc. split; rewrite Hc; [apply (vv_used _ _ V)| |]; simpl.
  - intros i bufs Hi. exists (start ms i). split; [by apply (vv_msg _ _ V)|]. intros k buf Hk. apply (vv_iov _ _ V).
    unfold start. assert (mjoin ms = mjoin (take i ms) ++ bufs ++ mjoin (drop (S i) ms)) as ->.
    { rewrite <-(take_drop_middle ms i bufs Hi) at 1. by rewrite join_app. }
    rewrite lookup_app_r by lia. rewrite Nat.add_comm, Nat.add_sub. by rewrite lookup_app_l by (by eapply lookup_lt_Some).
  - intros i j mi mj Hij Hj Hi Hmj. destruct (lookup_lt_is_Some_2 ms i ltac:(lia)) as [bi Ei].
    destruct (lookup_lt_is_Some_2 ms j Hj) as [bj Ej]. rewrite (vv_msg _ _ V i bi Ei) in Hi. rewrite (vv_msg _ _ V j bj Ej) in Hmj.
    injection Hi as <-. injection Hmj as <-. cbn [m_iov m_iovlen]. rewrite <-(start_S ms i bi Ei). unfold start.
    rewrite <-(take_drop (S i) (take j ms)), take_take, Nat.min_l by lia. rewrite join_app, length_app. lia.
Qed.

(** Transmission changes neither the sizes of the arrays nor what is in use. *)
Definition kept o o' : Prop :=
  udp o' = udp o /\ iov_used o' = iov_used o /\ reallocs o' = reallocs o /\ length (msg o') = length (msg o) /\ length (iov o') = length (iov o).

Lemma kept_refl o : kept o o.
Proof. done. Qed.
Lemma kept_trans o1 o2 o3 : kept o1 o2 -> kept o2 o3 -> kept o1 o3.
Proof. intros (? & ? & ? & ? & ?) (? & ? & ? & ? & ?). split_and!; congruence. Qed.

Lemma array_set_length {A} (l : list (option A)) i x l' : array_set l i x = Some l' -> length l' = length l.
Proof. unfold array_set. case_decide; [|done]. intros [= <-]. apply length_insert. Qed.

Definition keeps {A} (m : M outv A) : Prop := forall o r o', m o = Some (r, o') -> kept o o'.

Section keeps.
Lemma keeps_bind {A B} (m : M outv A) (f : A -> M outv B) : keeps m -> (forall x, keeps (f x)) -> keeps (m ≫= f).
Proof.
  intros Hm Hf o r o' He. unfold mbind, M_bind in He. destruct (m o) as [[x o1]|] eqn:E; [|done].
  eapply kept_trans; [by eapply Hm|by eapply Hf].
Qed.
Lemma keeps_ret {A} (x : A) : keeps (mret x).
Proof. intros o r o' [= <- <-]. apply kept_refl. Qed.
Lemma keeps_undef {A} : keeps (undef (A := A)).
Proof. done. Qed.
Lemma keeps_gets {A} (f : outv -> A) : keeps (gets f).
Proof. intros o r o' [= <- <-]. apply kept_refl. Qed.
Lemma keeps_lift {A} (x : option A) : keeps (lift x).
Proof. intros o r o'. unfold lift. destruct x; [|done]. intros [= <- <-]. apply kept_refl. Qed.
Lemma keeps_curr n : keeps (modify (set_msg_curr n)).
Proof. by intros o r o' [= <- <-]. Qed.
Lemma keeps_put_msg i m : keeps (put_msg i m).
Proof.
  intros o r o'. unfold put_msg, mbind, M_bind, gets, lift. simpl. destruct (array_set (msg o) i m) as [l|] eqn:E; [|done].
  intros [= <- <-]. split_and!; try done. by apply array_set_length in E.
Qed.
Lemma keeps_put_iov i buf : keeps (put_iov i buf).
Proof.
  intros o r o'. unfold put_iov, mbind, M_bind, gets, lift. simpl. destruct (array_set (iov o) i buf) as [l|] eqn:E; [|done].
  intros [= <- <-]. split_and!; try done. by apply array_set_length in E.
Qed.
End keeps.

Ltac keeps_go :=
  repeat (cbv zeta; lazymatch goal with
  | |- keeps (_ ≫= _) => apply keeps_bind; [|intro]
  | |- keeps (mret _) => apply keeps_ret
  | |- keeps undef => apply keeps_undef
  | |- keeps (gets _) => apply keeps_gets
  | |- keeps (lift _) => apply keeps_lift
  | |- keeps (get_msg _) => unfold get_msg
  | |- keeps (put_msg _ _) => apply keeps_put_msg
  | |- keeps (put_iov _ _) => apply keeps_put_iov
  | |- keeps (modify (set_msg_curr _)) => apply keeps_curr
  | |- keeps (when ?b _) => destruct b; cbn [when]
  | |- keeps (if ?b then _ else _) => destruct b
  | |- keeps (match ?x with _ => _ end) => destruct x
  end).

Lemma consume_keeps fuel : forall i res, keeps (consume_iov fuel i res).
Proof. induction fuel as [|fuel IH]; intros i res; simpl; keeps_go; apply IH. Qed.

Lemma transmit_keeps send : keeps (core_transmit send).
Proof. unfold core_transmit. keeps_go. apply consume_keeps. Qed.

Lemma transmit_kept bss o send : sending bss o -> wp (core_transmit send) (fun rs o' => transmit_post bss send rs o' /\ kept o o') o.
Proof.
  intros HS. destruct (wp_elim _ _ _ (core_transmit_spec bss o send HS)) as (rs & o' & He & Hp).
  apply (wp_intro _ _ _ _ _ He). split; [done|by eapply transmit_keeps].
Qed.

(** C16: Whatever the socket does (it takes any part of a message at a time, blocks
    or fails), the bytes sent are the beginning of the response in order, none
    twice; when the transmission completes, they are the whole of it. *)
Theorem transmit_all_sends sends ms o :
  vector ms o -> msg_curr o = 0%nat ->
  wp (transmit_all sends) (fun '(r, sent) _ => exists rest,
    mjoin (mjoin ms) = sent ++ rest /\ (r = TRANSMIT_COMPLETE -> rest = [])) o.
Proof.
  intros V Hc. pose proof (vector_sending ms o V Hc) as HS. clear V Hc. change (mjoin (mjoin ms)) with (unsent ms).
  revert ms o HS. induction sends as [|send sends IH]; intros ms o HS; simpl transmit_all; out_go; [by exists (unsent ms)|].
  eapply wp_mono; [by apply core_transmit_spec|]. intros [r sent] o' (ms' & HS' & Hu & Hr & _). cbn [fst snd] in Hu, Hr.
  destruct r; out_go.
  - exists (unsent ms'). split; [done|]. intros _. by rewrite Hr.
  - eapply wp_mono; [by apply IH|]. intros [r' sent'] o'' (rest & Hu' & Hr'). out_go. exists rest. split; [|done].
    by rewrite Hu, Hu', app_assoc.
  - eapply wp_mono; [by apply IH|]. intros [r' sent'] o'' (rest & Hu' & Hr'). out_go. exists rest. split; [|done].
    by rewrite Hu, Hu', app_assoc.
  - by exists (unsent ms').
Qed.

(** A response of two buffers in one TCP message. *)
Definition ex_resp : list (list mem) := [[init [69; 78; 68]; init [13; 10]]].
Definition ex_resp_out : outv :=
  OutV false 0 [Some (init [69; 78; 68]); Some (init [13; 10]); None; None] 2 [Some (Msghdr 0 2); None] 1 0 5 0 (fun _ => true) 0.

Lemma ex_resp_vector : vector ex_resp ex_resp_out.
Proof.
  split; try done; simpl; try lia.
  - intros [|i] bufs; [by intros [= <-]|by destruct i].
  - intros [|[|[|j]]] buf; by intros [= <-].
  - intros cur. by intros [= <-].
  - intros bufs ->%list_elem_of_singleton. by apply Nat.leb_le.
  - intros [|i] bufs; [|by destruct i]. intros [= <-] _. by apply Nat.leb_le.
Qed.

(** The socket takes one byte, blocks, takes three, then the rest. *)
Lemma transmit_all_sends_witness :
  exists sent rest, fst <$> transmit_all [Sent 1; WouldBlock; Sent 3; Sent 7; Sent 7] ex_resp_out = Some (TRANSMIT_COMPLETE, sent) /\
    init [69; 78; 68; 13; 10] = sent ++ rest /\ rest = [].
Proof.
  destruct (wp_elim _ _ _ (transmit_all_sends [Sent 1; WouldBlock; Sent 3; Sent 7; Sent 7] ex_resp ex_resp_out ex_resp_vector eq_refl))
    as ([r sent] & o' & He & rest & Hs & Hc).
  assert (fst <$> transmit_all [Sent 1; WouldBlock; Sent 3; Sent 7; Sent 7] ex_resp_out = Some (TRANSMIT_COMPLETE, init [69; 78; 68; 13; 10])) as Hx
    by (vm_compute; reflexivity).
  rewrite He in Hx. assert (r = TRANSMIT_COMPLETE) as Hr by (injection Hx; intros; assumption).
  exists sent, rest. rewrite He, Hr. split; [reflexivity|]. split; [exact Hs|exact (Hc Hr)].
Defined.
