(* ===== verification/AsciiOk.v ===== *)
(** * Correctness of the text protocol

    The tokens of a request are its words; each command name is recognised; a
    client that is in another configuration than the server is refused and
    changes nothing. *)

From S2P Require Import Prelude Util Time Lease Assoc Item State Slabs Items IQ CO Conn Ascii AsciiCmd.
From S2P Require Import Inv SlabsOk ItemsOk StoreOk ConnOk.
Open Scope Z_scope.
Implicit Types (ts : list token) (c : asc).

(** ** Words

    The reference for the tokenizer: the maximal runs of bytes other than
    blanks. *)

Fixpoint words_from (w : list Z) (l : list Z) : list (list Z) :=
  match l with
  | [] => match w with [] => [] | _ => [w] end
  | b :: l' =>
      if b =? 32 then match w with [] => words_from [] l' | _ => w :: words_from [] l' end
      else words_from (w ++ [b]) l'
  end.
Definition words : list Z -> list (list Z) := words_from [].

(** A token that is not the terminal one. *)
Definition proper (t : token) : Prop := is_Some (t_val t) /\ t_len t <> 0%nat.

Lemma tokenize_loop_words e : forall s len room,
  drop len s = e -> (len <= length s)%nat -> (room = 0%nat -> len = 0%nat) ->
  exists ts v, asc_tokenize_loop s e len room = ts ++ [Token v 0] /\
    t_key <$> ts = take room (words_from (take len s) e) /\
    words (default [] v) = drop room (words_from (take len s) e) /\ Forall proper ts /\
    Forall (fun t => (t_len t <= length (default [] (t_val t)))%nat) ts /\
    ((length ts < room)%nat -> v = None).
Proof.
  induction e as [|b e IH]; intros s len [|room] He Hl Hr; cbn [asc_tokenize_loop].
  - exists [], None. rewrite Hr by done. by rewrite take_0.
  - destruct (decide (len = 0%nat)) as [->|Hn].
    + exists [], None. by rewrite take_0.
    + exists [Token (Some s) len], None. simpl. destruct (take len s) as [|x w] eqn:E.
      * apply (f_equal length) in E. rewrite length_take in E. simpl in E. lia.
      * unfold t_key. simpl. rewrite E, take_nil, drop_nil. split_and!; [done|done|done|by repeat constructor| |done]. constructor; [simpl; lia|done].
  - exists [], (Some (b :: e)). rewrite Hr by done. rewrite take_0. split_and!; try done. simpl. lia.
  - assert (take (S len) s = take len s ++ [b]) as Hb.
    { rewrite <-(take_drop len s) at 1. rewrite He, take_app_ge by (rewrite length_take; lia).
      rewrite length_take, Nat.min_l by lia. by replace (S len - len)%nat with 1%nat by lia. }
    assert (drop (S len) s = e) as Hs by (replace (S len) with (len + 1)%nat by lia; by rewrite <-drop_drop, He).
    assert (S len <= length s)%nat as Hlen by (apply (f_equal length) in He; rewrite length_drop in He; simpl in He; lia).
    cbn [words_from]. destruct (Z.eqb_spec b 32) as [->|Hne].
    + destruct (decide (len = 0%nat)) as [->|Hn].
      * rewrite take_0. destruct (IH e 0%nat (S room)) as (ts & v & H); [done|lia|done|]. rewrite take_0 in H. by exists ts, v.
      * destruct (IH e 0%nat room) as (ts & v & -> & H2 & H3 & H4 & H4' & H5); [done|lia|done|]. rewrite take_0 in H2, H3.
        exists (Token (Some s) len :: ts), v. destruct (take len s) as [|x w] eqn:E.
        { apply (f_equal length) in E. rewrite length_take in E. simpl in E. lia. }
        split; [done|]. rewrite fmap_cons, H2. unfold t_key at 1. simpl. rewrite E. split_and!; [done|done|by constructor|by constructor|]. simpl. intros ?. apply H5. lia.
    + rewrite <-Hb. apply IH; [done|done|done].
Qed.

(** C18: The tokenizer splits a line into its words: the tokens before the terminal
    one are the first words of the line, as many as fit in the array, each with
    its text, and the terminal token points at a rest of the line with exactly
    the words that are left (at nothing when the whole line was scanned). *)
Theorem asc_tokenize_words command n (Hn : (1 < n)%nat) :
  exists ts v, asc_tokenize command n = ts ++ [Token v 0] /\
    t_key <$> ts = take (n - 1) (words command) /\
    words (default [] v) = drop (n - 1) (words command) /\ Forall proper ts /\
    ((length ts < n - 1)%nat -> v = None).
Proof.
  destruct (tokenize_loop_words command command 0 (n - 1)) as (ts & v & H1 & H2 & H3 & H4 & _ & H5); [done|lia|lia|]. by exists ts, v.
Qed.

Lemma asc_tokenize_words_witness :
  exists ts v, asc_tokenize (bytes "get 1  k1 k2 k3") 4 = ts ++ [Token v 0] /\
    t_key <$> ts = [bytes "get"; bytes "1"; bytes "k1"] /\ words (default [] v) = [bytes "k2"; bytes "k3"] /\ Forall proper ts /\
    ((length ts < 3)%nat -> v = None).
Proof. apply (asc_tokenize_words (bytes "get 1  k1 k2 k3") 4). lia. Defined.

(** ** Command names *)

Definition command_names : list (string * req_type) :=
  [("get", REQ_GET); ("set", REQ_SET); ("add", REQ_ADD); ("cas", REQ_CAS); ("dar", REQ_DAR); ("sar", REQ_SAR);
   ("gets", REQ_GETS); ("incr", REQ_INCR); ("decr", REQ_DECR); ("quit", REQ_QUIT); ("swap", REQ_SWAP);
   ("iset", REQ_ISET); ("iqget", REQ_IQGET); ("iqset", REQ_IQSET); ("stats", REQ_STATS); ("qareg", REQ_QAREG);
   ("ciget", REQ_CIGET); ("oqreg", REQ_OQREG); ("check", REQ_CHECK); ("append", REQ_APPEND);
   ("delete", REQ_DELETE); ("config", REQ_CONFIG); ("qaread", REQ_QAREAD); ("iqincr", REQ_IQINCR);
   ("iqdecr", REQ_IQDECR); ("commit", REQ_COMMIT); ("ftrans", REQ_FTRANS); ("oqread", REQ_OQREAD);
   ("oqswap", REQ_OQSWAP); ("oqincr", REQ_OQINCR); ("oqdecr", REQ_OQDECR); ("replace", REQ_REPLACE);
   ("prepend", REQ_PREPEND); ("version", REQ_VERSION); ("unlease", REQ_UNLEASE); ("release", REQ_RELEASE);
   ("dcommit", REQ_DCOMMIT); ("getprik", REQ_GETPRIK); ("oqwrite", REQ_OQWRITE); ("iqappend", REQ_IQAPPEND);
   ("validate", REQ_VALIDATE); ("oqappend", REQ_OQAPPEND); ("flush_all", REQ_FLUSHALL);
   ("verbosity", REQ_VERBOSITY); ("iqprepend", REQ_IQPREPEND); ("counlease", REQ_COUNLEASE);
   ("oqprepend", REQ_OQPREPEND); ("updateconf", REQ_UPDATECONFIG)].

Fixpoint name_lookup (w : list Z) (l : list (string * req_type)) : req_type :=
  match l with
  | [] => REQ_UNKNOWN
  | (name, t) :: l' => if decide (w = bytes name) then t else name_lookup w l'
  end.

(** The command a word names. *)
Definition command_of (w : list Z) : req_type := name_lookup w command_names.

(** Only the names of the length of the word matter. *)
Lemma name_lookup_length w l :
  name_lookup w l = name_lookup w (filter (fun e => length (bytes e.1) = length w) l).
Proof.
  induction l as [|[name t] l IH]; [done|]. destruct (decide (length (bytes name) = length w)) as [Hl|Hl].
  - rewrite filter_cons_True by done. cbn [name_lookup]. by rewrite IH.
  - rewrite filter_cons_False by done. cbn [name_lookup]. rewrite decide_False; [done|]. by intros ->.
Qed.

(** A literal is a name, possibly with the blank after it. *)
Definition names_of (l : list (string * req_type)) (lits : list (string * req_type)) : Prop :=
  Forall2 (fun e e' => e.2 = e'.2 /\ (bytes e'.1 = bytes e.1 \/ bytes e'.1 = bytes e.1 ++ [32])) l lits.

Lemma bytes_length lit : length (bytes lit) = String.length lit.
Proof. unfold bytes. rewrite length_fmap. induction lit as [|x l IH]; simpl; [done|by rewrite IH]. Qed.

Lemma first_match_names w r l lits :
  names_of l lits -> Forall (fun e => length (bytes e.1) = length w) l ->
  first_match (w ++ 32 :: r) lits = name_lookup w l.
Proof.
  induction 1 as [|[name t] [lit t'] l lits [E1 E2] HF IH]; intros Hl; [done|]. apply Forall_cons in Hl as [Hn Hl].
  cbn [fst snd] in *. subst t'. cbn [first_match name_lookup]. rewrite IH by done. unfold strcmp_n. rewrite <-bytes_length.
  destruct E2 as [->| ->].
  - rewrite Hn, take_app_length. case_bool_decide as E; [by rewrite decide_True|by rewrite decide_False].
  - rewrite length_app, Hn. simpl. rewrite take_app_add. simpl. case_bool_decide as E.
    + apply app_inj_tail in E as [-> _]. by rewrite decide_True.
    + rewrite decide_False; [done|]. intros ->. done.
Qed.

Lemma first_token e : forall s len room w w2 ws,
  drop len s = e -> (len <= length s)%nat -> words_from (take len s) e = w :: w2 :: ws ->
  exists r ts, asc_tokenize_loop s e len (S room) = Token (Some (w ++ 32 :: r)) (length w) :: ts /\ ts <> [].
Proof.
  induction e as [|b e IH]; intros s len room w w2 ws He Hl Hw; cbn [words_from asc_tokenize_loop] in *.
  - by destruct (take len s).
  - assert (s = take len s ++ b :: e) as Hs by (by rewrite <-He, take_drop).
    assert (S len <= length s)%nat as Hlen by (apply (f_equal length) in He; rewrite length_drop in He; simpl in He; lia).
    destruct (Z.eqb_spec b 32) as [->|Hne].
    + destruct (decide (len = 0%nat)) as [->|Hn].
      * rewrite take_0 in Hw. apply (IH e 0%nat room w w2 ws); [done|lia|done].
      * destruct (take len s) as [|x w'] eqn:E; [apply (f_equal length) in E; rewrite length_take in E; simpl in E; lia|].
        injection Hw as <- Hw. exists e, (asc_tokenize_loop e e 0 room). rewrite <-Hs. split.
        { f_equal. f_equal. rewrite <-E, length_take. lia. }
        destruct (tokenize_loop_words e e 0 room) as (ts & v & -> & _); [done|lia|done|]. by destruct ts.
    + apply (IH s (S len) room w w2 ws); [|done|].
      * replace (S len) with (len + 1)%nat by lia. by rewrite <-drop_drop, He.
      * rewrite Hs at 1. rewrite take_app_ge by (rewrite length_take; lia). rewrite length_take, Nat.min_l by lia.
        by replace (S len - len)%nat with 1%nat by lia.
Qed.

Ltac each_name :=
  unfold names_of;
  repeat (constructor; [split; [reflexivity|first [left; reflexivity|right; reflexivity]]|]);
  constructor.

Lemma parse_type_command req w w2 ws :
  words req = w :: w2 :: ws ->
  asc_parse_type (asc_tokenize req TOKEN_MAX) = Some (command_of w).
Proof.
  intros Hw. destruct (first_token req req 0 14 w w2 ws) as (r & ts & He & Hts); [done|lia|done|].
  unfold asc_parse_type, asc_tokenize. change (TOKEN_MAX - 1)%nat with 15%nat. rewrite He.
  rewrite decide_False by (destruct ts; simpl; [done|lia]). cbn [lookup list_lookup mbind option_bind t_val t_len].
  f_equal. unfold command_of. rewrite name_lookup_length.
  assert (forall n l lits, length w = n -> filter (fun e : string * req_type => length (bytes e.1) = n) command_names = l ->
    names_of l lits -> first_match (w ++ 32 :: r) lits = name_lookup w (filter (fun e => length (bytes e.1) = length w) command_names)) as Hgo.
  { intros n l lits Hn Hf Hl. rewrite Hn, Hf. apply first_match_names; [done|]. rewrite <-Hf, Hn. apply Forall_forall.
    intros e Hin. by apply list_elem_of_filter in Hin as [? _]. }
  remember (length w) as n eqn:En. symmetry in En.
  destruct n as [|[|[|[|[|[|[|[|[|[|[|n]]]]]]]]]]]; (eapply Hgo; [reflexivity|vm_compute; reflexivity|each_name]).
Qed.

(** The command of a request is the one its first word names, whatever
    follows; other words are unknown commands.  (A request of one word is
    recognised too, unless its name has three letters or is replace or prepend,
    which need arguments.) *)
Theorem asc_parse_type_names req w w2 ws (Hw : words req = w :: w2 :: ws) :
  asc_parse_type (asc_tokenize req TOKEN_MAX) = Some (command_of w).
Proof. exact (parse_type_command req w w2 ws Hw). Qed.

Lemma asc_parse_type_names_witness :
  asc_parse_type (asc_tokenize (bytes "cas -1 -1 k 0 0 5 7") TOKEN_MAX) = Some REQ_CAS.
Proof.
  refine (eq_trans (asc_parse_type_names (bytes "cas -1 -1 k 0 0 5 7") (bytes "cas") (bytes "-1")
    [bytes "-1"; bytes "k"; bytes "0"; bytes "0"; bytes "5"; bytes "7"] _) _); vm_compute; reflexivity.
Defined.

(** ** Running handlers *)

Lemma wp_on_store {A} (m : M st A) (Q : A -> asc -> Prop) c :
  wp m (fun a s => Q a (set_store s c)) (store c) -> wp (on_store m) Q c.
Proof. unfold wp, on_store. by destruct (m (store c)) as [[a s]|]. Qed.

Lemma wp_on_out {A} (m : M outv A) (Q : A -> asc -> Prop) c :
  wp m (fun a o => Q a (set_out o c)) (out c) -> wp (on_out m) Q c.
Proof. unfold wp, on_out. by destruct (m (out c)) as [[a o]|]. Qed.

Lemma wp_tok ts i t (Q : token -> asc -> Prop) c : ts !! i = Some t -> Q t c -> wp (tok ts i) Q c.
Proof. intros Ht HQ. by eapply wp_lift. Qed.

Ltac asc_step :=
  lazymatch goal with
  | |- wp (_ ≫= _) _ _ => apply wp_bind
  | |- wp (gets _) _ _ => apply wp_gets
  | |- wp (modify _) _ _ => apply wp_modify
  | |- wp (mret _) _ _ => apply wp_ret
  | |- wp (record _) _ _ => apply wp_modify
  | |- wp (on_store _) _ _ => apply wp_on_store
  | |- wp (conn_set_state _) _ _ => apply wp_modify
  | |- wp req_type_of _ _ => apply wp_gets
  end.
Ltac asc_go := cbv beta delta [id]; repeat (asc_step; cbv beta delta [id]).

(** Only statistics and the noreply flag differ. *)
Definition quiet c0 c : Prop :=
  exists es nr, c = set_noreply nr (set_store (set_events es (store c0)) c0).

Lemma quiet_refl c : quiet c c.
Proof. exists (events (store c)), (noreply c). destruct c as [[] ? ? ? ? ? ? ? ? ? ? ? ? ? ? ? ? ?]; done. Qed.

Lemma quiet_record e c0 c : quiet c0 c -> quiet c0 (set_store (set_events e (store c)) c).
Proof. intros (es & nr & ->). by exists e, nr. Qed.

Lemma quiet_noreply b c0 c : quiet c0 c -> quiet c0 (set_noreply b c).
Proof. intros (es & nr & ->). by exists es, b. Qed.

(** The text of the response when there is one. *)
Definition answered (texts : list string) c0 c : Prop :=
  exists c1, quiet c0 c1 /\
    ((noreply c1 = false /\ exists txt, txt ∈ texts /\
        c = set_write_and_go CONN_NEW_CMD (set_state CONN_WRITE (set_wdata (init (bytes txt ++ CRLF)) c1))) \/
     c = set_state CONN_NEW_CMD (set_noreply false c1)).

Lemma write_string_spec txt texts c0 c :
  quiet c0 c -> txt ∈ texts -> (length (bytes txt) + 2 <= wsize c0)%nat ->
  wp (asc_write_string (bytes txt)) (fun _ c' => answered texts c0 c') c.
Proof.
  intros Hq Ht Hw. unfold asc_write_string. asc_go. destruct (noreply c) eqn:En; asc_go.
  - exists c. split; [done|]. by right.
  - assert (wsize c = wsize c0) as Ew by (by destruct Hq as (es & nr & ->)).
    rewrite decide_False by lia. asc_go. exists c. split; [done|]. left. split; [done|]. by exists txt.
Qed.

Lemma client_error_spec texts c0 c :
  quiet c0 c -> "CLIENT_ERROR"%string ∈ texts -> (14 <= wsize c0)%nat ->
  wp asc_write_client_error (fun _ c' => answered texts c0 c') c.
Proof.
  intros Hq Ht Hw. unfold asc_write_client_error. asc_go. eapply write_string_spec; [by apply quiet_record|done|exact Hw].
Qed.

(** The tokens of a request. *)
Definition tokenized ts : Prop :=
  exists ts' v, ts = ts' ++ [Token v 0] /\ Forall proper ts' /\ ((length ts' < 15)%nat -> v = None).

Lemma tokenize_tokenized req : tokenized (asc_tokenize req TOKEN_MAX).
Proof.
  destruct (tokenize_loop_words req req 0 15) as (ts & v & He & _ & _ & Hp & _ & Hv); [done|lia|done|]. by exists ts, v.
Qed.

Lemma tokenized_lookup ts i : tokenized ts -> (S i < length ts)%nat -> exists t, ts !! i = Some t /\ proper t.
Proof.
  intros (ts' & v & -> & Hp & _) Hi. rewrite length_app in Hi. simpl in Hi.
  destruct (lookup_lt_is_Some_2 ts' i) as [t Ht]; [lia|]. exists t. split; [by apply lookup_app_l_Some|].
  by eapply Forall_lookup_1.
Qed.

Lemma noreply_maybe_spec ts c0 c : tokenized ts -> quiet c0 c -> wp (asc_set_noreply_maybe ts) (fun _ c' => quiet c0 c') c.
Proof.
  intros HT Hq. unfold asc_set_noreply_maybe. case_decide as Hl; asc_go; [done|].
  destruct (tokenized_lookup ts (length ts - 2) HT) as (t & Ht & [[s Hs] _]); [lia|].
  eapply wp_tok; [exact Ht|]. case_decide; asc_go; [|done]. eapply wp_lift; [exact Hs|].
  apply wp_when; intros _; asc_go; [by apply quiet_noreply|done].
Qed.

(** ** Configurations *)

(** The commands that carry the number of the client's configuration.  Of the
    memcached ones replace, append and prepend are left out: see below. *)
Definition config_checked (type : req_type) : bool :=
  match type with
  | REQ_GET | REQ_GETS | REQ_IQGET | REQ_ISET | REQ_IQSET | REQ_SET | REQ_ADD | REQ_CAS | REQ_INCR | REQ_DECR
  | REQ_DELETE | REQ_UNLEASE | REQ_QAREG | REQ_DAR | REQ_QAREAD | REQ_SAR | REQ_IQAPPEND | REQ_IQPREPEND
  | REQ_IQINCR | REQ_IQDECR | REQ_COMMIT | REQ_SWAP | REQ_OQINCR | REQ_OQDECR => true
  | _ => false
  end.

(** The request was answered and left the store, the configuration and the
    response under construction as they were. *)
Record refused c0 c : Prop := Refused {
  rf_store : store c = set_events (events (store c)) (store c0);
  rf_config : configuration_number c = configuration_number c0;
  rf_cn : cn c = cn c0;
  rf_out : out c = out c0;
  rf_item : c_item c = c_item c0 /\ ileft c = ileft c0;
  rf_answer : (state c = CONN_WRITE /\ wdata c ∈ [init (bytes "FAIL" ++ CRLF); init (bytes "CLIENT_ERROR" ++ CRLF)]) \/
    state c = CONN_NEW_CMD
}.

Lemma answered_refused texts c0 c :
  texts ⊆ ["FAIL"%string; "CLIENT_ERROR"%string] -> answered texts c0 c -> refused c0 c.
Proof.
  intros Hs (c1 & (es & nr & ->) & [(_ & txt & Ht & ->)| ->]); split; try done; [|by right].
  left. split; [done|]. apply Hs in Ht. simpl. set_solver.
Qed.

Lemma refused_swallow vlen c0 c : refused c0 c -> wp (swallow vlen) (fun _ c' => refused c0 c') c.
Proof. intros [? ? ? ? ? ?]. unfold swallow. asc_go. by split. Qed.

Ltac count_tokens H :=
  unfold asc_ntoken_valid in H;
  repeat match type of H with context [noreply ?c] => destruct (noreply c) end;
  cbn in H; apply andb_prop in H as [?%Z.leb_le ?%Z.leb_le].

Section refuse.
Context (ts : list token) (c0 : asc) (HT : tokenized ts) (Hw : (15 <= wsize c0)%nat).
Let R (_ : unit) (c : asc) : Prop := refused c0 c.

Lemma client_error_refused c : quiet c0 c -> wp asc_write_client_error R c.
Proof.
  intros Hq. eapply wp_mono; [apply (client_error_spec ["CLIENT_ERROR"%string] c0 c Hq); [set_solver|lia]|].
  intros ? c'. apply answered_refused. set_solver.
Qed.

Lemma valid_refused k c :
  quiet c0 c -> (asc_ntoken_valid (c_req_type (cn c0)) (noreply c) (Z.of_nat (length ts)) = true -> wp k R c) -> wp (valid_tokens ts k) R c.
Proof.
  intros Hq Hk. unfold valid_tokens. asc_go. assert (cn c = cn c0) as -> by (by destruct Hq as (es & nr & ->)).
  destruct (asc_ntoken_valid _ _ _); [by apply Hk|by apply client_error_refused].
Qed.

Lemma number_refused p i k c : quiet c0 c -> (S i < length ts)%nat -> (forall x, wp (k x) R c) -> wp (number p ts i k) R c.
Proof.
  intros Hq Hi Hk. unfold number. asc_go. destruct (tokenized_lookup ts i HT Hi) as (t & Ht & [[s Hs] _]).
  eapply wp_tok; [exact Ht|]. asc_go. eapply wp_lift; [exact Hs|]. destruct (p s) as [[] x]; [apply Hk|by apply client_error_refused].
Qed.

Lemma key_arg_refused max i k c : quiet c0 c -> (i < length ts)%nat -> (forall x, wp (k x) R c) -> wp (key_arg max ts i k) R c.
Proof.
  intros Hq Hi Hk. unfold key_arg. asc_go. destruct (lookup_lt_is_Some_2 ts i Hi) as [t Ht]. eapply wp_tok; [exact Ht|].
  case_decide; [by apply client_error_refused|apply Hk].
Qed.

Lemma arg_refused i k c : (i < length ts)%nat -> (forall x, wp (k x) R c) -> wp (arg ts i k) R c.
Proof. intros Hi Hk. unfold arg. asc_go. destruct (lookup_lt_is_Some_2 ts i Hi) as [t Ht]. eapply wp_tok; [exact Ht|]. apply Hk. Qed.

Lemma value_args_refused i k c :
  quiet c0 c -> (i + 3 < length ts)%nat -> (forall f e v, wp (k f e v) R c) -> wp (value_args ts i k) R c.
Proof. intros Hq Hi Hk. unfold value_args. do 3 (apply number_refused; [done|lia|intros ?]). apply Hk. Qed.

Context (t1 : token) (s1 : list Z) (n : Z).
Context (Ht1 : ts !! 1%nat = Some t1) (Hs1 : t_val t1 = Some s1) (Hn : mc_strtol s1 = (true, n)).
Context (Hn1 : n <> -1) (Hn2 : n <> configuration_number c0).

Lemma config_number k c : wp (k n) R c -> wp (number mc_strtol ts 1 k) R c.
Proof. intros Hk. unfold number. asc_go. eapply wp_tok; [exact Ht1|]. asc_go. eapply wp_lift; [exact Hs1|]. by rewrite Hn. Qed.

Lemma check_refused k c :
  quiet c0 c -> (forall c', refused c0 c' -> wp (k (-1)) R c') -> wp (asc_check_config n ≫= k) R c.
Proof.
  intros Hq Hk. unfold asc_check_config. asc_go. assert (configuration_number c = configuration_number c0) as -> by (by destruct Hq as (es & nr & ->)).
  destruct (Z.eqb_spec n (-1)); [done|]. destruct (Z.eqb_spec n (configuration_number c0)); [done|]. cbn [negb andb]. asc_go.
  eapply wp_mono; [apply (write_string_spec "FAIL" ["FAIL"%string] c0 c Hq); [set_solver|simpl; lia]|].
  intros ? c' Ha. asc_go. apply Hk. eapply answered_refused; [|exact Ha]. set_solver.
Qed.

Lemma with_config_refused k c : quiet c0 c -> wp (with_config ts k) R c.
Proof.
  intros Hq. unfold with_config. apply valid_refused; [done|]. intros _. apply config_number. unfold in_config.
  apply check_refused; [done|]. intros c' HR. cbn [Z.eqb]. asc_go. exact HR.
Qed.

(** What every handler starts with. *)
Definition refusing (k : M asc unit) : Prop := forall c, quiet c0 c -> wp k R c.

Lemma noreply_refusing k : refusing k -> refusing (asc_set_noreply_maybe ts;; k).
Proof. intros Hk c Hq. asc_go. eapply wp_mono; [by apply (noreply_maybe_spec ts c0 c)|]. intros ? c' Hq'. by apply Hk. Qed.

Lemma count_refusing k name : refusing k -> refusing (on_store (record (ThreadIncr name));; k).
Proof. intros Hk c Hq. asc_go. by apply Hk, quiet_record. Qed.

Lemma config_refusing k : refusing (with_config ts k).
Proof. intros c Hq. by apply with_config_refused. Qed.

(** The configuration is checked after the other arguments. *)
Ltac check_args :=
  repeat first
    [ apply number_refused; [done|lia|intros ?]
    | apply key_arg_refused; [done|lia|intros ?]
    | apply value_args_refused; [done|lia|intros ? ? ?]
    | apply arg_refused; [lia|intros ?] ].
Ltac check_config_ := apply check_refused; [done|]; intros ? ?; cbn [Z.eqb]; (by apply refused_swallow) || by asc_go.

Lemma update_refusing :
  c_req_type (cn c0) ∈ [REQ_SET; REQ_ADD; REQ_IQSET; REQ_CAS] -> refusing (asc_process_update ts).
Proof.
  intros Hty. apply noreply_refusing. intros c Hq. apply valid_refused; [done|]. intros Hv. apply config_number.
  assert (8 <= length ts)%nat as Hl.
  { unfold asc_ntoken_valid in Hv. set_unfold in Hty. destruct_or! Hty; rewrite Hty in Hv; count_tokens Hv; lia. }
  assert (c_req_type (cn c0) = REQ_IQSET -> (9 <= length ts)%nat) as Hl9 by (intros E; rewrite E in Hv; count_tokens Hv; lia).
  check_args. asc_go. assert (cn c = cn c0) as -> by (by destruct Hq as (es & nr & ->)). check_args. case_bool_decide as E.
  - apply Hl9 in E. check_args. check_config_.
  - check_config_.
Qed.

Lemma iqappend_refusing :
  c_req_type (cn c0) ∈ [REQ_IQAPPEND; REQ_IQPREPEND] -> refusing (asc_process_iqappend_iqprepend ts).
Proof.
  intros Hty. apply noreply_refusing. intros c Hq. apply valid_refused; [done|]. intros Hv. apply config_number.
  assert (6 <= length ts)%nat as Hl by (set_unfold in Hty; destruct_or! Hty; rewrite Hty in Hv; count_tokens Hv; lia).
  check_args. check_config_.
Qed.

Lemma commit_refusing : (6 <= length ts)%nat -> refusing (asc_process_commit ts).
Proof.
  intros Hl. apply noreply_refusing. intros c Hq. apply valid_refused; [done|]. intros _. apply config_number.
  check_args. check_config_.
Qed.

Lemma swap_refusing : c_req_type (cn c0) = REQ_SWAP -> refusing (asc_process_swap ts).
Proof.
  intros Hty. apply noreply_refusing. intros c Hq. apply valid_refused; [done|]. intros Hv. apply config_number.
  assert (9 <= length ts)%nat as Hl by (rewrite Hty in Hv; count_tokens Hv; lia).
  check_args. check_config_.
Qed.
End refuse.

(** C17: A client that is in another configuration than the server is refused.  For
    every command that carries a configuration number and every request line
    with a wrong number, the server answers FAIL (or CLIENT_ERROR when an
    argument is malformed, or nothing under noreply) without undefined
    behaviour, and neither the items nor anything else of the store changes.
    (A commit without its last argument is not covered: the code would read the
    text of the terminal token.) *)
Theorem stale_client_refused e req type t1 s1 n c
  (Hty : config_checked type = true) (Hreq : c_req_type (cn c) = type)
  (Ht1 : asc_tokenize req TOKEN_MAX !! 1%nat = Some t1) (Hs1 : t_val t1 = Some s1)
  (Hn : mc_strtol s1 = (true, n)) (Hn1 : n <> -1) (Hn2 : n <> configuration_number c)
  (Hw : (15 <= wsize c)%nat)
  (Hcommit : type = REQ_COMMIT -> (6 <= length (asc_tokenize req TOKEN_MAX))%nat) :
  wp (asc_handle e type (asc_tokenize req TOKEN_MAX)) (fun _ c' => refused c c') c.
Proof.
  pose proof (tokenize_tokenized req) as HT. set (ts := asc_tokenize req TOKEN_MAX) in *. clearbody ts.
  assert (refusing c (asc_handle e type ts)) as H; [|apply H, quiet_refl].
  assert (forall k, refusing c (with_config ts k)) as Hcfg by (intros k; by eapply config_refusing).
  pose proof (fun k => noreply_refusing ts c HT k) as Hnr. pose proof (fun k => count_refusing c k) as Hct.
  destruct type; try discriminate Hty; cbn [asc_handle];
    lazymatch goal with |- refusing _ (_ ≫= _) => apply Hct | _ => idtac end;
    lazymatch goal with
    | |- refusing _ (asc_process_update _) => eapply update_refusing; try done; rewrite Hreq; set_solver
    | |- refusing _ (asc_process_iqappend_iqprepend _) => eapply iqappend_refusing; try done; rewrite Hreq; set_solver
    | |- refusing _ (asc_process_commit _) => eapply commit_refusing; try done; by apply Hcommit
    | |- refusing _ (asc_process_swap _) => by eapply swap_refusing
    | |- refusing _ (asc_process_read _ _) => apply Hcfg
    | |- _ => apply Hnr, Hcfg
    end.
Qed.

(** A server in configuration 3. *)
Definition ex_asc (s : st) (type : req_type) : asc :=
  Asc s 3 (LogSettings false false 100 100000 5) ex_out (Conn type 0 []) CONN_PARSE CONN_NEW_CMD false [] 2048 None 0 0 0
    200 [] 20 0.
Definition ex_renv : request_env := RequestEnv 8 1100 [] (fun _ => None).

Lemma stale_client_refused_witness :
  wp (asc_handle ex_renv REQ_SET (asc_tokenize (bytes "set 2 -1 foo 0 0 5") TOKEN_MAX))
    (fun _ c' => refused (ex_asc ex_init REQ_SET) c') (ex_asc ex_init REQ_SET).
Proof.
  assert (2 <> -1) as Hn1 by lia. assert (2 <> configuration_number (ex_asc ex_init REQ_SET)) as Hn2 by (simpl; lia).
  assert (15 <= wsize (ex_asc ex_init REQ_SET))%nat as Hw by (simpl; lia).
  assert (REQ_SET = REQ_COMMIT -> (6 <= length (asc_tokenize (bytes "set 2 -1 foo 0 0 5") TOKEN_MAX))%nat) as Hc by discriminate.
  refine (stale_client_refused ex_renv (bytes "set 2 -1 foo 0 0 5") REQ_SET (Token (Some (bytes "2 -1 foo 0 0 5")) 1)
    (bytes "2 -1 foo 0 0 5") 2 (ex_asc ex_init REQ_SET) eq_refl eq_refl _ eq_refl _ Hn1 Hn2 Hw Hc); vm_compute; reflexivity.
Defined.

(** ** Commands that cannot be given *)

Lemma wlp_tok ts i Q c : (forall t, ts !! i = Some t -> Q t c) -> wlp (tok ts i) Q c.
Proof. unfold wlp, tok, lift. destruct (ts !! i); auto. Qed.

Lemma tokenized_last ts n : tokenized ts -> length ts = S n -> (n < 15)%nat -> ts !! n = Some (Token None 0).
Proof.
  intros (ts' & v & -> & _ & Hv) Hl Hn. rewrite length_app in Hl. simpl in Hl.
  rewrite lookup_app_r by lia. replace (n - length ts')%nat with 0%nat by lia. simpl. by rewrite Hv by lia.
Qed.

(** Text that no number starts with. *)
Lemma strto_scan_bad base s b s' : s = b :: s' -> isspace b = false -> b <> 43 -> b <> 45 -> digit_in base b = false ->
  strto_scan base s = (false, 0, s).
Proof.
  intros -> Hs Hp Hm Hd. unfold strto_scan. simpl. rewrite Hs.
  destruct b as [|q|q]; try (by rewrite Hd).
  do 7 (destruct q as [q|q|]; try (by rewrite Hd); try done).
Qed.

(** Nothing of the store changed but statistics. *)
Definition untouched c0 c : Prop := exists es, store c = set_events es (store c0).

Lemma quiet_untouched c0 c : quiet c0 c -> untouched c0 c.
Proof. intros (es & nr & ->). by exists es. Qed.

Lemma write_string_untouched str c0 c : untouched c0 c -> wp (asc_write_string str) (fun _ c' => untouched c0 c') c.
Proof.
  intros [es He]. unfold asc_write_string. asc_go. destruct (noreply c); asc_go; [by exists es|].
  case_decide; asc_go; [|by exists es]. cbn [store set_store]. rewrite He. by eexists.
Qed.

Lemma client_error_untouched c0 c : untouched c0 c -> wp asc_write_client_error (fun _ c' => untouched c0 c') c.
Proof.
  intros [es He]. unfold asc_write_client_error. asc_go. apply write_string_untouched. cbn [store set_store]. rewrite He. by eexists.
Qed.

(** The noreply flag is set only by the word. *)
Lemma noreply_maybe_sets ts c : tokenized ts -> noreply c = false ->
  wp (asc_set_noreply_maybe ts) (fun _ c' => quiet c c' /\ (noreply c' = true -> exists t s r,
    ts !! (length ts - 2)%nat = Some t /\ t_val t = Some s /\ s = bytes "noreply" ++ r)) c.
Proof.
  intros HT Hn. unfold asc_set_noreply_maybe. case_decide as Hl; asc_go; [split; [apply quiet_refl|congruence]|].
  destruct (tokenized_lookup ts (length ts - 2) HT) as (t & Ht & [[s Hs] _]); [lia|].
  eapply wp_tok; [exact Ht|]. case_decide; asc_go; [|split; [apply quiet_refl|congruence]]. eapply wp_lift; [exact Hs|].
  apply wp_when; intros Hb; asc_go; [|split; [apply quiet_refl|congruence]]. split; [apply quiet_noreply, quiet_refl|]. intros _.
  exists t, s, (drop 7 s). split_and!; [done|done|]. apply bool_decide_eq_true_1 in Hb. rewrite <-(take_drop 7 s) at 1. f_equal. exact Hb.
Qed.

Section dead.
Context (ts : list token) (c0 : asc) (HT : tokenized ts).
Let R (_ : unit) (c : asc) : Prop := untouched c0 c.

Lemma valid_dead k c :
  quiet c0 c -> (asc_ntoken_valid (c_req_type (cn c0)) (noreply c) (Z.of_nat (length ts)) = true -> wlp k R c) ->
  wlp (valid_tokens ts k) R c.
Proof.
  intros Hq Hk. unfold valid_tokens. apply wlp_bind, wlp_wp, wp_gets, wlp_bind, wlp_wp, wp_gets.
  assert (cn c = cn c0) as -> by (by destruct Hq as (es & nr & ->)).
  destruct (asc_ntoken_valid _ _ _); [by apply Hk|]. by apply wlp_wp, client_error_untouched, quiet_untouched.
Qed.

Lemma number_dead p i k c :
  quiet c0 c -> (forall t s x, ts !! i = Some t -> t_val t = Some s -> p s = (true, x) -> wlp (k x) R c) ->
  wlp (number p ts i k) R c.
Proof.
  intros Hq Hk. unfold number. apply wlp_bind, wlp_tok. intros t Ht. apply wlp_bind. unfold wlp at 1, lift.
  destruct (t_val t) as [s|] eqn:Es; [|done]. destruct (p s) as [[] x] eqn:Ep; [by eapply Hk|].
  by apply wlp_wp, client_error_untouched, quiet_untouched.
Qed.

Lemma key_arg_dead max i k c : quiet c0 c -> (forall x, wlp (k x) R c) -> wlp (key_arg max ts i k) R c.
Proof.
  intros Hq Hk. unfold key_arg. apply wlp_bind, wlp_tok. intros t _. case_decide; [|apply Hk].
  by apply wlp_wp, client_error_untouched, quiet_untouched.
Qed.

Lemma arg_dead i k c : (forall x, wlp (k x) R c) -> wlp (arg ts i k) R c.
Proof. intros Hk. unfold arg. apply wlp_bind, wlp_tok. intros t _. apply Hk. Qed.

Lemma with_config_dead k c :
  quiet c0 c -> (asc_ntoken_valid (c_req_type (cn c0)) (noreply c) (Z.of_nat (length ts)) = true -> wlp k R c) ->
  wlp (with_config ts k) R c.
Proof.
  intros Hq Hk. unfold with_config. apply valid_dead; [done|]. intros Hv. apply number_dead; [done|]. intros _ _ n _ _ _.
  unfold in_config, asc_check_config. apply wlp_bind, wlp_bind, wlp_wp. asc_go. destruct (_ && _).
  - apply wlp_bind, wlp_wp. eapply wp_mono; [by apply (write_string_untouched _ c0), quiet_untouched|]. intros ? c' Hu. by apply wlp_wp.
  - apply wlp_wp. asc_go. destruct (_ =? -1); [by apply wlp_wp, wp_ret, quiet_untouched|by apply Hk].
Qed.

(** The number a dead command needs is missing or is the word noreply. *)
Lemma number_dies p i k c :
  (forall r, p (bytes "noreply" ++ r) = (false, 0)) -> quiet c0 c -> (i < 14)%nat ->
  (noreply c = true -> exists t s r, ts !! (length ts - 2)%nat = Some t /\ t_val t = Some s /\ s = bytes "noreply" ++ r) ->
  length ts = (if noreply c then i + 2 else i + 1)%nat -> wlp (number p ts i k) R c.
Proof.
  intros Hp Hq Hi Hnr Hl. apply number_dead; [done|]. intros t s x Ht Hs Hx. exfalso. destruct (noreply c).
  - destruct Hnr as (t' & s' & r & Ht' & Hs' & ->); [done|]. replace (length ts - 2)%nat with i in Ht' by lia.
    assert (s = bytes "noreply" ++ r) as Es by congruence. rewrite Es, Hp in Hx. discriminate Hx.
  - rewrite (tokenized_last ts i HT) in Ht by lia. by injection Ht as <-.
Qed.

(** The state a handler runs in after the check for noreply. *)
Definition flagged c : Prop := quiet c0 c /\
  (noreply c = true -> exists t s r, ts !! (length ts - 2)%nat = Some t /\ t_val t = Some s /\ s = bytes "noreply" ++ r).

Lemma noreply_dead k c : quiet c0 c -> noreply c = false -> (forall c1, flagged c1 -> wlp k R c1) -> wlp (asc_set_noreply_maybe ts;; k) R c.
Proof.
  intros Hq Hn Hk. apply wlp_bind, wlp_wp. eapply wp_mono; [by apply noreply_maybe_sets|].
  intros ? c1 [(es & nr & ->) Hf]. apply Hk. split; [|exact Hf]. destruct Hq as (es' & nr' & ->). by exists es, nr.
Qed.

Lemma update_dead c :
  c_req_type (cn c0) ∈ [REQ_REPLACE; REQ_APPEND; REQ_PREPEND] -> quiet c0 c -> noreply c = false -> wlp (asc_process_update ts) R c.
Proof.
  intros Hty Hq Hn. apply noreply_dead; [done|done|]. intros c1 [Hq1 Hf]. apply valid_dead; [done|]. intros Hv.
  assert (length ts = (if noreply c1 then 6 + 2 else 6 + 1)%nat) as Hl.
  { set_unfold in Hty. destruct_or! Hty; rewrite Hty in Hv; unfold asc_ntoken_valid in Hv; destruct (noreply c1); cbn in Hv;
      apply andb_prop in Hv as [?%Z.leb_le ?%Z.leb_le]; lia. }
  do 2 (apply number_dead; [done|]; intros ? ? ? _ _ _). apply wlp_bind, wlp_wp. asc_go. apply key_arg_dead; [done|]. intros key.
  do 2 (apply number_dead; [done|]; intros ? ? ? _ _ _). apply number_dies; [done|done|lia|done|done].
Qed.

Lemma oqincr_dead c :
  c_req_type (cn c0) ∈ [REQ_OQINCR; REQ_OQDECR] -> quiet c0 c -> noreply c = false -> wlp (asc_process_oqincr_oqdecr ts) R c.
Proof.
  intros Hty Hq Hn. apply noreply_dead; [done|done|]. intros c1 [Hq1 Hf]. apply with_config_dead; [done|]. intros Hv.
  assert (length ts = (if noreply c1 then 4 + 2 else 4 + 1)%nat) as Hl.
  { set_unfold in Hty. destruct_or! Hty; rewrite Hty in Hv; unfold asc_ntoken_valid in Hv; destruct (noreply c1); cbn in Hv;
      apply andb_prop in Hv as [?%Z.leb_le ?%Z.leb_le]; lia. }
  apply arg_dead. intros sid. apply key_arg_dead; [done|]. intros key. apply number_dies; [done|done|lia|done|done].
Qed.
End dead.

(** C39: replace, append, prepend, oqincr and oqdecr never take effect.  The number
    of tokens the server accepts for them is one less than their handlers read, so
    the last number is missing or is the word noreply: whatever the request line,
    the handler changes nothing of the store but its statistics, if it returns at
    all.  (Reading the missing number may be undefined behaviour; nothing is said
    about the answer.) *)
Theorem dead_commands e req type c c'
  (Hty : type ∈ [REQ_REPLACE; REQ_APPEND; REQ_PREPEND; REQ_OQINCR; REQ_OQDECR])
  (Hreq : c_req_type (cn c) = type) (Hn : noreply c = false)
  (Hrun : asc_handle e type (asc_tokenize req TOKEN_MAX) c = Some (tt, c')) :
  exists es, store c' = set_events es (store c).
Proof.
  pose proof (tokenize_tokenized req) as HT. set (ts := asc_tokenize req TOKEN_MAX) in *. clearbody ts.
  assert (wlp (asc_handle e type ts) (fun _ c' => untouched c c') c) as H; [|unfold wlp in H; by rewrite Hrun in H].
  assert (forall name, quiet c (set_store (set_events (ThreadIncr name :: events (store c)) (store c)) c)) as Hq
    by (intros name; apply quiet_record, quiet_refl).
  clear Hrun. set_unfold in Hty. destruct_or! Hty; rewrite Hty in Hreq |- *; cbn [asc_handle];
    lazymatch goal with
    | |- wlp (_ ≫= _) _ _ => apply wlp_bind, wlp_wp; asc_go; apply update_dead; [done|rewrite Hreq; set_solver|apply Hq|done]
    | |- _ => apply oqincr_dead; [done|rewrite Hreq; set_solver|apply quiet_refl|done]
    end.
Qed.

Lemma dead_commands_witness :
  exists c', asc_handle ex_renv REQ_APPEND (asc_tokenize (bytes "append -1 -1 foo 0 0 2") TOKEN_MAX) (ex_asc ex_init REQ_APPEND) = Some (tt, c') /\
    exists es, store c' = set_events es ex_init.
Proof.
  destruct (asc_handle ex_renv REQ_APPEND (asc_tokenize (bytes "append -1 -1 foo 0 0 2") TOKEN_MAX) (ex_asc ex_init REQ_APPEND))
    as [[[] c']|] eqn:He; [|vm_compute in He; discriminate He].
  exists c'. split; [reflexivity|].
  refine (dead_commands ex_renv (bytes "append -1 -1 foo 0 0 2") REQ_APPEND (ex_asc ex_init REQ_APPEND) c' _ eq_refl eq_refl He).
  set_solver.
Defined.

(** Some request lines that run into undefined behaviour in every state: each passes
    the check on the number of tokens of its command, and the handler then reads
    the text of the terminal token, which is NULL, or, for delete, answers a result
    that was never set. *)
Lemma short_requests_crash e c req type
  (Hin : (req, type) ∈ [("replace 1 2 3 4 5", REQ_REPLACE); ("append 1 2 3 4 5", REQ_APPEND); ("prepend 1 2 3 4 5", REQ_PREPEND);
    ("oqincr -1 s k", REQ_OQINCR); ("oqdecr -1 s k", REQ_OQDECR); ("iqget -1 k 0", REQ_IQGET); ("iset -1 k", REQ_ISET);
    ("commit -1 -1 t", REQ_COMMIT); ("verbosity 1", REQ_VERBOSITY); ("flush_all 10", REQ_FLUSHALL);
    ("config x evict", REQ_CONFIG); ("config x aggregate", REQ_CONFIG); ("delete -1 0", REQ_DELETE)]%string)
  (Hreq : c_req_type (cn c) = type) (Hn : noreply c = false) (Hcfg : configuration_number c <> -1) :
  asc_parse_type (asc_tokenize (bytes req) TOKEN_MAX) = Some type /\
  asc_handle e type (asc_tokenize (bytes req) TOKEN_MAX) c = None.
Proof.
  destruct e as [fuel tv ver rep], c as [s cn0 lg o [ty tk td] x1 x2 nr x3 x4 x5 x6 x7 x8 x9 x10 x11 x12]. simpl in Hreq, Hn, Hcfg. subst ty nr.
  assert (asc_parse_type (asc_tokenize (bytes req) TOKEN_MAX) = Some type /\
    forall cn0, cn0 <> -1 -> asc_handle (RequestEnv fuel tv ver rep) type (asc_tokenize (bytes req) TOKEN_MAX)
      (Asc s cn0 lg o (Conn type tk td) x1 x2 false x3 x4 x5 x6 x7 x8 x9 x10 x11 x12) = None) as [H1 H2]; [|by auto].
  clear cn0 Hcfg.
  repeat (apply elem_of_cons in Hin as [Hin|Hin]; [injection Hin as -> ->; split; [reflexivity|intros [|p|[p|p|]] Hp; [..|done]; destruct fuel; vm_compute; reflexivity]|]).
  by apply elem_of_nil in Hin.
Qed.
