(* ===== verification/GetOk.v ===== *)
(** * Correctness of get

    A get request, from its line to the bytes of the response: for every key in
    the order of the request the response has the value the store serves, or
    nothing, and the items it points into stay referenced until it is sent. *)

From S2P Require Import Prelude Util Time Lease Assoc Item State Slabs Items IQ CO Conn Ascii AsciiCmd.
From S2P Require Import Inv SlabsOk ItemsOk StoreOk ConnOk AsciiOk.
Open Scope Z_scope.
Implicit Types (a b : addr) (it : item) (s : st) (k : list Z) (o : outv) (c : asc) (ts : list token).

(** ** Responses when there is memory *)

Definition plenty o : Prop := forall n, reallocs o n = true.

(** What an operation answers when there is memory, and that it changes neither
    whether there is nor the message that is sent. *)
Definition with_memory {A} (m : M outv A) (P : A -> Prop) : Prop :=
  forall o r o', m o = Some (r, o') -> plenty o -> P r /\ reallocs o' = reallocs o /\ msg_curr o' = msg_curr o.

Section with_memory.
Lemma wm_bind {A B} (m : M outv A) (f : A -> M outv B) P Q :
  with_memory m P -> (forall x, P x -> with_memory (f x) Q) -> with_memory (m ≫= f) Q.
Proof.
  intros Hm Hk o r o' He HP. unfold mbind, M_bind in He. destruct (m o) as [[x o1]|] eqn:E; [|done].
  destruct (Hm _ _ _ E HP) as (Ha & Hr & Hc). destruct (Hk x Ha o1 r o' He) as (HQ & Hr' & Hc'); [intros n; by rewrite Hr|]. split_and!; [done|congruence|congruence].
Qed.
Lemma wm_ret {A} (x : A) (P : A -> Prop) : P x -> with_memory (mret x) P.
Proof. intros HP o r o' [= <- <-] _. done. Qed.
Lemma wm_gets {A} (f : outv -> A) : with_memory (gets f) (fun _ => True).
Proof. intros o r o' [= <- <-] _. done. Qed.
Lemma wm_modify f : (forall o, reallocs (f o) = reallocs o /\ msg_curr (f o) = msg_curr o) -> with_memory (modify f) (fun _ => True).
Proof. intros Hf o r o' [= <- <-] _. auto. Qed.
Lemma wm_lift {A} (x : option A) : with_memory (lift x) (fun _ => True).
Proof. intros o r o' He _. destruct x; [by injection He as <- <-|done]. Qed.
Lemma wm_realloc : with_memory realloc (fun r => r = true).
Proof. intros o r o' [= <- <-] HP. by rewrite HP. Qed.
Lemma wm_undef {A} (P : A -> Prop) : with_memory undef P.
Proof. by intros o r o'. Qed.
End with_memory.

Ltac wm_leaf := first [apply wm_gets | apply wm_realloc | apply wm_lift | by apply wm_modify].
Ltac wm :=
  repeat first
    [ by apply wm_ret
    | wm_leaf
    | eapply wm_bind; [wm_leaf|let H := fresh in intros ? H; cbv beta in H; subst]
    | progress cbn [negb]
    | case_match ].

Lemma wm_get_msg i : with_memory (get_msg i) (fun _ => True).
Proof. unfold get_msg. wm. Qed.
Lemma wm_put_msg i m : with_memory (put_msg i m) (fun _ => True).
Proof. unfold put_msg. wm. Qed.
Lemma wm_put_iov i buf : with_memory (put_iov i buf) (fun _ => True).
Proof. unfold put_iov. wm. Qed.

Lemma wm_ensure : with_memory conn_ensure_iov_space (fun r => r = MC_OK).
Proof. unfold conn_ensure_iov_space. wm. Qed.

Lemma wm_push buf : with_memory (push_iov buf) (fun _ => True).
Proof.
  unfold push_iov. eapply wm_bind; [apply wm_gets|]; intros o _. eapply wm_bind; [apply wm_get_msg|]; intros m _.
  eapply wm_bind; [apply wm_put_iov|]; intros ? _. do 2 (eapply wm_bind; [by apply wm_modify|]; intros ? _). apply wm_put_msg.
Qed.

Lemma wm_add_msghdr add_iov :
  (forall buf, with_memory (add_iov buf) (fun r => r = MC_OK)) -> with_memory (conn_add_msghdr_ add_iov) (fun r => r = MC_OK).
Proof.
  intros Ha. unfold conn_add_msghdr_. eapply wm_bind; [apply wm_gets|]; intros o _.
  eapply (wm_bind _ _ (fun r => r = MC_OK)); [wm|]. intros ? ->. cbn. eapply wm_bind; [apply wm_put_msg|]; intros ? _.
  do 2 (eapply wm_bind; [by apply wm_modify|]; intros ? _). destruct (udp o); [apply Ha|by apply wm_ret].
Qed.

Lemma wm_add_iov fuel : forall buf, with_memory (conn_add_iov_loop fuel buf) (fun r => r = MC_OK).
Proof.
  induction fuel as [|fuel IH]; intros buf; [apply wm_undef|]. cbn [conn_add_iov_loop].
  eapply wm_bind; [apply wm_gets|]; intros o _. eapply wm_bind; [apply wm_get_msg|]; intros m _.
  eapply (wm_bind _ _ (fun r => r = MC_OK)); [case_match; [by apply wm_add_msghdr|by apply wm_ret]|]. intros ? ->. cbn [negb].
  rewrite bool_decide_true by done. cbn [negb]. eapply wm_bind; [apply wm_ensure|]. intros ? ->. rewrite bool_decide_true by done. cbn [negb].
  eapply wm_bind; [apply wm_gets|]; intros o' _. eapply wm_bind; [apply wm_push|]; intros ? _. case_match; [apply IH|by apply wm_ret].
Qed.

(** The response so far, over TCP: its bytes, and [n] empty entries more than
    the bytes of its last message account for. *)
Definition resp_ (n : nat) o (P : mem) : Prop :=
  plenty o /\ udp o = false /\ exists ms cur, vector (ms ++ [cur]) o /\ payload o (ms ++ [cur]) = P /\ Forall carries ms /\ dense n cur.
Abbreviation resp := (resp_ 0).

(** A whole response: every message carries bytes. *)
Definition whole o (P : mem) : Prop :=
  plenty o /\ udp o = false /\ exists ms, vector ms o /\ payload o ms = P /\ Forall carries ms.

Lemma resp_weaken n o P : resp o P -> resp_ n o P.
Proof. intros (HP & HU & ms & cur & V & E & Hc & Hd). split_and!; [done..|]. exists ms, cur. split_and!; [done..|]. unfold dense in *. lia. Qed.

Lemma conn_add_iov_resp n o P buf : (n <= 1)%nat -> resp_ n o P ->
  wp (conn_add_iov buf) (fun r o' => r = MC_OK /\ resp_ (if decide (buf = []) then S n else 0) o' (P ++ buf) /\ (buf <> [] -> whole o' (P ++ buf))) o.
Proof.
  intros Hn (HP & HU & ms & cur & V & <- & Hc & Hd). assert (headed (ms ++ [cur]) o) as HH by (intros Hu; congruence).
  destruct (wp_elim _ _ _ (add_iov_loop_spec (S (S (length buf))) buf ms cur o ltac:(lia) V HH)) as (r & o' & He & U & Hr).
  destruct (wm_add_iov _ _ _ _ _ He HP) as (-> & Hre & _). apply (wp_intro _ _ _ _ _ He). split; [done|].
  destruct Hr as [(_ & ms' & cur' & V' & _ & P' & D')|[? _]]; [|done]. destruct (D' n Hn Hc Hd) as (D1 & D2 & D3).
  assert (payload o' (ms' ++ [cur']) = payload o (ms ++ [cur]) ++ buf) as Hp by (rewrite <-P'; unfold payload; by rewrite U).
  assert (plenty o') as HP' by (intros k; by rewrite Hre). split.
  - split_and!; [done|congruence|]. exists ms', cur'. split_and!; [done..|]. case_decide; [by apply D2|by apply D3].
  - intros Hb. split_and!; [done|congruence|]. exists (ms' ++ [cur']). split_and!; [done..|]. apply Forall_app.
    split; [done|]. apply Forall_singleton. by apply D3.
Qed.

Lemma resp_nrealloc n o P m : resp_ n o P -> resp_ n (set_nrealloc m o) P.
Proof. intros (HP & HU & ms & cur & [] & HPl). split_and!; [done|done|]. exists ms, cur. split; [by split|done]. Qed.

Lemma realloc_resp n o P : resp_ n o P -> wp realloc (fun r o' => r = true /\ resp_ n o' P) o.
Proof. intros HR. unfold realloc. out_go. split; [apply HR|]. by apply resp_nrealloc. Qed.

(** ** Parts of a response *)

(** Only the store and the response vector, and the sizes of its lists, differ. *)
Definition within c c' : Prop := exists s o i z, c' = set_store s (set_out o (set_isize i (set_ssize z c))).

Lemma within_refl c : within c c.
Proof. exists (store c), (out c), (isize c), (ssize c). by destruct c. Qed.
Lemma within_trans c1 c2 c3 : within c1 c2 -> within c2 c3 -> within c1 c3.
Proof. intros (s & o & i & z & ->) (s' & o' & i' & z' & ->). by exists s', o', i', z'. Qed.
Lemma within_store c s : within c (set_store s c).
Proof. exists s, (out c), (isize c), (ssize c). by destruct c. Qed.

(** What a part adds to the response; the store is not changed. *)
Definition adds_ (n : nat) c (P : mem) (r : rstatus) c' : Prop :=
  r = MC_OK /\ within c c' /\ store c' = store c /\ resp_ n (out c') P.
Abbreviation adds := (adds_ 0).

Lemma or_return_spec n m m' c P1 P2 :
  wp m (adds_ n c P1) c -> (forall c', within c c' -> store c' = store c -> resp_ n (out c') P1 -> wp m' (adds c' P2) c') ->
  wp (or_return m m') (adds c P2) c.
Proof.
  intros Hm Hk. unfold or_return. apply wp_bind. eapply wp_mono; [exact Hm|]. intros r c' (-> & W & Hs & HR).
  rewrite bool_decide_true by done. eapply wp_mono; [by apply Hk|]. intros r c'' (-> & W' & Hs' & HR').
  split_and!; [done|by eapply within_trans|congruence|done].
Qed.

Lemma within_out c o : within c (set_out o c).
Proof. exists (store c), o, (isize c), (ssize c). by destruct c. Qed.

(** A buffer with bytes, and one that may be empty. *)
Lemma add_iov_adds n c P buf : (n <= 1)%nat -> buf <> [] -> resp_ n (out c) P ->
  wp (add_iov buf) (fun r c' => adds c (P ++ buf) r c' /\ whole (out c') (P ++ buf)) c.
Proof.
  intros Hn Hb HR. unfold add_iov. apply wp_on_out. eapply wp_mono; [by apply (conn_add_iov_resp n)|].
  intros r o' (-> & HR' & Hw). rewrite decide_False in HR' by done. split; [|by apply Hw]. split_and!; [done|apply within_out|done|done].
Qed.

Lemma add_bytes_adds n c P (b : Z) bs : (n <= 1)%nat -> resp_ n (out c) P -> wp (add_iov (init (b :: bs))) (adds c (P ++ init (b :: bs))) c.
Proof. intros Hn HR. eapply wp_mono; [by apply (add_iov_adds n)|]. by intros r c' [? _]. Qed.

Lemma add_any_adds c P buf : resp (out c) P -> wp (add_iov buf) (adds_ 1 c (P ++ buf)) c.
Proof.
  intros HR. unfold add_iov. apply wp_on_out. eapply wp_mono; [apply (conn_add_iov_resp 0); [lia|done]|]. intros r o' (-> & HR' & _).
  split_and!; [done|apply within_out|done|]. case_decide; [done|by apply resp_weaken].
Qed.

Lemma create_suffix_adds n c P i : resp_ n (out c) P -> wp (asc_create_suffix i) (adds_ n c P) c.
Proof.
  intros HR. unfold asc_create_suffix. asc_go.
  assert (forall c1, within c c1 -> store c1 = store c -> resp_ n (out c1) P ->
    wp (ok ← on_out realloc; if negb ok then asc_write_server_error;; mret MC_ENOMEM else mret MC_OK) (adds_ n c P) c1) as Hlast.
  { intros c1 W1 S1 R1. asc_go. apply wp_on_out. eapply wp_mono; [by apply realloc_resp|]. intros r o' [-> HR']. cbn [negb].
    asc_go. split_and!; [done| |done|done]. eapply within_trans; [exact W1|]. exists (store c1), o', (isize c1), (ssize c1). by destruct c1. }
  case_decide; asc_go.
  - apply wp_on_out. eapply wp_mono; [by apply realloc_resp|]. intros r o' [-> HR']. cbn [when]. asc_go. cbn [negb].
    apply Hlast; [|done|done]. by exists (store c), o', (isize c), (ssize c * 2)%nat.
  - cbn [negb]. apply Hlast; [apply within_refl|done|done].
Qed.

Lemma suffix_text_fits use txt : (length txt <= 43)%nat -> (length txt < suffix_size use)%nat -> suffix_text use txt = Some (init txt).
Proof.
  intros H1 H2. unfold suffix_text, SUFFIX_MAX_LEN. replace (44 - 1)%nat with 43%nat by lia. rewrite (take_ge txt) by lia.
  rewrite decide_True by lia. f_equal. rewrite init_app, <-app_assoc. rewrite <-(length_init txt) at 1. apply take_app_length.
Qed.

Lemma add_suffix_adds n c P (b : Z) bs : let txt := b :: bs in (n <= 1)%nat ->
  resp_ n (out c) P -> (length txt <= 43)%nat -> (length txt < suffix_size (use_cas (cfg (store c))))%nat ->
  wp (add_suffix txt) (adds c (P ++ init txt)) c.
Proof.
  intros txt Hn HR H1 H2. unfold add_suffix. asc_go. apply wp_gets. asc_go. eapply wp_lift; [by apply suffix_text_fits|].
  replace (set_store (store c) c) with c by (by destruct c). by apply (add_bytes_adds n).
Qed.

(** ** The text of an item *)

Lemma digits_length f n m : 0 <= n < 10 ^ Z.of_nat m -> (0 < m)%nat -> (length (digits_rev f n) <= m)%nat.
Proof.
  revert n m. induction f as [|f IH]; intros n m Hn Hm; cbn [digits_rev length]; [lia|].
  destruct (Z.eqb_spec (n / 10) 0) as [E|E]; [simpl; lia|]. destruct m as [|[|m]]; [lia|change (10 ^ Z.of_nat 1) with 10 in Hn; rewrite Z.div_small in E; lia|].
  rewrite Nat2Z.inj_succ, Z.pow_succ_r in Hn by lia. pose proof (IH (n / 10) (S m)) as H. simpl. apply le_n_S, H; [|lia].
  split; [apply Z.div_pos; lia|]. apply Z.div_lt_upper_bound; lia.
Qed.

Lemma num_length_32 n : 0 <= n < 2 ^ 32 -> (length (num n) <= 11)%nat.
Proof.
  intros Hn. unfold num, print_u64. rewrite length_app, length_reverse. pose proof (digits_length 20 n 10) as H.
  change (10 ^ Z.of_nat 10) with 10000000000 in H. change (length (bytes " ")) with 1%nat. lia.
Qed.

Lemma num_length n : (length (num n) <= 21)%nat.
Proof. unfold num, print_u64. rewrite length_app, length_reverse. pose proof (digits_rev_length 20 n). change (length (bytes " ")) with 1%nat. lia. Qed.

Lemma num_length_0 : length (num 0) = 2%nat.
Proof. done. Qed.

(** The header line of a value, and the value. *)
Definition header_of (return_cas : bool) it : list Z :=
  num (i_dataflags it) ++ num (i_nbyte it) ++ num (if return_cas then item_cas it else u32 (i_config_number it)).

Definition text_of (return_cas : bool) it : mem :=
  init (bytes "VALUE ") ++ init (i_key it) ++ init (header_of return_cas it) ++ init CRLF ++
  default [] (item_data_raw it) ++ init CRLF.

(** The fields have the widths of the C type, and there is a cas value only if
    the items have room for it. *)
Definition widths (use : bool) it : Prop :=
  0 <= i_dataflags it < 2 ^ 32 /\ 0 <= i_nbyte it < 2 ^ 32 /\ (use = false -> item_cas it = 0).

Lemma header_fits use return_cas it : widths use it ->
  (length (header_of return_cas it) <= 43)%nat /\ (length (header_of return_cas it) < suffix_size use)%nat.
Proof.
  intros (H1 & H2 & H3). unfold header_of. rewrite !length_app. pose proof (num_length_32 _ H1). pose proof (num_length_32 _ H2).
  set (x := if return_cas then item_cas it else u32 (i_config_number it)). pose proof (num_length x).
  assert (use = false -> (length (num x) <= 11)%nat) as Hx.
  { intros Hu. apply num_length_32. unfold x. destruct return_cas; [rewrite H3 by done; lia|apply u32_range]. }
  unfold suffix_size, CAS_SUFFIX_SIZE, SUFFIX_SIZE, LEASE_TOKEN_SIZE. destruct use; [lia|]. specialize (Hx eq_refl). lia.
Qed.

Lemma respond_get_adds c P i a it data return_cas :
  resp (out c) P -> heap (store c) !! a = Some it -> item_data_raw it = Some data -> widths (use_cas (cfg (store c))) it ->
  wp (asc_respond_get i a return_cas) (adds c (P ++ text_of return_cas it)) c.
Proof.
  intros HR Ha Hd HW. destruct (header_fits _ return_cas it HW) as [F1 F2]. unfold asc_respond_get.
  apply wp_bind, wp_on_store. eapply wp_get_item; [exact Ha|]. replace (set_store (store c) c) with c by (by destruct c).
  apply wp_bind. eapply wp_lift; [exact Hd|]. fold (header_of return_cas it).
  assert (P ++ text_of return_cas it = (((((P ++ init (bytes "VALUE ")) ++ init (i_key it)) ++ init (header_of return_cas it)) ++
    init CRLF) ++ data) ++ init CRLF) as -> by (unfold text_of; rewrite Hd, !app_assoc; done).
  assert (exists bs, header_of return_cas it = 32 :: bs) as [bs Hh] by (eexists; unfold header_of, num; reflexivity). rewrite Hh in *.
  eapply or_return_spec; [apply (add_bytes_adds 0); [lia|done]|]. intros c1 _ E1 R1. rewrite <-E1 in F2. clear E1.
  eapply or_return_spec; [by apply add_any_adds|]. intros c2 _ E2 R2. rewrite <-E2 in F2. clear E2.
  eapply or_return_spec; [by apply create_suffix_adds|]. intros c3 _ E3 R3. rewrite <-E3 in F2. clear E3.
  eapply or_return_spec; [by apply (add_suffix_adds 1)|]. intros c4 _ _ R4.
  eapply or_return_spec; [apply (add_bytes_adds 0); [lia|done]|]. intros c5 _ _ R5.
  eapply or_return_spec; [by apply add_any_adds|]. intros c6 _ _ R6. by apply (add_bytes_adds 1).
Qed.

(** ** Lookups do not change what later keys of the request find *)

Record same_text it it' : Prop := SameText {
  tx_key : i_key it' = i_key it;
  tx_flags : i_dataflags it' = i_dataflags it;
  tx_nbyte : i_nbyte it' = i_nbyte it;
  tx_config : i_config_number it' = i_config_number it;
  tx_cas : item_cas it' = item_cas it;
  tx_data : item_data_raw it' = item_data_raw it;
  tx_pool : forall cf, respool cf it' = respool cf it
}.

Lemma same_text_refl it : same_text it it.
Proof. by split. Qed.
Lemma same_text_trans it1 it2 it3 : same_text it1 it2 -> same_text it2 it3 -> same_text it1 it3.
Proof. intros [] []. split; intros; congruence. Qed.
Lemma text_same return_cas it it' : same_text it it' -> text_of return_cas it' = text_of return_cas it.
Proof. intros [E1 E2 E3 E4 E5 E6 _]. unfold text_of, header_of. by rewrite E1, E2, E3, E4, E5, E6. Qed.
Lemma widths_same use it it' : same_text it it' -> widths use it -> widths use it'.
Proof. intros [E1 E2 E3 E4 E5 E6 _]. unfold widths. by rewrite E2, E3, E5. Qed.

(** An item of the ordinary pool: its references can be given up. *)
Definition ordinary s (a : addr) : Prop :=
  exists it, heap s !! a = Some it /\ respool (cfg s) it = false /\ homed s a it.

(** Whatever is found later was found before, with the same text. *)
Record looks s s' : Prop := Looks {
  lk_frame : frame s s';
  lk_used : used_before_now s -> used_before_now s';
  lk_found : forall k old', found_under s' k old' -> exists old, found_under s k old /\ option_Forall2 same_text old old';
  lk_ordinary : forall a, ordinary s a -> ordinary s' a
}.

Lemma looks_refl s : looks s s.
Proof. split; [done|done| |done]. intros k old Ho. exists old. split; [done|]. destruct old; constructor. apply same_text_refl. Qed.

Lemma looks_trans s1 s2 s3 : looks s1 s2 -> looks s2 s3 -> looks s1 s3.
Proof.
  intros [F1 U1 L1 O1] [F2 U2 L2 O2]. split; [by transitivity s2|auto| |auto]. intros k old3 H3.
  destruct (L2 k old3 H3) as (old2 & H2 & E2). destruct (L1 k old2 H2) as (old1 & H1 & E1). exists old1. split; [done|].
  destruct E2 as [x2 x3 E2|]; inversion E1; subst; constructor. by eapply same_text_trans.
Qed.

Lemma looks_heap s s' : frame s s' -> heap s' = heap s -> looks s s'.
Proof.
  intros F Hh. split; [done| | |].
  3: { intros a (it & Ha & Hp & Hm). exists it. rewrite Hh, (k_cfg _ _ F). split_and!; [done|done|by apply (homed_frame s s' a it)]. }
  - unfold used_before_now. by rewrite Hh, (k_clk _ _ F).
  - intros k old Ho. exists old. split; [|destruct old; constructor; apply same_text_refl].
    unfold found_under, bound in *. rewrite Hh in Ho. destruct old as [x|]; [|intros b x Hb; rewrite <-(visible_frame s s') by done; eauto].
    destruct Ho as (b & Hb & Hv). exists b. by rewrite (visible_frame s s') in Hv by done.
Qed.

(** A step at one item: the client cannot see it, or it was stale and is gone. *)
Lemma looks_only s s' a it it' :
  heap s !! a = Some it -> only a it' s s' ->
  (item_is_linked it' = true -> i_atime it <= time_now (clk s) -> i_atime it' <= time_now (clk s)) ->
  (item_is_linked it' = item_is_linked it /\ i_key it' = i_key it /\ visible s it' = visible s it /\ same_text it it') \/
  (item_is_linked it' = false /\ visible s it = false) ->
  (forall cf, respool cf it' = respool cf it) ->
  looks s s'.
Proof.
  intros Ha O Ht Hcase Hpool. pose proof (fun k b x => only_bound a it' s s' k b x O) as HB. pose proof O as [F Hh]. split; [done| | |].
  3: { intros b (x & Hb & Hp & Hm). unfold ordinary. rewrite Hh, (k_cfg _ _ F). destruct (decide (a = b)) as [<-|Hne].
    - exists it'. simplify_eq. rewrite lookup_insert_eq, Hpool. split_and!; [done|done|by apply (homed_frame s s' a it)].
    - exists x. rewrite lookup_insert_ne by done. split_and!; [done|done|by apply (homed_frame s s' b x)]. }
  - intros HU b x Hx Hl. rewrite (k_clk _ _ F). rewrite Hh in Hx. destruct (decide (a = b)) as [<-|Hne].
    + rewrite lookup_insert_eq in Hx. injection Hx as <-. apply Ht; [done|]. apply (HU a it Ha). destruct Hcase as [(E & _)|[E _]]; congruence.
    + rewrite lookup_insert_ne in Hx by done. by apply (HU b x).
  - intros k [x|] Ho.
    + destruct Ho as (b & Hb & Hv). rewrite (visible_frame s s') in Hv by done. apply HB in Hb as [(-> & -> & Hl & Hk)|[Hne Hb]].
      * destruct Hcase as [(E1 & E2 & E3 & E4)|[E _]]; [|congruence]. exists (Some it). split; [|by constructor].
        exists a. split; [split_and!; congruence|congruence].
      * exists (Some x). split; [by exists b|constructor; apply same_text_refl].
    + exists None. split; [|constructor]. intros b x Hb. destruct (decide (b = a)) as [->|Hne].
      * destruct Hb as (Hb & Hl & Hk). rewrite Ha in Hb. injection Hb as <-.
        destruct Hcase as [(E1 & E2 & E3 & E4)|[_ E]]; [|done]. rewrite <-E3, <-(visible_frame s s') by done.
        apply (Ho a it'), HB. left. split_and!; congruence.
      * rewrite <-(visible_frame s s') by done. apply (Ho b x), HB. by right.
Qed.

Definition get_post (H : list addr) s k (o : option addr) s' : Prop :=
  looks s s' /\
  match o with
  | Some a => exists it it', found_under s k (Some it) /\ same_text it it' /\ inv (a :: H) s' /\
      heap s' !! a = Some it' /\ item_is_linked it' = true /\ visible s' it' = true
  | None => inv H s' /\ found_under s k None
  end.

Lemma get_looks H s k :
  inv H s -> Z.of_nat (length H) <= MAX_HELD -> slab_lock s = false -> cache_lock s = false ->
  wp (item_get k) (get_post H s k) s.
Proof.
  intros HI HH Hs Hc. apply wp_cache_locked; [done|]. set (s0 := set_cache_lock true s).
  eapply wp_mono; [by apply (get_spec H s0 k)|]. intros o s' G.
  destruct (get_serves H s0 k o s' HI G) as (F & _). split; [by rewrite (k_cache_lock _ _ F)|].
  assert (looks s0 s' -> looks s (set_cache_lock false s')) as Hlk.
  { intros [F0 U0 L0 O0]. split; [by apply frame_locked|exact U0|exact L0|exact O0]. }
  destruct o as [a|].
  - destruct G as (it & Hb & Hv & HI' & O). pose proof Hb as (Ha & Hl & Hk). split.
    + apply Hlk. apply (looks_only s0 s' a it (set_refcount (i_refcount it + 1) it)); [done|done|done|left|done]. split_and!; done.
    + exists it, (set_refcount (i_refcount it + 1) it). split_and!; [by exists a|done|exact HI'|exact (only_eq a _ s0 s' O)|done|].
      destruct O as [F' _]. rewrite <-Hv. apply (visible_frame s0 s' (set_refcount (i_refcount it + 1) it) F').
  - destruct G as [HI' [(F' & Hh & Hn)|(a & it & Hb & Hv & O)]].
    + split; [apply Hlk; by apply looks_heap|]. split; [exact HI'|]. intros b x Hb. by destruct (Hn b x).
    + pose proof Hb as (Ha & Hl & Hk). destruct (gone_flags it) as [Hg _]. split.
      * apply Hlk. apply (looks_only s0 s' a it (gone it)); [done|done|congruence|by right|intros cf; apply gone_respool].
      * split; [exact HI'|]. intros b x Hb'. by destruct (bound_inj H s k a b it x HI Hb Hb') as [-> ->].
Qed.

Lemma touch_looks H s a it :
  inv H s -> slab_lock s = false -> cache_lock s = false -> used_before_now s ->
  heap s !! a = Some it -> item_is_linked it = true -> visible s it = true ->
  wp (item_touch a) (fun _ s' => looks s s' /\ inv H s') s.
Proof.
  intros HI Hs Hc HU Ha Hl Hv. unfold item_touch. wp_go. destruct (_ <=? _); [apply wp_ret; split; [apply looks_refl|done]|].
  apply wp_bind, wp_lock_cache; [done|]. apply wp_bind. eapply wp_mono; [by apply (item_touch_spec H (set_cache_lock true s) a it)|].
  intros _ s' (HI' & t & O & Ht). pose proof O as [F _]. apply wp_unlock_cache; [by rewrite (k_cache_lock _ _ F)|].
  assert (looks (set_cache_lock true s) s') as [F0 U0 L0 O0].
  { apply (looks_only _ s' a it (set_atime t it)); [done|done| | |done].
    - intros _ Hat. destruct Ht as [-> | ->]; [done|]. simpl. lia.
    - left. split_and!; [done|done| |by split]. destruct Ht as [-> | ->]; [by destruct it|].
      rewrite (visible_touch (set_cache_lock true s) it); [done|done|]. by apply (HU a it). }
  split; [|exact HI']. split; [by apply frame_locked|exact U0|exact L0|exact O0].
Qed.

Lemma looks_events s es : looks s (set_events es s).
Proof. apply looks_heap; [auto with mc|done]. Qed.

(** The value of a linked item can be read. *)
Lemma linked_data H s a it : inv H s -> heap s !! a = Some it -> item_is_linked it = true -> is_Some (item_data_raw it).
Proof.
  intros HI Ha Hl. destruct (v_data _ _ _ _ _ _ _ _ _ _ HI a it Ha Hl) as [(_ & L2 & _ & L4) _].
  unfold item_data_raw, mem_slice, data_pos. unfold CRLF_LEN in L4. rewrite decide_True; [by eexists|].
  destruct (item_is_raligned it); lia.
Qed.

Lemma length_omap_le (olds : list (option item)) : (length (omap id olds) <= length olds)%nat.
Proof.
  induction olds as [|[it|] olds IH]; [done| |].
  - change (omap id (Some it :: olds)) with (it :: omap id olds). simpl. lia.
  - change (omap id (None :: olds)) with (omap id olds). simpl. lia.
Qed.

(** ** The keys of a request *)

Section read.
Context (H : list addr) (s0 : st) (return_cas : bool).
Context (Hs0 : slab_lock s0 = false) (Hc0 : cache_lock s0 = false) (HU0 : used_before_now s0).
(** The keys name no leases. *)
Context (K : list Z -> Prop) (HK : forall k x, K k -> found_under s0 k (Some x) -> respool (cfg s0) x = false).
Context (HW : forall k x, K k -> found_under s0 k (Some x) -> widths (use_cas (cfg s0)) x).

(** The text for a key. *)
Definition hit_text (old : option item) : mem := match old with Some it => text_of return_cas it | None => [] end.

(** The state after some keys: the items that were found are referenced. *)
Record reading c (found : list addr) (P : mem) : Prop := Reading {
  rd_inv : inv (reverse found ++ H) (store c);
  rd_looks : looks s0 (store c);
  rd_resp : resp (out c) P;
  rd_found : Forall (ordinary (store c)) found
}.

Lemma reading_locks c found P : reading c found P -> slab_lock (store c) = false /\ cache_lock (store c) = false /\ used_before_now (store c).
Proof. intros [_ [F U _ _] _ _]. split_and!; [by rewrite (k_slab_lock _ _ F)|by rewrite (k_cache_lock _ _ F)|by apply U]. Qed.

Lemma reading_store c found P s : reading c found P -> looks (store c) s -> inv (reverse found ++ H) s -> reading (set_store s c) found P.
Proof. intros [_ L R O] L' HI. split; [done|by eapply looks_trans|done|]. eapply Forall_impl; [exact O|]. apply L'. Qed.

Lemma reading_record c found P es : reading c found P -> reading (set_store (set_events es (store c)) c) found P.
Proof. intros R. apply reading_store; [done|apply looks_events|exact (rd_inv _ _ _ R)]. Qed.

Lemma ensure_ilist_spec c found P i : reading c found P ->
  wp (ensure_ilist i) (fun r c' => r = true /\ within c c' /\ store c' = store c /\ reading c' found P) c.
Proof.
  intros [R1 R2 R3 R4]. unfold ensure_ilist. asc_go. case_decide; asc_go; [|split_and!; [done|apply within_refl|done|by split]].
  apply wp_on_out. eapply wp_mono; [by apply realloc_resp|]. intros r o' [-> HR']. cbn [when]. asc_go.
  split_and!; [done| |done|by split]. by exists (store c), o', (isize c * 2)%nat, (ssize c).
Qed.

Lemma reading_respond c found P i a it it' :
  reading c found P -> K (i_key it) -> found_under s0 (i_key it) (Some it) -> same_text it it' -> heap (store c) !! a = Some it' ->
  item_is_linked it' = true ->
  wp (asc_respond_get i a return_cas) (fun r c' => r = MC_OK /\ within c c' /\ store c' = store c /\
    resp (out c') (P ++ text_of return_cas it)) c.
Proof.
  intros R HKi Hf Ht Ha Hl. destruct (linked_data _ _ a it' (rd_inv _ _ _ R) Ha Hl) as [data Hd].
  rewrite <-(text_same return_cas it it' Ht). apply (respond_get_adds c P _ a it' data); [apply R|done|done|].
  apply (widths_same _ it); [done|]. rewrite (k_cfg _ _ (lk_frame _ _ (rd_looks _ _ _ R))). by apply (HW (i_key it)).
Qed.

(** What reading tokens promises: the keys are looked up in order, each hit adds
    its text and a reference, and the rest of the line is left. *)
Definition read_post (c : asc) (keys : list (list Z)) (found : list addr) (P : mem) (found' : list addr) (c' : asc) : Prop :=
  exists olds fs, Forall2 (found_under s0) keys olds /\ found' = found ++ fs /\ length fs = length (omap id olds) /\ within c c' /\
    reading c' (found ++ fs) (P ++ mjoin (hit_text <$> olds)).

Lemma read_post_cons c c1 k old keys found fs P found' c' :
  within c c1 -> found_under s0 k old -> length fs = length (omap id [old]) ->
  read_post c1 keys (found ++ fs) (P ++ hit_text old) found' c' -> read_post c (k :: keys) found P found' c'.
Proof.
  intros W Ho Hl (olds & fs' & HF & -> & Hl' & W' & R). exists (old :: olds), (fs ++ fs').
  split_and!; [by constructor|by rewrite app_assoc| |by eapply within_trans|].
  - rewrite length_app, Hl, Hl'. by destruct old.
  - rewrite fmap_cons. simpl. by rewrite !app_assoc in *.
Qed.

Lemma read_tokens_spec ts v : forall c found P,
  Forall (fun t => t_len t <> 0%nat /\ (t_len t <= KEY_MAX_LEN)%nat /\ K (t_key t)) ts -> reading c found P ->
  Z.of_nat (length H) + Z.of_nat (length found) + Z.of_nat (length ts) <= MAX_HELD ->
  wp (read_tokens (ts ++ [Token v 0]) return_cas found) (fun r c' => exists found',
    r = Some (v, found') /\ read_post c (t_key <$> ts) found P found' c') c.
Proof.
  induction ts as [|t ts IH]; intros c found P Hts R HH; cbn [app read_tokens].
  { rewrite decide_True by done. asc_go. exists found. split; [done|]. exists [], [].
    split_and!; [constructor|by rewrite app_nil_r|done|apply within_refl|by rewrite !app_nil_r]. }
  apply Forall_cons in Hts as [(Ht1 & Ht2 & HKt) Hts]. rewrite decide_False, decide_False by (done || lia).
  apply wp_bind, wp_on_store, wp_modify. apply (reading_record _ _ _ (ThreadIncr (if return_cas then "gets" else "get") :: events (store c))) in R.
  match type of R with reading ?x _ _ => set (c1 := x) in *; assert (within c c1) as W1 by apply within_store end.
  apply wp_bind, wp_on_store. destruct (reading_locks _ _ _ R) as (L1 & L2 & L3). cbn [length] in HH.
  eapply wp_mono; [apply (get_looks (reverse found ++ H) (store c1) (t_key t)); [apply R|rewrite length_app, length_reverse; lia|done|done]|].
  intros [a|] s' [Lk Ho].
  - destruct Ho as (it & it' & Hf & Ht & HI & Ha & Hl & Hv).
    destruct (lk_found _ _ (rd_looks _ _ _ R) _ _ Hf) as (old & Hold & Hsame). inversion Hsame as [it0 ? Ht0|]; subst.
    pose proof (same_text_trans _ _ _ Ht0 Ht) as Htt.
    assert (i_key it0 = t_key t) as Hk by (by destruct Hold as (? & (_ & _ & ?) & _)).
    assert (reading (set_store s' c1) (found ++ [a]) P) as R2.
    { split; [by rewrite reverse_snoc|by eapply looks_trans; [apply R|]|apply R|]. apply Forall_app. split.
      - eapply Forall_impl; [apply R|]. apply Lk.
      - apply Forall_singleton. exists it'. split_and!; [done| |by apply (inv_homed (a :: reverse found ++ H) s')].
        change (respool (cfg s') it' = false). rewrite (tx_pool _ _ Htt), (k_cfg _ _ (lk_frame _ _ Lk)), (k_cfg _ _ (lk_frame _ _ (rd_looks _ _ _ R))). by apply (HK (t_key t)). }
    apply wp_bind, wp_on_store. eapply wp_get_item; [exact Ha|]. apply wp_bind, wp_on_store, wp_modify. cbn [store set_store].
    apply (reading_record _ _ _ (SlabIncr (i_id it') (if return_cas then "gets_hit" else "get_hit") :: events s')) in R2.
    match type of R2 with reading ?x _ _ => set (c2 := x) in * end.
    apply wp_bind. eapply wp_mono; [by apply (ensure_ilist_spec c2 (found ++ [a]) P)|]. intros ? c3 (-> & W3 & S3 & R3). cbn [negb].
    apply wp_bind. eapply wp_mono; [apply (reading_respond c3 (found ++ [a]) P _ a it0 it' R3); [by rewrite Hk|by rewrite Hk|done|by rewrite S3|done]|].
    intros ? c4 (-> & W4 & S4 & R4). rewrite bool_decide_true by done. apply wp_bind, wp_on_store.
    assert (reading c4 (found ++ [a]) (P ++ text_of return_cas it0)) as R5
      by (split; [rewrite S4; apply R3|rewrite S4; apply R3|done|rewrite S4; apply R3]).
    destruct (reading_locks _ _ _ R5) as (L4 & L5 & L6).
    eapply wp_mono; [apply (touch_looks (reverse (found ++ [a]) ++ H) (store c4) a it'); [apply R5|done|done|done|by rewrite S4, S3|done|by rewrite S4, S3]|].
    intros _ s'' [Lk2 HI2]. pose proof (reading_store _ _ _ _ R5 Lk2 HI2) as R6.
    eapply wp_mono; [apply (IH _ (found ++ [a]) (P ++ text_of return_cas it0) Hts R6); rewrite length_app; simpl; lia|].
    intros r c' (found' & -> & HP). exists found'. split; [done|]. rewrite fmap_cons.
    eapply (read_post_cons c _ (t_key t) (Some it0) _ found [a] P); [|done|done|exact HP].
    eapply within_trans; [exact W1|]. eapply within_trans; [apply within_store|]. eapply within_trans; [apply within_store|].
    eapply within_trans; [exact W3|]. eapply within_trans; [exact W4|apply within_store].
  - destruct Ho as [HI Hf]. destruct (lk_found _ _ (rd_looks _ _ _ R) _ _ Hf) as (old & Hold & Hsame). inversion Hsame; subst.
    pose proof (reading_store _ _ _ _ R Lk HI) as R2.
    eapply wp_mono; [apply (IH _ found P Hts R2); lia|].
    intros r c' (found' & -> & HP). exists found'. split; [done|]. rewrite fmap_cons.
    eapply (read_post_cons c _ (t_key t) None _ found [] P); [|done|done|by rewrite !app_nil_r].
    eapply within_trans; [exact W1|apply within_store].
Qed.

(** A key is not longer than the server accepts. *)
Definition short_key k : Prop := (length k <= KEY_MAX_LEN)%nat.

Definition asked k : Prop := short_key k /\ K k.

Lemma proper_tokens ts : Forall proper ts -> Forall asked (t_key <$> ts) ->
  Forall (fun t => (t_len t <= length (default [] (t_val t)))%nat) ts ->
  Forall (fun t => t_len t <> 0%nat /\ (t_len t <= KEY_MAX_LEN)%nat /\ K (t_key t)) ts.
Proof.
  rewrite Forall_fmap, !Forall_forall. intros Hp Hs Hl t Ht. split; [apply (Hp t Ht)|].
  destruct (Hs t Ht) as [Hs1 Hs2]. specialize (Hl t Ht). split; [|done]. unfold short_key, t_key in Hs1. rewrite length_take in Hs1. lia.
Qed.

Lemma read_post_app c c1 keys1 keys2 found found1 found' P olds fs c' :
  Forall2 (found_under s0) keys1 olds -> found1 = found ++ fs -> length fs = length (omap id olds) -> within c c1 ->
  read_post c1 keys2 found1 (P ++ mjoin (hit_text <$> olds)) found' c' -> read_post c (keys1 ++ keys2) found P found' c'.
Proof.
  intros HF -> Hl W (olds' & fs' & HF' & -> & Hl' & W' & R). exists (olds ++ olds'), (fs ++ fs').
  split_and!; [by apply Forall2_app|by rewrite app_assoc| |by eapply within_trans|].
  - by rewrite omap_app, !length_app, Hl, Hl'.
  - rewrite fmap_app, join_app. by rewrite !app_assoc in *.
Qed.

Lemma read_line_spec fuel : forall ts v c found P,
  Forall (fun t => t_len t <> 0%nat /\ (t_len t <= KEY_MAX_LEN)%nat /\ K (t_key t)) ts -> Forall asked (words (default [] v)) ->
  reading c found P -> (v = None \/ (length (words (default [] v)) < fuel)%nat) ->
  Z.of_nat (length H) + Z.of_nat (length found) + Z.of_nat (length ts) + Z.of_nat (length (words (default [] v))) <= MAX_HELD ->
  wp (read_line fuel (ts ++ [Token v 0]) return_cas found) (fun r c' => exists found',
    r = Some found' /\ read_post c ((t_key <$> ts) ++ words (default [] v)) found P found' c') c.
Proof.
  induction fuel as [|fuel IH]; intros ts v c found P Hts Hws R Hv HH; cbn [read_line]; apply wp_bind;
    (eapply wp_mono; [apply (read_tokens_spec ts v c found P Hts R); lia|]); intros ? c1 (found1 & -> & Hp1).
  - destruct Hv as [-> |?]; [|lia]. asc_go. exists found1. split; [done|]. by rewrite app_nil_r.
  - destruct v as [rest|]; [|asc_go; exists found1; split; [done|]; by rewrite app_nil_r]. change (default [] (Some rest)) with rest in *.
    destruct Hv as [?|Hv]; [done|]. destruct (tokenize_loop_words rest rest 0 15) as (ts2 & v2 & He & H2 & H3 & H4 & H5 & H6); [done|lia|done|].
    change (asc_tokenize rest TOKEN_MAX) with (asc_tokenize_loop rest rest 0 15). rewrite He. rewrite take_0 in H2, H3.
    fold words in H2, H3. change (words_from [] rest) with (words rest) in H2, H3.
    destruct Hp1 as (olds & fs & HF & -> & Hl & W & R1).
    assert (words rest = (t_key <$> ts2) ++ words (default [] v2)) as Hsplit by (by rewrite H2, H3, take_drop).
    rewrite Hsplit, Forall_app in Hws. destruct Hws as [Hw1 Hw2].
    assert (Z.of_nat (length fs) <= Z.of_nat (length ts)) as Hfs.
    { rewrite Hl, <-(length_fmap t_key ts), (Forall2_length _ _ _ HF). pose proof (length_omap_le olds). lia. }
    assert (length (words rest) = length ts2 + length (words (default [] v2)))%nat as Hlen by (rewrite Hsplit, length_app, length_fmap; done).
    eapply wp_mono; [apply (IH ts2 v2 c1 (found ++ fs) (P ++ mjoin (hit_text <$> olds)))|].
    + by apply proper_tokens.
    + done.
    + done.
    + destruct (decide (length ts2 < 15)%nat) as [Hlt|Hge]; [left; by apply H6|right; lia].
    + rewrite length_app. lia.
    + intros r c' (found' & -> & Hp). exists found'. split; [done|]. rewrite Hsplit. by eapply read_post_app.
Qed.
End read.

(** ** The request *)

Lemma whole_msg_curr o P : whole o P -> whole (set_msg_curr 0 o) P.
Proof. intros (HP & HU & ms & [] & Hp). split_and!; [done|done|]. exists ms. split; [by split|done]. Qed.

(** The fields that a response does not change. *)
Definition alike c c' : Prop :=
  c_item c' = c_item c /\ noreply c' = noreply c /\ configuration_number c' = configuration_number c /\ wsize c' = wsize c.

Lemma end_response_spec c P :
  resp (out c) P ->
  wp end_response (fun _ c' => state c' = CONN_MWRITE /\ msg_curr (out c') = 0%nat /\ store c' = store c /\ ileft c' = ileft c /\ alike c c' /\
    whole (out c') (P ++ init (bytes "END" ++ CRLF))) c.
Proof.
  intros HR. unfold end_response. apply wp_bind. eapply wp_mono; [apply (add_iov_adds 0); [lia|done|done]|].
  intros r c1 [(-> & W & Hs & _) HR1].
  apply wp_bind, wp_gets. rewrite bool_decide_true by done. cbn [negb]. pose proof HR1 as (_ & -> & _). asc_go.
  split_and!; [done|done|exact Hs|by destruct W as (s & o & i & z & ->)|by destruct W as (s & o & i & z & ->)|by apply whole_msg_curr].
Qed.

(** A get (or gets) is answered completely and correctly.  Over TCP, when memory
    for the response can be had and the client is in the configuration of the
    server: whatever the number of keys (also more than fit in the token array),
    the response consists of, for each key in the order of the request, the text
    of the item that the store serves under it at the start (the item a lookup
    finds visible) or nothing, and END; the connection goes on to send it; every
    item it points into has one reference more, kept in the list that is given
    up after the transmission; and nothing a client can observe changed. *)
Lemma get_responds e H c req w1 w2 keys t1 str n
  (HI : inv H (store c)) (Hs : slab_lock (store c) = false) (Hc : cache_lock (store c) = false)
  (HU : used_before_now (store c))
  (HW : forall k x, k ∈ keys -> found_under (store c) k (Some x) -> widths (use_cas (cfg (store c))) x)
  (HL : forall k x, k ∈ keys -> found_under (store c) k (Some x) -> respool (cfg (store c)) x = false)
  (HR : resp (out c) []) (Hn0 : noreply c = false)
  (Hreq : c_req_type (cn c) = REQ_GET \/ c_req_type (cn c) = REQ_GETS)
  (Hwords : words req = w1 :: w2 :: keys) (Hkeys : keys <> []) (Hshort : Forall short_key keys)
  (HH : Z.of_nat (length H) + Z.of_nat (length keys) <= MAX_HELD) (Hfuel : (length keys < rq_fuel e)%nat)
  (Ht1 : asc_tokenize req TOKEN_MAX !! 1%nat = Some t1) (Hs1 : t_val t1 = Some str) (Hn : mc_strtol str = (true, n))
  (Hcfg : n = -1 \/ n = configuration_number c) (Hcfg0 : configuration_number c <> -1) :
  wp (asc_handle e (c_req_type (cn c)) (asc_tokenize req TOKEN_MAX)) (fun _ c' =>
    exists olds found,
      Forall2 (found_under (store c)) keys olds /\
      whole (out c') (mjoin (hit_text (bool_decide (c_req_type (cn c) = REQ_GETS)) <$> olds) ++ init (bytes "END" ++ CRLF)) /\
      state c' = CONN_MWRITE /\ msg_curr (out c') = 0%nat /\
      ileft c' = Some <$> found /\ length found = length (omap id olds) /\ inv (reverse found ++ H) (store c') /\
      Forall (ordinary (store c')) found /\ looks (store c) (store c') /\ alike c c') c.
Proof.
  destruct (tokenize_loop_words req req 0 15) as (ts & v & He & K1 & K2 & K3 & K4 & K5); [done|lia|done|].
  change (asc_tokenize req TOKEN_MAX) with (asc_tokenize_loop req req 0 15) in *. rewrite He in *. rewrite take_0 in K1, K2.
  change (words_from [] req) with (words req) in K1, K2. rewrite Hwords in K1, K2.
  assert (length ts = Nat.min 15 (2 + length keys)) as Hl by (rewrite <-(length_fmap t_key), K1, length_take; done).
  assert (0 < length keys)%nat as Hk by (by destruct keys; [|simpl; lia]).
  assert ((t_key <$> drop 2 ts) ++ words (default [] v) = keys) as Hsplit.
  { rewrite fmap_drop, K1, K2. change (take 13 keys ++ drop 13 keys = keys). apply take_drop. }
  assert (Forall (asked (fun k => k ∈ keys)) ((t_key <$> drop 2 ts) ++ words (default [] v))) as [Hsh1 Hsh2]%Forall_app.
  { rewrite Hsplit. apply Forall_forall. intros k Hin. split; [by apply (proj1 (Forall_forall _ _) Hshort)|done]. }
  assert (length keys = length (drop 2 ts) + length (words (default [] v)))%nat as Hlk by (rewrite <-Hsplit at 1; by rewrite length_app, length_fmap).
  set (gets_ := bool_decide (c_req_type (cn c) = REQ_GETS)).
  replace (asc_handle e (c_req_type (cn c))) with (asc_process_read (rq_fuel e)) by (by destruct Hreq as [-> | ->]).
  unfold asc_process_read, with_config, valid_tokens. asc_go. rewrite Hn0.
  assert (asc_ntoken_valid (c_req_type (cn c)) false (Z.of_nat (length (ts ++ [Token v 0]))) = true) as ->.
  { rewrite length_app. unfold asc_ntoken_valid. destruct Hreq as [-> | ->]; cbn [ntoken_bound]; simpl length;
      apply andb_true_intro; split; apply Z.leb_le; unfold INT_MAX; lia. }
  unfold number. asc_go. eapply wp_tok; [exact Ht1|]. asc_go. eapply wp_lift; [exact Hs1|]. rewrite Hn.
  unfold in_config, asc_check_config. asc_go.
  assert (negb (n =? -1) && negb (n =? configuration_number c) = false) as -> by (destruct Hcfg as [-> | ->]; [done|]; by rewrite Z.eqb_refl, andb_false_r).
  asc_go. destruct (Z.eqb_spec (configuration_number c) (-1)); [done|]. asc_go. fold gets_.
  rewrite drop_app_le by lia.
  eapply wp_mono; [apply (read_line_spec H (store c) gets_ Hs Hc HU (fun k => k ∈ keys) HL HW (rq_fuel e) (drop 2 ts) v c [] [])|].
  - apply (proper_tokens (fun k => k ∈ keys)); [by apply Forall_drop|done|by apply Forall_drop].
  - done.
  - split; [done|apply looks_refl|done|constructor].
  - right. lia.
  - cbn [length]. lia.
  - intros r c1 (found & -> & olds & fs & HF & -> & Hlf & W & R). rewrite Hsplit in HF. asc_go.
    set (c2 := set_sleft _ _). eapply wp_mono; [apply (end_response_spec c2 _ (rd_resp _ _ _ _ _ R))|].
    intros _ c' (E1 & E2 & E3 & E4 & E5 & E6). exists olds, fs. simpl app in *.
    split_and!; [done|done|done|done|by rewrite E4|done|rewrite E3; apply R|rewrite E3; apply R|rewrite E3; apply R|].
    destruct W as (s & o & i & z & ->). exact E5.
Qed.

Lemma ex_stored_fields : map_Forall (fun _ it => i_atime it <= time_now (clk ex_stored) /\ 0 <= i_dataflags it < 2 ^ 32 /\
  0 <= i_nbyte it < 2 ^ 32 /\ use_cas (cfg ex_stored) = true) (heap ex_stored).
Proof. apply (bool_decide_unpack _). vm_compute. exact I. Qed.

Lemma ex_out_resp : resp ex_out [].
Proof. split_and!; [done|done|]. exists [], []. split_and!; [exact ex_out_vector|done|constructor|unfold dense; simpl; lia]. Qed.
