(* ===== verification/CoreOk.v ===== *)
(** * Correctness of the state machine of a connection

    However the bytes of the client arrive and whatever parts of a response the
    socket takes, the machine reads whole lines, fills an item with exactly the
    bytes of its value, drops exactly the bytes it has to drop, and sends exactly
    the response.  A get is followed from its first byte to its last. *)

From stdpp Require Import relations.
From S2P Require Import Prelude Util Time Lease Hash Assoc Item State Slabs Items IQ Conn Ascii AsciiCmd Core Inv SlabsOk ItemsOk StoreOk ConnOk AsciiOk GetOk.
Open Scope Z_scope.
Implicit Types (c : core) (k : asc).

(** ** Turns of the machine *)

Section machine.
Context (e : request_env) (reqs_per_event : Z).

(** A turn of the loop; when the loop stopped, the next event starts it again. *)
Inductive turn : Z * core -> Z * core -> Prop :=
  | turn_on n c n' c' : core_step e n c = Some ((false, n'), c') -> turn (n, c) (n', c')
  | turn_event n c n' c' : core_step e n c = Some ((true, n'), c') -> turn (n, c) (reqs_per_event, c').

(** The machine comes to a state with [Q], whatever number of requests it may
    still serve in this event. *)
Definition leads (Q : core -> Prop) c : Prop :=
  forall n, exists n' c', rtc turn (n, c) (n', c') /\ Q c'.

(** There is one run, so what it leads to does happen. *)
Lemma turn_deterministic x y z : turn x y -> turn x z -> y = z.
Proof. intros H1 H2. destruct H1; inversion H2; simplify_eq; congruence. Qed.

Lemma leads_here (Q : core -> Prop) c : Q c -> leads Q c.
Proof. intros HQ n. exists n, c. split; [constructor|done]. Qed.

Lemma leads_step (Q : core -> Prop) c : (forall n, wp (core_step e n) (fun _ c' => leads Q c') c) -> leads Q c.
Proof.
  intros H n. destruct (wp_elim _ _ _ (H n)) as ([stop n'] & c' & He & Hl).
  destruct stop; [destruct (Hl reqs_per_event) as (n'' & c'' & Hr & HQ)|destruct (Hl n') as (n'' & c'' & Hr & HQ)];
    exists n'', c''; (split; [eapply rtc_l; [|exact Hr]|done]); [by eapply turn_event|by apply turn_on].
Qed.

Lemma leads_trans (P Q : core -> Prop) c : leads P c -> (forall c', P c' -> leads Q c') -> leads Q c.
Proof.
  intros H1 H2 n. destruct (H1 n) as (n' & c' & Hr & HP). destruct (H2 c' HP n') as (n'' & c'' & Hr' & HQ).
  exists n'', c''. split; [by etrans|done].
Qed.

Lemma leads_mono (P Q : core -> Prop) c : leads P c -> (forall c', P c' -> Q c') -> leads Q c.
Proof. intros H1 H2. eapply leads_trans; [exact H1|]. intros c' HP. by apply leads_here, H2. Qed.
End machine.

(** ** The socket *)

Lemma wp_on_srv {A} (m : M asc A) (Q : A -> core -> Prop) c :
  wp m (fun a k' => Q a (set_srv k' c)) (srv c) -> wp (on_srv m) Q c.
Proof. unfold wp, on_srv. destruct (m (srv c)) as [[a k']|]; done. Qed.

(** The bytes a list of answers brings, when the stream neither ends nor fails. *)
Inductive arrives : list read_answer -> list Z -> Prop :=
  | arrives_nil : arrives [] []
  | arrives_block l bs : arrives l bs -> arrives (ReadBlock :: l) bs
  | arrives_data l bs b ds : arrives l bs -> arrives (Data (b :: ds) :: l) (b :: ds ++ bs).

Lemma arrives_fun l bs bs' : arrives l bs -> arrives l bs' -> bs = bs'.
Proof. intros H. revert bs'. induction H as [|l bs H IH|l bs b ds H IH]; intros bs' H'; inversion H'; subst; [done|by apply IH|]. by rewrite (IH bs0). Qed.

(** Bytes and answers still to come. *)
Definition coming (l : list read_answer) (bs : list Z) : nat := (length l + length bs)%nat.

Lemma sock_read_spec size c bs :
  arrives (incoming c) bs -> (0 < size)%nat ->
  wp (sock_read size) (fun r c' => exists l, c' = set_incoming l c /\
    ((r = ReadBlock /\ arrives l bs /\ (coming l bs <= coming (incoming c) bs)%nat /\ (bs <> [] -> coming l bs < coming (incoming c) bs)%nat) \/
     exists got bs', r = Data got /\ got <> [] /\ (length got <= size)%nat /\ bs = got ++ bs' /\ arrives l bs' /\
       (coming l bs' < coming (incoming c) bs)%nat)) c.
Proof.
  intros Ha Hs. unfold sock_read. apply wp_bind, wp_gets. remember (incoming c) as l0 eqn:El. destruct Ha as [|l bs Ha|l bs b ds Ha].
  - apply wp_ret. exists []. rewrite El at 1. split; [by destruct c|]. left. split_and!; [done|constructor|done|done].
  - apply wp_bind, wp_modify, wp_ret. exists l. split; [done|]. left. split_and!; [done|done|unfold coming; simpl; lia|]. intros _. unfold coming. simpl. lia.
  - destruct size as [|size]; [lia|]. apply wp_bind, wp_modify, wp_ret. cbn [take drop]. eexists. split; [done|]. right.
    destruct (drop size ds) as [|b' rest] eqn:Ed; exists (b :: take size ds).
    + exists bs. rewrite take_ge by (apply (f_equal length) in Ed; rewrite length_drop in Ed; simpl in Ed; lia).
      split_and!; [done|done| |done|done|unfold coming; simpl; rewrite length_app; lia].
      apply (f_equal length) in Ed. rewrite length_drop in Ed. simpl in *. lia.
    + exists (b' :: rest ++ bs). split_and!; [done|done|simpl; rewrite length_take; lia| |by constructor|].
      * simpl. by rewrite (app_comm_cons rest bs b'), <-Ed, app_assoc, take_drop.
      * unfold coming. simpl. rewrite !length_app. apply (f_equal length) in Ed. rewrite length_drop in Ed. simpl in Ed. lia.
Qed.

(** libevent answers. *)
Definition events_work c : Prop := forall n, event_ok c n = true.

Lemma update_spec f c : events_work c ->
  wp (update_or_close f) (fun ok c' => ok = true /\ exists n, c' = set_nevent n (set_ev_flags f c)) c.
Proof.
  intros HE. unfold update_or_close, core_update. apply wp_bind, wp_bind, wp_gets. case_decide as Hd.
  - apply wp_ret. cbn. split; [done|]. exists (nevent c). subst f. by destruct c.
  - unfold next_event. apply wp_bind, wp_bind, wp_gets, wp_bind, wp_modify, wp_ret. simpl. rewrite HE. cbn [negb].
    apply wp_bind, wp_modify, wp_bind, wp_bind, wp_gets, wp_bind, wp_modify, wp_ret. simpl. rewrite HE. cbn.
    split; [done|]. by eexists.
Qed.

Ltac core_step_go :=
  lazymatch goal with
  | |- wp (on_srv _) _ _ => apply wp_on_srv
  | |- wp (core_set_state _) _ _ => apply wp_on_srv
  | |- _ => asc_step
  end.
Ltac core_go := cbv beta delta [id]; repeat (core_step_go; cbv beta delta [id]).

(** The connection after some turns that read from the socket: the events it
    waits for may be others. *)
Definition later c k (d : list Z) (l : list read_answer) c' : Prop :=
  exists f n, c' = Core k d (rsize c) f l (sends c) (sent c) (event_ok c) n.

Lemma later_refl c : later c (srv c) (rdata c) (incoming c) c.
Proof. exists (ev_flags c), (nevent c). by destruct c. Qed.

Lemma later_trans c k d l c1 k' d' l' c2 : later c k d l c1 -> later c1 k' d' l' c2 -> later c k' d' l' c2.
Proof. intros (f & n & ->) (f' & n' & ->). by exists f', n'. Qed.

(** A read that would block leaves the connection as it is. *)
Lemma blocked_spec c : events_work c ->
  wp (read_failed ReadBlock) (fun stop c' => stop = true /\ later c (srv c) (rdata c) (incoming c) c') c.
Proof.
  intros HE. eapply wp_mono; [by apply update_spec|]. intros ok c' (-> & n & ->). split; [done|]. by exists EV_READ, n.
Qed.

(** ** Dropping the rest of a refused request *)

Lemma split_take {A} (n : nat) (l l' : list A) : l ++ l' = take n l ++ drop n l ++ l'.
Proof. by rewrite app_assoc, take_drop. Qed.

(** What is still to come of a request, in the buffer and from the socket. *)
Definition pending c (bs : list Z) : nat := (length (rdata c) + coming (incoming c) bs)%nat.

Lemma swallow_spec c bs :
  0 < sbytes (srv c) -> (0 < rsize c)%nat -> events_work c -> arrives (incoming c) bs ->
  sbytes (srv c) <= Z.of_nat (length (rdata c ++ bs)) ->
  wp core_swallow (fun _ c' => exists got d l bs', arrives l bs' /\ rdata c ++ bs = got ++ d ++ bs' /\
    Z.of_nat (length got) <= sbytes (srv c) /\ (pending c' bs' < pending c bs /\ length d <= length (rdata c))%nat /\
    later c (set_sbytes (sbytes (srv c) - Z.of_nat (length got)) (srv c)) d l c') c.
Proof.
  intros H0 Hr HE Ha Hle. unfold core_swallow. core_go. destruct (Z.eqb_spec (sbytes (srv c)) 0) as [?|_]; [lia|].
  destruct (Z.ltb_spec (sbytes (srv c)) 0); [lia|]. core_go. rewrite length_app in Hle. case_decide as Hd.
  - core_go. set (n := Nat.min _ _). exists (take n (rdata c)), (drop n (rdata c)), (incoming c), bs.
    assert (length (take n (rdata c)) = n) as -> by (rewrite length_take; lia).
    split_and!; [done|by apply split_take|lia|unfold pending; simpl; rewrite length_drop; lia|rewrite length_drop; lia|]. by exists (ev_flags c), (nevent c).
  - core_go. assert (rdata c = []) as Hn by (destruct (rdata c); [done|simpl in Hd; lia]). rewrite Hn in *. cbn [length] in *.
    eapply wp_mono; [apply (sock_read_spec _ c bs Ha); lia|].
    intros r c1 (l & -> & [(-> & Hl & _ & Hlt)|(got & bs' & -> & Hg & Hlen & -> & Hl & Hlt)]).
    + eapply wp_mono; [by apply blocked_spec|]. intros stop c' (-> & L). exists [], [], l, bs. cbn [length Nat.add Z.of_nat] in *.
      rewrite Z.sub_0_r. split_and!; [done|done|lia| |simpl; lia|].
      * destruct L as (f & n & ->). unfold pending. simpl. rewrite ?Hn. simpl. apply Hlt. intros ->. simpl in Hle. lia.
      * destruct L as (f & n & ->). exists f, n. simpl. rewrite Hn. by destruct (srv c).
    + core_go. exists got, [], l, bs'. split_and!; [done|done|lia| |simpl; lia|].
      * unfold pending. simpl. rewrite ?Hn. simpl. done.
      * exists (ev_flags c), (nevent c). unfold set_srv, set_incoming. simpl. by rewrite Hn.
Qed.

(** ** Filling an item *)

(** [n] more bytes were read into the item, which is now [it']. *)
Definition filled (a : addr) (it' : item) (n : nat) k : asc :=
  set_rlbytes (rlbytes k - Z.of_nat n) (set_ritem (ritem k + Z.of_nat n)
    (set_store (set_heap (<[a := it']> (heap (store k))) (store k)) k)).

Lemma filled_twice a it1 n1 it2 n2 k : filled a it2 n2 (filled a it1 n1 k) = filled a it2 (n1 + n2) k.
Proof.
  transitivity (set_rlbytes (rlbytes k - Z.of_nat n1 - Z.of_nat n2) (set_ritem (ritem k + Z.of_nat n1 + Z.of_nat n2)
    (set_store (set_heap (<[a := it2]> (<[a := it1]> (heap (store k)))) (store k)) k))); [reflexivity|].
  rewrite insert_insert_eq. unfold filled. f_equal; [lia|]. f_equal. lia.
Qed.

Lemma filled_nothing a it k : heap (store k) !! a = Some it -> filled a it 0 k = k.
Proof.
  intros Ha. unfold filled. rewrite insert_id, Z.add_0_r, Z.sub_0_r by done. by destruct k as [[] ? ? ? ? ? ? ? ? ? ? ? ? ? ? ? ? ?].
Qed.

(** The item that is filled, with room for what is still to be read. *)
Record filling (a : addr) (it : item) k : Prop := Filling {
  fl_item : c_item k = Some a;
  fl_heap : heap (store k) !! a = Some it;
  fl_pos : 0 <= data_pos it + ritem k;
  fl_room : data_pos it + ritem k + rlbytes k <= Z.of_nat (length (i_payload it))
}.

Lemma filling_more a it k got it' :
  filling a it k -> item_write it (ritem k) (init got) = Some it' -> filling a it' (filled a it' (length got) k).
Proof.
  intros [F1 F2 F3 F4] Hw. destruct (item_write_pos _ _ _ _ Hw) as [Hp Hl]. split; cbn; rewrite ?Hp, ?Hl; [done|apply lookup_insert_eq|lia|lia].
Qed.

Lemma fill_spec a it k got :
  filling a it k -> Z.of_nat (length got) <= rlbytes k ->
  wp (fill_item a got) (fun _ k' => exists it', item_write it (ritem k) (init got) = Some it' /\ k' = filled a it' (length got) k) k.
Proof.
  intros [F1 F2 F3 F4] Hl. unfold fill_item. asc_go. unfold write_data. asc_go. eapply wp_get_item; [exact F2|].
  destruct (mem_write_some (i_payload it) (data_pos it + ritem k) (init got)) as [p Hp]; [lia|rewrite length_init; lia|].
  assert (item_write it (ritem k) (init got) = Some (set_payload p it)) as Hw by (unfold item_write; by rewrite Hp).
  asc_go. eapply wp_lift; [exact Hw|]. unfold put_item. asc_go. by eexists.
Qed.

(** What a turn reads of the value. *)
Definition nread_post a it c bs c' : Prop :=
  exists got d l bs' it', arrives l bs' /\ rdata c ++ bs = got ++ d ++ bs' /\
    Z.of_nat (length got) <= rlbytes (srv c) /\ (pending c' bs' < pending c bs /\ length d <= length (rdata c))%nat /\
    item_write it (ritem (srv c)) (init got) = Some it' /\
    later c (filled a it' (length got) (srv c)) d l c'.

(** The second half of a turn, when [n] bytes of the buffer were copied. *)
Lemma nread_socket_spec a it it' c bs n :
  let got := take n (rdata c) in
  n = Nat.min (Z.to_nat (rlbytes (srv c))) (length (rdata c)) ->
  filling a it (srv c) -> 0 < rlbytes (srv c) -> events_work c -> arrives (incoming c) bs ->
  rlbytes (srv c) <= Z.of_nat (length (rdata c) + length bs) -> item_write it (ritem (srv c)) (init got) = Some it' ->
  wp (nread_socket a) (fun _ c' => nread_post a it c bs c') (set_rdata (drop n (rdata c)) (set_srv (filled a it' n (srv c)) c)).
Proof.
  intros got En HF H0 HE Ha Hle Hw. assert (length got = n) as Hg by (unfold got; rewrite length_take; lia).
  pose proof (filling_more a it (srv c) got it' HF Hw) as HF'. rewrite Hg in HF'. unfold nread_socket. core_go.
  cbn [rlbytes filled set_rlbytes srv set_rdata set_srv].
  destruct (Z.eqb_spec (rlbytes (srv c) - Z.of_nat n) 0) as [E|E].
  - core_go. exists got, (drop n (rdata c)), (incoming c), bs, it'. rewrite Hg. split_and!; [done|by apply split_take|lia| |rewrite length_drop; lia|done|].
    + unfold pending. simpl. rewrite length_drop. lia.
    + by exists (ev_flags c), (nevent c).
  - assert (drop n (rdata c) = []) as Hd by (apply drop_ge; lia). assert (got = rdata c) as Eg by (apply take_ge; lia).
    rewrite Hd. core_go. eapply wp_mono; [apply (sock_read_spec _ _ bs); [exact Ha|lia]|].
    intros r c1 (l & -> & [(-> & Hl & _ & Hlt)|(got2 & bs' & -> & Hg2 & Hlen & -> & Hl & Hlt)]).
    + eapply wp_mono; [by apply blocked_spec|]. intros stop c' (-> & f & m & ->).
      exists got, [], l, bs, it'. rewrite Hg, Eg. split_and!; [done|done|lia| |simpl; lia|by rewrite <-Eg|by exists f, m].
      unfold pending. simpl in *. rewrite <-Eg, Hg. assert (bs <> []) as Hb by (intros ->; simpl in Hle; lia). specialize (Hlt Hb). lia.
    + core_go. eapply wp_mono; [apply (fill_spec a it' _ got2 HF'); simpl in *; lia|].
      intros _ k (it2 & Hw2 & ->). core_go. exists (got ++ got2), [], l, bs', it2. rewrite length_app, Hg.
      split_and!; [done|by rewrite Eg, <-app_assoc|simpl in *; lia| |simpl; lia| |].
      * unfold pending. simpl in *. lia.
      * rewrite init_app. eapply item_write_twice; [exact Hw|]. by rewrite length_init, Hg.
      * rewrite filled_twice. by exists (ev_flags c), (nevent c).
Qed.

Lemma write_nothing a it k : filling a it k -> 0 <= rlbytes k -> item_write it (ritem k) [] = Some it.
Proof.
  intros [F1 F2 F3 F4] Hl. unfold item_write, mem_write. rewrite decide_True by (simpl; lia). simpl. f_equal.
  rewrite Nat.add_0_r, take_drop. by destruct it.
Qed.

(** One turn: what was read before goes first, then a read of the socket. *)
Lemma nread_spec a it c bs :
  filling a it (srv c) -> 0 < rlbytes (srv c) -> events_work c -> arrives (incoming c) bs ->
  rlbytes (srv c) <= Z.of_nat (length (rdata c ++ bs)) -> wp core_nread (fun _ c' => nread_post a it c bs c') c.
Proof.
  intros HF H0 HE Ha Hle. unfold core_nread. core_go. destruct (Z.eqb_spec (rlbytes (srv c)) 0) as [?|_]; [lia|].
  destruct (Z.ltb_spec (rlbytes (srv c)) 0); [lia|]. core_go. eapply wp_lift; [apply HF|]. core_go. rewrite length_app in Hle.
  set (n := Nat.min _ _). assert (length (take n (rdata c)) = n) as Hg by (rewrite length_take; lia).
  destruct (Nat.ltb_spec 0 n) as [Hn|Hn]; cbn [when]; core_go.
  - eapply wp_mono; [apply (fill_spec a it _ (take n (rdata c)) HF); lia|]. intros _ k (it' & Hw & ->). core_go. rewrite Hg.
    by apply (nread_socket_spec a it it').
  - assert (n = 0%nat) as E0 by lia.
    pose proof (nread_socket_spec a it it c bs n eq_refl HF H0 HE Ha Hle) as Hr. rewrite E0, filled_nothing in Hr by apply HF.
    unfold set_rdata, set_srv in Hr. cbn [drop take rdata rsize ev_flags incoming sends sent event_ok nevent] in Hr.
    replace (Core _ _ _ _ _ _ _ _ _) with c in Hr by (by destruct c). apply Hr. eapply write_nothing; [done|lia].
Qed.

Section reading.
Context (e : request_env) (reqs_per_event : Z).

Lemma swallow_leads m : forall c bs, (pending c bs <= m)%nat ->
  state (srv c) = CONN_SWALLOW -> 0 <= sbytes (srv c) -> (0 < rsize c)%nat -> events_work c ->
  arrives (incoming c) bs -> sbytes (srv c) <= Z.of_nat (length (rdata c ++ bs)) ->
  leads e reqs_per_event (fun c' => exists l bs', arrives l bs' /\
    rdata c' ++ bs' = drop (Z.to_nat (sbytes (srv c))) (rdata c ++ bs) /\ (length (rdata c') <= length (rdata c))%nat /\
    later c (set_state CONN_NEW_CMD (set_sbytes 0 (srv c))) (rdata c') l c') c.
Proof.
  induction m as [|m IH]; intros c bs Hm Hst H0 Hr HE Ha Hle;
    (destruct (decide (sbytes (srv c) = 0)) as [E0|E0];
      [apply leads_step; intros nreqs; unfold core_step; core_go; rewrite Hst; unfold core_swallow; core_go; rewrite E0; cbn [Z.eqb]; core_go;
       apply leads_here; exists (incoming c), bs; cbn [rdata set_srv Z.to_nat drop]; split_and!; [done..|];
       exists (ev_flags c), (nevent c); simpl; by rewrite <-E0; destruct (srv c)|]).
  { unfold pending, coming in Hm. rewrite length_app in Hle. lia. }
  apply leads_step. intros nreqs. unfold core_step. core_go. rewrite Hst. core_go.
  eapply wp_mono; [by apply (swallow_spec c bs); [lia|..]|]. intros stop c1 (got & d & l & bs' & Ha' & E & Hg & [Hp Hd] & L). core_go.
  destruct L as (f & n & ->). rewrite E, !length_app in Hle.
  eapply leads_mono; [apply (IH _ bs'); [lia|done|simpl; lia|done|done|done|]|].
  { simpl. rewrite length_app. lia. }
  intros c' (l' & bs'' & Ha'' & E' & Hd' & L'). exists l', bs''. simpl in Hd'. split_and!; [done| |lia|].
  - rewrite E, E'. simpl. rewrite (drop_app_ge got) by lia. f_equal. lia.
  - destruct L' as (f' & n' & L'). exists f', n'. by rewrite L'.
Qed.

(** However the bytes arrive, the item is filled with the next ones. *)
Lemma nread_leads m : forall c a it bs, (pending c bs <= m)%nat ->
  state (srv c) = CONN_NREAD -> filling a it (srv c) -> 0 <= rlbytes (srv c) -> events_work c ->
  arrives (incoming c) bs -> rlbytes (srv c) <= Z.of_nat (length (rdata c ++ bs)) ->
  leads e reqs_per_event (fun c' => exists l bs' it', let got := take (Z.to_nat (rlbytes (srv c))) (rdata c ++ bs) in
    arrives l bs' /\ rdata c' ++ bs' = drop (Z.to_nat (rlbytes (srv c))) (rdata c ++ bs) /\ (length (rdata c') <= length (rdata c))%nat /\
    item_write it (ritem (srv c)) (init got) = Some it' /\
    later c (filled a it' (length got) (srv c)) (rdata c') l c') c.
Proof.
  induction m as [|m IH]; intros c a it bs Hm Hst HF H0 HE Ha Hle;
    (destruct (decide (rlbytes (srv c) = 0)) as [E0|E0];
      [apply leads_here; exists (incoming c), bs, it; rewrite E0; cbn [Z.to_nat take drop length]; split_and!;
       [done|done|done|eapply write_nothing; [done|lia]|rewrite filled_nothing by apply HF; apply later_refl]|]).
  { unfold pending, coming in Hm. rewrite length_app in Hle. lia. }
  apply leads_step. intros nreqs. unfold core_step. core_go. rewrite Hst. core_go.
  eapply wp_mono; [by apply (nread_spec a it c bs); [|lia|..]|]. intros stop c1 (got & d & l & bs' & it' & Ha' & E & Hg & [Hp Hd] & Hw & L). core_go.
  pose proof (filling_more _ _ _ _ _ HF Hw) as HF'. destruct L as (f & n & ->). rewrite E, !length_app in Hle.
  eapply leads_mono; [apply (IH _ a it' bs'); [lia|done|done|simpl; lia|done|done|]|].
  { simpl. rewrite length_app. lia. }
  intros c' (l' & bs'' & it2 & Ha'' & E' & Hd' & Hw2 & f' & n' & L'). exists l', bs'', it2. simpl in E', Hd', Hw2, L'. rewrite E.
  replace (Z.to_nat (rlbytes (srv c))) with (length got + Z.to_nat (rlbytes (srv c) - Z.of_nat (length got)))%nat by lia.
  rewrite take_app_add, drop_app_add. split_and!; [done|done|lia| |].
  - rewrite init_app. eapply item_write_twice; [exact Hw|]. by rewrite length_init.
  - exists f', n'. by rewrite L', filled_twice, length_app.
Qed.
End reading.

(** ** Sending a response *)

(** The socket takes at least [n] more writes before it fails. *)
Inductive takes : list sendmsg_result -> nat -> Prop :=
  | takes_enough l : takes l 0
  | takes_block l n : takes l n -> takes (WouldBlock :: l) n
  | takes_sent l m n : takes l n -> takes (Sent (S m) :: l) (S n).

Lemma takes_le l n : takes l n -> forall m, (m <= n)%nat -> takes l m.
Proof.
  induction 1 as [l|l n _ IH|l k n _ IH]; intros m Hm.
  - assert (m = 0%nat) as -> by lia. constructor.
  - constructor. by apply IH.
  - destruct m as [|m]; constructor. apply IH. lia.
Qed.

Lemma takes_next l n : takes l n -> n <> 0%nat ->
  (head l = Some WouldBlock /\ takes (tail l) n) \/ exists m, head l = Some (Sent (S m)) /\ takes (tail l) (pred n).
Proof. intros Ht Hn. destruct Ht; [done|by left|right; by eexists]. Qed.

(** A connection that has sent [bs] of its response. *)
Definition sending_on c o (ss : list sendmsg_result) (bs : mem) c' : Prop :=
  exists f n, c' = Core (set_out o (srv c)) (rdata c) (rsize c) f (incoming c) ss (sent c ++ bs) (event_ok c) n.

Lemma mwrite_spec c bss m (Q : core -> Prop) :
  let o := out (srv c) in
  sending bss o -> ready bss -> udp o = false -> takes (sends c) (length (unsent bss) + m) -> events_work c ->
  (forall o' bs ss bss' c', kept o o' -> unsent bss = bs ++ unsent bss' -> sending bss' o' -> ready bss' ->
     takes ss (length (unsent bss') + m) -> (length (unsent bss') + length ss < length (unsent bss) + length (sends c))%nat ->
     sending_on c o' ss bs c' -> Q c') ->
  (forall o' c', kept o o' -> takes (sends c) m -> sending_on c o' (sends c) (unsent bss) c' ->
     wp transmit_complete (fun _ k => Q (set_srv k c')) (srv c')) ->
  wp core_mwrite (fun _ c' => Q c') c.
Proof.
  intros o HS HR Hu Ht HE Hmore Hdone. unfold core_mwrite. core_go. fold o. rewrite Hu. cbn [andb]. core_go.
  rewrite bool_decide_true by done. cbn [negb]. unfold core_transmit_conn. core_go. apply wp_on_out.
  eapply wp_mono; [by apply (transmit_kept bss)|]. intros [r bs] o' ((bss' & HS' & E & Hc & Hr) & HK). destruct (Hr HR) as (HR' & Hp & Hne).
  cbn [fst snd] in *. core_go. unfold progress in Hp. cbn [fst snd] in Hp.
  assert (length (unsent bss) = length bs + length (unsent bss'))%nat as Hl by (by rewrite E, length_app).
  assert (unsent bss <> [] -> length (unsent bss) + m <> 0)%nat as Hnz by (destruct (unsent bss); [done|simpl; lia]).
  destruct r; core_go.
  - rewrite (Hc eq_refl) in E. rewrite app_nil_r in E. subst bs. eapply wp_mono; [apply (Hdone o' (set_sends (sends c)
      (set_sent (sent c ++ unsent bss) (set_srv (set_out o' (srv c)) c))) HK); [eapply takes_le; [exact Ht|lia]|by exists (ev_flags c), (nevent c)]|].
    intros ? k Hq. core_go. exact Hq.
  - assert (takes (tail (sends c)) (length (unsent bss') + m)) as Ht'.
    { assert (bs <> [] -> length bs <> 0%nat) as Hb by (by destruct bs). specialize (Hb Hp).
      destruct (takes_next _ _ Ht (Hnz (Hne ltac:(done)))) as [[_ H1]|(i & _ & H1)]; (eapply takes_le; [exact H1|lia]). }
    apply (Hmore o' bs (tail (sends c)) bss' _ HK E HS' HR' Ht'); [|by exists (ev_flags c), (nevent c)].
    assert (bs <> [] -> length bs <> 0%nat) as Hb by (by destruct bs). specialize (Hb Hp). destruct (sends c); simpl; lia.
  - destruct (takes_next _ _ Ht (Hnz (Hne ltac:(done)))) as [[Hh Ht']|(i & Hh & _)]; [|rewrite Hh in Hp; done].
    eapply wp_mono; [by apply update_spec|]. intros ok c' (-> & n & ->). core_go.
    apply (Hmore o' bs (tail (sends c)) bss' _ HK E HS' HR'); [eapply takes_le; [exact Ht'|lia]| |by exists EV_WRITE, n].
    destruct (sends c); [done|]. simpl. lia.
  - destruct (takes_next _ _ Ht (Hnz (Hne ltac:(done)))) as [[Hh _]|(i & Hh & _)]; rewrite Hh in Hp; simpl in Hp; naive_solver.
Qed.

Section sending.
Context (e : request_env) (reqs_per_event : Z).

(** The response is being sent. *)
Definition writing k : Prop :=
  state k = CONN_MWRITE \/ (state k = CONN_WRITE /\ iov_used (out k) <> 0%nat).

Lemma write_turn n c : writing (srv c) -> udp (out (srv c)) = false ->
  core_step e n c = (stop ← core_mwrite; mret (stop, n)) c.
Proof.
  intros [Hs|[Hs Hi]] Hu; unfold core_step, core_write, gets, mbind, M_bind; simpl; rewrite Hs; [done|].
  rewrite Hu. destruct (Nat.eqb_spec (iov_used (out (srv c))) 0) as [?|_]; [done|]. done.
Qed.

(** Whatever parts of it the socket takes at a time, all of the response is
    sent, and then the connection goes on. *)
Lemma response_leads m more (Q : core -> Prop) : forall c bss,
  let o := out (srv c) in
  (length (unsent bss) + length (sends c) <= m)%nat ->
  writing (srv c) -> sending bss o -> ready bss -> udp o = false -> takes (sends c) (length (unsent bss) + more) -> events_work c ->
  (forall o' ss c', kept o o' -> takes ss more -> sending_on c o' ss (unsent bss) c' ->
     wp transmit_complete (fun _ k => leads e reqs_per_event Q (set_srv k c')) (srv c')) ->
  leads e reqs_per_event Q c.
Proof.
  induction m as [|m IH]; intros c bss o Hm HWr HS HR Hu Ht HE Hdone; apply leads_step; intros n;
    (unfold wp; rewrite write_turn by done; apply wp_bind; eapply wp_mono;
      [apply (mwrite_spec c bss more (leads e reqs_per_event Q)); try done; [|intros o' c' HK HT HO; by apply (Hdone o' (sends c))]|by intros stop c' ?];
     intros o' bs ss bss' c' HK E HS' HR' Ht' Hlt HO; destruct HO as (f & n' & ->)); [lia|].
  pose proof HK as (U & I & _). apply (IH _ bss'); simpl; try done.
  - lia.
  - unfold writing. simpl. by rewrite I.
  - by rewrite U.
  - intros o'' ss' c'' HK' HT (f' & n'' & ->). apply (Hdone o'' ss'); [by eapply kept_trans|done|].
    exists f', n''. simpl. by rewrite E, app_assoc.
Qed.
End sending.
