(* ===== verification/ServeOk.v ===== *)
(** * Requests from their first byte to their last

    The phases of the state machine put together: a connection that is idle reads
    a request line however it arrives, the request is served, its response is
    sent and the connection is idle again. *)

From stdpp Require Import relations.
From S2P Require Import Prelude Util Time Lease Hash Assoc Item State Slabs Items IQ Conn Ascii AsciiCmd Core Inv SlabsOk ItemsOk StoreOk ConnOk AsciiOk GetOk CoreOk.
Open Scope Z_scope.
Implicit Types (c : core) (k : asc) (o : outv).

(** ** Connections between requests *)

(** Over TCP, with memory to be had. *)
Record fit o : Prop := Fit {
  ft_tcp : udp o = false;
  ft_plenty : plenty o;
  ft_msg : (0 < length (msg o))%nat;
  ft_iov : (0 < length (iov o))%nat
}.

Record conn_ok c : Prop := ConnOk {
  co_fit : fit (out (srv c));
  co_rsize : (0 < rsize c)%nat;
  co_room : (length (rdata c) <= rsize c)%nat;
  co_events : events_work c
}.

Lemma conn_ok_same c c' :
  conn_ok c -> out (srv c') = out (srv c) -> rsize c' = rsize c -> (length (rdata c') <= length (rdata c))%nat ->
  event_ok c' = event_ok c -> conn_ok c'.
Proof. intros [HF Hr Hd HE] Eo Er El Ee. split; [by rewrite Eo|by rewrite Er|lia|]. intros n. rewrite Ee. apply HE. Qed.

(** Reading and waiting change the state, the buffers and statistics only. *)
Definition same_conn k k' : Prop :=
  exists x o i t es, k' = set_state x (set_out o (set_isize i (set_cn (Items.Conn t (c_lease_token (cn k)) (c_tid (cn k)))
    (set_store (set_events es (store k)) k)))).

Lemma same_conn_refl k : same_conn k k.
Proof. exists (state k), (out k), (isize k), (c_req_type (cn k)), (events (store k)). by destruct k as [[] ? ? ? [] ? ? ? ? ? ? ? ? ? ? ? ? ?]. Qed.
Lemma same_conn_trans k1 k2 k3 : same_conn k1 k2 -> same_conn k2 k3 -> same_conn k1 k3.
Proof. intros (x & o & i & t & es & ->) (x' & o' & i' & t' & es' & ->). by exists x', o', i', t', es'. Qed.
Lemma same_conn_state k x : same_conn k (set_state x k).
Proof. exists x, (out k), (isize k), (c_req_type (cn k)), (events (store k)). by destruct k as [[] ? ? ? [] ? ? ? ? ? ? ? ? ? ? ? ? ?]. Qed.
Lemma same_conn_out k o : same_conn k (set_out o k).
Proof. exists (state k), o, (isize k), (c_req_type (cn k)), (events (store k)). by destruct k as [[] ? ? ? [] ? ? ? ? ? ? ? ? ? ? ? ? ?]. Qed.

Record steady c c' : Prop := Steady {
  sd_ok : conn_ok c';
  sd_srv : same_conn (srv c) (srv c');
  sd_sends : sends c' = sends c;
  sd_sent : sent c' = sent c
}.

Lemma steady_refl c : conn_ok c -> steady c c.
Proof. intros HC. split; [done|apply same_conn_refl|done|done]. Qed.
Lemma steady_trans c1 c2 c3 : steady c1 c2 -> steady c2 c3 -> steady c1 c3.
Proof. intros [? S1 ? ?] [? S2 ? ?]. split; [done|by eapply same_conn_trans|congruence|congruence]. Qed.

Lemma fit_realloc o (Q : bool -> outv -> Prop) : fit o -> (forall n, fit (set_nrealloc n o) -> Q true (set_nrealloc n o)) -> wp realloc Q o.
Proof. intros [F1 F2 F3 F4] HQ. unfold realloc. out_go. rewrite F2. by apply HQ. Qed.

(** ** The next command *)

Lemma shrink_out_spec o : fit o ->
  wp (o ← gets id;
      when (MSG_HIGHWAT <? length (msg o))%nat (ok ← realloc; when ok (modify (fun o => set_msg (take MSG_SIZE (msg o)) o)));;
      o ← gets id;
      when (IOV_HIGHWAT <? length (iov o))%nat (ok ← realloc; when ok (modify (fun o => set_iov (take IOV_SIZE (iov o)) o))))
    (fun _ o' => fit o') o.
Proof.
  intros HF. apply wp_bind, wp_gets, wp_bind.
  assert (wp (when (MSG_HIGHWAT <? length (msg o))%nat (ok ← realloc; when ok (modify (fun o => set_msg (take MSG_SIZE (msg o)) o))))
    (fun _ o' => fit o') o) as H1.
  { apply wp_when; [|done]. intros _. apply wp_bind. apply fit_realloc; [done|]. intros n [F1 F2 F3 F4]. cbn [when]. apply wp_modify.
    split; try done. simpl in *. rewrite length_take. unfold MSG_SIZE. lia. }
  eapply wp_mono; [exact H1|]. intros [] o1 HF1. apply wp_bind, wp_gets.
  apply wp_when; [|done]. intros _. apply wp_bind. apply fit_realloc; [done|]. intros n [F1 F2 F3 F4]. cbn [when]. apply wp_modify.
  split; try done. simpl in *. rewrite length_take. unfold IOV_SIZE. lia.
Qed.

Lemma shrink_spec c : conn_ok c ->
  wp conn_shrink (fun _ c' => steady c c' /\ rdata c' = rdata c /\ incoming c' = incoming c /\ state (srv c') = state (srv c)) c.
Proof.
  intros [HF Hr Hd HE]. unfold conn_shrink. core_go. rewrite (ft_tcp _ HF).
  assert (wp (when (bool_decide (RSIZE_HIGHWAT < rsize c /\ length (rdata c) < TCP_BUFFER_SIZE)%nat)
      (ok ← on_srv (on_out realloc); when ok (modify (set_rsize TCP_BUFFER_SIZE))))
    (fun _ c' => steady c c' /\ rdata c' = rdata c /\ incoming c' = incoming c /\ state (srv c') = state (srv c)) c) as H1.
  { apply wp_when; [|intros _; split_and!; [by apply steady_refl|done..]]. intros [_ Hb]%bool_decide_eq_true. core_go. apply wp_on_out, fit_realloc; [done|].
    intros n HF'. cbn [when]. core_go. split_and!; try done. split; try done; [split; try done; simpl; unfold TCP_BUFFER_SIZE in *; lia|apply same_conn_out]. }
  apply wp_bind. eapply wp_mono; [exact H1|]. intros [] c1 (S1 & E1 & E2 & E3). apply wp_on_srv. asc_go.
  assert (wp (when (ILIST_HIGHWAT <? isize (srv c1))%nat (ok ← on_out realloc; when ok (modify (set_isize ILIST_SIZE))))
    (fun _ k' => same_conn (srv c1) k' /\ fit (out k') /\ state k' = state (srv c1)) (srv c1)) as H2.
  { apply wp_when; [|intros _; split_and!; [apply same_conn_refl|apply S1|done]]. intros _. asc_go. apply wp_on_out, fit_realloc; [apply S1|].
    intros n HF'. cbn [when]. asc_go. split_and!; [|done|done].
    exists (state (srv c1)), (set_nrealloc n (out (srv c1))), ILIST_SIZE, (c_req_type (cn (srv c1))), (events (store (srv c1))).
    by destruct (srv c1) as [[] ? ? ? [] ? ? ? ? ? ? ? ? ? ? ? ? ?]. }
  eapply wp_mono; [exact H2|]. intros [] k2 (K1 & K2 & K3). apply wp_on_out. eapply wp_mono; [by apply shrink_out_spec|]. intros [] o' HF'.
  split_and!; [|done|done|by simpl; rewrite K3]. destruct S1 as [[_ R1 D1 V1] S1 N1 N2]. split; try done.
  eapply same_conn_trans; [exact S1|]. eapply same_conn_trans; [exact K1|]. apply same_conn_out.
Qed.

(** ** Reading a line *)

(** What a read of the socket does: [got] is added to the buffer, which may have
    grown. *)
Definition read_more c bs c' : Prop :=
  exists got bs', bs = got ++ bs' /\ arrives (incoming c') bs' /\ rdata c' = rdata c ++ got /\ steady c c' /\ state (srv c') = state (srv c) /\
    (coming (incoming c') bs' <= coming (incoming c) bs)%nat.

Lemma read_more_trans c bs c1 bs1 got c2 :
  bs = got ++ bs1 -> rdata c1 = rdata c ++ got -> steady c c1 -> state (srv c1) = state (srv c) ->
  (coming (incoming c1) bs1 <= coming (incoming c) bs)%nat -> read_more c1 bs1 c2 -> read_more c bs c2.
Proof.
  intros -> E1 S1 T1 Hc (got2 & bs2 & -> & Ha & E2 & S2 & T2 & Hc2). exists (got ++ got2), bs2.
  split_and!; [by rewrite app_assoc|done|by rewrite E2, E1, app_assoc|by eapply steady_trans|congruence|lia].
Qed.

Lemma grow_spec c n gotdata :
  conn_ok c -> Z.of_nat (length (rdata c)) < 2 ^ 30 -> (n <= 4)%nat ->
  wp (core_grow n gotdata) (fun r c' => steady c c' /\ rdata c' = rdata c /\ incoming c' = incoming c /\ state (srv c') = state (srv c) /\
    if decide (rsize c <= length (rdata c))%nat then
      if decide (n = 4)%nat then r = inl gotdata else r = inr (S n) /\ (length (rdata c') < rsize c')%nat
    else r = inr n /\ (length (rdata c') < rsize c')%nat) c.
Proof.
  intros HC Hb Hn. unfold core_grow. core_go. pose proof HC as [HF Hr Hd HE]. case_decide as Hfull; cycle 1.
  { core_go. split_and!; [by apply steady_refl|done..|lia]. }
  case_decide as H4; core_go; [split_and!; [by apply steady_refl|done..]|].
  apply wp_on_out, fit_realloc; [done|]. intros m HF'. cbn [negb]. rewrite decide_False by lia. core_go.
  split_and!; [|done..|simpl; lia]. split; try done; [|apply same_conn_out]. split; try done; simpl; lia.
Qed.

(** The loop of reads never exhausts its rounds: after the first, the buffer is
    full in every round. *)
Lemma read_loop_spec fuel : forall n gotdata c bs,
  conn_ok c -> arrives (incoming c) bs -> Z.of_nat (length (rdata c ++ bs)) < 2 ^ 30 -> (n <= 4)%nat ->
  (5 - n + (if decide (rsize c <= length (rdata c)) then 0 else 1) <= fuel)%nat ->
  wp (core_read_tcp_loop fuel n gotdata) (fun r c' => read_more c bs c' /\ (r = gotdata \/ r = READ_DATA_RECEIVED) /\
    (rdata c' <> rdata c -> r = READ_DATA_RECEIVED) /\
    (bs <> [] -> n = 0%nat -> exists bs', arrives (incoming c') bs' /\ (coming (incoming c') bs' < coming (incoming c) bs)%nat)) c.
Proof.
  induction fuel as [|fuel IH]; intros n gotdata c bs HC Ha Hb Hn Hf; [case_decide; lia|]. simpl core_read_tcp_loop. rewrite length_app in Hb.
  apply wp_bind. eapply wp_mono; [apply (grow_spec c n gotdata HC); lia|]. intros r c1 (S1 & E1 & E2 & E3 & Hr).
  destruct (decide (rsize c <= length (rdata c) /\ n = 4)%nat) as [[Hd1 ->]|Hgo].
  { rewrite !decide_True in Hr by done. subst r. core_go. split_and!; [|by left|done|done]. exists [], bs.
    rewrite E2, app_nil_r. split_and!; done. }
  assert (exists n', r = inr n' /\ (n' <= 4 /\ n <= n' /\ 5 - n' <= fuel /\ length (rdata c1) < rsize c1)%nat) as (n' & -> & N1 & N2 & N3 & N4).
  { repeat case_decide; try lia; destruct Hr as [-> ?]; eexists; (split; [done|lia]). }
  core_go. rewrite <-E2 in Ha. eapply wp_mono; [apply (sock_read_spec _ c1 bs Ha); lia|]. rewrite E2 in *.
  intros r c2 (l & -> & [(-> & Hl & Hle & Hlt)|(got & bs' & -> & Hg & Hlen & -> & Hl & Hlt)]).
  - core_go. split_and!; [|by left|by simpl; rewrite E1|intros Hbs _; exists bs; split; [done|by apply Hlt]]. exists [], bs.
    split_and!; [done|done|simpl; by rewrite app_nil_r| |done|].
    + destruct S1 as [K1 K2 K3 K4]. split; [by apply (conn_ok_same c1)|done|done|done].
    + done.
  - core_go. set (c3 := set_rdata (rdata c1 ++ got) (set_incoming l c1)).
    assert (steady c c3) as S3.
    { destruct S1 as [K1 K2 K3 K4]. split; [|done|done|done]. destruct K1 as [L1 L2 L3 L4]. split; try done. simpl. rewrite length_app. lia. }
    assert (rdata c3 = rdata c ++ got) as E4 by (by simpl; rewrite E1).
    assert (rdata c ++ got <> rdata c) as Hne by (intros E; apply (f_equal length) in E; rewrite length_app in E; destruct got; [done|simpl in E; lia]).
    rewrite length_app in Hb. destruct (decide (length got = _)) as [Hfull|Hfull]; core_go.
    + eapply wp_mono; [apply (IH n' READ_DATA_RECEIVED c3 bs'); [apply S3|done| |done|]|].
      * rewrite E4, !length_app. lia.
      * rewrite decide_True; [lia|]. simpl. rewrite length_app. lia.
      * intros r c' (RM & Hr' & _ & _). assert (r = READ_DATA_RECEIVED) as -> by (by destruct Hr'). split_and!; [|by right|done|].
        -- eapply read_more_trans; [done|exact E4|done|done|simpl; lia|exact RM].
        -- destruct RM as (g2 & bs2 & -> & Ha2 & _ & _ & _ & Hc2). intros _ _. exists bs2. split; [done|]. simpl in Hc2. lia.
    + split_and!; [|by right|done|].
      * exists got, bs'. split_and!; [done|done|done|done|done|simpl; lia].
      * intros _ _. exists bs'. split; [done|]. simpl. lia.
Qed.

Section serve.
Context (e : request_env) (reqs_per_event : Z) (Hreqs : 0 < reqs_per_event).

(** A connection without a command reads on, in this event or in the next. *)
Lemma new_cmd_leads c : conn_ok c -> state (srv c) = CONN_NEW_CMD -> c_item (srv c) = None ->
  leads e reqs_per_event (fun c' => steady c c' /\ rdata c' = rdata c /\ incoming c' = incoming c /\
    state (srv c') = if decide (rdata c = []) then CONN_WAIT else CONN_PARSE) c.
Proof.
  intros HC Hst Hi.
  assert (forall c1 n, conn_ok c1 -> state (srv c1) = CONN_NEW_CMD -> c_item (srv c1) = None -> 0 < n ->
    wp (core_step e n) (fun r c' => r = (false, n - 1) /\ steady c1 c' /\ rdata c' = rdata c1 /\ incoming c' = incoming c1 /\
      state (srv c') = if decide (rdata c1 = []) then CONN_WAIT else CONN_PARSE) c1) as Hgo.
  { intros c1 n HC1 Hst1 Hi1 Hn. unfold core_step. core_go. rewrite Hst1. destruct (Z.leb_spec 0 (n - 1)); [|lia].
    unfold core_reset_cmd_handler, drop_item. core_go. cbn [c_item set_cn]. rewrite Hi1. core_go.
    set (c2 := set_srv _ c1). assert (steady c1 c2) as S2.
    { split; [by apply (conn_ok_same c1)| |done|done]. simpl. exists (state (srv c1)), (out (srv c1)), (isize (srv c1)), REQ_UNKNOWN, (events (store (srv c1))).
      by destruct (srv c1) as [[] ? ? ? [] ? ? ? ? ? ? ? ? ? ? ? ? ?]. }
    eapply wp_mono; [by apply shrink_spec, S2|]. intros [] c3 (S3 & E3 & E4 & _). core_go. rewrite E3. cbn [rdata set_srv].
    split_and!; [done| |exact E3|exact E4|done]. eapply steady_trans; [exact S2|]. eapply steady_trans; [exact S3|].
    split; [by eapply conn_ok_same; [apply S3|..]|apply same_conn_state|done|done]. }
  intros n. destruct (decide (0 < n)) as [Hn|Hn].
  - destruct (wp_elim _ _ _ (Hgo c n HC Hst Hi Hn)) as (r & c' & He & -> & HQ). exists (n - 1), c'. split; [|done].
    apply rtc_once. by apply turn_on.
  - assert (wp (core_step e n) (fun r c' => r.1 = true /\ steady c c' /\ rdata c' = rdata c /\ incoming c' = incoming c /\
      state (srv c') = CONN_NEW_CMD /\ c_item (srv c') = None) c) as Hy.
    { unfold core_step. core_go. rewrite Hst. destruct (Z.leb_spec 0 (n - 1)); [lia|]. core_go. set (c2 := set_srv _ c).
      assert (steady c c2) as S2.
      { split; [by apply (conn_ok_same c)| |done|done]. simpl. exists (state (srv c)), (out (srv c)), (isize (srv c)), (c_req_type (cn (srv c))), (ThreadIncr "conn_yield" :: events (store (srv c))).
        by destruct (srv c) as [[] ? ? ? [] ? ? ? ? ? ? ? ? ? ? ? ? ?]. }
      destruct (0 <? length (rdata c2))%nat; cbn [when]; core_go; [|split_and!; done].
      eapply wp_mono; [apply update_spec, HC|]. intros ok c3 (-> & m & ->). core_go. split_and!; try done.
      eapply steady_trans; [exact S2|]. split; [by apply (conn_ok_same c)|apply same_conn_refl|done|done]. }
    destruct (wp_elim _ _ _ Hy) as ([stop n'] & c1 & He & Hs & S1 & E1 & E2 & E3 & E4). simpl in Hs. subst stop.
    destruct (wp_elim _ _ _ (Hgo c1 reqs_per_event (sd_ok _ _ S1) E3 E4 Hreqs)) as (r & c' & He' & -> & S' & F1 & F2 & F3).
    exists (reqs_per_event - 1), c'. split; [|split_and!; [by eapply steady_trans|congruence|congruence|by rewrite <-E1]].
    eapply rtc_l; [by eapply turn_event|]. apply rtc_once. by apply turn_on.
Qed.

(** A line of at most 1024 bytes is read whole, however it arrives. *)
Definition line_ready c line rest c' : Prop :=
  exists more bs', rdata c' = line ++ 10 :: more /\ rest = more ++ bs' /\ arrives (incoming c') bs' /\
    steady c c' /\ state (srv c') = CONN_PARSE.

Lemma line_ready_steady c c1 line rest c' : steady c c1 -> line_ready c1 line rest c' -> line_ready c line rest c'.
Proof. intros S (more & bs' & E1 & E2 & Ha & S' & Hst). exists more, bs'. split_and!; [done..|by eapply steady_trans|done]. Qed.

Lemma steady_state c x : conn_ok c -> steady c (set_srv (set_state x (srv c)) c).
Proof. intros HC. split; [by apply (conn_ok_same c)|apply same_conn_state|done|done]. Qed.

(** The buffer holds a part of the line, or the line and more. *)
Lemma line_split (x y line rest : list Z) : x ++ y = line ++ 10 :: rest -> 10 ∉ line ->
  (10 ∉ x /\ (length x <= length line)%nat /\ y <> []) \/ exists more, x = line ++ 10 :: more /\ rest = more ++ y.
Proof.
  intros E Hl. apply app_eq_inv in E as [(l & E1 & E2)|(l & E1 & E2)].
  - destruct l as [|b more]; [left|right].
    + rewrite app_nil_r in E1. subst x. split_and!; [done|done|]. simpl in E2. by subst y.
    + injection E2 as <- ->. by exists more.
  - left. subst line y. rewrite not_elem_of_app in Hl. rewrite length_app. split_and!; [naive_solver|lia|]. by destruct l.
Qed.

Lemma memchr_none l b : b ∉ l -> memchr l b = None.
Proof.
  induction l as [|x l IH]; [done|]. rewrite not_elem_of_cons. intros [Hn Hl]. simpl. rewrite (proj2 (Z.eqb_neq x b)) by congruence.
  by rewrite IH.
Qed.

Lemma memchr_split l b l' : b ∉ l -> memchr (l ++ b :: l') b = Some (length l).
Proof.
  induction l as [|x l IH]; [simpl; by rewrite Z.eqb_refl|]. rewrite not_elem_of_cons. intros [Hn Hl]. simpl.
  rewrite (proj2 (Z.eqb_neq x b)) by congruence. by rewrite IH.
Qed.

(** Without a line the connection waits. *)
Lemma parse_waits c : 10 ∉ rdata c -> (length (rdata c) <= 1024)%nat -> state (srv c) = CONN_PARSE -> forall n,
  wp (core_step e n) (fun _ c' => c' = set_srv (set_state CONN_WAIT (srv c)) c) c.
Proof.
  intros Hn Hl Hst n. unfold core_step. core_go. rewrite Hst. unfold core_parse. core_go. unfold asc_parse.
  assert (wp (if decide (rdata c = []) then mret (MC_EAGAIN, rdata c)
     else match memchr (rdata c) 10 with
          | Some el => let line := take el (rdata c) in
              let line := if (1 <? el)%nat && bool_decide (last line = Some 13) then take (el - 1) line else line in
              asc_dispatch e (c_string line);; mret (MC_OK, drop (S el) (rdata c))
          | None => if decide (1024 < length (rdata c))%nat then
              '(n, ptr) ← lift (skip_blanks (rdata c));
              if (100 <? n)%nat || (negb (strcmp_n ptr "get ") && negb (strcmp_n ptr "gets "))
              then conn_set_state CONN_CLOSE;; mret (MC_ERROR, rdata c) else mret (MC_EAGAIN, rdata c)
              else mret (MC_EAGAIN, rdata c)
          end) (fun r k => r = (MC_EAGAIN, rdata c) /\ k = srv c) (srv c)) as Hp.
  { case_decide; [done|]. rewrite memchr_none by done. rewrite decide_False by lia. done. }
  eapply wp_mono; [exact Hp|]. intros ? k [-> ->]. core_go. rewrite bool_decide_true by done. cbn [when]. core_go. by destruct c.
Qed.

Lemma wait_reads c : events_work c -> state (srv c) = CONN_WAIT -> forall n,
  wp (core_step e n) (fun _ c' => exists f m, c' = set_nevent m (set_ev_flags f (set_srv (set_state CONN_READ (srv c)) c))) c.
Proof.
  intros HE Hst n. unfold core_step. core_go. rewrite Hst. core_go. eapply wp_mono; [by apply update_spec|].
  intros ok c' (-> & m & ->). core_go. by exists EV_READ, m.
Qed.

Lemma read_leads m : forall c bs line rest, (coming (incoming c) bs <= m)%nat ->
  conn_ok c -> arrives (incoming c) bs -> rdata c ++ bs = line ++ 10 :: rest -> 10 ∉ line -> 10 ∉ rdata c -> (length line <= 1024)%nat ->
  Z.of_nat (length (line ++ 10 :: rest)) < 2 ^ 30 -> state (srv c) = CONN_READ ->
  leads e reqs_per_event (line_ready c line rest) c.
Proof.
  induction m as [|m IH]; intros c bs line rest Hm HC Ha E Hl Hn Hlen Hb Hst.
  all: destruct (line_split _ _ _ _ E Hl) as [(_ & Hx & Hbs)|(more & Ex & _)]; [|rewrite Ex in Hn; set_solver].
  { destruct bs; [done|]. unfold coming in Hm. simpl in Hm. lia. }
  apply leads_step. intros n. unfold core_step. core_go. rewrite Hst. unfold core_read. core_go. rewrite (ft_tcp _ (co_fit _ HC)). core_go.
  eapply wp_mono; [apply (read_loop_spec 6 0 READ_NO_DATA_RECEIVED c bs HC Ha); [by rewrite E|lia|case_decide; lia]|].
  intros r c1 ((got & bs1 & -> & Ha1 & E1 & S1 & T1 & _) & Hr & Hd & Hc). destruct (Hc Hbs eq_refl) as (bs2 & Ha2 & Hlt).
  rewrite (arrives_fun _ _ _ Ha2 Ha1) in Hlt. clear bs2 Ha2 Hc. rewrite app_assoc, <-E1 in E.
  assert (forall c2, steady c c2 -> incoming c2 = incoming c1 -> rdata c2 = rdata c1 -> 10 ∉ rdata c2 -> state (srv c2) = CONN_WAIT ->
    leads e reqs_per_event (line_ready c line rest) c2) as Hwait.
  { intros c2 S2 I2 D2 Hn2 Hst2. apply leads_step. intros n'. eapply wp_mono; [by apply wait_reads; [apply S2|]|].
    intros r' c3 (f & m' & ->). eapply leads_mono; [apply (IH _ bs1 line rest)|].
    - simpl. rewrite I2. lia.
    - by apply (conn_ok_same c2); [apply S2|..].
    - simpl. by rewrite I2.
    - simpl. by rewrite D2.
    - done.
    - done.
    - done.
    - done.
    - done.
    - intros c4 L. eapply line_ready_steady; [exact S2|]. eapply line_ready_steady; [|exact L].
      split; [by apply (conn_ok_same c2); [apply S2|..]|apply same_conn_state|done|done]. }
  destruct r; core_go; [| |naive_solver|naive_solver].
  - set (c2 := set_srv _ c1). assert (steady c c2) as S2 by (eapply steady_trans; [exact S1|apply steady_state, S1]).
    destruct (line_split _ _ _ _ E Hl) as [(Hn1 & Hx1 & _)|(more & Ex & Er)].
    + apply leads_step. intros n'. eapply wp_mono; [by apply parse_waits; [|simpl; lia|]|]. intros r' c3 ->.
      apply Hwait; [|done..]. eapply steady_trans; [exact S2|]. apply steady_state, S2.
    + apply leads_here. exists more, bs1. split_and!; [done|done|done|done|done].
  - apply Hwait; [|done|done| |done]; [eapply steady_trans; [exact S1|apply steady_state, S1]|]. simpl.
    destruct (decide (rdata c1 = rdata c)) as [-> |Hd']; [done|]. by specialize (Hd Hd').
Qed.

(** From the end of a command to the next line. *)
Lemma line_leads c bs line rest :
  conn_ok c -> state (srv c) = CONN_NEW_CMD -> c_item (srv c) = None ->
  arrives (incoming c) bs -> rdata c ++ bs = line ++ 10 :: rest -> 10 ∉ line -> (length line <= 1024)%nat ->
  Z.of_nat (length (line ++ 10 :: rest)) < 2 ^ 30 -> leads e reqs_per_event (line_ready c line rest) c.
Proof.
  intros HC Hst Hi Ha E Hl Hlen Hb. eapply leads_trans; [by apply new_cmd_leads|]. intros c1 (S1 & D1 & I1 & Hst1).
  assert (forall c2, steady c c2 -> incoming c2 = incoming c1 -> rdata c2 = rdata c1 -> 10 ∉ rdata c2 -> state (srv c2) = CONN_WAIT ->
    leads e reqs_per_event (line_ready c line rest) c2) as Hwait.
  { intros c2 S2 I2 D2 Hn2 Hst2. apply leads_step. intros n'. eapply wp_mono; [by apply wait_reads; [apply S2|]|].
    intros r' c3 (f & m' & ->). eapply leads_mono; [apply (read_leads (coming (incoming c) bs) _ bs line rest); simpl; rewrite ?I2, ?I1, ?D2, ?D1; try done|].
    - by apply (conn_ok_same c2); [apply S2|..].
    - by rewrite <-D1, <-D2.
    - intros c4 L. eapply line_ready_steady; [exact S2|]. eapply line_ready_steady; [|exact L].
      split; [by apply (conn_ok_same c2); [apply S2|..]|apply same_conn_state|done|done]. }
  case_decide as Hd.
  - apply Hwait; try done. rewrite D1, Hd. by apply not_elem_of_nil.
  - rewrite <-D1 in E. destruct (line_split _ _ _ _ E Hl) as [(Hn1 & Hx1 & _)|(more & Ex & Er)].
    + apply leads_step. intros n'. eapply wp_mono; [by apply parse_waits; [|lia|]|]. intros r' c3 ->.
      apply Hwait; [|done..]. eapply steady_trans; [exact S1|]. apply steady_state, S1.
    + apply leads_here. exists more, bs. rewrite I1. split_and!; done.
Qed.

(** ** Serving a line *)

Lemma reset_spec o : fit o ->
  wp (modify (set_msg_curr 0);; modify (set_msg_used 0);; modify (set_iov_used 0);; conn_add_msghdr)
    (fun r o' => r = MC_OK /\ resp o' [] /\ msg_curr o' = 0%nat) o.
Proof.
  intros [F1 F2 F3 F4]. out_go. set (o1 := set_iov_used 0 _).
  assert (vector [] o1) as V.
  { split; try done; simpl; try lia. intros bufs Hb. by apply not_elem_of_nil in Hb. }
  assert (wp conn_add_msghdr (fun r o' => (r = MC_ENOMEM \/ r = MC_OK) /\ (r = MC_OK -> vector [[]] o' /\ udp o' = false)) o1) as Hw.
  { unfold conn_add_msghdr. apply (add_msghdr_spec []); [done|intros o' _ _; by split; [left|]|]. intros o' V' U'. cbn [udp o1 set_iov_used set_msg_used set_msg_curr] in U' |- *.
    rewrite F1. apply wp_ret. split; [by right|]. intros _. split; [done|]. by rewrite U'. }
  destruct (wp_elim _ _ _ Hw) as (r & o' & He & Hr & Hv). apply (wp_intro _ _ _ _ _ He).
  destruct (wm_add_msghdr conn_add_iov (fun buf => wm_add_iov _ buf) o1 r o' He F2) as (-> & Hre & Hcu). split; [done|]. destruct (Hv eq_refl) as [V' U'].
  split; [|done]. split_and!; [intros n; rewrite Hre; apply F2|done|]. exists [], []. split_and!; [done|unfold payload; by rewrite U'|constructor|unfold dense; simpl; lia].
Qed.

(** The request is dispatched with an empty response. *)
Lemma dispatch_spec k req type (Q : unit -> asc -> Prop) :
  fit (out k) -> asc_parse_type (asc_tokenize req TOKEN_MAX) = Some type ->
  (forall o, resp o [] -> msg_curr o = 0%nat ->
     wp (asc_handle e type (asc_tokenize req TOKEN_MAX)) Q
       (set_cn (Items.Conn type (c_lease_token (cn k)) (c_tid (cn k))) (set_out o k))) ->
  wp (asc_dispatch e req) Q k.
Proof.
  intros HF Ht HQ. unfold asc_dispatch. apply wp_bind, wp_on_out. eapply wp_mono; [by apply reset_spec|]. intros r o (-> & HR & Hm).
  rewrite bool_decide_true by done. cbn [negb]. cbv zeta. apply wp_bind. eapply wp_lift; [exact Ht|]. asc_go. by apply HQ.
Qed.

Lemma c_string_id l : 0 ∉ l -> c_string l = l.
Proof.
  induction l as [|b l IH]; [done|]. rewrite not_elem_of_cons. intros [Hn Hl]. simpl. rewrite (proj2 (Z.eqb_neq b 0)) by congruence. by rewrite IH.
Qed.

(** A whole line is parsed. *)
Lemma parse_line c req more n (Q : core -> Prop) :
  rdata c = (req ++ [13]) ++ 10 :: more -> req <> [] -> 10 ∉ req -> 0 ∉ req -> state (srv c) = CONN_PARSE ->
  wp (asc_dispatch e req) (fun _ k => Q (set_rdata more (set_srv k c))) (srv c) ->
  wp (core_step e n) (fun _ c' => Q c') c.
Proof.
  intros Hd Hne H10 H0 Hst Hw. unfold core_step. core_go. rewrite Hst. unfold core_parse. core_go. rewrite Hd. unfold asc_parse.
  rewrite decide_False by (destruct req; done).
  assert (10 ∉ req ++ [13]) as Hn by (rewrite not_elem_of_app, list_elem_of_singleton; done).
  rewrite memchr_split by done. cbv zeta. rewrite take_app_length. rewrite length_app. cbn [length].
  assert ((1 <? length req + 1)%nat = true) as -> by (apply Nat.ltb_lt; destruct req; [done|simpl; lia]).
  rewrite last_snoc, bool_decide_true by done. cbn [andb]. replace (length req + 1 - 1)%nat with (length req) by lia. rewrite take_app_length.
  rewrite c_string_id by done. apply wp_bind. eapply wp_mono; [exact Hw|]. intros [] k HQ. apply wp_ret.
  replace (drop (S (length req + 1)) ((req ++ [13]) ++ 10 :: more)) with more.
  - core_go. cbn. exact HQ.
  - assert (S (length req + 1) = length (req ++ [13%Z]) + 1)%nat as -> by (rewrite length_app; simpl; lia). by rewrite drop_app_add.
Qed.
End serve.

(** ** Giving up the items of a response *)

Lemma dropped_text it : same_text it (dropped it).
Proof.
  destruct (dropped_fields it) as (D1 & D2 & D3 & D4 & D5 & D6 & D7 & D8). split; try done.
  - unfold dropped. by destruct (_ && _).
  - intros cf. unfold dropped. destruct (_ && _); [|done]. unfold respool, slabbed. by flags.
Qed.

Lemma remove_looks H H' s a : inv H s -> Z.of_nat (length H) <= MAX_HELD -> H ≡ₚ a :: H' -> ordinary s a ->
  slab_lock s = false -> cache_lock s = false ->
  wp (item_remove a) (fun _ s' => inv H' s' /\ looks s s' /\ (forall key x, serves s' key x <-> serves s key x) /\ forall b, reads s s' b) s.
Proof.
  intros HI HH HP (it & Ha & Hr & Hm) Hs Hc. unfold item_remove. apply wp_bind, wp_lock_cache; [done|]. apply wp_bind.
  eapply wp_mono; [apply (remove_spec H H' (set_cache_lock true s) a it); try done|].
  - intros _ _. exact Hr.
  - intros [] s' [HI' O]. pose proof O as [F _]. apply wp_unlock_cache; [by rewrite (k_cache_lock _ _ F)|].
    destruct (dropped_fields it) as (D1 & D2 & D3 & D4 & _).
    assert (looks (set_cache_lock true s) s') as [F0 U0 L0 O0].
    { apply (looks_only _ s' a it (dropped it)); [done|done|by rewrite D4|left|intros cf; apply (tx_pool _ _ (dropped_text it))].
      split_and!; [done|done| |apply dropped_text]. unfold visible, expired, flushed. by rewrite D3, D4. }
    split; [exact HI'|]. split; [split; [by apply frame_locked|exact U0|exact L0|exact O0]|].
    destruct (dropped_entry it) as (E1 & E2 & E3). split.
    + intros key x. exact (only_same (set_cache_lock true s) s' a it (dropped it) key x Ha O (same_dropped _ it)).
    + intros b. exact (only_reads a it (dropped it) (set_cache_lock true s) s' b Ha O E2 E3 E1).
Qed.

Lemma give_up_spec skip H found : forall k L,
  inv L (store k) -> L ≡ₚ found ++ H -> Z.of_nat (length L) <= MAX_HELD -> Forall (ordinary (store k)) found ->
  slab_lock (store k) = false -> cache_lock (store k) = false ->
  wp (give_up_items skip (Some <$> found)) (fun _ k' => exists s, k' = set_ileft [] (set_store s k) /\ inv H s /\ looks (store k) s) k.
Proof.
  induction found as [|a found IH]; intros k L HI HP HL HO Hs Hc; cbn [fmap list_fmap give_up_items].
  - apply wp_modify. exists (store k). split; [by destruct k|]. split; [|apply looks_refl]. by rewrite <-HP.
  - apply Forall_cons in HO as [Ha HO]. apply wp_bind, wp_on_store.
    eapply wp_mono; [by apply (remove_looks L (found ++ H))|]. intros [] s (HI' & Lk & _).
    eapply wp_mono; [apply (IH (set_store s k) (found ++ H)); simpl; try done|].
    + rewrite HP in HL. simpl in HL. lia.
    + eapply Forall_impl; [exact HO|]. apply Lk.
    + by rewrite (k_slab_lock _ _ (lk_frame _ _ Lk)).
    + by rewrite (k_cache_lock _ _ (lk_frame _ _ Lk)).
    + intros [] k' (s' & -> & HI2 & Lk2). exists s'. split; [done|]. split; [done|]. by eapply looks_trans.
Qed.

(** ** Serving a get *)

(** A connection between requests. *)
Record idle c : Prop := Idle {
  id_conn : conn_ok c;
  id_state : state (srv c) = CONN_NEW_CMD;
  id_item : c_item (srv c) = None;
  id_noreply : noreply (srv c) = false
}.

(** A store between requests, with the references [H] held by others. *)
Record calm (H : list addr) s : Prop := Calm {
  cm_inv : inv H s;
  cm_slab : slab_lock s = false;
  cm_cache : cache_lock s = false;
  cm_used : used_before_now s
}.

Lemma calm_looks H s s' : calm H s -> inv H s' -> looks s s' -> calm H s'.
Proof. intros [_ C2 C3 C4] HI [F U _ _]. split; [done|by rewrite (k_slab_lock _ _ F)|by rewrite (k_cache_lock _ _ F)|by apply U]. Qed.

Lemma whole_fit o P : whole o P -> fit o.
Proof. intros (HP & HU & ms & V & _). split; [done|done|apply (vv_msgs _ _ V)|apply (vv_iovs _ _ V)]. Qed.

Lemma fit_kept o o' : fit o -> kept o o' -> fit o'.
Proof. intros [F1 F2 F3 F4] (K1 & K2 & K3 & K4 & K5). split; [congruence|intros n; by rewrite K3|lia|lia]. Qed.

(** A whole response is sent, and its items are given up. *)
Lemma mwrite_leads e rpe H found P more (c : core) :
  conn_ok c -> state (srv c) = CONN_MWRITE -> c_item (srv c) = None -> noreply (srv c) = false ->
  whole (out (srv c)) P -> msg_curr (out (srv c)) = 0%nat -> takes (sends c) (length P + more) ->
  ileft (srv c) = Some <$> found -> inv (reverse found ++ H) (store (srv c)) ->
  Z.of_nat (length (reverse found ++ H)) <= MAX_HELD -> Forall (ordinary (store (srv c))) found ->
  slab_lock (store (srv c)) = false -> cache_lock (store (srv c)) = false ->
  leads e rpe (fun c' => idle c' /\ sent c' = sent c ++ P /\ takes (sends c') more /\ rdata c' = rdata c /\ incoming c' = incoming c /\
    inv H (store (srv c')) /\ looks (store (srv c)) (store (srv c')) /\ alike (srv c) (srv c')) c.
Proof.
  intros HC Hst Hci Hnr HW Hm Ht Hil HI HL HO Hs Hc. pose proof HW as (HP & HU & ms & V & Hp & Hcar).
  assert (unsent ms = P) as Hun by (rewrite <-Hp; unfold payload, unsent; by rewrite HU).
  apply (response_leads e rpe (length (unsent ms) + length (sends c)) more _ c ms); [done|by left|by apply vector_sending| |done|by rewrite Hun|apply HC|].
  { destruct ms as [|bufs ms]; [done|]. apply Forall_cons in Hcar as [? ?]. by split; [right|]. }
  intros o' ss c' HK HT (f & n & ->). unfold transmit_complete. asc_go. cbn [srv state set_out]. rewrite Hst. asc_go. cbn [ileft set_out]. rewrite Hil.
  eapply wp_mono; [apply (give_up_spec true H found _ (reverse found ++ H)); simpl; try done; by rewrite reverse_Permutation|].
  intros [] k (s & -> & HI' & Lk). asc_go. apply leads_here. rewrite Hun.
  split_and!; [|done|done|done|done|done|done|done]. split; [|done|done|done]. destruct HC as [F1 F2 F3 F4]. split; simpl; try done. by eapply fit_kept.
Qed.

(** The response to a get of items that are there or not. *)
Definition get_text (return_cas : bool) (olds : list (option item)) : mem :=
  mjoin (hit_text return_cas <$> olds) ++ init (bytes "END" ++ CRLF).

Lemma get_leads e reqs_per_event H c bs req rest w1 w2 keys t1 str n more
  (Hreqs : 0 < reqs_per_event) (HC : idle c) (HS : calm H (store (srv c)))
  (HW : forall key x, key ∈ keys -> found_under (store (srv c)) key (Some x) -> widths (use_cas (cfg (store (srv c)))) x)
  (HL : forall key x, key ∈ keys -> found_under (store (srv c)) key (Some x) -> respool (cfg (store (srv c))) x = false)
  (Hw1 : w1 = bytes "get" \/ w1 = bytes "gets") (Hwords : words req = w1 :: w2 :: keys)
  (Hkeys : keys <> []) (Hshort : Forall short_key keys)
  (HH : Z.of_nat (length H) + Z.of_nat (length keys) <= MAX_HELD) (Hfuel : (length keys < rq_fuel e)%nat)
  (Ht1 : asc_tokenize req TOKEN_MAX !! 1%nat = Some t1) (Hs1 : t_val t1 = Some str) (Hn : mc_strtol str = (true, n))
  (Hcfg : n = -1 \/ n = configuration_number (srv c)) (Hcfg0 : configuration_number (srv c) <> -1)
  (Hline : (length req < 1024)%nat) (H10 : 10 ∉ req) (H0 : 0 ∉ req)
  (Ha : arrives (incoming c) bs) (Hdata : rdata c ++ bs = req ++ CRLF ++ rest)
  (Hb : Z.of_nat (length (rdata c ++ bs)) < 2 ^ 30)
  (Htakes : forall olds, Forall2 (found_under (store (srv c))) keys olds ->
     takes (sends c) (length (get_text (bool_decide (w1 = bytes "gets")) olds) + more)) :
  leads e reqs_per_event (fun c' => exists olds bs',
    Forall2 (found_under (store (srv c))) keys olds /\
    sent c' = sent c ++ get_text (bool_decide (w1 = bytes "gets")) olds /\
    takes (sends c') more /\ arrives (incoming c') bs' /\ rdata c' ++ bs' = rest /\ idle c' /\
    calm H (store (srv c')) /\ looks (store (srv c)) (store (srv c'))) c.
Proof.
  assert (rdata c ++ bs = (req ++ [13]) ++ 10 :: rest) as Hd by (rewrite Hdata, <-app_assoc; done).
  assert (exists type, asc_parse_type (asc_tokenize req TOKEN_MAX) = Some type /\ (type = REQ_GET \/ type = REQ_GETS) /\
    bool_decide (type = REQ_GETS) = bool_decide (w1 = bytes "gets")) as (type & Htype & Hg & Hgets).
  { rewrite (parse_type_command req w1 w2 keys Hwords). eexists. split; [done|].
    destruct Hw1 as [-> | ->]; (split; [vm_compute; auto|reflexivity]). }
  assert (req <> []) as Hreq by (intros ->; discriminate Hwords).
  eapply leads_trans; [apply (line_leads e reqs_per_event Hreqs c bs (req ++ [13]) rest); try apply HC; try done|].
  { rewrite not_elem_of_app, list_elem_of_singleton. done. }
  { rewrite length_app. simpl. lia. }
  { by rewrite <-Hd. }
  intros c1 (left_ & bs' & E1 & -> & Ha1 & [C1 (x & o1 & i1 & ty & es & Ek) Ess Est] & Hst1).
  apply leads_step. intros nr. eapply (parse_line e c1 req left_ nr); try done.
  apply (dispatch_spec e (srv c1) req type); [apply C1|done|]. intros o HR _. set (k := set_cn _ _).
  assert (store k = set_events es (store (srv c))) as Es by (unfold k; by rewrite Ek).
  assert (configuration_number k = configuration_number (srv c) /\ noreply k = false /\ c_item k = None) as (Ec & En & Ei).
  { unfold k. rewrite Ek. split_and!; [done|apply HC|apply HC]. }
  destruct HS as [HI Hsl Hca HU].
  eapply wp_mono; [apply (get_responds e H k req w1 w2 keys t1 str n); rewrite ?Es, ?Ec; try done|].
  intros [] k2 (olds & found & HF & Hwh & Hst2 & Hm & Hil & Hlen & HI2 & HO & Lk & (A1 & A2 & A3 & A4)).
  change (c_req_type (cn k)) with type in Hwh. rewrite Hgets, Es in *. fold (get_text (bool_decide (w1 = bytes "gets")) olds) in Hwh.
  assert (length found <= length keys)%nat as Hle.
  { rewrite Hlen, (Forall2_length _ _ _ HF). apply length_omap_le. }
  eapply leads_mono; [apply (mwrite_leads e reqs_per_event H found (get_text (bool_decide (w1 = bytes "gets")) olds) more); simpl; try done|].
  - destruct C1 as [F1 F2 F3 F4]. split; simpl; try done; [by eapply whole_fit|]. rewrite E1, !length_app in F3. simpl in F3. lia.
  - congruence.
  - congruence.
  - rewrite Ess. by apply Htakes.
  - rewrite length_app, length_reverse. lia.
  - by rewrite (k_slab_lock _ _ (lk_frame _ _ Lk)).
  - by rewrite (k_cache_lock _ _ (lk_frame _ _ Lk)).
  - intros c' (ID & Se & Tk & Rd & In & HI3 & Lk3 & _). exists olds, bs'. simpl in *.
    assert (looks (store (srv c)) (store (srv c'))) as Lk4.
    { eapply looks_trans; [apply looks_events|]. eapply looks_trans; [exact Lk|exact Lk3]. }
    split_and!; [done|by rewrite Se, Est|done|by rewrite In|by rewrite Rd|done|by eapply (calm_looks H (store (srv c)))|done].
Qed.

(** C9: A get (or gets) is served from its first byte to the last byte of its
    response.  Over TCP and with memory for the response: an idle connection to
    which the request arrives in whatever pieces, between whatever waits and
    after whatever requests of the same event, comes to have sent, for each key
    in order (also more keys than fit in the token array), the text of the item
    the store serves under it at the start, and END, whatever parts of this the
    socket takes at a time; it is then idle again with the rest of the input, it
    has given up all references it took, and the store serves what it did. *)
Theorem get_served e reqs_per_event H c bs req rest w1 w2 keys t1 str n
  (Hreqs : 0 < reqs_per_event) (HC : idle c) (HS : calm H (store (srv c)))
  (HW : forall key x, key ∈ keys -> found_under (store (srv c)) key (Some x) -> widths (use_cas (cfg (store (srv c)))) x)
  (HL : forall key x, key ∈ keys -> found_under (store (srv c)) key (Some x) -> respool (cfg (store (srv c))) x = false)
  (Hw1 : w1 = bytes "get" \/ w1 = bytes "gets") (Hwords : words req = w1 :: w2 :: keys)
  (Hkeys : keys <> []) (Hshort : Forall short_key keys)
  (HH : Z.of_nat (length H) + Z.of_nat (length keys) <= MAX_HELD) (Hfuel : (length keys < rq_fuel e)%nat)
  (Ht1 : asc_tokenize req TOKEN_MAX !! 1%nat = Some t1) (Hs1 : t_val t1 = Some str) (Hn : mc_strtol str = (true, n))
  (Hcfg : n = -1 \/ n = configuration_number (srv c)) (Hcfg0 : configuration_number (srv c) <> -1)
  (Hline : (length req < 1024)%nat) (H10 : 10 ∉ req) (H0 : 0 ∉ req)
  (Ha : arrives (incoming c) bs) (Hdata : rdata c ++ bs = req ++ CRLF ++ rest)
  (Hb : Z.of_nat (length (rdata c ++ bs)) < 2 ^ 30)
  (Htakes : forall olds, Forall2 (found_under (store (srv c))) keys olds ->
     takes (sends c) (length (get_text (bool_decide (w1 = bytes "gets")) olds))) :
  leads e reqs_per_event (fun c' => exists olds bs',
    Forall2 (found_under (store (srv c))) keys olds /\
    sent c' = sent c ++ get_text (bool_decide (w1 = bytes "gets")) olds /\
    arrives (incoming c') bs' /\ rdata c' ++ bs' = rest /\ idle c' /\
    calm H (store (srv c')) /\ looks (store (srv c)) (store (srv c'))) c.
Proof.
  eapply leads_mono; [eapply (get_leads e reqs_per_event H c bs req rest w1 w2 keys t1 str n 0); try done|].
  - intros olds HF. rewrite Nat.add_0_r. by apply Htakes.
  - intros c' (olds & bs' & HF & Hse & _ & Hrest). by exists olds, bs'.
Qed.

(** A connection to a server that has one item, and a get in three pieces. *)
Definition ex_core (s : st) (l : list read_answer) (ss : list sendmsg_result) : core :=
  Core (set_state CONN_NEW_CMD (ex_asc s REQ_UNKNOWN)) [] 2048 EV_READ l ss [] (fun _ => true) 0.

Lemma ex_idle s l ss : idle (ex_core s l ss).
Proof.
  split; [|done..]. split; [|simpl; lia|simpl; lia|done]. destruct ex_out_resp as (R1 & R2 & _). split; [done|done|..]; simpl; lia.
Qed.

Lemma ex_takes m n : (n <= m)%nat -> takes (replicate m (Sent 5)) n.
Proof. revert m. induction n as [|n IH]; intros [|m] Hm; try constructor; [lia|]. apply IH. lia. Qed.

Lemma arrives_app l bs ds : arrives l bs -> ds <> [] -> arrives (Data ds :: l) (ds ++ bs).
Proof. intros Ha Hd. destruct ds as [|b ds]; [done|]. by constructor. Qed.

Lemma ex_texts : map_Forall (fun _ it => (length (text_of false it) <= 100)%nat /\ respool (cfg ex_stored) it = false) (heap ex_stored).
Proof. apply (bool_decide_unpack _). vm_compute. exact I. Qed.

Lemma ex_found_text key old : found_under ex_stored key old -> (length (hit_text false old) <= 100)%nat.
Proof. destruct old as [x|]; [|simpl; lia]. intros (b & (Hb & _) & _). apply (ex_texts b x Hb). Qed.

Lemma get_served_witness :
  leads ex_renv 20 (fun c' => exists olds bs', Forall2 (found_under ex_stored) [bytes "foo"; bytes "bar"] olds /\
    sent c' = get_text false olds /\ arrives (incoming c') bs' /\ rdata c' ++ bs' = bytes "quit" /\ idle c' /\
    calm [ex_a] (store (srv c')) /\ looks ex_stored (store (srv c')))
    (ex_core ex_stored [Data (bytes "get 3"); ReadBlock; Data (bytes " foo bar"); Data (CRLF ++ bytes "quit")] (replicate 300 (Sent 5))).
Proof.
  destruct ex_stored_inv as (HI & _ & Hs & Hc).
  assert (used_before_now ex_stored) as HU by (intros a it Ha _; exact (proj1 (ex_stored_fields a it Ha))).
  assert (forall key x, key ∈ [bytes "foo"; bytes "bar"] -> found_under ex_stored key (Some x) -> widths (use_cas (cfg ex_stored)) x) as HW.
  { intros key x _ (b & (Hb & _) & _). destruct (ex_stored_fields b x Hb) as (_ & H1 & H2 & H3).
    split; [exact H1|]. split; [exact H2|]. intros Hu. rewrite H3 in Hu. discriminate Hu. }
  assert (forall key x, key ∈ [bytes "foo"; bytes "bar"] -> found_under ex_stored key (Some x) -> respool (cfg ex_stored) x = false) as HL
    by (intros key x _ (b & (Hb & _) & _); apply (ex_texts b x Hb)).
  assert (Forall short_key [bytes "foo"; bytes "bar"]) as Hsh by (repeat constructor; by apply Nat.leb_le).
  assert (Z.of_nat (length [ex_a]) + Z.of_nat (length [bytes "foo"; bytes "bar"]) <= MAX_HELD) as HH by by vm_compute.
  assert (length [bytes "foo"; bytes "bar"] < rq_fuel ex_renv)%nat as Hf by (by apply Nat.ltb_lt).
  assert ([bytes "foo"; bytes "bar"] <> []) as Hk by discriminate.
  assert (words (bytes "get 3 foo bar") = bytes "get" :: bytes "3" :: [bytes "foo"; bytes "bar"]) as Hw by (vm_compute; reflexivity).
  assert (asc_tokenize (bytes "get 3 foo bar") TOKEN_MAX !! 1%nat = Some (Token (Some (bytes "3 foo bar")) 1)) as Ht by (vm_compute; reflexivity).
  assert (mc_strtol (bytes "3 foo bar") = (true, 3)) as Hn by (vm_compute; reflexivity).
  pose proof ex_found_text as HT. set (s0 := ex_stored) in *. clearbody s0.
  refine (get_served ex_renv 20 [ex_a] (ex_core s0 _ _) (bytes "get 3" ++ bytes " foo bar" ++ (CRLF ++ bytes "quit") ++ []) (bytes "get 3 foo bar") (bytes "quit")
    _ _ _ _ _ 3 eq_refl (ex_idle _ _ _) (Calm _ _ HI Hs Hc HU) HW HL (or_introl eq_refl) Hw Hk Hsh HH Hf Ht eq_refl Hn (or_intror eq_refl)
    _ _ _ _ _ _ _ _).
  - simpl. lia.
  - apply Nat.ltb_lt. reflexivity.
  - apply (bool_decide_unpack _). vm_compute. exact I.
  - apply (bool_decide_unpack _). vm_compute. exact I.
  - repeat (apply arrives_app || apply arrives_block || apply arrives_nil || discriminate).
  - vm_compute. reflexivity.
  - vm_compute. reflexivity.
  - intros olds HF. apply ex_takes. inversion HF as [|? o1 ? l1 F1 HF1]; subst. inversion HF1 as [|? o2 ? l2 F2 HF2]; subst. inversion HF2; subst.
    pose proof (HT _ _ F1). pose proof (HT _ _ F2). unfold get_text. rewrite length_app. cbn [fmap list_fmap mjoin list_join].
    rewrite !length_app. change (length (init (bytes "END" ++ CRLF))) with 5%nat. change (length (A := option Z) []) with 0%nat.
    change (bool_decide (bytes "get" = bytes "gets")) with false. lia.
Defined.
