(* ===== verification/SetOk.v ===== *)
(** * A set from its first byte to its last

    The header line of a set is parsed and an item allocated (or the value is
    skipped when there is no memory), the value is read into the item however it
    arrives, the item is stored, and the response is sent. *)

From stdpp Require Import relations.
From S2P Require Import Prelude Util Time Lease Hash Assoc Item State Slabs Items IQ Conn Ascii AsciiCmd Core Inv SlabsOk ItemsOk StoreOk IQOk ConnOk AsciiOk GetOk CoreOk ServeOk.
Open Scope Z_scope.
Implicit Types (c : core) (k : asc) (o : outv).

(** ** The header line *)

Lemma wp_and {S A} (m : M S A) (P Q : A -> S -> Prop) s : wp m P s -> wp m Q s -> wp m (fun x s' => P x s' /\ Q x s') s.
Proof. unfold wp. by destruct (m s) as [[x s']|]. Qed.

(** The token is the number [x]. *)
Definition parses (p : list Z -> bool * Z) (ts : list token) (i : nat) (x : Z) : Prop :=
  exists t s, ts !! i = Some t /\ t_val t = Some s /\ p s = (true, x).

Lemma wp_number p ts i x (K : Z -> M asc unit) Q k : parses p ts i x -> wp (K x) Q k -> wp (number p ts i K) Q k.
Proof.
  intros (t & s & Ht & Hs & Hp) HQ. unfold number. asc_go. eapply wp_tok; [exact Ht|]. asc_go. eapply wp_lift; [exact Hs|]. by rewrite Hp.
Qed.

(** The words of a set: the configuration of the client, the fragment, the key,
    the flags, the expiry time and the length of the value. *)
Record set_request (ts : list token) (n frag : Z) (key : list Z) (flags exptime vlen : Z) : Prop := SetRequest {
  sr_tokens : tokenized ts;
  sr_length : length ts = 8%nat;
  sr_config : parses mc_strtol ts 1 n;
  sr_frag : parses mc_strtol ts 2 frag;
  sr_key : exists t, ts !! 3%nat = Some t /\ t_key t = key /\ (t_len t <= KEY_MAX_LEN)%nat;
  sr_flags : parses mc_strtoul ts 4 flags;
  sr_exptime : parses mc_strtol ts 5 exptime;
  sr_vlen : parses mc_strtoul ts 6 vlen
}.

Lemma noreply_no_number r : mc_strtoul (bytes "noreply" ++ r) = (false, 0).
Proof.
  unfold mc_strtoul. rewrite (strto_scan_bad 10 (bytes "noreply" ++ r) 110 (bytes "oreply" ++ r)) by done. done.
Qed.

(** A set without [noreply] leaves the flag as it is. *)
Lemma set_replies ts n frag key flags exptime vlen k :
  set_request ts n frag key flags exptime vlen -> noreply k = false ->
  wp (asc_set_noreply_maybe ts) (fun _ k' => exists es, k' = set_store (set_events es (store k)) k) k.
Proof.
  intros HR Hn. eapply wp_mono; [apply (noreply_maybe_sets ts k); [apply HR|done]|]. intros [] k' [(es & nr & ->) Hs].
  destruct nr; [exfalso|exists es; by destruct k as [? ? ? ? ? ? ? [] ? ? ? ? ? ? ? ? ? ?]].
  destruct (Hs eq_refl) as (t & s & r & Ht & Hv & ->). rewrite (sr_length _ _ _ _ _ _ _ HR) in Ht.
  destruct (sr_vlen _ _ _ _ _ _ _ HR) as (t' & s' & Ht' & Hv' & Hp). change (8 - 2)%nat with 6%nat in Ht. rewrite Ht in Ht'. injection Ht' as <-. assert (s' = bytes "noreply" ++ r) as -> by congruence.
  rewrite noreply_no_number in Hp. done.
Qed.

(** ** Allocation *)

Lemma alloc_config_spec H s id key dataflags exptime nbyte conf :
  inv H s -> Z.of_nat (length H) <= MAX_HELD -> id_ok (cfg s) id -> alloc_ok s false -> cache_lock s = false ->
  Z.of_nat (length key) < 256 -> 0 <= nbyte < 2 ^ 32 -> 0 <= payload_size (psize (cfg s) id) (Z.of_nat (length key)) (use_cas (cfg s)) ->
  wp (item_alloc_config id key dataflags exptime nbyte conf) (alloced H s false id key dataflags exptime nbyte conf) s.
Proof.
  intros HI HH Hid Hal Hc Hk Hb Hp. apply wp_cache_locked; [done|]. eapply wp_mono.
  { apply (alloc_spec H (set_cache_lock true s) false id key dataflags exptime nbyte conf); try done. destruct Hal; by split. }
  intros oa s' [K Ho]. split; [by rewrite (k_cache_lock _ _ K)|].
  split; [destruct K as [F K1 K2]; split; [by apply frame_locked|done|done]|]. destruct oa; exact Ho.
Qed.

Lemma blank_cas cf a id key df ex nb conf t : item_set_cas 0 (blank cf a id key df ex nb conf t) = blank cf a id key df ex nb conf t.
Proof. unfold item_set_cas. by destruct (item_has_cas _). Qed.

(** Fewer items were used in the future. *)
Lemma keeps_used s s' : SlabsOk.keeps s s' -> used_before_now s -> used_before_now s'.
Proof. intros K HU a it Ha Hl. rewrite (k_clk _ _ K). apply (HU a it); [by apply (k_link _ _ K)|done]. Qed.

(** ** Between the header and the value *)

(** An item was allocated, and its value is to be read. *)
Definition set_ready H k (key : list Z) (flags exptime vlen conf : Z) k' : Prop :=
  exists s a id t, let it := blank (cfg s) a id key flags exptime vlen conf t in
    k' = set_state CONN_NREAD (set_rlbytes (vlen + 2) (set_ritem 0 (set_c_item (Some a) (set_store s k)))) /\
    SlabsOk.keeps (store k) s /\ inv (a :: H) s /\ a ∉ H /\ heap s !! a = Some it /\ layout (cfg s) it /\ a.1 ∈ slab_table (info s false).

(** There was no memory: the client is told so and the value is skipped; the old
    item of the key is removed. *)
Definition set_refused H k (key : list Z) (vlen : Z) k' : Prop :=
  exists s, k' = set_sbytes (vlen + 2) (set_write_and_go CONN_SWALLOW (set_state CONN_WRITE
      (set_wdata (init (bytes "SERVER_ERROR" ++ CRLF)) (set_store s k)))) /\
    frame (store k) s /\ inv H s /\ used_before_now s /\ (forall b, b ∈ H -> reads (store k) s b) /\
    (forall e, ~ serves s key e) /\ forall key' e, serves s key' e -> serves (store k) key' e.

(** Looking up an item and deleting it. *)
Lemma get_delete_spec H k key :
  inv H (store k) -> Z.of_nat (length H) + 1 <= MAX_HELD -> slab_lock (store k) = false -> cache_lock (store k) = false ->
  wp (o ← on_store (item_get key); match o with Some a => on_store (item_delete a) | None => mret tt end)
    (fun _ k' => exists s, k' = set_store s k /\ inv H s /\ steps (fun x : list Z => x = key) (fun x : list Z => x = key) (store k) s /\
      (used_before_now (store k) -> used_before_now s)) k.
Proof.
  intros HI HH Hs Hc. apply wp_bind, wp_on_store, wp_cache_locked; [done|]. set (s0 := set_cache_lock true (store k)).
  eapply wp_mono; [apply (get_spec H s0 key); [done|lia|done]|]. intros o s1 G.
  destruct (get_serves H s0 key o s1 HI G) as (F1 & _). pose proof (k_cache_lock _ _ F1) as C1. simpl in C1. split; [done|].
  assert (forall b x, heap s1 !! b = Some x -> item_is_linked x = true -> exists y, heap s0 !! b = Some y /\ item_is_linked y = true /\ i_atime y = i_atime x) as HU.
  { intros b x. apply (got_unaged H s0 key o s1 (S b.1, b.2) G). intros E. apply (f_equal fst) in E. simpl in E. lia. }
  assert (forall s', (forall b x, heap s' !! b = Some x -> item_is_linked x = true -> heap s1 !! b = Some x) -> clk s' = clk (store k) ->
    used_before_now (store k) -> used_before_now s') as HU'.
  { intros s' Hh Hk U b x Hx Hl. rewrite Hk. destruct (HU b x (Hh b x Hx Hl) Hl) as (y & Hy & Hly & <-). by apply (U b y). }
  pose proof (discard_found_spec H s0 key o s1 HI HH Hs G) as Hd. destruct o as [a|].
  - apply wp_on_store. unfold item_delete. apply wp_bind, wp_lock_cache; [done|].
    replace (set_cache_lock true _) with s1 by (destruct s1 as [? ? ? ? ? ? ? ? ? ? ? ? ? ? [] ? ?]; [done|discriminate C1]).
    destruct (got_under H s0 key (Some a) s1 HI G) as (HI1 & (it & Hb) & _).
    assert (slab_lock s1 = false) as Hs1 by (by rewrite (k_slab_lock _ _ F1)).
    pose proof (wp_bind_inv _ _ _ _ (wp_and _ _ _ _ Hd (discard_spec H s1 a it key HI1 HH Hs1 Hb))) as Hd'.
    apply wp_bind. eapply wp_mono; [exact Hd'|]. intros [] s2 Hd2. apply wp_bind. eapply wp_mono; [exact Hd2|].
    intros [] s3 ((HI3 & S3) & _ & x & [_ Hh] & Hl & _). pose proof (st_frame _ _ _ _ S3) as F3.
    apply wp_unlock_cache; [by rewrite (k_cache_lock _ _ F3)|]. eexists. split; [done|]. split; [exact HI3|].
    split; [by apply steps_locked|]. apply HU'; [|apply (k_clk _ _ F3)]. intros b y Hy Hly. simpl in Hy. rewrite Hh in Hy.
    destruct (decide (a = b)) as [<-|Hne]; [rewrite lookup_insert_eq in Hy; congruence|by rewrite lookup_insert_ne in Hy].
  - apply wp_ret. destruct Hd as [HI1 S1]. eexists. split; [done|]. split; [exact HI1|]. split; [by apply steps_locked|].
    apply HU'; [done|apply (k_clk _ _ F1)].
Qed.

Lemma server_error_spec k : noreply k = false -> (14 <= wsize k)%nat ->
  wp asc_write_server_error (fun _ k' => exists es, k' = set_write_and_go CONN_NEW_CMD (set_state CONN_WRITE
    (set_wdata (init (bytes "SERVER_ERROR" ++ CRLF)) (set_store (set_events es (store k)) k)))) k.
Proof.
  intros Hn Hw. unfold asc_write_server_error, asc_write_string. asc_go. cbn [noreply set_store]. rewrite Hn.
  rewrite decide_False by (simpl; lia). asc_go. eexists. reflexivity.
Qed.

Lemma set_header_spec H k ts n frag key flags exptime vlen :
  set_request ts n frag key flags exptime vlen -> c_req_type (cn k) = REQ_SET -> noreply k = false -> (14 <= wsize k)%nat ->
  calm H (store k) -> Z.of_nat (length H) + 1 <= MAX_HELD -> alloc_ok (store k) false ->
  0 < vlen < 2 ^ 31 - 2 -> fits (cfg (store k)) (Z.of_nat (length key)) vlen ->
  (n = -1 \/ n = configuration_number k) -> configuration_number k <> -1 ->
  wp (asc_process_update ts) (fun _ k' =>
    set_ready H k key flags (time_reltime (clk (store k)) exptime) vlen (if frag =? -1 then configuration_number k else frag) k' \/
    set_refused H k key vlen k') k.
Proof.
  intros HR Ht Hn Hw [HI Hs Hc HU] HH Hal Hv Hf Hcfg Hcfg0. unfold asc_process_update. apply wp_bind.
  eapply wp_mono; [by eapply set_replies|]. intros [] k1 (es & ->). pose proof HR as [_ Hlen R1 R2 (t & Htk & <- & Htl) R4 R5 R6].
  unfold valid_tokens. asc_go. cbn [cn set_store]. rewrite Ht, Hlen. cbn [noreply set_store]. rewrite Hn.
  change (asc_ntoken_valid REQ_SET false (Z.of_nat 8)) with true. cbn iota.
  eapply wp_number; [exact R1|]. eapply wp_number; [exact R2|]. asc_go. cbn [cn set_store]. rewrite Ht.
  unfold key_arg. asc_go. eapply wp_tok; [exact Htk|]. rewrite decide_False by lia.
  eapply wp_number; [exact R4|]. eapply wp_number; [exact R5|]. eapply wp_number; [exact R6|].
  change (bool_decide (REQ_SET = REQ_IQSET)) with false. change (bool_decide (REQ_SET = REQ_CAS)) with false.
  change (bool_decide (REQ_SET = REQ_SET)) with true. cbn [orb]. cbn iota.
  unfold asc_check_config. asc_go. cbn [configuration_number set_store]. rewrite andb_comm.
  replace (negb (n =? _) && negb (n =? -1)) with false by (destruct Hcfg as [-> | ->]; rewrite Z.eqb_refl; by rewrite ?andb_false_r).
  asc_go. rewrite (proj2 (Z.eqb_neq _ _) Hcfg0). unfold slabid_arg. asc_go. cbn [store set_store set_events].
  set (s1 := set_events es (store k)). assert (inv H s1) as HI1 by exact HI.
  assert (0 <= Z.of_nat (length (t_key t)) < 256) as Hkey.
  { assert (length (t_key t) <= t_len t)%nat by (unfold t_key; rewrite length_take; lia). unfold KEY_MAX_LEN in *. lia. }
  eapply wp_mono; [apply (slabid_spec H s1); [done|done|lia|done]|].
  intros id ? (-> & Hid & Hfit). rewrite (proj2 (Z.eqb_neq id SLABCLASS_INVALID_ID)) by (pose proof (ok_last _ (inv_cfg H s1 HI1)); unfold id_ok, SLABCLASS_INVALID_ID, SLABCLASS_MIN_ID, SLABCLASS_MAX_ID in *; lia).
  unfold reltime. asc_go.
  eapply wp_mono; [apply (alloc_config_spec H s1 id (t_key t)); try done; [lia|by destruct Hal|lia|lia|]|].
  { unfold payload_size, item_ntotal, CRLF_LEN in *. destruct (use_cas (cfg s1)); lia. }
  intros [a|] s2 [K Ho].
  - destruct Ho as (HI2 & Hna & Hinfo & _ & at_ & Ha). set (k2 := set_store s2 _). asc_go. unfold upd_item. asc_go. eapply wp_get_item; [exact Ha|]. unfold put_item, read_value. asc_go.
    cbn [when]. asc_go. left. exists s2, a, id, at_. rewrite s32_small, blank_cas by lia.
    rewrite (k_cfg _ _ K). split; [|split; [|split; [|split; [|split; [|split]]]]]; try done.
    + unfold k2. rewrite insert_id by exact Ha. by destruct s2.
    + transitivity s1; [by apply keeps_same|exact K].
    + apply (blank_layout (cfg s1)); [lia|done].
  - unfold no_memory, swallow. apply wp_bind.
    eapply wp_mono; [by apply server_error_spec|]. intros [] k3 (es' & ->). asc_go. cbn [when]. set (k4 := set_sbytes _ _).
    eapply wp_mono; [apply (get_delete_spec H k4 (t_key t)); unfold k4; simpl; try done|].
    + by rewrite (k_slab_lock _ _ K).
    + by rewrite (k_cache_lock _ _ K).
    + intros [] k5 (s5 & -> & HI5 & S5 & U5). unfold k4. rewrite s32_small by lia. right. exists s5. split; [done|].
      split; [|split; [done|split; [|split; [|split]]]].
      * transitivity s1; [auto with mc|]. transitivity s2; [apply K|]. transitivity (store k4); [auto with mc|apply S5].
      * apply U5. exact (keeps_used s1 s2 K HU).
      * intros b Hb. eapply reads_trans; [|apply S5]. intros x Hx. exists x. split; [|done].
        destruct (inv_held_item H s1 HI1 b Hb) as (y & Hy & Hpos). apply (k_ref _ _ K); [done|]. change (heap s1 !! b = Some x) in Hx. congruence.
      * intros e He. apply (st_serves _ _ _ _ S5) in He. naive_solver.
      * intros key' e He. apply (st_serves _ _ _ _ S5) in He. exact (keeps_serves s1 s2 key' e K (proj2 He)).
Qed.

(** ** Simple responses *)

Lemma resp_nothing o : resp o [] -> iov_used o = 0%nat.
Proof.
  intros (_ & HU & ms & cur & V & HP & Hc & Hd). rewrite (vv_iov_used _ _ V). unfold payload in HP. rewrite HU, !join_app in HP.
  apply app_eq_nil in HP as [H1 H2]. cbn [mjoin list_join] in H2. rewrite app_nil_r in H2. unfold dense, size in Hd. rewrite H2 in Hd.
  destruct cur; [|simpl in Hd; lia]. destruct ms as [|bufs ms]; [done|]. apply Forall_cons in Hc as [Hc _]. unfold carries, size in Hc.
  cbn [mjoin list_join] in H1. rewrite join_app in H1. apply app_eq_nil in H1 as [H1 _]. rewrite H1 in Hc. simpl in Hc. lia.
Qed.

Section writing.
Context (e : request_env) (reqs_per_event : Z).

(** A state that makes the same step leads to the same. *)
Lemma leads_same (Q : core -> Prop) c c1 :
  (forall n, core_step e n c = core_step e n c1) -> leads e reqs_per_event Q c1 -> ~ Q c1 -> leads e reqs_per_event Q c.
Proof.
  intros He HL HQ n. destruct (HL n) as (n' & c' & Hr & HQ'). exists n', c'. split; [|done].
  inversion Hr as [x|x y z Ht Hr']; subst; [done|]. eapply rtc_l; [|exact Hr']. inversion Ht; subst; [apply turn_on|eapply turn_event]; by rewrite He.
Qed.

Lemma write_leads c P more :
  conn_ok c -> state (srv c) = CONN_WRITE -> resp (out (srv c)) [] -> msg_curr (out (srv c)) = 0%nat ->
  wdata (srv c) = P -> P <> [] -> takes (sends c) (length P + more) ->
  leads e reqs_per_event (fun c' => conn_ok c' /\ sent c' = sent c ++ P /\ takes (sends c') more /\ rdata c' = rdata c /\ incoming c' = incoming c /\
    exists o, srv c' = set_state (write_and_go (srv c)) (set_out o (srv c))) c.
Proof.
  intros HC Hst HR Hm <- HP Ht. set (k := srv c) in *. pose proof HR as (HPl & HU & _).
  destruct (wp_elim _ _ _ (conn_add_iov_resp 0 (out k) [] (wdata k) ltac:(lia) HR)) as (r & o & He & -> & _ & HW). specialize (HW HP).
  destruct (wm_add_iov _ _ _ _ _ He HPl) as (_ & _ & Hm1). set (c1 := set_srv (set_out o k) c).
  pose proof HW as (HP1 & HU1 & ms & V & Hp & Hcar). simpl app in *.
  assert (unsent ms = wdata k) as Hun by (rewrite <-Hp; unfold payload, unsent; by rewrite HU1).
  assert (iov_used o <> 0%nat) as Hi.
  { rewrite (vv_iov_used _ _ V). intros E. apply HP. rewrite <-Hun. unfold unsent. by rewrite (nil_length_inv _ E). }
  apply (leads_same _ c c1).
  - intros n. unfold core_step, core_write, gets, mbind, M_bind, on_srv, add_iov, on_out. fold k. simpl. fold k. rewrite Hst.
    change (srv c) with k. change (srv c1) with (set_out o k). cbn [out set_out]. rewrite HU, HU1, (resp_nothing _ HR). cbn [orb andb Nat.eqb].
    cbv beta. change (srv c) with k. rewrite He. rewrite (proj2 (Nat.eqb_neq _ _) Hi). done.
  - apply (response_leads e reqs_per_event (length (unsent ms) + length (sends c)) more _ c1 ms); simpl; try done.
    + right. done.
    + apply vector_sending; [done|congruence].
    + destruct ms as [|bufs ms]; [done|]. apply Forall_cons in Hcar as [? ?]. by split; [right|].
    + by rewrite Hun.
    + apply HC.
    + intros o' ss c' HK HT (f & n & ->). unfold transmit_complete. asc_go. cbn [srv state set_out set_srv c1]. rewrite Hst. asc_go. apply leads_here.
      rewrite Hun. split_and!; [|done|done|done|done|by exists o']. destruct HC as [F1 F2 F3 F4]. split; simpl; try done.
      eapply fit_kept; [by eapply whole_fit|exact HK].
  - intros (_ & E & _). apply HP. apply (app_inv_head (sent c)). rewrite app_nil_r. by rewrite <-E.
Qed.
End writing.

(** ** The value *)

(** The value and the line end behind it, in an item that starts at the front of
    its chunk. *)
Lemma written_payload it (data : list Z) it' : data_pos it = 0 -> item_write it 0 (init (data ++ CRLF)) = Some it' ->
  exists r, it' = set_payload (init data ++ Some 13 :: Some 10 :: r) it.
Proof.
  intros Hp. unfold item_write, mem_write. rewrite Hp. case_decide; [|done]. cbn. intros [= <-]. eexists.
  rewrite init_app, <-app_assoc. reflexivity.
Qed.

(** An item that was allocated and filled can be linked. *)
Lemma filled_spec H s a id key flags exptime vlen conf t bs it' :
  let it := blank (cfg s) a id key flags exptime vlen conf t in
  let s' := set_heap (<[a := it']> (heap s)) s in
  inv (a :: H) s -> heap s !! a = Some it -> layout (cfg s) it -> a.1 ∈ slab_table (info s false) ->
  item_write it 0 (init bs) = Some it' ->
  inv (a :: H) s' /\ linkable (a :: H) s' a it' /\ (forall key x, serves s' key x <-> serves s key x) /\
  (forall b, b <> a -> reads s s' b) /\ (used_before_now s -> used_before_now s').
Proof.
  intros it s' HI Ha HL Hm Hw. destruct (blank_flags (cfg s) a id key flags exptime vlen conf t) as (B1 & B2 & B3 & B4 & B5 & B6 & B7 & B8).
  fold it in B1, B2, B3, B4, B5, B6, B7, B8.
  assert (wp (write_data a 0 (init bs)) (fun _ s1 => inv (a :: H) s1 /\ only a it' s s1) s) as Hs by (apply (write_spec _ s a it); [done..|congruence]).
  assert (write_data a 0 (init bs) s = Some (tt, s')) as He.
  { unfold write_data, get_item, put_item, gets, lift, modify, mbind, M_bind. rewrite Ha. simpl. by rewrite Hw. }
  unfold wp in Hs. rewrite He in Hs. destruct Hs as [HI' O]. unfold item_write in Hw.
  destruct (mem_write (i_payload it) _ _) as [p|] eqn:E; [|done]. injection Hw as <-. apply mem_write_length in E.
  assert (respool (cfg s) (set_payload p it) = false) as Hr.
  { change (respool (cfg s) it = false). unfold respool. rewrite B5, B6, B7. apply andb_false_r. }
  split_and!; [done| | | |].
  - split; try done.
    + apply (only_eq a _ s s' O).
    + intros Hk. change (item_is_pinned_kind it = true) in Hk. congruence.
    + unfold homed. change (cfg s') with (cfg s). by rewrite Hr.
    + right. change (respool (cfg s) (set_payload p it) = item_is_lease_holder it). congruence.
    + destruct HL as (L1 & L2 & L3 & L4). unfold layout. simpl. rewrite E. done.
    + intros Hk. change (item_is_lease_holder it = true) in Hk. congruence.
  - intros k x. rewrite (only_gone (a :: H) s s' a it (set_payload p it)) by done. rewrite B1. naive_solver.
  - intros b Hb. by apply (only_reads_ne a (set_payload p it)).
  - intros U b x Hb Hl. simpl in Hb. destruct (decide (a = b)) as [<-|Hne]; [rewrite lookup_insert_eq in Hb; injection Hb as <-|].
    + exfalso. change (item_is_linked it = true) in Hl. congruence.
    + rewrite lookup_insert_ne in Hb by done. by apply (U b x).
Qed.

(** The store serves [data] under the key, with these flags and configuration. *)
Definition holds s (key : list Z) (flags conf : Z) (data : list Z) : Prop :=
  exists it, found_under s key (Some it) /\ i_key it = key /\ i_dataflags it = flags /\ i_config_number it = conf /\
    i_nbyte it = Z.of_nat (length data) /\ item_data_raw it = Some (init data) /\ respool (cfg s) it = false /\
    (use_cas (cfg s) = false -> item_cas it = 0).

Lemma holds_looks H H' s s' key flags conf data : inv H s -> inv H' s' -> looks s s' -> holds s key flags conf data -> holds s' key flags conf data.
Proof.
  intros HI HI' Lk (it & (b & Hb & Hv) & E1 & E2 & E3 & E4 & E5 & E6 & E7). destruct (found_ex H' s' key HI') as [old' Ho].
  destruct (lk_found _ _ Lk key old' Ho) as (old & Hf & HT). destruct HT as [x x' HT|].
  - destruct Hf as (b' & Hb' & _). destruct (bound_inj H s key b b' it x HI Hb Hb') as [_ <-]. destruct HT as [T1 T2 T3 T4 T5 T6 T7].
    exists x'. rewrite (k_cfg _ _ (lk_frame _ _ Lk)), T5. split_and!; try done; congruence.
  - rewrite (Hf b it Hb) in Hv. done.
Qed.

Lemma stored_text cas t it : let it' := linked_item cas t it in
  i_key it' = i_key it /\ i_dataflags it' = i_dataflags it /\ i_config_number it' = i_config_number it /\ i_nbyte it' = i_nbyte it /\
  item_data_raw it' = item_data_raw it /\ (forall cf, respool cf it' = respool cf it) /\ item_is_linked it' = true.
Proof.
  simpl. unfold linked_item, item_set_cas. destruct (item_has_cas _); unfold item_data_raw, data_pos, respool; flags; done.
Qed.

(** What completing a set leaves: the response, the reference given up, and the
    value under the key. *)
Definition completed H k a it (data : list Z) k' : Prop :=
  exists s, k' = set_c_item None (set_write_and_go CONN_NEW_CMD (set_state CONN_WRITE (set_wdata (init (bytes "STORED" ++ CRLF)) (set_store s k)))) /\
    inv H s /\ frame (store k) s /\ (used_before_now (store k) -> used_before_now s) /\ (forall b, b <> a -> reads (store k) s b) /\
    (forall key x, key <> i_key it -> serves s key x <-> serves (store k) key x) /\
    (lasting (store k) it -> holds s (i_key it) (i_dataflags it) (i_config_number it) data).

Lemma complete_spec H k a it (data : list Z) r :
  c_item k = Some a -> c_req_type (cn k) = REQ_SET -> noreply k = false -> (14 <= wsize k)%nat ->
  inv (a :: H) (store k) -> slab_lock (store k) = false -> cache_lock (store k) = false ->
  Z.of_nat (length H) + 2 <= MAX_HELD -> linkable (a :: H) (store k) a it -> respool (cfg (store k)) it = false ->
  item_has_cas it = use_cas (cfg (store k)) ->
  i_nbyte it = Z.of_nat (length data) -> data <> [] -> data_pos it = 0 -> i_payload it = init data ++ Some 13 :: Some 10 :: r ->
  wp asc_complete_nread (fun _ k' => completed H k a it data k') k.
Proof.
  intros Hi Ht Hn Hw HI Hs Hc HH Hla Hr Huc Hb Hd Hp Hpl. destruct (found_ex _ _ (i_key it) HI) as [old Hf].
  assert (0 < length data)%nat as Hlen by (destruct data; [done|simpl; lia]).
  unfold asc_complete_nread. asc_go. eapply wp_lift; [exact Hi|]. asc_go. eapply wp_get_item; [apply Hla|]. asc_go.
  rewrite Hp, Hpl, Hb, Z.add_0_l. eapply wp_lift; [rewrite <-(length_init data); apply mem_byte_app|]. cbn [Z.eqb Pos.eqb]. asc_go.
  eapply wp_lift; [|asc_go].
  { replace (init data ++ Some 13 :: Some 10 :: r) with ((init data ++ [Some 13]) ++ Some 10 :: r) by (by rewrite <-app_assoc).
    replace (Z.of_nat (length data) + 1) with (Z.of_nat (length (init data ++ [Some 13]))) by (rewrite length_app, length_init; simpl; lia).
    apply mem_byte_app. }
  cbn [Z.eqb Pos.eqb cn set_store]. rewrite Ht. cbn iota. unfold complete_update, on_conn. asc_go.
  eapply wp_mono; [apply (item_store_spec (a :: H) (store k) a it REQ_SET _ old); try done; [simpl; lia|lia|by left]|].
  intros rs s1 (-> & HI1 & F1 & [R1 U1] & cas & Ha1 & S1). set (it1 := linked_item cas _ it) in *.
  destruct (stored_text cas (time_now (clk (store k))) it) as (T1 & T2 & T3 & T4 & T5 & T6 & T7). fold it1 in T1, T2, T3, T4, T5, T6, T7.
  change (store_verdict REQ_SET it old) with STORED. cbn iota. unfold asc_write_stored, asc_write_string. asc_go. cbn [noreply set_store]. rewrite Hn.
  rewrite decide_False by (simpl; lia). asc_go. cbn [store set_store set_write_and_go set_state set_wdata].
  assert (ordinary s1 a) as Ho.
  { exists it1. split; [done|]. rewrite (k_cfg _ _ F1), T6. split; [done|]. apply (homed_frame (store k) s1 a it); [done|by rewrite T6|apply Hla]. }
  eapply wp_mono; [apply (remove_looks (a :: H) H s1 a); try done; [simpl; lia|by rewrite (k_slab_lock _ _ F1)|by rewrite (k_cache_lock _ _ F1)]|].
  intros [] s2 (HI2 & Lk & Sv & Rd). asc_go. exists s2. split; [done|]. split; [done|]. split; [transitivity s1; [done|apply Lk]|]. split_and!.
  - intros U. apply (lk_used _ _ Lk). intros b x Hx Hl. rewrite (k_clk _ _ F1). destruct (decide (b = a)) as [-> |Hne].
    + assert (x = it1) as -> by congruence. unfold it1, linked_item. simpl. lia.
    + destruct (U1 b x Hne Hx Hl) as (y & Hy & Hly & <-). by apply (U b y).
  - intros b Hne. eapply reads_trans; [by apply R1|apply Rd].
  - intros key x Hne. rewrite Sv, S1. naive_solver.
  - intros HL. assert (visible s1 it1 = true) as Hv by (rewrite (visible_frame (store k) s1) by done; by apply lasting_visible).
    apply (holds_looks (a :: H) H s1 s2); try done. exists it1. rewrite (k_cfg _ _ F1), T6. split_and!; try done; [|congruence| |].
    + exists a. split; [|done]. by split_and!.
    + rewrite T5. unfold item_data_raw. rewrite Hp, Hpl, Hb, <-(length_init data). apply (mem_slice_app [] (init data)).
    + destruct (linked_item_flags cas (time_now (clk (store k))) it) as (_ & _ & C3 & _). fold it1 in C3. intros Hu. unfold item_cas. by rewrite C3, Huc, Hu.
Qed.

(** ** A set *)

(** An item with this expiry time is served now. *)
Definition lasts s (exptime : Z) : Prop :=
  (exptime = 0 \/ time_now (clk s) < exptime) /\ (oldest_live (cfg s) = 0 \/ oldest_live (cfg s) <> time_now (clk s)).

(** What a set leaves, of a store [s0] of configuration [n0] when [ss0] had been
    sent: it was stored and confirmed, or there was no memory, the client was
    told so and the old item is gone.  Other keys only lose. *)
Definition set_done more H s0 (n0 : Z) (ss0 : mem) (key : list Z) (flags conf exptime : Z) (data rest : list Z) c' : Prop :=
  let s := store (srv c') in
  idle c' /\ calm H s /\ frame s0 s /\ configuration_number (srv c') = n0 /\ takes (sends c') more /\
  (exists bs', arrives (incoming c') bs' /\ rdata c' ++ bs' = rest) /\
  (forall b, b ∈ H -> reads s0 s b) /\ (forall key' x, key' <> key -> serves s key' x -> serves s0 key' x) /\
  ((sent c' = ss0 ++ init (bytes "STORED" ++ CRLF) /\ (lasts s0 exptime -> holds s key flags conf data)) \/
   (sent c' = ss0 ++ init (bytes "SERVER_ERROR" ++ CRLF) /\ forall x, ~ serves s key x)).

(** What is known of the connection between the header and the response. *)
Record serving more H k c : Prop := Serving {
  sv_conn : conn_ok c;
  sv_type : c_req_type (cn k) = REQ_SET;
  sv_noreply : noreply k = false;
  sv_wsize : (14 <= wsize k)%nat;
  sv_resp : resp (out k) [];
  sv_msg : msg_curr (out k) = 0%nat;
  sv_calm : calm H (store k);
  sv_item : c_item k = None;
  sv_held : Z.of_nat (length H) + 2 <= MAX_HELD;
  sv_takes : takes (sends c) (14 + more)
}.

Lemma value_split (data rest : list Z) : let n := Z.to_nat (Z.of_nat (length data) + 2) in
  take n (data ++ CRLF ++ rest) = data ++ CRLF /\ drop n (data ++ CRLF ++ rest) = rest.
Proof.
  cbv zeta. replace (Z.to_nat _) with (length (data ++ CRLF)) by (rewrite length_app; simpl; lia).
  by rewrite app_assoc, take_app_length, drop_app_length.
Qed.

(** Counting is not seen. *)
Lemma set_done_events more H s0 es n0 ss0 key flags conf exptime data rest c' :
  set_done more H (set_events es s0) n0 ss0 key flags conf exptime data rest c' -> set_done more H s0 n0 ss0 key flags conf exptime data rest c'.
Proof.
  intros (I1 & I2 & F & I4 & I5 & I6 & I7 & I8 & I9). split_and!; try done. transitivity (set_events es s0); [auto with mc|done].
Qed.

Lemma resp_fit o P : resp o P -> fit o.
Proof. intros (HP & HU & ms & cur & V & _). split; [done|done|apply (vv_msgs _ _ V)|apply (vv_iovs _ _ V)]. Qed.

Section set.
Context (e : request_env) (reqs_per_event : Z).

Lemma refused_leads more H k c key flags conf exptime data bs rest :
  serving more H k c -> set_refused H k key (Z.of_nat (length data)) (srv c) ->
  arrives (incoming c) bs -> rdata c ++ bs = data ++ CRLF ++ rest ->
  leads e reqs_per_event (set_done more H (store k) (configuration_number k) (sent c) key flags conf exptime data rest) c.
Proof.
  intros [HC Ht Hn Hw HR Hm [HI Hs Hca HU] Hi HH Hta] (s & E & F & HI' & U & Rd & Hno & Hlose) Ha Hd.
  eapply leads_trans; [apply (write_leads e reqs_per_event c (init (bytes "SERVER_ERROR" ++ CRLF)) more); try (by rewrite E); done|].
  intros c1 (HC1 & Hs1 & Ht1 & Hr1 & Hi1 & o1 & E1). rewrite E in E1. cbn [write_and_go set_sbytes set_write_and_go] in E1.
  assert (sbytes (srv c1) = Z.of_nat (length data) + 2) as Hsb by (by rewrite E1).
  eapply leads_mono; [apply (swallow_leads e reqs_per_event (pending c1 bs) c1 bs); try done|].
  - by rewrite E1.
  - rewrite Hsb. lia.
  - apply HC1.
  - apply HC1.
  - by rewrite Hi1.
  - rewrite Hsb, Hr1, Hd, !length_app. simpl. lia.
  - intros c' (l & bs' & Ha' & Hd' & Hl' & f & n & E'). rewrite Hsb, Hr1, Hd in Hd'.
    assert (srv c' = set_state CONN_NEW_CMD (set_sbytes 0 (srv c1))) as Es by (by rewrite E'). rewrite E1 in Es.
    assert (store (srv c') = s) as Est by (by rewrite Es). unfold set_done. rewrite Est.
    split_and!; try done.
    + split; [apply (conn_ok_same c1); [done|by rewrite Es, E1|by rewrite E'|done|by rewrite E']|by rewrite Es..].
    + split; [done|by rewrite (k_slab_lock _ _ F)|by rewrite (k_cache_lock _ _ F)|done].
    + by rewrite Es.
    + by rewrite E'.
    + exists bs'. split; [by rewrite E'|]. rewrite Hd'. apply value_split.
    + intros key' x _ Hx. by apply Hlose.
    + right. split; [|done]. rewrite E'. exact Hs1.
Qed.

Lemma ready_leads more H k c key flags conf exptime data bs rest :
  serving more H k c -> set_ready H k key flags exptime (Z.of_nat (length data)) conf (srv c) -> data <> [] ->
  arrives (incoming c) bs -> rdata c ++ bs = data ++ CRLF ++ rest ->
  leads e reqs_per_event (set_done more H (store k) (configuration_number k) (sent c) key flags conf exptime data rest) c.
Proof.
  intros [HC Ht Hn Hw HR Hm [HI Hs Hca HU] Hi HH Hta] (s & a & id & t & E & K & HIs & Hna & Hsa & HL & Hsl) Hne Ha Hd.
  set (it := blank _ _ _ _ _ _ _ _ _) in *. pose proof HL as (L1 & L2 & L3 & L4).
  destruct (blank_flags (cfg s) a id key flags exptime (Z.of_nat (length data)) conf t) as (B1 & _ & B3 & B4 & B5 & B6 & B7 & _).
  fold it in B1, B3, B4, B5, B6, B7. assert (data_pos it = 0) as Hp by (unfold data_pos; by rewrite B3).
  assert (rlbytes (srv c) = Z.of_nat (length data) + 2) as Hrl by (by rewrite E).
  destruct (value_split data rest) as [Htake Hdrop].
  eapply leads_trans; [apply (nread_leads e reqs_per_event (pending c bs) c a it bs); try done|].
  - by rewrite E.
  - change (i_nbyte it) with (Z.of_nat (length data)) in L4. unfold CRLF_LEN in L4.
    rewrite E. split; [done|done|rewrite Hp; done|rewrite Hp; cbn [ritem rlbytes set_state set_rlbytes set_ritem]; lia].
  - rewrite Hrl. lia.
  - apply HC.
  - rewrite Hrl, Hd, !length_app. simpl. lia.
  - intros c1 (l & bs' & it' & Ha' & Hd' & Hl' & Hw' & f & n & E1). rewrite Hrl, Hd, Htake, Hdrop in *.
    replace (ritem (srv c)) with 0 in Hw' by (by rewrite E). set (k1 := filled a it' _ (srv c)) in *.
    destruct (filled_spec H s a id key flags exptime (Z.of_nat (length data)) conf t (data ++ CRLF) it' HIs Hsa HL Hsl Hw') as (HI1 & Hla & Sv1 & R1 & U1).
    destruct (written_payload it data it' Hp Hw') as (r & Eit).
    assert (store k1 = set_heap (<[a := it']> (heap s)) s) as Est by (unfold k1, filled; by rewrite E).
    assert (srv c1 = k1) as Ek by (by rewrite E1).
    apply leads_step. intros nreqs. unfold core_step. core_go. rewrite Ek. replace (state k1) with CONN_NREAD by (unfold k1; by rewrite E).
    unfold core_nread. core_go. rewrite Ek. replace (rlbytes k1) with 0 by (unfold k1; simpl; rewrite E, length_app; simpl; lia). cbn [Z.eqb]. core_go. rewrite Ek.
    eapply wp_mono; [apply (complete_spec H k1 a it' data r); rewrite ?Est; try done; try (unfold k1; by rewrite E)|].
    + cbn. by rewrite (k_slab_lock _ _ K).
    + cbn. by rewrite (k_cache_lock _ _ K).
    + rewrite Eit. change (respool (cfg s) it = false). unfold respool. rewrite B5, B6, B7. apply andb_false_r.
    + rewrite Eit. exact B4.
    + by rewrite Eit.
    + rewrite Eit. unfold data_pos. change (item_is_raligned (set_payload _ it)) with (item_is_raligned it). by rewrite B3.
    + by rewrite Eit.
    + intros [] k2 (s2 & E2 & HI2 & F2 & U2 & R2 & S2 & Hold). core_go. rewrite Est in *.
      assert (i_key it' = key /\ i_dataflags it' = flags /\ i_config_number it' = conf /\ i_exptime it' = exptime) as (I1 & I2 & I3 & I4) by (by rewrite Eit).
      rewrite I1, I2, I3 in *. set (c2 := set_srv k2 c1).
      assert (out k2 = out k) as Eo by (rewrite E2; unfold k1; by rewrite E).
      assert (conn_ok c2) as HC2 by (apply (conn_ok_same c); [done|cbn; by rewrite Eo, E|unfold c2; by rewrite E1|done|unfold c2; by rewrite E1]).
      eapply leads_mono; [apply (write_leads e reqs_per_event c2 (init (bytes "STORED" ++ CRLF)) more); try done; cbn [srv c2 set_srv]; rewrite ?Eo; try done; try (by rewrite E2)|].
      * change (length (init (bytes "STORED" ++ CRLF))) with 8%nat. unfold c2. rewrite E1. eapply takes_le; [exact Hta|]. lia.
      * intros c3 (HC3 & Hs3 & Ht3 & Hr3 & Hi3 & o3 & E3). cbn in E3, Hs3, Hr3, Hi3.
        assert (store (srv c3) = s2) as Est3 by (by rewrite E3, E2).
        assert (frame (store k) s2) as F by (transitivity s; [apply K|]; transitivity (set_heap (<[a:=it']> (heap s)) s); [by split|done]).
        unfold set_done. rewrite Est3. split_and!; try done.
        -- split; [done|by rewrite E3, E2|by rewrite E3, E2|]. rewrite E3, E2. unfold k1. by rewrite E.
        -- split; [done|by rewrite (k_slab_lock _ _ F)|by rewrite (k_cache_lock _ _ F)|]. apply U2, U1. by eapply keeps_used.
        -- rewrite E3, E2. unfold k1. by rewrite E.
        -- exists bs'. rewrite Hi3, Hr3, E1. by rewrite E1 in Hd'.
        -- intros b Hb. assert (b <> a) as Hba by (by intros ->). eapply reads_trans; [|by eapply reads_trans; [apply R1|apply R2]].
           intros x Hx. exists x. split; [|done]. destruct (inv_held_item H _ HI b Hb) as (y & Hy & Hpos). apply (k_ref _ _ K); congruence.
        -- intros key' x Hk Hx. apply S2 in Hx; [|done]. apply Sv1 in Hx. by eapply keeps_serves.
        -- left. split; [by rewrite Hs3, E1|]. intros [HL1 HL2]. apply Hold. split; rewrite ?I4; cbn; by rewrite ?(k_cfg _ _ K), (k_clk _ _ K).
Qed.
Lemma set_leads more H c bs req rest w2 ws n frag key flags exptime data :
  0 < reqs_per_event -> idle c -> calm H (store (srv c)) -> Z.of_nat (length H) + 2 <= MAX_HELD ->
  alloc_ok (store (srv c)) false -> (14 <= wsize (srv c))%nat ->
  words req = bytes "set" :: w2 :: ws -> set_request (asc_tokenize req TOKEN_MAX) n frag key flags exptime (Z.of_nat (length data)) ->
  data <> [] -> Z.of_nat (length data) < 2 ^ 31 - 2 -> fits (cfg (store (srv c))) (Z.of_nat (length key)) (Z.of_nat (length data)) ->
  (n = -1 \/ n = configuration_number (srv c)) -> configuration_number (srv c) <> -1 ->
  (length req < 1024)%nat -> 10 ∉ req -> 0 ∉ req ->
  arrives (incoming c) bs -> rdata c ++ bs = req ++ CRLF ++ data ++ CRLF ++ rest -> Z.of_nat (length (rdata c ++ bs)) < 2 ^ 30 ->
  takes (sends c) (14 + more) ->
  leads e reqs_per_event (set_done more H (store (srv c)) (configuration_number (srv c)) (sent c) key flags
    (if frag =? -1 then configuration_number (srv c) else frag) (time_reltime (clk (store (srv c))) exptime) data rest) c.
Proof.
  intros Hreqs HC HS HH Hal Hw Hwords HR Hne Hmax Hf Hcfg Hcfg0 Hline H10 H0 Ha Hdata Hb Ht.
  assert (rdata c ++ bs = (req ++ [13]) ++ 10 :: data ++ CRLF ++ rest) as Hd by (rewrite Hdata, <-app_assoc; done).
  assert (req <> []) as Hreq by (intros ->; discriminate Hwords).
  assert (asc_parse_type (asc_tokenize req TOKEN_MAX) = Some REQ_SET) as Htype by (rewrite (parse_type_command req _ w2 ws Hwords); done).
  assert (0 < length data)%nat as Hlen by (destruct data; [done|simpl; lia]).
  eapply leads_trans; [apply (line_leads e reqs_per_event Hreqs c bs (req ++ [13]) (data ++ CRLF ++ rest)); try apply HC; try done|].
  { rewrite not_elem_of_app, list_elem_of_singleton. done. }
  { rewrite length_app. simpl. lia. }
  { by rewrite <-Hd. }
  intros c1 (left_ & bs' & E1 & Er & Ha1 & [C1 (x & o1 & i1 & ty & es & Ek) Ess Est] & Hst1).
  apply leads_step. intros nr. eapply (parse_line e c1 req left_ nr); try done.
  apply (dispatch_spec e (srv c1) req REQ_SET); [apply C1|done|]. intros o HRo Hmo. set (k := set_cn _ _).
  cbn [asc_handle]. asc_go. set (k' := set_store _ k).
  assert (exists es', store k' = set_events es' (store (srv c))) as (es' & Es) by (unfold k', k; rewrite Ek; by eexists).
  assert (configuration_number k' = configuration_number (srv c) /\ noreply k' = false /\ c_item k' = None /\ wsize k' = wsize (srv c)) as (Ec & En & Ei & Ew).
  { unfold k', k. rewrite Ek. split_and!; [done|apply HC|apply HC|done]. }
  destruct HS as [HI Hsl Hca HU].
  assert (calm H (store k')) as HS' by (by rewrite Es).
  eapply wp_mono; [apply (set_header_spec H k' (asc_tokenize req TOKEN_MAX) n frag key flags exptime (Z.of_nat (length data))); rewrite ?Es, ?Ec, ?Ew; try done; try lia|].
  { destruct Hal; by split. }
  intros [] k2 Hk2. set (c2 := set_rdata left_ (set_srv k2 c1)).
  assert (serving more H k' c2) as SV.
  { split; try done; [|by rewrite Ew|by cbn; rewrite Ess].
    destruct C1 as [_ F2 F3 F4]. split; try done.
    - replace (out (srv c2)) with o by (by destruct Hk2 as [(? & ? & ? & ? & -> & _)|(? & -> & _)]). by eapply resp_fit.
    - cbn. rewrite E1, !length_app in F3. simpl in F3. lia. }
  rewrite <-Est. eapply leads_mono; [|intros c' Hc'; apply (set_done_events more H _ es'); exact Hc'].
  change (sent c1) with (sent c2). rewrite <-Es, <-Ec. replace (clk (store (srv c))) with (clk (store k')) by (by rewrite Es).
  destruct Hk2 as [Hk2|Hk2]; [by eapply ready_leads|by eapply refused_leads].
Qed.
End set.

(** A set of [foo] and a get of it, on an empty cache. *)
Definition ex_set : list Z := bytes "set 3 -1 foo 7 0 5".
Definition ex_get : list Z := bytes "get -1 foo".

Lemma ex_set_request : set_request (asc_tokenize ex_set TOKEN_MAX) 3 (-1) (bytes "foo") 7 0 5.
Proof.
  split; [apply tokenize_tokenized|by vm_compute|..].
  3: { eexists. split; [vm_compute; reflexivity|]. split; [vm_compute; reflexivity|]. apply Nat.leb_le. reflexivity. }
  all: eexists _, _; split; [vm_compute; reflexivity|split; [reflexivity|vm_compute; reflexivity]].
Qed.

Lemma ex_fits : fits (cfg ex_init) 3 5.
Proof. exists 1. split; by vm_compute. Qed.

Lemma ex_calm : calm [] ex_init.
Proof. split; [apply ex_init_inv|by vm_compute|by vm_compute|]. intros a it Ha. assert (heap ex_init = ∅) as He by (vm_compute; reflexivity). by rewrite He, lookup_empty in Ha. Qed.

Lemma ex_lasts : lasts ex_init (time_reltime (clk ex_init) 0).
Proof. split; left; by vm_compute. Qed.

(** C8: A set is served from its first byte to the last byte of its response.
    Over TCP, with memory for the response and a value some slab class has room
    for: however the request and its value arrive, and whatever else follows them,
    the connection comes to be idle again with exactly the rest of the input.
    Either STORED was sent and the store serves the value under the key with the
    flags and the configuration number of the fragment (unless it expired at
    once), or there was no memory, SERVER_ERROR was sent, the value was skipped
    and the key is not served.  Other keys are served as before or were evicted,
    and nobody who holds an item sees it change. *)
Theorem set_served e reqs_per_event more H c bs req rest w2 ws n frag key flags exptime data
  (Hreqs : 0 < reqs_per_event) (HC : idle c) (HS : calm H (store (srv c))) (HH : Z.of_nat (length H) + 2 <= MAX_HELD)
  (Hal : alloc_ok (store (srv c)) false) (Hw : (14 <= wsize (srv c))%nat)
  (Hwords : words req = bytes "set" :: w2 :: ws)
  (HR : set_request (asc_tokenize req TOKEN_MAX) n frag key flags exptime (Z.of_nat (length data)))
  (Hne : data <> []) (Hmax : Z.of_nat (length data) < 2 ^ 31 - 2)
  (Hfit : fits (cfg (store (srv c))) (Z.of_nat (length key)) (Z.of_nat (length data)))
  (Hcfg : n = -1 \/ n = configuration_number (srv c)) (Hcfg0 : configuration_number (srv c) <> -1)
  (Hline : (length req < 1024)%nat) (H10 : 10 ∉ req) (H0 : 0 ∉ req)
  (Ha : arrives (incoming c) bs) (Hdata : rdata c ++ bs = req ++ CRLF ++ data ++ CRLF ++ rest)
  (Hb : Z.of_nat (length (rdata c ++ bs)) < 2 ^ 30) (Ht : takes (sends c) (14 + more)) :
  leads e reqs_per_event (set_done more H (store (srv c)) (configuration_number (srv c)) (sent c) key flags
    (if frag =? -1 then configuration_number (srv c) else frag) (time_reltime (clk (store (srv c))) exptime) data rest) c.
Proof. by eapply set_leads. Qed.

Lemma set_served_witness :
  leads ex_renv 20 (set_done 0 [] ex_init 3 [] (bytes "foo") 7 3 (time_reltime (clk ex_init) 0) (bytes "hello") (bytes "quit"))
    (ex_core ex_init [Data (bytes "set 3 -1 "); ReadBlock; Data (bytes "foo 7 0 5" ++ CRLF ++ bytes "hel"); ReadBlock;
       Data (bytes "lo" ++ CRLF ++ bytes "quit")] [Sent 5; WouldBlock; Sent 5; Sent 5; Sent 5; Sent 5; Sent 5; Sent 5; Sent 5; Sent 5; Sent 5; Sent 5; Sent 5; Sent 5; Sent 5]).
Proof.
  pose proof ex_calm as HS. pose proof ex_alloc_ok as Hal. pose proof ex_fits as Hf. pose proof ex_set_request as HR.
  assert (words ex_set = bytes "set" :: bytes "3" :: [bytes "-1"; bytes "foo"; bytes "7"; bytes "0"; bytes "5"]) as Hw by (vm_compute; reflexivity).
  assert (Z.of_nat (length (@nil addr)) + 2 <= MAX_HELD) as HH by by vm_compute.
  set (s0 := ex_init) in *. clearbody s0.
  refine (set_served ex_renv 20 0 [] (ex_core s0 _ _) (bytes "set 3 -1 " ++ (bytes "foo 7 0 5" ++ CRLF ++ bytes "hel") ++ (bytes "lo" ++ CRLF ++ bytes "quit") ++ [])
    ex_set (bytes "quit") _ _ 3 (-1) (bytes "foo") 7 0 (bytes "hello") eq_refl (ex_idle _ _ _) HS HH Hal _ Hw HR _ _ Hf (or_intror eq_refl) _ _ _ _ _ _ _ _).
  - simpl. lia.
  - discriminate.
  - by vm_compute.
  - simpl. lia.
  - apply Nat.ltb_lt. reflexivity.
  - apply (bool_decide_unpack _). vm_compute. exact I.
  - apply (bool_decide_unpack _). vm_compute. exact I.
  - repeat (apply arrives_app || apply arrives_block || apply arrives_nil || discriminate).
  - vm_compute. reflexivity.
  - vm_compute. reflexivity.
  - simpl. repeat constructor.
Defined.

(** ** A value comes back *)

(** The text of a value in the response to a get. *)
Definition value_text (key : list Z) (flags conf : Z) (data : list Z) : list Z :=
  bytes "VALUE " ++ key ++ num flags ++ num (Z.of_nat (length data)) ++ num (u32 conf) ++ CRLF ++ data ++ CRLF.

Lemma holds_text H s key flags conf data old : inv H s -> holds s key flags conf data -> found_under s key old ->
  hit_text false old = init (value_text key flags conf data).
Proof.
  intros HI (it & (b & Hb & Hv) & <- & <- & <- & E4 & E5 & _) Ho. destruct old as [x|]; [|by rewrite (Ho b it Hb) in Hv].
  destruct Ho as (b' & Hb' & _). destruct (bound_inj H s _ b b' it x HI Hb Hb') as [_ <-].
  unfold hit_text, text_of, header_of, value_text. rewrite E4, E5, !init_app. cbn [default]. by rewrite <-!app_assoc.
Qed.

(** A key that is not served, or whose item has this text. *)
Definition answers s (key : list Z) (P : mem) : Prop :=
  forall old, found_under s key old -> hit_text false old = P /\
    forall x, old = Some x -> widths (use_cas (cfg s)) x /\ respool (cfg s) x = false.

Lemma holds_answers H s key flags conf data : inv H s -> 0 <= flags < 2 ^ 32 -> Z.of_nat (length data) < 2 ^ 32 ->
  holds s key flags conf data -> answers s key (init (value_text key flags conf data)).
Proof.
  intros HI Hf Hd HH old Ho. split; [by eapply holds_text|]. intros x ->. destruct HH as (it & (b & Hb & _) & _ & <- & _ & E4 & _ & E6 & E7).
  destruct Ho as (b' & Hb' & _). destruct (bound_inj H s _ b b' it x HI Hb Hb') as [_ <-]. split; [|done]. split_and!; try done; lia.
Qed.

Lemma unserved_answers s key : (forall x, ~ serves s key x) -> answers s key [].
Proof. intros Hn [x|] Ho; [|done]. destruct Ho as (b & Hb & Hv). destruct (Hn (entry_of x)). by exists b, x. Qed.

Lemma get_one_leads e reqs_per_event H c bs req rest w2 key t1 str n more P :
  0 < reqs_per_event -> idle c -> calm H (store (srv c)) -> Z.of_nat (length H) + 1 <= MAX_HELD ->
  answers (store (srv c)) key P -> words req = [bytes "get"; w2; key] -> short_key key -> (1 < rq_fuel e)%nat ->
  asc_tokenize req TOKEN_MAX !! 1%nat = Some t1 -> t_val t1 = Some str -> mc_strtol str = (true, n) ->
  (n = -1 \/ n = configuration_number (srv c)) -> configuration_number (srv c) <> -1 ->
  (length req < 1024)%nat -> 10 ∉ req -> 0 ∉ req ->
  arrives (incoming c) bs -> rdata c ++ bs = req ++ CRLF ++ rest -> Z.of_nat (length (rdata c ++ bs)) < 2 ^ 30 ->
  takes (sends c) (length P + 5 + more) ->
  leads e reqs_per_event (fun c' => idle c' /\ calm H (store (srv c')) /\ takes (sends c') more /\
    (exists bs', arrives (incoming c') bs' /\ rdata c' ++ bs' = rest) /\
    sent c' = sent c ++ P ++ init (bytes "END" ++ CRLF) /\ looks (store (srv c)) (store (srv c'))) c.
Proof.
  intros Hreqs HC HS HH HA Hwords Hshort Hfuel Ht1 Hs1 Hn Hcfg Hcfg0 Hline H10 H0 Ha Hdata Hb Ht.
  assert (forall olds, Forall2 (found_under (store (srv c))) [key] olds ->
    get_text (bool_decide (bytes "get" = bytes "gets")) olds = P ++ init (bytes "END" ++ CRLF)) as Htext.
  { intros olds HF. inversion HF as [|? old ? l Ho HF']; subst. inversion HF'; subst. unfold get_text.
    change (bool_decide (bytes "get" = bytes "gets")) with false. cbn [fmap list_fmap mjoin list_join]. rewrite app_nil_r. by rewrite (proj1 (HA _ Ho)). }
  eapply leads_mono; [eapply (get_leads e reqs_per_event H c bs req rest (bytes "get") w2 [key] t1 str n more); try done|].
  - intros k x ->%list_elem_of_singleton Hx. by apply (HA _ Hx).
  - intros k x ->%list_elem_of_singleton Hx. by apply (HA _ Hx).
  - by left.
  - by constructor.
  - intros olds HF. rewrite (Htext olds HF), length_app. exact Ht.
  - intros c' (olds & bs' & HF & Hse & Htk & Ha' & Hd' & ID & CM & Lk). rewrite (Htext olds HF) in Hse. split_and!; try done. by exists bs'.
Qed.

Lemma strtoul_range str x : mc_strtoul str = (true, x) -> 0 <= x < 2 ^ 32.
Proof.
  unfold mc_strtoul. destruct (strto_scan 10 str) as [[neg v] rest]. destruct (strtoul_val neg v) as [l er].
  destruct er; [done|]. destruct (end_ok str rest); [|done]. destruct (_ && _); [done|]. intros [= <-]. by apply Z.mod_pos_bound.
Qed.

(** C7: What a client sets a get brings back, over the wire.  Over TCP, with
    memory for the responses, a connection that is idle and receives a set and
    then a get of the same key, in whatever pieces, comes to have sent STORED, the
    key, the flags, the length of the value, the configuration number of its
    fragment and the value byte for byte, and END; or, when there was no memory
    for the item, SERVER_ERROR and END without a value: never an old value of the
    key.  It is then idle with the rest of the input. *)
Theorem set_get_served e reqs_per_event more H c bs req req' rest w2 ws n frag key flags exptime data w2' t1 str n'
  (Hreqs : 0 < reqs_per_event) (HC : idle c) (HS : calm H (store (srv c))) (HH : Z.of_nat (length H) + 2 <= MAX_HELD)
  (Hal : alloc_ok (store (srv c)) false) (Hw : (14 <= wsize (srv c))%nat) (Hfuel : (1 < rq_fuel e)%nat)
  (Hwords : words req = bytes "set" :: w2 :: ws)
  (HR : set_request (asc_tokenize req TOKEN_MAX) n frag key flags exptime (Z.of_nat (length data)))
  (Hne : data <> []) (Hmax : Z.of_nat (length data) < 2 ^ 31 - 2)
  (Hfit : fits (cfg (store (srv c))) (Z.of_nat (length key)) (Z.of_nat (length data)))
  (Hlast : lasts (store (srv c)) (time_reltime (clk (store (srv c))) exptime))
  (Hcfg : n = -1 \/ n = configuration_number (srv c)) (Hcfg0 : configuration_number (srv c) <> -1)
  (Hline : (length req < 1024)%nat) (H10 : 10 ∉ req) (H0 : 0 ∉ req)
  (Hwords' : words req' = [bytes "get"; w2'; key])
  (Ht1 : asc_tokenize req' TOKEN_MAX !! 1%nat = Some t1) (Hs1 : t_val t1 = Some str) (Hn' : mc_strtol str = (true, n'))
  (Hcfg' : n' = -1 \/ n' = configuration_number (srv c))
  (Hline' : (length req' < 1024)%nat) (H10' : 10 ∉ req') (H0' : 0 ∉ req')
  (Ha : arrives (incoming c) bs) (Hdata : rdata c ++ bs = req ++ CRLF ++ data ++ CRLF ++ req' ++ CRLF ++ rest)
  (Hb : Z.of_nat (length (rdata c ++ bs)) < 2 ^ 30) :
  let conf := if frag =? -1 then configuration_number (srv c) else frag in
  takes (sends c) (14 + (length (value_text key flags conf data) + 5 + more)) ->
  leads e reqs_per_event (fun c' => idle c' /\ calm H (store (srv c')) /\ takes (sends c') more /\
    (exists bs', arrives (incoming c') bs' /\ rdata c' ++ bs' = rest) /\
    (sent c' = sent c ++ init (bytes "STORED" ++ CRLF ++ value_text key flags conf data ++ bytes "END" ++ CRLF) \/
     sent c' = sent c ++ init (bytes "SERVER_ERROR" ++ CRLF ++ bytes "END" ++ CRLF))) c.
Proof.
  intros conf Ht. eapply leads_trans; [by eapply (set_leads e reqs_per_event (length (value_text key flags conf data) + 5 + more))|]. fold conf.
  intros c1 (ID & CM & F & Hc1 & Ht' & (bs1 & Ha1 & Hd1) & _ & _ & Hres).
  assert (short_key key) as Hshort.
  { destruct (sr_key _ _ _ _ _ _ _ HR) as (t & _ & <- & Hl). unfold short_key, t_key. rewrite length_take. lia. }
  assert (0 <= flags < 2 ^ 32) as Hfl by (destruct (sr_flags _ _ _ _ _ _ _ HR) as (t & s & _ & _ & Hp); by eapply strtoul_range).
  assert (Z.of_nat (length (rdata c1 ++ bs1)) < 2 ^ 30) as Hb1 by (rewrite Hdata, !length_app in Hb; rewrite Hd1, !length_app; lia).
  assert (forall P S, answers (store (srv c1)) key P -> (length P <= length (value_text key flags conf data))%nat -> sent c1 = sent c ++ init S ->
    leads e reqs_per_event (fun c' => idle c' /\ calm H (store (srv c')) /\ takes (sends c') more /\
      (exists bs', arrives (incoming c') bs' /\ rdata c' ++ bs' = rest) /\ sent c' = sent c ++ init S ++ P ++ init (bytes "END" ++ CRLF)) c1) as Hget.
  { intros P S HA HP HSe. eapply leads_mono; [eapply (get_one_leads e reqs_per_event H c1 bs1 req' rest w2' key t1 str n' more P); try done|].
    - lia.
    - by rewrite Hc1.
    - by rewrite Hc1.
    - eapply takes_le; [exact Ht'|]. lia.
    - intros c' (I1 & I2 & I3 & I4 & I5 & _). rewrite HSe in I5. by rewrite <-app_assoc in I5. }
  assert (Z.of_nat (length data) < 2 ^ 32) as Hd32 by lia. destruct Hres as [[Hse Hold]|[Hse Hno]].
  - pose proof (holds_answers H _ _ _ _ _ (cm_inv _ _ CM) Hfl Hd32 (Hold Hlast)) as HA.
    eapply leads_mono; [apply (Hget _ (bytes "STORED" ++ CRLF) HA); [by rewrite length_init|exact Hse]|].
    intros c' (I1 & I2 & I3 & I4 & I5). split_and!; try done. left. rewrite I5, !init_app, <-!app_assoc. done.
  - eapply leads_mono; [apply (Hget [] (bytes "SERVER_ERROR" ++ CRLF) (unserved_answers _ _ Hno)); [simpl; lia|exact Hse]|].
    intros c' (I1 & I2 & I3 & I4 & I5). split_and!; try done. right. rewrite I5, !init_app, <-!app_assoc. done.
Qed.

Lemma set_get_served_witness :
  leads ex_renv 20 (fun c' => idle c' /\ calm [] (store (srv c')) /\ takes (sends c') 0 /\
    (exists bs', arrives (incoming c') bs' /\ rdata c' ++ bs' = bytes "quit") /\
    (sent c' = init (bytes "STORED" ++ CRLF ++ value_text (bytes "foo") 7 3 (bytes "hello") ++ bytes "END" ++ CRLF) \/
     sent c' = init (bytes "SERVER_ERROR" ++ CRLF ++ bytes "END" ++ CRLF)))
    (ex_core ex_init [Data (bytes "set 3 -1 "); ReadBlock; Data (bytes "foo 7 0 5" ++ CRLF ++ bytes "hel"); ReadBlock;
       Data (bytes "lo" ++ CRLF ++ bytes "get -1 foo" ++ CRLF ++ bytes "quit")] (replicate 60 (Sent 5))).
Proof.
  pose proof ex_calm as HS. pose proof ex_alloc_ok as Hal. pose proof ex_fits as Hf. pose proof ex_set_request as HR. pose proof ex_lasts as HL.
  assert (words ex_set = bytes "set" :: bytes "3" :: [bytes "-1"; bytes "foo"; bytes "7"; bytes "0"; bytes "5"]) as Hw by (vm_compute; reflexivity).
  assert (words ex_get = [bytes "get"; bytes "-1"; bytes "foo"]) as Hw' by (vm_compute; reflexivity).
  assert (asc_tokenize ex_get TOKEN_MAX !! 1%nat = Some (Token (Some (bytes "-1 foo")) 2)) as Ht1 by (vm_compute; reflexivity).
  assert (mc_strtol (bytes "-1 foo") = (true, -1)) as Hn' by (vm_compute; reflexivity).
  assert (Z.of_nat (length (@nil addr)) + 2 <= MAX_HELD) as HH by by vm_compute.
  assert (1 < rq_fuel ex_renv)%nat as Hfuel by (by apply Nat.ltb_lt).
  set (s0 := ex_init) in *. clearbody s0.
  refine (set_get_served ex_renv 20 0 [] (ex_core s0 _ _)
    (bytes "set 3 -1 " ++ (bytes "foo 7 0 5" ++ CRLF ++ bytes "hel") ++ (bytes "lo" ++ CRLF ++ bytes "get -1 foo" ++ CRLF ++ bytes "quit") ++ [])
    ex_set ex_get (bytes "quit") _ _ 3 (-1) (bytes "foo") 7 0 (bytes "hello") _ _ _ (-1) eq_refl (ex_idle _ _ _) HS HH Hal _ Hfuel Hw HR _ _ Hf HL
    (or_intror eq_refl) _ _ _ _ Hw' Ht1 eq_refl Hn' (or_introl eq_refl) _ _ _ _ _ _ _).
  - simpl. lia.
  - discriminate.
  - by vm_compute.
  - simpl. lia.
  - apply Nat.ltb_lt. reflexivity.
  - apply (bool_decide_unpack _). vm_compute. exact I.
  - apply (bool_decide_unpack _). vm_compute. exact I.
  - apply Nat.ltb_lt. reflexivity.
  - apply (bool_decide_unpack _). vm_compute. exact I.
  - apply (bool_decide_unpack _). vm_compute. exact I.
  - repeat (apply arrives_app || apply arrives_block || apply arrives_nil || discriminate).
  - vm_compute. reflexivity.
  - vm_compute. reflexivity.
  - apply ex_takes. apply Nat.leb_le. vm_compute. reflexivity.
Defined.
